(* ===== verification/_CoqProject ===== *)
-Q . S2P
Prelude.v
Encoding.v
Crypto.v
Types.v
Merkle.v
State.v
Tx.v
Graph.v
Pow.v
Selection.v
Retarget.v
Ghostdag.v
Ordering.v
OrderingV2.v
SelectionV2.v
GhostdagV1.v
GhostdagV1Props.v
Mining.v
Genesis.v
Apply.v
ApplyProps.v
Validation.v
ValidationProps.v
DagInvariant.v
Mempool.v
MempoolProps.v
Commit.v
CommitProps.v
Text.v
ContractV3.v
PulseScript.v
PulseScriptProps.v
Monetary.v
Denomination.v
OrderingV2Props.v
Reward.v
RewardProps.v
Headers.v
Protocol.v
AcceptanceV2.v
TxV3.v
MempoolV3.v
MempoolResource.v
MempoolResourceProps.v
ApplyBlockProps.v
Accept.v
Orphans.v
OrphansProps.v
AdoptionProps.v
AcceptProps.v
GenesisV3.v
ReplayV3.v
ReplayV3Props.v
ReplayV2.v
AcceptanceV2Props.v
ReplayV2Props.v
Covenant.v
CovenantUtxo.v
CovenantProps.v
PulseClock.v
Templates.v
TemplatesProps.v
ContractState.v
SyncPipeline.v
ReplacementV3.v
AccessSet.v
ColoredUtxo.v
BasedApp.v
TxAdmission.v
TxAdmissionProps.v
PolicyReconcileProps.v
