(* ===== verification/Prelude.v ===== *)
(** * PulseDAG: a verified model of the consensus core

    PulseDAG is a block-DAG node written in Rust.  This library models its
    consensus crate, [src/crates/pulsedag-core/src], and proves the properties
    the rest of the node relies on.  The node's other crates (networking, RPC,
    storage, wallet, miner) are I/O around that crate and are not modelled.

    ** How the parts interact

    A peer or a miner hands the node a block.  [validation.rs] checks it against
    the chain state of [state.rs]: its hash and merkle root ([types.rs]), its
    transactions and signatures ([tx.rs]), its proof of work ([pow.rs]) at the
    difficulty of [retarget.rs], its coinbase, and its state root, for which the
    state of its selected parent ([selection.rs]) is rebuilt by replaying blocks
    with [apply.rs].  [apply.rs] then commits it: the DAG metadata with the
    merge-set colouring of [ghostdag.rs], the selected chain, the order of
    [ordering.rs], the unspent outputs rebuilt by replay from the genesis of
    [genesis.rs], and the mempool reconciled by [mempool.rs] and cut down to its
    resource limits by [mempool_resource_v1.rs].  [accept.rs] wraps the two steps
    into an atomic acceptance with a storage write and a broadcast, and
    [orphans.rs] keeps the blocks whose parents are missing and adopts them when
    the parents arrive.  A transaction enters the mempool through [accept.rs] too,
    under the validation that [tx_protocol.rs] picks and the fee policy that
    [mempool_admission_v3.rs] puts around it: it waits as an orphan while an
    input is unknown, and a full pool evicts a family of lower score for it.

    Rule v2 keeps richer DAG metadata.  [selection_v2.rs] checks a block's parents
    and picks the selected parent by blue work, [ghostdag_v1.rs] classifies the
    whole causal past of a block into blues and reds, [acceptance_v2.rs] stages a
    block with that classification, indexes and prunes, [finality_v2.rs]
    computes the finality point of a tip, and [state_replay_v2.rs] replays the
    ordered DAG into the unspent outputs, skipping conflicting transactions
    whole.  Which rule a network follows is part
    of its identity ([protocol.rs]).

    Version 3 of the protocol replaces the monetary side.  Headers are bound to
    the chain ([header_v2.rs], [header_v3.rs]), genesis is empty
    ([genesis_v3.rs], [block_envelope_v3.rs]), and blocks are ordered by
    [ordering_v2.rs].  A block's first transaction only claims a reward;
    [state_replay_v3.rs] walks the order, applies the authenticated transfers of
    each block and inserts the reward of a score, computed by [monetary_v3.rs] and
    the eligible fees, once that score is mature.  [reward_settlement_v3.rs]
    reports every claim, [monetary_audit_v3.rs] recounts them, and
    [live_reward_settlement_v3.rs] compares the live state with the replay.
    [contract_v3.rs] defines contract transactions and [pulsescript_vm_v1.rs] the
    language and virtual machine of their programs.  [tx_v3.rs] and [pqc.rs]
    define transactions with hybrid signatures, [mempool_v3.rs] their fee policy.

    Spending conditions come in two forms.  [covenant_v1.rs] evaluates six kinds of
    covenant against a witness and a height, and [covenant_utxo_v1.rs] binds one to
    an output under an activation identity ([contract_v3.rs]).  The templates
    ([vault_v1.rs], [htlc_v1.rs], [multisig_v1.rs], [channel_v1.rs],
    [pay_stream_v1.rs]) check signatures themselves and take their time from the
    observational clock of [pulseclock_v1.rs].  [colored_utxo_v1.rs] checks the
    units of coloured outputs.

    Around the ledger, [contract_state_v1.rs] checks the state transition of a
    contract transaction, [access_set_v1.rs] schedules transactions by their declared
    reads and writes, [based_app_v0.rs] and [based_app_state_v0.rs] follow
    commit-and-challenge applications, [mempool_replacement_v3.rs] assesses what a
    transaction would replace, and [sync_pipeline.rs] ranks the peers to sync from
    and tracks the phase of a sync cycle.

    ** Files

    - [Prelude]: fixed-width arithmetic, the [result] type with the [let?]
      notation, loops, field assignment, comparison functions and sorting,
      ordered iteration, the tactics of the library.
    - [Encoding]: bytes, little- and big-endian integers, and the [Delimited]
      interface every serializer implements (its output determines its input,
      even when more bytes follow).
    - [Crypto]: the interface to SHA-256, hex and Ed25519 with its laws, and a
      concrete instance used to evaluate the definitions.
    - [Types], [Merkle]: [types.rs].  [State]: [state.rs] and [errors.rs].
      [Tx]: [tx.rs].  [Pow]: [pow.rs].  [Selection]: [selection.rs].
      [Retarget]: [retarget.rs].  [Graph], [Ghostdag]: [ghostdag.rs].
      [Ordering]: [ordering.rs].  [Mining]: [mining.rs].  [Genesis]:
      [genesis.rs].  [Apply], [Commit]: [apply.rs].  [Validation]:
      [validation.rs].  [Mempool]: [mempool.rs].
    - [SelectionV2]: [selection_v2.rs].  [GhostdagV1]: [ghostdag_v1.rs].
      [Protocol]: [protocol.rs].  [AcceptanceV2]: [genesis_v2.rs],
      [acceptance_v2.rs] and [finality_v2.rs].  [ReplayV2]: [state_replay_v2.rs].
    - [MempoolResource]: [mempool_resource_v1.rs] and the application of a block in
      [apply.rs].  [Accept]: the block part of [accept.rs] and the messages of
      [errors.rs].  [Orphans]: [orphans.rs].  [TxAdmission]: the transaction part of
      [accept.rs], [tx_protocol.rs], [mempool_protocol.rs] and
      [mempool_admission_v3.rs]; its rules are a record
      of operations, and its theorems are proved against the class [AdmissionLaws]
      that both values of [TransactionAdmissionValidation] implement.
    - [OrderingV2]: [ordering_v2.rs].  [Headers]: [header_v2.rs] and
      [header_v3.rs].  [GenesisV3]: [block_envelope_v3.rs] and [genesis_v3.rs].
      [Monetary]: [monetary_v3.rs].  [Denomination]: [denomination_v3.rs].
      [Reward]: [reward_settlement_v3.rs], [validation_v3.rs] and
      [monetary_audit_v3.rs].  [ReplayV3]: [state_replay_v3.rs],
      [validation_v2.rs] and [live_reward_settlement_v3.rs].
    - [Text]: the string operations of the Rust library that the parsers use.
      [ContractV3]: [contract_v3.rs].  [PulseScript]: [pulsescript_vm_v1.rs].
      [TxV3]: [pqc.rs] and [tx_v3.rs].  [MempoolV3]: [mempool_v3.rs].
    - [Covenant]: [covenant_v1.rs].  [CovenantUtxo]: [covenant_utxo_v1.rs].
      [PulseClock]: [pulseclock_v1.rs].  [Templates]: [vault_v1.rs], [htlc_v1.rs],
      [multisig_v1.rs], [channel_v1.rs] and [pay_stream_v1.rs], a part each.
      [ColoredUtxo]: [colored_utxo_v1.rs].
    - [ContractState]: [contract_state_v1.rs].  [AccessSet]: [access_set_v1.rs].
      [BasedApp]: [based_app_v0.rs] and [based_app_state_v0.rs].  [SyncPipeline]:
      [sync_pipeline.rs].  [ReplacementV3]: [mempool_replacement_v3.rs] and the
      conflict graph of [mempool_admission_v3.rs].
    - [ApplyProps], [ValidationProps], [MempoolProps], [CommitProps],
      [DagInvariant], [OrderingV2Props], [GhostdagV1Props], [AcceptanceV2Props],
      [RewardProps], [ReplayV2Props], [ReplayV3Props], [PulseScriptProps],
      [MempoolResourceProps], [OrphansProps], [AcceptProps], [CovenantProps],
      [TemplatesProps], [TxAdmissionProps]: the theorems about the operations of the file named first.
      [PolicyReconcileProps] adds the reconciliations of [TxAdmission];
      [ApplyBlockProps] composes validation, commit and resource limits;
      [AdoptionProps] composes acceptance and the orphan pool.  The other files
      hold their theorems themselves.

    Definitions keep the names of the Rust items they translate; the fields of a
    record carry a short prefix.  A loop body or a block inside a long function
    that is a definition of its own is named after what it does.

    ** Conventions

    Unsigned integers are [Z] with the width at the operation: [checked_add 64],
    [saturating_add 64].  A theorem that depends on a value fitting its Rust type
    says so ([tx_typed], [header_typed]).  A [HashMap] is a [gmap], a [HashSet] a
    [gset]; where code iterates over one, the order is the parameter
    [HashOrder], and the theorems hold for every order.  A [BTreeMap] or
    [BTreeSet] iterates in key order.  [Result] is [result]; where the code can
    also panic ([expect], indexing), the error type is [option PulseError] and
    [Err None] is the panic ([outcome]).  An operation that mutates the state it
    is given and can fail half-way returns the state it leaves behind
    ([apply_transaction], [commit_block_to_state]).  The clock and the process
    environment are arguments.  The persistence, broadcast and storage callbacks
    of [accept.rs] and [orphans.rs] are functions over an abstract world, so the
    theorems hold for every storage, also one that fails at any call.

    Loops that are not structural take fuel, and a theorem shows that the fuel
    the model passes is enough: the ancestor walks ([dfs_fuel_enough], one unit
    per stack push), the selected chain ([chain_loop_spec], one per stored
    block), the retarget window ([recent_loop_total]), the merkle levels
    ([merkle_root_total]), reconciliation ([reconcile_loop_spec], one pass per
    transaction), expiry ([expire_loop_spec], one per mempool id), the v2 order
    (one per stored block, in [derive_ordered_dag_v2_spec]), the selected chains
    and bounded walks of rule v2 (one per stored block), the maturity search
    (66 halvings of a 64-bit interval, in [mature_reward_prefix_score_exact]),
    the materialization of rewards (one per ordered block), the family search and
    the eviction of the mempool limits (one per transaction, in
    [normalize_resources_sound]), the root search (one per orphan) and the adoption
    of orphans (the size of the pool plus two, in [adopt_ready_orphans_complete]),
    the admission of a transaction (one level of nesting and one round of promotion
    per orphan, in [admission_sound]), the serialized mutation of the state (two: the
    source retries once) and the binary search of a commitment set (its length, in [binary_search_spec]).

    ** Parameters

    SHA-256, hex coding and Ed25519 verification ([Crypto], with the laws
    [CryptoLaws]: digest length, hex round trip and length), the kHeavyHash
    primitives of the kaspa crates ([Kaspa]), and the JSON length of a transaction
    ([CarrierJson]), and the texts of two errors ([ErrorText]).  Collision resistance is never
    assumed of the hash function: a theorem that needs it names the serialized
    messages and assumes that no two of those collide ([collision_free]).

    ** What the theorems show

    - Serialization: block hashes, transaction ids, signing messages, state roots
      and merkle roots bind what they are computed from; the mining preimage is
      blind to exactly the nonce and the order of the parents.
    - Proof of work and difficulty: acceptance is hash at most target; the nonce
      search finds the first acceptable nonce; compact targets round down; the
      limb arithmetic of the retarget is exact; the expected difficulty exists
      and stays between its bounds.
    - DAG: the ancestor walk decides reachability; selected parent, selected
      chain, merge set, colouring and total order are what their comments say and
      do not depend on hash-map order.
    - Ledger: the exact effect of applying a transaction; which transactions and
      blocks validate; an accepted block creates at most its subsidy.
    - Node: for the states reached from genesis by committing validated blocks
      and changing the mempool freely ([legacy_reachable], [node_reachable]), the
      DAG indexes stay consistent, the live outputs are the replay of the
      selected chain and hash to the tip's state root, the supply follows the
      subsidy schedule, and a validated block can always be committed.
    - Mempool: reconciliation and expiry terminate and leave a consistent pool; the
      resource limits hold after every block and cut whole families; admission
      returns, keeps the pool free of double spends and within its limits, and leaves
      no transaction without its inputs, whatever it evicts or promotes; under a fee
      policy it takes only what the policy allows, and the production reconciliation
      leaves nothing outside it.
    - Acceptance: applying a validated block succeeds and keeps the node reachable;
      an atomic acceptance publishes exactly what the storage accepted.
    - Orphans: the pool and its indexes stay consistent through any sequence of
      operations, queueing respects its limits, the roots to fetch are exact, and
      adoption terminates; after a full pass in which no block failed for a missing
      parent and no parent is terminal, no orphan is left whose parents are stored.
    - Order v2: the greedy topological order by ready key, total on every acyclic
      stored graph, independent of map order.
    - GHOSTDAG v1: blues and reds partition what the parents of a block add to the
      past of its selected parent; a blue has fewer than k unrelated blues before
      it, a red at least k; every failure names a true cause; and with the default k
      and blue work within 64 bits, a result is the colouring the live node computes.
    - Node v2: in every state reached by metadata commits the stored colouring is
      exact, a commit fails only in its checks of the candidate, and the order and
      the finality boundary exist exactly when every stored block is in the past
      of the selected tip; the replay skips a conflicting transaction without
      trace, a materialized state passes its own snapshot check, and a state that
      passes records its replay, or is a pruned checkpoint that records itself.
    - Money v3: the emission curve, subsidies that add up to the scheduled supply,
      one claim per ordered block, spendable exactly when final and mature; the
      audit agrees with the settlement; every successful replay holds exactly the
      scheduled supply of its mature prefix less the fees not yet paid out; a live
      state that passes its check has the replayed outputs.
    - Contracts and PulseScript: contract digests bind the whole envelope; the
      bytecode reader inverts the writer; validated programs run to a value of the
      analysed type with the analysed cost, or overflow, and never fault.
    - Covenants: a spend is accepted exactly when a declarative authorisation holds;
      a descriptor opens for one parameter set and, for one spend, on one path; an
      attachment opens for its own output and identity only.
    - Templates and clock: signing messages bind what they sign and are separated
      between templates; claim and refund, challenge and timeout exclude each
      other; a stream pays each bucket once; among three or more samples one wrong
      timestamp cannot move the pulse time outside the range of the others.
    - Contract state: one transition per envelope and context.  Access sets: what the
      scheduler accepts is serializable.  Based applications: the fold accepts
      exactly the histories of complete rounds, in any arrival order and from any
      checkpoint; pages miss nothing.  Coloured outputs: units are conserved and a
      colour has one origin.
    - Sync: phases advance in order, counters never decrease, ranks do not overflow
      for real clocks.  Replacement: the conflict package is the direct conflicts and
      their descendants, and the assessment adds up exactly.
    - Seven defects: [stored_header_hash], [replay_conflict_destroys_inputs],
      [compare_merge_set_not_transitive], [missing_parent_by_text],
      [channel_split_saturates], [parked_orphan_counted] and the exception in
      [colored_units_conserved].

    ** Not modelled

    - Other crates: the peer-to-peer network, the RPC server, the RocksDB storage,
      the wallet, the miner and the daemon.  They are asynchronous I/O around the
      modelled crate; storage and broadcast appear as callbacks.
    - The wiring of the activated networks ([network_*_v2.rs], [network_*_v3.rs],
      [native_*_v3.rs], [mining_template_v*.rs], [mined_block_v*.rs],
      [mining_state_v2.rs], [pow_v2.rs], [pow_protocol.rs]) and the start-up and
      transfer files ([replay.rs], [protocol_persistence.rs],
      [snapshot_transfer.rs]), which compose the checks modelled here.
    - Of the modelled files: the serde attributes, the string forms of the
      consensus mode, the display texts of most errors, the latency statistics of
      [accept.rs] and the reporting adapters of [pow.rs].
    - Builds with debug assertions: arithmetic wraps as in a release build, and the
      [debug_assert] of [parent_state_context] is left out.  A sort is an insertion
      sort, which is what the standard sort computes for a total order; the one
      comparator that is not transitive ([compare_merge_set_not_transitive]) may make
      the standard sort order differently or panic. *)

From stdpp Require Export prelude gmap strings list sorting fin_maps fin_sets.
From Stdlib Require Export ZArith Lia.

#[global] Open Scope Z_scope.

(** ** Rust machine integers

    An unsigned Rust integer is a [Z]; the width is an argument of the
    operations that can leave it.  [u_max w] is [uN::MAX] and [in_u w x] is the
    typing judgement [x : uN]. *)

Definition u_max (w : Z) : Z := 2 ^ w - 1.
Definition in_u (w : Z) (x : Z) : Prop := 0 <= x <= u_max w.

Abbreviation u8_max := (u_max 8).
Abbreviation u16_max := (u_max 16).
Abbreviation u32_max := (u_max 32).
Abbreviation u64_max := (u_max 64).
Abbreviation u128_max := (u_max 128).

#[global] Instance in_u_dec w x : Decision (in_u w x).
Proof. unfold in_u. apply _. Defined.

Definition checked_add (w a b : Z) : option Z :=
  if a + b <=? u_max w then Some (a + b) else None.
Definition checked_sub (a b : Z) : option Z :=
  if b <=? a then Some (a - b) else None.
Definition checked_mul (w a b : Z) : option Z :=
  if a * b <=? u_max w then Some (a * b) else None.
Definition saturating_add (w a b : Z) : Z := Z.min (a + b) (u_max w).
Definition saturating_sub (a b : Z) : Z := Z.max (a - b) 0.
Definition saturating_mul (w a b : Z) : Z := Z.min (a * b) (u_max w).
(** [uN::try_from(x)]. *)
Definition try_into (w x : Z) : option Z :=
  if (0 <=? x) && (x <=? u_max w) then Some x else None.

Lemma checked_add_Some w a b c :
  checked_add w a b = Some c <-> c = a + b /\ a + b <= u_max w.
Proof. unfold checked_add. case_match; naive_solver lia. Qed.
Lemma checked_sub_Some a b c :
  checked_sub a b = Some c <-> c = a - b /\ b <= a.
Proof. unfold checked_sub. case_match; naive_solver lia. Qed.
Lemma checked_mul_Some w a b c :
  checked_mul w a b = Some c <-> c = a * b /\ a * b <= u_max w.
Proof. unfold checked_mul. case_match; naive_solver lia. Qed.
Lemma try_into_Some w x y :
  try_into w x = Some y <-> y = x /\ in_u w x.
Proof. unfold try_into, in_u. case_match; naive_solver lia. Qed.

(** ** [Result] *)

Inductive result (E A : Type) : Type :=
| Ok (a : A)
| Err (e : E).
Arguments Ok {E A} _.
Arguments Err {E A} _.

Declare Scope rust_scope.
Delimit Scope rust_scope with rust.
#[global] Open Scope rust_scope.

(** [let? x := c in k] is [let x = c?; k]. *)
Notation "'let?' x := c 'in' k" :=
  (match c with Ok x => k | Err e => Err e end)
  (at level 10, x pattern, c at level 200, k at level 200)
  : rust_scope.
(** [check c in k] is [c?; k]. *)
Notation "'check' c 'in' k" :=
  (match c with Ok _ => k | Err e => Err e end)
  (at level 10, c at level 200, k at level 200)
  : rust_scope.

(** [o.ok_or(e)]. *)
Definition ok_or {E A} (o : option A) (e : E) : result E A :=
  match o with Some a => Ok a | None => Err e end.
Definition map_err {E F A} (f : E -> F) (r : result E A) : result F A :=
  match r with Ok a => Ok a | Err e => Err (f e) end.
(** [r.ok()]. *)
Definition result_ok {E A} (r : result E A) : option A :=
  match r with Ok a => Some a | Err _ => None end.
Definition is_ok {E A} (r : result E A) : bool :=
  match r with Ok _ => true | Err _ => false end.

#[global] Instance result_eq_dec {E A} `{EqDecision E, EqDecision A} :
  EqDecision (result E A).
Proof. solve_decision. Defined.

Lemma ok_or_Ok {E A} (o : option A) (e : E) a :
  ok_or o e = Ok a <-> o = Some a.
Proof. destruct o; naive_solver. Qed.
Lemma result_ok_Some {E A} (r : result E A) a : result_ok r = Some a <-> r = Ok a.
Proof. destruct r; naive_solver. Qed.
Lemma map_err_Ok {E F A} (f : E -> F) (r : result E A) a :
  map_err f r = Ok a <-> r = Ok a.
Proof. destruct r; naive_solver. Qed.

(** [iter.try_fold(acc, f)]: a [for] loop whose body may return early. *)
Fixpoint try_fold {E A B} (f : B -> A -> result E B) (acc : B) (l : list A)
  : result E B :=
  match l with
  | [] => Ok acc
  | x :: l' => let? acc' := f acc x in try_fold f acc' l'
  end.

Lemma try_fold_app {E A B} (f : B -> A -> result E B) acc l1 l2 :
  try_fold f acc (l1 ++ l2) =
  let? acc' := try_fold f acc l1 in try_fold f acc' l2.
Proof.
  revert acc; induction l1 as [|x l1 IH]; intros acc; simpl; [done|].
  destruct (f acc x); [apply IH|done].
Qed.

(** Loop invariants of a [try_fold]: [P] relates the processed prefix to the
    accumulator. *)
Lemma try_fold_ind {E A B} (f : B -> A -> result E B) (P : list A -> B -> Prop) acc l r :
  P [] acc ->
  (forall pre x post b b', l = pre ++ x :: post -> P pre b -> f b x = Ok b' ->
     P (pre ++ [x]) b') ->
  try_fold f acc l = Ok r -> P l r.
Proof.
  intros H0 Hstep Hrun.
  cut (forall post pre b, l = pre ++ post -> P pre b -> try_fold f b post = Ok r -> P l r).
  { intros Hcut. apply (Hcut l [] acc); auto. }
  induction post as [|x post IH]; intros pre b Hl HP Hr; simpl in *.
  - simplify_eq. by rewrite app_nil_r.
  - destruct (f b x) as [b'|] eqn:Hf; [|done].
    apply (IH (pre ++ [x]) b'); [by rewrite <- app_assoc| |done].
    eapply Hstep; eauto.
Qed.

Definition sum_Z (l : list Z) : Z := foldr Z.add 0 l.
Lemma sum_Z_app l1 l2 : sum_Z (l1 ++ l2) = sum_Z l1 + sum_Z l2.
Proof. induction l1; simpl; lia. Qed.

(** ** Tactics *)

(** [inv_ok] takes apart every successful [let?]/[check]/[if] chain in the
    context. *)
Ltac inv_ok_step :=
  match goal with
  | H : Ok _ = Ok _ |- _ => injection H as H; try subst
  | H : Err _ = Ok _ |- _ => discriminate H
  | H : Ok _ = Err _ |- _ => discriminate H
  | H : match ?c with Ok _ => _ | Err _ => _ end = _ |- _ =>
      let E := fresh "Hok" in destruct c eqn:E; try discriminate H
  | H : (if decide ?P then _ else _) = _ |- _ =>
      let E := fresh "Hdec" in destruct (decide P) as [E|E]; try discriminate H
  | H : (if ?c then _ else _) = _ |- _ =>
      let E := fresh "Hif" in destruct c eqn:E; try discriminate H
  | H : match ?c with Some _ => _ | None => _ end = _ |- _ =>
      let E := fresh "Hsome" in destruct c eqn:E; try discriminate H
  | H : ok_or _ _ = Ok _ |- _ => apply ok_or_Ok in H
  | H : checked_add _ _ _ = Some _ |- _ => apply checked_add_Some in H as [? ?]; try subst
  | H : checked_sub _ _ = Some _ |- _ => apply checked_sub_Some in H as [? ?]; try subst
  | H : checked_mul _ _ _ = Some _ |- _ => apply checked_mul_Some in H as [? ?]; try subst
  | H : try_into _ _ = Some _ |- _ => apply try_into_Some in H as [? ?]; try subst
  end.
Ltac inv_ok := repeat inv_ok_step.

(** Boolean tests of the code to propositions. *)
Ltac bool_props :=
  repeat match goal with
  | H : negb _ = true |- _ => apply negb_true_iff in H
  | H : negb _ = false |- _ => apply negb_false_iff in H
  | H : _ && _ = true |- _ => apply andb_true_iff in H as [? ?]
  | H : _ || _ = false |- _ => apply orb_false_iff in H as [? ?]
  | H : bool_decide _ = true |- _ => apply bool_decide_eq_true in H
  | H : bool_decide _ = false |- _ => apply bool_decide_eq_false in H
  | H : (_ =? _) = true |- _ => apply Z.eqb_eq in H
  | H : (_ =? _) = false |- _ => apply Z.eqb_neq in H
  | H : (_ <=? _) = true |- _ => apply Z.leb_le in H
  | H : (_ <=? _) = false |- _ => apply Z.leb_gt in H
  | H : (_ <? _) = true |- _ => apply Z.ltb_lt in H
  | H : (_ <? _) = false |- _ => apply Z.ltb_ge in H
  end.

(** Closed goals: decide a proposition, or evaluate both sides of an equation. *)
Ltac by_decide := apply (bool_decide_unpack _); vm_compute; exact I.
Ltac by_compute := vm_compute; reflexivity.

(** ** Field assignment

    [r <| f := v |>] is the record [r] after [r.f = v], and [r <| f ::= g |>]
    after [r.f = g(r.f)].  A record opts in by declaring its eta expansion. *)
Class Eta (R : Type) := eta_expand : R -> R.
Class Setter {R T : Type} (proj : R -> T) := field_update : (T -> T) -> R -> R.
Arguments field_update {R T} proj {_} g r /.

Ltac derive_setter :=
  match goal with
  | |- @Setter ?R ?T ?proj =>
      let upd := constr:(fun (g : T -> T) (r : R) => ltac:(
        let i := constr:(_ : Eta R) in
        let e := eval hnf in (i r) in
        match e with
        | context C [proj r] => let e' := context C [g (proj r)] in exact e'
        end)) in
      exact upd
  end.
#[export] Hint Extern 0 (Setter _) => derive_setter : typeclass_instances.

Notation "r <| f := v |>" := (field_update f (fun _ => v) r)
  (at level 1, left associativity, f constr at level 9, v at level 200) : rust_scope.
Notation "r <| f ::= g |>" := (field_update f g r)
  (at level 1, left associativity, f constr at level 9, g at level 200) : rust_scope.

(** ** Orderings

    [Ordering] is [comparison]; [then_with] is Rust's lexicographic chaining. *)
Definition then_with (c d : comparison) : comparison :=
  match c with Eq => d | _ => c end.

(** [Iterator::max_by]: the last of the maximal elements. *)
Definition max_by {A} (cmp : A -> A -> comparison) (l : list A) : option A :=
  match l with
  | [] => None
  | x :: l' => Some (foldl (fun best y => match cmp best y with Gt => best | _ => y end) x l')
  end.

(** A comparison function that is a total preorder, and one that is a total
    order ([Eq] only on equal values). *)
Class CmpPre {A} (cmp : A -> A -> comparison) : Prop := {
  cmp_opp a b : cmp b a = CompOpp (cmp a b);
  cmp_trans a b c : cmp a b <> Gt -> cmp b c <> Gt -> cmp a c <> Gt;
}.
Class CmpOrder {A} (cmp : A -> A -> comparison) : Prop := {
  cmp_order_pre :: CmpPre cmp;
  cmp_eq a b : cmp a b = Eq -> a = b;
}.

Definition cmp_le {A} (cmp : A -> A -> comparison) (a b : A) : Prop := cmp a b <> Gt.

#[global] Instance cmp_le_dec {A} (cmp : A -> A -> comparison) : RelDecision (cmp_le cmp).
Proof. intros a b. unfold cmp_le. destruct (cmp a b); solve_decision. Defined.

Section cmp_pre.
Context {A} (cmp : A -> A -> comparison) `{!CmpPre cmp}.

Lemma cmp_refl a : cmp a a = Eq.
Proof. pose proof (cmp_opp (cmp:=cmp) a a). destruct (cmp a a); simpl in *; congruence. Qed.
Lemma cmp_le_anti a b : cmp_le cmp a b -> cmp_le cmp b a -> cmp a b = Eq.
Proof.
  unfold cmp_le. rewrite (cmp_opp (cmp:=cmp) a b). destruct (cmp a b); simpl; congruence.
Qed.
Lemma cmp_eq_trans a b c :
  cmp_le cmp a b -> cmp_le cmp b c -> cmp a c = Eq -> cmp a b = Eq /\ cmp b c = Eq.
Proof.
  intros Hab Hbc Hac.
  assert (Hca : cmp_le cmp c a) by (unfold cmp_le; by rewrite (cmp_opp (cmp:=cmp) a c), Hac).
  split; apply cmp_le_anti; try done; unfold cmp_le in *; by eapply cmp_trans.
Qed.
#[global] Instance cmp_le_total : Total (cmp_le cmp).
Proof.
  intros a b. unfold cmp_le. rewrite (cmp_opp (cmp:=cmp) a b).
  destruct (cmp a b); simpl; [left|left|right]; congruence.
Qed.
#[global] Instance cmp_le_preorder : PreOrder (cmp_le cmp).
Proof.
  split.
  - intros a. unfold cmp_le. by rewrite cmp_refl.
  - intros a b c. apply cmp_trans.
Qed.

Lemma max_by_spec l m :
  max_by cmp l = Some m -> m ∈ l /\ Forall (fun x => cmp_le cmp x m) l.
Proof.
  destruct l as [|x l]; simpl; [done|]. intros [= <-].
  revert x. induction l as [|y l IH]; intros x; simpl.
  { split; [set_solver|]. by constructor. }
  set (z := match cmp x y with Gt => x | _ => y end).
  destruct (IH z) as [Hin Hall].
  assert (Hz : cmp_le cmp x z /\ cmp_le cmp y z /\ (z = x \/ z = y)).
  { unfold z, cmp_le. pose proof (cmp_refl x). pose proof (cmp_refl y).
    pose proof (cmp_opp (cmp:=cmp) x y) as Ho.
    destruct (cmp x y) eqn:Hxy; simpl in Ho;
      (split; [|split; [|auto]]); congruence. }
  destruct Hz as (Hxz & Hyz & Hor). clearbody z.
  apply Forall_cons in Hall as [Hzm Hall].
  split.
  - apply elem_of_cons in Hin as [Hin|Hin]; [destruct Hor; subst|]; set_solver.
  - constructor; [by etrans|]. constructor; [by etrans|done].
Qed.

(** The maximum does not depend on the order of iteration when only equal
    candidates compare equal. *)
Lemma max_by_perm l1 l2 :
  (forall x y, x ∈ l1 -> y ∈ l1 -> cmp x y = Eq -> x = y) ->
  l1 ≡ₚ l2 -> max_by cmp l1 = max_by cmp l2.
Proof.
  intros Heq Hp.
  destruct (max_by cmp l1) as [m1|] eqn:H1, (max_by cmp l2) as [m2|] eqn:H2.
  - apply max_by_spec in H1 as [Hin1 Hall1]. apply max_by_spec in H2 as [Hin2 Hall2].
    rewrite <- Hp in Hin2, Hall2. rewrite Forall_forall in Hall1, Hall2. f_equal.
    apply Heq; [done..|]. apply cmp_le_anti; auto.
  - destruct l2; [|done]. apply Permutation_nil_r in Hp. by subst.
  - destruct l1; [|done]. apply Permutation_nil_l in Hp. by subst.
  - done.
Qed.
End cmp_pre.

#[global] Instance cmp_le_po {A} (cmp : A -> A -> comparison) `{!CmpOrder cmp} :
  PartialOrder (cmp_le cmp).
Proof. split; [apply _|]. intros a b Hab Hba. apply cmp_eq. by apply cmp_le_anti; [apply _|..]. Qed.

Lemma max_by_Some {A} (cmp : A -> A -> comparison) l :
  is_Some (max_by cmp l) <-> l <> [].
Proof. destruct l; simpl; split; intros; naive_solver. Qed.

(** The comparisons of the code are built from these. *)
#[global] Instance Z_compare_order : CmpOrder Z.compare.
Proof.
  split; [split|].
  - intros a b. by rewrite Z.compare_antisym.
  - intros a b c.
    destruct (Z.compare_spec a b), (Z.compare_spec b c), (Z.compare_spec a c); try lia; congruence.
  - intros a b. apply Z.compare_eq.
Qed.
#[global] Instance String_compare_order : CmpOrder String.compare.
Proof.
  assert (Hle : forall a b, String.compare a b <> Gt <-> String.le a b).
  { intros a b. unfold String.le, String.leb. destruct (String.compare a b); simpl; naive_solver. }
  split; [split|].
  - intros a b. apply String.compare_antisym.
  - intros a b c. rewrite !Hle. apply (transitivity (R:=String.le)).
  - apply String.compare_eq_iff.
Qed.
Lemma cmp_pre_comap {A B} (f : A -> B) cmp `{!CmpPre cmp} :
  CmpPre (fun a b => cmp (f a) (f b)).
Proof. split; intros; [apply cmp_opp|by eapply cmp_trans]. Qed.
Lemma cmp_pre_flip {A} (cmp : A -> A -> comparison) `{!CmpPre cmp} :
  CmpPre (fun a b => cmp b a).
Proof. split; intros; [apply cmp_opp|by eapply cmp_trans]. Qed.
Lemma cmp_pre_then {A} (c d : A -> A -> comparison) `{!CmpPre c, !CmpPre d} :
  CmpPre (fun a b => then_with (c a b) (d a b)).
Proof.
  split.
  - intros a b. rewrite (cmp_opp (cmp:=c) a b), (cmp_opp (cmp:=d) a b).
    by destruct (c a b).
  - intros x y z Hxy Hyz.
    assert (Hc1 : cmp_le c x y) by (unfold cmp_le; by destruct (c x y)).
    assert (Hc2 : cmp_le c y z) by (unfold cmp_le; by destruct (c y z)).
    assert (Hc3 : cmp_le c x z) by (by etrans). unfold cmp_le in Hc3.
    destruct (c x z) eqn:E; simpl; [|done..].
    destruct (cmp_eq_trans c x y z Hc1 Hc2 E) as [E1 E2]. rewrite E1 in Hxy. rewrite E2 in Hyz.
    simpl in *. by eapply cmp_trans.
Qed.
Lemma then_with_Eq c d : then_with c d = Eq <-> c = Eq /\ d = Eq.
Proof. destruct c; naive_solver. Qed.

(** Derive [CmpPre] for a chain of [then_with]s of field comparisons. *)
Ltac solve_cmp_pre :=
  repeat first
    [ apply cmp_pre_then
    | apply _
    | match goal with
      | |- CmpPre (fun a b => Z.compare (@?f a) (@?g b)) => apply (cmp_pre_comap f Z.compare)
      | |- CmpPre (fun a b => String.compare (@?f a) (@?g b)) => apply (cmp_pre_comap f String.compare)
      | |- CmpPre (fun a b => Z.compare (@?f b) (@?g a)) =>
          notypeclasses refine (cmp_pre_flip (fun a b => Z.compare (f a) (f b)))
      | |- CmpPre (fun a b => String.compare (@?f b) (@?g a)) =>
          notypeclasses refine (cmp_pre_flip (fun a b => String.compare (f a) (f b)))
      end ].

(** ** Lists *)

Lemma map_inj_on {A B} (f : A -> B) l1 l2 :
  (forall x y, x ∈ l1 -> y ∈ l2 -> f x = f y -> x = y) -> map f l1 = map f l2 -> l1 = l2.
Proof.
  revert l2. induction l1 as [|x l1 IH]; intros [|y l2] Hf Heq; simplify_eq/=; [done|].
  f_equal; [apply Hf; [left|left|done]|].
  apply IH; [|done]. intros. apply Hf; [by right..|done].
Qed.

(** ** Stable sorting

    [slice::sort_by] is stable; so is insertion from the right, which puts a
    new element before the first one it is [<=] to. *)
Section isort.
Context {A} (R : relation A) `{!RelDecision R}.

Fixpoint sort_insert (x : A) (l : list A) : list A :=
  match l with
  | [] => [x]
  | y :: l' => if decide (R x y) then x :: y :: l' else y :: sort_insert x l'
  end.
Definition isort (l : list A) : list A := foldr sort_insert [] l.

Lemma sort_insert_perm x l : sort_insert x l ≡ₚ x :: l.
Proof.
  induction l as [|y l IH]; simpl; [done|]. case_decide; [done|].
  rewrite IH. apply Permutation_swap.
Qed.
Lemma isort_perm l : isort l ≡ₚ l.
Proof. induction l as [|x l IH]; simpl; [done|]. by rewrite sort_insert_perm, IH. Qed.

Lemma sort_insert_sorted `{!Total R} x l : Sorted R l -> Sorted R (sort_insert x l).
Proof.
  induction 1 as [|y l Hs IH Hhd]; simpl; [by repeat constructor|].
  case_decide as Hxy; [by repeat constructor|].
  assert (R y x) by (destruct (total R x y); naive_solver).
  constructor; [done|]. destruct Hhd; simpl in *; [by constructor|].
  case_decide; by constructor.
Qed.
Lemma isort_sorted `{!Total R} l : Sorted R (isort l).
Proof. induction l; simpl; [constructor|]. by apply sort_insert_sorted. Qed.

Lemma isort_ssorted `{!Total R, !Transitive R} l : StronglySorted R (isort l).
Proof. apply Sorted_StronglySorted; [done|apply isort_sorted]. Qed.

(** Sorting by a total order forgets the order of the input. *)
Lemma isort_perm_eq `{!Total R, !PartialOrder R} l1 l2 :
  l1 ≡ₚ l2 -> isort l1 = isort l2.
Proof.
  intros Hp. apply (Sorted_unique R); [apply isort_sorted..|].
  by rewrite !isort_perm.
Qed.
(** The same when [R] is only antisymmetric on the elements at hand. *)
Lemma isort_perm_on `{!Total R, !Transitive R} l1 l2 :
  (forall x y, x ∈ l1 -> y ∈ l1 -> R x y -> R y x -> x = y) ->
  l1 ≡ₚ l2 -> isort l1 = isort l2.
Proof.
  intros Ha Hp. apply (StronglySorted_unique_strong R); [|apply isort_ssorted..|].
  - intros x y. rewrite !isort_perm, <- Hp. apply Ha.
  - by rewrite !isort_perm.
Qed.
Lemma isort_elem_of x l : x ∈ isort l <-> x ∈ l.
Proof. by rewrite isort_perm. Qed.
Lemma isort_nodup l : NoDup (isort l) <-> NoDup l.
Proof. by rewrite isort_perm. Qed.
End isort.

(** Sorting only depends on the comparator on the elements at hand. *)
Lemma isort_ext_on {A} (R S : relation A) `{!RelDecision R, !RelDecision S} l :
  (forall x y, x ∈ l -> y ∈ l -> R x y <-> S x y) -> isort R l = isort S l.
Proof.
  induction l as [|x l IH]; intros HRS; simpl; [done|].
  rewrite IH by (intros; apply HRS; by right).
  assert (Hin : forall y, y ∈ isort S l -> R x y <-> S x y).
  { intros y Hy%isort_elem_of. apply HRS; [left|by right]. }
  clear IH HRS. induction (isort S l) as [|y m IH]; simpl; [done|].
  destruct (Hin y ltac:(left)). rewrite IH by (intros; apply Hin; by right).
  repeat case_decide; naive_solver.
Qed.

Lemma isort_map {A B} (f : A -> B) (R : relation B) (S : relation A) `{!RelDecision R, !RelDecision S} l :
  (forall x y, S x y <-> R (f x) (f y)) -> isort R (map f l) = map f (isort S l).
Proof.
  intros HS. induction l as [|x l IH]; simpl; [done|]. rewrite IH. clear IH.
  induction (isort S l) as [|y m IH]; simpl; [done|]. destruct (HS x y).
  repeat case_decide; simpl; try done; [naive_solver..|]. by rewrite IH.
Qed.

(** Elements of a [BTreeSet<String>] in iteration order. *)
Definition btree_iter (s : gset string) : list string := isort String.le (elements s).

Lemma elem_of_btree_iter s x : x ∈ btree_iter s <-> x ∈ s.
Proof. unfold btree_iter. rewrite isort_elem_of. by rewrite elem_of_elements. Qed.
Lemma NoDup_btree_iter s : NoDup (btree_iter s).
Proof. apply isort_nodup, NoDup_elements. Qed.
Lemma btree_iter_ssorted s : StronglySorted String.le (btree_iter s).
Proof. apply isort_ssorted; apply _. Qed.
Lemma length_btree_iter s : length (btree_iter s) = size s.
Proof. unfold btree_iter. by rewrite isort_perm. Qed.

(** [BTreeSet::pop_first]. *)
Definition pop_first (s : gset string) : option (string * gset string) :=
  match btree_iter s with
  | [] => None
  | x :: _ => Some (x, s ∖ {[x]})
  end.

Lemma pop_first_None s : pop_first s = None <-> s = ∅.
Proof.
  unfold pop_first. pose proof (elem_of_btree_iter s) as Hel.
  destruct (btree_iter s) as [|x l]; split; try done.
  - intros _. apply set_eq. intros y. rewrite <- Hel. set_solver.
  - intros ->. exfalso. specialize (Hel x). set_solver.
Qed.
Lemma pop_first_Some s x s' :
  pop_first s = Some (x, s') -> x ∈ s /\ s' = s ∖ {[x]}.
Proof.
  unfold pop_first. pose proof (elem_of_btree_iter s) as Hel.
  destruct (btree_iter s) as [|y l]; [done|]. intros [= -> <-].
  split; [|done]. apply Hel. set_solver.
Qed.
