(* ===== verification/Encoding.v ===== *)
(** * Byte strings and canonical encodings

    Little-endian integers ([to_le_bytes]/[from_le_bytes]), the byte view of a
    Rust [String], the length-prefixed framing every consensus serializer of
    the repository uses ([encode_len_prefixed_bytes], [encode_string_vec]), and
    the interface those serializers are proved against: [Delimited enc] says
    that an encoding can be cut off unambiguously from whatever follows it. *)

From S2P Require Import Prelude.
From Stdlib Require Import Strings.Byte.
From Stdlib Require Strings.String.

Abbreviation bytes := (list Byte.byte).

#[global] Instance byte_eq_dec : EqDecision Byte.byte := Byte.byte_eq_dec.

(** ** Bytes and integers *)

Definition byte_of_Z (z : Z) : Byte.byte :=
  match Byte.of_N (Z.to_N (z mod 256)) with Some b => b | None => x00 end.
Definition Z_of_byte (b : Byte.byte) : Z := Z.of_N (Byte.to_N b).

Lemma Z_of_byte_range b : 0 <= Z_of_byte b < 256.
Proof. unfold Z_of_byte. pose proof (Byte.to_N_bounded b). lia. Qed.
Lemma Z_of_byte_of_Z z : Z_of_byte (byte_of_Z z) = z mod 256.
Proof.
  unfold Z_of_byte, byte_of_Z. pose proof (Z.mod_pos_bound z 256 ltac:(lia)).
  destruct (Byte.of_N _) as [b|] eqn:Hb.
  - apply Byte.to_of_N_iff in Hb. lia.
  - apply Byte.of_N_None_iff in Hb. lia.
Qed.
Lemma byte_of_Z_of_byte b : byte_of_Z (Z_of_byte b) = b.
Proof.
  unfold byte_of_Z. rewrite Z.mod_small by apply Z_of_byte_range.
  unfold Z_of_byte. by rewrite N2Z.id, Byte.of_to_N.
Qed.

(** [x.to_le_bytes()] on [n] bytes, and [from_le_bytes]. *)
Fixpoint le_bytes (n : nat) (z : Z) : bytes :=
  match n with
  | O => []
  | S n' => byte_of_Z z :: le_bytes n' (z / 256)
  end.
Fixpoint le_value (l : bytes) : Z :=
  match l with
  | [] => 0
  | b :: l' => Z_of_byte b + 256 * le_value l'
  end.

Lemma length_le_bytes n z : length (le_bytes n z) = n.
Proof. revert z; induction n; intros z; simpl; auto. Qed.
Lemma le_value_range l : 0 <= le_value l < 256 ^ Z.of_nat (length l).
Proof.
  induction l as [|b l IH]; cbn [le_value length]; [lia|].
  pose proof (Z_of_byte_range b). rewrite Nat2Z.inj_succ, Z.pow_succ_r by lia. lia.
Qed.
Lemma le_value_le_bytes n z :
  0 <= z < 256 ^ Z.of_nat n -> le_value (le_bytes n z) = z.
Proof.
  revert z; induction n as [|n IH]; intros z Hz; cbn [le_value le_bytes].
  { change (256 ^ Z.of_nat 0) with 1 in Hz. lia. }
  rewrite Nat2Z.inj_succ, Z.pow_succ_r in Hz by lia.
  rewrite Z_of_byte_of_Z, IH.
  - pose proof (Z.div_mod z 256). lia.
  - split; [apply Z.div_pos; lia|]. apply Z.div_lt_upper_bound; lia.
Qed.
Lemma le_bytes_le_value l : le_bytes (length l) (le_value l) = l.
Proof.
  induction l as [|b l IH]; cbn [le_bytes le_value length]; [done|].
  pose proof (Z_of_byte_range b). f_equal.
  - rewrite <- (byte_of_Z_of_byte b) at 2. unfold byte_of_Z.
    rewrite (Z.mul_comm 256), Z_mod_plus_full. done.
  - rewrite (Z.mul_comm 256), Z.div_add, Z.div_small by lia. by rewrite Z.add_0_l.
Qed.

Definition u8_le (x : Z) : bytes := le_bytes 1 x.
Definition u16_le (x : Z) : bytes := le_bytes 2 x.
Definition u32_le (x : Z) : bytes := le_bytes 4 x.
Definition u64_le (x : Z) : bytes := le_bytes 8 x.

(** ** Strings as bytes *)

Definition str_bytes (s : string) : bytes := String.list_byte_of_string s.

#[global] Instance str_bytes_inj : Inj (=) (=) str_bytes.
Proof.
  intros s t Heq. unfold str_bytes in Heq.
  by rewrite <- (String.string_of_list_byte_of_string s), Heq,
    String.string_of_list_byte_of_string.
Qed.

(** ** Writers that can panic

    A Rust encoder that calls [.expect(..)] on a length conversion is a
    function to [option bytes]: [None] is the panic.  [emit] is a sequence of
    [out.extend_from_slice(..)] statements. *)

Fixpoint emit (l : list (option bytes)) : option bytes :=
  match l with
  | [] => Some []
  | o :: l' => match o, emit l' with Some x, Some y => Some (x ++ y) | _, _ => None end
  end.

Lemma emit_cons o l z :
  emit (o :: l) = Some z <-> exists x y, o = Some x /\ emit l = Some y /\ z = x ++ y.
Proof. simpl. repeat case_match; naive_solver. Qed.
Lemma emit_app l1 l2 :
  emit (l1 ++ l2) =
  match emit l1, emit l2 with Some x, Some y => Some (x ++ y) | _, _ => None end.
Proof.
  induction l1 as [|o l1 IH]; simpl; [by destruct (emit l2)|].
  destruct o; [|done]. rewrite IH. repeat case_match; simplify_eq; try done.
  by rewrite app_assoc.
Qed.

(** A writer panics exactly when one of its parts does. *)
Lemma emit_is_Some l : is_Some (emit l) <-> Forall is_Some l.
Proof.
  induction l as [|o l IH]; simpl; [split; auto; by eexists|].
  rewrite Forall_cons, <- IH. destruct o, (emit l); split; naive_solver eauto using is_Some_None.
Qed.

(** A block of writes inside a writer. *)
Lemma emit_nest l1 l2 l3 : emit (l1 ++ l2 ++ l3) = emit (l1 ++ emit l2 :: l3).
Proof.
  rewrite !emit_app. cbn [emit]. by repeat case_match.
Qed.

Definition encode_len_prefixed_bytes (b : bytes) : option bytes :=
  if Z.of_nat (length b) <=? u32_max then
    Some (u32_le (Z.of_nat (length b)) ++ b)
  else None.
Definition encode_len_prefixed_str (s : string) : option bytes :=
  encode_len_prefixed_bytes (str_bytes s).
(** A [u32] element count followed by the elements. *)
Definition encode_vec {A} (enc : A -> option bytes) (l : list A) : option bytes :=
  emit ((if Z.of_nat (length l) <=? u32_max then Some (u32_le (Z.of_nat (length l))) else None)
        :: map enc l).
Definition encode_string_vec (l : list string) : option bytes :=
  encode_vec encode_len_prefixed_str l.

(** ** Delimited encodings *)

(** [enc] restricted to [dom] is uniquely readable: a prefix of the output
    determines the value and the position where its encoding ends. *)
Class Delimited {A} (dom : A -> Prop) (enc : A -> option bytes) : Prop :=
  delimited a b x y r s :
    dom a -> dom b -> enc a = Some x -> enc b = Some y ->
    x ++ r = y ++ s -> a = b /\ r = s.

Definition fixed (n : nat) (x : Z) : option bytes := Some (le_bytes n x).

#[global] Instance fixed_delimited n :
  Delimited (fun x => 0 <= x < 256 ^ Z.of_nat n) (fixed n).
Proof.
  intros a b x y r s Ha Hb Hx Hy Heq. apply (inj Some) in Hx, Hy. subst x y.
  apply app_inj_1 in Heq as [Heq ->]; [|by rewrite !length_le_bytes].
  split; [|done]. apply (f_equal le_value) in Heq.
  by rewrite !le_value_le_bytes in Heq.
Qed.

#[global] Instance len_prefixed_bytes_delimited :
  Delimited (fun _ => True) encode_len_prefixed_bytes.
Proof.
  intros a b x y r s _ _. unfold encode_len_prefixed_bytes.
  destruct (Z.leb_spec (Z.of_nat (length a)) u32_max) as [Ha|]; [|done].
  destruct (Z.leb_spec (Z.of_nat (length b)) u32_max) as [Hb|]; [|done].
  intros Hx Hy Heq. apply (inj Some) in Hx, Hy. subst x y. rewrite <- !app_assoc in Heq.
  apply app_inj_1 in Heq as [Hlen Heq].
  2: { unfold u32_le. by rewrite !length_le_bytes. }
  apply (f_equal le_value) in Hlen. unfold u32_le, u_max in *.
  rewrite !le_value_le_bytes in Hlen by (change (256 ^ Z.of_nat 4) with (2 ^ 32); lia).
  apply app_inj_1 in Heq as [-> ->]; [done|lia].
Qed.

#[global] Instance len_prefixed_str_delimited :
  Delimited (fun _ => True) encode_len_prefixed_str.
Proof.
  intros a b x y r s _ _ Ha Hb Heq.
  destruct (delimited (enc:=encode_len_prefixed_bytes) _ _ _ _ _ _ I I Ha Hb Heq) as [Hs ->].
  split; [|done]. by apply (inj str_bytes).
Qed.

(** Peel the first field off two encodings that agree up to a suffix. *)
Lemma emit_peel {A} dom (enc : A -> option bytes) `{!Delimited dom enc} a b l1 l2 z1 z2 r s :
  dom a -> dom b ->
  emit (enc a :: l1) = Some z1 -> emit (enc b :: l2) = Some z2 ->
  z1 ++ r = z2 ++ s ->
  a = b /\ exists y1 y2, emit l1 = Some y1 /\ emit l2 = Some y2 /\ y1 ++ r = y2 ++ s.
Proof.
  intros Ha Hb (x1 & y1 & Hx1 & Hy1 & ->)%emit_cons (x2 & y2 & Hx2 & Hy2 & ->)%emit_cons Heq.
  rewrite <- !app_assoc in Heq.
  destruct (delimited (enc:=enc) _ _ _ _ _ _ Ha Hb Hx1 Hx2 Heq) as [-> Heq']. eauto 10.
Qed.

Lemma emit_map_delimited {A} dom (enc : A -> option bytes) `{!Delimited dom enc} l1 l2 x y r s :
  length l1 = length l2 -> Forall dom l1 -> Forall dom l2 ->
  emit (map enc l1) = Some x -> emit (map enc l2) = Some y ->
  x ++ r = y ++ s -> l1 = l2 /\ r = s.
Proof.
  revert l2 x y. induction l1 as [|a l1 IH]; intros [|b l2] x y Hlen H1 H2 Hx Hy Heq;
    simpl in Hlen; simplify_eq.
  { simpl in *. simplify_eq. done. }
  apply Forall_cons in H1 as [Ha H1]. apply Forall_cons in H2 as [Hb H2].
  destruct (emit_peel dom enc _ _ _ _ _ _ _ _ Ha Hb Hx Hy Heq)
    as [-> (y1 & y2 & Hy1 & Hy2 & Heq')].
  destruct (IH l2 y1 y2) as [-> ->]; auto.
Qed.

#[global] Instance encode_vec_delimited {A} dom (enc : A -> option bytes) :
  Delimited dom enc -> Delimited (Forall dom) (encode_vec enc).
Proof.
  intros Henc l1 l2 x y r s H1 H2. unfold encode_vec.
  destruct (Z.leb_spec (Z.of_nat (length l1)) u32_max) as [Hl1|]; [|done].
  destruct (Z.leb_spec (Z.of_nat (length l2)) u32_max) as [Hl2|];
    [|intros _ (?&?&?&_)%emit_cons; done].
  intros Hx Hy Heq.
  assert (Hr : forall l : list A, Z.of_nat (length l) <= u32_max ->
    0 <= Z.of_nat (length l) < 256 ^ Z.of_nat 4).
  { intros l Hl. unfold u_max in Hl. change (256 ^ Z.of_nat 4) with (2 ^ 32). lia. }
  destruct (emit_peel _ (fixed 4) _ _ _ _ _ _ _ _ (Hr _ Hl1) (Hr _ Hl2) Hx Hy Heq)
    as [Hlen (y1 & y2 & Hy1 & Hy2 & Heq')].
  eapply emit_map_delimited; eauto; lia.
Qed.

(** An encoder that post-composes an injective projection. *)
Lemma delimited_comap {A B} dom (enc : B -> option bytes) (f : A -> B) `{!Delimited dom enc} :
  Inj (=) (=) f -> Delimited (fun a => dom (f a)) (fun a => enc (f a)).
Proof.
  intros Hf a b x y r s Ha Hb Hx Hy Heq.
  destruct (delimited (enc:=enc) _ _ _ _ _ _ Ha Hb Hx Hy Heq) as [Hab ->].
  split; [by apply (inj f)|done].
Qed.

(** Read one field off the two encodings of the context. *)
Ltac peel dom enc :=
  match goal with
  | H1 : emit (_ :: _) = Some ?z1, H2 : emit (_ :: _) = Some ?z2, Heq : ?z1 ++ _ = ?z2 ++ _ |- _ =>
      let P := fresh in
      let E := fresh "Hfield" in
      let y1 := fresh "z" in let y2 := fresh "z" in
      let K1 := fresh "Henc" in let K2 := fresh "Henc" in let Q := fresh "Heq" in
      pose proof (fun Ha Hb => emit_peel dom enc _ _ _ _ _ _ _ _ Ha Hb H1 H2 Heq) as P;
      cbv beta in P;
      destruct P as [E (y1 & y2 & K1 & K2 & Q)]; [solve [auto]|solve [auto]|];
      clear H1 H2 Heq
  end.

(** ** Big-endian arrays

    [to_be_bytes]/[from_be_bytes], and the order of [[u8; n]] arrays, which is
    lexicographic and hence numeric on arrays of one length. *)

Definition be_bytes (n : nat) (z : Z) : bytes := reverse (le_bytes n z).
Definition be_value (l : bytes) : Z := le_value (reverse l).

Fixpoint bytes_compare (a b : bytes) : comparison :=
  match a, b with
  | [], [] => Eq
  | [], _ => Lt
  | _, [] => Gt
  | x :: a', y :: b' => then_with (Z_of_byte x ?= Z_of_byte y) (bytes_compare a' b')
  end.
Definition bytes_le (a b : bytes) : bool :=
  match bytes_compare a b with Gt => false | _ => true end.

Lemma le_value_app a b :
  le_value (a ++ b) = le_value a + 256 ^ Z.of_nat (length a) * le_value b.
Proof.
  induction a as [|x a IH]; cbn [le_value app length]; [lia|].
  rewrite IH, Nat2Z.inj_succ, Z.pow_succ_r by lia. lia.
Qed.
Lemma be_value_app a b :
  be_value (a ++ b) = be_value a * 256 ^ Z.of_nat (length b) + be_value b.
Proof. unfold be_value. rewrite reverse_app, le_value_app, length_reverse. lia. Qed.
Lemma be_value_range l : 0 <= be_value l < 256 ^ Z.of_nat (length l).
Proof. unfold be_value. rewrite <- (length_reverse l). apply le_value_range. Qed.
Lemma length_be_bytes n z : length (be_bytes n z) = n.
Proof. unfold be_bytes. by rewrite length_reverse, length_le_bytes. Qed.
Lemma be_value_be_bytes n z : 0 <= z < 256 ^ Z.of_nat n -> be_value (be_bytes n z) = z.
Proof. intros Hz. unfold be_value, be_bytes. rewrite reverse_involutive. by apply le_value_le_bytes. Qed.
Lemma be_value_cons x l : be_value (x :: l) = Z_of_byte x * 256 ^ Z.of_nat (length l) + be_value l.
Proof.
  change (x :: l) with ([x] ++ l). rewrite be_value_app. f_equal. f_equal.
  unfold be_value. cbn. lia.
Qed.
Lemma be_value_zeros n : be_value (replicate n x00) = 0.
Proof. induction n as [|n IH]; [done|]. cbn [replicate]. rewrite be_value_cons, IH. done. Qed.

Lemma bytes_compare_value a b :
  length a = length b -> bytes_compare a b = (be_value a ?= be_value b).
Proof.
  revert b. induction a as [|x a IH]; intros [|y b] Hlen; simpl in Hlen; try lia; [done|].
  cbn [bytes_compare]. rewrite !be_value_cons, (IH b) by lia.
  replace (length b) with (length a) by lia.
  pose proof (be_value_range a). pose proof (be_value_range b) as Hb.
  replace (length b) with (length a) in Hb by lia.
  set (p := 256 ^ Z.of_nat (length a)) in *.
  destruct (Z.compare_spec (Z_of_byte x) (Z_of_byte y)) as [E|E|E]; simpl.
  - rewrite E. destruct (Z.compare_spec (be_value a) (be_value b));
      [symmetry; apply Z.compare_eq_iff; lia|symmetry; apply Z.compare_lt_iff; lia|
       symmetry; apply Z.compare_gt_iff; lia].
  - symmetry. apply Z.compare_lt_iff. nia.
  - symmetry. apply Z.compare_gt_iff. nia.
Qed.
Lemma bytes_le_value a b :
  length a = length b -> bytes_le a b = (be_value a <=? be_value b).
Proof. intros Hlen. unfold bytes_le. by rewrite bytes_compare_value. Qed.
