(* ===== verification/Crypto.v ===== *)
(** * Cryptographic primitives

    The repository calls the crates [sha2], [hex] and [ed25519-dalek]; their
    code is not part of it.  They are the operations of the class [Crypto], and
    [CryptoLaws] states what the theorems that need it rely on: a SHA-256 digest
    has 32 bytes, and hexadecimal text decodes to the bytes it renders, is twice
    as long and in lower case.
    Collision resistance is never assumed globally (no function into 32 bytes
    is injective): a theorem that needs it names the messages it hashes and
    assumes that no two of those collide ([collision_free]).
    [model_crypto] is a concrete instance of both classes, used to evaluate the
    definitions. *)

From S2P Require Import Prelude Encoding.
From Stdlib Require Strings.String.

(** [b.is_ascii_digit() || (b'a'..=b'f').contains(&b)]. *)
Definition is_lower_hex (b : Byte.byte) : bool :=
  let c := Z_of_byte b in ((48 <=? c) && (c <=? 57)) || ((97 <=? c) && (c <=? 102)).

Class Crypto := {
  (** [Sha256::digest]. *)
  sha256 : bytes -> bytes;
  (** [hex::encode] and [hex::decode]. *)
  hex_encode : bytes -> string;
  hex_decode : string -> option bytes;
  (** [VerifyingKey::from_bytes(pk).is_ok()] and [key.verify(message, sig).is_ok()]. *)
  ed25519_key_ok : bytes -> bool;
  ed25519_verify : bytes -> bytes -> bytes -> bool;
}.

Class CryptoLaws `{Crypto} : Prop := {
  sha256_length b : length (sha256 b) = 32%nat;
  hex_decode_encode b : hex_decode (hex_encode b) = Some b;
  hex_encode_length b : length (str_bytes (hex_encode b)) = (2 * length b)%nat;
  hex_encode_lower b : forallb is_lower_hex (str_bytes (hex_encode b)) = true;
}.

#[global] Instance hex_encode_inj `{CryptoLaws} : Inj (=) (=) hex_encode.
Proof.
  intros a b Hab. apply (f_equal hex_decode) in Hab.
  rewrite !hex_decode_encode in Hab. by simplify_eq.
Qed.

(** No two of the listed messages have the same digest. *)
Definition collision_free `{Crypto} (ms : list bytes) : Prop :=
  forall x y, x ∈ ms -> y ∈ ms -> sha256 x = sha256 y -> x = y.

Lemma collision_free_mono `{Crypto} ms ms' :
  ms' ⊆ ms -> collision_free ms -> collision_free ms'.
Proof. intros Hsub Hcf x y Hx Hy. by apply Hcf; apply Hsub. Qed.

Lemma collision_free_alt `{Crypto} ms :
  collision_free ms <->
  Forall (fun x => Forall (fun y => sha256 x = sha256 y -> x = y) ms) ms.
Proof.
  unfold collision_free. rewrite Forall_forall. setoid_rewrite Forall_forall. firstorder.
Qed.

#[global] Instance collision_free_dec `{Crypto} ms : Decision (collision_free ms).
Proof. refine (cast_if (decide (Forall (fun x => Forall (fun y => sha256 x = sha256 y -> x = y) ms) ms)));
  by rewrite collision_free_alt. Defined.

(** A model of the laws: a polynomial checksum in place of SHA-256, lower-case
    hexadecimal, and signatures that are the signed message. *)
Definition model_digest (b : bytes) : bytes :=
  le_bytes 32 (foldl (fun acc c => Z.land (acc * 257 + Z_of_byte c + 1) (2 ^ 56 - 1)) 7 b).

Definition hex_digits : bytes := str_bytes "0123456789abcdef".
Definition hex_digit (n : Z) : Byte.byte := nth (Z.to_nat n) hex_digits Byte.x00.
Definition hex_value (c : Byte.byte) : option Z :=
  match list_find (fun d => d = c) hex_digits with Some (i, _) => Some (Z.of_nat i) | None => None end.
Fixpoint model_unhex (l : bytes) : option bytes :=
  match l with
  | [] => Some []
  | a :: b :: l' =>
      match hex_value a, hex_value b, model_unhex l' with
      | Some x, Some y, Some r => Some (byte_of_Z (16 * x + y) :: r)
      | _, _, _ => None
      end
  | _ => None
  end.
Definition model_hex (b : bytes) : bytes :=
  flat_map (fun c => [hex_digit (Z_of_byte c / 16); hex_digit (Z_of_byte c mod 16)]) b.

Lemma model_unhex_hex b : model_unhex (model_hex b) = Some b.
Proof.
  induction b as [|c b IH]; [done|]. cbn [model_hex flat_map app model_unhex].
  unfold model_hex in IH. rewrite IH. by destruct c.
Qed.
Lemma length_model_hex b : length (model_hex b) = (2 * length b)%nat.
Proof. induction b; simpl in *; lia. Qed.
Lemma model_hex_lower b : forallb is_lower_hex (model_hex b) = true.
Proof. induction b as [|c b IH]; [done|]. unfold model_hex in *. cbn [flat_map app forallb]. rewrite IH. by destruct c. Qed.

Definition model_crypto : Crypto := {|
  sha256 := model_digest;
  hex_encode := fun b => String.string_of_list_byte (model_hex b);
  hex_decode := fun s => model_unhex (str_bytes s);
  ed25519_key_ok := fun _ => true;
  ed25519_verify := fun pk message sig => bool_decide (sig = model_digest (pk ++ message) ++ pk);
|}.

Lemma model_crypto_laws : @CryptoLaws model_crypto.
Proof.
  split.
  - intros b. apply length_le_bytes.
  - intros b. cbn [hex_decode hex_encode model_crypto]. unfold str_bytes.
    rewrite String.list_byte_of_string_of_list_byte. apply model_unhex_hex.
  - intros b. cbn [hex_encode model_crypto]. unfold str_bytes.
    rewrite String.list_byte_of_string_of_list_byte. apply length_model_hex.
  - intros b. cbn [hex_encode model_crypto]. unfold str_bytes.
    rewrite String.list_byte_of_string_of_list_byte. apply model_hex_lower.
Defined.
