(* ===== verification/Types.v ===== *)
(** * Consensus data types ([types.rs])

    Transactions, outputs, blocks and headers, the canonical header and
    mining-preimage serializers and the block hash.  The [Hash], [Address] and key aliases of the source are all
    [String]. *)

From S2P Require Import Prelude Encoding Crypto.

Abbreviation Hash := string (only parsing).
Abbreviation Address := string (only parsing).

Record OutPoint := mkOutPoint {
  op_txid : Hash;
  op_index : Z;
}.
Record TxInput := mkTxInput {
  in_previous_output : OutPoint;
  in_public_key : string;
  in_signature : string;
}.
Record TxOutput := mkTxOutput {
  out_address : Address;
  out_amount : Z;
}.
Record Transaction := mkTransaction {
  tx_txid : Hash;
  tx_version : Z;
  tx_inputs : list TxInput;
  tx_outputs : list TxOutput;
  tx_fee : Z;
  tx_nonce : Z;
}.
Record Utxo := mkUtxo {
  utxo_outpoint : OutPoint;
  utxo_address : Address;
  utxo_amount : Z;
  utxo_coinbase : bool;
  utxo_height : Z;
}.
Record BlockHeader := mkBlockHeader {
  h_version : Z;
  h_parents : list Hash;
  h_timestamp : Z;
  h_difficulty : Z;
  h_nonce : Z;
  h_merkle_root : Hash;
  h_state_root : Hash;
  h_blue_score : Z;
  h_height : Z;
}.
Record Block := mkBlock {
  b_hash : Hash;
  b_header : BlockHeader;
  b_transactions : list Transaction;
}.

#[global] Instance OutPoint_eq_dec : EqDecision OutPoint.
Proof. solve_decision. Defined.
#[global] Instance OutPoint_countable : Countable OutPoint.
Proof.
  refine (inj_countable' (fun o => (op_txid o, op_index o)) (fun p => mkOutPoint p.1 p.2) _).
  by intros [].
Defined.
#[global] Instance TxInput_eq_dec : EqDecision TxInput.
Proof. solve_decision. Defined.
#[global] Instance TxOutput_eq_dec : EqDecision TxOutput.
Proof. solve_decision. Defined.
#[global] Instance Transaction_eq_dec : EqDecision Transaction.
Proof. solve_decision. Defined.
#[global] Instance Utxo_eq_dec : EqDecision Utxo.
Proof. solve_decision. Defined.
#[global] Instance BlockHeader_eq_dec : EqDecision BlockHeader.
Proof. solve_decision. Defined.
#[global] Instance Block_eq_dec : EqDecision Block.
Proof. solve_decision. Defined.

(** The derived [Ord] of [OutPoint]: transaction id, then index. *)
Definition outpoint_compare (a b : OutPoint) : comparison :=
  then_with (String.compare (op_txid a) (op_txid b)) (Z.compare (op_index a) (op_index b)).

(** ** Well-typed values *)

Definition outpoint_typed (o : OutPoint) : Prop := in_u 32 (op_index o).
Definition header_typed (h : BlockHeader) : Prop :=
  in_u 32 (h_version h) /\ in_u 64 (h_timestamp h) /\ in_u 32 (h_difficulty h) /\
  in_u 64 (h_nonce h) /\ in_u 64 (h_blue_score h) /\ in_u 64 (h_height h).

#[global] Instance header_typed_dec h : Decision (header_typed h).
Proof. unfold header_typed. apply _. Defined.
#[global] Typeclasses Opaque header_typed.

(** ** Header serialization *)

Definition BLOCK_HEADER_DOMAIN : string := "PulseDAG:block-header:v1".
Definition MINING_PREIMAGE_VERSION : Z := 1.

Definition canonical_block_header_bytes (h : BlockHeader) : option bytes :=
  emit [encode_len_prefixed_bytes (str_bytes BLOCK_HEADER_DOMAIN);
        fixed 4 (h_version h);
        encode_string_vec (h_parents h);
        fixed 8 (h_timestamp h);
        fixed 4 (h_difficulty h);
        fixed 8 (h_nonce h);
        encode_len_prefixed_str (h_merkle_root h);
        encode_len_prefixed_str (h_state_root h);
        fixed 8 (h_blue_score h);
        fixed 8 (h_height h)].

(** A [u16] length prefix, as the mining preimage uses. *)
Definition encode_u16_prefixed (s : string) : option bytes :=
  let b := str_bytes s in
  if Z.of_nat (length b) <=? u16_max then Some (u16_le (Z.of_nat (length b)) ++ b) else None.

Definition canonical_mining_preimage_bytes (h : BlockHeader) : option bytes :=
  let parents := isort String.le (h_parents h) in
  emit ([fixed 1 MINING_PREIMAGE_VERSION;
         fixed 4 (h_version h);
         (if Z.of_nat (length parents) <=? u16_max
          then Some (u16_le (Z.of_nat (length parents))) else None)]
        ++ map encode_u16_prefixed parents ++
        [fixed 8 (h_timestamp h);
         fixed 4 (h_difficulty h);
         encode_u16_prefixed (h_merkle_root h);
         encode_u16_prefixed (h_state_root h);
         fixed 8 (h_blue_score h);
         fixed 8 (h_height h)]).

Section hashing.
Context `{Crypto}.

Definition compute_block_hash (h : BlockHeader) : option Hash :=
  match canonical_block_header_bytes h with
  | Some b => Some (hex_encode (sha256 b))
  | None => None
  end.

End hashing.

(** ** Header serialization is unambiguous *)

Lemma in_u_fixed w n x : w = 8 * Z.of_nat n -> in_u w x -> 0 <= x < 256 ^ Z.of_nat n.
Proof.
  intros -> [H1 H2]. unfold u_max in H2. rewrite Z.pow_mul_r in H2 by lia.
  change (2 ^ 8) with 256 in H2. lia.
Qed.

Lemma Forall_True {A} (l : list A) : Forall (fun _ => True) l.
Proof. by apply Forall_true. Qed.

#[global] Hint Resolve Forall_True : core.
#[global] Hint Extern 1 (0 <= _ < 256 ^ Z.of_nat 4) =>
  apply (in_u_fixed 32); [reflexivity|assumption] : core.
#[global] Hint Extern 1 (0 <= _ < 256 ^ Z.of_nat 8) =>
  apply (in_u_fixed 64); [reflexivity|assumption] : core.

#[global] Instance encode_string_vec_delimited :
  Delimited (Forall (fun _ => True)) encode_string_vec.
Proof. unfold encode_string_vec. apply _. Qed.

(** The header serializer implements the [Delimited] interface. *)
#[global] Instance canonical_block_header_bytes_delimited :
  Delimited header_typed canonical_block_header_bytes.
Proof.
  intros h1 h2 x y r s (?&?&?&?&?&?) (?&?&?&?&?&?) Hx Hy Heq.
  unfold canonical_block_header_bytes in Hx, Hy.
  peel (fun _ : bytes => True) encode_len_prefixed_bytes.
  peel (fun x => 0 <= x < 256 ^ Z.of_nat 4) (fixed 4).
  peel (Forall (fun _ : string => True)) encode_string_vec.
  peel (fun x => 0 <= x < 256 ^ Z.of_nat 8) (fixed 8).
  peel (fun x => 0 <= x < 256 ^ Z.of_nat 4) (fixed 4).
  peel (fun x => 0 <= x < 256 ^ Z.of_nat 8) (fixed 8).
  peel (fun _ : string => True) encode_len_prefixed_str.
  peel (fun _ : string => True) encode_len_prefixed_str.
  peel (fun x => 0 <= x < 256 ^ Z.of_nat 8) (fixed 8).
  peel (fun x => 0 <= x < 256 ^ Z.of_nat 8) (fixed 8).
  destruct h1, h2; simpl in *; simplify_eq; done.
Qed.

Lemma delimited_inj {A} dom (enc : A -> option bytes) `{!Delimited dom enc} a b x :
  dom a -> dom b -> enc a = Some x -> enc b = Some x -> a = b.
Proof. intros Ha Hb Hx Hy. by destruct (delimited a b x x [] [] Ha Hb Hx Hy). Qed.

Lemma block_hash_inj `{CryptoLaws} h1 h2 b1 b2 :
  header_typed h1 -> header_typed h2 ->
  canonical_block_header_bytes h1 = Some b1 -> canonical_block_header_bytes h2 = Some b2 ->
  collision_free [b1; b2] ->
  compute_block_hash h1 = compute_block_hash h2 -> h1 = h2.
Proof.
  unfold compute_block_hash. intros Ht1 Ht2 Hb1 Hb2 Hcf. rewrite Hb1, Hb2.
  intros [= Heq%(inj hex_encode)]. apply Hcf in Heq; [|set_solver..]. subst b2.
  by apply (delimited_inj header_typed canonical_block_header_bytes h1 h2 b1).
Qed.

(** A block hash commits to every header field: as long as the two
    serialized headers do not collide under SHA-256, equal hashes mean equal
    headers. *)
Lemma compute_block_hash_binding `{CryptoLaws} h1 h2 b1 b2 :
  header_typed h1 -> header_typed h2 ->
  canonical_block_header_bytes h1 = Some b1 -> canonical_block_header_bytes h2 = Some b2 ->
  collision_free [b1; b2] ->
  compute_block_hash h1 = compute_block_hash h2 -> h1 = h2.
Proof. apply block_hash_inj. Qed.

(** ** The mining preimage *)

#[global] Instance encode_u16_prefixed_delimited :
  Delimited (fun _ => True) encode_u16_prefixed.
Proof.
  intros a b x y r s _ _. unfold encode_u16_prefixed.
  destruct (Z.leb_spec (Z.of_nat (length (str_bytes a))) u16_max) as [Ha|]; [|done].
  destruct (Z.leb_spec (Z.of_nat (length (str_bytes b))) u16_max) as [Hb|]; [|done].
  intros Hx Hy Heq. apply (inj Some) in Hx, Hy. subst x y. rewrite <- !app_assoc in Heq.
  apply app_inj_1 in Heq as [Hlen Heq]; [|unfold u16_le; by rewrite !length_le_bytes].
  apply (f_equal le_value) in Hlen. unfold u16_le, u_max in *.
  rewrite !le_value_le_bytes in Hlen by (change (256 ^ Z.of_nat 2) with (2 ^ 16); lia).
  apply app_inj_1 in Heq as [Heq ->]; [|lia]. by apply (inj str_bytes) in Heq as ->.
Qed.

(** The parents block of the preimage: a [u16] count and the sorted hashes. *)
Definition encode_parents_u16 (parents : list Hash) : option bytes :=
  emit ((if Z.of_nat (length parents) <=? u16_max
         then Some (u16_le (Z.of_nat (length parents))) else None)
        :: map encode_u16_prefixed parents).

#[global] Instance encode_parents_u16_delimited :
  Delimited (Forall (fun _ => True)) encode_parents_u16.
Proof.
  intros l1 l2 x y r s F1 F2. unfold encode_parents_u16.
  destruct (Z.leb_spec (Z.of_nat (length l1)) u16_max) as [Hl1|]; [|done].
  destruct (Z.leb_spec (Z.of_nat (length l2)) u16_max) as [Hl2|];
    [|intros _ (?&?&?&_)%emit_cons; done].
  intros Hx Hy Heq.
  assert (Hr : forall l : list Hash, Z.of_nat (length l) <= u16_max ->
    0 <= Z.of_nat (length l) < 256 ^ Z.of_nat 2).
  { intros l Hl. unfold u_max in Hl. change (256 ^ Z.of_nat 2) with (2 ^ 16). lia. }
  destruct (emit_peel _ (fixed 2) _ _ _ _ _ _ _ _ (Hr _ Hl1) (Hr _ Hl2) Hx Hy Heq)
    as [Hlen (y1 & y2 & Hy1 & Hy2 & Heq')].
  apply (emit_map_delimited (fun _ => True) encode_u16_prefixed l1 l2 y1 y2); auto; lia.
Qed.

Lemma canonical_mining_preimage_bytes_alt h :
  canonical_mining_preimage_bytes h =
  emit [fixed 1 MINING_PREIMAGE_VERSION; fixed 4 (h_version h);
        encode_parents_u16 (isort String.le (h_parents h));
        fixed 8 (h_timestamp h); fixed 4 (h_difficulty h);
        encode_u16_prefixed (h_merkle_root h); encode_u16_prefixed (h_state_root h);
        fixed 8 (h_blue_score h); fixed 8 (h_height h)].
Proof.
  apply (emit_nest [_; _] (_ :: map encode_u16_prefixed _) [_; _; _; _; _; _]).
Qed.

(** Headers that only differ in the nonce and the order of their parents. *)
Definition mining_equiv (h1 h2 : BlockHeader) : Prop :=
  h_parents h1 ≡ₚ h_parents h2 /\ h_version h1 = h_version h2 /\
  h_timestamp h1 = h_timestamp h2 /\ h_difficulty h1 = h_difficulty h2 /\
  h_merkle_root h1 = h_merkle_root h2 /\ h_state_root h1 = h_state_root h2 /\
  h_blue_score h1 = h_blue_score h2 /\ h_height h1 = h_height h2.

Lemma mining_preimage_sound h1 h2 x y r s :
  header_typed h1 -> header_typed h2 ->
  canonical_mining_preimage_bytes h1 = Some x -> canonical_mining_preimage_bytes h2 = Some y ->
  x ++ r = y ++ s -> mining_equiv h1 h2.
Proof.
  intros (?&?&?&?&?&?) (?&?&?&?&?&?) Hx Hy Heq.
  rewrite canonical_mining_preimage_bytes_alt in Hx, Hy.
  assert (0 <= MINING_PREIMAGE_VERSION < 256 ^ Z.of_nat 1) by (unfold MINING_PREIMAGE_VERSION; lia).
  peel (fun x => 0 <= x < 256 ^ Z.of_nat 1) (fixed 1).
  peel (fun x => 0 <= x < 256 ^ Z.of_nat 4) (fixed 4).
  peel (Forall (fun _ : string => True)) encode_parents_u16.
  peel (fun x => 0 <= x < 256 ^ Z.of_nat 8) (fixed 8).
  peel (fun x => 0 <= x < 256 ^ Z.of_nat 4) (fixed 4).
  peel (fun _ : string => True) encode_u16_prefixed.
  peel (fun _ : string => True) encode_u16_prefixed.
  peel (fun x => 0 <= x < 256 ^ Z.of_nat 8) (fixed 8).
  peel (fun x => 0 <= x < 256 ^ Z.of_nat 8) (fixed 8).
  repeat split; try done.
  rewrite <- (isort_perm String.le (h_parents h1)), <- (isort_perm String.le (h_parents h2)).
  by match goal with E : isort _ _ = isort _ _ |- _ => rewrite E end.
Qed.

(** The mining preimage determines the header up to the nonce and the order of
    the parents, and ignores exactly those. *)
Lemma mining_preimage_equiv h1 h2 b :
  header_typed h1 -> header_typed h2 -> canonical_mining_preimage_bytes h1 = Some b ->
  (canonical_mining_preimage_bytes h2 = Some b <-> mining_equiv h1 h2).
Proof.
  intros Ht1 Ht2 Hx. split; [intros Hy; by apply (mining_preimage_sound h1 h2 b b [] [])|].
  intros (Hp & Hv & Hts & Hd & Hm & Hs & Hb & Hh). rewrite <- Hx.
  rewrite !canonical_mining_preimage_bytes_alt, Hv, Hts, Hd, Hm, Hs, Hb, Hh.
  by rewrite (isort_perm_eq String.le _ _ Hp).
Qed.

(** ** Witnesses *)

Definition typed_header (parents : list Hash) (nonce : Z) : BlockHeader :=
  mkBlockHeader 1 parents 100 0x207fffff nonce "aa" "bb" 3 2.

Lemma compute_block_hash_binding_witness :
  @compute_block_hash model_crypto (typed_header ["p"] 7) <>
  @compute_block_hash model_crypto (typed_header ["p"] 8).
Proof.
  intros Heq.
  assert (Hh : typed_header ["p"] 7 = typed_header ["p"] 8).
  { refine (@compute_block_hash_binding model_crypto model_crypto_laws _ _
      (default [] (canonical_block_header_bytes (typed_header ["p"] 7)))
      (default [] (canonical_block_header_bytes (typed_header ["p"] 8))) _ _ _ _ _ Heq);
    [by_decide|by_decide|by_compute|by_compute|by_decide]. }
  discriminate Hh.
Defined.

Lemma mining_preimage_equiv_witness :
  canonical_mining_preimage_bytes (typed_header ["q"; "p"] 9) =
  canonical_mining_preimage_bytes (typed_header ["p"; "q"] 7).
Proof.
  transitivity (Some (default [] (canonical_mining_preimage_bytes (typed_header ["p"; "q"] 7)))).
  - apply (mining_preimage_equiv (typed_header ["p"; "q"] 7) (typed_header ["q"; "p"] 9));
      [by_decide|by_decide|by_compute|].
    unfold mining_equiv. split_and!; [by_decide|by_compute..].
  - by_compute.
Defined.
