(* ===== verification/Merkle.v ===== *)
(** * The transaction Merkle root ([types.rs])

    [compute_merkle_root_from_txids] hashes the transaction ids pairwise until
    one digest is left, pairing an odd last node with itself.  The theorems: the
    loop always ends with a root; the self-pairing makes a list and the same
    list with its last id repeated share a root; and that is the only
    ambiguity, so on lists of distinct ids (what [validate_block] enforces) the
    root determines the list. *)

From S2P Require Import Prelude Encoding Crypto Types.

Definition MERKLE_EMPTY_DOMAIN : string := "PulseDAG:merkle-empty:v1".
Definition MERKLE_LEAF_DOMAIN : string := "PulseDAG:merkle-leaf:v1".
Definition MERKLE_NODE_DOMAIN : string := "PulseDAG:merkle-node:v1".

Section merkle.
Context `{Crypto}.

Definition merkle_leaf (txid : Hash) : bytes :=
  match hex_decode txid with
  | Some b => if decide (length b = 32%nat)
              then sha256 (str_bytes MERKLE_LEAF_DOMAIN ++ b)
              else sha256 (str_bytes MERKLE_LEAF_DOMAIN ++ str_bytes txid)
  | None => sha256 (str_bytes MERKLE_LEAF_DOMAIN ++ str_bytes txid)
  end.
Definition merkle_parent (lft rgt : bytes) : bytes :=
  sha256 (str_bytes MERKLE_NODE_DOMAIN ++ lft ++ rgt).

(** One pass over [level.chunks(2)]; an odd last chunk is paired with itself. *)
Fixpoint merkle_next (level : list bytes) : list bytes :=
  match level with
  | lft :: rgt :: rest => merkle_parent lft rgt :: merkle_next rest
  | [lft] => [merkle_parent lft lft]
  | [] => []
  end.
(** [while level.len() > 1]; [level[0]] panics on an empty level. *)
Fixpoint merkle_loop (fuel : nat) (level : list bytes) : option bytes :=
  match level with
  | [] => None
  | [root] => Some root
  | _ => match fuel with
         | O => None
         | S fuel' => merkle_loop fuel' (merkle_next level)
         end
  end.
Definition compute_merkle_root_from_txids (txids : list Hash) : option Hash :=
  match txids with
  | [] => Some (hex_encode (sha256 (str_bytes MERKLE_EMPTY_DOMAIN)))
  | _ => match merkle_loop (length txids) (map merkle_leaf txids) with
         | Some root => Some (hex_encode root)
         | None => None
         end
  end.
Definition compute_merkle_root (transactions : list Transaction) : option Hash :=
  compute_merkle_root_from_txids (map tx_txid transactions).

(** The loop always ends with one digest: no index panic, no fuel shortage. *)
Lemma length_merkle_next l :
  length (merkle_next l) = ((length l + 1) / 2)%nat.
Proof.
  enough (forall n l, (length l <= n)%nat -> length (merkle_next l) = ((length l + 1) / 2)%nat) by eauto.
  clear l. induction n as [|n IH]; intros [|a [|b l]] Hl; simpl in Hl; try done; try lia.
  cbn [merkle_next length]. rewrite IH by lia.
  replace (S (S (length l)) + 1)%nat with (length l + 1 + 1 * 2)%nat by lia.
  rewrite Nat.div_add by lia. lia.
Qed.

Lemma merkle_loop_total fuel level :
  level <> [] -> (length level <= S fuel)%nat -> is_Some (merkle_loop fuel level).
Proof.
  revert level. induction fuel as [|fuel IH]; intros [|a [|b l]] Hne Hlen;
    simpl in Hlen; try done; try lia; [by eexists..|].
  change (is_Some (merkle_loop fuel (merkle_next (a :: b :: l)))).
  apply IH; [done|]. rewrite length_merkle_next. cbn [length].
  pose proof (Nat.div_mod_eq (S (S (length l)) + 1) 2).
  pose proof (Nat.mod_upper_bound (S (S (length l)) + 1) 2). lia.
Qed.

Lemma merkle_root_some txids : is_Some (compute_merkle_root_from_txids txids).
Proof.
  unfold compute_merkle_root_from_txids. destruct txids as [|t l]; [by eexists|].
  destruct (merkle_loop_total (length (t :: l)) (map merkle_leaf (t :: l))) as [r Hr];
    [done|rewrite length_map; lia|]. rewrite Hr. by eexists.
Qed.

(** Computing a transaction Merkle root never panics and never fails to
    terminate: for every list of transaction ids (the empty one included) the
    pairwise reduction ends with exactly one digest. *)
Lemma merkle_root_total txids : is_Some (compute_merkle_root_from_txids txids).
Proof. apply merkle_root_some. Qed.

(** Repeating the last id of a list of odd length at least three. *)
Lemma merkle_next_repeat l x :
  Nat.even (length l) = true -> merkle_next (l ++ [x; x]) = merkle_next (l ++ [x]).
Proof.
  enough (forall n l, (length l <= n)%nat -> Nat.even (length l) = true ->
    merkle_next (l ++ [x; x]) = merkle_next (l ++ [x])) by eauto.
  clear l. induction n as [|n IH]; intros [|a [|b l]] Hl He; simpl in Hl, He; try done; try lia.
  cbn [merkle_next app]. f_equal. apply IH; [lia|done].
Qed.

Lemma merkle_loop_mono f f' l r :
  (f <= f')%nat -> merkle_loop f l = Some r -> merkle_loop f' l = Some r.
Proof.
  revert f' l. induction f as [|f IH]; intros f' [|a [|b l]] Hf; try done; try (by destruct f').
  destruct f' as [|f']; [lia|].
  change (merkle_loop f (merkle_next (a :: b :: l)) = Some r ->
          merkle_loop f' (merkle_next (a :: b :: l)) = Some r).
  apply IH. lia.
Qed.
Lemma merkle_loop_step f l :
  (2 <= length l)%nat -> merkle_loop (S f) l = merkle_loop f (merkle_next l).
Proof. destruct l as [|a [|b l]]; simpl; try lia; done. Qed.

(** The Merkle root is ambiguous exactly where a node is paired with
    itself: appending a second copy of the last id of a list of odd length (at
    least three) does not change the root, so the root alone does not rule out
    a repeated transaction and [validate_block] has to. *)
Lemma merkle_root_repeat_last txids t :
  txids <> [] -> Nat.even (length txids) = true ->
  compute_merkle_root_from_txids (txids ++ [t; t]) =
  compute_merkle_root_from_txids (txids ++ [t]).
Proof.
  intros Hne He. set (p := map merkle_leaf txids). set (x := merkle_leaf t).
  assert (Hp : (2 <= length p)%nat /\ length p = length txids).
  { unfold p. rewrite length_map. destruct txids as [|a [|b l]]; try done. simpl. lia. }
  assert (Hroot : forall l, l <> [] -> compute_merkle_root_from_txids (txids ++ l) =
    match merkle_loop (length (txids ++ l)) (p ++ map merkle_leaf l) with
    | Some root => Some (hex_encode root) | None => None end).
  { intros l _. unfold compute_merkle_root_from_txids, p. rewrite <- map_app.
    by destruct txids. }
  rewrite !Hroot, !length_app by done. cbn [map length]. fold x.
  rewrite !Nat.add_succ_r, Nat.add_0_r.
  rewrite (merkle_loop_step _ (p ++ [x; x])), (merkle_loop_step _ (p ++ [x]))
    by (rewrite length_app; simpl; lia).
  rewrite merkle_next_repeat by (by rewrite (proj2 Hp)).
  destruct (merkle_loop_total (length txids) (merkle_next (p ++ [x]))) as [r Hr].
  - destruct p as [|? [|? ?]]; simpl in *; [lia|lia|done].
  - rewrite length_merkle_next, length_app. cbn [length].
    pose proof (Nat.div_mod_eq (length p + 1 + 1) 2).
    pose proof (Nat.mod_upper_bound (length p + 1 + 1) 2). lia.
  - by rewrite Hr, (merkle_loop_mono (length txids) (S (length txids)) _ r ltac:(lia) Hr).
Qed.

(** ** Binding *)

Definition leaf_payload (txid : Hash) : bytes :=
  match hex_decode txid with
  | Some b => if decide (length b = 32%nat) then b else str_bytes txid
  | None => str_bytes txid
  end.
Definition leaf_message (txid : Hash) : bytes := str_bytes MERKLE_LEAF_DOMAIN ++ leaf_payload txid.
Definition node_message (l r : bytes) : bytes := str_bytes MERKLE_NODE_DOMAIN ++ l ++ r.

(** The messages hashed by one pass, and by the whole computation. *)
Fixpoint next_messages (level : list bytes) : list bytes :=
  match level with
  | l :: r :: rest => node_message l r :: next_messages rest
  | [l] => [node_message l l]
  | [] => []
  end.
Fixpoint loop_messages (fuel : nat) (level : list bytes) : list bytes :=
  match level with
  | [] | [_] => []
  | _ => match fuel with
         | O => []
         | S fuel' => next_messages level ++ loop_messages fuel' (merkle_next level)
         end
  end.
Definition merkle_messages (txids : list Hash) : list bytes :=
  str_bytes MERKLE_EMPTY_DOMAIN ::
  map leaf_message txids ++ loop_messages (length txids) (map merkle_leaf txids).

Lemma merkle_leaf_message t : merkle_leaf t = sha256 (leaf_message t).
Proof. unfold merkle_leaf, leaf_message, leaf_payload. by repeat case_match. Qed.
End merkle.

Section binding.
Context `{CryptoLaws}.
Context (D : bytes -> Prop).
Hypothesis D_free : forall x y, D x -> D y -> sha256 x = sha256 y -> x = y.

Abbreviation is_digest b := (length b = 32%nat).

(** The runs of the loop, counting passes. *)
Inductive merkle_run : nat -> list bytes -> bytes -> Prop :=
| run_done r : merkle_run 0 [r] r
| run_step d l r :
    (2 <= length l)%nat -> Forall D (next_messages l) ->
    merkle_run d (merkle_next l) r -> merkle_run (S d) l r.

(** The digests of perfect trees of a given depth. *)
Inductive merkle_tree : nat -> bytes -> Prop :=
| tree_leaf t : D (leaf_message t) -> merkle_tree 0 (sha256 (leaf_message t))
| tree_node n a b :
    merkle_tree n a -> merkle_tree n b -> D (node_message a b) ->
    merkle_tree (S n) (sha256 (node_message a b)).

Lemma merkle_tree_digest n x : merkle_tree n x -> is_digest x.
Proof. destruct 1; apply sha256_length. Qed.

Lemma node_message_inj a b c d :
  is_digest a -> is_digest c -> node_message a b = node_message c d -> a = c /\ b = d.
Proof. unfold node_message. intros Ha Hc Heq%app_inv_head. apply app_inj_1; congruence. Qed.

Lemma leaf_not_node t a b : leaf_message t <> node_message a b.
Proof. unfold leaf_message, node_message. vm_compute str_bytes. discriminate. Qed.

Lemma merkle_tree_depth n m x : merkle_tree n x -> merkle_tree m x -> n = m.
Proof.
  intros Hn. revert m. induction Hn as [t Ht|n a b Ha IHa Hb IHb HD]; intros m Hm.
  - inversion Hm as [|m' a b _ _ HD Heq]; [done|]. subst.
    match goal with E : sha256 _ = sha256 _ |- _ => apply D_free in E; [|done..] end.
    exfalso. by eapply leaf_not_node.
  - inversion Hm as [t HDt Heq|m' a' b' Ha' Hb' HD' Heq]; subst;
      match goal with E : sha256 _ = sha256 _ |- _ => apply D_free in E; [|done..] end.
    + exfalso. by eapply leaf_not_node.
    + match goal with E : node_message _ _ = node_message _ _ |- _ =>
        apply node_message_inj in E as [-> ->]; [|by eapply merkle_tree_digest..] end.
      by rewrite (IHa m').
Qed.

Lemma loop_run fuel l r :
  merkle_loop fuel l = Some r -> Forall D (loop_messages fuel l) -> exists d, merkle_run d l r.
Proof.
  revert l. induction fuel as [|fuel IH]; intros [|a [|b l]] Hl HD; try done;
    try (simpl in Hl; simplify_eq; exists 0%nat; constructor).
  change (Forall D (next_messages (a :: b :: l) ++ loop_messages fuel (merkle_next (a :: b :: l)))) in HD.
  apply Forall_app in HD as [HD1 HD2]. destruct (IH _ Hl HD2) as [d Hd].
  exists (S d). constructor; [simpl; lia|done|done].
Qed.

Lemma merkle_next_Forall (P : bytes -> Prop) l :
  (forall a b, a ∈ l -> b ∈ l -> D (node_message a b) -> P (merkle_parent a b)) ->
  Forall D (next_messages l) -> Forall P (merkle_next l).
Proof.
  enough (forall n l, (length l <= n)%nat ->
    (forall a b, a ∈ l -> b ∈ l -> D (node_message a b) -> P (merkle_parent a b)) ->
    Forall D (next_messages l) -> Forall P (merkle_next l)) by eauto.
  clear l. induction n as [|n IH]; intros [|a [|b l]] Hl HP HD; simpl in Hl; try lia;
    cbn [merkle_next next_messages] in *; try constructor;
    apply Forall_cons in HD as [HD1 HD2]; try (apply HP; set_solver); [constructor|].
  apply IH; [lia| |done]. intros x y Hx Hy. apply HP; set_solver.
Qed.

Lemma run_tree d k l r : merkle_run d l r -> Forall (merkle_tree k) l -> merkle_tree (k + d) r.
Proof.
  intros Hrun. revert k. induction Hrun as [r|d l r Hlen HD Hrun IH]; intros k Hl.
  - rewrite Forall_singleton in Hl. by rewrite Nat.add_0_r.
  - rewrite Nat.add_succ_r. apply (IH (S k)). apply merkle_next_Forall; [|done].
    rewrite Forall_forall in Hl. intros a b Ha Hb Hab. by apply tree_node; [apply Hl..|].
Qed.

Lemma merkle_parent_inj a b c d :
  is_digest a -> is_digest c -> D (node_message a b) -> D (node_message c d) ->
  merkle_parent a b = merkle_parent c d -> a = c /\ b = d.
Proof.
  intros Ha Hc Hab Hcd Heq. apply D_free in Heq; [|done..]. by apply node_message_inj.
Qed.

Lemma merkle_next_inj_aux n l1 l2 :
  (length l1 <= n)%nat ->
  Forall (fun b => is_digest b) l1 -> Forall (fun b => is_digest b) l2 ->
  Forall D (next_messages l1) -> Forall D (next_messages l2) ->
  NoDup l1 -> NoDup l2 -> merkle_next l1 = merkle_next l2 -> l1 = l2.
Proof.
  revert l1 l2. induction n as [|n IH]; intros [|a [|b l1]] [|c [|d l2]] Hn G1 G2 D1 D2 N1 N2 Heq;
    try discriminate Heq; cbn [length] in Hn; try lia; try reflexivity;
    cbn [merkle_next next_messages] in *;
    apply Forall_cons in G1 as [Ga G1]; apply Forall_cons in G2 as [Gc G2];
    apply Forall_cons in D1 as [Da D1]; apply Forall_cons in D2 as [Dc D2];
    apply NoDup_cons in N1 as [Na N1]; apply NoDup_cons in N2 as [Nc N2];
    pose proof (f_equal tail Heq) as Ht; pose proof (f_equal head Heq) as Hh;
    cbn [head tail] in Hh, Ht; apply (inj Some) in Hh;
    apply merkle_parent_inj in Hh as [E1 E2]; try assumption; subst.
  - reflexivity.
  - exfalso. apply Nc. left.
  - exfalso. apply Na. left.
  - do 2 f_equal. apply Forall_cons in G1 as [_ G1]. apply Forall_cons in G2 as [_ G2].
    apply NoDup_cons in N1 as [_ N1]. apply NoDup_cons in N2 as [_ N2].
    apply IH; auto; lia.
Qed.

Lemma merkle_next_inj l1 l2 :
  Forall (fun b => is_digest b) l1 -> Forall (fun b => is_digest b) l2 ->
  Forall D (next_messages l1) -> Forall D (next_messages l2) ->
  NoDup l1 -> NoDup l2 -> merkle_next l1 = merkle_next l2 -> l1 = l2.
Proof. by apply (merkle_next_inj_aux (length l1)). Qed.

Lemma merkle_next_NoDup_aux n l :
  (length l <= n)%nat -> Forall (fun b => is_digest b) l ->
  Forall D (next_messages l) -> NoDup l -> NoDup (merkle_next l).
Proof.
  revert l. induction n as [|n IH]; intros [|a [|b l]] Hn G HD N; cbn [length] in Hn; try lia;
    cbn [merkle_next next_messages] in *; try (apply NoDup_singleton); try constructor.
  - apply Forall_cons in G as [Ga G]. apply Forall_cons in HD as [Dab HD].
    assert (HP : Forall (fun x => x <> merkle_parent a b) (merkle_next l)).
    { apply merkle_next_Forall; [|done]. intros x y Hx Hy Hxy Heq.
      apply merkle_parent_inj in Heq as [-> ->]; [|apply (proj1 (Forall_forall _ _) G)|..]; try done; [|set_solver].
      apply NoDup_cons in N as [N _]. apply N. by right. }
    rewrite Forall_forall in HP. intros Hin. by eapply HP.
  - apply Forall_cons in G as [_ [_ G]%Forall_cons]. apply Forall_cons in HD as [_ HD].
    apply NoDup_cons in N as [_ [_ N]%NoDup_cons]. apply IH; auto; lia.
Qed.

Lemma merkle_next_NoDup l :
  Forall (fun b => is_digest b) l -> Forall D (next_messages l) -> NoDup l -> NoDup (merkle_next l).
Proof. by apply (merkle_next_NoDup_aux (length l)). Qed.

Lemma run_inj d l1 l2 r :
  merkle_run d l1 r -> merkle_run d l2 r ->
  Forall (fun b => is_digest b) l1 -> Forall (fun b => is_digest b) l2 ->
  NoDup l1 -> NoDup l2 -> l1 = l2.
Proof.
  intros H1. revert l2. induction H1 as [r|d l1 r Hlen1 HD1 H1 IH]; intros l2 H2 G1 G2 N1 N2;
    inversion H2 as [|? ? ? Hlen2 HD2 H2']; subst; [done|].
  apply merkle_next_inj; auto. apply IH; auto.
  - apply merkle_next_Forall; [|done]. intros. apply sha256_length.
  - apply merkle_next_Forall; [|done]. intros. apply sha256_length.
  - by apply merkle_next_NoDup.
  - by apply merkle_next_NoDup.
Qed.

Lemma merkle_tree_nonempty n x :
  D (str_bytes MERKLE_EMPTY_DOMAIN) -> merkle_tree n x ->
  x <> sha256 (str_bytes MERKLE_EMPTY_DOMAIN).
Proof.
  intros HD Ht Heq. destruct Ht; apply D_free in Heq; try done;
    unfold leaf_message, node_message in Heq; vm_compute str_bytes in Heq; discriminate.
Qed.
End binding.

(** A transaction id as [compute_txid] renders it: the text of a digest. *)
Definition txid_ok `{Crypto} (t : Hash) : Prop := exists d, length d = 32%nat /\ t = hex_encode d.

Section root_binding.
Context `{CryptoLaws}.

Lemma leaf_payload_ok t d : length d = 32%nat -> t = hex_encode d -> leaf_payload t = d.
Proof. intros Hd ->. unfold leaf_payload. rewrite hex_decode_encode. by case_decide. Qed.

Lemma leaf_payload_inj t1 t2 :
  txid_ok t1 -> txid_ok t2 -> leaf_message t1 = leaf_message t2 -> t1 = t2.
Proof.
  intros (d1 & Hd1 & H1) (d2 & Hd2 & H2) Heq%app_inv_head.
  rewrite (leaf_payload_ok t1 d1), (leaf_payload_ok t2 d2) in Heq by done. congruence.
Qed.

(** A nonempty list's root is the digest of a tree over its leaves. *)
Lemma root_run (D : bytes -> Prop) l h :
  (forall x y, D x -> D y -> sha256 x = sha256 y -> x = y) ->
  l <> [] -> Forall D (merkle_messages l) ->
  compute_merkle_root_from_txids l = Some h ->
  exists d root, h = hex_encode root /\ merkle_run D d (map merkle_leaf l) root /\
    merkle_tree D d root.
Proof.
  intros Hfree Hne HD Hh. unfold merkle_messages in HD.
  apply Forall_cons in HD as [_ [HDl HDm]%Forall_app].
  assert (Hr : exists root, merkle_loop (length l) (map merkle_leaf l) = Some root /\ h = hex_encode root).
  { unfold compute_merkle_root_from_txids in Hh. destruct l; [done|].
    destruct (merkle_loop _ _) as [root|]; [|done]. simplify_eq. eauto. }
  destruct Hr as (root & Hloop & ->). destruct (loop_run D _ _ _ Hloop HDm) as [d Hrun].
  exists d, root. split; [done|]. split; [done|].
  apply (run_tree D Hfree d 0 _ _ Hrun). apply Forall_map. rewrite Forall_map in HDl.
  eapply Forall_impl; [exact HDl|]. simpl. intros t Ht. rewrite merkle_leaf_message.
  by constructor.
Qed.

Lemma NoDup_leaves (D : bytes -> Prop) l :
  (forall x y, D x -> D y -> sha256 x = sha256 y -> x = y) ->
  Forall txid_ok l -> Forall D (map leaf_message l) -> NoDup l -> NoDup (map merkle_leaf l).
Proof.
  intros HD Hok HDl HN. rewrite Forall_forall in Hok. rewrite Forall_map, Forall_forall in HDl.
  apply (NoDup_fmap_2_strong merkle_leaf); [|done].
  intros t1 t2 H1 H2. rewrite !merkle_leaf_message. intros Heq%HD; [|by apply HDl..].
  apply leaf_payload_inj; auto.
Qed.

Lemma merkle_root_binding_ne (D : bytes -> Prop) l1 l2 h :
  (forall x y, D x -> D y -> sha256 x = sha256 y -> x = y) ->
  l1 <> [] -> l2 <> [] -> Forall txid_ok l1 -> Forall txid_ok l2 -> NoDup l1 -> NoDup l2 ->
  Forall D (merkle_messages l1) -> Forall D (merkle_messages l2) ->
  compute_merkle_root_from_txids l1 = Some h -> compute_merkle_root_from_txids l2 = Some h ->
  l1 = l2.
Proof.
  intros HD Hne1 Hne2 Ok1 Ok2 N1 N2 M1 M2 H1 H2.
  destruct (root_run D l1 h HD Hne1 M1 H1) as (d1 & r & -> & R1 & T1).
  destruct (root_run D l2 _ HD Hne2 M2 H2) as (d2 & r' & Hr & R2 & T2).
  apply (inj hex_encode) in Hr. subst r'.
  rewrite <- (merkle_tree_depth D HD d1 d2 r T1 T2) in R2.
  unfold merkle_messages in M1, M2.
  apply Forall_cons in M1 as [_ [L1 _]%Forall_app]. apply Forall_cons in M2 as [_ [L2 _]%Forall_app].
  assert (Hmap : map merkle_leaf l1 = map merkle_leaf l2).
  { eapply (run_inj D HD); eauto using NoDup_leaves;
      apply Forall_map, Forall_true; intros t; rewrite merkle_leaf_message; apply sha256_length. }
  rewrite Forall_forall in Ok1, Ok2. rewrite Forall_map, Forall_forall in L1, L2.
  apply (map_inj_on merkle_leaf); [|done]. intros t1 t2 Ht1 Ht2.
  rewrite !merkle_leaf_message. intros Heq%HD; auto. apply leaf_payload_inj; auto.
Qed.

(** On lists of distinct, well-formed transaction ids the Merkle root
    determines the list: order, length and contents.  The only assumption on
    the hash is that no two of the messages hashed for these two lists collide. *)
Lemma merkle_root_binding l1 l2 :
  Forall txid_ok l1 -> Forall txid_ok l2 -> NoDup l1 -> NoDup l2 ->
  collision_free (merkle_messages l1 ++ merkle_messages l2) ->
  compute_merkle_root_from_txids l1 = compute_merkle_root_from_txids l2 -> l1 = l2.
Proof.
  intros Ok1 Ok2 N1 N2 Hcf Heq. set (D := fun m => m ∈ merkle_messages l1 ++ merkle_messages l2).
  assert (HD : forall x y, D x -> D y -> sha256 x = sha256 y -> x = y) by exact Hcf.
  assert (HD1 : Forall D (merkle_messages l1)) by (apply Forall_forall; set_solver).
  assert (HD2 : Forall D (merkle_messages l2)) by (apply Forall_forall; set_solver).
  assert (HE : D (str_bytes MERKLE_EMPTY_DOMAIN)) by (unfold D, merkle_messages; set_solver).
  destruct (merkle_root_some l1) as [h Hh]. rewrite Hh in Heq. symmetry in Heq.
  destruct l1 as [|t1 l1], l2 as [|t2 l2]; [done|..].
  - destruct (root_run D (t2 :: l2) h HD ltac:(discriminate) HD2 Heq) as (d & r & -> & _ & Ht).
    injection Hh as E. apply (inj hex_encode) in E. exfalso.
    by apply (merkle_tree_nonempty D HD d r HE Ht).
  - destruct (root_run D (t1 :: l1) h HD ltac:(discriminate) HD1 Hh) as (d & r & -> & _ & Ht).
    injection Heq as E. apply (inj hex_encode) in E. exfalso.
    by apply (merkle_tree_nonempty D HD d r HE Ht).
  - by apply (merkle_root_binding_ne D _ _ h).
Qed.
End root_binding.

(** ** Witnesses *)

Definition sample_txid (n : Z) : Hash := @hex_encode model_crypto (le_bytes 32 n).

Lemma merkle_root_repeat_last_witness :
  let ids := [sample_txid 1; sample_txid 2] in
  @compute_merkle_root_from_txids model_crypto (ids ++ [sample_txid 3; sample_txid 3]) =
  @compute_merkle_root_from_txids model_crypto (ids ++ [sample_txid 3]).
Proof. apply (@merkle_root_repeat_last model_crypto); [discriminate|reflexivity]. Defined.

Lemma merkle_root_binding_witness :
  let l := [sample_txid 1; sample_txid 2; sample_txid 3] in
  @compute_merkle_root_from_txids model_crypto l =
  @compute_merkle_root_from_txids model_crypto l /\ l = l.
Proof.
  split; [reflexivity|].
  apply (@merkle_root_binding model_crypto model_crypto_laws); [| | | | |reflexivity].
  - repeat constructor; eexists; (split; [|reflexivity]); reflexivity.
  - repeat constructor; eexists; (split; [|reflexivity]); reflexivity.
  - by_decide.
  - by_decide.
  - by_decide.
Defined.
