(* ===== verification/State.v ===== *)
(** * Chain state ([state.rs], [errors.rs])

    The error type of the node, the DAG, UTXO, mempool and contract state
    records, the validation of the UTXO address index and the UTXO state root.

    Rust's [HashMap] and [HashSet] iterate in an unspecified order; the class
    [HashOrder] is that order, so a theorem about a definition that iterates
    holds for every order. *)

From stdpp Require Import pretty.
From S2P Require Import Prelude Encoding Crypto Types.

Class HashOrder := {
  map_iter : forall {K V : Type} `{Countable K}, gmap K V -> list (K * V);
  set_iter : forall {K : Type} `{Countable K}, gset K -> list K;
  map_iter_perm : forall {K V : Type} `{Countable K} (m : gmap K V), map_iter m ≡ₚ map_to_list m;
  set_iter_perm : forall {K : Type} `{Countable K} (s : gset K), set_iter s ≡ₚ elements s;
}.

#[global] Instance list_order : HashOrder | 100 := {|
  map_iter := fun K V _ _ m => map_to_list m;
  set_iter := fun K _ _ s => elements s;
  map_iter_perm := fun K V _ _ m => reflexivity _;
  set_iter_perm := fun K _ _ s => reflexivity _;
|}.

Lemma elem_of_map_iter `{HashOrder} `{Countable K} {V} (m : gmap K V) k v :
  (k, v) ∈ map_iter m <-> m !! k = Some v.
Proof. rewrite map_iter_perm. apply elem_of_map_to_list. Qed.
Lemma NoDup_map_iter_keys `{HashOrder} `{Countable K} {V} (m : gmap K V) :
  NoDup (map_iter m).*1.
Proof. rewrite map_iter_perm. apply NoDup_fst_map_to_list. Qed.
Lemma elem_of_set_iter `{HashOrder} `{Countable K} (s : gset K) k : k ∈ set_iter s <-> k ∈ s.
Proof. rewrite set_iter_perm. apply elem_of_elements. Qed.

(** ** Errors *)

Inductive InvalidStateRootClassification :=
| StaleTemplate | TrueInvalid | UnknownContext | ParentStateContextUnavailableClass.

Record InvalidStateRootDiagnostics := mkInvalidStateRootDiagnostics {
  isr_block_hash : Hash;
  isr_height : Z;
  isr_parent_hashes : list Hash;
  isr_supplied_state_root : string;
  isr_computed_state_root : string;
  isr_tx_count : Z;
  isr_coinbase_miner_address : option string;
  isr_selected_tip : option Hash;
  isr_selected_tip_height : option Z;
  isr_current_tips : list Hash;
  isr_stale_template : bool;
  isr_unknown_context : bool;
  isr_classification : InvalidStateRootClassification;
  isr_state_validation_context_tip : option Hash;
  isr_state_validation_context_height : option Z;
  isr_state_validation_context_source : option string;
}.
#[global] Instance eta_InvalidStateRootDiagnostics : Eta InvalidStateRootDiagnostics := fun r =>
  mkInvalidStateRootDiagnostics (isr_block_hash r) (isr_height r) (isr_parent_hashes r) (isr_supplied_state_root r) (isr_computed_state_root r) (isr_tx_count r) (isr_coinbase_miner_address r) (isr_selected_tip r) (isr_selected_tip_height r) (isr_current_tips r) (isr_stale_template r) (isr_unknown_context r) (isr_classification r) (isr_state_validation_context_tip r) (isr_state_validation_context_height r) (isr_state_validation_context_source r).

Inductive PulseError :=
| InvalidSignature
| InsufficientFunds
| UtxoNotFound
| DoubleSpend
| TxAlreadyExists
| BlockAlreadyExists
| InvalidBlock (s : string)
| InvalidTransaction (s : string)
| InvalidTxid
| ParentStateContextUnavailable (block_hash parent_hash : Hash)
| InvalidStateRoot (d : InvalidStateRootDiagnostics)
| MissingCoinbase
| MultipleCoinbase
| CoinbaseNotFirst
| ExcessiveCoinbaseReward
| DuplicateUtxoOutpoint (s : string)
| RewardOverflow
| DuplicateOutpoint (s : string)
| NonDeterministicState (s : string)
| ChainIdMismatch
| StorageError (s : string)
| P2pDisabled
| NotFound (s : string)
| Internal (s : string).

(** A function that can also panic returns an [outcome]: [Err None] is a panic,
    [Err (Some e)] the error [e]. *)
Abbreviation outcome := (result (option PulseError)).
Definition fails {A} (e : PulseError) : outcome A := Err (Some e).
Definition expect {A} (o : option A) : outcome A := ok_or o None.
Definition lift {A} (r : result PulseError A) : outcome A := map_err Some r.

(** ** Records *)

Record ContractRuntimeConfig := mkContractRuntimeConfig {
  crc_enabled : bool;
  crc_vm_version : string;
  crc_max_gas_per_tx : Z;
  crc_max_contract_size_bytes : Z;
  crc_max_storage_key_bytes : Z;
  crc_max_storage_value_bytes : Z;
}.
#[global] Instance eta_ContractRuntimeConfig : Eta ContractRuntimeConfig := fun r =>
  mkContractRuntimeConfig (crc_enabled r) (crc_vm_version r) (crc_max_gas_per_tx r) (crc_max_contract_size_bytes r) (crc_max_storage_key_bytes r) (crc_max_storage_value_bytes r).

Record ContractRuntimeState := mkContractRuntimeState {
  crs_config : ContractRuntimeConfig;
  crs_contract_count : Z;
  crs_storage_slots : Z;
  crs_receipt_count : Z;
  crs_last_receipt_id : option string;
}.
#[global] Instance eta_ContractRuntimeState : Eta ContractRuntimeState := fun r =>
  mkContractRuntimeState (crs_config r) (crs_contract_count r) (crs_storage_slots r) (crs_receipt_count r) (crs_last_receipt_id r).

Inductive ConsensusMode := Legacy | GhostdagDev.
Inductive SelectedParentPolicy := GhostdagInspired | LegacyTip.

#[global] Instance ConsensusMode_eq_dec : EqDecision ConsensusMode.
Proof. solve_decision. Defined.

Definition ghostdag_metadata_active (m : ConsensusMode) : bool :=
  match m with GhostdagDev => true | Legacy => false end.

Record MergeSetDiagnostics := mkMergeSetDiagnostics {
  msd_selected_parent : option Hash;
  msd_blue_score : Z;
  msd_merge_set_size : Z;
  msd_merge_set_blues_count : Z;
  msd_merge_set_reds_count : Z;
}.
#[global] Instance eta_MergeSetDiagnostics : Eta MergeSetDiagnostics := fun r =>
  mkMergeSetDiagnostics (msd_selected_parent r) (msd_blue_score r) (msd_merge_set_size r) (msd_merge_set_blues_count r) (msd_merge_set_reds_count r).

Record DagState := mkDagState {
  d_blocks : gmap Hash Block;
  d_tips : gset Hash;
  d_children : gmap Hash (list Hash);
  d_genesis_hash : Hash;
  d_best_height : Z;
  d_consensus_mode : ConsensusMode;
  d_selected_parents : gmap Hash (option Hash);
  d_selected_chain : list Hash;
  d_selected_parent_policy : SelectedParentPolicy;
  d_merge_set_k : Z;
  d_merge_set_blues : gmap Hash (list Hash);
  d_merge_set_reds : gmap Hash (list Hash);
  d_blue_work : gmap Hash Z;
  d_merge_set_diagnostics : gmap Hash MergeSetDiagnostics;
  d_ordered_dag : list Hash;
  d_ordering_version : string;
  d_ordered_dag_rebuild_total : Z;
  d_ordered_dag_rebuild_failed_total : Z;
  d_ordered_dag_state_root : option Hash;
  d_ordered_dag_tip : option Hash;
  d_ordered_dag_conflict_diagnostics : list string;
}.
#[global] Instance eta_DagState : Eta DagState := fun r =>
  mkDagState (d_blocks r) (d_tips r) (d_children r) (d_genesis_hash r) (d_best_height r) (d_consensus_mode r) (d_selected_parents r) (d_selected_chain r) (d_selected_parent_policy r) (d_merge_set_k r) (d_merge_set_blues r) (d_merge_set_reds r) (d_blue_work r) (d_merge_set_diagnostics r) (d_ordered_dag r) (d_ordering_version r) (d_ordered_dag_rebuild_total r) (d_ordered_dag_rebuild_failed_total r) (d_ordered_dag_state_root r) (d_ordered_dag_tip r) (d_ordered_dag_conflict_diagnostics r).

Record UtxoState := mkUtxoState {
  u_utxos : gmap OutPoint Utxo;
  u_address_index : gmap Address (list OutPoint);
}.
#[global] Instance eta_UtxoState : Eta UtxoState := fun r =>
  mkUtxoState (u_utxos r) (u_address_index r).

Record MempoolCounters := mkMempoolCounters {
  mc_accepted_total : Z;
  mc_rejected_total : Z;
  mc_rejected_low_priority_total : Z;
  mc_evicted_total : Z;
  mc_pressure_events_total : Z;
  mc_reconcile_runs_total : Z;
  mc_reconcile_removed_total : Z;
  mc_confirmed_removed_total : Z;
  mc_orphaned_total : Z;
  mc_orphan_promoted_total : Z;
  mc_orphan_dropped_total : Z;
  mc_orphan_pruned_total : Z;
}.
#[global] Instance eta_MempoolCounters : Eta MempoolCounters := fun r =>
  mkMempoolCounters (mc_accepted_total r) (mc_rejected_total r) (mc_rejected_low_priority_total r) (mc_evicted_total r) (mc_pressure_events_total r) (mc_reconcile_runs_total r) (mc_reconcile_removed_total r) (mc_confirmed_removed_total r) (mc_orphaned_total r) (mc_orphan_promoted_total r) (mc_orphan_dropped_total r) (mc_orphan_pruned_total r).

Record Mempool := mkMempool {
  mp_transactions : gmap Hash Transaction;
  mp_spent_outpoints : gset OutPoint;
  mp_first_seen : gmap Hash Z;
  mp_next_first_seen : Z;
  mp_admission_height : gmap Hash Z;
  mp_orphan_admission_height : gmap Hash Z;
  mp_orphan_transactions : gmap Hash Transaction;
  mp_orphan_missing_outpoints : gmap Hash (list OutPoint);
  mp_orphan_received_order : gmap Hash Z;
  mp_next_orphan_order : Z;
  mp_counters : MempoolCounters;
  mp_max_transactions : Z;
  mp_max_spent_outpoints : Z;
  mp_max_orphans : Z;
}.
#[global] Instance eta_Mempool : Eta Mempool := fun r =>
  mkMempool (mp_transactions r) (mp_spent_outpoints r) (mp_first_seen r) (mp_next_first_seen r) (mp_admission_height r) (mp_orphan_admission_height r) (mp_orphan_transactions r) (mp_orphan_missing_outpoints r) (mp_orphan_received_order r) (mp_next_orphan_order r) (mp_counters r) (mp_max_transactions r) (mp_max_spent_outpoints r) (mp_max_orphans r).

Inductive MissingParentState :=
| Requestable
| Pending (s : string)
| Retryable (s : string)
| Backoff (n : Z)
| Exhausted (l : list string)
| ExhaustedResidual
| Peerless
| TerminalEvicted
| Quarantined
| Resolved.

Record MissingParentTerminalEntry := mkMissingParentTerminalEntry {
  mpt_state : MissingParentState;
  mpt_transitioned_at_ms : Z;
  mpt_waiting_orphans : list Hash;
  mpt_terminal_generation : Z;
  mpt_terminal_at_unix : Z;
  mpt_terminal_peer_set_digest : option string;
  mpt_reopened_total : Z;
  mpt_reopen_reason : option string;
  mpt_selected_segment_required : bool;
}.
#[global] Instance eta_MissingParentTerminalEntry : Eta MissingParentTerminalEntry := fun r =>
  mkMissingParentTerminalEntry (mpt_state r) (mpt_transitioned_at_ms r) (mpt_waiting_orphans r) (mpt_terminal_generation r) (mpt_terminal_at_unix r) (mpt_terminal_peer_set_digest r) (mpt_reopened_total r) (mpt_reopen_reason r) (mpt_selected_segment_required r).

Record ChainState := mkChainState {
  cs_chain_id : string;
  cs_dag : DagState;
  cs_utxo : UtxoState;
  cs_mempool : Mempool;
  cs_contracts : ContractRuntimeState;
  cs_orphan_blocks : gmap Hash Block;
  cs_orphan_missing_parents : gmap Hash (list Hash);
  cs_orphan_parent_index : gmap Hash (gset Hash);
  cs_orphan_received_at_ms : gmap Hash Z;
  cs_terminal_missing_parents : gmap Hash MissingParentTerminalEntry;
  cs_chain_state_generation : Z;
  cs_accepted_commit_generation_conflict_total : Z;
  cs_accepted_commit_reprepare_total : Z;
  cs_accepted_commit_serialized_total : Z;
  cs_accepted_commit_publish_mismatch_total : Z;
  cs_accepted_commit_last_hash : option Hash;
  cs_accepted_commit_last_source : option string;
  cs_chain_state_mutation_generation : Z;
  cs_chain_state_mutation_source : option string;
  cs_chain_state_mutation_conflict_total : Z;
  cs_chain_state_reprepare_total : Z;
  cs_accepted_hash_lost_from_memory_total : Z;
  cs_accepted_hash_terminalization_prevented_total : Z;
  cs_accepted_storage_repair_total : Z;
  cs_last_lost_accepted_hash : option Hash;
  cs_last_lost_accepted_height : option Z;
}.
#[global] Instance eta_ChainState : Eta ChainState := fun r =>
  mkChainState (cs_chain_id r) (cs_dag r) (cs_utxo r) (cs_mempool r) (cs_contracts r) (cs_orphan_blocks r) (cs_orphan_missing_parents r) (cs_orphan_parent_index r) (cs_orphan_received_at_ms r) (cs_terminal_missing_parents r) (cs_chain_state_generation r) (cs_accepted_commit_generation_conflict_total r) (cs_accepted_commit_reprepare_total r) (cs_accepted_commit_serialized_total r) (cs_accepted_commit_publish_mismatch_total r) (cs_accepted_commit_last_hash r) (cs_accepted_commit_last_source r) (cs_chain_state_mutation_generation r) (cs_chain_state_mutation_source r) (cs_chain_state_mutation_conflict_total r) (cs_chain_state_reprepare_total r) (cs_accepted_hash_lost_from_memory_total r) (cs_accepted_hash_terminalization_prevented_total r) (cs_accepted_storage_repair_total r) (cs_last_lost_accepted_hash r) (cs_last_lost_accepted_height r).

(** Defaults. *)
Definition MempoolCounters_default : MempoolCounters :=
  mkMempoolCounters 0 0 0 0 0 0 0 0 0 0 0 0.
Definition Mempool_default : Mempool := {|
  mp_transactions := ∅; mp_spent_outpoints := ∅; mp_first_seen := ∅; mp_next_first_seen := 0;
  mp_admission_height := ∅; mp_orphan_admission_height := ∅; mp_orphan_transactions := ∅;
  mp_orphan_missing_outpoints := ∅; mp_orphan_received_order := ∅; mp_next_orphan_order := 0;
  mp_counters := MempoolCounters_default; mp_max_transactions := 4096;
  mp_max_spent_outpoints := 8192; mp_max_orphans := 512;
|}.
Definition UtxoState_default : UtxoState := mkUtxoState ∅ ∅.

(** ** Address-index validation *)

Definition outpoint_label (o : OutPoint) : string := op_txid o +:+ ":" +:+ pretty (op_index o).

Section utxo_state.
Context `{Crypto, HashOrder}.

(** The body of the loop over the outpoints of one address. *)
Definition index_outpoint (address : Address)
    (acc : gset OutPoint * gmap OutPoint Address) (outpoint : OutPoint)
  : result PulseError (gset OutPoint * gmap OutPoint Address) :=
  let '(seen_for_address, indexed) := acc in
  if decide (outpoint ∈ seen_for_address) then
    Err (NonDeterministicState ("duplicate address index entry " +:+ outpoint_label outpoint
                                +:+ " for address " +:+ address))
  else match indexed !! outpoint with
  | Some _ => Err (NonDeterministicState ("outpoint " +:+ outpoint_label outpoint
                                          +:+ " appears under multiple addresses"))
  | None => Ok ({[outpoint]} ∪ seen_for_address, <[outpoint := address]> indexed)
  end.
Definition index_address (indexed : gmap OutPoint Address) (entry : Address * list OutPoint)
  : result PulseError (gmap OutPoint Address) :=
  let '(address, outpoints) := entry in
  let? p := try_fold (index_outpoint address) (∅, indexed) outpoints in Ok (snd p).

(** The body of the loop over the unspent outputs. *)
Definition check_indexed (indexed : gmap OutPoint Address) (_ : unit) (entry : OutPoint * Utxo)
  : result PulseError unit :=
  let '(outpoint, utxo) := entry in
  if decide (utxo_outpoint utxo <> outpoint) then
    Err (NonDeterministicState ("utxo key " +:+ outpoint_label outpoint
          +:+ " does not match embedded outpoint " +:+ outpoint_label (utxo_outpoint utxo)))
  else match indexed !! outpoint with
  | Some address =>
      if decide (address = utxo_address utxo) then Ok tt
      else Err (NonDeterministicState ("address index maps " +:+ outpoint_label outpoint
                  +:+ " to " +:+ address +:+ ", expected " +:+ utxo_address utxo))
  | None => Err (NonDeterministicState ("missing address index entry for " +:+ outpoint_label outpoint))
  end.

Definition btree_keys {V} (m : gmap OutPoint V) : list OutPoint :=
  isort (cmp_le outpoint_compare) (elements (dom m)).

Definition validate_deterministic_indexes (u : UtxoState) : result PulseError unit :=
  let? indexed := try_fold index_address ∅ (map_iter (u_address_index u)) in
  check try_fold (check_indexed indexed) tt (map_iter (u_utxos u)) in
  try_fold (fun (_ : unit) outpoint =>
    match u_utxos u !! outpoint with
    | Some _ => Ok tt
    | None => Err (NonDeterministicState ("address index references missing outpoint "
                                          +:+ outpoint_label outpoint))
    end) tt (btree_keys indexed).

(** ** State root *)

Definition UTXO_STATE_ROOT_DOMAIN : string := "PulseDAG:utxo-state-root:v1".

Definition encode_utxo (e : OutPoint * Utxo) : option bytes :=
  let '(outpoint, utxo) := e in
  emit [encode_len_prefixed_str (op_txid outpoint);
        fixed 4 (op_index outpoint);
        encode_len_prefixed_str (utxo_address utxo);
        fixed 8 (utxo_amount utxo);
        fixed 1 (if utxo_coinbase utxo then 1 else 0);
        fixed 8 (utxo_height utxo)].

(** The [BTreeMap] copy of the unspent outputs, in key order. *)
Definition ordered_utxos (u : UtxoState) : list (OutPoint * Utxo) :=
  omap (fun o => match u_utxos u !! o with Some v => Some (o, v) | None => None end)
       (btree_keys (u_utxos u)).

Definition utxo_state_root_bytes (u : UtxoState) : option bytes :=
  emit (encode_len_prefixed_bytes (str_bytes UTXO_STATE_ROOT_DOMAIN)
        :: fixed 8 (Z.of_nat (length (ordered_utxos u)))
        :: map encode_utxo (ordered_utxos u)).

Definition compute_state_root (u : UtxoState) : outcome Hash :=
  check lift (validate_deterministic_indexes u) in
  let? bytes := expect (utxo_state_root_bytes u) in
  Ok (hex_encode (sha256 bytes)).
End utxo_state.

(** ** The address index

    What [validate_deterministic_indexes] decides: the keys of the UTXO map are
    the embedded outpoints, and the address index lists every unspent output
    exactly once, under its own address, and nothing else. *)
Record index_consistent (u : UtxoState) : Prop := {
  ic_key : forall o v, u_utxos u !! o = Some v -> utxo_outpoint v = o;
  ic_complete : forall o v, u_utxos u !! o = Some v ->
    exists l, u_address_index u !! utxo_address v = Some l /\ o ∈ l;
  ic_sound : forall a l o, u_address_index u !! a = Some l -> o ∈ l ->
    exists v, u_utxos u !! o = Some v /\ utxo_address v = a;
  ic_nodup : forall a l, u_address_index u !! a = Some l -> NoDup l;
}.

Section index_spec.
Context `{Crypto, HashOrder}.

Lemma index_outpoints_spec a ops seen idx :
  match try_fold (index_outpoint a) (seen, idx) ops with
  | Ok (_, idx') =>
      NoDup ops /\ (forall o, o ∈ ops -> o ∉ seen /\ idx !! o = None) /\
      (forall o x, idx' !! o = Some x <-> idx !! o = Some x \/ (o ∈ ops /\ x = a))
  | Err _ => ~ (NoDup ops /\ forall o, o ∈ ops -> o ∉ seen /\ idx !! o = None)
  end.
Proof.
  revert seen idx. induction ops as [|o ops IH]; intros seen idx; simpl.
  { split; [constructor|]. split; [set_solver|]. set_solver. }
  case_decide as Hseen.
  { intros [_ Hf]. destruct (Hf o); [left|done]. }
  destruct (idx !! o) as [x|] eqn:Hx.
  { intros [_ Hf]. destruct (Hf o); [left|congruence]. }
  specialize (IH ({[o]} ∪ seen) (<[o:=a]> idx)).
  destruct (try_fold _ _ ops) as [[seen' idx']|e].
  - destruct IH as (Hnd & Hf & Hl).
    assert (Hno : o ∉ ops) by (intros Ho; destruct (Hf o Ho); set_solver).
    split; [by constructor|]. split.
    + intros o' [->|Ho']%elem_of_cons; [done|]. destruct (Hf o' Ho') as [Hs Hi].
      rewrite lookup_insert_ne in Hi by (intros ->; done). set_solver.
    + intros o' x. rewrite Hl. destruct (decide (o = o')) as [<-|Hne].
      * rewrite lookup_insert_eq. set_solver.
      * rewrite lookup_insert_ne by done. set_solver.
  - intros [Hnd Hf]. apply NoDup_cons in Hnd as [Hno Hnd]. apply IH. split; [done|].
    intros o' Ho'. destruct (Hf o') as [Hs Hi]; [by right|].
    assert (o <> o') by (intros ->; done).
    rewrite lookup_insert_ne by done. set_solver.
Qed.

Lemma index_addresses_spec (l : list (Address * list OutPoint)) idx :
  match try_fold index_address idx l with
  | Ok idx' =>
      NoDup (concat l.*2) /\ (forall o, o ∈ concat l.*2 -> idx !! o = None) /\
      (forall o x, idx' !! o = Some x <->
         idx !! o = Some x \/ exists ops, (x, ops) ∈ l /\ o ∈ ops)
  | Err _ => ~ (NoDup (concat l.*2) /\ forall o, o ∈ concat l.*2 -> idx !! o = None)
  end.
Proof.
  revert idx. induction l as [|[a ops] l IH]; intros idx; simpl.
  { split; [constructor|]. split; set_solver. }
  pose proof (index_outpoints_spec a ops ∅ idx) as Hin.
  destruct (try_fold (index_outpoint a) (∅, idx) ops) as [[seen' idx1]|e]; simpl.
  2: { intros [Hnd Hf]. apply Hin. apply NoDup_app in Hnd as (Hnd & _ & _).
       split; [done|]. intros o Ho. split; [set_solver|]. apply Hf. set_solver. }
  destruct Hin as (Hnd & Hf & Hl). specialize (IH idx1).
  assert (Hnone : forall o, idx1 !! o = None <-> idx !! o = None /\ o ∉ ops).
  { intros o. rewrite !eq_None_not_Some. split.
    - intros Hn. split; [intros [x Hx]|intros Ho]; apply Hn; eexists; apply Hl; eauto.
    - intros [Hn Ho] [x [Hx|[Hx _]]%Hl]; [apply Hn; eauto|done]. }
  destruct (try_fold index_address idx1 l) as [idx'|e].
  - destruct IH as (Hnd' & Hf' & Hl'). split; [|split].
    + apply NoDup_app. split; [done|]. split; [|done].
      intros o Ho Hc. apply Hf', Hnone in Hc. set_solver.
    + intros o [Ho|Ho]%elem_of_app; [by apply Hf|]. apply Hf', Hnone in Ho. naive_solver.
    + intros o x. rewrite Hl', Hl. set_solver.
  - intros [Hc Hf']. apply NoDup_app in Hc as (_ & Hdisj & Hnd'). apply IH.
    split; [done|]. intros o Ho. apply Hnone. split; [|set_solver]. apply Hf'. set_solver.
Qed.

(** A [for] loop that only checks. *)
Lemma try_fold_unit {E A} (f : unit -> A -> result E unit) l :
  try_fold f tt l = Ok tt <-> Forall (fun x => f tt x = Ok tt) l.
Proof.
  induction l as [|x l IH]; simpl; [split; auto|].
  rewrite Forall_cons. destruct (f tt x) as [[]|]; naive_solver.
Qed.

Lemma NoDup_concat_keyed {K A} (owner : A -> K) (l : list (K * list A)) :
  NoDup l.*1 -> (forall k x, (k, x) ∈ l -> NoDup x) ->
  (forall k x a, (k, x) ∈ l -> a ∈ x -> owner a = k) -> NoDup (concat l.*2).
Proof.
  induction l as [|[k x] l IH]; intros Hk Hnd Ho; simpl in *; [constructor|].
  apply NoDup_cons in Hk as [Hk1 Hk]. apply NoDup_app. split; [|split].
  - apply (Hnd k). left.
  - intros a Ha Hc. apply list_elem_of_In, in_concat in Hc as (y & Hy & Hay).
    apply list_elem_of_In, list_elem_of_fmap in Hy as ([k' y'] & -> & Hin).
    apply list_elem_of_In in Hay. apply Hk1.
    rewrite <- (Ho k x a); [|left|done]. rewrite (Ho k' y' a); [|by right|done].
    apply list_elem_of_fmap. by exists (k', y').
  - apply IH; [done|..]; intros; [eapply Hnd|eapply Ho]; try done; by right.
Qed.

Lemma elem_of_btree_keys {V} (m : gmap OutPoint V) o : o ∈ btree_keys m <-> is_Some (m !! o).
Proof. unfold btree_keys. by rewrite isort_elem_of, elem_of_elements, elem_of_dom. Qed.

Lemma check_indexed_Ok indexed o v :
  check_indexed indexed tt (o, v) = Ok tt <->
  utxo_outpoint v = o /\ indexed !! o = Some (utxo_address v).
Proof. unfold check_indexed. repeat case_decide; repeat case_match; naive_solver. Qed.

Lemma indexes_consistent u :
  validate_deterministic_indexes u = Ok tt <-> index_consistent u.
Proof.
  unfold validate_deterministic_indexes.
  pose proof (index_addresses_spec (map_iter (u_address_index u)) ∅) as Hidx.
  destruct (try_fold index_address ∅ _) as [indexed|e].
  - destruct Hidx as (Hnd & _ & Hl).
    assert (Hl' : forall o a, indexed !! o = Some a <->
      exists l, u_address_index u !! a = Some l /\ o ∈ l).
    { intros o a. rewrite Hl, lookup_empty. setoid_rewrite elem_of_map_iter. naive_solver. }
    assert (Hck : try_fold (check_indexed indexed) tt (map_iter (u_utxos u)) = Ok tt <->
      forall o v, u_utxos u !! o = Some v ->
        utxo_outpoint v = o /\ indexed !! o = Some (utxo_address v)).
    { rewrite try_fold_unit, Forall_forall. split.
      - intros Hf o v Ho%elem_of_map_iter. by apply check_indexed_Ok, Hf.
      - intros Hf [o v] Ho%elem_of_map_iter. by apply check_indexed_Ok, Hf. }
    assert (Hms : forall g, (forall o, g tt o = Ok tt <-> is_Some (u_utxos u !! o)) ->
      try_fold (E:=PulseError) g tt (btree_keys indexed) = Ok tt <->
      forall o, is_Some (indexed !! o) -> is_Some (u_utxos u !! o)).
    { intros g Hg. rewrite try_fold_unit, Forall_forall. setoid_rewrite elem_of_btree_keys.
      by setoid_rewrite Hg. }
    destruct (try_fold (check_indexed indexed) tt _) as [[]|e] eqn:Hc.
    2: { split; [done|]. intros [Hk Hco Hso _]. apply Hck. intros o v Ho. split; [by apply Hk|].
         apply Hl'. by apply Hco. }
    apply proj1 in Hck. specialize (Hck eq_refl). rewrite Hms.
    2: { intros o. destruct (u_utxos u !! o); split; try done. }
    split.
    + intros Hall. split.
      * intros o v Ho. by apply Hck.
      * intros o v Ho. by apply Hl', Hck.
      * intros a l o Ha Ho. assert (Hi : indexed !! o = Some a) by (apply Hl'; eauto).
        destruct (Hall o) as [v Hv]; [by eexists|]. exists v. split; [done|].
        apply Hck in Hv as [_ Hv]. congruence.
      * intros a l Ha%elem_of_map_iter. clear -Hnd Ha.
        induction (map_iter (u_address_index u)) as [|[a' l'] m IH]; [set_solver|].
        simpl in Hnd. apply NoDup_app in Hnd as (H1 & _ & H2).
        apply elem_of_cons in Ha as [[= -> ->]|Ha]; auto.
    + intros [_ _ Hso _] o [a (l & Ha & Ho)%Hl']. destruct (Hso a l o Ha Ho) as (v & Hv & _). by exists v.
  - split; [done|]. intros [_ _ Hso Hn]. exfalso. apply Hidx. split; [|by intros; apply lookup_empty].
    apply (NoDup_concat_keyed (fun o => default "" (utxo_address <$> u_utxos u !! o))).
    + apply NoDup_map_iter_keys.
    + intros a l Ha%elem_of_map_iter. by apply (Hn a).
    + intros a l o Ha%elem_of_map_iter Ho. destruct (Hso a l o Ha Ho) as (v & -> & <-). done.
Qed.
End index_spec.

(** ** The state root determines the unspent outputs *)

Definition utxo_typed (v : Utxo) : Prop := in_u 64 (utxo_amount v) /\ in_u 64 (utxo_height v).
Definition utxos_typed (u : UtxoState) : Prop :=
  map_Forall (fun o v => outpoint_typed o /\ utxo_typed v) (u_utxos u).

Section state_root.
Context `{Crypto, HashOrder}.

Lemma elem_of_ordered_utxos u o v : (o, v) ∈ ordered_utxos u <-> u_utxos u !! o = Some v.
Proof.
  unfold ordered_utxos. rewrite list_elem_of_omap. split.
  - intros (o' & _ & Heq). destruct (u_utxos u !! o') eqn:E; naive_solver.
  - intros Ho. exists o. rewrite elem_of_btree_keys, Ho. split; [by eexists|done].
Qed.

Lemma length_ordered_utxos u : length (ordered_utxos u) = size (u_utxos u).
Proof.
  unfold ordered_utxos, btree_keys. rewrite <- size_dom. change (size (dom (u_utxos u)))
    with (length (elements (dom (u_utxos u)))).
  rewrite <- (isort_perm (cmp_le outpoint_compare) (elements (dom (u_utxos u)))) at 2.
  assert (Hall : Forall (fun o => is_Some (u_utxos u !! o))
    (isort (cmp_le outpoint_compare) (elements (dom (u_utxos u))))).
  { apply Forall_forall. intros o. by rewrite isort_elem_of, elem_of_elements, elem_of_dom. }
  induction Hall as [|o l [v Hv] _ IH]; simpl; [done|]. rewrite Hv. simpl. apply (f_equal S), IH.
Qed.

Lemma ordered_utxos_inj u1 u2 : ordered_utxos u1 = ordered_utxos u2 -> u_utxos u1 = u_utxos u2.
Proof.
  intros Heq. apply map_eq. intros o. apply option_eq. intros v.
  by rewrite <- !elem_of_ordered_utxos, Heq.
Qed.

(** An entry whose key is its embedded outpoint, as the index check ensures. *)
Definition entry_ok (e : OutPoint * Utxo) : Prop :=
  outpoint_typed e.1 /\ utxo_typed e.2 /\ utxo_outpoint e.2 = e.1.

#[global] Instance encode_utxo_delimited : Delimited entry_ok encode_utxo.
Proof.
  intros [o1 v1] [o2 v2] x y r s (Ho1 & (? & ?) & Hk1) (Ho2 & (? & ?) & Hk2) Hx Hy Heq.
  unfold encode_utxo in Hx, Hy. unfold outpoint_typed in *. cbn [fst snd] in *.
  assert (Hb : forall b : bool, 0 <= (if b then 1 else 0) < 256 ^ Z.of_nat 1)
    by (intros []; vm_compute; split; congruence).
  peel (fun _ : string => True) encode_len_prefixed_str.
  peel (fun x => 0 <= x < 256 ^ Z.of_nat 4) (fixed 4).
  peel (fun _ : string => True) encode_len_prefixed_str.
  peel (fun x => 0 <= x < 256 ^ Z.of_nat 8) (fixed 8).
  peel (fun x => 0 <= x < 256 ^ Z.of_nat 1) (fixed 1).
  peel (fun x => 0 <= x < 256 ^ Z.of_nat 8) (fixed 8).
  destruct v1 as [? ? ? [] ?], v2 as [? ? ? [] ?], o1, o2; simpl in *; simplify_eq; done.
Qed.

Lemma ordered_utxos_ok u :
  index_consistent u -> utxos_typed u -> Forall entry_ok (ordered_utxos u).
Proof.
  intros [Hk _ _ _] Ht. apply Forall_forall. intros [o v] Ho%elem_of_ordered_utxos.
  destruct (Ht o v Ho). unfold entry_ok. naive_solver.
Qed.

Lemma utxo_state_root_bytes_inj u1 u2 b :
  index_consistent u1 -> index_consistent u2 -> utxos_typed u1 -> utxos_typed u2 ->
  Z.of_nat (length (ordered_utxos u1)) <= u64_max ->
  Z.of_nat (length (ordered_utxos u2)) <= u64_max ->
  utxo_state_root_bytes u1 = Some b -> utxo_state_root_bytes u2 = Some b ->
  u_utxos u1 = u_utxos u2.
Proof.
  intros Hc1 Hc2 Ht1 Ht2 Hl1 Hl2 Hb1 Hb2.
  assert (Heq : b ++ [] = b ++ []) by done. revert Hb1 Hb2 Heq.
  unfold utxo_state_root_bytes. generalize b at 1 3 as b1. intros b1 Hb1 Hb2 Heq.
  assert (in_u 64 (Z.of_nat (length (ordered_utxos u1)))) by (split; lia).
  assert (in_u 64 (Z.of_nat (length (ordered_utxos u2)))) by (split; lia).
  peel (fun _ : bytes => True) encode_len_prefixed_bytes.
  peel (fun x => 0 <= x < 256 ^ Z.of_nat 8) (fixed 8).
  apply ordered_utxos_inj.
  eapply (emit_map_delimited entry_ok encode_utxo); eauto using ordered_utxos_ok; lia.
Qed.

Lemma compute_state_root_Ok u h :
  compute_state_root u = Ok h <->
  index_consistent u /\ exists b, utxo_state_root_bytes u = Some b /\ h = hex_encode (sha256 b).
Proof.
  unfold compute_state_root. rewrite <- indexes_consistent.
  destruct (validate_deterministic_indexes u) as [[]|]; simpl; [|naive_solver].
  destruct (utxo_state_root_bytes u); simpl; naive_solver.
Qed.

(** [validate_deterministic_indexes] accepts exactly the states whose UTXO
    keys are the embedded outpoints and whose address index lists every unspent
    output once, under its own address, and nothing else; the verdict does not
    depend on the iteration order of the hash maps. *)
Lemma validate_deterministic_indexes_spec u :
  validate_deterministic_indexes u = Ok tt <-> index_consistent u.
Proof. apply indexes_consistent. Qed.

Lemma same_root_same_utxos u1 u2 b1 b2 h `{!CryptoLaws} :
  utxos_typed u1 -> utxos_typed u2 ->
  Z.of_nat (size (u_utxos u1)) <= u64_max -> Z.of_nat (size (u_utxos u2)) <= u64_max ->
  utxo_state_root_bytes u1 = Some b1 -> utxo_state_root_bytes u2 = Some b2 ->
  collision_free [b1; b2] ->
  compute_state_root u1 = Ok h -> compute_state_root u2 = Ok h ->
  u_utxos u1 = u_utxos u2.
Proof.
  intros Ht1 Ht2 Hs1 Hs2 Hb1 Hb2 Hcf (Hc1 & c1 & Hc1' & ->)%compute_state_root_Ok
    (Hc2 & c2 & Hc2' & Heq)%compute_state_root_Ok.
  rewrite Hb1 in Hc1'. rewrite Hb2 in Hc2'. simplify_eq.
  apply Hcf in Heq; [|set_solver..]. subst.
  apply (utxo_state_root_bytes_inj u1 u2 c2); try done; by rewrite length_ordered_utxos.
Qed.

(** Two states that [compute_state_root] gives the same root have the same
    unspent outputs, unless the two serializations are a SHA-256 collision. *)
Lemma state_root_binding u1 u2 b1 b2 h `{!CryptoLaws} :
  utxos_typed u1 -> utxos_typed u2 ->
  Z.of_nat (size (u_utxos u1)) <= u64_max -> Z.of_nat (size (u_utxos u2)) <= u64_max ->
  utxo_state_root_bytes u1 = Some b1 -> utxo_state_root_bytes u2 = Some b2 ->
  collision_free [b1; b2] ->
  compute_state_root u1 = Ok h -> compute_state_root u2 = Ok h ->
  u_utxos u1 = u_utxos u2.
Proof. apply same_root_same_utxos; done. Qed.
End state_root.

(** ** Witnesses *)

Definition sample_outpoint (n : Z) : OutPoint := mkOutPoint "aa" n.
Definition sample_utxo (n : Z) : Utxo := mkUtxo (sample_outpoint n) "alice" (10 * n) false 1.
Definition sample_utxo_state : UtxoState := {|
  u_utxos := {[ sample_outpoint 0 := sample_utxo 0; sample_outpoint 1 := sample_utxo 1 ]};
  u_address_index := {[ "alice" := [sample_outpoint 1; sample_outpoint 0] ]};
|}.

Definition sample_root_bytes : bytes := default [] (utxo_state_root_bytes sample_utxo_state).
Definition sample_root : Hash := @hex_encode model_crypto (@sha256 model_crypto sample_root_bytes).

Lemma state_root_binding_witness :
  @compute_state_root model_crypto list_order sample_utxo_state = Ok sample_root /\
  u_utxos sample_utxo_state = u_utxos sample_utxo_state.
Proof.
  assert (Hb : utxo_state_root_bytes sample_utxo_state = Some sample_root_bytes) by (vm_compute; reflexivity).
  assert (Hr : @compute_state_root model_crypto list_order sample_utxo_state = Ok sample_root)
    by (vm_compute; reflexivity).
  assert (Ht : utxos_typed sample_utxo_state) by (by_decide).
  assert (Hs : Z.of_nat (size (u_utxos sample_utxo_state)) <= u64_max) by (vm_compute; discriminate).
  assert (Hc : @collision_free model_crypto [sample_root_bytes; sample_root_bytes])
    by (by_decide).
  split; [exact Hr|].
  exact (@state_root_binding model_crypto list_order _ _ _ _ _ model_crypto_laws
           Ht Ht Hs Hs Hb Hb Hc Hr Hr).
Defined.

(** A state with no blocks, on which the witnesses of the other files build. *)
Definition blank_dag : DagState := {|
  d_blocks := ∅; d_tips := ∅; d_children := ∅; d_genesis_hash := "g"; d_best_height := 0;
  d_consensus_mode := Legacy; d_selected_parents := ∅; d_selected_chain := [];
  d_selected_parent_policy := LegacyTip; d_merge_set_k := 2; d_merge_set_blues := ∅;
  d_merge_set_reds := ∅; d_blue_work := ∅; d_merge_set_diagnostics := ∅; d_ordered_dag := [];
  d_ordering_version := ""; d_ordered_dag_rebuild_total := 0;
  d_ordered_dag_rebuild_failed_total := 0; d_ordered_dag_state_root := None;
  d_ordered_dag_tip := None; d_ordered_dag_conflict_diagnostics := [];
|}.
Definition blank_contracts : ContractRuntimeState :=
  mkContractRuntimeState (mkContractRuntimeConfig false "" 0 0 0 0) 0 0 0 None.
Definition blank_state : ChainState := {|
  cs_chain_id := "test"; cs_dag := blank_dag; cs_utxo := UtxoState_default;
  cs_mempool := Mempool_default; cs_contracts := blank_contracts; cs_orphan_blocks := ∅;
  cs_orphan_missing_parents := ∅; cs_orphan_parent_index := ∅; cs_orphan_received_at_ms := ∅;
  cs_terminal_missing_parents := ∅; cs_chain_state_generation := 0;
  cs_accepted_commit_generation_conflict_total := 0; cs_accepted_commit_reprepare_total := 0;
  cs_accepted_commit_serialized_total := 0; cs_accepted_commit_publish_mismatch_total := 0;
  cs_accepted_commit_last_hash := None; cs_accepted_commit_last_source := None;
  cs_chain_state_mutation_generation := 0; cs_chain_state_mutation_source := None;
  cs_chain_state_mutation_conflict_total := 0; cs_chain_state_reprepare_total := 0;
  cs_accepted_hash_lost_from_memory_total := 0;
  cs_accepted_hash_terminalization_prevented_total := 0; cs_accepted_storage_repair_total := 0;
  cs_last_lost_accepted_hash := None; cs_last_lost_accepted_height := None;
|}.
