(* ===== verification/Tx.v ===== *)
(** * Transactions ([tx.rs])

    The canonical transaction serializers (v1, and v2 which binds the chain id),
    transaction ids, the address of a public key and signature verification.
    The theorems: each serializer is unambiguous, so a transaction id binds
    every field of the transaction but the id itself (v2: the chain id too);
    the signed message binds everything but the signatures; and an accepted
    transaction is signed, over that message, by the owner of every output it
    spends. *)

From stdpp Require Import pretty.
From S2P Require Import Prelude Encoding Crypto Types State.

Definition TRANSACTION_VERSION_V1 : Z := 1.
Definition TRANSACTION_VERSION_V2 : Z := 2.
Definition UNSIGNED_TX_V1_DOMAIN : string := "PulseDAG:unsigned-tx:v1".
Definition TX_V1_DOMAIN : string := "PulseDAG:tx:v1".
Definition UNSIGNED_TX_V2_DOMAIN : string := "PulseDAG:unsigned-tx:v2".
Definition TX_V2_DOMAIN : string := "PulseDAG:tx:v2".

(** ** Canonical serialization *)

Definition canonical_outpoint_bytes (o : OutPoint) : option bytes :=
  emit [encode_len_prefixed_str (op_txid o); fixed 4 (op_index o)].
Definition canonical_tx_input_bytes (i : TxInput) : option bytes :=
  emit [canonical_outpoint_bytes (in_previous_output i);
        encode_len_prefixed_str (in_public_key i);
        encode_len_prefixed_str (in_signature i)].
Definition canonical_tx_output_bytes (o : TxOutput) : option bytes :=
  emit [encode_len_prefixed_str (out_address o); fixed 8 (out_amount o)].
(** The body of the input loop of the unsigned serializers. *)
Definition unsigned_tx_input_bytes (i : TxInput) : option bytes :=
  emit [canonical_outpoint_bytes (in_previous_output i);
        encode_len_prefixed_str (in_public_key i)].

Definition canonical_unsigned_transaction_bytes (tx : Transaction) : option bytes :=
  emit [encode_len_prefixed_bytes (str_bytes UNSIGNED_TX_V1_DOMAIN);
        fixed 4 (tx_version tx);
        encode_vec unsigned_tx_input_bytes (tx_inputs tx);
        encode_vec canonical_tx_output_bytes (tx_outputs tx);
        fixed 8 (tx_fee tx);
        fixed 8 (tx_nonce tx)].
Definition canonical_transaction_bytes (tx : Transaction) : option bytes :=
  emit [encode_len_prefixed_bytes (str_bytes TX_V1_DOMAIN);
        fixed 4 (tx_version tx);
        encode_vec canonical_tx_input_bytes (tx_inputs tx);
        encode_vec canonical_tx_output_bytes (tx_outputs tx);
        fixed 8 (tx_fee tx);
        fixed 8 (tx_nonce tx)].

Definition validate_transaction_version_v1 (tx : Transaction) : result PulseError unit :=
  if tx_version tx =? TRANSACTION_VERSION_V1 then Ok tt
  else Err (InvalidTransaction ("legacy transaction validation requires version "
              +:+ pretty TRANSACTION_VERSION_V1 +:+ ", got " +:+ pretty (tx_version tx))).

Definition validate_v2_domain (tx : Transaction) (chain_id : string) : result PulseError unit :=
  if negb (tx_version tx =? TRANSACTION_VERSION_V2) then
    Err (InvalidTransaction ("transaction/signing v2 requires version "
           +:+ pretty TRANSACTION_VERSION_V2 +:+ ", got " +:+ pretty (tx_version tx)))
  else if bool_decide (chain_id = "") then Err ChainIdMismatch
  else Ok tt.

Definition canonical_unsigned_transaction_bytes_v2 (tx : Transaction) (chain_id : string)
  : outcome bytes :=
  check lift (validate_v2_domain tx chain_id) in
  expect (emit [encode_len_prefixed_bytes (str_bytes UNSIGNED_TX_V2_DOMAIN);
                encode_len_prefixed_str chain_id;
                fixed 4 (tx_version tx);
                encode_vec unsigned_tx_input_bytes (tx_inputs tx);
                encode_vec canonical_tx_output_bytes (tx_outputs tx);
                fixed 8 (tx_fee tx);
                fixed 8 (tx_nonce tx)]).
Definition canonical_transaction_bytes_v2 (tx : Transaction) (chain_id : string)
  : outcome bytes :=
  check lift (validate_v2_domain tx chain_id) in
  expect (emit [encode_len_prefixed_bytes (str_bytes TX_V2_DOMAIN);
                encode_len_prefixed_str chain_id;
                fixed 4 (tx_version tx);
                encode_vec canonical_tx_input_bytes (tx_inputs tx);
                encode_vec canonical_tx_output_bytes (tx_outputs tx);
                fixed 8 (tx_fee tx);
                fixed 8 (tx_nonce tx)]).

Definition signing_message (tx : Transaction) : option bytes :=
  canonical_unsigned_transaction_bytes tx.
Definition signing_message_v2 (tx : Transaction) (chain_id : string) : outcome bytes :=
  canonical_unsigned_transaction_bytes_v2 tx chain_id.

(** [v.get(i)] with an unsigned index. *)
Definition vec_get {A} (l : list A) (i : Z) : option A :=
  if 0 <=? i then l !! Z.to_nat i else None.

(** The address that owns an output: the UTXO set first, then the outputs of
    mempool transactions. *)
Definition referenced_output_address (state : ChainState) (o : OutPoint) : option Address :=
  match u_utxos (cs_utxo state) !! o with
  | Some utxo => Some (utxo_address utxo)
  | None =>
      match mp_transactions (cs_mempool state) !! op_txid o with
      | Some tx => match vec_get (tx_outputs tx) (op_index o) with
                   | Some output => Some (out_address output)
                   | None => None
                   end
      | None => None
      end
  end.

Section tx.
Context `{Crypto}.

Definition address_from_public_key (public_key_hex : string) : Address :=
  "pulse1" +:+ hex_encode (take 20 (sha256 (str_bytes public_key_hex))).

Definition compute_txid (tx : Transaction) : option Hash :=
  match canonical_transaction_bytes tx with
  | Some b => Some (hex_encode (sha256 b))
  | None => None
  end.
Definition compute_txid_v2 (tx : Transaction) (chain_id : string) : outcome Hash :=
  let? b := canonical_transaction_bytes_v2 tx chain_id in Ok (hex_encode (sha256 b)).

(** [bytes.try_into::<[u8; n]>()]. *)
Definition array_of (n : nat) (b : bytes) : option bytes :=
  if decide (length b = n) then Some b else None.

(** One iteration of the verification loop. *)
Definition verify_input (state : ChainState) (message : bytes) (_ : unit) (input : TxInput)
  : result PulseError unit :=
  let? expected_address :=
    ok_or (referenced_output_address state (in_previous_output input)) UtxoNotFound in
  if decide (address_from_public_key (in_public_key input) <> expected_address) then
    Err InvalidSignature
  else
  let? pk_bytes := ok_or (hex_decode (in_public_key input)) InvalidSignature in
  let? sig_bytes := ok_or (hex_decode (in_signature input)) InvalidSignature in
  let? pk_arr := ok_or (array_of 32 pk_bytes) InvalidSignature in
  let? sig_arr := ok_or (array_of 64 sig_bytes) InvalidSignature in
  if negb (ed25519_key_ok pk_arr) then Err InvalidSignature
  else if negb (ed25519_verify pk_arr message sig_arr) then Err InvalidSignature
  else Ok tt.
Definition verify_transaction_signatures_with_message
    (tx : Transaction) (state : ChainState) (message : bytes) : result PulseError unit :=
  try_fold (verify_input state message) tt (tx_inputs tx).

Definition verify_transaction_signatures (tx : Transaction) (state : ChainState) : outcome unit :=
  check lift (validate_transaction_version_v1 tx) in
  let? message := expect (signing_message tx) in
  lift (verify_transaction_signatures_with_message tx state message).
Definition verify_transaction_signatures_v2 (tx : Transaction) (state : ChainState)
    (chain_id : string) : outcome unit :=
  let? message := signing_message_v2 tx chain_id in
  lift (verify_transaction_signatures_with_message tx state message).
End tx.

(** ** Well-typed transactions *)

Definition input_typed (i : TxInput) : Prop := outpoint_typed (in_previous_output i).
Definition output_typed (o : TxOutput) : Prop := in_u 64 (out_amount o).
Definition tx_typed (tx : Transaction) : Prop :=
  in_u 32 (tx_version tx) /\ Forall input_typed (tx_inputs tx) /\
  Forall output_typed (tx_outputs tx) /\ in_u 64 (tx_fee tx) /\ in_u 64 (tx_nonce tx).

#[global] Instance tx_typed_dec tx : Decision (tx_typed tx).
Proof. unfold tx_typed, input_typed, output_typed, outpoint_typed. apply _. Defined.

(** ** The serializers implement [Delimited] *)

#[global] Instance canonical_outpoint_bytes_delimited :
  Delimited outpoint_typed canonical_outpoint_bytes.
Proof.
  intros a b x y r s Ha Hb Hx Hy Heq. unfold canonical_outpoint_bytes, outpoint_typed in *.
  peel (fun _ : string => True) encode_len_prefixed_str.
  peel (fun x => 0 <= x < 256 ^ Z.of_nat 4) (fixed 4).
  destruct a, b; simpl in *; simplify_eq; done.
Qed.
#[global] Instance canonical_tx_input_bytes_delimited :
  Delimited input_typed canonical_tx_input_bytes.
Proof.
  intros a b x y r s Ha Hb Hx Hy Heq. unfold canonical_tx_input_bytes, input_typed in *.
  peel outpoint_typed canonical_outpoint_bytes.
  peel (fun _ : string => True) encode_len_prefixed_str.
  peel (fun _ : string => True) encode_len_prefixed_str.
  destruct a, b; simpl in *; simplify_eq; done.
Qed.
#[global] Instance canonical_tx_output_bytes_delimited :
  Delimited output_typed canonical_tx_output_bytes.
Proof.
  intros a b x y r s Ha Hb Hx Hy Heq. unfold canonical_tx_output_bytes, output_typed in *.
  peel (fun _ : string => True) encode_len_prefixed_str.
  peel (fun x => 0 <= x < 256 ^ Z.of_nat 8) (fixed 8).
  destruct a, b; simpl in *; simplify_eq; done.
Qed.

(** What a transaction id does not cover: the [txid] field. *)
Definition tx_body (tx : Transaction) : Transaction :=
  mkTransaction "" (tx_version tx) (tx_inputs tx) (tx_outputs tx) (tx_fee tx) (tx_nonce tx).
(** What a signature does not cover: the [txid] field and the signatures. *)
Definition strip_signature (i : TxInput) : TxInput :=
  mkTxInput (in_previous_output i) (in_public_key i) "".
Definition tx_unsigned (tx : Transaction) : Transaction :=
  mkTransaction "" (tx_version tx) (map strip_signature (tx_inputs tx))
    (tx_outputs tx) (tx_fee tx) (tx_nonce tx).

(** The unsigned input serializer sees an input without its signature. *)
Definition unsigned_input_bytes' (i : OutPoint * string) : option bytes :=
  emit [canonical_outpoint_bytes i.1; encode_len_prefixed_str i.2].
#[global] Instance unsigned_input_bytes_delimited :
  Delimited (fun i => outpoint_typed i.1) unsigned_input_bytes'.
Proof.
  intros [a1 a2] [b1 b2] x y r s Ha Hb Hx Hy Heq. unfold unsigned_input_bytes' in *. cbn [fst snd] in *.
  peel outpoint_typed canonical_outpoint_bytes.
  peel (fun _ : string => True) encode_len_prefixed_str.
  simplify_eq; done.
Qed.
Definition signed_part (i : TxInput) : OutPoint * string := (in_previous_output i, in_public_key i).
Lemma encode_unsigned_inputs l :
  encode_vec unsigned_tx_input_bytes l = encode_vec unsigned_input_bytes' (map signed_part l).
Proof. unfold encode_vec. rewrite length_map, map_map. done. Qed.
Lemma signed_part_strip l1 l2 :
  map signed_part l1 = map signed_part l2 -> map strip_signature l1 = map strip_signature l2.
Proof.
  revert l2. induction l1 as [|[] l1 IH]; intros [|[] l2] Heq; simplify_eq/=; [done|].
  f_equal; auto.
Qed.
Lemma Forall_signed_part l :
  Forall input_typed l -> Forall (fun i => outpoint_typed i.1) (map signed_part l).
Proof. intros Hl. by apply Forall_map. Qed.
#[global] Hint Resolve Forall_signed_part : core.

(** The serialized body shared by v1 and v2, after the domain prefix. *)
Lemma tx_fields_inj tx1 tx2 z1 z2 :
  tx_typed tx1 -> tx_typed tx2 ->
  emit [fixed 4 (tx_version tx1); encode_vec canonical_tx_input_bytes (tx_inputs tx1);
        encode_vec canonical_tx_output_bytes (tx_outputs tx1); fixed 8 (tx_fee tx1);
        fixed 8 (tx_nonce tx1)] = Some z1 ->
  emit [fixed 4 (tx_version tx2); encode_vec canonical_tx_input_bytes (tx_inputs tx2);
        encode_vec canonical_tx_output_bytes (tx_outputs tx2); fixed 8 (tx_fee tx2);
        fixed 8 (tx_nonce tx2)] = Some z2 ->
  z1 ++ [] = z2 ++ [] -> tx_body tx1 = tx_body tx2.
Proof.
  intros (?&?&?&?&?) (?&?&?&?&?) Hz1 Hz2 Heq.
  peel (fun x => 0 <= x < 256 ^ Z.of_nat 4) (fixed 4).
  peel (Forall input_typed) (encode_vec canonical_tx_input_bytes).
  peel (Forall output_typed) (encode_vec canonical_tx_output_bytes).
  peel (fun x => 0 <= x < 256 ^ Z.of_nat 8) (fixed 8).
  peel (fun x => 0 <= x < 256 ^ Z.of_nat 8) (fixed 8).
  unfold tx_body. congruence.
Qed.
Lemma unsigned_fields_inj tx1 tx2 z1 z2 :
  tx_typed tx1 -> tx_typed tx2 ->
  emit [fixed 4 (tx_version tx1); encode_vec unsigned_tx_input_bytes (tx_inputs tx1);
        encode_vec canonical_tx_output_bytes (tx_outputs tx1); fixed 8 (tx_fee tx1);
        fixed 8 (tx_nonce tx1)] = Some z1 ->
  emit [fixed 4 (tx_version tx2); encode_vec unsigned_tx_input_bytes (tx_inputs tx2);
        encode_vec canonical_tx_output_bytes (tx_outputs tx2); fixed 8 (tx_fee tx2);
        fixed 8 (tx_nonce tx2)] = Some z2 ->
  z1 ++ [] = z2 ++ [] -> tx_unsigned tx1 = tx_unsigned tx2.
Proof.
  intros (?&?&?&?&?) (?&?&?&?&?) Hz1 Hz2 Heq. rewrite !encode_unsigned_inputs in *.
  peel (fun x => 0 <= x < 256 ^ Z.of_nat 4) (fixed 4).
  peel (Forall (fun i : OutPoint * string => outpoint_typed i.1)) (encode_vec unsigned_input_bytes').
  peel (Forall output_typed) (encode_vec canonical_tx_output_bytes).
  peel (fun x => 0 <= x < 256 ^ Z.of_nat 8) (fixed 8).
  peel (fun x => 0 <= x < 256 ^ Z.of_nat 8) (fixed 8).
  unfold tx_unsigned.
  match goal with E : map signed_part _ = _ |- _ => apply signed_part_strip in E end. congruence.
Qed.

Lemma canonical_transaction_bytes_inj tx1 tx2 b :
  tx_typed tx1 -> tx_typed tx2 ->
  canonical_transaction_bytes tx1 = Some b -> canonical_transaction_bytes tx2 = Some b ->
  tx_body tx1 = tx_body tx2.
Proof.
  intros Ht1 Ht2 H1 H2. unfold canonical_transaction_bytes in *.
  assert (Heq : b ++ [] = b ++ []) by done. revert H1 H2 Heq.
  generalize b at 1 3 as b1. intros b1 H1 H2 Heq.
  peel (fun _ : bytes => True) encode_len_prefixed_bytes. by eapply tx_fields_inj.
Qed.
Lemma signing_message_inj tx1 tx2 b :
  tx_typed tx1 -> tx_typed tx2 ->
  signing_message tx1 = Some b -> signing_message tx2 = Some b ->
  tx_unsigned tx1 = tx_unsigned tx2.
Proof.
  intros Ht1 Ht2 H1 H2. unfold signing_message, canonical_unsigned_transaction_bytes in *.
  assert (Heq : b ++ [] = b ++ []) by done. revert H1 H2 Heq.
  generalize b at 1 3 as b1. intros b1 H1 H2 Heq.
  peel (fun _ : bytes => True) encode_len_prefixed_bytes. by eapply unsigned_fields_inj.
Qed.

Lemma v2_Ok tx chain_id (o : option bytes) b :
  (check lift (validate_v2_domain tx chain_id) in expect o) = Ok b <->
  tx_version tx = TRANSACTION_VERSION_V2 /\ chain_id <> "" /\ o = Some b.
Proof.
  unfold validate_v2_domain. destruct (Z.eqb_spec (tx_version tx) TRANSACTION_VERSION_V2);
    simpl; [|naive_solver]. case_bool_decide; simpl; [naive_solver|].
  destruct o; simpl; naive_solver.
Qed.
Lemma canonical_transaction_bytes_v2_inj tx1 tx2 c1 c2 b :
  tx_typed tx1 -> tx_typed tx2 ->
  canonical_transaction_bytes_v2 tx1 c1 = Ok b -> canonical_transaction_bytes_v2 tx2 c2 = Ok b ->
  tx_body tx1 = tx_body tx2 /\ c1 = c2.
Proof.
  intros Ht1 Ht2 (_ & _ & H1)%v2_Ok (_ & _ & H2)%v2_Ok.
  assert (Heq : b ++ [] = b ++ []) by done. revert H1 H2 Heq.
  generalize b at 1 3 as b1. intros b1 H1 H2 Heq.
  peel (fun _ : bytes => True) encode_len_prefixed_bytes.
  peel (fun _ : string => True) encode_len_prefixed_str.
  split; [by eapply tx_fields_inj|done].
Qed.
Lemma signing_message_v2_inj tx1 tx2 c1 c2 b :
  tx_typed tx1 -> tx_typed tx2 ->
  signing_message_v2 tx1 c1 = Ok b -> signing_message_v2 tx2 c2 = Ok b ->
  tx_unsigned tx1 = tx_unsigned tx2 /\ c1 = c2.
Proof.
  intros Ht1 Ht2 (_ & _ & H1)%v2_Ok (_ & _ & H2)%v2_Ok.
  assert (Heq : b ++ [] = b ++ []) by done. revert H1 H2 Heq.
  generalize b at 1 3 as b1. intros b1 H1 H2 Heq.
  peel (fun _ : bytes => True) encode_len_prefixed_bytes.
  peel (fun _ : string => True) encode_len_prefixed_str.
  split; [by eapply unsigned_fields_inj|done].
Qed.

Lemma domain_separated (d1 d2 : string) l1 l2 b :
  d1 <> d2 ->
  emit (encode_len_prefixed_bytes (str_bytes d1) :: l1) = Some b ->
  emit (encode_len_prefixed_bytes (str_bytes d2) :: l2) = Some b -> False.
Proof.
  intros Hne H1 H2. assert (Heq : b ++ [] = b ++ []) by done.
  destruct (emit_peel (fun _ => True) encode_len_prefixed_bytes _ _ _ _ _ _ _ _ I I H1 H2 Heq)
    as [Hd%(inj str_bytes) _]. done.
Qed.

Section signatures.
Context `{Crypto}.

(** What one accepted input shows. *)
Definition input_authorized (state : ChainState) (message : bytes) (i : TxInput) : Prop :=
  exists owner pk sig,
    referenced_output_address state (in_previous_output i) = Some owner /\
    address_from_public_key (in_public_key i) = owner /\
    hex_decode (in_public_key i) = Some pk /\ length pk = 32%nat /\
    hex_decode (in_signature i) = Some sig /\ length sig = 64%nat /\
    ed25519_key_ok pk = true /\ ed25519_verify pk message sig = true.

Lemma array_of_Some n b c : array_of n b = Some c <-> c = b /\ length b = n.
Proof. unfold array_of. case_decide; naive_solver. Qed.

Lemma verify_input_Ok state message i :
  verify_input state message tt i = Ok tt <-> input_authorized state message i.
Proof.
  unfold verify_input, input_authorized. split.
  - intros Hv. inv_ok. bool_props.
    repeat match goal with E : array_of _ _ = Some _ |- _ => apply array_of_Some in E as [-> ?] end.
    apply dec_stable in Hdec. eauto 15.
  - intros (owner & pk & sig & -> & <- & -> & Hpk & -> & Hsig & Hk & Hv). simpl.
    rewrite decide_False by naive_solver.
    rewrite (proj2 (array_of_Some 32 pk pk)), (proj2 (array_of_Some 64 sig sig)) by done. simpl.
    by rewrite Hk, Hv.
Qed.

Lemma verify_with_message_Ok tx state message :
  verify_transaction_signatures_with_message tx state message = Ok tt <->
  Forall (input_authorized state message) (tx_inputs tx).
Proof.
  unfold verify_transaction_signatures_with_message. rewrite try_fold_unit.
  apply Forall_iff. intros i. apply verify_input_Ok.
Qed.

Lemma lift_Ok {A} (r : result PulseError A) a : lift r = Ok a <-> r = Ok a.
Proof. destruct r; simpl; naive_solver. Qed.

Lemma verify_signatures_iff tx state :
  verify_transaction_signatures tx state = Ok tt <->
  tx_version tx = TRANSACTION_VERSION_V1 /\
  exists m, signing_message tx = Some m /\ Forall (input_authorized state m) (tx_inputs tx).
Proof.
  unfold verify_transaction_signatures, validate_transaction_version_v1.
  destruct (Z.eqb_spec (tx_version tx) TRANSACTION_VERSION_V1) as [Hv|]; simpl; [|naive_solver].
  destruct (signing_message tx) as [m|]; simpl; [|naive_solver].
  rewrite lift_Ok, verify_with_message_Ok. naive_solver.
Qed.

(** A v1 transaction id binds the whole transaction except the [txid] field
    itself: version, every input with its key and signature, every output, fee
    and nonce (unless the two serializations collide under SHA-256). *)
Lemma compute_txid_binding `{!CryptoLaws} tx1 tx2 b1 b2 :
  tx_typed tx1 -> tx_typed tx2 ->
  canonical_transaction_bytes tx1 = Some b1 -> canonical_transaction_bytes tx2 = Some b2 ->
  collision_free [b1; b2] ->
  compute_txid tx1 = compute_txid tx2 -> tx_body tx1 = tx_body tx2.
Proof.
  unfold compute_txid. intros Ht1 Ht2 Hb1 Hb2 Hcf. rewrite Hb1, Hb2.
  intros [= Heq%(inj hex_encode)]. apply Hcf in Heq; [|set_solver..]. subst b2.
  by apply (canonical_transaction_bytes_inj tx1 tx2 b1).
Qed.

(** A v2 transaction id binds the transaction and the chain id, so the same
    signed transaction has distinct ids on distinct chains. *)
Lemma compute_txid_v2_binding `{!CryptoLaws} tx1 tx2 c1 c2 b1 b2 h :
  tx_typed tx1 -> tx_typed tx2 ->
  canonical_transaction_bytes_v2 tx1 c1 = Ok b1 -> canonical_transaction_bytes_v2 tx2 c2 = Ok b2 ->
  collision_free [b1; b2] ->
  compute_txid_v2 tx1 c1 = Ok h -> compute_txid_v2 tx2 c2 = Ok h ->
  tx_body tx1 = tx_body tx2 /\ c1 = c2.
Proof.
  unfold compute_txid_v2. intros Ht1 Ht2 Hb1 Hb2 Hcf. rewrite Hb1, Hb2.
  intros [= <-] [= Heq%(inj hex_encode)]. apply Hcf in Heq; [|set_solver..]. subst b2.
  by apply (canonical_transaction_bytes_v2_inj tx1 tx2 c1 c2 b1).
Qed.

(** Replay protection.  A message signed under v2 binds the chain id and
    every field of the transaction but the id and the signatures, and it is
    never also the signing message of a v1 transaction. *)
Lemma signing_message_v2_binding tx1 tx2 c1 c2 m :
  tx_typed tx1 -> tx_typed tx2 -> signing_message_v2 tx1 c1 = Ok m ->
  signing_message tx2 <> Some m /\
  (signing_message_v2 tx2 c2 = Ok m -> tx_unsigned tx1 = tx_unsigned tx2 /\ c1 = c2).
Proof.
  intros Ht1 Ht2 H1. split; [|by apply signing_message_v2_inj].
  apply v2_Ok in H1 as (_ & _ & H1). intros H2.
  eapply (domain_separated UNSIGNED_TX_V2_DOMAIN UNSIGNED_TX_V1_DOMAIN); [done|exact H1|exact H2].
Qed.

(** Signature verification of a v1 transaction succeeds exactly when its
    version is 1 and every input spends an output, known to the UTXO set or the
    mempool, whose address is that of the input's key, with a 64-byte signature
    the 32-byte key accepts over the canonical message. *)
Lemma verify_transaction_signatures_spec tx state :
  verify_transaction_signatures tx state = Ok tt <->
  tx_version tx = TRANSACTION_VERSION_V1 /\
  exists m, signing_message tx = Some m /\ Forall (input_authorized state m) (tx_inputs tx).
Proof. apply verify_signatures_iff. Qed.
End signatures.

(** ** Witnesses *)

Definition sample_tx : Transaction :=
  mkTransaction "t" 1 [mkTxInput (mkOutPoint "aa" 0) "pk" "sig"] [mkTxOutput "bob" 7] 1 9.
Definition sample_tx_v2 : Transaction :=
  mkTransaction "t" 2 [mkTxInput (mkOutPoint "aa" 0) "pk" "sig"] [mkTxOutput "bob" 7] 1 9.
Definition ok_bytes {E} (r : result E bytes) : bytes := match r with Ok b => b | Err _ => [] end.

Lemma compute_txid_binding_witness :
  let tx' := mkTransaction "u" 1 (tx_inputs sample_tx) (tx_outputs sample_tx) 1 9 in
  @compute_txid model_crypto sample_tx = @compute_txid model_crypto tx' /\
  tx_body sample_tx = tx_body tx'.
Proof.
  intros tx'. split; [vm_compute; reflexivity|].
  apply (@compute_txid_binding model_crypto model_crypto_laws sample_tx tx'
    (default [] (canonical_transaction_bytes sample_tx)) (default [] (canonical_transaction_bytes tx')));
    [by_decide|by_decide|by_compute|by_compute|by_decide|by_compute].
Defined.

Lemma compute_txid_v2_binding_witness :
  let tx' := mkTransaction "u" 2 (tx_inputs sample_tx) (tx_outputs sample_tx) 1 9 in
  tx_body sample_tx_v2 = tx_body tx' /\ "main" = "main".
Proof.
  intros tx'.
  apply (@compute_txid_v2_binding model_crypto model_crypto_laws sample_tx_v2 tx' "main" "main"
    (ok_bytes (canonical_transaction_bytes_v2 sample_tx_v2 "main"))
    (ok_bytes (canonical_transaction_bytes_v2 tx' "main"))
    (@hex_encode model_crypto (@sha256 model_crypto
       (ok_bytes (canonical_transaction_bytes_v2 sample_tx_v2 "main")))));
    [by_decide|by_decide|by_compute|by_compute|by_decide|by_compute|by_compute].
Defined.

Lemma signing_message_v2_binding_witness :
  let m := ok_bytes (signing_message_v2 sample_tx_v2 "main") in
  signing_message sample_tx <> Some m /\
  (signing_message_v2 sample_tx "test" = Ok m ->
     tx_unsigned sample_tx_v2 = tx_unsigned sample_tx /\ "main" = "test").
Proof.
  intros m. apply signing_message_v2_binding.
  - by_decide.
  - by_decide.
  - vm_compute. reflexivity.
Defined.
