(* ===== verification/Graph.v ===== *)
(** * Worklist search over the block DAG

    Several routines of the repository walk the parent edges with an explicit
    stack and a set of seen hashes.  [dfs] is that loop; [stop] is the early
    return some of them have.  The loop is bounded by fuel, and
    [dfs_fuel_enough] shows that one unit per stack entry plus one per edge
    suffices, so that the callers are total.  [bfs] is the same loop with a
    queue. *)

From S2P Require Import Prelude.

Section dfs.
Context {K : Type} `{Countable K}.
Variable next : K -> list K.

Fixpoint dfs (stop : K -> bool) (fuel : nat) (stack : list K) (seen : gset K)
  : option (bool * gset K) :=
  match fuel with
  | O => None
  | S fuel' =>
      match stack with
      | [] => Some (false, seen)
      | cursor :: stack' =>
          if decide (cursor ∈ seen) then dfs stop fuel' stack' seen
          else if stop cursor then Some (true, {[cursor]} ∪ seen)
          else dfs stop fuel' (rev (next cursor) ++ stack') ({[cursor]} ∪ seen)
      end
  end.

Definition edge (a b : K) : Prop := b ∈ next a.
Definition reach : relation K := rtc edge.

(** ** Soundness *)

Lemma dfs_sound stop fuel stack seen found seen' :
  dfs stop fuel stack seen = Some (found, seen') ->
  seen ⊆ seen' /\
  (forall k, k ∈ seen' -> k ∈ seen \/ exists r, r ∈ stack /\ reach r k) /\
  (found = true -> exists k, k ∈ seen' /\ k ∉ seen /\ stop k = true) /\
  (found = false ->
     (forall k, k ∈ stack -> k ∈ seen') /\
     (forall k, k ∈ seen' -> k ∉ seen -> stop k = false) /\
     ((forall k p, k ∈ seen -> p ∈ next k -> p ∈ seen \/ p ∈ stack) ->
        forall k p, k ∈ seen' -> p ∈ next k -> p ∈ seen')).
Proof.
  revert stack seen. induction fuel as [|fuel IH]; intros stack seen Hd; [done|].
  simpl in Hd. destruct stack as [|c stack].
  { simplify_eq. split; [done|]. split; [auto|]. split; [done|].
    intros _. split; [set_solver|]. split; [set_solver|]. intros Hc k p Hk Hp.
    destruct (Hc k p Hk Hp); [done|set_solver]. }
  case_decide as Hc.
  { apply IH in Hd as (Hs & Hr & Ht & Hf). split; [done|]. split; [|split; [done|]].
    - intros k Hk. destruct (Hr k Hk) as [?|(r & ? & ?)]; [auto|]. right. exists r. set_solver.
    - intros Hfound. destruct (Hf Hfound) as (Hin & Hst & Hcl). split; [set_solver|].
      split; [done|]. intros Hpre. apply Hcl. intros k p Hk Hp. destruct (Hpre k p Hk Hp); set_solver. }
  destruct (stop c) eqn:Hstop.
  { simplify_eq. split; [set_solver|]. split; [|split; [|done]].
    - intros k [->%elem_of_singleton|?]%elem_of_union; [|auto]. right. exists c.
      split; [set_solver|apply rtc_refl].
    - intros _. exists c. set_solver. }
  apply IH in Hd as (Hs & Hr & Ht & Hf). split; [set_solver|]. split; [|split].
  - intros k Hk. destruct (Hr k Hk) as [[->%elem_of_singleton|?]%elem_of_union|(r & Hin & Hrk)].
    + right. exists c. split; [set_solver|apply rtc_refl].
    + auto.
    + right. apply elem_of_app in Hin as [Hin|Hin].
      * exists c. split; [set_solver|]. eapply rtc_l; [|done].
        unfold edge. apply list_elem_of_In. apply list_elem_of_In in Hin. by apply in_rev.
      * exists r. set_solver.
  - intros Hfound. destruct (Ht Hfound) as (k & ? & ? & ?). exists k. set_solver.
  - intros Hfound. destruct (Hf Hfound) as (Hin & Hst & Hcl). split; [|split].
    + intros k [->|Hk]%elem_of_cons; [set_solver|]. apply Hin. set_solver.
    + intros k Hk Hk'. destruct (decide (k = c)) as [->|]; [done|]. apply Hst; set_solver.
    + intros Hpre. apply Hcl. intros k p [->%elem_of_singleton|Hk]%elem_of_union Hp.
      * right. apply elem_of_app. left. apply list_elem_of_In, in_rev.
        rewrite rev_involutive. by apply list_elem_of_In.
      * destruct (Hpre k p Hk Hp) as [?|[->|?]%elem_of_cons]; set_solver.
Qed.

Lemma closed_reach (s : gset K) a b :
  (forall k p, k ∈ s -> p ∈ next k -> p ∈ s) -> a ∈ s -> reach a b -> b ∈ s.
Proof. intros Hcl Ha Hr. induction Hr; eauto. Qed.

(** The search from one root without early return collects what it reaches. *)
Lemma dfs_reach fuel root seen :
  dfs (fun _ => false) fuel [root] ∅ = Some (false, seen) ->
  forall k, k ∈ seen <-> reach root k.
Proof.
  intros (_ & Hr & _ & Hf)%dfs_sound k. destruct (Hf eq_refl) as (Hin & _ & Hcl).
  split.
  - intros Hk. destruct (Hr k Hk) as [?|(r & ->%list_elem_of_singleton & ?)]; [set_solver|done].
  - intros Hk. eapply closed_reach; [|apply Hin; left|exact Hk]. apply Hcl. set_solver.
Qed.

Lemma dfs_no_stop fuel stack seen found seen' :
  dfs (fun _ => false) fuel stack seen = Some (found, seen') -> found = false.
Proof.
  intros (_ & _ & Ht & _)%dfs_sound. destruct found; [|done].
  by destruct (Ht eq_refl) as (? & _ & _ & ?).
Qed.

(** The search that stops at a target decides reachability. *)
Lemma dfs_target fuel root target found seen :
  dfs (fun k => bool_decide (k = target)) fuel [root] ∅ = Some (found, seen) ->
  found = true <-> reach root target.
Proof.
  intros (_ & Hr & Ht & Hf)%dfs_sound. split.
  - intros Hfound. destruct (Ht Hfound) as (k & Hk & _ & ->%bool_decide_eq_true).
    destruct (Hr target Hk) as [?|(r & ->%list_elem_of_singleton & ?)]; [set_solver|done].
  - intros Hrt. destruct found; [done|]. destruct (Hf eq_refl) as (Hin & Hst & Hcl).
    assert (Htar : target ∈ seen).
    { eapply closed_reach; [|apply Hin; left|exact Hrt]. apply Hcl. set_solver. }
    apply Hst in Htar; [|set_solver]. by apply bool_decide_eq_false in Htar.
Qed.

(** ** Fuel *)

Definition edge_count (s : gset K) : nat := sum_list_with (fun k => length (next k)) (elements s).

Lemma edge_count_union x s :
  x ∉ s -> edge_count ({[x]} ∪ s) = (length (next x) + edge_count s)%nat.
Proof. intros Hx. unfold edge_count. by rewrite (elements_union_singleton s x Hx). Qed.

Lemma dfs_fuel_enough stop (support : gset K) fuel stack seen :
  (forall k, k ∉ support -> next k = []) ->
  (length stack + edge_count (support ∖ seen) < fuel)%nat ->
  is_Some (dfs stop fuel stack seen).
Proof.
  intros Hsup. revert stack seen.
  induction fuel as [|fuel IH]; intros stack seen Hfuel; [lia|].
  simpl. destruct stack as [|c stack]; [by eexists|]. simpl in Hfuel.
  case_decide as Hc; [apply IH; lia|]. destruct (stop c); [by eexists|].
  apply IH. rewrite length_app, length_rev.
  destruct (decide (c ∈ support)) as [Hin|Hout].
  - assert (Hsplit : support ∖ seen = {[c]} ∪ support ∖ ({[c]} ∪ seen)).
    { apply set_eq. intros k. destruct (decide (k = c)); set_solver. }
    rewrite Hsplit, edge_count_union in Hfuel by set_solver. lia.
  - rewrite (Hsup c Hout). simpl.
    assert (Hsame : support ∖ ({[c]} ∪ seen) = support ∖ seen) by set_solver.
    rewrite Hsame. lia.
Qed.

(** ** Queues *)

Fixpoint bfs (fuel : nat) (pending : list K) (seen : gset K) : option (gset K) :=
  match fuel with
  | O => None
  | S fuel' =>
      match pending with
      | [] => Some seen
      | cursor :: pending' =>
          if decide (cursor ∈ seen) then bfs fuel' pending' seen
          else bfs fuel' (pending' ++ next cursor) ({[cursor]} ∪ seen)
      end
  end.

Lemma bfs_sound fuel pending seen seen' :
  (forall k p, k ∈ seen -> p ∈ next k -> p ∈ seen \/ p ∈ pending) ->
  bfs fuel pending seen = Some seen' ->
  seen ⊆ seen' /\ (forall k, k ∈ pending -> k ∈ seen') /\
  (forall k, k ∈ seen' -> k ∈ seen \/ exists r, r ∈ pending /\ reach r k) /\
  (forall k p, k ∈ seen' -> p ∈ next k -> p ∈ seen').
Proof.
  revert pending seen. induction fuel as [|fuel IH]; intros pending seen Hcl Hb; [done|]. simpl in Hb.
  destruct pending as [|c pending].
  { simplify_eq. split_and!; [done|set_solver|auto|]. intros k p Hk Hp. destruct (Hcl k p Hk Hp); set_solver. }
  case_decide as Hc.
  - apply IH in Hb as (Hs & Hp & Hr & Hd).
    2: { intros k p Hk Hp. destruct (Hcl k p Hk Hp) as [?|[->|?]%elem_of_cons]; auto. }
    split_and!; [done|set_solver| |done]. intros k Hk. destruct (Hr k Hk) as [?|(r & ? & ?)]; [auto|].
    right. exists r. set_solver.
  - apply IH in Hb as (Hs & Hp & Hr & Hd).
    2: { intros k p [->%elem_of_singleton|Hk]%elem_of_union Hp; [set_solver|].
         destruct (Hcl k p Hk Hp) as [?|[->|?]%elem_of_cons]; set_solver. }
    split_and!; [set_solver| | |done].
    + intros k [->|Hk]%elem_of_cons; [set_solver|]. apply Hp. set_solver.
    + intros k Hk. destruct (Hr k Hk) as [[->%elem_of_singleton|?]%elem_of_union|(r & [?|?]%elem_of_app & ?)]; [|auto|..].
      * right. exists c. split; [set_solver|apply rtc_refl].
      * right. exists r. set_solver.
      * right. exists c. split; [set_solver|]. by eapply rtc_l.
Qed.
(** The search collects what its roots reach. *)
Lemma bfs_reach fuel roots seen :
  bfs fuel roots ∅ = Some seen -> forall k, k ∈ seen <-> exists r, r ∈ roots /\ reach r k.
Proof.
  intros (_ & Hp & Hr & Hd)%bfs_sound k; [|set_solver]. split.
  - intros Hk. destruct (Hr k Hk); [set_solver|done].
  - intros (r & Hin & Hrk). eapply closed_reach; [exact Hd|apply Hp, Hin|exact Hrk].
Qed.

Lemma bfs_fuel_enough (support : gset K) fuel pending seen :
  (forall k, k ∉ support -> next k = []) ->
  (length pending + edge_count (support ∖ seen) < fuel)%nat ->
  is_Some (bfs fuel pending seen).
Proof.
  intros Hsup. revert pending seen.
  induction fuel as [|fuel IH]; intros pending seen Hfuel; [lia|].
  simpl. destruct pending as [|c pending]; [by eexists|]. simpl in Hfuel.
  case_decide as Hc; [apply IH; lia|]. apply IH. rewrite length_app.
  destruct (decide (c ∈ support)) as [Hin|Hout].
  - assert (Hsplit : support ∖ seen = {[c]} ∪ support ∖ ({[c]} ∪ seen)).
    { apply set_eq. intros k. destruct (decide (k = c)); set_solver. }
    rewrite Hsplit, edge_count_union in Hfuel by set_solver. lia.
  - rewrite (Hsup c Hout). simpl.
    assert (Hsame : support ∖ ({[c]} ∪ seen) = support ∖ seen) by set_solver.
    rewrite Hsame. lia.
Qed.
End dfs.
