(* ===== verification/Pow.v ===== *)
(** * Proof of work ([pow.rs])

    Compact target bits, the 256-bit targets they stand for, and the check that
    a header's kHeavyHash does not exceed its target.  The hash itself is
    computed by the crates [sha3] and [kaspa-pow] (class [Kaspa]).  Targets are
    32-byte big-endian arrays. *)

From Stdlib Require Import Strings.Byte.
From S2P Require Import Prelude Encoding Crypto Types State.

(** [sha3::Keccak256::digest], [PowHash::new(h, 0).finalize_with_nonce(n)] and
    [Matrix::generate(h).heavy_hash(x)]. *)
Class Kaspa := {
  keccak256 : bytes -> bytes;
  pow_finalize : bytes -> Z -> bytes;
  matrix_heavy_hash : bytes -> bytes -> bytes;
  heavy_hash_length h x : length (matrix_heavy_hash h x) = 32%nat;
}.

Inductive PowAlgorithm := KHeavyHash.
Definition selected_pow_algorithm : PowAlgorithm := KHeavyHash.
Definition selected_pow_name : string := match selected_pow_algorithm with KHeavyHash => "kHeavyHash" end.

Inductive PowRejectReason :=
| ParentCountTooLarge | ParentHashTooLong | MerkleRootTooLong | StateRootTooLong | ScoreAboveTarget.
Definition PowRejectReason_code (r : PowRejectReason) : string :=
  match r with
  | ParentCountTooLarge => "parent_count_too_large"
  | ParentHashTooLong => "parent_hash_too_long"
  | MerkleRootTooLong => "merkle_root_too_long"
  | StateRootTooLong => "state_root_too_long"
  | ScoreAboveTarget => "score_above_target"
  end.

(** ** Compact targets *)

Definition target_from_bits (bits : Z) : bytes :=
  if Z.shiftr bits 24 =? 0 then
    let difficulty := Z.max bits 1 in
    let legacy := u64_max / difficulty in
    be_bytes 8 legacy ++ replicate 24 xff
  else
    let exponent := Z.land (Z.shiftr bits 24) 0xff in
    let mantissa := Z.land bits 0x007fffff in
    if (exponent =? 0) || (mantissa =? 0) then replicate 32 x00
    else
      let mantissa_bytes := [byte_of_Z (Z.shiftr mantissa 16); byte_of_Z (Z.shiftr mantissa 8);
                             byte_of_Z mantissa] in
      if exponent <=? 3 then
        let shifted := Z.shiftr mantissa (8 * (3 - exponent)) in
        replicate 29 x00 ++ [byte_of_Z (Z.shiftr shifted 16); byte_of_Z (Z.shiftr shifted 8);
                             byte_of_Z shifted]
      else
        let start := saturating_sub 32 exponent in
        if (32 <=? start) || (32 <? start + 3) then replicate 32 xff
        else replicate (Z.to_nat start) x00 ++ mantissa_bytes ++ replicate (Z.to_nat (29 - start)) x00.

(** [target[i]], 0 past the end (the code guards every such read). *)
Definition byte_at (target : bytes) (i : nat) : Z :=
  match target !! i with Some b => Z_of_byte b | None => 0 end.

Definition bits_from_target (target : bytes) : Z :=
  match list_find (fun b => b <> x00) target with
  | None => 0
  | Some (first_nonzero, _) =>
      let t := byte_at target in
      let exponent := 32 - Z.of_nat first_nonzero in
      let '(exponent, mantissa) :=
        if 0x7f <? t first_nonzero then
          (exponent + 1,
           Z.lor (Z.shiftl (t first_nonzero) 8)
             (if decide (first_nonzero + 1 < 32)%nat then t (first_nonzero + 1)%nat else 0))
        else
          (exponent,
           Z.lor (Z.lor (Z.shiftl (t first_nonzero) 16)
             (if decide (first_nonzero + 1 < 32)%nat
              then Z.shiftl (t (first_nonzero + 1)%nat) 8 else 0))
             (if decide (first_nonzero + 2 < 32)%nat then t (first_nonzero + 2)%nat else 0)) in
      Z.lor (Z.shiftl exponent 24) (Z.land mantissa 0x007fffff)
  end.

Definition compare_pow_hash_to_target (hash target : bytes) : bool := bytes_le hash target.
Definition leading_u64 (target : bytes) : Z := be_value (take 8 target).
Definition u64_to_target (value : Z) : bytes := be_bytes 8 value ++ replicate 24 x00.
Definition target_from_compact (compact_difficulty : Z) : Z :=
  leading_u64 (target_from_bits compact_difficulty).
Definition compact_from_target (target_u64 : Z) : Z := bits_from_target (u64_to_target target_u64).
(** [difficulty as u32]. *)
Definition pow_target_u64 (difficulty : Z) : Z := leading_u64 (target_from_bits (difficulty mod 2 ^ 32)).

(** ** Validation *)

Definition str_len (s : string) : Z := Z.of_nat (length (str_bytes s)).

Definition validate_pow_preimage_encoding (header : BlockHeader) : result PowRejectReason unit :=
  if u16_max <? Z.of_nat (length (h_parents header)) then Err ParentCountTooLarge
  else if existsb (fun p => u16_max <? str_len p) (h_parents header) then Err ParentHashTooLong
  else if u16_max <? str_len (h_merkle_root header) then Err MerkleRootTooLong
  else if u16_max <? str_len (h_state_root header) then Err StateRootTooLong
  else Ok tt.

(** [PowHeaderPreimage::from_header(header).to_bytes_checked()]; the nonce of
    the header it rebuilds is 0.  The inner [option] is the panic of the
    serializer. *)
Definition pow_header_preimage (header : BlockHeader) : BlockHeader :=
  mkBlockHeader (h_version header) (h_parents header) (h_timestamp header) (h_difficulty header) 0
    (h_merkle_root header) (h_state_root header) (h_blue_score header) (h_height header).
Definition to_bytes_checked (header : BlockHeader) : result PowRejectReason (option bytes) :=
  check validate_pow_preimage_encoding header in
  Ok (canonical_mining_preimage_bytes (pow_header_preimage header)).

Record PowEvaluation := mkPowEvaluation {
  pe_algorithm : PowAlgorithm;
  pe_hash_hex : string;
  pe_hash : bytes;
  pe_score_u64 : Z;
  pe_target_u64 : Z;
  pe_target_hex : string;
  pe_accepted : bool;
}.
Record PowValidationResult := mkPowValidationResult {
  pv_algorithm : string;
  pv_accepted : bool;
  pv_hash_hex : option string;
  pv_score_u64 : option Z;
  pv_target_u64 : Z;
  pv_difficulty : Z;
  pv_target_hex : string;
  pv_rejection_code : option string;
  pv_rejection_reason : option PowRejectReason;
}.

Section pow.
Context `{Crypto, Kaspa}.

Definition kheavyhash_digest (pre_pow_bytes : bytes) (nonce : Z) : bytes :=
  let pre_pow_hash := keccak256 pre_pow_bytes in
  matrix_heavy_hash pre_pow_hash (pow_finalize pre_pow_hash nonce).

Definition target_hex (target : bytes) : string := hex_encode target.

Definition evaluate_pre_pow_bytes_with_nonce (pre_pow_bytes : bytes) (nonce target_bits : Z)
  : PowEvaluation :=
  let hash := kheavyhash_digest pre_pow_bytes nonce in
  let target := target_from_bits target_bits in
  {| pe_algorithm := KHeavyHash;
     pe_hash_hex := hex_encode hash;
     pe_hash := hash;
     pe_score_u64 := be_value (take 8 hash);
     pe_target_u64 := leading_u64 target;
     pe_target_hex := target_hex target;
     pe_accepted := compare_pow_hash_to_target hash target |}.

(** [None] is the panic of the preimage serializer. *)
Definition evaluate_header (header : BlockHeader) : option PowEvaluation :=
  match to_bytes_checked header with
  | Ok None => None
  | Ok (Some pre_pow_bytes) =>
      Some (evaluate_pre_pow_bytes_with_nonce pre_pow_bytes (h_nonce header) (h_difficulty header))
  | Err _ =>
      Some {| pe_algorithm := KHeavyHash; pe_hash_hex := ""; pe_hash := replicate 32 x00;
              pe_score_u64 := u64_max;
              pe_target_u64 := leading_u64 (target_from_bits (h_difficulty header));
              pe_target_hex := target_hex (target_from_bits (h_difficulty header));
              pe_accepted := false |}
  end.
Definition pow_evaluate (header : BlockHeader) : option PowEvaluation := evaluate_header header.

Definition pow_validation_result (header : BlockHeader) : option PowValidationResult :=
  let target := target_from_bits (h_difficulty header) in
  match validate_pow_preimage_encoding header with
  | Err reason =>
      Some {| pv_algorithm := selected_pow_name; pv_accepted := false; pv_hash_hex := None;
              pv_score_u64 := None; pv_target_u64 := leading_u64 target;
              pv_difficulty := h_difficulty header; pv_target_hex := target_hex target;
              pv_rejection_code := Some (PowRejectReason_code reason);
              pv_rejection_reason := Some reason |}
  | Ok _ =>
      match pow_evaluate header with
      | None => None
      | Some e =>
          let rejection_reason := if pe_accepted e then None else Some ScoreAboveTarget in
          Some {| pv_algorithm := selected_pow_name; pv_accepted := pe_accepted e;
                  pv_hash_hex := Some (pe_hash_hex e); pv_score_u64 := Some (pe_score_u64 e);
                  pv_target_u64 := pe_target_u64 e; pv_difficulty := h_difficulty header;
                  pv_target_hex := pe_target_hex e;
                  pv_rejection_code := option_map PowRejectReason_code rejection_reason;
                  pv_rejection_reason := rejection_reason |}
      end
  end.

Definition validate_pow_header (header : BlockHeader) : option (result PowRejectReason unit) :=
  match pow_validation_result header with
  | None => None
  | Some r => Some (if pv_accepted r then Ok tt
                    else Err (default ScoreAboveTarget (pv_rejection_reason r)))
  end.

(** The hash goes through its hexadecimal rendering. *)
Definition pow_hash (header : BlockHeader) : option bytes :=
  match evaluate_header header with
  | None => None
  | Some e => Some (match hex_decode (pe_hash_hex e) with
                    | Some b => if decide (length b = 32%nat) then b else replicate 32 x00
                    | None => replicate 32 x00
                    end)
  end.
Definition verify_work (header : BlockHeader) : option bool :=
  match validate_pow_preimage_encoding header with
  | Err _ => Some false
  | Ok _ => match pow_hash header with
            | None => None
            | Some hash => Some (compare_pow_hash_to_target hash (target_from_bits (h_difficulty header)))
            end
  end.

Definition set_nonce (header : BlockHeader) (nonce : Z) : BlockHeader :=
  mkBlockHeader (h_version header) (h_parents header) (h_timestamp header) (h_difficulty header) nonce
    (h_merkle_root header) (h_state_root header) (h_blue_score header) (h_height header).
(** [for i in 0..tries], [left] iterations from [i] on. *)
Fixpoint mine_loop (header : BlockHeader) (i : Z) (left : nat)
  : option (BlockHeader * option (Z * string)) :=
  match left with
  | O => Some (header, None)
  | S left' =>
      let header := set_nonce header i in
      match pow_evaluate header with
      | None => None
      | Some e => if pe_accepted e then Some (header, Some (i + 1, pe_hash_hex e))
                  else mine_loop header (i + 1) left'
      end
  end.
Definition mine_header (header : BlockHeader) (max_tries : Z)
  : option (BlockHeader * bool * Z * string) :=
  let tries := Z.max max_tries 1 in
  match mine_loop header 0 (Z.to_nat tries) with
  | None => None
  | Some (header, Some (used, hash_hex)) => Some (header, true, used, hash_hex)
  | Some (header, None) =>
      match pow_evaluate header with
      | None => None
      | Some e => Some (header, false, tries, pe_hash_hex e)
      end
  end.
End pow.

(** ** The environment ([read_env_u64], [dev_max_future_drift_secs]) *)

Definition DEV_TARGET_BLOCK_INTERVAL_SECS : Z := 60.
Definition DEV_MAX_FUTURE_DRIFT_SECS : Z := 120.

(** [str::parse::<u64>]: an optional [+], then decimal digits, at most [u64::MAX]. *)
Definition digit_of (c : Ascii.ascii) : option Z :=
  let n := Z.of_N (Ascii.N_of_ascii c) in
  if (48 <=? n) && (n <=? 57) then Some (n - 48) else None.
Fixpoint parse_digits (w acc : Z) (s : string) : option Z :=
  match s with
  | String.EmptyString => Some acc
  | String.String c s' =>
      match digit_of c with
      | Some d => if acc * 10 + d <=? u_max w then parse_digits w (acc * 10 + d) s' else None
      | None => None
      end
  end.
Definition parse_u64 (s : string) : option Z :=
  let s := match s with
           | String.String c s' => if N.eqb (Ascii.N_of_ascii c) 43 then s' else s
           | String.EmptyString => s
           end in
  match s with String.EmptyString => None | _ => parse_digits 64 0 s end.

(** [env] is [std::env::var]. *)
Definition read_env_u64 (env : string -> option string) (name : string) (dflt : Z) : Z :=
  match env name with
  | Some v => match parse_u64 v with
              | Some n => if 0 <? n then n else dflt
              | None => dflt
              end
  | None => dflt
  end.
Definition dev_max_future_drift_secs (env : string -> option string) : Z :=
  read_env_u64 env "PULSEDAG_MAX_FUTURE_DRIFT_SECS"
    (Z.max (saturating_mul 64 DEV_TARGET_BLOCK_INTERVAL_SECS 2) DEV_MAX_FUTURE_DRIFT_SECS).

(** ** Targets as numbers *)

Lemma be_value_3 m :
  0 <= m < 2 ^ 24 ->
  be_value [byte_of_Z (Z.shiftr m 16); byte_of_Z (Z.shiftr m 8); byte_of_Z m] = m.
Proof.
  intros Hm. rewrite !be_value_cons, !Z_of_byte_of_Z, !Z.shiftr_div_pow2 by lia.
  change (2 ^ 16) with 65536. change (2 ^ 8) with 256. change (2 ^ 24) with 16777216 in Hm.
  change (be_value []) with 0. cbn [length].
  change (256 ^ Z.of_nat 2) with 65536. change (256 ^ Z.of_nat 1) with 256.
  change (256 ^ Z.of_nat 0) with 1. Z.to_euclidean_division_equations. lia.
Qed.

Definition compact_exponent (bits : Z) : Z := Z.land (Z.shiftr bits 24) 0xff.
Definition compact_mantissa (bits : Z) : Z := Z.land bits 0x007fffff.
(** The number a compact encoding stands for; exponents above 32 count as 32. *)
Definition compact_value (bits : Z) : Z :=
  let e := compact_exponent bits in
  let m := compact_mantissa bits in
  if e <=? 3 then m / 2 ^ (8 * (3 - e)) else m * 2 ^ (8 * (Z.min e 32 - 3)).

Lemma compact_mantissa_range bits : 0 <= compact_mantissa bits < 2 ^ 23.
Proof.
  unfold compact_mantissa. change 0x007fffff with (Z.ones 23). rewrite Z.land_ones by lia.
  apply Z.mod_pos_bound. lia.
Qed.
Lemma compact_exponent_range bits : 0 <= compact_exponent bits < 256.
Proof.
  unfold compact_exponent. change 0xff with (Z.ones 8). rewrite Z.land_ones by lia.
  apply Z.mod_pos_bound. lia.
Qed.

Lemma length_target_from_bits bits : length (target_from_bits bits) = 32%nat.
Proof.
  unfold target_from_bits. pose proof (compact_exponent_range bits) as He.
  unfold compact_exponent in He. case_match.
  { by rewrite length_app, length_be_bytes, length_replicate. }
  cbv zeta. repeat case_match; bool_props; try (by rewrite ?length_app, ?length_replicate).
  rewrite !length_app, !length_replicate. cbn [length]. unfold saturating_sub in *. lia.
Qed.

Lemma pow256 n : 0 <= n -> 256 ^ n = 2 ^ (8 * n).
Proof. intros Hn. rewrite Z.pow_mul_r by lia. done. Qed.

Lemma target_from_bits_compact bits :
  0 < Z.shiftr bits 24 < 256 -> be_value (target_from_bits bits) = compact_value bits.
Proof.
  intros Hb. unfold target_from_bits, compact_value.
  fold (compact_exponent bits) (compact_mantissa bits).
  pose proof (compact_mantissa_range bits) as Hm.
  assert (He : compact_exponent bits = Z.shiftr bits 24).
  { unfold compact_exponent. change 0xff with (Z.ones 8). rewrite Z.land_ones by lia.
    apply Z.mod_small. lia. }
  rewrite <- He in Hb. rewrite <- He.
  set (e := compact_exponent bits) in *. set (m := compact_mantissa bits) in *.
  destruct (Z.eqb_spec e 0); [lia|]. cbv zeta. cbn [orb].
  destruct (Z.eqb_spec m 0) as [->|Hm0].
  { rewrite be_value_zeros. case_match; [|lia]. symmetry. apply Z.div_0_l.
    apply Z.pow_nonzero; lia. }
  destruct (Z.leb_spec e 3) as [He3|He3].
  - rewrite be_value_app, be_value_zeros, be_value_3, ?Z.mul_0_l; rewrite Z.shiftr_div_pow2 by lia; [done|].
    assert (1 <= 2 ^ (8 * (3 - e))) by (apply (Z.pow_le_mono_r 2 0); lia).
    split; [apply Z.div_pos; lia|]. apply Z.div_lt_upper_bound; [lia|].
    change (2 ^ 24) with (2 * 2 ^ 23). nia.
  - unfold saturating_sub. destruct (Z.leb_spec 32 (Z.max (32 - e) 0)); [lia|].
    destruct (Z.ltb_spec 32 (Z.max (32 - e) 0 + 3)); [lia|]. cbn [orb].
    rewrite be_value_app, be_value_zeros, be_value_app, be_value_zeros, be_value_3 by lia.
    rewrite Z.mul_0_l, length_replicate, Z2Nat.id, pow256, Z.add_0_l, Z.add_0_r by lia.
    by replace (29 - Z.max (32 - e) 0) with (Z.min e 32 - 3) by lia.
Qed.

(** ** Compressing a target *)

Lemma lor_shift_add a b k : 0 <= a -> 0 <= k -> 0 <= b < 2 ^ k -> Z.lor (Z.shiftl a k) b = a * 2 ^ k + b.
Proof.
  intros Ha Hk Hb. rewrite <- Z.shiftl_mul_pow2 by lia.
  assert (Hland : Z.land (Z.shiftl a k) b = 0).
  { apply Z.bits_inj'. intros n Hn. rewrite Z.land_spec, Z.bits_0.
    destruct (Z.ltb_spec n k).
    - by rewrite Z.shiftl_spec_low by lia.
    - rewrite <- (Z.mod_small b (2 ^ k)) by lia. rewrite Z.mod_pow2_bits_high by lia.
      apply andb_false_r. }
  pose proof (Z.add_lor_land (Z.shiftl a k) b). lia.
Qed.

Lemma compact_of_parts e m :
  0 < e < 256 -> 0 <= m < 2 ^ 23 ->
  let bits := Z.lor (Z.shiftl e 24) (Z.land m 0x007fffff) in
  bits = e * 2 ^ 24 + m /\ Z.shiftr bits 24 = e /\
  compact_exponent bits = e /\ compact_mantissa bits = m.
Proof.
  intros He Hm bits. assert (Hb : bits = e * 2 ^ 24 + m).
  { unfold bits. change 0x007fffff with (Z.ones 23). rewrite Z.land_ones, Z.mod_small by lia.
    apply lor_shift_add; lia. }
  assert (Hs : Z.shiftr bits 24 = e).
  { rewrite Hb, Z.shiftr_div_pow2, Z.div_add_l, Z.div_small by lia. lia. }
  split; [done|]. split; [done|]. split.
  - unfold compact_exponent. rewrite Hs. change 0xff with (Z.ones 8).
    rewrite Z.land_ones, Z.mod_small by lia. done.
  - unfold compact_mantissa. rewrite Hb. change 0x007fffff with (Z.ones 23). rewrite Z.land_ones by lia.
    replace (e * 2 ^ 24 + m) with (m + (e * 2) * 2 ^ 23) by lia.
    rewrite Z_mod_plus_full. apply Z.mod_small. lia.
Qed.

(** The leading bytes of a target whose first [n] bytes are zero. *)
Lemma byte_at_range t i : 0 <= byte_at t i < 256.
Proof. unfold byte_at. case_match; [apply Z_of_byte_range|lia]. Qed.

Lemma byte_at_app t n i : byte_at (replicate n x00 ++ t) (n + i) = byte_at t i.
Proof.
  unfold byte_at. rewrite lookup_app_r; rewrite length_replicate; [|lia].
  by replace (n + i - n)%nat with i by lia.
Qed.

Lemma leading_zeros t n b :
  list_find (fun b => b <> x00) t = Some (n, b) ->
  exists rest, t = replicate n x00 ++ b :: rest /\ b <> x00.
Proof.
  intros (Hn & Hb & Hz)%list_find_Some. exists (drop (S n) t). split; [|done].
  rewrite <- (take_drop_middle t n b Hn) at 1. f_equal.
  apply list_eq. intros i. destruct (decide (i < n)%nat) as [Hi|Hi].
  - rewrite lookup_take_lt, lookup_replicate_2 by lia.
    apply lookup_lt_Some in Hn as Hlt. destruct (lookup_lt_is_Some_2 t i) as [y Hy]; [lia|].
    rewrite Hy. f_equal. destruct (decide (y = x00)); [done|]. exfalso. by eapply Hz.
  - rewrite lookup_take_ge by lia. symmetry. apply lookup_replicate_None. lia.
Qed.

Lemma Z_of_byte_pos b : b <> x00 -> 0 < Z_of_byte b.
Proof. by destruct b. Qed.

(** [a * 256^k <= be_value (first k bytes of t spelled out)]. *)
Lemma be_value_lead2 b0 rest :
  (1 <= length rest)%nat ->
  let p := 256 ^ (Z.of_nat (length rest) - 1) in
  exists low, 0 <= low < p /\
    be_value (b0 :: rest) = (Z_of_byte b0 * 256 + byte_at rest 0) * p + low.
Proof.
  intros Hl p. destruct rest as [|b1 rest]; simpl in Hl; [lia|].
  exists (be_value rest). rewrite !be_value_cons. cbn [length].
  assert (Hp : p = 256 ^ Z.of_nat (length rest)) by (unfold p; f_equal; cbn [length]; lia).
  rewrite Nat2Z.inj_succ, Z.pow_succ_r, <- Hp by lia.
  pose proof (be_value_range rest) as Hr. rewrite <- Hp in Hr. split; [done|].
  unfold byte_at. simpl. lia.
Qed.
Lemma be_value_lead3 b0 rest :
  (2 <= length rest)%nat ->
  let p := 256 ^ (Z.of_nat (length rest) - 2) in
  exists low, 0 <= low < p /\
    be_value (b0 :: rest) = (Z_of_byte b0 * 65536 + byte_at rest 0 * 256 + byte_at rest 1) * p + low.
Proof.
  intros Hl p. destruct rest as [|b1 [|b2 rest]]; simpl in Hl; try lia.
  exists (be_value rest). rewrite !be_value_cons. cbn [length].
  assert (Hp : p = 256 ^ Z.of_nat (length rest)) by (unfold p; f_equal; cbn [length]; lia).
  rewrite !Nat2Z.inj_succ, !Z.pow_succ_r, <- Hp by lia.
  pose proof (be_value_range rest) as Hr. rewrite <- Hp in Hr. split; [done|].
  unfold byte_at. simpl. lia.
Qed.

(** How the pair (exponent, mantissa) relates to a value: floor division by a
    power of 256, exact below three bytes. *)
Definition compact_parts (e m v : Z) : Prop :=
  0 < e <= 32 /\ 2 ^ 15 <= m < 2 ^ 23 /\
  if e <? 3 then m / 2 ^ (8 * (3 - e)) = v
  else exists low, 0 <= low < 2 ^ (8 * (e - 3)) /\ v = m * 2 ^ (8 * (e - 3)) + low.

Lemma compact_parts_high (n : nat) b0 rest :
  (n + S (length rest) = 32)%nat -> (1 <= n)%nat -> 127 < Z_of_byte b0 ->
  compact_parts (32 - Z.of_nat n + 1)
    (Z_of_byte b0 * 256 + (if decide (n + 1 < 32)%nat then byte_at rest 0 else 0))
    (be_value (b0 :: rest)).
Proof.
  intros Hlen Hn Hb. pose proof (Z_of_byte_range b0). pose proof (byte_at_range rest 0).
  split; [lia|]. split; [case_decide; lia|].
  case_decide.
  - destruct (be_value_lead2 b0 rest) as (low & Hlow & ->); [lia|].
    destruct (Z.ltb_spec (32 - Z.of_nat n + 1) 3); [lia|].
    rewrite pow256 in * by lia.
    replace (8 * (32 - Z.of_nat n + 1 - 3)) with (8 * (Z.of_nat (length rest) - 1)) by lia. eauto.
  - assert (rest = []) as -> by (destruct rest; simpl in *; [done|lia]).
    destruct (Z.ltb_spec (32 - Z.of_nat n + 1) 3); [|lia].
    replace (8 * (3 - (32 - Z.of_nat n + 1))) with 8 by (simpl in *; lia).
    rewrite be_value_cons. change (be_value []) with 0. cbn [length].
    change (256 ^ Z.of_nat 0) with 1. change (2 ^ 8) with 256. rewrite Z.add_0_r, Z.div_mul by lia. lia.
Qed.

Lemma compact_parts_low (n : nat) b0 rest :
  (n + S (length rest) = 32)%nat -> 0 < Z_of_byte b0 <= 127 ->
  compact_parts (32 - Z.of_nat n)
    (Z_of_byte b0 * 65536 + (if decide (n + 1 < 32)%nat then byte_at rest 0 * 256 else 0)
     + (if decide (n + 2 < 32)%nat then byte_at rest 1 else 0))
    (be_value (b0 :: rest)).
Proof.
  intros Hlen Hb. pose proof (byte_at_range rest 0). pose proof (byte_at_range rest 1).
  split; [lia|]. split; [repeat case_decide; lia|].
  destruct (decide (n + 2 < 32)%nat).
  - rewrite decide_True by lia. destruct (be_value_lead3 b0 rest) as (low & Hlow & ->); [lia|].
    destruct (Z.ltb_spec (32 - Z.of_nat n) 3); [lia|]. rewrite pow256 in * by lia.
    replace (8 * (32 - Z.of_nat n - 3)) with (8 * (Z.of_nat (length rest) - 2)) by lia. eauto.
  - destruct (Z.ltb_spec (32 - Z.of_nat n) 3); [|lia].
    destruct rest as [|b1 [|]]; simpl in Hlen; try lia; rewrite ?be_value_cons;
      change (be_value []) with 0; cbn [length]; change (256 ^ Z.of_nat 0) with 1;
      change (256 ^ Z.of_nat 1) with 256.
    + rewrite decide_False by lia. replace (8 * (3 - (32 - Z.of_nat n))) with 16 by lia.
      change (2 ^ 16) with 65536. rewrite !Z.add_0_r, Z.div_mul by lia. lia.
    + rewrite decide_True by lia. replace (8 * (3 - (32 - Z.of_nat n))) with 8 by lia.
      change (2 ^ 8) with 256. unfold byte_at. simpl lookup. rewrite Z.add_0_r.
      change (Z_of_byte b0 * 65536) with (Z_of_byte b0 * (256 * 256)).
      rewrite Z.mul_assoc, <- Z.mul_add_distr_r, Z.div_mul by lia. lia.
Qed.

Lemma bits_from_target_parts t :
  length t = 32%nat -> 0 < be_value t < 2 ^ 255 ->
  exists e m, bits_from_target t = Z.lor (Z.shiftl e 24) (Z.land m 0x007fffff) /\
    compact_parts e m (be_value t).
Proof.
  intros Hlen Hv. unfold bits_from_target.
  destruct (list_find (fun b => b <> x00) t) as [[n b]|] eqn:Hf.
  2: { apply list_find_None in Hf. exfalso.
       assert (Ht : t = replicate 32 x00).
       { rewrite <- Hlen. symmetry. apply replicate_as_Forall_2; [done|]. eapply Forall_impl; [exact Hf|].
         intros x Hx. destruct (decide (x = x00)) as [E|E]; [by rewrite E|by destruct (Hx E)]. }
       rewrite Ht, be_value_zeros in Hv. lia. }
  apply leading_zeros in Hf as (rest & -> & Hb). rewrite length_app, length_replicate in Hlen.
  cbn [length] in Hlen. rewrite be_value_app, be_value_zeros, Z.mul_0_l, Z.add_0_l in *.
  pose proof (Z_of_byte_pos b Hb). pose proof (Z_of_byte_range b).
  assert (Hb0 : byte_at (replicate n x00 ++ b :: rest) n = Z_of_byte b).
  { rewrite <- (Nat.add_0_r n) at 2. by rewrite byte_at_app. }
  rewrite Hb0, !byte_at_app. change (byte_at (b :: rest) 1) with (byte_at rest 0).
  change (byte_at (b :: rest) 2) with (byte_at rest 1). destruct (Z.ltb_spec 0x7f (Z_of_byte b)) as [Hhi|Hlo].
  - do 2 eexists. split; [reflexivity|]. rewrite lor_shift_add; [|lia|lia|].
    2: { case_decide; [apply byte_at_range|lia]. }
    apply compact_parts_high; [done| |done]. destruct n; [exfalso|lia].
    rewrite be_value_cons in Hv. pose proof (be_value_range rest).
    replace (length rest) with 31%nat in Hv by lia. change (256 ^ Z.of_nat 31) with (2 ^ 248) in Hv.
    change (2 ^ 255) with (128 * 2 ^ 248) in Hv. nia.
  - do 2 eexists. split; [reflexivity|].
    pose proof (byte_at_range rest 0). pose proof (byte_at_range rest 1).
    rewrite <- Z.lor_assoc, (lor_shift_add _ _ 16); [|lia|lia|].
    + replace (Z.lor (if decide (n + 1 < 32)%nat then Z.shiftl (byte_at rest 0) 8 else 0)
        (if decide (n + 2 < 32)%nat then byte_at rest 1 else 0))
        with ((if decide (n + 1 < 32)%nat then byte_at rest 0 * 256 else 0)
          + (if decide (n + 2 < 32)%nat then byte_at rest 1 else 0)).
      * rewrite Z.add_assoc. apply compact_parts_low; [done|lia].
      * destruct (decide (n + 1 < 32)%nat); [|rewrite decide_False by lia; done].
        rewrite lor_shift_add; [done|lia|lia|]. case_decide; lia.
    + destruct (decide (n + 1 < 32)%nat); [|rewrite decide_False by lia; rewrite Z.lor_0_l; lia].
      rewrite lor_shift_add; [|lia|lia|case_decide; lia].
      change (2 ^ 16) with 65536. change (2 ^ 8) with 256. case_decide; lia.
Qed.

Lemma compact_parts_value e m v :
  0 < v -> compact_parts e m v ->
  let bits := Z.lor (Z.shiftl e 24) (Z.land m 0x007fffff) in
  0 < Z.shiftr bits 24 < 256 /\ compact_value bits <= v /\
  (v - compact_value bits) * 2 ^ 15 < compact_value bits.
Proof.
  intros Hpos (He & Hm & Hv) bits. change (2 ^ 15) with 32768 in *.
  destruct (compact_of_parts e m) as (_ & Hs & Hce & Hcm); [lia|lia|]. fold bits in Hs, Hce, Hcm.
  split; [lia|]. unfold compact_value. rewrite Hce, Hcm. rewrite Z.min_l by lia.
  destruct (Z.ltb_spec e 3).
  - destruct (Z.leb_spec e 3); [|lia]. rewrite Hv. lia.
  - destruct Hv as (low & Hlow & ->). set (p := 2 ^ (8 * (e - 3))) in *.
    destruct (Z.leb_spec e 3).
    + assert (e = 3) as -> by lia. change (8 * (3 - 3)) with 0 in *. rewrite Z.div_1_r. 
      assert (p = 1) by done. nia.
    + fold p. nia.
Qed.

(** ** Header checks *)

Lemma encode_u16_prefixed_Some s : is_Some (encode_u16_prefixed s) <-> str_len s <= u16_max.
Proof.
  unfold encode_u16_prefixed, str_len.
  destruct (Z.leb_spec (Z.of_nat (length (str_bytes s))) u16_max).
  - split; [done|intros _; by eexists].
  - split; [by intros [? ?]|lia].
Qed.

Lemma encode_parents_u16_Some l :
  is_Some (encode_parents_u16 l) <->
  Z.of_nat (length l) <= u16_max /\ Forall (fun p => str_len p <= u16_max) l.
Proof.
  unfold encode_parents_u16. rewrite emit_is_Some, Forall_cons, Forall_map.
  setoid_rewrite encode_u16_prefixed_Some.
  destruct (Z.leb_spec (Z.of_nat (length l)) u16_max).
  - split; intros [_ Hall]; (split; [|exact Hall]); [done|by eexists].
  - split; [by intros [[? ?] _]|lia].
Qed.

Lemma preimage_encoding_ok h :
  validate_pow_preimage_encoding h = Ok tt <-> is_Some (canonical_mining_preimage_bytes h).
Proof.
  rewrite canonical_mining_preimage_bytes_alt, emit_is_Some, !Forall_cons.
  rewrite encode_parents_u16_Some, !encode_u16_prefixed_Some, isort_perm.
  assert (Hf : forall n x, is_Some (fixed n x)) by (by eexists).
  unfold validate_pow_preimage_encoding.
  assert (Hex : existsb (fun p => u16_max <? str_len p) (h_parents h) = false <->
    Forall (fun p => str_len p <= u16_max) (h_parents h)).
  { induction (h_parents h) as [|p l IH]; simpl; [naive_solver|].
    rewrite orb_false_iff, Forall_cons, IH, Z.ltb_ge. done. }
  destruct (Z.ltb_spec u16_max (Z.of_nat (length (h_parents h)))); [split; [done|naive_solver lia]|].
  destruct (existsb _ _); [split; [done|]; intros Hs; assert (true = false) by (apply Hex; apply Hs); done|].
  destruct (Z.ltb_spec u16_max (str_len (h_merkle_root h))); [split; [done|naive_solver lia]|].
  destruct (Z.ltb_spec u16_max (str_len (h_state_root h))); [split; [done|naive_solver lia]|].
  split; [|done]. intros _. split_and!; auto; by apply Hex.
Qed.

Lemma encoding_rejected h r :
  validate_pow_preimage_encoding h = Err r -> canonical_mining_preimage_bytes h = None.
Proof.
  intros Hr. apply eq_None_not_Some. rewrite <- preimage_encoding_ok. by rewrite Hr.
Qed.

Lemma preimage_ignores_nonce h n :
  canonical_mining_preimage_bytes (set_nonce h n) = canonical_mining_preimage_bytes h.
Proof. done. Qed.

Section pow_spec.
Context `{Crypto, Kaspa}.

Lemma length_kheavyhash b n : length (kheavyhash_digest b n) = 32%nat.
Proof. apply heavy_hash_length. Qed.

(** The work of a header is enough: its hash, as a number, is at most its target. *)
Definition meets_target (h : BlockHeader) : Prop :=
  exists pre, canonical_mining_preimage_bytes h = Some pre /\
    be_value (kheavyhash_digest pre (h_nonce h)) <= be_value (target_from_bits (h_difficulty h)).

Lemma evaluate_header_spec h :
  exists e, evaluate_header h = Some e /\ (pe_accepted e = true <-> meets_target h) /\
    (validate_pow_preimage_encoding h = Ok tt -> exists pre,
       canonical_mining_preimage_bytes h = Some pre /\ pe_hash e = kheavyhash_digest pre (h_nonce h) /\
       pe_hash_hex e = hex_encode (pe_hash e)).
Proof.
  unfold evaluate_header, to_bytes_checked, meets_target. pose proof (preimage_encoding_ok h) as Hok.
  destruct (validate_pow_preimage_encoding h) as [[]|r] eqn:Er.
  - destruct (proj1 Hok eq_refl) as [pre Hpre].
    change (pow_header_preimage h) with (set_nonce h 0). rewrite preimage_ignores_nonce, Hpre.
    eexists. split; [reflexivity|]. split; [|intros _; by exists pre]. simpl.
    unfold compare_pow_hash_to_target.
    rewrite bytes_le_value by (by rewrite length_kheavyhash, length_target_from_bits).
    rewrite Z.leb_le. naive_solver.
  - eexists. split; [reflexivity|]. split; [|done]. simpl. split; [done|].
    intros (pre & Hpre & _). apply encoding_rejected in Er. congruence.
Qed.

Lemma validate_pow_header_cases h :
  exists r, validate_pow_header h = Some r /\ (r = Ok tt <-> meets_target h).
Proof.
  unfold validate_pow_header, pow_validation_result, pow_evaluate.
  pose proof (preimage_encoding_ok h) as Hok.
  destruct (evaluate_header_spec h) as (e & He & Hacc & _). rewrite He.
  destruct (validate_pow_preimage_encoding h) as [[]|r] eqn:Er; eexists; (split; [reflexivity|]); simpl.
  - destruct (pe_accepted e); simpl; rewrite <- Hacc; naive_solver.
  - split; [done|]. intros (pre & Hpre & _). apply encoding_rejected in Er. congruence.
Qed.
End pow_spec.

Lemma mine_loop_spec `{Crypto, Kaspa} h i left :
  exists r, mine_loop h i left = Some r /\
  match r with
  | (h', Some (used, _)) =>
      i <= used - 1 < i + Z.of_nat left /\ h' = set_nonce h (used - 1) /\ meets_target h' /\
      forall n, i <= n < used - 1 -> ~ meets_target (set_nonce h n)
  | (h', None) => forall n, i <= n < i + Z.of_nat left -> ~ meets_target (set_nonce h n)
  end.
Proof.
  revert h i. induction left as [|left IH]; intros h i; simpl.
  { eexists. split; [reflexivity|]. intros n Hn. lia. }
  unfold pow_evaluate. destruct (evaluate_header_spec (set_nonce h i)) as (e & He & Hacc & _).
  rewrite He. destruct (pe_accepted e) eqn:Ha.
  - eexists. split; [reflexivity|]. cbv beta iota. rewrite Z.add_simpl_r. split; [lia|].
    split; [done|]. split; [by apply Hacc|]. intros n Hn. lia.
  - destruct (IH (set_nonce h i) (i + 1)) as (r & Hr & Hspec). exists r. split; [done|].
    assert (Hi : ~ meets_target (set_nonce h i)) by (intros Hm; apply Hacc in Hm; congruence).
    assert (Hset : forall n, set_nonce (set_nonce h i) n = set_nonce h n) by done.
    destruct r as [h' [[used hex]|]]; simpl in Hspec.
    + destruct Hspec as (Hu & Hh & Hm & Hno). split; [lia|]. split; [done|]. split; [done|].
      intros n Hn. destruct (decide (n = i)) as [->|]; [done|]. rewrite <- Hset. apply Hno. lia.
    + intros n Hn. destruct (decide (n = i)) as [->|]; [done|]. rewrite <- Hset. apply Hspec. lia.
Qed.

(** [validate_pow_header] never panics and accepts a header exactly when its
    preimage is encodable and its kHeavyHash, read as a 256-bit number, does not
    exceed the target its compact difficulty stands for; [verify_work], which
    goes through the hexadecimal rendering of the hash, agrees with it. *)
Lemma validate_pow_header_spec `{CryptoLaws, Kaspa} h :
  exists r, validate_pow_header h = Some r /\
    (r = Ok tt <-> meets_target h) /\
    verify_work h = Some (is_ok r).
Proof.
  destruct (validate_pow_header_cases h) as (r & Hr & Hiff). exists r. split; [done|]. split; [done|].
  assert (Hb : is_ok r = true <-> meets_target h) by (rewrite <- Hiff; destruct r as [[]|]; naive_solver).
  unfold verify_work, pow_hash. destruct (evaluate_header_spec h) as (e & He & _ & Henc). rewrite He.
  pose proof (preimage_encoding_ok h) as Hok.
  destruct (validate_pow_preimage_encoding h) as [[]|reason] eqn:Er.
  - destruct (Henc eq_refl) as (pre & Hpre & Hhash & Hhex).
    rewrite Hhex, hex_decode_encode, Hhash, decide_True by apply length_kheavyhash.
    f_equal. unfold compare_pow_hash_to_target.
    rewrite bytes_le_value by (by rewrite length_kheavyhash, length_target_from_bits).
    apply eq_true_iff_eq. rewrite Hb, Z.leb_le. unfold meets_target. naive_solver.
  - f_equal. symmetry. apply not_true_iff_false. rewrite Hb. intros (pre & Hpre & _).
    apply encoding_rejected in Er. congruence.
Qed.

(** [mine_header] tries the nonces 0, 1, ... in order and returns the first
    that meets the target, with the number of tries; it reports failure only
    when none of the [max(max_tries, 1)] nonces does. *)
Lemma mine_header_spec `{Crypto, Kaspa} h max_tries :
  exists h' found used hex, mine_header h max_tries = Some (h', found, used, hex) /\
    if found
    then 0 <= used - 1 < Z.max max_tries 1 /\ h' = set_nonce h (used - 1) /\ meets_target h' /\
         forall n, 0 <= n < used - 1 -> ~ meets_target (set_nonce h n)
    else used = Z.max max_tries 1 /\
         forall n, 0 <= n < Z.max max_tries 1 -> ~ meets_target (set_nonce h n).
Proof.
  unfold mine_header. destruct (mine_loop_spec h 0 (Z.to_nat (Z.max max_tries 1))) as (r & Hr & Hspec).
  rewrite Hr. rewrite Z2Nat.id in Hspec by lia. destruct r as [h' [[used hex]|]].
  - do 4 eexists. split; [reflexivity|]. done.
  - unfold pow_evaluate. destruct (evaluate_header_spec h') as (e & He & _). rewrite He.
    do 4 eexists. split; [reflexivity|]. split; [done|]. done.
Qed.

(** Compressing a 256-bit target to compact bits and expanding it again
    rounds down, and loses less than one part in 2^15 of the result. *)
Lemma bits_from_target_rounds_down t :
  length t = 32%nat -> 0 < be_value t < 2 ^ 255 ->
  let t' := target_from_bits (bits_from_target t) in
  be_value t' <= be_value t /\ (be_value t - be_value t') * 2 ^ 15 < be_value t'.
Proof.
  intros Hlen Hv t'. destruct (bits_from_target_parts t Hlen Hv) as (e & m & Hbits & Hparts).
  destruct (compact_parts_value e m (be_value t)) as (Hr & Hle & Hlt); [lia|done|].
  unfold t'. rewrite Hbits. by rewrite target_from_bits_compact.
Qed.

(** ** Witnesses *)

Definition model_kaspa : Kaspa.
Proof.
  refine {| keccak256 := model_digest; pow_finalize := fun h n => h ++ le_bytes 8 n;
            matrix_heavy_hash := fun h x => be_bytes 32 (le_value (model_digest (h ++ x)) * 2 ^ 190) |}.
  intros. apply length_be_bytes.
Defined.

Lemma validate_pow_header_spec_witness :
  exists r, @validate_pow_header model_crypto model_kaspa (mkBlockHeader 1 ["a"] 1 0x207fffff 0 "m" "s" 1 1) = Some r.
Proof.
  destruct (@validate_pow_header_spec model_crypto model_crypto_laws model_kaspa
    (mkBlockHeader 1 ["a"] 1 0x207fffff 0 "m" "s" 1 1)) as (r & Hr & _).
  exists r. exact Hr.
Defined.

Lemma bits_from_target_rounds_down_witness :
  let t := be_bytes 32 (2 ^ 200 + 12345) in
  bits_from_target t = 0x1a010000 /\
  be_value (target_from_bits (bits_from_target t)) <= be_value t.
Proof.
  intros t. split; [by_compute|].
  apply (bits_from_target_rounds_down t); [by_compute|]. vm_compute. split; reflexivity.
Defined.
