(* ===== verification/Selection.v ===== *)
(** * Tip selection and the selected chain ([selection.rs])

    The two deterministic tip orderings, the selected parent of a block, and
    the selected chain rebuilt by following [selected_parents] back from the
    preferred tip. *)

From S2P Require Import Prelude Types State.

Definition compare_tip_blocks (a b : Block) : comparison :=
  then_with (h_height (b_header a) ?= h_height (b_header b))
  (then_with (h_blue_score (b_header a) ?= h_blue_score (b_header b))
  (then_with (h_timestamp (b_header a) ?= h_timestamp (b_header b))
             (String.compare (b_hash a) (b_hash b)))).

Definition compare_selected_parent_candidates (a b : Block) : comparison :=
  then_with (h_blue_score (b_header a) ?= h_blue_score (b_header b))
  (then_with (h_height (b_header a) ?= h_height (b_header b))
             (String.compare (b_hash b) (b_hash a))).

(** [hashes.filter_map(|hash| blocks.get(hash).map(|block| (hash, block)))]. *)
Definition with_blocks (state : ChainState) (hashes : list Hash) : list (Hash * Block) :=
  omap (fun h => match d_blocks (cs_dag state) !! h with Some b => Some (h, b) | None => None end)
       hashes.

Section selection.
Context `{HashOrder}.

Definition sorted_tip_hashes_with_policy (state : ChainState) (policy : SelectedParentPolicy)
  : list Hash :=
  let tips := with_blocks state (set_iter (d_tips (cs_dag state))) in
  let compare := match policy with
    | LegacyTip => fun p q : Hash * Block => compare_tip_blocks q.2 p.2
    | GhostdagInspired => fun p q => compare_selected_parent_candidates q.2 p.2
    end in
  map fst (isort (cmp_le compare) tips).

Definition sorted_tip_hashes (state : ChainState) : list Hash :=
  sorted_tip_hashes_with_policy state (d_selected_parent_policy (cs_dag state)).
Definition sorted_legacy_tip_hashes (state : ChainState) : list Hash :=
  sorted_tip_hashes_with_policy state LegacyTip.
Definition preferred_tip_hash (state : ChainState) : option Hash :=
  head (sorted_tip_hashes state).
Definition legacy_preferred_tip_hash (state : ChainState) : option Hash :=
  head (sorted_legacy_tip_hashes state).
End selection.

Definition calculate_selected_parent (block : Block) (state : ChainState) : option Hash :=
  match max_by (fun p q : Hash * Block => compare_selected_parent_candidates p.2 q.2)
               (with_blocks state (h_parents (b_header block))) with
  | Some (hash, _) => Some hash
  | None => None
  end.

(** [selected_parents.get(&hash).cloned().flatten()]. *)
Definition selected_parent_of (state : ChainState) (hash : Hash) : option Hash :=
  match d_selected_parents (cs_dag state) !! hash with Some p => p | None => None end.

(** The loop of [rebuild_selected_chain_from_tip]; [None] is running out of
    fuel. *)
Fixpoint chain_loop (state : ChainState) (fuel : nat) (cursor : option Hash)
    (visited : gset Hash) (chain : list Hash) : option (list Hash) :=
  match fuel with
  | O => None
  | S fuel' =>
      match cursor with
      | None => Some chain
      | Some hash =>
          if bool_decide (d_blocks (cs_dag state) !! hash = None) || bool_decide (hash ∈ visited)
          then Some chain
          else chain_loop state fuel' (selected_parent_of state hash)
                 ({[hash]} ∪ visited) (chain ++ [hash])
      end
  end.
(** One iteration per block, and one to leave the loop. *)
Definition chain_fuel (state : ChainState) : nat := S (S (size (d_blocks (cs_dag state)))).
Definition rebuild_selected_chain_from_tip (state : ChainState) (tip : option Hash) : list Hash :=
  reverse (default [] (chain_loop state (chain_fuel state) tip ∅ [])).

Definition refresh_selected_chain `{HashOrder} (state : ChainState) : ChainState :=
  let tip := preferred_tip_hash state in
  state <| cs_dag ::= fun dag =>
    dag <| d_selected_chain := rebuild_selected_chain_from_tip state tip |> |>.

(** ** Determinism *)

(** Blocks are stored under their own hash. *)
Definition keyed_blocks (state : ChainState) : Prop :=
  map_Forall (fun h b => b_hash b = h) (d_blocks (cs_dag state)).

#[global] Instance compare_tip_blocks_pre : CmpPre compare_tip_blocks.
Proof. unfold compare_tip_blocks. solve_cmp_pre. Qed.
#[global] Instance compare_selected_parent_candidates_pre :
  CmpPre compare_selected_parent_candidates.
Proof. unfold compare_selected_parent_candidates. solve_cmp_pre. Qed.

Lemma compare_tip_blocks_Eq a b : compare_tip_blocks a b = Eq -> b_hash a = b_hash b.
Proof.
  unfold compare_tip_blocks. rewrite !then_with_Eq. intros (_ & _ & _ & Heq).
  by apply (cmp_eq (cmp:=String.compare)).
Qed.
Lemma compare_selected_parent_candidates_Eq a b :
  compare_selected_parent_candidates a b = Eq -> b_hash a = b_hash b.
Proof.
  unfold compare_selected_parent_candidates. rewrite !then_with_Eq. intros (_ & _ & Heq).
  symmetry. by apply (cmp_eq (cmp:=String.compare)).
Qed.

Lemma elem_of_with_blocks state l h b :
  (h, b) ∈ with_blocks state l <-> h ∈ l /\ d_blocks (cs_dag state) !! h = Some b.
Proof.
  unfold with_blocks. rewrite list_elem_of_omap. split.
  - intros (h' & Hin & Heq). destruct (d_blocks (cs_dag state) !! h') eqn:E; naive_solver.
  - intros [Hin Hb]. exists h. by rewrite Hb.
Qed.
#[global] Instance with_blocks_perm state : Proper ((≡ₚ) ==> (≡ₚ)) (with_blocks state).
Proof. intros l1 l2 Hl. unfold with_blocks. by rewrite Hl. Qed.

(** Two stored blocks with the same hash are the same entry. *)
Lemma with_blocks_hash_inj state l p q :
  keyed_blocks state -> p ∈ with_blocks state l -> q ∈ with_blocks state l ->
  b_hash p.2 = b_hash q.2 -> p = q.
Proof.
  destruct p as [h1 b1], q as [h2 b2]. intros Hk H1 H2 Heq. simpl in Heq.
  apply elem_of_with_blocks in H1 as [_ H1]. apply elem_of_with_blocks in H2 as [_ H2].
  assert (E1 : b_hash b1 = h1) by (by apply Hk). assert (E2 : b_hash b2 = h2) by (by apply Hk).
  assert (h1 = h2) by congruence. subst h2. congruence.
Qed.

(** Sorting stored blocks, best first, forgets the order they come in. *)
#[global] Instance best_first_pre (cmp : Block -> Block -> comparison) `{!CmpPre cmp} :
  CmpPre (fun p q : Hash * Block => cmp q.2 p.2).
Proof.
  notypeclasses refine (cmp_pre_flip (fun p q : Hash * Block => cmp p.2 q.2)).
  by apply (cmp_pre_comap snd).
Qed.
#[global] Instance on_block_pre (cmp : Block -> Block -> comparison) `{!CmpPre cmp} :
  CmpPre (fun p q : Hash * Block => cmp p.2 q.2).
Proof. by apply (cmp_pre_comap snd). Qed.
Lemma best_first_perm (cmp : Block -> Block -> comparison) `{!CmpPre cmp} state l1 l2 :
  (forall a b, cmp a b = Eq -> b_hash a = b_hash b) -> keyed_blocks state -> l1 ≡ₚ l2 ->
  isort (cmp_le (fun p q : Hash * Block => cmp q.2 p.2)) (with_blocks state l1) =
  isort (cmp_le (fun p q : Hash * Block => cmp q.2 p.2)) (with_blocks state l2).
Proof.
  intros Hinj Hk Hp. apply isort_perm_on; [apply _..| |by rewrite Hp]. intros p q H1 H2 L1 L2.
  eapply with_blocks_hash_inj; [done|exact H1|exact H2|].
  symmetry. apply Hinj. by apply (cmp_le_anti (fun p q : Hash * Block => cmp q.2 p.2)).
Qed.

Lemma sorted_tips_order_independent (o1 o2 : HashOrder) state policy :
  keyed_blocks state ->
  @sorted_tip_hashes_with_policy o1 state policy = @sorted_tip_hashes_with_policy o2 state policy.
Proof.
  intros Hk. unfold sorted_tip_hashes_with_policy. f_equal. destruct policy.
  - apply (best_first_perm compare_selected_parent_candidates); [|done|by rewrite !set_iter_perm].
    apply compare_selected_parent_candidates_Eq.
  - apply (best_first_perm compare_tip_blocks); [|done|by rewrite !set_iter_perm].
    apply compare_tip_blocks_Eq.
Qed.

Lemma elem_of_sorted_tips `{HashOrder} state policy h :
  h ∈ sorted_tip_hashes_with_policy state policy <->
  h ∈ d_tips (cs_dag state) /\ is_Some (d_blocks (cs_dag state) !! h).
Proof.
  unfold sorted_tip_hashes_with_policy. rewrite list_elem_of_fmap. setoid_rewrite isort_elem_of.
  split.
  - intros ([h' b] & -> & Hin%elem_of_with_blocks). rewrite elem_of_set_iter in Hin. naive_solver.
  - intros [Hin [b Hb]]. exists (h, b). split; [done|]. apply elem_of_with_blocks.
    by rewrite elem_of_set_iter.
Qed.

Lemma best_first_head (cmp : Block -> Block -> comparison) `{!CmpPre cmp} state l h :
  head (map fst (isort (cmp_le (fun p q : Hash * Block => cmp q.2 p.2)) (with_blocks state l))) = Some h ->
  exists b, h ∈ l /\ d_blocks (cs_dag state) !! h = Some b /\
  forall h' b', h' ∈ l -> d_blocks (cs_dag state) !! h' = Some b' -> cmp b' b <> Gt.
Proof.
  pose proof (isort_ssorted (cmp_le (fun p q : Hash * Block => cmp q.2 p.2)) (with_blocks state l)) as Hs.
  pose proof (fun p => isort_elem_of (cmp_le (fun p q : Hash * Block => cmp q.2 p.2)) p (with_blocks state l)) as Hin.
  destruct (isort _ _) as [|[h0 b] tl]; [done|]. intros Hh. injection Hh as ->.
  assert (Hb : (h, b) ∈ with_blocks state l) by (apply Hin; left).
  apply elem_of_with_blocks in Hb as [Hb1 Hb2]. exists b. split; [done|]. split; [done|].
  intros h' b' Ht Hb'. change (cmp_le cmp b' b).
  assert (Hp : (h', b') ∈ (h, b) :: tl) by (by apply Hin, elem_of_with_blocks).
  apply StronglySorted_inv in Hs as [_ Hall]. rewrite Forall_forall in Hall.
  apply elem_of_cons in Hp as [[= -> ->]|Hp]; [reflexivity|]. exact (Hall _ Hp).
Qed.

(** The preferred tip is the best stored tip. *)
Lemma preferred_tip_best `{HashOrder} state h :
  preferred_tip_hash state = Some h ->
  exists b, h ∈ d_tips (cs_dag state) /\ d_blocks (cs_dag state) !! h = Some b /\
  forall h' b', h' ∈ d_tips (cs_dag state) -> d_blocks (cs_dag state) !! h' = Some b' ->
    match d_selected_parent_policy (cs_dag state) with
    | LegacyTip => compare_tip_blocks b' b
    | GhostdagInspired => compare_selected_parent_candidates b' b
    end <> Gt.
Proof.
  unfold preferred_tip_hash, sorted_tip_hashes, sorted_tip_hashes_with_policy. intros Hh.
  destruct (d_selected_parent_policy _); apply (best_first_head _ state) in Hh as (b & Hin & Hb & Hall);
    exists b; rewrite elem_of_set_iter in Hin; (split; [done|]); (split; [done|]);
    intros h' b' Ht; apply (Hall h'); by rewrite elem_of_set_iter.
Qed.

Lemma calculate_selected_parent_Some block state h :
  calculate_selected_parent block state = Some h ->
  exists b, h ∈ h_parents (b_header block) /\ d_blocks (cs_dag state) !! h = Some b /\
  forall h' b', h' ∈ h_parents (b_header block) -> d_blocks (cs_dag state) !! h' = Some b' ->
    cmp_le compare_selected_parent_candidates b' b.
Proof.
  unfold calculate_selected_parent. destruct (max_by _ _) as [[h0 b]|] eqn:E; [|done].
  intros [= ->].
  apply max_by_spec in E as [Hin Hall]; [|apply _].
  apply elem_of_with_blocks in Hin as [Hin Hb]. exists b. split; [done|]. split; [done|].
  intros h' b' Hin' Hb'. rewrite Forall_forall in Hall. apply (Hall (h', b')).
  by apply elem_of_with_blocks.
Qed.

(** ** The selected chain *)

(** Tip first: each hash is stored and is followed by its selected parent. *)
Record back_path (state : ChainState) (l : list Hash) : Prop := {
  bp_nodup : NoDup l;
  bp_stored : forall h, h ∈ l -> is_Some (d_blocks (cs_dag state) !! h);
  bp_linked : forall i a b, l !! i = Some a -> l !! S i = Some b ->
    selected_parent_of state a = Some b;
}.
(** Where the walk stops: no parent, a parent that is not stored, or a cycle. *)
Definition path_end (state : ChainState) (l : list Hash) (cursor : option Hash) : Prop :=
  match cursor with
  | None => True
  | Some p => d_blocks (cs_dag state) !! p = None \/ p ∈ l
  end.

Lemma back_path_snoc state l x :
  back_path state l -> x ∉ l -> is_Some (d_blocks (cs_dag state) !! x) ->
  (forall y, last l = Some y -> selected_parent_of state y = Some x) ->
  back_path state (l ++ [x]).
Proof.
  intros [Hnd Hst Hl] Hx Hsx Hlast. split.
  - apply NoDup_app. split; [done|]. split; [|apply NoDup_singleton]. set_solver.
  - intros h [?| ->%list_elem_of_singleton]%elem_of_app; auto.
  - intros i a b Ha Hb. destruct (decide (S i < length l)%nat) as [Hi|Hi].
    + rewrite lookup_app_l in Ha, Hb by lia. eauto.
    + rewrite lookup_app_r in Hb by lia.
      destruct (S i - length l)%nat as [|n] eqn:E; [|by destruct n].
      simpl in Hb. simplify_eq. rewrite lookup_app_l in Ha by lia. apply Hlast.
      rewrite last_lookup. replace (pred (length l)) with i by lia. done.
Qed.

Lemma back_path_length state l :
  back_path state l -> (length l <= size (d_blocks (cs_dag state)))%nat.
Proof.
  intros [Hnd Hst _]. rewrite <- size_dom, <- (size_list_to_set (C:=gset Hash) l Hnd).
  apply subseteq_size. intros h. rewrite elem_of_list_to_set, elem_of_dom. auto.
Qed.

Lemma chain_loop_spec state fuel cursor chain :
  back_path state chain ->
  (forall y, last chain = Some y -> selected_parent_of state y = cursor) ->
  (size (d_blocks (cs_dag state)) - length chain + 1 < fuel)%nat ->
  exists suffix cursor',
    chain_loop state fuel cursor (list_to_set chain) chain = Some (chain ++ suffix) /\
    back_path state (chain ++ suffix) /\ path_end state (chain ++ suffix) cursor' /\
    (forall y, last (chain ++ suffix) = Some y -> selected_parent_of state y = cursor') /\
    (forall h, cursor = Some h -> is_Some (d_blocks (cs_dag state) !! h) -> h ∉ chain ->
       head suffix = Some h) /\
    (forall h, cursor = Some h -> d_blocks (cs_dag state) !! h = None -> suffix = []) /\
    (cursor = None -> suffix = []).
Proof.
  revert cursor chain. induction fuel as [|fuel IH]; intros cursor chain Hbp Hlast Hfuel; [lia|].
  simpl. destruct cursor as [h|].
  2: { exists [], None. rewrite app_nil_r. repeat split; try done; by apply Hbp. }
  destruct (bool_decide (d_blocks (cs_dag state) !! h = None) || _) eqn:Hstop.
  { exists [], (Some h). rewrite app_nil_r. split; [done|]. split; [done|].
    apply orb_true_iff in Hstop as [Hn%bool_decide_eq_true|Hv%bool_decide_eq_true].
    - split; [by left|]. split; [done|]. split; [|done]. intros h' [= <-] [? ?]. congruence.
    - rewrite elem_of_list_to_set in Hv. split; [by right|]. split; [done|]. split; [|done].
      intros h' [= <-]. done. }
  apply orb_false_iff in Hstop as [Hn%bool_decide_eq_false Hv%bool_decide_eq_false].
  rewrite elem_of_list_to_set in Hv. apply not_eq_None_Some in Hn.
  assert (Hbp' : back_path state (chain ++ [h])) by (by apply back_path_snoc).
  pose proof (back_path_length _ _ Hbp') as Hlen. rewrite length_app in Hlen. simpl in Hlen.
  destruct (IH (selected_parent_of state h) (chain ++ [h])) as (suf & c' & Hrun & H1 & H2 & H3 & _).
  { done. }
  { intros y. rewrite last_snoc. by intros [= ->]. }
  { rewrite length_app. simpl. lia. }
  exists (h :: suf), c'. rewrite <- app_assoc in *. simpl in *.
  replace ({[h]} ∪ list_to_set chain) with (list_to_set (chain ++ [h]) : gset Hash) by set_solver.
  split; [done|]. split; [done|]. split; [done|]. split; [done|]. split; [|split].
  - by intros h' [= <-].
  - intros h' [= <-] Hno. destruct Hn. congruence.
  - done.
Qed.

(** The specification of a selected chain ending in [tip], genesis side first. *)
Record selected_chain_from (state : ChainState) (tip : Hash) (c : list Hash) : Prop := {
  sc_tip : last c = Some tip;
  sc_nodup : NoDup c;
  sc_stored : forall h, h ∈ c -> is_Some (d_blocks (cs_dag state) !! h);
  sc_linked : forall i a b, c !! i = Some a -> c !! S i = Some b ->
    selected_parent_of state b = Some a;
  sc_start : forall h, head c = Some h -> path_end state c (selected_parent_of state h);
}.

Lemma rebuild_selected_chain_ok state tip :
  is_Some (d_blocks (cs_dag state) !! tip) ->
  selected_chain_from state tip (rebuild_selected_chain_from_tip state (Some tip)).
Proof.
  intros Htip. unfold rebuild_selected_chain_from_tip, chain_fuel.
  destruct (chain_loop_spec state (S (S (size (d_blocks (cs_dag state))))) (Some tip) [])
    as (c & c' & Hrun & [Hnd Hst Hl] & Hend & Hlast & Hhd & _).
  { split; [constructor|set_solver|]. intros ? ? ? [=]. }
  { done. }
  { simpl. lia. }
  simpl in *. change (list_to_set []) with (∅ : gset Hash) in Hrun. rewrite Hrun. simpl.
  split.
  - rewrite last_reverse. apply Hhd; [done|done|set_solver].
  - by rewrite reverse_Permutation.
  - intros h. rewrite reverse_Permutation. auto.
  - intros i a b [Ha Hi]%reverse_lookup_Some [Hb Hi']%reverse_lookup_Some.
    apply (Hl (length c - S (S i))%nat); [done|]. replace (S (length c - S (S i)))%nat
      with (length c - S i)%nat by lia. done.
  - intros h. rewrite head_reverse. intros Hh. specialize (Hlast h Hh). rewrite Hlast.
    destruct c'; simpl in *; [|done]. by rewrite reverse_Permutation.
Qed.

Lemma preferred_tip_exists `{HashOrder} state tip :
  tip ∈ d_tips (cs_dag state) -> is_Some (d_blocks (cs_dag state) !! tip) ->
  is_Some (preferred_tip_hash state).
Proof.
  intros Ht Hb. unfold preferred_tip_hash, sorted_tip_hashes.
  pose proof (proj2 (elem_of_sorted_tips state (d_selected_parent_policy (cs_dag state)) tip)
    (conj Ht Hb)) as Hin.
  destruct (sorted_tip_hashes_with_policy _ _); [by apply not_elem_of_nil in Hin|by eexists].
Qed.

Lemma calculate_selected_parent_perm b1 b2 state :
  keyed_blocks state -> h_parents (b_header b1) ≡ₚ h_parents (b_header b2) ->
  calculate_selected_parent b1 state = calculate_selected_parent b2 state.
Proof.
  intros Hk Hp. unfold calculate_selected_parent.
  rewrite (max_by_perm _ _ (with_blocks state (h_parents (b_header b2)))); [done| |by rewrite Hp].
  intros p q H1 H2 Heq. eapply with_blocks_hash_inj; [done|exact H1|exact H2|].
  by apply compare_selected_parent_candidates_Eq.
Qed.

Lemma calculate_selected_parent_None block state :
  calculate_selected_parent block state = None <->
  forall h, h ∈ h_parents (b_header block) -> d_blocks (cs_dag state) !! h = None.
Proof.
  unfold calculate_selected_parent. split.
  - intros Hm h Hh. destruct (d_blocks (cs_dag state) !! h) as [b|] eqn:E; [|done].
    assert (Hin : (h, b) ∈ with_blocks state (h_parents (b_header block)))
      by (by apply elem_of_with_blocks).
    destruct (with_blocks _ _); [by apply not_elem_of_nil in Hin|]. simpl in Hm. by case_match.
  - intros Hn. destruct (with_blocks state _) as [|[h b] l] eqn:E; [done|].
    assert (Hin : (h, b) ∈ with_blocks state (h_parents (b_header block))) by (rewrite E; left).
    apply elem_of_with_blocks in Hin as [Hin Hb]. by rewrite (Hn h Hin) in Hb.
Qed.

(** The selected parent of a block is the parent that is best (by blue
    score, then height, then smallest hash) among its stored parents; there is
    none exactly when no parent is stored; and the order in which the header
    lists the parents does not matter. *)
Lemma calculate_selected_parent_spec block state :
  keyed_blocks state ->
  (forall block', h_parents (b_header block') ≡ₚ h_parents (b_header block) ->
     calculate_selected_parent block' state = calculate_selected_parent block state) /\
  match calculate_selected_parent block state with
  | Some h => exists b, h ∈ h_parents (b_header block) /\ d_blocks (cs_dag state) !! h = Some b /\
      forall h' b', h' ∈ h_parents (b_header block) -> d_blocks (cs_dag state) !! h' = Some b' ->
        compare_selected_parent_candidates b' b <> Gt
  | None => forall h, h ∈ h_parents (b_header block) -> d_blocks (cs_dag state) !! h = None
  end.
Proof.
  intros Hk. split; [intros; by apply calculate_selected_parent_perm|].
  destruct (calculate_selected_parent block state) as [h|] eqn:E.
  - by apply calculate_selected_parent_Some.
  - by apply calculate_selected_parent_None.
Qed.

(** [refresh_selected_chain] installs the chain of selected parents that
    ends in the best stored tip: the walk terminates, never repeats a block,
    only contains stored blocks, and links each block to its selected parent;
    the result does not depend on the iteration order of the tip set. *)
Lemma refresh_selected_chain_spec (o1 o2 : HashOrder) state tip :
  keyed_blocks state -> tip ∈ d_tips (cs_dag state) ->
  is_Some (d_blocks (cs_dag state) !! tip) ->
  @refresh_selected_chain o1 state = @refresh_selected_chain o2 state /\
  exists best b, @preferred_tip_hash o1 state = Some best /\
    d_blocks (cs_dag state) !! best = Some b /\
    (forall h' b', h' ∈ d_tips (cs_dag state) -> d_blocks (cs_dag state) !! h' = Some b' ->
       match d_selected_parent_policy (cs_dag state) with
       | LegacyTip => compare_tip_blocks b' b
       | GhostdagInspired => compare_selected_parent_candidates b' b
       end <> Gt) /\
    selected_chain_from state best (d_selected_chain (cs_dag (@refresh_selected_chain o1 state))).
Proof.
  intros Hk Ht Hb. split.
  - unfold refresh_selected_chain, preferred_tip_hash, sorted_tip_hashes.
    by rewrite (sorted_tips_order_independent o1 o2).
  - destruct (@preferred_tip_exists o1 state tip Ht Hb) as [best Hbest].
    destruct (@preferred_tip_best o1 state best Hbest) as (b & _ & Hsb & Hmax).
    exists best, b. split; [done|]. split; [done|]. split; [done|].
    unfold refresh_selected_chain. rewrite Hbest. simpl. apply rebuild_selected_chain_ok. by exists b.
Qed.

(** ** Witnesses *)

Definition sample_header (parents : list Hash) (height blue_score : Z) : BlockHeader :=
  mkBlockHeader 1 parents (100 + height) 1 0 "" "" blue_score height.
Definition sample_block (hash : Hash) (parents : list Hash) (height blue_score : Z) : Block :=
  mkBlock hash (sample_header parents height blue_score) [].
(** Genesis [g], two children [a] and [b], and a block [c] merging them. *)
Definition diamond : ChainState :=
  blank_state <| cs_dag := blank_dag
    <| d_blocks := {[ "g" := sample_block "g" [] 0 0; "a" := sample_block "a" ["g"] 1 1;
                      "b" := sample_block "b" ["g"] 1 1; "c" := sample_block "c" ["a"; "b"] 2 3 ]} |>
    <| d_tips := {[ "c" ]} |>
    <| d_selected_parents := {[ "g" := None; "a" := Some "g"; "b" := Some "g"; "c" := Some "a" ]} |> |>.

Lemma diamond_keyed : keyed_blocks diamond.
Proof. unfold keyed_blocks. by_decide. Qed.

Lemma calculate_selected_parent_spec_witness :
  calculate_selected_parent (sample_block "d" ["b"; "a"; "zz"] 2 3) diamond = Some "a" /\
  calculate_selected_parent (sample_block "d" ["zz"; "a"; "b"] 2 3) diamond =
  calculate_selected_parent (sample_block "d" ["b"; "a"; "zz"] 2 3) diamond.
Proof.
  split; [by_compute|].
  apply (proj1 (calculate_selected_parent_spec (sample_block "d" ["b"; "a"; "zz"] 2 3) diamond diamond_keyed)).
  by_decide.
Defined.

Lemma refresh_selected_chain_spec_witness :
  d_selected_chain (cs_dag (@refresh_selected_chain list_order diamond)) = ["g"; "a"; "c"] /\
  @refresh_selected_chain list_order diamond = @refresh_selected_chain list_order diamond.
Proof.
  split; [by_compute|].
  apply (refresh_selected_chain_spec list_order list_order diamond "c" diamond_keyed).
  - by_decide.
  - by_decide.
Defined.
