(* ===== verification/Retarget.v ===== *)
(** * Difficulty retargeting ([retarget.rs])

    The expected compact target of the next block: the average interval of the
    last selected blocks gives a damped, clamped multiplier, and the current
    target is scaled by it in 256-bit limb arithmetic.  The theorems: the limb
    arithmetic is exact multiplication and floor division, the multipliers stay
    in their bands, and the expected target always lies between the consensus
    limits and moves by a bounded factor. *)

From Stdlib Require Import Strings.Byte.
From S2P Require Import Prelude Encoding Crypto Types State Selection Pow.

Definition CONSENSUS_TARGET_BLOCK_INTERVAL_SECS : Z := 60.
Definition CONSENSUS_POW_LIMIT_BITS : Z := 0x207fffff.
Definition CONSENSUS_MIN_TARGET_BITS : Z := 0x01010000.
Definition CONSENSUS_DIFFICULTY_WINDOW : Z := 20.
Definition CONSENSUS_DIFFICULTY_USE_MEDIAN : bool := false.
Definition CONSENSUS_MAX_FUTURE_DRIFT_SECS : Z := CONSENSUS_TARGET_BLOCK_INTERVAL_SECS * 2.
Definition CONSENSUS_RETARGET_DEADBAND_BPS : Z := 800.
Definition CONSENSUS_RETARGET_DAMPING_DIVISOR : Z := 2.
Definition CONSENSUS_RETARGET_MIN_BPS : Z := 8000.
Definition CONSENSUS_RETARGET_MAX_BPS : Z := 12500.
Definition BPS_DENOMINATOR : Z := 10000.
Definition BPS_RECIPROCAL_NUMERATOR : Z := BPS_DENOMINATOR * BPS_DENOMINATOR.

Record ConsensusDifficultyPolicy := mkConsensusDifficultyPolicy {
  cdp_target_block_interval_secs : Z;
  cdp_window_size : Z;
  cdp_use_median : bool;
  cdp_max_future_drift_secs : Z;
}.

Record ConsensusDifficultySnapshot := mkConsensusDifficultySnapshot {
  cds_best_height : Z;
  cds_next_height : Z;
  cds_expected_difficulty : Z;
  cds_expected_bits : Z;
  cds_current_bits : Z;
  cds_expected_target_u64 : Z;
  cds_expected_target_hex : string;
  cds_current_target_hex : string;
  cds_pow_limit_bits : Z;
  cds_pow_limit_target_hex : string;
  cds_target_block_interval_secs : Z;
  cds_observed_block_count : Z;
  cds_avg_block_interval_secs : Z;
  cds_retarget_multiplier_bps : Z;
  cds_target_multiplier_bps : Z;
  cds_retarget_min_bps : Z;
  cds_retarget_max_bps : Z;
  cds_retarget_was_clamped : bool;
  cds_target_was_clamped_to_pow_limit : bool;
  cds_retarget_rationale : string;
  cds_retarget_signal_quality : string;
  cds_policy : ConsensusDifficultyPolicy;
}.

Definition consensus_difficulty_policy : ConsensusDifficultyPolicy := {|
  cdp_target_block_interval_secs := CONSENSUS_TARGET_BLOCK_INTERVAL_SECS;
  cdp_window_size := CONSENSUS_DIFFICULTY_WINDOW;
  cdp_use_median := CONSENSUS_DIFFICULTY_USE_MEDIAN;
  cdp_max_future_drift_secs := CONSENSUS_MAX_FUTURE_DRIFT_SECS |}.

Definition consensus_pow_limit_target : bytes := target_from_bits CONSENSUS_POW_LIMIT_BITS.
Definition consensus_min_target : bytes := target_from_bits CONSENSUS_MIN_TARGET_BITS.

(** ** The window of recent blocks *)

Definition retarget_eligible (b : Block) : bool :=
  (0 <? h_height (b_header b)) && (0 <? h_timestamp (b_header b)).

Definition consensus_recent_blocks (state : ChainState) (window_size : Z) : list Block :=
  take (Z.to_nat (Z.max window_size 2))
    (filter (fun b => retarget_eligible b = true)
       (map snd (with_blocks state (reverse (d_selected_chain (cs_dag state)))))).

(** The walk over selected parents; [None] is running out of fuel. *)
Fixpoint recent_loop (state : ChainState) (limit : Z) (fuel : nat) (cursor : option Hash)
    (recent : list Block) (saw_known_block : bool) : option (bool * list Block) :=
  match fuel with
  | O => None
  | S fuel' =>
      match cursor with
      | None => Some (saw_known_block, recent)
      | Some hash =>
          match d_blocks (cs_dag state) !! hash with
          | None => Some (saw_known_block, recent)
          | Some block =>
              if existsb (fun known => bool_decide (b_hash known = hash)) recent
              then Some (true, recent)
              else if retarget_eligible block then
                let recent := recent ++ [block] in
                if limit <=? Z.of_nat (length recent) then Some (true, recent)
                else recent_loop state limit fuel' (selected_parent_of state hash) recent true
              else recent_loop state limit fuel' (selected_parent_of state hash) recent true
          end
      end
  end.
(** The outer [option] is the fuel of the walk, the inner one the result. *)
Definition consensus_recent_blocks_from_parent (state : ChainState) (parent_hash : Hash)
    (window_size : Z) : option (option (list Block)) :=
  let limit := Z.max window_size 2 in
  match recent_loop state limit (chain_fuel state) (Some parent_hash) [] false with
  | Some (saw_known_block, recent) => Some (if saw_known_block then Some recent else None)
  | None => None
  end.

(** [window.windows(2)]. *)
Fixpoint consensus_recent_intervals_secs (window : list Block) : list Z :=
  match window with
  | newer :: (older :: _) as rest =>
      saturating_sub (h_timestamp (b_header newer)) (h_timestamp (b_header older))
      :: consensus_recent_intervals_secs rest
  | _ => []
  end.

Definition consensus_median (values : list Z) : Z :=
  match values with
  | [] => 0
  | _ =>
      let values := isort Z.le values in
      let mid := (length values / 2)%nat in
      if Nat.even (length values)
      then saturating_add 64 (nth (mid - 1) values 0) (nth mid values 0) / 2
      else nth mid values 0
  end.

(** The sum of [u64] intervals wraps, as it does in a release build. *)
Definition consensus_recent_block_interval_secs_with_mode (window : list Block) (use_median : bool)
  : Z :=
  let intervals := consensus_recent_intervals_secs window in
  match intervals with
  | [] => 0
  | _ => if use_median then consensus_median intervals
         else (foldr Z.add 0 intervals mod 2 ^ 64) / Z.of_nat (length intervals)
  end.

Definition consensus_average_block_interval_secs (recent_blocks : list Block)
    (policy : ConsensusDifficultyPolicy) : Z :=
  if (length recent_blocks <? 2)%nat then cdp_target_block_interval_secs policy
  else Z.max (consensus_recent_block_interval_secs_with_mode recent_blocks (cdp_use_median policy)) 1.

Definition consensus_current_bits_from_blocks (recent_blocks : list Block) : Z :=
  match list_find (fun b => 0 < h_height (b_header b)) recent_blocks with
  | Some (_, b) => h_difficulty (b_header b)
  | None => CONSENSUS_POW_LIMIT_BITS
  end.

(** ** Multipliers *)

(** [x.clamp(lo, hi)]. *)
Definition clamp (x lo hi : Z) : Z := Z.max lo (Z.min x hi).

(** [deviation / 2] on [i64] truncates towards zero, and [damped as u64] is its
    value modulo [2^64]. *)
Definition consensus_retarget_multiplier_bps (avg_block_interval_secs : Z) : Z :=
  if avg_block_interval_secs =? 0 then BPS_DENOMINATOR
  else
    let raw := saturating_mul 64 CONSENSUS_TARGET_BLOCK_INTERVAL_SECS BPS_DENOMINATOR
               / Z.max avg_block_interval_secs 1 in
    let lower_bound := saturating_sub BPS_DENOMINATOR CONSENSUS_RETARGET_DEADBAND_BPS in
    let upper_bound := saturating_add 64 BPS_DENOMINATOR CONSENSUS_RETARGET_DEADBAND_BPS in
    if (lower_bound <=? raw) && (raw <=? upper_bound) then BPS_DENOMINATOR
    else
      let deviation := raw - BPS_DENOMINATOR in
      let damped := BPS_DENOMINATOR + Z.quot deviation CONSENSUS_RETARGET_DAMPING_DIVISOR in
      clamp (damped mod 2 ^ 64) CONSENSUS_RETARGET_MIN_BPS CONSENSUS_RETARGET_MAX_BPS.

Definition consensus_target_multiplier_bps_from_work_multiplier (work_multiplier_bps : Z) : Z :=
  saturating_add 64 BPS_RECIPROCAL_NUMERATOR (work_multiplier_bps / 2) / Z.max work_multiplier_bps 1.

(** ** 256-bit scaling on 64-bit limbs *)

Definition target_to_limbs (target : bytes) : list Z :=
  map (fun i => be_value (take 8 (drop (i * 8) target))) [0; 1; 2; 3]%nat.
Definition limbs_to_target (limbs : list Z) : bytes := concat (map (be_bytes 8) limbs).

(** The multiplication loop, least significant limb last: the limbs of the
    product and the carry out. *)
Fixpoint mul_limbs (limbs : list Z) (numerator : Z) : list Z * Z :=
  match limbs with
  | [] => ([], 0)
  | l :: limbs' =>
      let '(product, carry) := mul_limbs limbs' numerator in
      let value := saturating_add 128 (saturating_mul 128 l numerator) carry in
      (value mod 2 ^ 64 :: product, Z.shiftr value 64)
  end.
(** The division loop, most significant limb first. *)
Fixpoint div_limbs (remainder : Z) (limbs : list Z) (divisor : Z) : list Z :=
  match limbs with
  | [] => []
  | l :: limbs' =>
      let dividend := Z.lor (Z.shiftl remainder 64 mod 2 ^ 128) l in
      ((dividend / divisor) mod 2 ^ 64) :: div_limbs (dividend mod divisor) limbs' divisor
  end.
Definition scale_target_ratio (target : bytes) (numerator denominator : Z) : bytes * bool :=
  let limbs := target_to_limbs target in
  let '(product, carry) := mul_limbs limbs numerator in
  let product := carry mod 2 ^ 64 :: product in
  let divisor := Z.max denominator 1 in
  let quotient := div_limbs 0 product divisor in
  match quotient with
  | q0 :: rest => (limbs_to_target rest, negb (q0 =? 0))
  | [] => (limbs_to_target [], false)
  end.

(** ** The expected difficulty *)

Definition bytes_lt (a b : bytes) : bool := negb (bytes_le b a).

Definition consensus_adjust_target_for_interval (current_bits avg_block_interval_secs : Z)
  : Z * bytes * bool :=
  let pow_limit := consensus_pow_limit_target in
  let min_target := consensus_min_target in
  let current_target := target_from_bits current_bits in
  let current_was_above_pow_limit := bytes_lt pow_limit current_target in
  let bounded_current :=
    if current_was_above_pow_limit then pow_limit
    else if bytes_lt current_target min_target then min_target
    else current_target in
  let work_multiplier_bps := consensus_retarget_multiplier_bps avg_block_interval_secs in
  let target_multiplier_bps :=
    consensus_target_multiplier_bps_from_work_multiplier work_multiplier_bps in
  let '(scaled, overflow) :=
    scale_target_ratio bounded_current target_multiplier_bps BPS_DENOMINATOR in
  let scaled_was_above_pow_limit := overflow || bytes_lt pow_limit scaled in
  let target_was_clamped_to_pow_limit := current_was_above_pow_limit || scaled_was_above_pow_limit in
  let bounded :=
    if scaled_was_above_pow_limit then pow_limit
    else if bytes_lt scaled min_target then min_target
    else scaled in
  let bits := bits_from_target bounded in
  (bits, target_from_bits bits, target_was_clamped_to_pow_limit).

Definition expected_difficulty_for_parent (state : ChainState) (parent_hash : Hash)
  : option (option Z) :=
  let policy := consensus_difficulty_policy in
  match consensus_recent_blocks_from_parent state parent_hash (cdp_window_size policy) with
  | None => None
  | Some None => Some None
  | Some (Some recent_blocks) =>
      let avg := consensus_average_block_interval_secs recent_blocks policy in
      let current_bits := consensus_current_bits_from_blocks recent_blocks in
      Some (Some (consensus_adjust_target_for_interval current_bits avg).1.1)
  end.

Definition consensus_difficulty_snapshot `{Crypto} (state : ChainState)
  : ConsensusDifficultySnapshot :=
  let policy := consensus_difficulty_policy in
  let recent_blocks := consensus_recent_blocks state (cdp_window_size policy) in
  let observed_block_count := Z.of_nat (length recent_blocks) in
  let avg := consensus_average_block_interval_secs recent_blocks policy in
  let observed_intervals := saturating_sub observed_block_count 1 in
  let current_bits := consensus_current_bits_from_blocks recent_blocks in
  let retarget_multiplier_bps := consensus_retarget_multiplier_bps avg in
  let '(expected_bits, expected_target, clamped_to_limit) :=
    consensus_adjust_target_for_interval current_bits avg in
  let raw_multiplier_bps :=
    saturating_mul 64 (cdp_target_block_interval_secs policy) BPS_DENOMINATOR / Z.max avg 1 in
  let rationale :=
    if observed_intervals <? 2 then "insufficient_signal"
    else if retarget_multiplier_bps =? BPS_DENOMINATOR then "within_deadband"
    else if retarget_multiplier_bps =? CONSENSUS_RETARGET_MIN_BPS then "clamped_to_min"
    else if retarget_multiplier_bps =? CONSENSUS_RETARGET_MAX_BPS then "clamped_to_max"
    else if BPS_DENOMINATOR <? raw_multiplier_bps then "damped_increase"
    else "damped_decrease" in
  {| cds_best_height := d_best_height (cs_dag state);
     cds_next_height := saturating_add 64 (d_best_height (cs_dag state)) 1;
     cds_expected_difficulty := expected_bits;
     cds_expected_bits := expected_bits;
     cds_current_bits := current_bits;
     cds_expected_target_u64 := pow_target_u64 expected_bits;
     cds_expected_target_hex := target_hex expected_target;
     cds_current_target_hex := target_hex (target_from_bits current_bits);
     cds_pow_limit_bits := CONSENSUS_POW_LIMIT_BITS;
     cds_pow_limit_target_hex := target_hex consensus_pow_limit_target;
     cds_target_block_interval_secs := CONSENSUS_TARGET_BLOCK_INTERVAL_SECS;
     cds_observed_block_count := observed_block_count;
     cds_avg_block_interval_secs := avg;
     cds_retarget_multiplier_bps := retarget_multiplier_bps;
     cds_target_multiplier_bps :=
       consensus_target_multiplier_bps_from_work_multiplier retarget_multiplier_bps;
     cds_retarget_min_bps := CONSENSUS_RETARGET_MIN_BPS;
     cds_retarget_max_bps := CONSENSUS_RETARGET_MAX_BPS;
     cds_retarget_was_clamped :=
       (retarget_multiplier_bps =? CONSENSUS_RETARGET_MIN_BPS)
       || (retarget_multiplier_bps =? CONSENSUS_RETARGET_MAX_BPS);
     cds_target_was_clamped_to_pow_limit := clamped_to_limit;
     cds_retarget_rationale := rationale;
     cds_retarget_signal_quality := if observed_intervals <? 2 then "low" else "normal";
     cds_policy := policy |}.
Definition expected_difficulty `{Crypto} (state : ChainState) : Z :=
  cds_expected_bits (consensus_difficulty_snapshot state).
Definition expected_target_u64 `{Crypto} (state : ChainState) : Z :=
  cds_expected_target_u64 (consensus_difficulty_snapshot state).

(** ** Limb arithmetic *)

Definition limb_ok (l : Z) : Prop := 0 <= l < 2 ^ 64.
(** The number a most-significant-first list of limbs stands for. *)
Fixpoint limbs_value (limbs : list Z) : Z :=
  match limbs with
  | [] => 0
  | l :: limbs' => l * 2 ^ (64 * Z.of_nat (length limbs')) + limbs_value limbs'
  end.

Lemma limbs_value_range limbs :
  Forall limb_ok limbs -> 0 <= limbs_value limbs < 2 ^ (64 * Z.of_nat (length limbs)).
Proof.
  induction 1 as [|l limbs Hl _ IH]; cbn [limbs_value length]; [simpl; lia|].
  unfold limb_ok in Hl. rewrite Nat2Z.inj_succ, Z.mul_succ_r, Z.pow_add_r by lia. nia.
Qed.

Lemma mul_limbs_spec limbs numerator product carry :
  Forall limb_ok limbs -> 0 <= numerator < 2 ^ 64 ->
  mul_limbs limbs numerator = (product, carry) ->
  length product = length limbs /\ Forall limb_ok product /\ limb_ok carry /\
  limbs_value limbs * numerator =
    carry * 2 ^ (64 * Z.of_nat (length limbs)) + limbs_value product.
Proof.
  intros Hl Hn. revert product carry.
  induction Hl as [|l limbs Hl _ IH]; intros product carry Hm; cbn [mul_limbs] in Hm.
  { simplify_eq. split_and!; try done; unfold limb_ok; lia. }
  destruct (mul_limbs limbs numerator) as [p c] eqn:E. destruct (IH _ _ eq_refl) as (Hlen & Hp & Hc & Hv).
  assert (Hval : saturating_add 128 (saturating_mul 128 l numerator) c = l * numerator + c).
  { unfold saturating_add, saturating_mul, u_max, limb_ok in *.
    change (2 ^ 128) with (2 ^ 64 * 2 ^ 64). rewrite !Z.min_l; nia. }
  rewrite Hval in Hm. simplify_eq. set (v := l * numerator + c) in *.
  assert (Hv0 : 0 <= v < 2 ^ 64 * 2 ^ 64) by (unfold v, limb_ok in *; nia).
  rewrite Z.shiftr_div_pow2 by lia. cbn [length limbs_value]. split_and!.
  - by rewrite Hlen.
  - constructor; [|done]. apply Z.mod_pos_bound. lia.
  - split; [apply Z.div_pos; lia|]. apply Z.div_lt_upper_bound; lia.
  - rewrite Hlen, Nat2Z.inj_succ, Z.mul_succ_r, Z.pow_add_r by lia.
    set (P := 2 ^ (64 * Z.of_nat (length limbs))) in *.
    assert (Hd : v = v / 2 ^ 64 * 2 ^ 64 + v mod 2 ^ 64) by (rewrite (Z.div_mod v (2 ^ 64)) at 1; lia).
    unfold v in Hd at 1. nia.
Qed.

Lemma div_limbs_spec limbs divisor remainder :
  Forall limb_ok limbs -> 0 < divisor < 2 ^ 64 -> 0 <= remainder < divisor ->
  length (div_limbs remainder limbs divisor) = length limbs /\
  Forall limb_ok (div_limbs remainder limbs divisor) /\
  limbs_value (div_limbs remainder limbs divisor) =
    (remainder * 2 ^ (64 * Z.of_nat (length limbs)) + limbs_value limbs) / divisor.
Proof.
  intros Hl Hd. revert remainder.
  induction Hl as [|l limbs Hl Hls IH]; intros r Hr; cbn [div_limbs limbs_value length].
  { split_and!; [done|done|]. symmetry. apply Z.div_small. simpl. lia. }
  unfold limb_ok in Hl.
  assert (Hdd : Z.lor (Z.shiftl r 64 mod 2 ^ 128) l = r * 2 ^ 64 + l).
  { rewrite Z.mod_small; [apply lor_shift_add; lia|]. rewrite Z.shiftl_mul_pow2 by lia.
    change (2 ^ 128) with (2 ^ 64 * 2 ^ 64). nia. }
  rewrite Hdd. set (dd := r * 2 ^ 64 + l) in *.
  assert (Hddr : 0 <= dd < divisor * 2 ^ 64) by (unfold dd; nia).
  assert (Hq : 0 <= dd / divisor < 2 ^ 64).
  { split; [apply Z.div_pos; lia|]. apply Z.div_lt_upper_bound; lia. }
  destruct (IH (dd mod divisor)) as (Hlen & Hok & Hv); [apply Z.mod_pos_bound; lia|].
  rewrite (Z.mod_small (dd / divisor)) by lia. split_and!.
  - by rewrite Hlen.
  - by constructor.
  - rewrite Hv, Hlen, Nat2Z.inj_succ, Z.mul_succ_r, Z.pow_add_r by lia.
    set (P := 2 ^ (64 * Z.of_nat (length limbs))).
    replace (r * (P * 2 ^ 64) + (l * P + limbs_value limbs)) with (dd * P + limbs_value limbs)
      by (unfold dd; ring).
    rewrite (Z.div_mod dd divisor) at 3 by lia.
    replace ((divisor * (dd / divisor) + dd mod divisor) * P + limbs_value limbs)
      with (dd / divisor * P * divisor + (dd mod divisor * P + limbs_value limbs)) by ring.
    rewrite Z.div_add_l by lia. done.
Qed.

Lemma target_to_limbs_value t :
  length t = 32%nat -> Forall limb_ok (target_to_limbs t) /\ limbs_value (target_to_limbs t) = be_value t.
Proof.
  intros Ht. unfold target_to_limbs. cbn [map]. split.
  - repeat constructor; try apply be_value_range;
      (eapply Z.lt_le_trans; [apply be_value_range|]); rewrite length_take, length_drop, Ht; done.
  - cbn [limbs_value length].
    change (2 ^ (64 * Z.of_nat 3)) with (256 ^ 24). change (2 ^ (64 * Z.of_nat 2)) with (256 ^ 16).
    change (2 ^ (64 * Z.of_nat 1)) with (256 ^ 8). change (2 ^ (64 * Z.of_nat 0)) with 1.
    do 32 (destruct t as [|? t]; [discriminate Ht|]).
    destruct t; [|discriminate Ht]. cbn [take drop Nat.mul Nat.add].
    rewrite !be_value_cons. change (be_value []) with 0. cbn [length].
    repeat match goal with |- context [256 ^ Z.of_nat ?n] =>
      let v := eval vm_compute in (256 ^ Z.of_nat n) in change (256 ^ Z.of_nat n) with v end.
    lia.
Qed.

Lemma limbs_to_target_value limbs :
  Forall limb_ok limbs ->
  length (limbs_to_target limbs) = (8 * length limbs)%nat /\
  be_value (limbs_to_target limbs) = limbs_value limbs.
Proof.
  unfold limbs_to_target. induction 1 as [|l limbs Hl _ [IHlen IHv]]; cbn [map concat limbs_value length]; [done|].
  rewrite length_app, length_be_bytes, be_value_app, IHlen, IHv. split; [lia|].
  rewrite be_value_be_bytes by (exact Hl). rewrite pow256 by lia.
  replace (8 * Z.of_nat (8 * length limbs)) with (64 * Z.of_nat (length limbs)) by lia. done.
Qed.

Lemma scale_target_ratio_spec t numerator denominator scaled overflow :
  length t = 32%nat -> 0 <= numerator < 2 ^ 64 -> 0 < denominator < 2 ^ 64 ->
  scale_target_ratio t numerator denominator = (scaled, overflow) ->
  length scaled = 32%nat /\
  be_value scaled = (be_value t * numerator / denominator) mod 2 ^ 256 /\
  overflow = (2 ^ 256 <=? be_value t * numerator / denominator).
Proof.
  intros Ht Hn Hd. unfold scale_target_ratio. rewrite Z.max_l by lia.
  destruct (target_to_limbs_value t Ht) as [Hok Hval].
  destruct (mul_limbs (target_to_limbs t) numerator) as [p c] eqn:Hm.
  destruct (mul_limbs_spec _ _ _ _ Hok Hn Hm) as (Hlen & Hp & Hc & Hprod).
  rewrite Z.mod_small by exact Hc.
  destruct (div_limbs_spec (c :: p) denominator 0) as (Hqlen & Hqok & Hq); [by constructor|lia|lia|].
  change (length (target_to_limbs t)) with 4%nat in *.
  rewrite Z.mul_0_l, Z.add_0_l in Hq. cbn [limbs_value length] in Hq, Hqlen.
  rewrite Hlen in Hq, Hqlen. rewrite <- Hprod, Hval in Hq.
  destruct (div_limbs 0 (c :: p) denominator) as [|q0 rest]; [done|]. intros [= <- <-].
  apply Forall_cons in Hqok as [Hq0 Hrest]. destruct (limbs_to_target_value rest Hrest) as [Hrl Hrv].
  cbn [length limbs_value] in Hqlen, Hq. assert (Hr4 : length rest = 4%nat) by lia.
  rewrite Hr4 in *. pose proof (limbs_value_range rest Hrest) as Hrr. rewrite Hr4 in Hrr.
  change (64 * Z.of_nat 4) with 256 in *. rewrite Hrv, <- Hq. unfold limb_ok in Hq0.
  split; [done|]. split.
  - rewrite Z.add_comm, Z_mod_plus_full. symmetry. by apply Z.mod_small.
  - destruct (Z.eqb_spec q0 0) as [->|Hne]; symmetry; [apply Z.leb_gt|apply Z.leb_le]; nia.
Qed.

(** ** Multipliers *)

Lemma retarget_multiplier_range avg :
  0 <= avg -> CONSENSUS_RETARGET_MIN_BPS <= consensus_retarget_multiplier_bps avg <= CONSENSUS_RETARGET_MAX_BPS.
Proof.
  intros Ha. unfold consensus_retarget_multiplier_bps, clamp.
  unfold CONSENSUS_RETARGET_MIN_BPS, CONSENSUS_RETARGET_MAX_BPS, BPS_DENOMINATOR.
  repeat case_match; lia.
Qed.

Lemma target_multiplier_range w :
  CONSENSUS_RETARGET_MIN_BPS <= w <= CONSENSUS_RETARGET_MAX_BPS ->
  8000 <= consensus_target_multiplier_bps_from_work_multiplier w <= 12500.
Proof.
  unfold CONSENSUS_RETARGET_MIN_BPS, CONSENSUS_RETARGET_MAX_BPS. intros Hw.
  unfold consensus_target_multiplier_bps_from_work_multiplier, saturating_add, u_max,
    BPS_RECIPROCAL_NUMERATOR, BPS_DENOMINATOR.
  change (2 ^ 64 - 1) with 18446744073709551615. change (10000 * 10000) with 100000000.
  rewrite Z.min_l, Z.max_l by (pose proof (Z.div_le_upper_bound w 2 12500); lia).
  assert (0 <= w / 2 <= 6250) by (split; [apply Z.div_pos; lia|apply Z.div_le_upper_bound; lia]).
  assert (Hw2 : 2 * (w / 2) <= w) by (apply Z.mul_div_le; lia).
  split; [apply Z.div_le_lower_bound; lia|].
  apply Z.lt_succ_r, Z.div_lt_upper_bound; [lia|]. nia.
Qed.

(** ** The adjusted target *)

Lemma pow_limit_value : be_value consensus_pow_limit_target = 0x7fffff * 2 ^ 232.
Proof. by_compute. Qed.
Lemma min_target_value : be_value consensus_min_target = 1.
Proof. by_compute. Qed.

Lemma bytes_lt_value a b :
  length a = length b -> bytes_lt a b = (be_value a <? be_value b).
Proof. intros Hlen. unfold bytes_lt. rewrite bytes_le_value by done. by rewrite Z.ltb_antisym. Qed.

(** [v] brought into the consensus range. *)
Definition bound_target (v : Z) : Z := Z.max 1 (Z.min v (0x7fffff * 2 ^ 232)).

Lemma adjust_target_spec current_bits avg bits target clamped :
  0 <= avg ->
  consensus_adjust_target_for_interval current_bits avg = (bits, target, clamped) ->
  let current := bound_target (be_value (target_from_bits current_bits)) in
  let k := consensus_target_multiplier_bps_from_work_multiplier
             (consensus_retarget_multiplier_bps avg) in
  let exact := bound_target (current * k / 10000) in
  8000 <= k <= 12500 /\ target = target_from_bits bits /\
  be_value target <= exact /\ (exact - be_value target) * 2 ^ 15 < be_value target.
Proof.
  intros Ha. unfold consensus_adjust_target_for_interval.
  pose proof (length_target_from_bits current_bits) as Hlc.
  assert (Hll : length consensus_pow_limit_target = 32%nat) by apply length_target_from_bits.
  assert (Hlm : length consensus_min_target = 32%nat) by apply length_target_from_bits.
  set (k := consensus_target_multiplier_bps_from_work_multiplier _).
  assert (Hk : 8000 <= k <= 12500) by (apply target_multiplier_range, retarget_multiplier_range; lia).
  set (cur := if bytes_lt consensus_pow_limit_target (target_from_bits current_bits) then _ else _).
  assert (Hcur : length cur = 32%nat /\ be_value cur = bound_target (be_value (target_from_bits current_bits))).
  { unfold cur, bound_target. rewrite !bytes_lt_value, pow_limit_value, min_target_value by congruence.
    repeat case_match; bool_props; (split; [done|]); rewrite ?pow_limit_value, ?min_target_value; lia. }
  destruct Hcur as [Hcl Hcv]. clearbody cur.
  destruct (scale_target_ratio cur k BPS_DENOMINATOR) as [scaled overflow] eqn:Hs.
  apply scale_target_ratio_spec in Hs as (Hsl & Hsv & Hov); [|done|lia|unfold BPS_DENOMINATOR; lia].
  unfold BPS_DENOMINATOR in *. rewrite Hcv in *.
  set (v := bound_target (be_value (target_from_bits current_bits)) * k / 10000) in *.
  assert (Hv : 0 <= v).
  { apply Z.div_pos; [|lia]. unfold bound_target. nia. }
  set (bounded := if overflow || _ then _ else _). intros Heq. apply pair_equal_spec in Heq as [Heq _].
  apply pair_equal_spec in Heq as [<- <-]. cbv zeta.
  assert (Hb : length bounded = 32%nat /\ be_value bounded = bound_target v).
  { unfold bounded, bound_target. rewrite !bytes_lt_value, pow_limit_value, min_target_value by congruence.
    rewrite Hov. destruct (Z.leb_spec (2 ^ 256) v); cbn [orb].
    - rewrite pow_limit_value. split; [done|]. lia.
    - rewrite Z.mod_small in Hsv by lia. rewrite Hsv.
      repeat case_match; bool_props; (split; [done|]); rewrite ?pow_limit_value, ?min_target_value; lia. }
  destruct Hb as [Hbl Hbv]. split; [done|]. split; [done|].
  destruct (bits_from_target_parts bounded Hbl) as (e & m & Hbits & Hparts).
  { rewrite Hbv. unfold bound_target. lia. }
  destruct (compact_parts_value e m (be_value bounded)) as (Hr & Hle & Hlt).
  { rewrite Hbv. unfold bound_target. lia. }
  { done. }
  rewrite Hbits, target_from_bits_compact, <- Hbv by done. done.
Qed.

(** ** The walk over selected parents *)

(** A selected parent is lower than its child. *)
Definition heights_decrease (state : ChainState) : Prop :=
  forall h b p bp, d_blocks (cs_dag state) !! h = Some b -> selected_parent_of state h = Some p ->
    d_blocks (cs_dag state) !! p = Some bp -> h_height (b_header bp) < h_height (b_header b).

Definition blocks_below (state : ChainState) (n : Z) : gmap Hash Block :=
  filter (fun e => h_height (b_header e.2) < n) (d_blocks (cs_dag state)).

Lemma blocks_below_lt state p bp n :
  d_blocks (cs_dag state) !! p = Some bp -> h_height (b_header bp) < n ->
  (size (blocks_below state (h_height (b_header bp))) < size (blocks_below state n))%nat.
Proof.
  intros Hp Hn. unfold blocks_below.
  assert (Hsub : filter (fun e => h_height (b_header e.2) < h_height (b_header bp)) (d_blocks (cs_dag state))
    ⊆ delete p (filter (fun e : Hash * Block => h_height (b_header e.2) < n) (d_blocks (cs_dag state)))).
  { apply map_subseteq_spec. intros h b [Hb Hlt]%map_lookup_filter_Some. simpl in Hlt.
    apply lookup_delete_Some. split; [intros ->; simplify_eq; lia|].
    apply map_lookup_filter_Some. split; [done|]. simpl. lia. }
  apply map_subseteq_size in Hsub. rewrite map_size_delete_Some in Hsub.
  2: { exists bp. by apply map_lookup_filter_Some. }
  assert (Hpos : size (blocks_below state n) <> 0%nat).
  { intros Hz. apply map_size_empty_inv in Hz.
    assert (Hl : blocks_below state n !! p = Some bp) by (by apply map_lookup_filter_Some).
    by rewrite Hz, lookup_empty in Hl. }
  unfold blocks_below in Hpos. lia.
Qed.

Lemma recent_loop_total state limit fuel h b recent saw :
  heights_decrease state -> d_blocks (cs_dag state) !! h = Some b ->
  (size (blocks_below state (h_height (b_header b))) + 1 < fuel)%nat ->
  exists recent', recent_loop state limit fuel (Some h) recent saw = Some (true, recent').
Proof.
  intros Hdec. revert h b recent saw.
  induction fuel as [|fuel IH]; intros h b recent saw Hb Hfuel; [lia|]. cbn [recent_loop]. rewrite Hb.
  destruct (existsb _ recent); [by eexists|].
  assert (Hnext : forall recent, exists recent',
    recent_loop state limit fuel (selected_parent_of state h) recent true = Some (true, recent')).
  { intros recent1. destruct fuel as [|fuel]; [lia|].
    destruct (selected_parent_of state h) as [p|] eqn:Hp; [|by eexists].
    destruct (d_blocks (cs_dag state) !! p) as [bp|] eqn:Hbp.
    - apply (IH p bp); [done|]. pose proof (blocks_below_lt state p bp _ Hbp (Hdec h b p bp Hb Hp Hbp)). lia.
    - cbn [recent_loop]. rewrite Hbp. by eexists. }
  destruct (retarget_eligible b); [|apply Hnext]. destruct (limit <=? _); [by eexists|apply Hnext].
Qed.

Lemma recent_blocks_from_parent_total state h b window :
  heights_decrease state -> d_blocks (cs_dag state) !! h = Some b ->
  exists recent, consensus_recent_blocks_from_parent state h window = Some (Some recent).
Proof.
  intros Hdec Hb. unfold consensus_recent_blocks_from_parent.
  destruct (recent_loop_total state (Z.max window 2) (chain_fuel state) h b [] false Hdec Hb) as [r Hr].
  - unfold chain_fuel. assert (Hsub : blocks_below state (h_height (b_header b)) ⊂ d_blocks (cs_dag state)).
    { split; [apply map_filter_subseteq|]. intros Hc. rewrite map_subseteq_spec in Hc.
      apply Hc in Hb as Hb'. apply map_lookup_filter_Some in Hb' as [_ Hlt]. simpl in Hlt. lia. }
    apply map_subset_size in Hsub. lia.
  - rewrite Hr. by exists r.
Qed.

Lemma average_interval_nonneg recent : 0 <= consensus_average_block_interval_secs recent consensus_difficulty_policy.
Proof. unfold consensus_average_block_interval_secs. case_match; [done|lia]. Qed.

(** C37: [scale_target_ratio], which works on 64-bit limbs with [u128]
    intermediates, computes the exact floor of target * numerator / denominator
    modulo 2^256, and its flag says whether that floor exceeds 256 bits. *)
Theorem scale_target_ratio_exact t numerator denominator :
  length t = 32%nat -> 0 <= numerator < 2 ^ 64 -> 0 < denominator < 2 ^ 64 ->
  let exact := be_value t * numerator / denominator in
  scale_target_ratio t numerator denominator =
    (be_bytes 32 (exact mod 2 ^ 256), 2 ^ 256 <=? exact).
Proof.
  intros Ht Hn Hd exact. destruct (scale_target_ratio t numerator denominator) as [s o] eqn:Hs.
  apply scale_target_ratio_spec in Hs as (Hl & Hv & Ho); [|done..]. fold exact in Hv, Ho.
  rewrite Ho, <- Hv. f_equal. unfold be_bytes, be_value.
  rewrite <- (reverse_involutive s) at 1. f_equal.
  rewrite <- (le_bytes_le_value (reverse s)) at 1. by rewrite length_reverse, Hl.
Qed.

(** For every stored parent of a DAG whose selected parents decrease in
    height, the expected difficulty exists, its target lies between 1 and the
    proof-of-work limit, and relative to the (bounded) target of the last block
    it grows by at most a quarter and shrinks by at most a fifth, up to the
    2^-15 rounding of the compact encoding. *)
Lemma expected_difficulty_for_parent_bounds state h b :
  heights_decrease state -> d_blocks (cs_dag state) !! h = Some b ->
  exists recent bits,
    consensus_recent_blocks_from_parent state h CONSENSUS_DIFFICULTY_WINDOW = Some (Some recent) /\
    expected_difficulty_for_parent state h = Some (Some bits) /\
    let current := bound_target
      (be_value (target_from_bits (consensus_current_bits_from_blocks recent))) in
    let next := be_value (target_from_bits bits) in
    1 <= next <= be_value consensus_pow_limit_target /\
    next <= Z.max 1 (current * 5 / 4) /\ (current * 4 / 5 - next) * 2 ^ 15 < next.
Proof.
  intros Hdec Hb. unfold expected_difficulty_for_parent.
  change (cdp_window_size consensus_difficulty_policy) with CONSENSUS_DIFFICULTY_WINDOW.
  destruct (recent_blocks_from_parent_total state h b CONSENSUS_DIFFICULTY_WINDOW Hdec Hb) as [recent Hr].
  rewrite Hr. exists recent. pose proof (average_interval_nonneg recent) as Havg.
  destruct (consensus_adjust_target_for_interval (consensus_current_bits_from_blocks recent)
    (consensus_average_block_interval_secs recent consensus_difficulty_policy))
    as [[bits target] clamped] eqn:Ha.
  apply adjust_target_spec in Ha as (Hk & -> & Hle & Hlt); [|done].
  exists bits. split; [done|]. split; [done|]. cbv zeta in *. rewrite pow_limit_value.
  set (k := consensus_target_multiplier_bps_from_work_multiplier _) in *. clearbody k.
  set (cur := bound_target (be_value (target_from_bits (consensus_current_bits_from_blocks recent)))) in *.
  assert (Hcur : 1 <= cur <= 0x7fffff * 2 ^ 232) by (unfold cur, bound_target; lia). clearbody cur.
  set (next := be_value (target_from_bits bits)) in *. clearbody next.
  assert (H1 : cur * k / 10000 <= cur * 5 / 4).
  { rewrite <- (Z.div_mul_cancel_r (cur * 5) 4 2500) by lia. apply Z.div_le_mono; nia. }
  assert (H2 : cur * 4 / 5 <= cur * k / 10000).
  { rewrite <- (Z.div_mul_cancel_r (cur * 4) 5 2000) by lia. apply Z.div_le_mono; nia. }
  assert (H3 : cur * 4 / 5 <= cur) by (apply Z.div_le_upper_bound; lia).
  unfold bound_target in Hle, Hlt. change (2 ^ 15) with 32768 in *. lia.
Qed.

(** ** Witnesses *)

Lemma scale_target_ratio_exact_witness :
  scale_target_ratio (be_bytes 32 (2 ^ 200)) 12500 10000 =
  (be_bytes 32 ((2 ^ 200 * 12500 / 10000) mod 2 ^ 256), false).
Proof.
  pose proof (scale_target_ratio_exact (be_bytes 32 (2 ^ 200)) 12500 10000
    ltac:(by_compute) ltac:(lia) ltac:(lia)) as E.
  exact E.
Defined.

Lemma diamond_heights_decrease : heights_decrease diamond.
Proof.
  assert (Hd : map_Forall (fun h b => match selected_parent_of diamond h with
    | Some p => match d_blocks (cs_dag diamond) !! p with
                | Some bp => h_height (b_header bp) <? h_height (b_header b)
                | None => true
                end
    | None => true
    end = true) (d_blocks (cs_dag diamond))) by by_decide.
  intros h b p bp Hb Hp Hbp. specialize (Hd h b Hb). cbv beta in Hd. rewrite Hp, Hbp in Hd. lia.
Qed.

Lemma expected_difficulty_for_parent_bounds_witness :
  exists bits, expected_difficulty_for_parent diamond "c" = Some (Some bits).
Proof.
  destruct (expected_difficulty_for_parent_bounds diamond "c" (sample_block "c" ["a"; "b"] 2 3)
    diamond_heights_decrease ltac:(by_compute)) as (recent & bits & _ & Hb & _).
  exists bits. exact Hb.
Defined.
