(* ===== verification/Ghostdag.v ===== *)
(** * Merge-set classification ([ghostdag.rs])

    The past of a block, the merge set of a block (what its other parents add to
    the past of its selected parent) and its split into blues and reds.  The
    theorems: the ancestor walk computes exactly the blocks reachable over
    parent edges, [is_ancestor_of] decides that relation, and the
    classification partitions the merge set with a bounded blue anticone. *)

From S2P Require Import Prelude Types State Graph Selection.

Definition DEFAULT_MERGE_SET_K : Z := 2.

Record MergeSetClassification := mkMergeSetClassification {
  msc_selected_parent : option Hash;
  msc_merge_set : list Hash;
  msc_blues : list Hash;
  msc_reds : list Hash;
  msc_blue_score : Z;
  msc_blue_work : Z;
  msc_diagnostics : MergeSetDiagnostics;
}.

(** The parents the walks push for a hash. *)
Definition parents_of (state : ChainState) (hash : Hash) : list Hash :=
  match d_blocks (cs_dag state) !! hash with
  | Some block => h_parents (b_header block)
  | None => []
  end.
(** One unit per edge of the DAG, one for the root and one to leave the loop. *)
Definition walk_fuel (state : ChainState) : nat :=
  S (S (edge_count (parents_of state) (dom (d_blocks (cs_dag state))))).

Definition ancestors_inclusive (hash : Hash) (state : ChainState) : gset Hash :=
  match dfs (parents_of state) (fun _ => false) (walk_fuel state) [hash] ∅ with
  | Some (_, seen) => seen
  | None => ∅
  end.

Definition is_ancestor_of (candidate descendant : Hash) (state : ChainState) : bool :=
  if decide (candidate = descendant) then true
  else match dfs (parents_of state) (fun cursor => bool_decide (cursor = candidate))
               (walk_fuel state) [descendant] ∅ with
  | Some (found, _) => found
  | None => false
  end.

Definition are_related (a b : Hash) (state : ChainState) : bool :=
  is_ancestor_of a b state || is_ancestor_of b a state.

Definition calculate_merge_set (block : Block) (state : ChainState) : list Hash :=
  match calculate_selected_parent block state with
  | None => []
  | Some selected_parent =>
      let selected_parent_past := ancestors_inclusive selected_parent state in
      btree_iter (foldl (fun merge_set parent =>
        if decide (parent = selected_parent) then merge_set
        else merge_set ∪ (ancestors_inclusive parent state ∖ selected_parent_past))
        ∅ (h_parents (b_header block)))
  end.

(** The comparator of the [sort_by] in [classify_merge_set_with_k]. *)
Definition compare_merge_set (state : ChainState) (a b : Hash) : comparison :=
  match d_blocks (cs_dag state) !! a, d_blocks (cs_dag state) !! b with
  | Some a_block, Some b_block =>
      then_with (compare_selected_parent_candidates b_block a_block) (String.compare a b)
  | _, _ => String.compare a b
  end.

(** The loop body that colours one candidate. *)
Definition color_candidate (state : ChainState) (k : Z) (acc : list Hash * list Hash)
    (candidate : Hash) : list Hash * list Hash :=
  let '(blues, reds) := acc in
  let anticone_blues :=
    length (filter (fun blue => are_related candidate blue state = false) blues) in
  if Z.of_nat anticone_blues <? k then (blues ++ [candidate], reds)
  else (blues, reds ++ [candidate]).

Definition classify_merge_set_with_k (block : Block) (state : ChainState) (k : Z)
  : MergeSetClassification :=
  let selected_parent := calculate_selected_parent block state in
  let merge_set := isort (cmp_le (compare_merge_set state)) (calculate_merge_set block state) in
  let '(blues, reds) := foldl (color_candidate state k) ([], []) merge_set in
  let selected_parent_score :=
    match selected_parent with
    | Some hash => match d_blocks (cs_dag state) !! hash with
                   | Some b => h_blue_score (b_header b)
                   | None => 0
                   end
    | None => 0
    end in
  let blue_score :=
    saturating_add 64 (saturating_add 64 selected_parent_score 1) (Z.of_nat (length blues)) in
  let selected_parent_work :=
    match selected_parent with
    | Some hash => match d_blue_work (cs_dag state) !! hash with
                   | Some w => w
                   | None => selected_parent_score
                   end
    | None => selected_parent_score
    end in
  let blue_work :=
    saturating_add 128 (saturating_add 128 selected_parent_work 1) (Z.of_nat (length blues)) in
  {| msc_selected_parent := selected_parent;
     msc_merge_set := merge_set;
     msc_blues := blues;
     msc_reds := reds;
     msc_blue_score := blue_score;
     msc_blue_work := blue_work;
     msc_diagnostics := {|
       msd_selected_parent := selected_parent;
       msd_blue_score := blue_score;
       msd_merge_set_size := Z.of_nat (length blues) + Z.of_nat (length reds);
       msd_merge_set_blues_count := Z.of_nat (length blues);
       msd_merge_set_reds_count := Z.of_nat (length reds) |} |}.

Definition classify_merge_set (block : Block) (state : ChainState) : MergeSetClassification :=
  classify_merge_set_with_k block state (d_merge_set_k (cs_dag state)).

(** ** Ancestry *)

(** [p] is [d] or reachable from it over parent edges of stored blocks. *)
Definition ancestor (state : ChainState) (d p : Hash) : Prop := reach (parents_of state) d p.

Lemma walk_total state stop root :
  is_Some (dfs (parents_of state) stop (walk_fuel state) [root] ∅).
Proof.
  apply (dfs_fuel_enough _ _ (dom (d_blocks (cs_dag state)))).
  - intros k Hk. unfold parents_of. by rewrite (proj1 (not_elem_of_dom _ _) Hk).
  - unfold walk_fuel. rewrite difference_empty_L. simpl. lia.
Qed.

Lemma elem_of_ancestors_inclusive state d p :
  p ∈ ancestors_inclusive d state <-> ancestor state d p.
Proof.
  unfold ancestors_inclusive, ancestor.
  destruct (walk_total state (fun _ => false) d) as [[found seen] Hd]. rewrite Hd.
  assert (found = false) as -> by (by eapply dfs_no_stop). by apply (dfs_reach _ _ _ _ Hd).
Qed.

Lemma is_ancestor_of_spec state c d : is_ancestor_of c d state = true <-> ancestor state d c.
Proof.
  unfold is_ancestor_of, ancestor. case_decide as Heq.
  { subst. split; [intros _; apply rtc_refl|done]. }
  destruct (walk_total state (fun k => bool_decide (k = c)) d) as [[found seen] Hd]. rewrite Hd.
  by apply (dfs_target _ _ _ _ _ _ Hd).
Qed.

(** ** The merge set *)

Lemma merge_fold_spec state sp past parents acc h :
  h ∈ foldl (fun merge_set parent =>
        if decide (parent = sp) then merge_set
        else merge_set ∪ (ancestors_inclusive parent state ∖ past)) acc parents <->
  h ∈ acc \/ exists p, p ∈ parents /\ p <> sp /\ ancestor state p h /\ h ∉ past.
Proof.
  revert acc. induction parents as [|p parents IH]; intros acc; simpl; [set_solver|].
  rewrite IH. case_decide as Hp.
  - subst. set_solver.
  - rewrite elem_of_union, elem_of_difference, elem_of_ancestors_inclusive. set_solver.
Qed.

Lemma elem_of_merge_set block state sp h :
  calculate_selected_parent block state = Some sp ->
  h ∈ calculate_merge_set block state <->
  (exists p, p ∈ h_parents (b_header block) /\ ancestor state p h) /\ ~ ancestor state sp h.
Proof.
  intros Hsp. unfold calculate_merge_set. rewrite Hsp, elem_of_btree_iter, merge_fold_spec.
  setoid_rewrite elem_of_ancestors_inclusive. split.
  - intros [?|(p & ? & ? & ? & ?)]; [set_solver|]. naive_solver.
  - intros [(p & Hp & Hph) Hn]. right. exists p. repeat split; try done. by intros ->.
Qed.

Lemma NoDup_merge_set block state : NoDup (calculate_merge_set block state).
Proof.
  unfold calculate_merge_set. destruct (calculate_selected_parent block state);
    [apply NoDup_btree_iter|constructor].
Qed.

(** ** Colouring *)

(** Every blue sees fewer than [k] unrelated blues before it. *)
Definition blue_bounded (state : ChainState) (k : Z) (blues : list Hash) : Prop :=
  forall pre x post, blues = pre ++ x :: post ->
    Z.of_nat (length (filter (fun b => are_related x b state = false) pre)) < k.

Lemma blue_bounded_snoc state k blues x :
  blue_bounded state k blues ->
  Z.of_nat (length (filter (fun b => are_related x b state = false) blues)) < k ->
  blue_bounded state k (blues ++ [x]).
Proof.
  intros Hb Hx pre y post Heq. destruct post as [|z post _] using rev_ind.
  - apply app_inj_2 in Heq as [<- [= <-]]; done.
  - rewrite app_comm_cons, app_assoc in Heq. apply app_inj_2 in Heq as [-> _]; [|done].
    by apply (Hb pre y post).
Qed.

Lemma color_fold_spec state k l blues reds blues' reds' :
  foldl (color_candidate state k) (blues, reds) l = (blues', reds') ->
  blue_bounded state k blues ->
  blues' ++ reds' ≡ₚ blues ++ reds ++ l /\ blue_bounded state k blues'.
Proof.
  revert blues reds. induction l as [|c l IH]; intros blues reds Hf Hb; simpl in Hf.
  { simplify_eq. by rewrite app_nil_r. }
  case_match eqn:Hc.
  - apply IH in Hf as [Hp Hb']; [|apply blue_bounded_snoc; [done|lia]]. split; [|done].
    rewrite Hp. rewrite <- app_assoc. solve_Permutation.
  - apply IH in Hf as [Hp Hb']; [|done]. split; [|done]. rewrite Hp. solve_Permutation.
Qed.

Lemma classify_fields block state k :
  let c := classify_merge_set_with_k block state k in
  msc_selected_parent c = calculate_selected_parent block state /\
  msc_merge_set c ≡ₚ calculate_merge_set block state /\
  msc_blues c ++ msc_reds c ≡ₚ msc_merge_set c /\ blue_bounded state k (msc_blues c).
Proof.
  unfold classify_merge_set_with_k.
  destruct (foldl (color_candidate state k) ([], []) _) as [blues reds] eqn:Hf.
  apply color_fold_spec in Hf as [Hp Hb]; [|by intros [] ? ? [=]].
  cbn [msc_selected_parent msc_merge_set msc_blues msc_reds app] in *.
  split; [done|]. split; [apply isort_perm|]. done.
Qed.

Lemma classify_perm b1 b2 state k :
  keyed_blocks state -> h_parents (b_header b1) ≡ₚ h_parents (b_header b2) ->
  classify_merge_set_with_k b1 state k = classify_merge_set_with_k b2 state k.
Proof.
  intros Hk Hp. unfold classify_merge_set_with_k.
  rewrite (calculate_selected_parent_perm b1 b2 state Hk Hp).
  assert (Hm : calculate_merge_set b1 state = calculate_merge_set b2 state).
  { unfold calculate_merge_set. rewrite (calculate_selected_parent_perm b1 b2 state Hk Hp).
    destruct (calculate_selected_parent b2 state) as [sp|]; [|done]. f_equal.
    apply set_eq. intros h. rewrite !merge_fold_spec. by setoid_rewrite Hp. }
  by rewrite Hm.
Qed.

(** C15: for a block with a stored parent, the blues and reds of
    [classify_merge_set_with_k] partition the merge set, which is exactly what
    the parents reach and the selected parent does not; no hash appears twice;
    every blue has fewer than [k] earlier blues it is neither an ancestor nor a
    descendant of; and the classification does not depend on the order of the
    parents. *)
Theorem classify_merge_set_spec block state k sp :
  keyed_blocks state -> calculate_selected_parent block state = Some sp ->
  let c := classify_merge_set_with_k block state k in
  msc_selected_parent c = Some sp /\
  NoDup (msc_blues c ++ msc_reds c) /\
  (forall h, h ∈ msc_blues c ++ msc_reds c <->
     (exists p, p ∈ h_parents (b_header block) /\ ancestor state p h) /\ ~ ancestor state sp h) /\
  blue_bounded state k (msc_blues c) /\
  (forall block', h_parents (b_header block') ≡ₚ h_parents (b_header block) ->
     classify_merge_set_with_k block' state k = c).
Proof.
  intros Hk Hsp. destruct (classify_fields block state k) as (Hs & Hm & Hp & Hb).
  cbv zeta. rewrite Hs. split; [done|]. split; [|split; [|split; [done|]]].
  - rewrite Hp, Hm. apply NoDup_merge_set.
  - intros h. rewrite Hp, Hm. by apply elem_of_merge_set.
  - intros block' Hbl. by apply classify_perm.
Qed.

(** [is_ancestor_of] terminates on every DAG and decides reachability over
    the parent edges of stored blocks. *)
Lemma is_ancestor_of_correct state candidate descendant :
  is_ancestor_of candidate descendant state = true <->
  rtc (fun d p => exists b, d_blocks (cs_dag state) !! d = Some b /\ p ∈ h_parents (b_header b))
      descendant candidate.
Proof.
  rewrite is_ancestor_of_spec. unfold ancestor, reach.
  assert (He : forall d p, edge (parents_of state) d p <->
    exists b, d_blocks (cs_dag state) !! d = Some b /\ p ∈ h_parents (b_header b)).
  { intros d p. unfold edge, parents_of. destruct (d_blocks (cs_dag state) !! d); set_solver. }
  split; intros Hr; (eapply rtc_subrel; [|exact Hr]); intros d p; by rewrite He.
Qed.

(** The comparator the merge set is sorted with is not transitive when an
    ancestor is not stored: stored blocks compare by blue score and a missing
    one by its hash, so three hashes can form a cycle. *)
Lemma compare_merge_set_not_transitive :
  exists state a b c, keyed_blocks state /\
    compare_merge_set state a b = Lt /\ compare_merge_set state b c = Lt /\
    compare_merge_set state c a = Lt.
Proof.
  exists (blank_state <| cs_dag := blank_dag
    <| d_blocks := {[ "a" := sample_block "a" ["g"] 1 1; "c" := sample_block "c" ["g"] 2 5 ]} |> |>),
    "a", "b", "c".
  split; [unfold keyed_blocks; by_decide|]. by vm_compute.
Qed.

Lemma classify_merge_set_spec_witness :
  msc_blues (classify_merge_set_with_k (sample_block "c" ["a"; "b"] 2 3) diamond 2) = ["b"] /\
  blue_bounded diamond 2 (msc_blues (classify_merge_set_with_k (sample_block "c" ["a"; "b"] 2 3) diamond 2)).
Proof.
  split; [by_compute|].
  apply (classify_merge_set_spec (sample_block "c" ["a"; "b"] 2 3) diamond 2 "a" diamond_keyed).
  by_compute.
Defined.
