(* ===== verification/Ordering.v ===== *)
(** * The ordered DAG, rule v1 ([ordering.rs])

    [derive_ordered_dag] lists the accepted blocks: the selected chain, then
    the blue and red merge-set members of each selected block, then whatever is
    left.  The theorem: the list is a total order of exactly the stored blocks,
    it starts with the selected chain, and it does not depend on the iteration
    order of the block map. *)

From S2P Require Import Prelude Types State Selection.

Definition DAG_ORDERING_VERSION : string := "selected-chain-merge-set-v1".

Definition compare_order_blocks (a b : Block) : comparison :=
  then_with (h_height (b_header a) ?= h_height (b_header b))
  (then_with (h_blue_score (b_header b) ?= h_blue_score (b_header a))
  (then_with (h_timestamp (b_header a) ?= h_timestamp (b_header b))
             (String.compare (b_hash a) (b_hash b)))).

(** [Vec::dedup]: drop an element equal to the one before it. *)
Fixpoint dedup (l : list Hash) : list Hash :=
  match l with
  | x :: (y :: _) as l' => if decide (x = y) then dedup l' else x :: dedup l'
  | l' => l'
  end.

Definition compare_existing (state : ChainState) (a b : Hash) : comparison :=
  match d_blocks (cs_dag state) !! a, d_blocks (cs_dag state) !! b with
  | Some a_block, Some b_block => compare_order_blocks a_block b_block
  | _, _ => String.compare a b
  end.
Definition sorted_existing (hashes : list Hash) (state : ChainState) : list Hash :=
  dedup (isort (cmp_le (compare_existing state)) hashes).

Definition push_once (state : ChainState) (acc : gset Hash * list Hash) (hash : Hash)
  : gset Hash * list Hash :=
  let '(seen, ordered) := acc in
  if bool_decide (is_Some (d_blocks (cs_dag state) !! hash)) && negb (bool_decide (hash ∈ seen))
  then ({[hash]} ∪ seen, ordered ++ [hash]) else (seen, ordered).

(** The blue then red merge-set members of one selected block. *)
Definition push_merge_set (state : ChainState) (acc : gset Hash * list Hash) (selected : Hash)
  : gset Hash * list Hash :=
  let blues := sorted_existing (default [] (d_merge_set_blues (cs_dag state) !! selected)) state in
  let acc := foldl (push_once state) acc blues in
  let reds := sorted_existing (default [] (d_merge_set_reds (cs_dag state) !! selected)) state in
  foldl (push_once state) acc reds.

Definition derive_ordered_dag `{HashOrder} (state : ChainState) : list Hash :=
  let acc := foldl (push_once state) (∅, []) (d_selected_chain (cs_dag state)) in
  let acc := foldl (push_merge_set state) acc (d_selected_chain (cs_dag state)) in
  let remaining := sorted_existing (map fst (map_iter (d_blocks (cs_dag state)))) state in
  let '(_, ordered) := foldl (push_once state) acc remaining in
  ordered.

Definition refresh_ordered_dag `{HashOrder} (state : ChainState) : ChainState :=
  state <| cs_dag ::= fun dag =>
    dag <| d_ordered_dag := derive_ordered_dag state |>
        <| d_ordering_version := DAG_ORDERING_VERSION |>
        <| d_ordered_dag_tip := last (derive_ordered_dag state) |> |>.

Definition ordered_dag_tip (state : ChainState) : option Hash := last (d_ordered_dag (cs_dag state)).

(** ** The emission loop *)

(** The accumulator of [push_once]: what was emitted, without repetition. *)
Definition emitted (state : ChainState) (acc : gset Hash * list Hash) : Prop :=
  acc.1 = list_to_set acc.2 /\ NoDup acc.2 /\
  Forall (fun h => is_Some (d_blocks (cs_dag state) !! h)) acc.2.

Lemma push_once_emitted state acc h : emitted state acc -> emitted state (push_once state acc h).
Proof.
  destruct acc as [seen ordered]. intros (Hs & Hnd & Hall). unfold push_once. simpl in *.
  case_match eqn:Hc; [|done]. bool_props. subst seen. rewrite elem_of_list_to_set in *.
  split; [|split]; simpl.
  - set_solver.
  - apply NoDup_app. split; [done|]. split; [set_solver|apply NoDup_singleton].
  - apply Forall_app. by repeat constructor.
Qed.

Lemma push_fold_emitted state acc l :
  emitted state acc ->
  emitted state (foldl (push_once state) acc l) /\
  (exists suffix, (foldl (push_once state) acc l).2 = acc.2 ++ suffix) /\
  (forall h, h ∈ l -> is_Some (d_blocks (cs_dag state) !! h) ->
     h ∈ (foldl (push_once state) acc l).2).
Proof.
  revert acc. induction l as [|x l IH]; intros acc Hacc; simpl.
  { split; [done|]. split; [exists []; by rewrite app_nil_r|set_solver]. }
  destruct (IH _ (push_once_emitted state acc x Hacc)) as (He & (suf & Hsuf) & Hin).
  assert (Hx : exists s1, (push_once state acc x).2 = acc.2 ++ s1).
  { destruct acc as [seen ordered]. simpl. case_match; eexists; [reflexivity|by rewrite app_nil_r]. }
  split; [done|]. split.
  - destruct Hx as [s1 Hs1]. exists (s1 ++ suf). by rewrite Hsuf, Hs1, app_assoc.
  - intros h [->|Hh]%elem_of_cons Hst; [|by apply Hin].
    rewrite Hsuf. apply elem_of_app. left. destruct acc as [seen ordered].
    destruct Hacc as (Hseen & _). clear -Hseen Hst. simpl in *. subst seen.
    rewrite bool_decide_eq_true_2 by done. simpl.
    case_bool_decide as Hc; simpl;
      [by rewrite elem_of_list_to_set in Hc|set_solver].
Qed.

Lemma push_merge_fold_emitted state acc l :
  emitted state acc ->
  emitted state (foldl (push_merge_set state) acc l) /\
  (exists suffix, (foldl (push_merge_set state) acc l).2 = acc.2 ++ suffix).
Proof.
  revert acc. induction l as [|x l IH]; intros acc Hacc; simpl.
  { split; [done|]. exists []; by rewrite app_nil_r. }
  unfold push_merge_set at 2 4.
  destruct (push_fold_emitted state acc
    (sorted_existing (default [] (d_merge_set_blues (cs_dag state) !! x)) state) Hacc)
    as (H1 & (s1 & E1) & _).
  destruct (push_fold_emitted state _
    (sorted_existing (default [] (d_merge_set_reds (cs_dag state) !! x)) state) H1)
    as (H2 & (s2 & E2) & _).
  destruct (IH _ H2) as (H3 & s3 & E3). split; [done|].
  exists (s1 ++ s2 ++ s3). rewrite E3, E2, E1. by rewrite !app_assoc.
Qed.

Lemma elem_of_dedup h l : h ∈ dedup l <-> h ∈ l.
Proof.
  induction l as [|x [|y l] IH]; [done..|].
  change (dedup (x :: y :: l)) with (if decide (x = y) then dedup (y :: l) else x :: dedup (y :: l)).
  case_decide; [subst|]; set_solver.
Qed.
Lemma elem_of_sorted_existing h l state : h ∈ sorted_existing l state <-> h ∈ l.
Proof. unfold sorted_existing. by rewrite elem_of_dedup, isort_elem_of. Qed.

(** ** Independence of the iteration order *)

#[global] Instance compare_order_blocks_pre : CmpPre compare_order_blocks.
Proof. unfold compare_order_blocks. solve_cmp_pre. Qed.
Lemma compare_order_blocks_Eq a b : compare_order_blocks a b = Eq -> b_hash a = b_hash b.
Proof.
  unfold compare_order_blocks. rewrite !then_with_Eq. intros (_ & _ & _ & Heq).
  by apply (cmp_eq (cmp:=String.compare)).
Qed.

(** A total stand-in for [compare_existing], equal to it on stored hashes. *)
Definition block_at (state : ChainState) (h : Hash) : Block :=
  default (mkBlock h (mkBlockHeader 0 [] 0 0 0 h h 0 0) []) (d_blocks (cs_dag state) !! h).

Lemma sorted_existing_perm state l1 l2 :
  keyed_blocks state -> Forall (fun h => is_Some (d_blocks (cs_dag state) !! h)) l1 ->
  l1 ≡ₚ l2 -> sorted_existing l1 state = sorted_existing l2 state.
Proof.
  intros Hk Hst Hp. unfold sorted_existing. f_equal. rewrite Forall_forall in Hst.
  set (cmp := fun a b => compare_order_blocks (block_at state a) (block_at state b)).
  assert (CmpPre cmp) by (apply (cmp_pre_comap (block_at state)); apply _).
  assert (Hext : forall l, l ≡ₚ l1 ->
    isort (cmp_le (compare_existing state)) l = isort (cmp_le cmp) l).
  { intros l Hl. apply isort_ext_on. intros x y. rewrite Hl. intros [bx Hx]%Hst [by' Hy]%Hst.
    unfold cmp_le, cmp, compare_existing, block_at. by rewrite Hx, Hy. }
  rewrite (Hext l1), (Hext l2) by done.
  apply isort_perm_on; [apply _..| |done].
  intros x y Hx Hy L1 L2. apply Hst in Hx as [bx Hx]. apply Hst in Hy as [by' Hy].
  pose proof (cmp_le_anti cmp x y L1 L2) as Heq. unfold cmp, block_at in Heq.
  rewrite Hx, Hy in Heq. simpl in Heq. apply compare_order_blocks_Eq in Heq.
  by rewrite <- (Hk x bx Hx), <- (Hk y by' Hy).
Qed.

Lemma push_fold_chain state l pre :
  NoDup (pre ++ l) -> Forall (fun h => is_Some (d_blocks (cs_dag state) !! h)) (pre ++ l) ->
  (foldl (push_once state) (list_to_set pre, pre) l).2 = pre ++ l.
Proof.
  revert pre. induction l as [|x l IH]; intros pre Hnd Hst; simpl; [by rewrite app_nil_r|].
  apply Forall_app in Hst as Hst'. destruct Hst' as [_ [Hx _]%Forall_cons].
  rewrite (bool_decide_eq_true_2 _ Hx). rewrite bool_decide_eq_false_2.
  2: { rewrite elem_of_list_to_set. intros Hc. apply NoDup_app in Hnd as (_ & Hd & _).
       apply (Hd x Hc). left. }
  simpl. replace ({[x]} ∪ list_to_set pre) with (list_to_set (pre ++ [x]) : gset Hash) by set_solver.
  rewrite (cons_middle x pre l), app_assoc in *. by rewrite IH.
Qed.

Lemma elem_of_map_keys `{HashOrder} {V} (m : gmap Hash V) h :
  h ∈ map fst (map_iter m) <-> is_Some (m !! h).
Proof.
  rewrite list_elem_of_fmap. split.
  - intros ([h' b] & -> & Hb%elem_of_map_iter). by exists b.
  - intros [b Hb]. exists (h, b). by rewrite elem_of_map_iter.
Qed.

(** C14: the ordered DAG lists every stored block exactly once and nothing else,
    begins with the selected chain, and is the same for every iteration order of
    the block map. *)
Theorem derive_ordered_dag_spec (o1 o2 : HashOrder) state :
  keyed_blocks state -> NoDup (d_selected_chain (cs_dag state)) ->
  Forall (fun h => is_Some (d_blocks (cs_dag state) !! h)) (d_selected_chain (cs_dag state)) ->
  @derive_ordered_dag o1 state = @derive_ordered_dag o2 state /\
  NoDup (@derive_ordered_dag o1 state) /\
  (forall h, h ∈ @derive_ordered_dag o1 state <-> is_Some (d_blocks (cs_dag state) !! h)) /\
  exists rest, @derive_ordered_dag o1 state = d_selected_chain (cs_dag state) ++ rest.
Proof.
  intros Hk Hnd Hst. unfold derive_ordered_dag.
  set (keys1 := map fst (@map_iter o1 _ _ _ _ (d_blocks (cs_dag state)))).
  set (keys2 := map fst (@map_iter o2 _ _ _ _ (d_blocks (cs_dag state)))).
  rewrite (sorted_existing_perm state keys2 keys1).
  2: done. 2: { apply Forall_forall. intros h. unfold keys2. by rewrite elem_of_map_keys. }
  2: { unfold keys1, keys2. by rewrite !map_iter_perm. }
  set (acc1 := foldl (push_once state) (∅, []) (d_selected_chain (cs_dag state))).
  assert (H0 : emitted state (∅, [])) by (repeat split; constructor).
  destruct (push_fold_emitted state (∅, []) (d_selected_chain (cs_dag state)) H0) as (H1 & _ & _).
  destruct (push_merge_fold_emitted state acc1 (d_selected_chain (cs_dag state)) H1) as (H2 & s2 & E2).
  destruct (push_fold_emitted state _ (sorted_existing keys1 state) H2) as (H3 & (s3 & E3) & Hin).
  destruct (foldl (push_once state) (foldl (push_merge_set state) acc1 _) _) as [seen ordered].
  destruct H3 as (_ & Hnd3 & Hall3). simpl in *. split; [done|]. split; [done|]. split.
  - intros h. split; [by apply (proj1 (Forall_forall _ _) Hall3)|].
    intros Hh. apply Hin; [|done]. rewrite elem_of_sorted_existing. unfold keys1. by rewrite elem_of_map_keys.
  - exists (s2 ++ s3). rewrite E3, E2, <- app_assoc. f_equal. clear -Hnd Hst.
    exact (push_fold_chain state (d_selected_chain (cs_dag state)) [] Hnd Hst).
Qed.

Lemma derive_ordered_dag_spec_witness :
  let state := diamond <| cs_dag ::= fun d => d <| d_selected_chain := ["g"; "a"; "c"] |> |> in
  @derive_ordered_dag list_order state = ["g"; "a"; "c"; "b"] /\
  NoDup (@derive_ordered_dag list_order state).
Proof.
  intros state. split; [by_compute|]. apply (derive_ordered_dag_spec list_order list_order state).
  - unfold keyed_blocks. by_decide.
  - by_decide.
  - by_decide.
Defined.
