(* ===== verification/OrderingV2.v ===== *)
(** * Authoritative DAG order, rule v2 ([ordering_v2.rs])

    Every accepted block is on the selected chain or classified once by a
    selected-chain anchor; among the blocks whose parents are all placed, the one
    with the least [ReadyKey] comes next.  The theorems: the result is exactly
    that greedy topological order, whatever the order of the hash maps, and
    [TopologyCycle] is reported only for a DAG in which every remaining block has
    a remaining parent.

    A [BTreeMap] is a [gmap], a [BTreeSet] of keys a [gset] whose first element is
    the least under the derived order of the key. *)

From S2P Require Import Prelude Encoding Crypto Types State.

Definition GHOSTDAG_V1_ORDERING_VERSION : string := "ghostdag-v1-topological-v1".
Definition ORDERING_DIGEST_DOMAIN : bytes := str_bytes "PulseDAG:ghostdag-v1-ordering:v1".

Inductive OrderingV2Error :=
| DuplicateSelectedChainBlock (hash : Hash)
| MissingSelectedChainBlock (hash : Hash)
| MissingSelectedParentMetadata (hash : Hash)
| SelectedChainParentMismatch (hash : Hash) (expected_parent observed_parent : option Hash)
| MissingClassificationMetadata (anchor : Hash)
| ClassificationReferencesMissingBlock (anchor hash : Hash)
| ClassificationReferencesSelectedChainBlock (anchor hash : Hash)
| DuplicateClassification (hash first_anchor second_anchor : Hash)
| BlueRedOverlap (anchor hash : Hash)
| UnclassifiedBlock (hash : Hash)
| MissingParent (block parent : Hash)
| MissingBlueWork (hash : Hash)
| TopologyCycle (remaining : list Hash).

(** [None] is a panic. *)
Abbreviation ordering := (result (option OrderingV2Error)).
Definition stops {A} (e : OrderingV2Error) : ordering A := Err (Some e).
Definition or_stop {A} (o : option A) (e : OrderingV2Error) : ordering A := ok_or o (Some e).

Inductive OrderingClass := Blue | Red | SelectedChain.
Definition class_index (c : OrderingClass) : Z :=
  match c with Blue => 0 | Red => 1 | SelectedChain => 2 end.
#[global] Instance OrderingClass_eq_dec : EqDecision OrderingClass.
Proof. solve_decision. Defined.

Record OrderedDagV2 := mkOrderedDagV2 {
  od_ordering_version : string;
  od_blocks : list Hash;
  od_digest : string;
}.

(** ** Ready keys *)

Record ReadyKey := mkReadyKey {
  rk_anchor : Z;
  rk_class : Z;
  rk_blue_work : Z;
  rk_blue_score : Z;
  rk_height : Z;
  rk_hash : Hash;
}.
#[global] Instance ReadyKey_eq_dec : EqDecision ReadyKey.
Proof. solve_decision. Defined.
#[global] Instance ReadyKey_countable : Countable ReadyKey.
Proof.
  refine (inj_countable'
    (fun k => (rk_anchor k, rk_class k, rk_blue_work k, rk_blue_score k, rk_height k, rk_hash k))
    (fun '(a, c, w, s, h, x) => mkReadyKey a c w s h x) _). by intros [].
Defined.
(** The derived order of the tuple; three components are [Reverse]d. *)
Definition compare_ready (a b : ReadyKey) : comparison :=
  then_with (rk_anchor a ?= rk_anchor b)
  (then_with (rk_class a ?= rk_class b)
  (then_with (rk_blue_work b ?= rk_blue_work a)
  (then_with (rk_blue_score b ?= rk_blue_score a)
  (then_with (rk_height b ?= rk_height a)
             (String.compare (rk_hash a) (rk_hash b)))))).
#[global] Instance compare_ready_order : CmpOrder compare_ready.
Proof.
  split; [unfold compare_ready; solve_cmp_pre|].
  intros [] []. unfold compare_ready. simpl. rewrite !then_with_Eq, !Z.compare_eq_iff.
  intros (-> & -> & -> & -> & -> & ?%(cmp_eq (cmp:=String.compare))). by subst.
Qed.

(** [ready.pop_first()]. *)
Definition pop_ready (ready : gset ReadyKey) : option (ReadyKey * gset ReadyKey) :=
  match isort (cmp_le compare_ready) (elements ready) with
  | [] => None
  | k :: _ => Some (k, ready ∖ {[k]})
  end.

Abbreviation priorities_map := (gmap Hash (Z * OrderingClass)) (only parsing).

Definition ready_key (hash : Hash) (state : ChainState) (priorities : priorities_map)
  : ordering ReadyKey :=
  let? block := or_stop (d_blocks (cs_dag state) !! hash) (MissingSelectedChainBlock hash) in
  let? blue_work := or_stop (d_blue_work (cs_dag state) !! hash) (MissingBlueWork hash) in
  let? (anchor_index, class) := or_stop (priorities !! hash) (UnclassifiedBlock hash) in
  Ok (mkReadyKey anchor_index (class_index class) blue_work (h_blue_score (b_header block))
        (h_height (b_header block)) hash).

(** ** Priorities *)

(** The first element that occurs before. *)
Fixpoint first_duplicate (seen : gset Hash) (l : list Hash) : option Hash :=
  match l with
  | [] => None
  | h :: l' => if bool_decide (h ∈ seen) then Some h else first_duplicate ({[h]} ∪ seen) l'
  end.

(** [for (index, hash) in selected_chain.iter().enumerate()]; [previous] is
    [selected_chain[index - 1]]. *)
Fixpoint place_selected_chain (state : ChainState) (index : Z) (previous : option Hash)
  (chain : list Hash) (priorities : priorities_map) : ordering priorities_map :=
  match chain with
  | [] => Ok priorities
  | hash :: chain' =>
      if bool_decide (d_blocks (cs_dag state) !! hash = None)
      then stops (MissingSelectedChainBlock hash) else
      let? observed_parent :=
        or_stop (d_selected_parents (cs_dag state) !! hash) (MissingSelectedParentMetadata hash) in
      if bool_decide (observed_parent <> previous)
      then stops (SelectedChainParentMismatch hash previous observed_parent) else
      place_selected_chain state (index + 1) (Some hash) chain'
        (<[hash := (index, SelectedChain)]> priorities)
  end.

(** The state of the classification loops. *)
Record ClassifyState := mkClassifyState {
  cl_priorities : priorities_map;
  cl_classified_by : gmap Hash Hash;
  cl_local_seen : gset Hash;
}.
Definition classify_hash (state : ChainState) (selected_set red_set : gset Hash) (index : Z)
  (anchor : Hash) (class : OrderingClass) (s : ClassifyState) (hash : Hash) : ordering ClassifyState :=
  if bool_decide (hash ∈ cl_local_seen s)
  then stops (DuplicateClassification hash (default anchor (cl_classified_by s !! hash)) anchor)
  else if bool_decide (class = Blue) && bool_decide (hash ∈ red_set)
  then stops (BlueRedOverlap anchor hash)
  else if bool_decide (d_blocks (cs_dag state) !! hash = None)
  then stops (ClassificationReferencesMissingBlock anchor hash)
  else if bool_decide (hash ∈ selected_set)
  then stops (ClassificationReferencesSelectedChainBlock anchor hash)
  else
    match cl_classified_by s !! hash with
    | Some first_anchor => stops (DuplicateClassification hash first_anchor anchor)
    | None =>
        Ok (mkClassifyState (<[hash := (index, class)]> (cl_priorities s))
              (<[hash := anchor]> (cl_classified_by s)) ({[hash]} ∪ cl_local_seen s))
    end.
(** One class of one anchor: [local_seen] starts empty. *)
Definition classify_class (state : ChainState) (selected_set red_set : gset Hash) (index : Z)
  (anchor : Hash) (s : ClassifyState) (p : OrderingClass * list Hash) : ordering ClassifyState :=
  try_fold (classify_hash state selected_set red_set index anchor p.1)
    (mkClassifyState (cl_priorities s) (cl_classified_by s) ∅) p.2.
Fixpoint classify_anchors (state : ChainState) (selected_set : gset Hash) (index : Z)
  (chain : list Hash) (s : ClassifyState) : ordering ClassifyState :=
  match chain with
  | [] => Ok s
  | anchor :: chain' =>
      let? blues := or_stop (d_merge_set_blues (cs_dag state) !! anchor)
                      (MissingClassificationMetadata anchor) in
      let? reds := or_stop (d_merge_set_reds (cs_dag state) !! anchor)
                     (MissingClassificationMetadata anchor) in
      let red_set := list_to_set reds in
      let? s := try_fold (classify_class state selected_set red_set index anchor) s
                  [(Blue, blues); (Red, reds)] in
      classify_anchors state selected_set (index + 1) chain' s
  end.

Section ordering_v2.
Context `{HashOrder}.

Definition build_priorities (state : ChainState) : ordering priorities_map :=
  let chain := d_selected_chain (cs_dag state) in
  let selected_set : gset Hash := list_to_set chain in
  if bool_decide (size selected_set <> length chain)
  then stops (DuplicateSelectedChainBlock (default "" (first_duplicate ∅ chain))) else
  let? priorities := place_selected_chain state 0 None chain ∅ in
  let? s := classify_anchors state selected_set 0 chain (mkClassifyState priorities ∅ ∅) in
  let? _ := try_fold (fun (_ : unit) (p : Hash * Block) =>
              if bool_decide (cl_priorities s !! p.1 = None) then stops (UnclassifiedBlock p.1)
              else Ok ()) () (map_iter (d_blocks (cs_dag state))) in
  Ok (cl_priorities s).

(** ** Topological order *)

(** [indegree] and [children]. *)
Record EdgeMaps := mkEdgeMaps {
  em_indegree : gmap Hash Z;
  em_children : gmap Hash (gset Hash);
}.
(** The parent loop of one block; [parent_set] is the set of parents seen. *)
Fixpoint add_parents (state : ChainState) (exempt : bool) (hash : Hash) (parent_set : gset Hash)
  (parents : list Hash) (e : EdgeMaps) : ordering EdgeMaps :=
  match parents with
  | [] => Ok e
  | parent :: parents' =>
      if bool_decide (parent ∈ parent_set) then add_parents state exempt hash parent_set parents' e else
      let parent_set := {[parent]} ∪ parent_set in
      if bool_decide (d_blocks (cs_dag state) !! parent = None) then
        if exempt then add_parents state exempt hash parent_set parents' e
        else stops (MissingParent hash parent)
      else
        add_parents state exempt hash parent_set parents'
          (mkEdgeMaps (<[hash := default 0 (em_indegree e !! hash) + 1]> (em_indegree e))
             (<[parent := {[hash]} ∪ default ∅ (em_children e !! parent)]> (em_children e)))
  end.
Definition add_block (state : ChainState) (pruned : bool) (retained_floor : Z) (e : EdgeMaps)
  (p : Hash * Block) : ordering EdgeMaps :=
  let indegree := match em_indegree e !! p.1 with
                  | Some _ => em_indegree e
                  | None => <[p.1 := 0]> (em_indegree e)
                  end in
  add_parents state (pruned && (h_height (b_header p.2) =? retained_floor)) p.1 ∅
    (h_parents (b_header p.2)) (mkEdgeMaps indegree (em_children e)).

Definition retained_floor (state : ChainState) : Z :=
  match map (fun p : Hash * Block => h_height (b_header p.2)) (map_iter (d_blocks (cs_dag state))) with
  | [] => 0
  | x :: l => foldl Z.min x l
  end.
Definition compact_pruned_checkpoint (state : ChainState) : bool :=
  negb (bool_decide (d_blocks (cs_dag state) = ∅)) && (0 <? retained_floor state)
  && bool_decide (d_blocks (cs_dag state) !! d_genesis_hash (cs_dag state) = None).

(** A [BTreeMap] iterates in key order. *)
Definition btree_keys_sorted {V} (m : gmap Hash V) : list Hash := btree_iter (dom m).

Definition initial_ready (state : ChainState) (priorities : priorities_map) (indegree : gmap Hash Z)
  : ordering (gset ReadyKey) :=
  try_fold (fun ready hash =>
      if bool_decide (indegree !! hash = Some 0)
      then let? k := ready_key hash state priorities in Ok ({[k]} ∪ ready)
      else Ok ready)
    ∅ (btree_keys_sorted indegree).

(** The child loop after a block is placed. *)
Definition release_child (state : ChainState) (priorities : priorities_map)
  (s : gmap Hash Z * gset ReadyKey) (child : Hash) : ordering (gmap Hash Z * gset ReadyKey) :=
  let? degree := ok_or (s.1 !! child) None in
  let degree := saturating_sub degree 1 in
  let indegree := <[child := degree]> s.1 in
  if degree =? 0
  then let? k := ready_key child state priorities in Ok (indegree, {[k]} ∪ s.2)
  else Ok (indegree, s.2).
(** [while let Some(key) = ready.pop_first()]; [None] is running out of fuel. *)
Fixpoint order_loop (state : ChainState) (priorities : priorities_map)
  (children : gmap Hash (gset Hash)) (fuel : nat) (indegree : gmap Hash Z) (ready : gset ReadyKey)
  (ordered : list Hash) : option (ordering (list Hash)) :=
  match fuel with
  | O => None
  | S fuel' =>
      match pop_ready ready with
      | None => Some (Ok ordered)
      | Some (key, ready) =>
          let hash := rk_hash key in
          match try_fold (release_child state priorities) (indegree, ready)
                  (btree_iter (default ∅ (children !! hash))) with
          | Ok (indegree, ready) =>
              order_loop state priorities children fuel' indegree ready (ordered ++ [hash])
          | Err e => Some (Err e)
          end
      end
  end.
(** One round per block, and one to leave the loop. *)
Definition order_fuel (state : ChainState) : nat := S (size (d_blocks (cs_dag state))).
End ordering_v2.

Section digest.
Context `{HashOrder, Crypto}.

Definition hash_framed (h : Hash) : bytes :=
  le_bytes 4 (Z.of_nat (length (str_bytes h))) ++ str_bytes h.
Definition ordering_digest (order : list Hash) : string :=
  hex_encode (sha256 (ORDERING_DIGEST_DOMAIN ++ hash_framed GHOSTDAG_V1_ORDERING_VERSION
    ++ le_bytes 8 (Z.of_nat (length order)) ++ flat_map hash_framed order)).

Definition derive_ordered_dag_v2 (state : ChainState) : ordering OrderedDagV2 :=
  let? priorities := build_priorities state in
  let? edges := try_fold (add_block state (compact_pruned_checkpoint state) (retained_floor state))
                  (mkEdgeMaps ∅ ∅) (map_iter (d_blocks (cs_dag state))) in
  let? ready := initial_ready state priorities (em_indegree edges) in
  let? ordered := default (Err None)
    (order_loop state priorities (em_children edges) (order_fuel state) (em_indegree edges) ready []) in
  if bool_decide (length ordered <> size (d_blocks (cs_dag state)))
  then stops (TopologyCycle
         (filter (fun h => h ∉ ordered) (map fst (map_iter (d_blocks (cs_dag state))))))
  else Ok (mkOrderedDagV2 GHOSTDAG_V1_ORDERING_VERSION ordered (ordering_digest ordered)).
End digest.
