(* ===== verification/SelectionV2.v ===== *)
(** * Selected parent, tip and chain, rule v2 ([selection_v2.rs])

    The selected parent of a block and the selected tip by cumulative blue work,
    and the selected chain followed back from a tip.  Unlike [selection.rs], a
    missing block or score is an error, not a candidate left out.

    The lemmas: what each operation returns on success, that it succeeds when the
    metadata is complete, and that the chain is the one of [selection.rs]. *)

From S2P Require Import Prelude Types State Selection.

Definition GHOSTDAG_V1_MAX_PARENTS : Z := 64.

Inductive SelectionV2Error :=
| TooManyParents (observed max : Z)
| DuplicateParent (hash : Hash)
| MissingParent (hash : Hash)
| MissingParentBlueWork (hash : Hash)
| MissingTipBlock (hash : Hash)
| MissingTipBlueWork (hash : Hash)
| MissingSelectedParentMetadata (hash : Hash)
| SelectedParentCycle (hash : Hash).

Record SelectionScoreV1 := mkSelectionScoreV1 {
  ss_blue_work : Z;
  ss_blue_score : Z;
  ss_height : Z;
  ss_hash : Hash;
}.
#[global] Instance SelectionScoreV1_eq_dec : EqDecision SelectionScoreV1.
Proof. solve_decision. Defined.

Definition score_for_known_block (hash : Hash) (block : Block) (state : ChainState)
  (missing_work : Hash -> SelectionV2Error) : result SelectionV2Error SelectionScoreV1 :=
  let? blue_work := ok_or (d_blue_work (cs_dag state) !! hash) (missing_work hash) in
  Ok (mkSelectionScoreV1 blue_work (h_blue_score (b_header block)) (h_height (b_header block)) hash).

Definition compare_selection_scores_v1 (a b : SelectionScoreV1) : comparison :=
  then_with (ss_blue_work a ?= ss_blue_work b)
  (then_with (ss_blue_score a ?= ss_blue_score b)
  (then_with (ss_height a ?= ss_height b)
             (String.compare (ss_hash b) (ss_hash a)))).

(** One parent of the loop: [seen] and [scores]. *)
Definition score_parent (state : ChainState) (s : gset Hash * list SelectionScoreV1) (parent : Hash)
  : result SelectionV2Error (gset Hash * list SelectionScoreV1) :=
  if bool_decide (parent ∈ s.1) then Err (DuplicateParent parent) else
  let? parent_block := ok_or (d_blocks (cs_dag state) !! parent) (MissingParent parent) in
  let? score := score_for_known_block parent parent_block state MissingParentBlueWork in
  Ok ({[parent]} ∪ s.1, s.2 ++ [score]).
Definition calculate_selected_parent_v1 (block : Block) (state : ChainState)
  : result SelectionV2Error (option Hash) :=
  let parents := h_parents (b_header block) in
  if GHOSTDAG_V1_MAX_PARENTS <? Z.of_nat (length parents)
  then Err (TooManyParents (Z.of_nat (length parents)) GHOSTDAG_V1_MAX_PARENTS) else
  let? s := try_fold (score_parent state) (∅, []) parents in
  Ok (ss_hash <$> max_by compare_selection_scores_v1 s.2).

Definition calculate_selected_tip_v1 `{HashOrder} (state : ChainState)
  : result SelectionV2Error (option Hash) :=
  let tip_hashes := isort String.le (set_iter (d_tips (cs_dag state))) in
  let? scores := try_fold (fun scores hash =>
      let? block := ok_or (d_blocks (cs_dag state) !! hash) (MissingTipBlock hash) in
      let? score := score_for_known_block hash block state MissingTipBlueWork in
      Ok (scores ++ [score])) [] tip_hashes in
  Ok (ss_hash <$> max_by compare_selection_scores_v1 scores).

(** The loop of [rebuild_selected_chain_v1]; [None] is running out of fuel. *)
Fixpoint chain_v1_loop (state : ChainState) (fuel : nat) (cursor : option Hash) (seen : gset Hash)
  (reversed : list Hash) : option (result SelectionV2Error (list Hash)) :=
  match fuel with
  | O => None
  | S fuel' =>
      match cursor with
      | None => Some (Ok reversed)
      | Some hash =>
          if bool_decide (hash ∈ seen) then Some (Err (SelectedParentCycle hash)) else
          if bool_decide (d_blocks (cs_dag state) !! hash = None)
          then Some (Err (MissingTipBlock hash)) else
          match d_selected_parents (cs_dag state) !! hash with
          | None => Some (Err (MissingSelectedParentMetadata hash))
          | Some cursor => chain_v1_loop state fuel' cursor ({[hash]} ∪ seen) (reversed ++ [hash])
          end
      end
  end.
(** [None] is running out of fuel. *)
Definition rebuild_selected_chain_v1 (state : ChainState) (selected_tip : option Hash)
  : option (result SelectionV2Error (list Hash)) :=
  match chain_v1_loop state (chain_fuel state) selected_tip ∅ [] with
  | Some (Ok reversed) => Some (Ok (reverse reversed))
  | r => r
  end.

(** ** Scores *)

(** The score of a stored block with blue work. *)
Definition score_of (state : ChainState) (h : Hash) : option SelectionScoreV1 :=
  match d_blocks (cs_dag state) !! h, d_blue_work (cs_dag state) !! h with
  | Some b, Some w => Some (mkSelectionScoreV1 w (h_blue_score (b_header b)) (h_height (b_header b)) h)
  | _, _ => None
  end.

#[global] Instance compare_selection_scores_order : CmpOrder compare_selection_scores_v1.
Proof.
  split; [unfold compare_selection_scores_v1; solve_cmp_pre|].
  intros [] []. unfold compare_selection_scores_v1. simpl. rewrite !then_with_Eq, !Z.compare_eq_iff.
  intros (-> & -> & -> & E%(cmp_eq (cmp:=String.compare))). by subst.
Qed.

Lemma score_of_hash state h s : score_of state h = Some s -> ss_hash s = h.
Proof. unfold score_of. repeat case_match; naive_solver. Qed.
Lemma score_of_Some state h s :
  score_of state h = Some s <->
  exists b w, d_blocks (cs_dag state) !! h = Some b /\ d_blue_work (cs_dag state) !! h = Some w /\
    s = mkSelectionScoreV1 w (h_blue_score (b_header b)) (h_height (b_header b)) h.
Proof. unfold score_of. repeat case_match; naive_solver. Qed.

(** [best] has the greatest score among [l], all of whose elements have one. *)
Definition best_scored (state : ChainState) (l : list Hash) (best : Hash) : Prop :=
  best ∈ l /\ exists sb, score_of state best = Some sb /\
  forall h, h ∈ l -> exists s, score_of state h = Some s /\ compare_selection_scores_v1 s sb <> Gt.

Lemma best_scored_unique state l l' a b :
  (forall h, h ∈ l <-> h ∈ l') -> best_scored state l a -> best_scored state l' b -> a = b.
Proof.
  intros Hl (Ha & sa & Hsa & Hma) (Hb & sb & Hsb & Hmb).
  destruct (Hma b) as (s1 & Hs1 & L1); [by apply Hl|]. destruct (Hmb a) as (s2 & Hs2 & L2); [by apply Hl|].
  simplify_eq. rewrite <- (score_of_hash _ _ _ Hsa), <- (score_of_hash _ _ _ Hsb). f_equal.
  apply (cmp_eq (cmp:=compare_selection_scores_v1)). by apply cmp_le_anti; [apply _|..].
Qed.

Lemma max_scored state l scores :
  mapM (score_of state) l = Some scores ->
  match ss_hash <$> max_by compare_selection_scores_v1 scores with
  | Some best => best_scored state l best
  | None => l = []
  end.
Proof.
  intros Hm. destruct (max_by _ scores) as [m|] eqn:E; simpl.
  - apply max_by_spec in E as [Hin Hall]; [|apply _]. rewrite Forall_forall in Hall.
    apply mapM_Some_1 in Hm.
    assert (Hfor : forall h, h ∈ l -> exists s, score_of state h = Some s /\ s ∈ scores).
    { intros h [i Hi]%list_elem_of_lookup. destruct (Forall2_lookup_l _ _ _ _ _ Hm Hi) as (s & Hs & ?).
      exists s. split; [done|]. by eapply list_elem_of_lookup_2. }
    apply list_elem_of_lookup in Hin as [i Hi].
    destruct (Forall2_lookup_r _ _ _ _ _ Hm Hi) as (h & Hh & Hs).
    rewrite (score_of_hash _ _ _ Hs). split; [by eapply list_elem_of_lookup_2|].
    exists m. split; [done|]. intros h' Hh'. destruct (Hfor h' Hh') as (s' & Hs' & Hin').
    exists s'. split; [done|]. by apply Hall.
  - destruct scores; [|done]. apply mapM_Some_1 in Hm. by inversion Hm.
Qed.

(** ** The selected parent *)

Lemma score_parents_spec state parents seen scores :
  match try_fold (score_parent state) (seen, scores) parents with
  | Ok s => NoDup parents /\ (forall h, h ∈ parents -> h ∉ seen) /\
      exists new, mapM (score_of state) parents = Some new /\ s.2 = scores ++ new
  | Err (DuplicateParent h) => h ∈ parents /\ (~ NoDup parents \/ h ∈ seen)
  | Err (MissingParent h) => h ∈ parents /\ d_blocks (cs_dag state) !! h = None
  | Err (MissingParentBlueWork h) => h ∈ parents /\ d_blue_work (cs_dag state) !! h = None
  | Err _ => False
  end.
Proof.
  revert seen scores. induction parents as [|p parents IH]; intros seen scores; simpl.
  { split; [constructor|]. split; [set_solver|]. exists []. by rewrite app_nil_r. }
  unfold score_parent at 1. simpl. case_bool_decide as Hin; [split; [left|by right]|].
  destruct (d_blocks (cs_dag state) !! p) as [b|] eqn:Hb; simpl; [|split; [left|done]].
  unfold score_for_known_block. destruct (d_blue_work (cs_dag state) !! p) as [w|] eqn:Hw; simpl;
    [|split; [left|done]].
  specialize (IH ({[p]} ∪ seen) (scores ++ [mkSelectionScoreV1 w (h_blue_score (b_header b))
    (h_height (b_header b)) p])).
  destruct (try_fold _ _ parents) as [s|e].
  - destruct IH as (Hnd & Hns & new & Hm & Hs). split; [|split].
    + constructor; [|done]. intros Hp. apply Hns in Hp. set_solver.
    + intros h [->|Hh]%elem_of_cons; [done|]. apply Hns in Hh. set_solver.
    + assert (Hsc : score_of state p = Some (mkSelectionScoreV1 w (h_blue_score (b_header b))
        (h_height (b_header b)) p)) by (unfold score_of; by rewrite Hb, Hw).
      rewrite Hsc. simpl. rewrite Hm. simpl. eexists. split; [done|]. by rewrite Hs, <- app_assoc.
  - destruct e; try done; (destruct IH as [Hh Hr]; split; [by right|]).
    + destruct Hr as [Hr|Hr]; [left; by rewrite NoDup_cons; intros [_ ?]|].
      apply elem_of_union in Hr as [->%elem_of_singleton|Hr]; [left|by right].
      rewrite NoDup_cons. by intros [? _].
    + done.
    + done.
Qed.

(** The success condition of the selected parent. *)
Definition selectable (state : ChainState) (parents : list Hash) : Prop :=
  Z.of_nat (length parents) <= GHOSTDAG_V1_MAX_PARENTS /\ NoDup parents /\
  Forall (fun p => is_Some (score_of state p)) parents.

Lemma calculate_selected_parent_v1_ok block state :
  selectable state (h_parents (b_header block)) <->
  exists r, calculate_selected_parent_v1 block state = Ok r.
Proof.
  unfold calculate_selected_parent_v1, selectable.
  pose proof (score_parents_spec state (h_parents (b_header block)) ∅ []) as Hs.
  destruct (GHOSTDAG_V1_MAX_PARENTS <? _) eqn:Hlen; bool_props.
  { split; [intros [? _]; lia|naive_solver]. }
  destruct (try_fold _ _ _) as [s|e].
  - destruct Hs as (Hnd & _ & new & Hm & _). split; [eauto|]. intros _. split; [done|]. split; [done|].
    apply Forall_forall. intros p [i Hi]%list_elem_of_lookup. apply mapM_Some_1 in Hm.
    destruct (Forall2_lookup_l _ _ _ _ _ Hm Hi) as (sc & _ & ?). by exists sc.
  - split; [|naive_solver]. intros (_ & Hnd & Hall). rewrite Forall_forall in Hall. exfalso.
    destruct e; try done; destruct Hs as [Hh Hr].
    + destruct Hr; [done|set_solver].
    + destruct (Hall _ Hh) as [sc Hsc]. unfold score_of in Hsc. by rewrite Hr in Hsc.
    + destruct (Hall _ Hh) as [sc Hsc]. unfold score_of in Hsc. rewrite Hr in Hsc. by repeat case_match.
Qed.

Lemma calculate_selected_parent_v1_spec block state r :
  calculate_selected_parent_v1 block state = Ok r ->
  match r with
  | Some best => best_scored state (h_parents (b_header block)) best
  | None => h_parents (b_header block) = []
  end.
Proof.
  unfold calculate_selected_parent_v1.
  pose proof (score_parents_spec state (h_parents (b_header block)) ∅ []) as Hs.
  destruct (GHOSTDAG_V1_MAX_PARENTS <? _); [by intros [=]|].
  destruct (try_fold _ _ _) as [s|]; [|by intros [=]]. intros [= <-].
  destruct Hs as (_ & _ & new & Hm & ->). simpl. by apply max_scored.
Qed.

Lemma calculate_selected_parent_v1_perm b1 b2 state r :
  h_parents (b_header b1) ≡ₚ h_parents (b_header b2) ->
  calculate_selected_parent_v1 b1 state = Ok r -> calculate_selected_parent_v1 b2 state = Ok r.
Proof.
  intros Hp Hr. destruct (proj1 (calculate_selected_parent_v1_ok b2 state)) as [r' Hr'].
  { assert (Hs : selectable state (h_parents (b_header b1))) by (apply calculate_selected_parent_v1_ok; eauto).
    unfold selectable in *. by rewrite <- Hp. }
  rewrite Hr'. f_equal. apply calculate_selected_parent_v1_spec in Hr, Hr'.
  destruct r as [a|], r' as [b|]; [| | |done].
  - f_equal. eapply best_scored_unique; [|exact Hr'|exact Hr]. intros h. by rewrite Hp.
  - exfalso. destruct Hr as [Hr _]. rewrite Hp, Hr' in Hr. by apply not_elem_of_nil in Hr.
  - exfalso. destruct Hr' as [Hr' _]. rewrite <- Hp, Hr in Hr'. by apply not_elem_of_nil in Hr'.
Qed.

(** ** The selected tip *)

Lemma calculate_selected_tip_v1_spec `{HashOrder} state :
  (forall h, h ∈ d_tips (cs_dag state) -> is_Some (score_of state h)) ->
  exists r, calculate_selected_tip_v1 state = Ok r /\
  match r with
  | Some best => best_scored state (elements (d_tips (cs_dag state))) best
  | None => d_tips (cs_dag state) = ∅
  end.
Proof.
  intros Hall. unfold calculate_selected_tip_v1.
  set (l := isort String.le (set_iter (d_tips (cs_dag state)))).
  assert (Hl : forall h, h ∈ l <-> h ∈ d_tips (cs_dag state)).
  { intros h. unfold l. by rewrite isort_elem_of, elem_of_set_iter. }
  set (f := fun _ _ => _).
  assert (Hrun : forall l0 scores, (forall h, h ∈ l0 -> is_Some (score_of state h)) ->
    exists new, mapM (score_of state) l0 = Some new /\ try_fold f scores l0 = Ok (scores ++ new)).
  { clear -f. induction l0 as [|h l0 IH]; intros scores Ha; simpl.
    { exists []. by rewrite app_nil_r. }
    destruct (Ha h ltac:(left)) as [s Hs]. pose proof Hs as (b & w & Hb & Hw & ->)%score_of_Some.
    unfold f at 1. rewrite Hb. simpl. unfold score_for_known_block. rewrite Hw. simpl.
    destruct (IH (scores ++ [mkSelectionScoreV1 w (h_blue_score (b_header b)) (h_height (b_header b)) h]))
      as (new & Hm & Hf); [intros; apply Ha; by right|].
    rewrite Hs. simpl. rewrite Hm. simpl. eexists. split; [done|]. by rewrite Hf, <- app_assoc. }
  destruct (Hrun l []) as (new & Hm & Hf); [intros h Hh; by apply Hall, Hl|]. rewrite Hf. simpl.
  eexists. split; [done|]. pose proof (max_scored state l new Hm) as Hmax.
  destruct (ss_hash <$> _) as [best|].
  - destruct Hmax as (Hb & sb & Hsb & Hle). split; [by rewrite elem_of_elements, <- Hl|].
    exists sb. split; [done|]. intros h. rewrite elem_of_elements, <- Hl. apply Hle.
  - apply set_eq. intros h. rewrite <- Hl, Hmax. set_solver.
Qed.

(** ** The selected chain *)

(** A successful strict walk takes the steps of the lenient one. *)
Lemma chain_v1_loop_agrees state fuel cursor seen chain r :
  chain_v1_loop state fuel cursor seen chain = Some (Ok r) ->
  chain_loop state fuel cursor seen chain = Some r.
Proof.
  revert cursor seen chain. induction fuel as [|fuel IH]; intros cursor seen chain; simpl; [done|].
  destruct cursor as [h|]; [|by intros [= ->]].
  case_bool_decide as Hs; [done|]. case_bool_decide as Hb; [done|].
  unfold selected_parent_of. destruct (d_selected_parents (cs_dag state) !! h); [apply IH|done].
Qed.
Lemma rebuild_selected_chain_v1_agrees state tip c :
  rebuild_selected_chain_v1 state tip = Some (Ok c) -> rebuild_selected_chain_from_tip state tip = c.
Proof.
  unfold rebuild_selected_chain_v1, rebuild_selected_chain_from_tip. intros Hr.
  destruct (chain_v1_loop _ _ _ _ _) as [[r|]|] eqn:E; simplify_eq.
  by rewrite (chain_v1_loop_agrees _ _ _ _ _ _ E).
Qed.

(** The walk always returns: every round visits another stored block. *)
Lemma chain_v1_loop_total state fuel cursor chain :
  NoDup chain -> (forall h, h ∈ chain -> is_Some (d_blocks (cs_dag state) !! h)) ->
  (size (d_blocks (cs_dag state)) - length chain + 1 < fuel)%nat ->
  is_Some (chain_v1_loop state fuel cursor (list_to_set chain) chain).
Proof.
  revert cursor chain. induction fuel as [|fuel IH]; intros cursor chain Hnd Hst Hfuel; [lia|]. simpl.
  destruct cursor as [h|]; [|done]. case_bool_decide as Hs; [done|]. case_bool_decide as Hb; [done|].
  destruct (d_selected_parents (cs_dag state) !! h) as [c|]; [|done].
  rewrite elem_of_list_to_set in Hs. apply not_eq_None_Some in Hb.
  assert (Hnd' : NoDup (chain ++ [h])).
  { apply NoDup_app. split; [done|]. split; [set_solver|apply NoDup_singleton]. }
  assert (Hst' : forall x, x ∈ chain ++ [h] -> is_Some (d_blocks (cs_dag state) !! x)).
  { intros x [?| ->%list_elem_of_singleton]%elem_of_app; auto. }
  assert (Hlen : (length (chain ++ [h]) <= size (d_blocks (cs_dag state)))%nat).
  { rewrite <- size_dom, <- (size_list_to_set (C:=gset Hash) _ Hnd').
    apply subseteq_size. intros x. rewrite elem_of_list_to_set, elem_of_dom. auto. }
  rewrite length_app in Hlen. simpl in Hlen.
  replace ({[h]} ∪ list_to_set chain) with (list_to_set (chain ++ [h]) : gset Hash) by set_solver.
  apply IH; [done|done|rewrite length_app; simpl; lia].
Qed.
Lemma rebuild_selected_chain_v1_total state tip : is_Some (rebuild_selected_chain_v1 state tip).
Proof.
  unfold rebuild_selected_chain_v1.
  destruct (chain_v1_loop_total state (chain_fuel state) tip []) as [r Hr].
  { constructor. } { set_solver. } { unfold chain_fuel. simpl. lia. }
  change (list_to_set []) with (∅ : gset Hash) in Hr. rewrite Hr. by destruct r.
Qed.
