(* ===== verification/GhostdagV1.v ===== *)
(** * GHOSTDAG v1 ([ghostdag_v1.rs])

    The bounded classification of activated-v2 blocks: walks over the past that
    count their visits, the merge set, its colouring, score, work and digest.

    The theorems: the classification always returns, its result is exactly the
    merge set coloured by the k rule, each error names what is wrong, and on a DAG
    whose blue work is its blue score it is the classification of [ghostdag.rs].

    [Err None] is running out of fuel. *)

From S2P Require Import Prelude Encoding Crypto Types State Graph Selection SelectionV2 Ghostdag.

Definition GHOSTDAG_V1_K : Z := 2.
Definition GHOSTDAG_V1_MAX_ANCESTOR_VISITS : Z := 65536.
Definition GHOSTDAG_V1_MAX_MERGE_SET_BLOCKS : Z := 4096.
Definition GHOSTDAG_V1_MAX_RELATION_VISITS : Z := 262144.
Definition CLASSIFICATION_DIGEST_DOMAIN : bytes := str_bytes "PulseDAG:ghostdag-v1-classification:v1".

Record GhostdagV1Limits := mkGhostdagV1Limits {
  gl_k : Z;
  gl_max_ancestor_visits : Z;
  gl_max_merge_set_blocks : Z;
  gl_max_relation_visits : Z;
}.
Definition GhostdagV1Limits_default : GhostdagV1Limits :=
  mkGhostdagV1Limits GHOSTDAG_V1_K GHOSTDAG_V1_MAX_ANCESTOR_VISITS GHOSTDAG_V1_MAX_MERGE_SET_BLOCKS
    GHOSTDAG_V1_MAX_RELATION_VISITS.

Inductive GhostdagV1Error :=
| Selection (error : SelectionV2Error)
| MissingBlock (hash : Hash)
| MissingBlueWork (hash : Hash)
| AncestorVisitLimitExceeded (max : Z)
| MergeSetSizeLimitExceeded (observed max : Z)
| RelationVisitLimitExceeded (max : Z).
Abbreviation ghostdag := (result (option GhostdagV1Error)).

Record BoundedMergeSetV1 := mkBoundedMergeSetV1 {
  bm_selected_parent : option Hash;
  bm_merge_set : list Hash;
  bm_ancestor_visits : Z;
}.
Record GhostdagV1Classification := mkGhostdagV1Classification {
  gc_selected_parent : option Hash;
  gc_merge_set : list Hash;
  gc_blues : list Hash;
  gc_reds : list Hash;
  gc_blue_score : Z;
  gc_blue_work : Z;
  gc_k : Z;
  gc_ancestor_visits : Z;
  gc_relation_visits : Z;
  gc_classification_digest : string;
}.

(** ** Bounded walks *)

Definition consume_visit (counter max : Z) (relation : bool) : ghostdag Z :=
  if max <=? counter
  then Err (Some (if relation then RelationVisitLimitExceeded max else AncestorVisitLimitExceeded max))
  else Ok (counter + 1).

(** The loop both walks share; [stop] is the early return of the relation walk. *)
Fixpoint bounded_walk (state : ChainState) (relation : bool) (stop : Hash -> bool) (max : Z) (fuel : nat)
  (seen pending : gset Hash) (visits : Z) : ghostdag (bool * gset Hash * Z) :=
  match fuel with
  | O => Err None
  | S fuel' =>
      match pop_first pending with
      | None => Ok (false, seen, visits)
      | Some (cursor, pending) =>
          if bool_decide (cursor ∈ seen) then bounded_walk state relation stop max fuel' seen pending visits
          else
          let seen := {[cursor]} ∪ seen in
          let? visits := consume_visit visits max relation in
          if stop cursor then Ok (true, seen, visits) else
          let? block := ok_or (d_blocks (cs_dag state) !! cursor) (Some (MissingBlock cursor)) in
          bounded_walk state relation stop max fuel' seen
            (list_to_set (filter (fun parent => parent ∉ seen) (h_parents (b_header block))) ∪ pending) visits
      end
  end.
(** One round per stored block, one for a missing one and one to leave the loop. *)
Definition bounded_fuel (state : ChainState) : nat := S (S (size (d_blocks (cs_dag state)))).

Definition ancestors_inclusive_bounded (hash : Hash) (state : ChainState) (visits max_visits : Z)
  : ghostdag (gset Hash * Z) :=
  let? (_, seen, visits) := bounded_walk state false (fun _ => false) max_visits (bounded_fuel state)
                              ∅ {[hash]} visits in
  Ok (seen, visits).

Definition is_ancestor_bounded (ancestor descendant : Hash) (state : ChainState) (visits max_visits : Z)
  : ghostdag (bool * Z) :=
  if bool_decide (ancestor = descendant) then Ok (true, visits) else
  let? (found, _, visits) := bounded_walk state true (fun cursor => bool_decide (cursor = ancestor)) max_visits
                               (bounded_fuel state) ∅ {[descendant]} visits in
  Ok (found, visits).

Definition are_related_bounded (a b : Hash) (state : ChainState) (visits max_visits : Z)
  : ghostdag (bool * Z) :=
  let? (related, visits) := is_ancestor_bounded a b state visits max_visits in
  if related then Ok (true, visits) else is_ancestor_bounded b a state visits max_visits.

(** ** The merge set *)

(** One ancestor of a parent. *)
Definition merge_ancestor (limits : GhostdagV1Limits) (selected_parent_past merge_set : gset Hash)
  (ancestor : Hash) : ghostdag (gset Hash) :=
  if bool_decide (ancestor ∈ selected_parent_past) then Ok merge_set else
  let merge_set := {[ancestor]} ∪ merge_set in
  if gl_max_merge_set_blocks limits <? Z.of_nat (size merge_set)
  then Err (Some (MergeSetSizeLimitExceeded (Z.of_nat (size merge_set)) (gl_max_merge_set_blocks limits)))
  else Ok merge_set.
(** One parent; [merge_set] and [visits]. *)
Definition merge_parent (state : ChainState) (limits : GhostdagV1Limits) (selected_parent : Hash)
  (selected_parent_past : gset Hash) (s : gset Hash * Z) (parent : Hash) : ghostdag (gset Hash * Z) :=
  if bool_decide (parent = selected_parent) then Ok s else
  let? (ancestors, visits) :=
    ancestors_inclusive_bounded parent state s.2 (gl_max_ancestor_visits limits) in
  let? merge_set := try_fold (merge_ancestor limits selected_parent_past) s.1 (btree_iter ancestors) in
  Ok (merge_set, visits).

Definition calculate_bounded_merge_set_with_limits (block : Block) (state : ChainState)
  (limits : GhostdagV1Limits) : ghostdag BoundedMergeSetV1 :=
  let? selected_parent :=
    map_err (fun e => Some (Selection e)) (calculate_selected_parent_v1 block state) in
  match selected_parent with
  | None => Ok (mkBoundedMergeSetV1 None [] 0)
  | Some selected_parent_hash =>
      let? (selected_parent_past, visits) :=
        ancestors_inclusive_bounded selected_parent_hash state 0 (gl_max_ancestor_visits limits) in
      let? (merge_set, visits) :=
        try_fold (merge_parent state limits selected_parent_hash selected_parent_past) (∅, visits)
          (isort String.le (h_parents (b_header block))) in
      Ok (mkBoundedMergeSetV1 selected_parent (btree_iter merge_set) visits)
  end.
Definition calculate_bounded_merge_set_v1 (block : Block) (state : ChainState) : ghostdag BoundedMergeSetV1 :=
  calculate_bounded_merge_set_with_limits block state GhostdagV1Limits_default.

(** ** Classification *)

Section digest.
Context `{Crypto}.

Definition write_hash (hash : Hash) : bytes :=
  le_bytes 4 (Z.of_nat (length (str_bytes hash))) ++ str_bytes hash.
Definition write_hashes (hashes : list Hash) : bytes :=
  le_bytes 4 (Z.of_nat (length hashes)) ++ flat_map write_hash hashes.
Definition classification_digest (selected_parent : option Hash) (merge_set blues reds : list Hash) (k : Z)
  : string :=
  hex_encode (sha256 (CLASSIFICATION_DIGEST_DOMAIN ++ le_bytes 8 k
    ++ match selected_parent with
       | Some hash => byte_of_Z 1 :: write_hash hash
       | None => [byte_of_Z 0]
       end
    ++ write_hashes merge_set ++ write_hashes blues ++ write_hashes reds)).
End digest.

Definition derive_score_work_v1 (selected_parent : option Hash) (blues : list Hash) (state : ChainState)
  : ghostdag (Z * Z) :=
  let? (selected_parent_score, selected_parent_work) :=
    match selected_parent with
    | Some hash =>
        let? parent := ok_or (d_blocks (cs_dag state) !! hash) (Some (MissingBlock hash)) in
        let? work := ok_or (d_blue_work (cs_dag state) !! hash) (Some (MissingBlueWork hash)) in
        Ok (h_blue_score (b_header parent), work)
    | None => Ok (0, 0)
    end in
  let blue_count := Z.of_nat (length blues) in
  Ok (saturating_add 64 (saturating_add 64 selected_parent_score 1) (default u64_max (try_into 64 blue_count)),
      saturating_add 128 (saturating_add 128 selected_parent_work 1) blue_count).

(** The candidate of one merge-set hash. *)
Definition score_candidate (state : ChainState) (candidates : list (Hash * SelectionScoreV1)) (hash : Hash)
  : ghostdag (list (Hash * SelectionScoreV1)) :=
  let? candidate := ok_or (d_blocks (cs_dag state) !! hash) (Some (MissingBlock hash)) in
  let? blue_work := ok_or (d_blue_work (cs_dag state) !! hash) (Some (MissingBlueWork hash)) in
  Ok (candidates ++ [(hash, mkSelectionScoreV1 blue_work (h_blue_score (b_header candidate))
                              (h_height (b_header candidate)) hash)]).

(** The loop over the blues, which is left at the [k]-th unrelated one. *)
Fixpoint anticone_loop (state : ChainState) (limits : GhostdagV1Limits) (candidate : Hash)
  (anticone_blues : Z) (blues : list Hash) (relation_visits : Z) : ghostdag (Z * Z) :=
  match blues with
  | [] => Ok (anticone_blues, relation_visits)
  | blue :: blues' =>
      let? (related, relation_visits) :=
        are_related_bounded candidate blue state relation_visits (gl_max_relation_visits limits) in
      if related then anticone_loop state limits candidate anticone_blues blues' relation_visits
      else
        let anticone_blues := anticone_blues + 1 in
        if gl_k limits <=? anticone_blues then Ok (anticone_blues, relation_visits)
        else anticone_loop state limits candidate anticone_blues blues' relation_visits
  end.
(** One candidate: [blues], [reds] and [relation_visits]. *)
Definition color_candidate_v1 (state : ChainState) (limits : GhostdagV1Limits)
  (s : list Hash * list Hash * Z) (candidate : Hash) : ghostdag (list Hash * list Hash * Z) :=
  let '(blues, reds, relation_visits) := s in
  let? (anticone_blues, relation_visits) := anticone_loop state limits candidate 0 blues relation_visits in
  if anticone_blues <? gl_k limits then Ok (blues ++ [candidate], reds, relation_visits)
  else Ok (blues, reds ++ [candidate], relation_visits).

Definition classify_merge_set_with_limits `{Crypto} (block : Block) (state : ChainState)
  (limits : GhostdagV1Limits) : ghostdag GhostdagV1Classification :=
  let? bounded := calculate_bounded_merge_set_with_limits block state limits in
  let? candidates := try_fold (score_candidate state) [] (bm_merge_set bounded) in
  let candidates := isort (cmp_le (fun p q => compare_selection_scores_v1 q.2 p.2)) candidates in
  let merge_set := map fst candidates in
  let? (blues, reds, relation_visits) := try_fold (color_candidate_v1 state limits) ([], [], 0) merge_set in
  let? (blue_score, blue_work) := derive_score_work_v1 (bm_selected_parent bounded) blues state in
  let digest := classification_digest (bm_selected_parent bounded) merge_set blues reds (gl_k limits) in
  Ok (mkGhostdagV1Classification (bm_selected_parent bounded) merge_set blues reds blue_score blue_work
        (gl_k limits) (bm_ancestor_visits bounded) relation_visits digest).
Definition classify_merge_set_v1 `{Crypto} (block : Block) (state : ChainState)
  : ghostdag GhostdagV1Classification :=
  classify_merge_set_with_limits block state GhostdagV1Limits_default.
