(* ===== verification/GhostdagV1Props.v ===== *)
(** * Correctness of the GHOSTDAG v1 classification

    The bounded walks against reachability, the merge set and the colouring
    against [Ghostdag], the meaning of each error, and the equivalence with the
    classification of [ghostdag.rs]. *)

From S2P Require Import Prelude Encoding Crypto Types State Graph Selection SelectionV2 Ghostdag.
From S2P Require Import GhostdagV1.

(** ** The walk *)

(** [k] is in the past of a hash of [s]. *)
Definition past_of_set (state : ChainState) (s : gset Hash) (k : Hash) : Prop :=
  exists r, r ∈ s /\ ancestor state r k.

Lemma ancestor_step state d b p k :
  d_blocks (cs_dag state) !! d = Some b -> p ∈ h_parents (b_header b) ->
  ancestor state p k -> ancestor state d k.
Proof.
  intros Hb Hp Hk. unfold ancestor, reach. eapply rtc_l; [|exact Hk].
  unfold edge, parents_of. by rewrite Hb.
Qed.

Lemma ancestor_trans state a b c : ancestor state a b -> ancestor state b c -> ancestor state a c.
Proof. unfold ancestor, reach. by etransitivity. Qed.

Section walk.
Context (state : ChainState) (relation : bool) (stop : Hash -> bool) (max : Z).
Local Notation blocks := (d_blocks (cs_dag state)).

Record walk_pre (seen pending : gset Hash) (visits : Z) : Prop := {
  wp_stored : seen ⊆ dom blocks;
  wp_disjoint : pending ## seen;
  wp_closed : forall k p, k ∈ seen -> p ∈ parents_of state k -> p ∈ seen \/ p ∈ pending;
  wp_visits : visits <= max;
}.
(** What the walk from [seen] and [pending] returns. *)
Definition walk_post (seen pending : gset Hash) (visits : Z)
  (r : ghostdag (bool * gset Hash * Z)) : Prop :=
  match r with
  | Ok (found, seen', visits') =>
      seen ⊆ seen' /\ visits' = visits + Z.of_nat (size seen') - Z.of_nat (size seen) /\ visits' <= max /\
      (forall k, k ∈ seen' -> k ∈ seen \/ past_of_set state pending k) /\
      (if found then exists k, stop k = true /\ k ∈ seen' /\ k ∉ seen /\ seen' ∖ {[k]} ⊆ dom blocks
       else seen' ⊆ dom blocks /\ pending ⊆ seen' /\
         (forall k, k ∈ seen' -> k ∉ seen -> stop k = false) /\
         (forall k p, k ∈ seen' -> p ∈ parents_of state k -> p ∈ seen'))
  | Err (Some (MissingBlock h)) => blocks !! h = None /\ past_of_set state pending h
  | Err (Some (AncestorVisitLimitExceeded m)) | Err (Some (RelationVisitLimitExceeded m)) =>
      r = Err (Some (if relation then RelationVisitLimitExceeded m else AncestorVisitLimitExceeded m)) /\
      m = max /\ exists s, seen ⊆ s /\ (forall k, k ∈ s -> k ∈ seen \/ past_of_set state pending k) /\
        (size s <= S (size blocks))%nat /\ max < visits + Z.of_nat (size s) - Z.of_nat (size seen)
  | Err _ => False
  end.

Lemma walk_post_step seen pending visits cursor b r :
  cursor ∉ seen -> blocks !! cursor = Some b -> cursor ∈ pending -> stop cursor = false ->
  walk_post ({[cursor]} ∪ seen)
    (list_to_set (filter (fun parent => parent ∉ {[cursor]} ∪ seen) (h_parents (b_header b)))
       ∪ pending ∖ {[cursor]}) (visits + 1) r ->
  walk_post seen pending visits r.
Proof.
  intros Hc Hb Hin Hstop.
  set (next := list_to_set _ ∪ _).
  assert (Hpast : forall k, past_of_set state next k -> past_of_set state pending k).
  { intros k (x & [Hx|Hx]%elem_of_union & Hk); [|exists x; set_solver].
    apply elem_of_list_to_set, list_elem_of_filter in Hx as [_ Hx]. exists cursor.
    split; [done|]. by eapply ancestor_step. }
  assert (Hpick : forall k, k ∈ {[cursor]} ∪ seen \/ past_of_set state next k ->
    k ∈ seen \/ past_of_set state pending k).
  { intros k [[->%elem_of_singleton|?]%elem_of_union|?]; [right; exists cursor|by left|right; auto].
    split; [done|apply rtc_refl]. }
  assert (Hsize : size ({[cursor]} ∪ seen) = S (size seen)).
  { rewrite size_union by set_solver. by rewrite size_singleton. }
  assert (Hnext : pending ⊆ {[cursor]} ∪ next).
  { intros k Hk. unfold next. destruct (decide (k = cursor)); set_solver. }
  clearbody next. unfold walk_post. rewrite Hsize. destruct r as [[[found seen'] visits']|[e|]]; [| |done].
  - intros (Hs & Hv & Hm & Hr & Hf). split; [set_solver|]. split; [lia|]. split; [done|]. split; [by auto|].
    destruct found.
    + destruct Hf as (k & ? & ? & ? & ?). exists k. set_solver.
    + destruct Hf as (? & Hp & Hst & ?). split; [done|]. split; [set_solver|]. split; [|done].
      intros k Hk Hk'. destruct (decide (k = cursor)) as [->|]; [done|]. apply Hst; set_solver.
  - destruct e; try done; [intros [? ?]; auto| |]; intros (? & ? & s & Hss & Hs & ? & ?);
      (split; [done|]); (split; [done|]); exists s; (split; [set_solver|]); (split; [by auto|]); split; [done|lia|done|lia].
Qed.

Lemma bounded_walk_spec fuel seen pending visits :
  walk_pre seen pending visits -> (size (dom blocks ∖ seen) + 1 < fuel)%nat ->
  walk_post seen pending visits (bounded_walk state relation stop max fuel seen pending visits).
Proof.
  revert seen pending visits. induction fuel as [|fuel IH]; intros seen pending visits Hpre Hfuel; [lia|].
  simpl. destruct Hpre as [Hst Hdis Hcl Hv].
  destruct (pop_first pending) as [[cursor pending']|] eqn:Hpop.
  2: { apply pop_first_None in Hpop as ->. simpl. split; [done|]. split; [lia|]. split; [done|].
       split; [by left|]. split; [done|]. split; [set_solver|]. split; [done|].
       intros k p Hk Hp. destruct (Hcl k p Hk Hp); [done|set_solver]. }
  apply pop_first_Some in Hpop as [Hin ->].
  assert (Hc : cursor ∉ seen) by set_solver. rewrite bool_decide_eq_false_2 by done.
  assert (Hsz : size ({[cursor]} ∪ seen) = S (size seen)).
  { rewrite size_union by set_solver. by rewrite size_singleton. }
  assert (Hseen : forall k, k ∈ {[cursor]} ∪ seen -> k ∈ seen \/ past_of_set state pending k).
  { intros k [->%elem_of_singleton|?]%elem_of_union; [right; exists cursor|by left].
    split; [done|apply rtc_refl]. }
  assert (Hle : (size seen <= size blocks)%nat) by (rewrite <- size_dom; by apply subseteq_size).
  unfold consume_visit. destruct (max <=? visits) eqn:Hmax; bool_props.
  { assert (Hlim : exists s, seen ⊆ s /\ (forall k, k ∈ s -> k ∈ seen \/ past_of_set state pending k) /\
      (size s <= S (size blocks))%nat /\ max < visits + Z.of_nat (size s) - Z.of_nat (size seen)).
    { exists ({[cursor]} ∪ seen). split; [set_solver|]. split; [done|]. rewrite Hsz. lia. }
    simpl. destruct relation; simpl; auto. }
  destruct (stop cursor) eqn:Hstop.
  { simpl. split; [set_solver|]. rewrite Hsz. split; [lia|]. split; [lia|]. split; [done|].
    exists cursor. split; [done|]. split; [set_solver|]. split; [done|]. set_solver. }
  destruct (blocks !! cursor) as [b|] eqn:Hb; simpl.
  2: { split; [done|]. exists cursor. split; [done|apply rtc_refl]. }
  eapply walk_post_step; [done|done|done|done|].
  assert (Hdom : cursor ∈ dom blocks) by (apply elem_of_dom; by eexists).
  apply IH.
  - split.
    + set_solver.
    + intros k [Hk|Hk]%elem_of_union; [|set_solver].
      by apply elem_of_list_to_set, list_elem_of_filter in Hk as [? _].
    + intros k p Hk Hp. destruct (decide (p ∈ {[cursor]} ∪ seen)) as [|Hn]; [by left|right].
      apply elem_of_union in Hk as [->%elem_of_singleton|Hk].
      * apply elem_of_union_l, elem_of_list_to_set, list_elem_of_filter. split; [done|].
        unfold parents_of in Hp. by rewrite Hb in Hp.
      * destruct (Hcl k p Hk Hp); set_solver.
    + lia.
  - assert (Hd : size (dom blocks ∖ seen) = S (size (dom blocks ∖ ({[cursor]} ∪ seen)))).
    { replace (dom blocks ∖ seen) with ({[cursor]} ∪ (dom blocks ∖ ({[cursor]} ∪ seen))).
      - rewrite size_union by set_solver. by rewrite size_singleton.
      - apply set_eq. intros k. destruct (decide (k = cursor)); set_solver. }
    lia.
Qed.

Lemma bounded_walk_root root visits :
  visits <= max ->
  walk_post ∅ {[root]} visits
    (bounded_walk state relation stop max (bounded_fuel state) ∅ {[root]} visits).
Proof.
  intros Hv. apply bounded_walk_spec.
  - split; [set_solver|set_solver|set_solver|done].
  - unfold bounded_fuel. rewrite difference_empty_L, size_dom. lia.
Qed.
End walk.

(** ** The past *)

Lemma ancestors_inclusive_eq state root (s : gset Hash) :
  root ∈ s -> (forall k p, k ∈ s -> p ∈ parents_of state k -> p ∈ s) ->
  (forall k, k ∈ s -> ancestor state root k) -> s = ancestors_inclusive root state.
Proof.
  intros Hr Hcl Hs. apply set_eq. intros k. rewrite elem_of_ancestors_inclusive. split; [apply Hs|].
  unfold ancestor. by apply closed_reach.
Qed.

Lemma past_of_singleton state root k : past_of_set state {[root]} k <-> ancestor state root k.
Proof. unfold past_of_set. setoid_rewrite elem_of_singleton. naive_solver. Qed.

Lemma ancestors_inclusive_bounded_spec hash state visits max :
  visits <= max ->
  match ancestors_inclusive_bounded hash state visits max with
  | Ok (seen, visits') =>
      seen = ancestors_inclusive hash state /\ visits' = visits + Z.of_nat (size seen) /\ visits' <= max /\
      seen ⊆ dom (d_blocks (cs_dag state))
  | Err (Some (MissingBlock h)) => d_blocks (cs_dag state) !! h = None /\ ancestor state hash h
  | Err (Some (AncestorVisitLimitExceeded m)) =>
      m = max /\ max < visits + Z.of_nat (size (ancestors_inclusive hash state))
  | Err _ => False
  end.
Proof.
  intros Hv. unfold ancestors_inclusive_bounded.
  pose proof (bounded_walk_root state false (fun _ => false) max hash visits Hv) as Hw.
  unfold walk_post in Hw. rewrite size_empty in Hw.
  destruct (bounded_walk _ _ _ _ _ _ _ _) as [[[found seen] visits']|[e|]]; [| |done].
  - destruct Hw as (_ & Hv' & Hm & Hr & Hf).
    destruct found; [by destruct Hf as (k & ? & _)|]. destruct Hf as (Hst & Hp & _ & Hcl).
    split; [|split; [lia|split; [lia|done]]].
    apply ancestors_inclusive_eq; [set_solver|done|]. intros k Hk.
    destruct (Hr k Hk) as [?|?%past_of_singleton]; [set_solver|done].
  - destruct e; try done; [by rewrite past_of_singleton in Hw| |by destruct Hw].
    destruct Hw as (_ & -> & s & _ & Hs & _ & Hlt). split; [done|].
    assert (size s <= size (ancestors_inclusive hash state))%nat; [|lia]. apply subseteq_size.
    intros k Hk. apply elem_of_ancestors_inclusive.
    destruct (Hs k Hk) as [?|?%past_of_singleton]; [set_solver|done].
Qed.

(** ** Relations *)

(** What one relation walk can cost. *)
Definition walk_cost (state : ChainState) : Z := Z.of_nat (size (d_blocks (cs_dag state))) + 1.
(** The errors of the relation walks from [hs]. *)
Definition relation_error (state : ChainState) (hs : list Hash) (max bound : Z)
  (e : option GhostdagV1Error) : Prop :=
  match e with
  | Some (MissingBlock h) =>
      d_blocks (cs_dag state) !! h = None /\ exists x, x ∈ hs /\ ancestor state x h
  | Some (RelationVisitLimitExceeded m) => m = max /\ max < bound
  | _ => False
  end.
Lemma relation_error_mono state hs hs' max bound bound' e :
  hs ⊆ hs' -> bound <= bound' -> relation_error state hs max bound e -> relation_error state hs' max bound' e.
Proof.
  intros Hh Hb. destruct e as [[]|]; try done; simpl; [|lia]. intros (? & x & ? & ?).
  split; [done|]. exists x. auto.
Qed.

Lemma is_ancestor_bounded_spec a d state visits max :
  visits <= max ->
  match is_ancestor_bounded a d state visits max with
  | Ok (r, visits') => r = is_ancestor_of a d state /\ visits <= visits' <= max /\
      visits' <= visits + walk_cost state
  | Err e => relation_error state [d] max (visits + walk_cost state) e
  end.
Proof.
  intros Hv. unfold is_ancestor_bounded, walk_cost.
  case_bool_decide as Heq.
  { subst. unfold is_ancestor_of. rewrite decide_True by done. split; [done|lia]. }
  pose proof (bounded_walk_root state true (fun c => bool_decide (c = a)) max d visits Hv) as Hw.
  unfold walk_post in Hw. rewrite size_empty in Hw.
  destruct (bounded_walk _ _ _ _ _ _ _ _) as [[[found seen] visits']|[e|]]; [| |done].
  - destruct Hw as (_ & Hv' & Hm & Hr & Hf).
    assert (Hfound : found = is_ancestor_of a d state).
    { apply eq_true_iff_eq. rewrite is_ancestor_of_spec. destruct found; split; try done.
      - intros _. destruct Hf as (k & ->%bool_decide_eq_true & Hk & _).
        destruct (Hr a Hk) as [?|?%past_of_singleton]; [set_solver|done].
      - intros Ha. exfalso. destruct Hf as (_ & Hp & Hst & Hcl).
        assert (Hin : a ∈ seen) by (apply (closed_reach (parents_of state) seen d a Hcl); [by apply Hp, elem_of_singleton|exact Ha]).
        apply Hst in Hin; [|set_solver]. by apply bool_decide_eq_false in Hin. }
    split; [done|]. split; [lia|]. clear Hfound.
    assert (size seen <= S (size (d_blocks (cs_dag state))))%nat; [|lia].
    destruct found.
    + destruct Hf as (k & _ & _ & _ & Hsub). apply subseteq_size in Hsub. rewrite size_dom in Hsub.
      pose proof (size_union_alt {[k]} seen) as Hu. rewrite size_singleton in Hu.
      assert (size seen <= size ({[k]} ∪ seen))%nat by (apply subseteq_size; set_solver). lia.
    + destruct Hf as (Hsub & _). apply subseteq_size in Hsub. rewrite size_dom in Hsub. lia.
  - destruct e; try done; [|by destruct Hw|].
    + destruct Hw as [Hb Hp%past_of_singleton]. split; [done|]. exists d. split; [left|done].
    + destruct Hw as (_ & -> & s & _ & _ & Hsz & Hlt). simpl. lia.
Qed.

Lemma are_related_bounded_spec a b state visits max :
  visits <= max ->
  match are_related_bounded a b state visits max with
  | Ok (r, visits') => r = are_related a b state /\ visits <= visits' <= max /\
      visits' <= visits + 2 * walk_cost state
  | Err e => relation_error state [a; b] max (visits + 2 * walk_cost state) e
  end.
Proof.
  intros Hv. unfold are_related_bounded, are_related.
  assert (0 <= walk_cost state) by (unfold walk_cost; lia).
  pose proof (is_ancestor_bounded_spec a b state visits max Hv) as Hab.
  destruct (is_ancestor_bounded a b state visits max) as [[r v1]|e].
  2: { eapply relation_error_mono; [| |exact Hab]; [set_solver|lia]. }
  destruct Hab as (-> & ? & ?). destruct (is_ancestor_of a b state); simpl; [split; [done|lia]|].
  pose proof (is_ancestor_bounded_spec b a state v1 max ltac:(lia)) as Hba.
  destruct (is_ancestor_bounded b a state v1 max) as [[r v2]|e].
  - destruct Hba as (-> & ? & ?). split; [done|lia].
  - eapply relation_error_mono; [| |exact Hba]; [set_solver|lia].
Qed.

(** ** Colouring *)

Definition unrelated (state : ChainState) (x : Hash) (l : list Hash) : Z :=
  Z.of_nat (length (filter (fun b => are_related x b state = false) l)).

Lemma anticone_loop_spec state limits candidate count blues visits :
  visits <= gl_max_relation_visits limits ->
  let bound := visits + Z.of_nat (length blues) * (2 * walk_cost state) in
  match anticone_loop state limits candidate count blues visits with
  | Ok (c, visits') =>
      (c < gl_k limits <-> count + unrelated state candidate blues < gl_k limits) /\
      visits <= visits' <= gl_max_relation_visits limits /\ visits' <= bound
  | Err e => relation_error state (candidate :: blues) (gl_max_relation_visits limits) bound e
  end.
Proof.
  assert (0 <= walk_cost state) as Hc by (unfold walk_cost; lia).
  unfold unrelated. revert count visits.
  induction blues as [|b blues IH]; intros count visits Hv; simpl; [lia|].
  pose proof (are_related_bounded_spec candidate b state visits _ Hv) as Hr.
  destruct (are_related_bounded candidate b state visits _) as [[r v1]|e].
  2: { eapply relation_error_mono; [| |exact Hr]; [set_solver|nia]. }
  destruct Hr as (-> & Hv1 & Hle). rewrite filter_cons.
  destruct (are_related candidate b state).
  - rewrite decide_False by done. specialize (IH count v1 ltac:(lia)).
    destruct (anticone_loop _ _ _ _ _ _) as [[c v2]|e]; [split; [naive_solver|nia]|].
    eapply relation_error_mono; [| |exact IH]; [set_solver|nia].
  - rewrite decide_True by done. destruct (gl_k limits <=? count + 1) eqn:Hk; bool_props.
    + split; [cbn [length]; lia|nia].
    + specialize (IH (count + 1) v1 ltac:(lia)).
      destruct (anticone_loop _ _ _ _ _ _) as [[c v2]|e].
      * destruct IH as [-> ?]. split; [cbn [length]; lia|nia].
      * eapply relation_error_mono; [| |exact IH]; [set_solver|nia].
Qed.

(** The bounded colouring is the colouring of [ghostdag.rs]. *)
Lemma color_fold_v1_spec state limits l blues reds visits (n : Z) :
  visits <= gl_max_relation_visits limits ->
  Z.of_nat (length blues + length l) <= n ->
  let bound := visits + Z.of_nat (length l) * (n * (2 * walk_cost state)) in
  match try_fold (color_candidate_v1 state limits) (blues, reds, visits) l with
  | Ok (blues', reds', visits') =>
      foldl (color_candidate state (gl_k limits)) (blues, reds) l = (blues', reds') /\
      visits <= visits' <= gl_max_relation_visits limits
  | Err e => relation_error state (blues ++ l) (gl_max_relation_visits limits) bound e
  end.
Proof.
  assert (0 <= walk_cost state) as Hc by (unfold walk_cost; lia).
  revert blues reds visits. induction l as [|c l IH]; intros blues reds visits Hv Hn; [simpl; split; [done|lia]|].
  cbn [try_fold foldl color_candidate_v1 color_candidate].
  set (cost := n * (2 * walk_cost state)) in *.
  assert (Hcost : Z.of_nat (length blues) * (2 * walk_cost state) <= cost) by (unfold cost; cbn [length] in Hn; nia).
  assert (Hpos : 0 <= Z.of_nat (length l) * cost) by (unfold cost; cbn [length] in Hn; nia).
  cbn [length] in *. rewrite Nat2Z.inj_succ, Z.mul_succ_l. clearbody cost.
  pose proof (anticone_loop_spec state limits c 0 blues visits Hv) as Ha. cbn zeta in Ha.
  destruct (anticone_loop state limits c 0 blues visits) as [[count v1]|e].
  2: { eapply relation_error_mono; [| |exact Ha]; [set_solver|lia]. }
  destruct Ha as (Hcount & Hv1 & Hb). unfold unrelated in Hcount.
  assert (Hif : (count <? gl_k limits) = (Z.of_nat (length (filter (fun b => are_related c b state = false) blues))
    <? gl_k limits)) by (apply eq_true_iff_eq; rewrite !Z.ltb_lt; lia).
  rewrite Hif. clear Hif Hcount.
  destruct (_ <? gl_k limits).
  - specialize (IH (blues ++ [c]) reds v1 ltac:(lia)). rewrite length_app in IH. cbn [length] in IH.
    specialize (IH ltac:(lia)). destruct (try_fold _ _ l) as [[[b' r'] v']|e]; [split; [apply IH|lia]|].
    eapply relation_error_mono; [| |exact IH]; [by rewrite <- app_assoc|lia].
  - specialize (IH blues (reds ++ [c]) v1 ltac:(lia) ltac:(lia)).
    destruct (try_fold _ _ l) as [[[b' r'] v']|e]; [split; [apply IH|lia]|].
    eapply relation_error_mono; [| |exact IH]; [set_solver|lia].
Qed.

(** Every red has at least [k] unrelated blues. *)
Lemma unrelated_mono state x l1 l2 : unrelated state x l1 <= unrelated state x (l1 ++ l2).
Proof. unfold unrelated. rewrite filter_app, length_app. lia. Qed.
Lemma color_fold_reds state k l blues reds blues' reds' :
  foldl (color_candidate state k) (blues, reds) l = (blues', reds') ->
  Forall (fun x => k <= unrelated state x blues) reds ->
  (exists suffix, blues' = blues ++ suffix) /\ Forall (fun x => k <= unrelated state x blues') reds'.
Proof.
  revert blues reds. induction l as [|c l IH]; intros blues reds Hf Hr; simpl in Hf.
  { simplify_eq. split; [exists []; by rewrite app_nil_r|done]. }
  destruct (_ <? k) eqn:Hk; bool_props.
  - apply IH in Hf as [[suf ->] Hf].
    + split; [|done]. exists ([c] ++ suf). by rewrite app_assoc.
    + eapply Forall_impl; [exact Hr|]. intros x Hx. by etransitivity; [|apply unrelated_mono].
  - apply IH in Hf as [[suf ->] Hf]; [by eauto|]. apply Forall_app. split; [done|]. by constructor.
Qed.

(** ** The merge set *)

(** The visits of the walks from [l]. *)
Definition past_sum (state : ChainState) (l : list Hash) : Z :=
  sum_Z (map (fun p => Z.of_nat (size (ancestors_inclusive p state))) l).
Lemma past_sum_nonneg state l : 0 <= past_sum state l.
Proof. unfold past_sum. induction l; simpl; lia. Qed.
#[global] Instance past_sum_perm state : Proper ((≡ₚ) ==> (=)) (past_sum state).
Proof. unfold past_sum, sum_Z. intros l1 l2 Hp. induction Hp; simpl; lia. Qed.

(** What the parents in [l] other than [sp] add to [past]. *)
Definition add_pasts (state : ChainState) (sp : Hash) (past acc : gset Hash) (l : list Hash) : gset Hash :=
  foldl (fun merge_set parent =>
    if decide (parent = sp) then merge_set
    else merge_set ∪ (ancestors_inclusive parent state ∖ past)) acc l.
Lemma add_pasts_mono state sp past acc l : acc ⊆ add_pasts state sp past acc l.
Proof. intros h Hh. apply merge_fold_spec. by left. Qed.

(** The merge set of a block: the past of its parents outside the past of [sp]. *)
Definition merged (state : ChainState) (sp : option Hash) (parents : list Hash) : gset Hash :=
  match sp with
  | None => ∅
  | Some sp => add_pasts state sp (ancestors_inclusive sp state) ∅ parents
  end.
Lemma elem_of_merged state sp parents h :
  h ∈ merged state (Some sp) parents <->
  (exists p, p ∈ parents /\ ancestor state p h) /\ ~ ancestor state sp h.
Proof.
  simpl. unfold add_pasts. rewrite merge_fold_spec. setoid_rewrite elem_of_ancestors_inclusive. split.
  - intros [?|(p & ? & ? & ? & ?)]; [set_solver|]. naive_solver.
  - intros [(p & ? & Hp) Hn]. right. exists p. repeat split; try done. by intros ->.
Qed.
Lemma merged_perm state sp l1 l2 : l1 ≡ₚ l2 -> merged state sp l1 = merged state sp l2.
Proof.
  intros Hp. destruct sp; [|done]. apply set_eq. intros h. rewrite !elem_of_merged. by setoid_rewrite Hp.
Qed.

Lemma merge_ancestors_spec limits past ms l :
  match try_fold (merge_ancestor limits past) ms l with
  | Ok ms' => ms' = ms ∪ (list_to_set l ∖ past) /\
      (Z.of_nat (size ms) <= gl_max_merge_set_blocks limits ->
       Z.of_nat (size ms') <= gl_max_merge_set_blocks limits)
  | Err (Some (MergeSetSizeLimitExceeded o m)) =>
      m = gl_max_merge_set_blocks limits /\ m < o <= Z.of_nat (size (ms ∪ (list_to_set l ∖ past)))
  | Err _ => False
  end.
Proof.
  revert ms. induction l as [|a l IH]; intros ms; simpl; [split; [set_solver|done]|].
  unfold merge_ancestor at 1. case_bool_decide as Ha.
  - specialize (IH ms).
    assert (Heq : ms ∪ (({[a]} ∪ list_to_set l) ∖ past) = ms ∪ (list_to_set l ∖ past)) by set_solver.
    by rewrite Heq.
  - assert (Heq : ms ∪ (({[a]} ∪ list_to_set l) ∖ past) = ({[a]} ∪ ms) ∪ (list_to_set l ∖ past)) by set_solver.
    rewrite Heq. destruct (_ <? _) eqn:Hm; bool_props.
    + split; [done|]. split; [done|]. apply inj_le, subseteq_size. set_solver.
    + specialize (IH ({[a]} ∪ ms)). destruct (try_fold _ _ l) as [ms'|]; [|done]. naive_solver lia.
Qed.

Lemma merge_parents_spec state limits sp past ms visits l :
  visits <= gl_max_ancestor_visits limits -> Z.of_nat (size ms) <= gl_max_merge_set_blocks limits ->
  let others := filter (fun p => p <> sp) l in
  match try_fold (merge_parent state limits sp past) (ms, visits) l with
  | Ok (ms', visits') =>
      ms' = add_pasts state sp past ms l /\ visits' = visits + past_sum state others /\
      visits' <= gl_max_ancestor_visits limits /\ Z.of_nat (size ms') <= gl_max_merge_set_blocks limits /\
      (forall p, p ∈ others -> ancestors_inclusive p state ⊆ dom (d_blocks (cs_dag state)))
  | Err (Some (MissingBlock h)) =>
      d_blocks (cs_dag state) !! h = None /\ exists p, p ∈ l /\ ancestor state p h
  | Err (Some (AncestorVisitLimitExceeded m)) =>
      m = gl_max_ancestor_visits limits /\ m < visits + past_sum state others
  | Err (Some (MergeSetSizeLimitExceeded o m)) =>
      m = gl_max_merge_set_blocks limits /\ m < o <= Z.of_nat (size (add_pasts state sp past ms l))
  | Err _ => False
  end.
Proof.
  revert ms visits. induction l as [|p l IH]; intros ms visits Hv Hms.
  { simpl. split_and!; try done; [unfold past_sum; simpl; lia|set_solver]. }
  cbn [try_fold add_pasts foldl]. unfold merge_parent at 1. cbn [fst snd].
  destruct (decide (p = sp)) as [Hp|Hp].
  { rewrite bool_decide_eq_true_2 by done. specialize (IH ms visits Hv Hms). cbv zeta in IH |- *.
    rewrite filter_cons_False by naive_solver. unfold add_pasts in IH.
    destruct (try_fold _ _ l) as [[ms' v']|[[]|]]; try done. destruct IH as (? & q & ? & ?).
    split; [done|]. exists q. split; [by right|done]. }
  rewrite bool_decide_eq_false_2 by done. cbv zeta. rewrite filter_cons_True by done.
  set (others := filter _ l) in *.
  assert (Hsum : past_sum state (p :: others) =
    Z.of_nat (size (ancestors_inclusive p state)) + past_sum state others) by done.
  pose proof (past_sum_nonneg state others). rewrite Hsum. clear Hsum.
  pose proof (ancestors_inclusive_bounded_spec p state visits _ Hv) as Hanc.
  destruct (ancestors_inclusive_bounded p state visits _) as [[anc v1]|[[]|]]; try done.
  2: { destruct Hanc. split; [done|]. exists p. split; [left|done]. }
  2: { destruct Hanc as [-> ?]. split; [done|lia]. }
  destruct Hanc as (-> & -> & Hle & Hdom).
  pose proof (merge_ancestors_spec limits past ms (btree_iter (ancestors_inclusive p state))) as Hma.
  assert (Hls : list_to_set (btree_iter (ancestors_inclusive p state)) = ancestors_inclusive p state)
    by (apply set_eq; intros h; by rewrite elem_of_list_to_set, elem_of_btree_iter).
  rewrite Hls in Hma. clear Hls.
  destruct (try_fold (merge_ancestor limits past) ms _) as [ms1|[[]|]]; try done.
  2: { destruct Hma as (-> & Hlo & Hhi). split; [done|]. split; [done|].
       etransitivity; [exact Hhi|]. apply inj_le, subseteq_size, add_pasts_mono. }
  destruct Hma as [-> Hms1]. specialize (IH _ _ Hle (Hms1 Hms)). cbv zeta in IH. fold others in IH.
  unfold add_pasts in IH.
  destruct (try_fold _ _ l) as [[ms' v']|[[]|]]; try done.
  - destruct IH as (? & ? & ? & ? & Hall). split; [done|]. split; [lia|]. split; [done|]. split; [done|].
    intros q [->|Hq]%elem_of_cons; [done|by apply Hall].
  - destruct IH as (? & q & ? & ?). split; [done|]. exists q. split; [by right|done].
  - destruct IH as [? ?]. split; [done|lia].
Qed.

Section classification.
Context (state : ChainState) (limits : GhostdagV1Limits).
Context (block : Block).
Local Notation parents := (h_parents (b_header block)).

(** The limits are [usize]. *)
Definition limits_typed : Prop :=
  in_u 64 (gl_k limits) /\ in_u 64 (gl_max_ancestor_visits limits) /\
  in_u 64 (gl_max_merge_set_blocks limits) /\ in_u 64 (gl_max_relation_visits limits).

Definition selected_is (sp : option Hash) : Prop :=
  match sp with Some best => best_scored state parents best | None => parents = [] end.

(** What an error says about the block. *)
Definition classify_error (e : option GhostdagV1Error) : Prop :=
  match e with
  | None => False
  | Some (Selection _) => ~ selectable state parents
  | Some (MissingBlock h) =>
      d_blocks (cs_dag state) !! h = None /\ exists p, p ∈ parents /\ ancestor state p h
  | Some (MissingBlueWork h) =>
      d_blue_work (cs_dag state) !! h = None /\ exists p, p ∈ parents /\ ancestor state p h
  | Some (AncestorVisitLimitExceeded m) =>
      m = gl_max_ancestor_visits limits /\ m < past_sum state parents
  | Some (MergeSetSizeLimitExceeded o m) =>
      m = gl_max_merge_set_blocks limits /\
      exists sp, selected_is sp /\ m < o <= Z.of_nat (size (merged state sp parents))
  | Some (RelationVisitLimitExceeded m) =>
      m = gl_max_relation_visits limits /\
      exists sp, selected_is sp /\
        let n := Z.of_nat (size (merged state sp parents)) in m < n * (n * (2 * walk_cost state))
  end.

Lemma past_sum_split sp :
  NoDup parents -> sp ∈ parents ->
  past_sum state parents = Z.of_nat (size (ancestors_inclusive sp state))
    + past_sum state (filter (fun p => p <> sp) (isort String.le parents)).
Proof.
  intros Hnd [l Hl]%elem_of_Permutation.
  assert (Hp : isort String.le parents ≡ₚ sp :: l) by (by rewrite isort_perm).
  rewrite (filter_Permutation _ _ _ Hp), filter_cons_False by naive_solver.
  rewrite Hl in Hnd |- *. apply NoDup_cons in Hnd as [Hn _].
  assert (filter (fun p => p <> sp) l = l) as ->; [|done].
  clear -Hn. induction l as [|x l IH]; [done|].
  rewrite filter_cons_True by set_solver. rewrite IH; [done|set_solver].
Qed.

Lemma bounded_merge_set_spec :
  limits_typed ->
  match calculate_bounded_merge_set_with_limits block state limits with
  | Ok b => selectable state parents /\ selected_is (bm_selected_parent b) /\
      bm_merge_set b = btree_iter (merged state (bm_selected_parent b) parents) /\
      Z.of_nat (size (merged state (bm_selected_parent b) parents)) <= gl_max_merge_set_blocks limits /\
      bm_ancestor_visits b = past_sum state parents /\
      bm_ancestor_visits b <= gl_max_ancestor_visits limits /\
      (forall p h, p ∈ parents -> ancestor state p h -> is_Some (d_blocks (cs_dag state) !! h))
  | Err e => classify_error e
  end.
Proof.
  intros (_ & [Ha _] & [Hm _] & _). unfold calculate_bounded_merge_set_with_limits.
  destruct (calculate_selected_parent_v1 block state) as [sp|e] eqn:Hsp; simpl.
  2: { intros (r & Hr)%calculate_selected_parent_v1_ok. congruence. }
  assert (Hsel : selectable state parents) by (apply calculate_selected_parent_v1_ok; eauto).
  apply calculate_selected_parent_v1_spec in Hsp. destruct sp as [sp|].
  2: { unfold selected_is. simpl. rewrite Hsp in *. split_and!; try done. by intros p h Hp%not_elem_of_nil. }
  pose proof (ancestors_inclusive_bounded_spec sp state 0 _ Ha) as Hanc.
  destruct (ancestors_inclusive_bounded sp state 0 _) as [[past visits]|[[]|]]; try done.
  2: { destruct Hanc as [? ?]. split; [done|]. exists sp. split; [apply Hsp|done]. }
  2: { destruct Hanc as [-> Hlt]. split; [done|].
       rewrite (past_sum_split sp); [|apply Hsel|apply Hsp].
       pose proof (past_sum_nonneg state (filter (fun p => p <> sp) (isort String.le parents))). lia. }
  destruct Hanc as (-> & -> & Hle & Hdom).
  pose proof (merge_parents_spec state limits sp (ancestors_inclusive sp state) ∅
    (0 + Z.of_nat (size (ancestors_inclusive sp state))) (isort String.le parents) Hle Hm) as Hmp.
  cbv zeta in Hmp. fold (merged state (Some sp) (isort String.le parents)) in Hmp.
  rewrite (merged_perm state (Some sp) _ parents) in Hmp by apply isort_perm.
  destruct (try_fold _ _ _) as [[ms v]|[[]|]]; try done.
  - destruct Hmp as (-> & -> & Hv & Hms & Hall). rewrite (past_sum_split sp); [|apply Hsel|apply Hsp].
    split_and!; try done.
    intros p h Hp Hh. apply elem_of_dom. destruct (decide (p = sp)) as [->|Hne].
    + apply Hdom. by apply elem_of_ancestors_inclusive.
    + apply (Hall p); [|by apply elem_of_ancestors_inclusive].
      apply list_elem_of_filter. split; [done|]. by apply isort_elem_of.
  - destruct Hmp as (? & p & ?%isort_elem_of & ?). simpl. eauto.
  - destruct Hmp as (-> & Hlt). split; [done|]. rewrite (past_sum_split sp); [|apply Hsel|apply Hsp]. lia.
  - destruct Hmp as (-> & Hlt). split; [done|]. exists (Some sp). done.
Qed.

(** *** Candidates *)

(** The candidate of a hash, and the order of the candidates, best first. *)
Definition scored (h : Hash) : Hash * SelectionScoreV1 :=
  (h, default (mkSelectionScoreV1 0 0 0 h) (score_of state h)).
Definition compare_scored (a b : Hash) : comparison :=
  compare_selection_scores_v1 (scored b).2 (scored a).2.
#[global] Instance compare_scored_order : CmpOrder compare_scored.
Proof.
  split.
  - notypeclasses refine (cmp_pre_flip (fun a b => compare_selection_scores_v1 (scored a).2 (scored b).2)).
    apply (cmp_pre_comap (fun h => (scored h).2)). apply _.
  - intros a b E%(cmp_eq (cmp:=compare_selection_scores_v1)). apply (f_equal ss_hash) in E.
    assert (Hs : forall h, ss_hash (scored h).2 = h).
    { intros h. unfold scored. simpl. destruct (score_of state h) eqn:Hh; [|done]. by apply score_of_hash in Hh. }
    by rewrite !Hs in E.
Qed.

Lemma score_candidates_spec cands l :
  match try_fold (score_candidate state) cands l with
  | Ok r => r = cands ++ map scored l /\ Forall (fun h => is_Some (score_of state h)) l
  | Err (Some (MissingBlock h)) => h ∈ l /\ d_blocks (cs_dag state) !! h = None
  | Err (Some (MissingBlueWork h)) => h ∈ l /\ d_blue_work (cs_dag state) !! h = None
  | Err _ => False
  end.
Proof.
  revert cands. induction l as [|h l IH]; intros cands; simpl.
  { split; [by rewrite app_nil_r|constructor]. }
  unfold score_candidate at 1.
  destruct (d_blocks (cs_dag state) !! h) as [b|] eqn:Hb; simpl; [|split; [left|done]].
  destruct (d_blue_work (cs_dag state) !! h) as [w|] eqn:Hw; simpl; [|split; [left|done]].
  assert (Hsc : score_of state h = Some (mkSelectionScoreV1 w (h_blue_score (b_header b)) (h_height (b_header b)) h))
    by (unfold score_of; by rewrite Hb, Hw).
  specialize (IH (cands ++ [(h, mkSelectionScoreV1 w (h_blue_score (b_header b)) (h_height (b_header b)) h)])).
  destruct (try_fold _ _ l) as [r|[[]|]]; try done.
  - destruct IH as [-> Hall]. split; [|by constructor].
    rewrite <- app_assoc. unfold scored at 2. by rewrite Hsc.
  - destruct IH. split; [by right|done].
  - destruct IH. split; [by right|done].
Qed.

Lemma sorted_candidates l :
  map fst (isort (cmp_le (fun p q : Hash * SelectionScoreV1 => compare_selection_scores_v1 q.2 p.2)) (map scored l))
  = isort (cmp_le compare_scored) l.
Proof.
  rewrite (isort_map scored _ (cmp_le compare_scored)) by done.
  rewrite map_map. simpl. apply map_id.
Qed.

(** *** The classification *)

(** The specification of a classification. *)
Record classified (c : GhostdagV1Classification) : Prop := {
  (** the selected parent is the best of the parents *)
  cv_selectable : selectable state parents;
  cv_selected : selected_is (gc_selected_parent c);
  (** the merge set is the past of the parents outside the past of the selected
      one, best first; every member is stored and scored *)
  cv_merge_set : gc_merge_set c =
    isort (cmp_le compare_scored) (elements (merged state (gc_selected_parent c) parents));
  cv_scored : Forall (fun h => is_Some (score_of state h)) (gc_merge_set c);
  cv_stored : forall p h, p ∈ parents -> ancestor state p h -> is_Some (d_blocks (cs_dag state) !! h);
  (** the k rule *)
  cv_colouring : foldl (color_candidate state (gl_k limits)) ([], []) (gc_merge_set c)
    = (gc_blues c, gc_reds c);
  (** score and work *)
  cv_score_work : exists score work,
    match gc_selected_parent c with
    | Some sp => exists b, d_blocks (cs_dag state) !! sp = Some b /\ score = h_blue_score (b_header b) /\
        d_blue_work (cs_dag state) !! sp = Some work
    | None => score = 0 /\ work = 0
    end /\
    gc_blue_score c = Z.min (score + 1 + Z.of_nat (length (gc_blues c))) u64_max /\
    gc_blue_work c = Z.min (work + 1 + Z.of_nat (length (gc_blues c))) u128_max;
  (** the limits *)
  cv_k : gc_k c = gl_k limits;
  cv_ancestor_visits : gc_ancestor_visits c = past_sum state parents;
  cv_limits : gc_ancestor_visits c <= gl_max_ancestor_visits limits /\
    Z.of_nat (length (gc_merge_set c)) <= gl_max_merge_set_blocks limits /\
    0 <= gc_relation_visits c <= gl_max_relation_visits limits;
}.

Lemma saturating_add_twice w a n :
  0 <= n -> saturating_add w (saturating_add w a 1) n = Z.min (a + 1 + n) (u_max w).
Proof. unfold saturating_add. lia. Qed.

Lemma derive_score_work_v1_spec sp blues :
  selected_is sp -> Z.of_nat (length blues) <= u64_max ->
  exists score work,
    derive_score_work_v1 sp blues state =
      Ok (Z.min (score + 1 + Z.of_nat (length blues)) u64_max,
          Z.min (work + 1 + Z.of_nat (length blues)) u128_max) /\
    match sp with
    | Some sp => exists b, d_blocks (cs_dag state) !! sp = Some b /\ score = h_blue_score (b_header b) /\
        d_blue_work (cs_dag state) !! sp = Some work
    | None => score = 0 /\ work = 0
    end.
Proof.
  intros Hsp Hlen. unfold derive_score_work_v1.
  assert (Hinto : try_into 64 (Z.of_nat (length blues)) = Some (Z.of_nat (length blues)))
    by (apply try_into_Some; unfold in_u; lia).
  rewrite Hinto. cbn [default].
  destruct sp as [sp|]; simpl.
  - destruct Hsp as (_ & s & (b & w & Hb & Hw & _)%score_of_Some & _). rewrite Hb, Hw. simpl.
    exists (h_blue_score (b_header b)), w. rewrite !saturating_add_twice by lia. eauto.
  - exists 0, 0. rewrite !saturating_add_twice by lia. done.
Qed.

Lemma color_lengths k l blues reds :
  foldl (color_candidate state k) ([], []) l = (blues, reds) -> (length blues <= length l)%nat.
Proof.
  intros [Hp _]%color_fold_spec; [|by intros [] ? ? [=]]. apply Permutation_length in Hp.
  rewrite length_app in Hp. simpl in Hp. lia.
Qed.

Lemma classify_total `{Crypto} :
  limits_typed ->
  match classify_merge_set_with_limits block state limits with
  | Ok c => classified c
  | Err e => classify_error e
  end.
Proof.
  intros Hty. unfold classify_merge_set_with_limits.
  pose proof (bounded_merge_set_spec Hty) as Hb. destruct Hty as (_ & _ & [_ Hmt] & [Hrel _]).
  destruct (calculate_bounded_merge_set_with_limits _ _ _) as [b|e]; [|done].
  destruct Hb as (Hsel & Hsp & Hms & Hsz & Hav & Hal & Hst).
  set (m := merged state (bm_selected_parent b) parents) in *.
  assert (Hin : forall h, h ∈ bm_merge_set b -> exists p, p ∈ parents /\ ancestor state p h).
  { intros h. rewrite Hms, elem_of_btree_iter. unfold m. destruct (bm_selected_parent b) as [sp|]; [|set_solver].
    rewrite elem_of_merged. naive_solver. }
  pose proof (score_candidates_spec [] (bm_merge_set b)) as Hc.
  destruct (try_fold (score_candidate state) _ _) as [cands|[[]|]]; try done.
  2: { destruct Hc as [Hh%Hin ?]. simpl. auto. }
  2: { destruct Hc as [Hh%Hin ?]. simpl. auto. }
  destruct Hc as [-> Hall]. simpl app. rewrite sorted_candidates.
  set (ms := isort (cmp_le compare_scored) (bm_merge_set b)).
  assert (Hperm : ms ≡ₚ elements m).
  { unfold ms. rewrite isort_perm, Hms. unfold btree_iter. by rewrite isort_perm. }
  assert (Hlen : length ms = size m) by (by rewrite Hperm).
  pose proof (color_fold_v1_spec state limits ms [] [] 0 (Z.of_nat (size m)) Hrel) as Hcol.
  cbv zeta in Hcol. rewrite Hlen in Hcol. specialize (Hcol ltac:(simpl; lia)).
  destruct (try_fold (color_candidate_v1 state limits) _ ms) as [[[blues reds] rv]|e].
  2: { destruct e as [[]|]; try done; simpl in Hcol |- *.
       - destruct Hcol as (? & x & Hx & Hxh). split; [done|].
         destruct (Hin x) as (p & ? & Hpx). { unfold ms in Hx. by rewrite isort_elem_of in Hx. }
         exists p. split; [done|]. by eapply ancestor_trans.
       - destruct Hcol as [-> Hlt]. split; [done|]. exists (bm_selected_parent b). split; [done|]. fold m. lia. }
  destruct Hcol as [Hcol Hrv]. pose proof (color_lengths _ _ _ _ Hcol) as Hbl.
  destruct (derive_score_work_v1_spec (bm_selected_parent b) blues Hsp ltac:(lia)) as (sc & wk & -> & Hsw).
  split; cbn [gc_selected_parent gc_merge_set gc_blues gc_reds gc_blue_score gc_blue_work gc_k
    gc_ancestor_visits gc_relation_visits]; try done.
  - fold m. unfold ms. apply isort_perm_eq; [apply _..|]. rewrite Hms. unfold btree_iter. by rewrite isort_perm.
  - rewrite Forall_forall in Hall |- *. intros h. unfold ms. rewrite isort_elem_of. apply Hall.
  - exists sc, wk. done.
  - split; [done|]. rewrite Hlen. split; [done|lia].
Qed.
End classification.

(** ** Order of the parents *)

Lemma classify_parents_perm `{Crypto} b1 b2 state limits c :
  h_parents (b_header b1) ≡ₚ h_parents (b_header b2) ->
  classify_merge_set_with_limits b1 state limits = Ok c ->
  classify_merge_set_with_limits b2 state limits = Ok c.
Proof.
  intros Hp. unfold classify_merge_set_with_limits, calculate_bounded_merge_set_with_limits.
  rewrite (isort_perm_eq String.le (h_parents (b_header b1)) (h_parents (b_header b2)) Hp).
  destruct (calculate_selected_parent_v1 b1 state) as [sp|e] eqn:Hsp; [|by intros [=]].
  by rewrite (calculate_selected_parent_v1_perm b1 b2 state sp Hp Hsp).
Qed.

(** C21: the GHOSTDAG v1 classification always returns.  On success the selected
    parent is the parent of greatest work, score and height with the smallest
    hash; blues and reds partition, without repetition, the past of the parents
    outside the past of the selected parent, considered best first; every blue has
    fewer than [k] unrelated blues before it and every red at least [k]; score and
    work add one for the block and one per blue; the visits are within the limits,
    and the order of the parents does not matter.  On failure the error is true:
    parents that are too many, repeated or unknown, an ancestor that is not
    stored or has no work, or a limit that the past, the merge set or the
    relation walks exceed. *)
Theorem ghostdag_v1_classification_spec `{Crypto} block state limits :
  limits_typed limits ->
  match classify_merge_set_with_limits block state limits with
  | Ok c =>
      classified state limits block c /\
      NoDup (gc_blues c ++ gc_reds c) /\
      (forall sp h, gc_selected_parent c = Some sp ->
         h ∈ gc_blues c ++ gc_reds c <->
         (exists p, p ∈ h_parents (b_header block) /\ ancestor state p h) /\ ~ ancestor state sp h) /\
      blue_bounded state (gl_k limits) (gc_blues c) /\
      Forall (fun x => gl_k limits <= unrelated state x (gc_blues c)) (gc_reds c) /\
      (forall block', h_parents (b_header block) ≡ₚ h_parents (b_header block') ->
         classify_merge_set_with_limits block' state limits = Ok c)
  | Err e => classify_error state limits block e
  end.
Proof.
  intros Hty. pose proof (classify_total state limits block Hty) as Ht.
  destruct (classify_merge_set_with_limits block state limits) as [c|e] eqn:Hc; [|done].
  split; [done|]. pose proof (cv_colouring _ _ _ _ Ht) as Hcol.
  apply color_fold_reds in Hcol as Hred; [|constructor]. destruct Hred as [_ Hred].
  apply color_fold_spec in Hcol as [Hp Hb]; [|by intros [] ? ? [=]]. simpl in Hp.
  rewrite (cv_merge_set _ _ _ _ Ht), isort_perm in Hp.
  split; [rewrite Hp; apply NoDup_elements|]. split; [|split; [done|split; [done|]]].
  - intros sp h Hsp. rewrite Hp, elem_of_elements, Hsp. apply elem_of_merged.
  - intros block' Hbl. by eapply classify_parents_perm.
Qed.

(** ** Agreement with the live classification *)

(** The blue work of every stored block is its blue score. *)
Definition work_is_score (state : ChainState) : Prop :=
  forall h b, d_blocks (cs_dag state) !! h = Some b ->
    d_blue_work (cs_dag state) !! h = Some (h_blue_score (b_header b)).

Lemma score_of_uniform state h b :
  work_is_score state -> d_blocks (cs_dag state) !! h = Some b ->
  score_of state h = Some (mkSelectionScoreV1 (h_blue_score (b_header b)) (h_blue_score (b_header b))
    (h_height (b_header b)) h).
Proof. intros Hw Hb. unfold score_of. by rewrite Hb, (Hw h b Hb). Qed.

(** On such a DAG the two preferences agree. *)
Lemma compare_uniform state a b sa sb :
  keyed_blocks state -> work_is_score state ->
  d_blocks (cs_dag state) !! ss_hash sa = Some a -> score_of state (ss_hash sa) = Some sa ->
  d_blocks (cs_dag state) !! ss_hash sb = Some b -> score_of state (ss_hash sb) = Some sb ->
  compare_selection_scores_v1 sa sb = compare_selected_parent_candidates a b.
Proof.
  intros Hk Hw Ha Hsa Hb Hsb. rewrite (score_of_uniform _ _ _ Hw Ha) in Hsa.
  rewrite (score_of_uniform _ _ _ Hw Hb) in Hsb. injection Hsa as <-. injection Hsb as <-. simpl in *.
  unfold compare_selection_scores_v1, compare_selected_parent_candidates. simpl.
  rewrite (Hk _ _ Ha), (Hk _ _ Hb).
  by destruct (h_blue_score (b_header a) ?= h_blue_score (b_header b)).
Qed.

Lemma selected_parent_uniform block state sp :
  keyed_blocks state -> work_is_score state -> selectable state (h_parents (b_header block)) ->
  selected_is state block sp -> calculate_selected_parent block state = sp.
Proof.
  intros Hk Hw (_ & _ & Hall) Hsp. rewrite Forall_forall in Hall.
  destruct (calculate_selected_parent block state) as [h|] eqn:Hc.
  - apply calculate_selected_parent_Some in Hc as (b & Hin & Hb & Hmax).
    destruct sp as [best|]; [|rewrite Hsp in Hin; by apply not_elem_of_nil in Hin].
    destruct Hsp as (Hbest & sb & Hsb & Hle). pose proof Hsb as (bb & w & Hbb & _)%score_of_Some.
    destruct (Hle h Hin) as (sh & Hsh & L1). specialize (Hmax best bb Hbest Hbb).
    pose proof (score_of_hash _ _ _ Hsb) as E1. pose proof (score_of_hash _ _ _ Hsh) as E2. subst.
    unfold cmp_le in Hmax. rewrite <- (compare_uniform state bb b sb sh) in Hmax by done.
    f_equal. f_equal. apply (cmp_eq (cmp:=compare_selection_scores_v1)).
    by apply cmp_le_anti; [apply _|..].
  - rewrite calculate_selected_parent_None in Hc. destruct sp as [best|]; [|done]. exfalso.
    destruct Hsp as (Hin & s & (b & w & Hb & _)%score_of_Some & _). rewrite (Hc best Hin) in Hb. done.
Qed.

(** When the blue work of the stored blocks is their blue score, GHOSTDAG v1 is the
    classification of [ghostdag.rs]. *)
Lemma ghostdag_v1_agrees `{Crypto} block state limits c :
  limits_typed limits -> keyed_blocks state -> work_is_score state ->
  classify_merge_set_with_limits block state limits = Ok c ->
  let m := classify_merge_set_with_k block state (gl_k limits) in
  msc_selected_parent m = gc_selected_parent c /\ msc_merge_set m = gc_merge_set c /\
  msc_blues m = gc_blues c /\ msc_reds m = gc_reds c /\
  msc_blue_score m = gc_blue_score c /\ msc_blue_work m = gc_blue_work c.
Proof.
  intros Hty Hk Hw Hc. pose proof (classify_total state limits block Hty) as Ht. rewrite Hc in Ht.
  pose proof (selected_parent_uniform _ _ _ Hk Hw (cv_selectable _ _ _ _ Ht) (cv_selected _ _ _ _ Ht)) as Hsp.
  pose proof (cv_merge_set _ _ _ _ Ht) as Hms.
  assert (Hlist : calculate_merge_set block state
    = btree_iter (merged state (gc_selected_parent c) (h_parents (b_header block)))).
  { unfold calculate_merge_set. rewrite Hsp. by destruct (gc_selected_parent c). }
  assert (Hsort : isort (cmp_le (compare_merge_set state)) (calculate_merge_set block state) = gc_merge_set c).
  { rewrite Hms, Hlist. pose proof (cv_scored _ _ _ _ Ht) as Hall. rewrite Hms, isort_perm, Forall_forall in Hall.
    rewrite (isort_ext_on (cmp_le (compare_merge_set state)) (cmp_le (compare_scored state))).
    { apply isort_perm_eq; [apply _..|]. unfold btree_iter. by rewrite isort_perm. }
    intros x y. rewrite !elem_of_btree_iter, <- !elem_of_elements.
    intros [sx Hx]%Hall [sy Hy]%Hall. pose proof (score_of_hash _ _ _ Hx) as <-.
    pose proof (score_of_hash _ _ _ Hy) as <-.
    pose proof Hx as (bx & _ & Hbx & _)%score_of_Some. pose proof Hy as (bye & _ & Hby & _)%score_of_Some.
    unfold cmp_le, compare_merge_set, compare_scored, scored. rewrite Hx, Hy, Hbx, Hby. simpl.
    rewrite <- (compare_uniform state bye bx sy sx) by done.
    destruct (compare_selection_scores_v1 sy sx) eqn:E; simpl; try done.
    apply (cmp_eq (cmp:=compare_selection_scores_v1)) in E. subst.
    by rewrite (cmp_refl String.compare). }
  pose proof (cv_colouring _ _ _ _ Ht) as Hcol. cbv zeta. unfold classify_merge_set_with_k.
  rewrite Hsort, Hsp, Hcol. cbn [msc_selected_parent msc_merge_set msc_blues msc_reds msc_blue_score msc_blue_work].
  destruct (cv_score_work _ _ _ _ Ht) as (score & work & Hsw & -> & ->).
  rewrite !saturating_add_twice by lia. split_and!; try done.
  - destruct (gc_selected_parent c); [|by destruct Hsw as [-> _]]. by destruct Hsw as (b & -> & -> & _).
  - destruct (gc_selected_parent c); [|by destruct Hsw as [_ ->]]. by destruct Hsw as (b & _ & _ & ->).
Qed.

(** ** Witnesses *)

(** The diamond with its blue work. *)
Definition worked_diamond : ChainState :=
  diamond <| cs_dag ::= fun dag => dag <| d_blue_work := {[ "g" := 0; "a" := 1; "b" := 1; "c" := 3 ]} |> |>.
Definition two_tips : Block := sample_block "d" ["a"; "b"] 2 3.

Lemma ghostdag_v1_classification_spec_witness :
  exists c, @classify_merge_set_v1 model_crypto two_tips worked_diamond = Ok c /\ gc_blues c = ["b"] /\
    blue_bounded worked_diamond 2 (gc_blues c).
Proof.
  assert (Hty : limits_typed GhostdagV1Limits_default) by (unfold limits_typed; by_decide).
  pose proof (@ghostdag_v1_classification_spec model_crypto two_tips worked_diamond GhostdagV1Limits_default Hty) as Hs.
  unfold classify_merge_set_v1.
  destruct (classify_merge_set_with_limits two_tips worked_diamond GhostdagV1Limits_default) as [c|e] eqn:E.
  - exists c. split; [done|]. split; [|apply Hs]. revert E. vm_compute. by intros [= <-].
  - exfalso. revert E. vm_compute. by intros [=].
Defined.
