(* ===== verification/Mining.v ===== *)
(** * Block templates ([mining.rs])

    Coinbase recognition and the builders of coinbase transactions and candidate
    blocks.  The system clock ([current_ts]) is an argument. *)

From stdpp Require Import pretty.
From S2P Require Import Prelude Encoding Crypto Types Merkle State Tx.

Definition is_coinbase (tx : Transaction) : bool :=
  bool_decide (tx_inputs tx = []) && negb (bool_decide (tx_outputs tx = [])) && (tx_fee tx =? 0).

#[global] Instance eta_BlockHeader : Eta BlockHeader := fun r =>
  mkBlockHeader (h_version r) (h_parents r) (h_timestamp r) (h_difficulty r) (h_nonce r)
    (h_merkle_root r) (h_state_root r) (h_blue_score r) (h_height r).
#[global] Instance eta_Block : Eta Block := fun r =>
  mkBlock (b_hash r) (b_header r) (b_transactions r).
#[global] Instance eta_Transaction : Eta Transaction := fun r =>
  mkTransaction (tx_txid r) (tx_version r) (tx_inputs r) (tx_outputs r) (tx_fee r) (tx_nonce r).

Section mining.
Context `{Crypto}.

Definition build_coinbase_transaction (miner_address : Address) (reward nonce : Z)
  : outcome Transaction :=
  let tx := mkTransaction "" 1 [] [mkTxOutput miner_address reward] 0 nonce in
  let? txid := expect (compute_txid tx) in
  Ok (tx <| tx_txid := txid |>).

Definition build_candidate_block (now : Z) (parents : list Hash) (height difficulty : Z)
    (txs : list Transaction) : outcome Block :=
  let? merkle_root := expect (compute_merkle_root txs) in
  let block := {|
    b_hash := "";
    b_header := {|
      h_version := 1; h_parents := parents; h_timestamp := now; h_difficulty := difficulty;
      h_nonce := 0; h_merkle_root := merkle_root; h_state_root := "state-" +:+ pretty height;
      h_blue_score := height; h_height := height |};
    b_transactions := txs |} in
  let? hash := expect (compute_block_hash (b_header block)) in
  Ok (block <| b_hash := hash |>).

Definition refresh_block_consensus_ids (block : Block) : outcome Block :=
  let? merkle_root := expect (compute_merkle_root (b_transactions block)) in
  let block := block <| b_header ::= fun h => h <| h_merkle_root := merkle_root |> |> in
  let? hash := expect (compute_block_hash (b_header block)) in
  Ok (block <| b_hash := hash |>).
End mining.

Lemma is_coinbase_spec tx :
  is_coinbase tx = true <-> tx_inputs tx = [] /\ tx_outputs tx <> [] /\ tx_fee tx = 0.
Proof. unfold is_coinbase. rewrite !andb_true_iff, negb_true_iff, bool_decide_eq_true, bool_decide_eq_false, Z.eqb_eq. naive_solver. Qed.
