(* ===== verification/Genesis.v ===== *)
(** * The genesis block and the initial state ([genesis.rs]) *)

From S2P Require Import Prelude Encoding Crypto Types Merkle State Tx Selection Retarget.
From S2P Require Import Ghostdag Ordering Mining.

Definition GENESIS_TREASURY : Address := "genesis-treasury".
Definition GENESIS_SUPPLY : Z := 1000000000.

Section genesis.
Context `{Crypto, HashOrder}.

Definition genesis_transaction : outcome Transaction :=
  let tx := mkTransaction "" 1 [] [mkTxOutput GENESIS_TREASURY GENESIS_SUPPLY] 0 0 in
  let? txid := expect (compute_txid tx) in
  Ok (tx <| tx_txid := txid |>).

(** The unspent outputs both functions below build. *)
Definition genesis_utxo (tx : Transaction) : UtxoState :=
  let outpoint := mkOutPoint (tx_txid tx) 0 in
  {| u_utxos := {[ outpoint := mkUtxo outpoint GENESIS_TREASURY GENESIS_SUPPLY false 0 ]};
     u_address_index := {[ GENESIS_TREASURY := [outpoint] ]} |}.

Definition genesis_block : outcome Block :=
  let? tx := genesis_transaction in
  let txs := [tx] in
  let? state_root :=
    map_err (fun _ => None) (compute_state_root (genesis_utxo tx)) in
  let? merkle_root := expect (compute_merkle_root txs) in
  let block := {|
    b_hash := "";
    b_header := {|
      h_version := 1; h_parents := []; h_timestamp := 0;
      h_difficulty := CONSENSUS_POW_LIMIT_BITS; h_nonce := 0; h_merkle_root := merkle_root;
      h_state_root := state_root; h_blue_score := 0; h_height := 0 |};
    b_transactions := txs |} in
  let? hash := expect (compute_block_hash (b_header block)) in
  Ok (block <| b_hash := hash |>).

(** [genesis.transactions[0]] panics on an empty list. *)
Definition init_chain_state (chain_id : string) : outcome ChainState :=
  let? genesis := genesis_block in
  let? tx := expect (b_transactions genesis !! 0%nat) in
  let selected_chain := [b_hash genesis] in
  Ok {|
    cs_chain_id := chain_id;
    cs_dag := {|
      d_blocks := {[ b_hash genesis := genesis ]};
      d_tips := {[ b_hash genesis ]};
      d_children := ∅;
      d_genesis_hash := b_hash genesis;
      d_best_height := 0;
      d_consensus_mode := Legacy;
      d_selected_parents := {[ b_hash genesis := None ]};
      d_selected_chain := selected_chain;
      d_selected_parent_policy := LegacyTip;
      d_merge_set_k := DEFAULT_MERGE_SET_K;
      d_merge_set_blues := ∅;
      d_merge_set_reds := ∅;
      d_blue_work := {[ b_hash genesis := 0 ]};
      d_merge_set_diagnostics := ∅;
      d_ordered_dag := selected_chain;
      d_ordering_version := DAG_ORDERING_VERSION;
      d_ordered_dag_rebuild_total := 0;
      d_ordered_dag_rebuild_failed_total := 0;
      d_ordered_dag_state_root := None;
      d_ordered_dag_tip := last selected_chain;
      d_ordered_dag_conflict_diagnostics := [] |};
    cs_utxo := genesis_utxo tx;
    cs_mempool := Mempool_default;
    cs_contracts := {|
      crs_config := mkContractRuntimeConfig false "reserved-v1" 10000000 (64 * 1024) 128 (64 * 1024);
      crs_contract_count := 0; crs_storage_slots := 0; crs_receipt_count := 0;
      crs_last_receipt_id := None |};
    cs_orphan_blocks := ∅; cs_orphan_missing_parents := ∅; cs_orphan_parent_index := ∅;
    cs_orphan_received_at_ms := ∅; cs_terminal_missing_parents := ∅;
    cs_chain_state_generation := 0;
    cs_accepted_commit_generation_conflict_total := 0;
    cs_accepted_commit_reprepare_total := 0;
    cs_accepted_commit_serialized_total := 0;
    cs_accepted_commit_publish_mismatch_total := 0;
    cs_accepted_commit_last_hash := None;
    cs_accepted_commit_last_source := None;
    cs_chain_state_mutation_generation := 0;
    cs_chain_state_mutation_source := None;
    cs_chain_state_mutation_conflict_total := 0;
    cs_chain_state_reprepare_total := 0;
    cs_accepted_hash_lost_from_memory_total := 0;
    cs_accepted_hash_terminalization_prevented_total := 0;
    cs_accepted_storage_repair_total := 0;
    cs_last_lost_accepted_hash := None;
    cs_last_lost_accepted_height := None |}.
End genesis.

(** ** The initial state *)

Lemma genesis_utxo_consistent tx : index_consistent (genesis_utxo tx).
Proof.
  unfold genesis_utxo. split; simpl.
  - intros o v [<- <-]%lookup_singleton_Some. done.
  - intros o v [<- <-]%lookup_singleton_Some. exists [mkOutPoint (tx_txid tx) 0].
    simpl. rewrite lookup_singleton_eq. set_solver.
  - intros a l o [<- <-]%lookup_singleton_Some ->%list_elem_of_singleton.
    eexists. by rewrite lookup_singleton_eq.
  - intros a l [<- <-]%lookup_singleton_Some. apply NoDup_singleton.
Qed.

Section genesis_laws.
Context `{CryptoLaws, HashOrder}.

Lemma encode_hex_Some d :
  length d = 32%nat -> is_Some (encode_len_prefixed_str (hex_encode d)).
Proof.
  intros Hd. unfold encode_len_prefixed_str, encode_len_prefixed_bytes.
  rewrite hex_encode_length, Hd. by eexists.
Qed.

Lemma genesis_transaction_ok :
  exists d tx, length d = 32%nat /\ genesis_transaction = Ok tx /\
    tx = mkTransaction (hex_encode d) 1 [] [mkTxOutput GENESIS_TREASURY GENESIS_SUPPLY] 0 0.
Proof.
  unfold genesis_transaction, compute_txid.
  destruct (canonical_transaction_bytes _) as [b|] eqn:E; [|by vm_compute in E].
  do 2 eexists. split; [|split; [reflexivity|reflexivity]]. apply sha256_length.
Qed.

Lemma genesis_state_root_ok tx d :
  length d = 32%nat -> tx_txid tx = hex_encode d ->
  exists e, length e = 32%nat /\ compute_state_root (genesis_utxo tx) = Ok (hex_encode e).
Proof.
  intros Hd Htx.
  assert (Hb : is_Some (utxo_state_root_bytes (genesis_utxo tx))).
  { unfold utxo_state_root_bytes. apply emit_is_Some. repeat apply Forall_cons_2; [by eexists..|].
    apply Forall_map, Forall_forall. intros [o v] Hin%elem_of_ordered_utxos.
    unfold genesis_utxo in Hin. simpl in Hin. apply lookup_singleton_Some in Hin as [<- <-]. unfold encode_utxo. simpl op_txid. rewrite Htx.
    apply emit_is_Some. repeat apply Forall_cons_2; try (by eexists); [|constructor].
    by apply encode_hex_Some. }
  destruct Hb as [b Hb]. exists (sha256 b). split; [apply sha256_length|].
  apply compute_state_root_Ok. split; [apply genesis_utxo_consistent|]. eauto.
Qed.

Lemma merkle_root_single tx :
  exists e, length e = 32%nat /\ compute_merkle_root [tx] = Some (hex_encode e).
Proof.
  exists (merkle_leaf (tx_txid tx)). split; [|reflexivity].
  unfold merkle_leaf. repeat case_match; apply sha256_length.
Qed.

Lemma init_chain_state_facts chain_id :
  exists s g, init_chain_state chain_id = Ok s /\ genesis_block = Ok g /\
    d_blocks (cs_dag s) = {[ b_hash g := g ]} /\
    compute_block_hash (b_header g) = Some (b_hash g) /\
    compute_state_root (cs_utxo s) = Ok (h_state_root (b_header g)) /\
    index_consistent (cs_utxo s) /\ preferred_tip_hash s = Some (b_hash g) /\
    (exists tx, b_transactions g = [tx] /\ cs_utxo s = genesis_utxo tx /\
       tx_outputs tx = [mkTxOutput GENESIS_TREASURY GENESIS_SUPPLY] /\ tx_version tx = 1 /\
       tx_inputs tx = [] /\ tx_fee tx = 0 /\ tx_nonce tx = 0) /\
    h_parents (b_header g) = [] /\ h_height (b_header g) = 0 /\
    d_genesis_hash (cs_dag s) = b_hash g /\ d_tips (cs_dag s) = {[ b_hash g ]} /\
    d_children (cs_dag s) = ∅ /\ d_selected_parents (cs_dag s) = {[ b_hash g := None ]} /\
    d_best_height (cs_dag s) = 0 /\ d_consensus_mode (cs_dag s) = Legacy /\
    cs_chain_id s = chain_id.
Proof.
  unfold init_chain_state, genesis_block.
  destruct genesis_transaction_ok as (d & tx & Hd & Htx & Etx). rewrite Htx.
  destruct (genesis_state_root_ok tx d Hd) as (e & He & Hroot); [by subst|]. rewrite Hroot.
  cbv zeta. cbn [map_err].
  destruct (merkle_root_single tx) as (m & Hm & Hmr). rewrite Hmr. cbn [expect ok_or b_header].
  unfold compute_block_hash.
  destruct (canonical_block_header_bytes _) as [hb|] eqn:Ehb.
  2: { exfalso. apply eq_None_not_Some in Ehb. apply Ehb. apply emit_is_Some.
       repeat apply Forall_cons_2; try (by eexists); try constructor; by apply encode_hex_Some. }
  simpl. do 2 eexists. split; [reflexivity|]. split; [reflexivity|]. simpl. rewrite Ehb.
  split; [done|]. split; [done|]. split; [by rewrite Hroot|].
  split; [apply genesis_utxo_consistent|].
  split; [|split_and!; try done; exists tx; by subst].
  unfold preferred_tip_hash, sorted_tip_hashes, sorted_tip_hashes_with_policy. simpl.
  assert (Hs : set_iter {[hex_encode (sha256 hb)]} = [hex_encode (sha256 hb)]).
  { apply Permutation_singleton_r. by rewrite set_iter_perm, elements_singleton. }
  rewrite Hs. unfold with_blocks. simpl. by rewrite lookup_singleton_eq.
Qed.

(** The initial state exists (no conversion in its construction panics),
    its address index is consistent, it holds the genesis block under that
    block's own hash, and the genesis header commits to the initial unspent
    outputs. *)
Lemma init_chain_state_ok chain_id :
  exists s g, init_chain_state chain_id = Ok s /\ genesis_block = Ok g /\
    d_blocks (cs_dag s) = {[ b_hash g := g ]} /\
    compute_block_hash (b_header g) = Some (b_hash g) /\
    compute_state_root (cs_utxo s) = Ok (h_state_root (b_header g)) /\
    index_consistent (cs_utxo s) /\ preferred_tip_hash s = Some (b_hash g).
Proof.
  destruct (init_chain_state_facts chain_id) as (s & g & F1 & F2 & F3 & F4 & F5 & F6 & F7 & _).
  exists s, g. by split_and!.
Qed.
End genesis_laws.

Lemma init_chain_state_ok_witness :
  exists s, @init_chain_state model_crypto list_order "main" = Ok s /\ index_consistent (cs_utxo s).
Proof.
  destruct (@init_chain_state_ok model_crypto model_crypto_laws list_order "main")
    as (s & g & Hs & _ & _ & _ & _ & Hi & _).
  exists s. split; [exact Hs|exact Hi].
Defined.
