(* ===== verification/Apply.v ===== *)
(** * Applying transactions and blocks ([apply.rs])

    [apply_transaction] mutates the state it is given and can fail half-way, so
    it returns the state it leaves behind together with its result.  On top of
    it: the block's DAG metadata and the replay of the ordered DAG. *)

From stdpp Require Import pretty.
From S2P Require Import Prelude Encoding Crypto Types Merkle State Tx Graph Selection.
From S2P Require Import Ghostdag Ordering Mining Genesis.

(** ** One transaction *)

(** [created_outpoints]; the output index is cast to [u32]. *)
Definition created_outpoint (tx : Transaction) (index : nat) : OutPoint :=
  mkOutPoint (tx_txid tx) (Z.of_nat index mod 2 ^ 32).

(** The first loop: [Err] when an outpoint repeats or already exists. *)
Fixpoint collect_created (tx : Transaction) (utxos : gmap OutPoint Utxo) (index : nat)
    (outputs : list TxOutput) (seen : gset OutPoint) : result PulseError (list OutPoint) :=
  match outputs with
  | [] => Ok []
  | _ :: outputs' =>
      let outpoint := created_outpoint tx index in
      if bool_decide (outpoint ∈ seen) || bool_decide (is_Some (utxos !! outpoint))
      then Err (DuplicateUtxoOutpoint (outpoint_label outpoint))
      else let? rest := collect_created tx utxos (S index) outputs' ({[outpoint]} ∪ seen) in
           Ok (outpoint :: rest)
  end.

(** The body of the input loop: remove the output and its index entry. *)
Definition spend_input (u : UtxoState) (input : TxInput) : option UtxoState :=
  let o := in_previous_output input in
  match u_utxos u !! o with
  | None => None
  | Some spent =>
      Some {| u_utxos := delete o (u_utxos u);
              u_address_index :=
                match u_address_index u !! utxo_address spent with
                | Some entries =>
                    <[utxo_address spent := filter (fun op => op <> o) entries]> (u_address_index u)
                | None => u_address_index u
                end |}
  end.
(** The loop: the state after the inputs spent so far, and whether it ended. *)
Fixpoint spend_inputs (u : UtxoState) (inputs : list TxInput) : bool * UtxoState :=
  match inputs with
  | [] => (true, u)
  | i :: inputs' =>
      match spend_input u i with
      | Some u' => spend_inputs u' inputs'
      | None => (false, u)
      end
  end.

(** The body of the output loop. *)
Definition insert_output (tx : Transaction) (height : Z) (u : UtxoState) (o : OutPoint)
    (output : TxOutput) : option UtxoState :=
  match u_utxos u !! o with
  | Some _ => None
  | None =>
      let utxo := mkUtxo o (out_address output) (out_amount output) (is_coinbase tx) height in
      Some {| u_utxos := <[o := utxo]> (u_utxos u);
              u_address_index :=
                <[out_address output :=
                    default [] (u_address_index u !! out_address output) ++ [o]]> (u_address_index u) |}
  end.
Fixpoint insert_outputs (tx : Transaction) (height : Z) (u : UtxoState)
    (created : list (OutPoint * TxOutput)) : result PulseError unit * UtxoState :=
  match created with
  | [] => (Ok tt, u)
  | (o, output) :: created' =>
      match insert_output tx height u o output with
      | Some u' => insert_outputs tx height u' created'
      | None => (Err (DuplicateUtxoOutpoint (outpoint_label o)), u)
      end
  end.

(** The mempool part: drop the confirmed transaction and its spent marks. *)
Definition confirm_in_mempool (tx : Transaction) (mp : Mempool) : Mempool :=
  let mp :=
    match mp_transactions mp !! tx_txid tx with
    | Some _ =>
        mp <| mp_transactions ::= delete (tx_txid tx) |>
           <| mp_first_seen ::= delete (tx_txid tx) |>
           <| mp_admission_height ::= delete (tx_txid tx) |>
           <| mp_counters ::= fun c =>
                c <| mc_confirmed_removed_total := saturating_add 64 (mc_confirmed_removed_total c) 1 |> |>
    | None => mp
    end in
  foldl (fun mp input => mp <| mp_spent_outpoints ::= fun s => s ∖ {[in_previous_output input]} |>)
        mp (tx_inputs tx).

Definition apply_transaction (tx : Transaction) (state : ChainState) (height : Z)
  : result PulseError unit * ChainState :=
  match collect_created tx (u_utxos (cs_utxo state)) 0 (tx_outputs tx) ∅ with
  | Err e => (Err e, state)
  | Ok created_outpoints =>
      let '(spent_all, u) :=
        if is_coinbase tx then (true, cs_utxo state) else spend_inputs (cs_utxo state) (tx_inputs tx) in
      if negb spent_all then (Err UtxoNotFound, state <| cs_utxo := u |>)
      else
        let '(r, u) := insert_outputs tx height u (zip created_outpoints (tx_outputs tx)) in
        match r with
        | Err e => (Err e, state <| cs_utxo := u |>)
        | Ok _ => (Ok tt, state <| cs_utxo := u |> <| cs_mempool ::= confirm_in_mempool tx |>)
        end
  end.

(** [for tx in txs { apply_transaction(tx, state, height)?; }] on a state that is
    dropped when it fails. *)
Definition apply_transactions (txs : list Transaction) (state : ChainState) (height : Z)
  : result PulseError ChainState :=
  try_fold (fun s tx => match apply_transaction tx s height with
                        | (Ok _, s') => Ok s'
                        | (Err e, _) => Err e
                        end) state txs.

(** ** DAG metadata *)

Definition push_child (block_hash : Hash) (dag : DagState) (parent : Hash) : DagState :=
  dag <| d_tips ::= fun tips => tips ∖ {[parent]} |>
      <| d_children ::= fun children =>
           <[parent := dedup (isort String.le (default [] (children !! parent) ++ [block_hash]))]> children |>.

(** [parents.iter().filter(|p| blocks.contains_key(p)).max()]. *)
Definition max_stored_parent (block : Block) (dag : DagState) : option Hash :=
  max_by String.compare
    (filter (fun parent => is_Some (d_blocks dag !! parent)) (h_parents (b_header block))).

(** Always succeeds. *)
Definition accept_block_to_dag_metadata (block : Block) (state : ChainState) : ChainState :=
  let ghostdag_active := ghostdag_metadata_active (d_consensus_mode (cs_dag state)) in
  let classification := classify_merge_set block state in
  let block := block <| b_header ::= fun h => h <| h_blue_score := msc_blue_score classification |> |> in
  let hash := b_hash block in
  let dag := foldl (push_child hash) (cs_dag state) (h_parents (b_header block)) in
  let dag := dag <| d_tips ::= fun tips => {[hash]} ∪ tips |>
                 <| d_best_height ::= Z.max (h_height (b_header block)) |> in
  let selected_parent :=
    if ghostdag_active then msc_selected_parent classification else max_stored_parent block dag in
  state <| cs_dag := dag
    <| d_selected_parents ::= <[hash := selected_parent]> |>
    <| d_merge_set_blues ::= <[hash := msc_blues classification]> |>
    <| d_merge_set_reds ::= <[hash := msc_reds classification]> |>
    <| d_blue_work ::= <[hash := msc_blue_work classification]> |>
    <| d_merge_set_diagnostics ::= <[hash := msc_diagnostics classification]> |>
    <| d_blocks ::= <[hash := block]> |> |>.

(** ** Replay of the ordered DAG *)

Record OrderedDagRebuildDiagnostics := mkOrderedDagRebuildDiagnostics {
  ord_applied_transactions : Z;
  ord_skipped_conflicting_transactions : Z;
  ord_conflict_diagnostics : list string;
  ord_state_root : string;
  ord_ordered_dag_tip : option Hash;
}.
#[global] Instance eta_OrderedDagRebuildDiagnostics : Eta OrderedDagRebuildDiagnostics := fun r =>
  mkOrderedDagRebuildDiagnostics (ord_applied_transactions r)
    (ord_skipped_conflicting_transactions r) (ord_conflict_diagnostics r) (ord_state_root r)
    (ord_ordered_dag_tip r).
Record OrderedDagRebuild := mkOrderedDagRebuild {
  or_utxo : UtxoState;
  or_diagnostics : OrderedDagRebuildDiagnostics;
}.

Definition replay_transaction (block : Block)
    (acc : ChainState * OrderedDagRebuildDiagnostics) (tx : Transaction)
  : result PulseError (ChainState * OrderedDagRebuildDiagnostics) :=
  let '(rebuilt, diag) := acc in
  match apply_transaction tx rebuilt (h_height (b_header block)) with
  | (Ok _, rebuilt') => Ok (rebuilt', diag <| ord_applied_transactions ::= Z.add 1 |>)
  | (Err UtxoNotFound, rebuilt') | (Err (DuplicateUtxoOutpoint _), rebuilt') =>
      let diag := diag <| ord_skipped_conflicting_transactions ::= Z.add 1 |> in
      Ok (rebuilt', diag <| ord_conflict_diagnostics ::= fun l => l ++
        ["ordered_pos=" +:+ pretty (ord_applied_transactions diag
                                    + ord_skipped_conflicting_transactions diag)
         +:+ " block=" +:+ b_hash block +:+ " tx=" +:+ tx_txid tx +:+ " skipped_conflict"] |>)
  | (Err e, _) => Err e
  end.

Definition replay_block (state : ChainState) (acc : ChainState * OrderedDagRebuildDiagnostics)
    (hash : Hash) : result PulseError (ChainState * OrderedDagRebuildDiagnostics) :=
  if decide (hash = d_genesis_hash (cs_dag state)) then Ok acc
  else
    let? block := ok_or (d_blocks (cs_dag state) !! hash)
                        (Internal ("ordered DAG references missing block " +:+ hash)) in
    try_fold (replay_transaction block) acc (b_transactions block).

Section rebuild.
Context `{Crypto, HashOrder}.

Definition rebuild_state_from_ordered_dag (state : ChainState) : outcome OrderedDagRebuild :=
  let? rebuilt := init_chain_state (cs_chain_id state) in
  let rebuilt := rebuilt <| cs_dag ::= fun d =>
    d <| d_consensus_mode := d_consensus_mode (cs_dag state) |>
      <| d_selected_parent_policy := d_selected_parent_policy (cs_dag state) |> |> in
  let diagnostics := mkOrderedDagRebuildDiagnostics 0 0 [] "" (ordered_dag_tip state) in
  let? acc := lift (try_fold (replay_block state) (rebuilt, diagnostics) (d_ordered_dag (cs_dag state))) in
  let '(rebuilt, diagnostics) := acc in
  let? state_root := compute_state_root (cs_utxo rebuilt) in
  Ok {| or_utxo := cs_utxo rebuilt;
        or_diagnostics := diagnostics <| ord_state_root := state_root |> |}.
End rebuild.

Definition commit_rebuilt_state (state : ChainState) (rebuilt : OrderedDagRebuild) : ChainState :=
  state <| cs_utxo := or_utxo rebuilt |>
        <| cs_dag ::= fun d =>
             d <| d_ordered_dag_rebuild_total := saturating_add 64 (d_ordered_dag_rebuild_total d) 1 |>
               <| d_ordered_dag_state_root := Some (ord_state_root (or_diagnostics rebuilt)) |>
               <| d_ordered_dag_tip := ord_ordered_dag_tip (or_diagnostics rebuilt) |>
               <| d_ordered_dag_conflict_diagnostics :=
                    ord_conflict_diagnostics (or_diagnostics rebuilt) |> |>.
