(* ===== verification/ApplyProps.v ===== *)
(** * Correctness of transaction application ([apply.rs])

    The address index stays consistent whatever the outcome; a transaction that
    is applied moves value from the outputs it names to the outputs it creates;
    a transaction that fails on a missing input has already removed the inputs
    before it, which the ordered-DAG replay then keeps. *)

From S2P Require Import Prelude Encoding Crypto Types Merkle State Tx Graph Selection.
From S2P Require Import Ghostdag Ordering Mining Genesis Apply.

(** ** Value held by a set of unspent outputs *)

Definition total_amount (m : gmap OutPoint Utxo) : Z :=
  map_fold (fun _ v acc => utxo_amount v + acc) 0 m.

Lemma total_amount_insert m o v :
  m !! o = None -> total_amount (<[o := v]> m) = utxo_amount v + total_amount m.
Proof. intros Hm. unfold total_amount. rewrite map_fold_insert_L; [done|intros; lia|done]. Qed.
Lemma total_amount_delete m o v :
  m !! o = Some v -> total_amount m = utxo_amount v + total_amount (delete o m).
Proof. intros Hm. unfold total_amount. rewrite (map_fold_delete_L _ _ o v); [done|intros; lia|done]. Qed.

(** The outputs a list of inputs names, and what they hold in [m]. *)
Definition spent_outpoints (inputs : list TxInput) : list OutPoint := map in_previous_output inputs.
Definition amount_at (m : gmap OutPoint Utxo) (o : OutPoint) : Z :=
  match m !! o with Some v => utxo_amount v | None => 0 end.
Definition input_value (m : gmap OutPoint Utxo) (inputs : list TxInput) : Z :=
  sum_Z (map (amount_at m) (spent_outpoints inputs)).
Definition output_value (outputs : list TxOutput) : Z := sum_Z (map out_amount outputs).

(** ** Spending *)

Lemma spend_input_consistent u i u' :
  index_consistent u -> spend_input u i = Some u' -> index_consistent u'.
Proof.
  intros [Hk Hc Hs Hn]. unfold spend_input. set (o := in_previous_output i).
  destruct (u_utxos u !! o) as [spent|] eqn:Ho; [|done]. intros [= <-].
  destruct (Hc o spent Ho) as (entries & He & _). rewrite He.
  split; simpl.
  - intros o' v [_ Hv]%lookup_delete_Some. by apply Hk.
  - intros o' v [Hne Hv]%lookup_delete_Some. destruct (Hc o' v Hv) as (l & Hl & Hin).
    destruct (decide (utxo_address v = utxo_address spent)) as [Ha|Ha].
    + rewrite Ha, lookup_insert_eq. eexists. split; [done|]. rewrite Ha, He in Hl. simplify_eq.
      apply list_elem_of_filter. auto.
    + rewrite lookup_insert_ne by done. eauto.
  - intros a l o' Hl Hin. apply lookup_insert_Some in Hl as [[<- <-]|[Hne Hl]].
    + apply list_elem_of_filter in Hin as [Hno Hin]. destruct (Hs _ _ o' He Hin) as (v & Hv & Hav).
      exists v. by rewrite lookup_delete_ne.
    + destruct (Hs _ _ o' Hl Hin) as (v & Hv & Hav). exists v. split; [|done].
      rewrite lookup_delete_ne; [done|]. intros <-. congruence.
  - intros a l Hl. apply lookup_insert_Some in Hl as [[<- <-]|[Hne Hl]]; [|by apply (Hn a)].
    apply NoDup_filter. by apply (Hn _ _ He).
Qed.

Lemma spend_input_utxos u i u' :
  spend_input u i = Some u' ->
  is_Some (u_utxos u !! in_previous_output i) /\
  u_utxos u' = delete (in_previous_output i) (u_utxos u).
Proof. unfold spend_input. case_match; [|done]. intros [= <-]. eauto. Qed.

(** Removing a list of keys. *)
Definition without (os : list OutPoint) (m : gmap OutPoint Utxo) : gmap OutPoint Utxo :=
  foldl (fun m o => delete o m) m os.
Lemma lookup_without os m o :
  without os m !! o = if decide (o ∈ os) then None else m !! o.
Proof.
  revert m. induction os as [|x os IH]; intros m; simpl; [done|]. rewrite IH.
  destruct (decide (o = x)) as [->|Hne].
  - rewrite lookup_delete_eq. repeat case_decide; set_solver.
  - rewrite lookup_delete_ne by done. repeat case_decide; set_solver.
Qed.

Lemma amount_at_delete m x o : x <> o -> amount_at (delete x m) o = amount_at m o.
Proof. intros Hne. unfold amount_at. by rewrite lookup_delete_ne. Qed.

Lemma spend_inputs_spec u inputs ok u' :
  spend_inputs u inputs = (ok, u') ->
  exists spent rest, inputs = spent ++ rest /\
    u_utxos u' = without (spent_outpoints spent) (u_utxos u) /\
    NoDup (spent_outpoints spent) /\
    Forall (fun o => is_Some (u_utxos u !! o)) (spent_outpoints spent) /\
    total_amount (u_utxos u') = total_amount (u_utxos u) - input_value (u_utxos u) spent /\
    (index_consistent u -> index_consistent u') /\
    match rest with
    | [] => ok = true
    | i :: _ => ok = false /\ u_utxos u' !! in_previous_output i = None
    end.
Proof.
  revert u. induction inputs as [|i inputs IH]; intros u Hs; simpl in Hs.
  { simplify_eq. exists [], []. unfold input_value. simpl. split_and!; auto using NoDup_nil_2; lia. }
  destruct (spend_input u i) as [u1|] eqn:Hi.
  - destruct (IH u1 Hs) as (spent & rest & -> & Hu & Hnd & Hall & Htot & Hc & Hrest).
    pose proof (spend_input_consistent u i u1) as Hc1.
    apply spend_input_utxos in Hi as Hi'. destruct Hi' as ([v Hv] & Hu1).
    assert (Hne : in_previous_output i ∉ spent_outpoints spent).
    { intros Hin. rewrite Forall_forall in Hall. destruct (Hall _ Hin) as [w Hw].
      by rewrite Hu1, lookup_delete_eq in Hw. }
    exists (i :: spent), rest. split; [done|]. split; [by rewrite Hu, Hu1|].
    split; [by constructor|]. split; [|split; [|split; [auto|done]]].
    + constructor; [by exists v|]. eapply Forall_impl; [exact Hall|]. simpl. intros o [w Hw].
      rewrite Hu1 in Hw. apply lookup_delete_Some in Hw as [_ Hw]. by exists w.
    + rewrite Htot, Hu1, (total_amount_delete _ _ _ Hv). unfold input_value. simpl.
      unfold amount_at at 2. rewrite Hv.
      assert (Heq : map (amount_at (delete (in_previous_output i) (u_utxos u))) (spent_outpoints spent)
        = map (amount_at (u_utxos u)) (spent_outpoints spent)).
      { apply map_ext_in. intros o Ho%list_elem_of_In. apply amount_at_delete. intros Heq. apply Hne. by rewrite Heq. }
      rewrite Heq. lia.
  - simplify_eq. exists [], (i :: inputs). unfold input_value. simpl.
    split_and!; auto using NoDup_nil_2; [lia|]. unfold spend_input in Hi. by case_match.
Qed.

(** ** Creating *)

(** Adding an output under a fresh outpoint, with its index entry. *)
Lemma insert_utxo_consistent u w :
  index_consistent u -> u_utxos u !! utxo_outpoint w = None ->
  index_consistent (mkUtxoState (<[utxo_outpoint w := w]> (u_utxos u))
    (<[utxo_address w := default [] (u_address_index u !! utxo_address w) ++ [utxo_outpoint w]]>
       (u_address_index u))).
Proof.
  intros [Hk Hc Hs Hn] Ho. set (a := utxo_address w). set (o := utxo_outpoint w) in *.
  assert (Hent : forall o', o' ∈ default [] (u_address_index u !! a) ->
    exists v, u_utxos u !! o' = Some v /\ utxo_address v = a).
  { intros o' Hin. destruct (u_address_index u !! a) as [l|] eqn:Hl; simpl in Hin; [|set_solver]. eauto. }
  split; simpl.
  - intros o' v [[<- <-]|[_ Hv]]%lookup_insert_Some; [done|by apply Hk].
  - intros o' v Hv. apply lookup_insert_Some in Hv as [[<- <-]|[Hne Hv]]; simpl.
    + fold a. rewrite lookup_insert_eq. eexists. split; [done|]. set_solver.
    + destruct (Hc o' v Hv) as (l & Hl & Hin). destruct (decide (utxo_address v = a)) as [Ha|Ha].
      * rewrite Ha, lookup_insert_eq. eexists. split; [done|]. rewrite Ha in Hl. rewrite Hl. set_solver.
      * rewrite lookup_insert_ne by done. eauto.
  - intros a' l o' Hl Hin. apply lookup_insert_Some in Hl as [[<- <-]|[Hne Hl]].
    + apply elem_of_app in Hin as [Hin| ->%list_elem_of_singleton].
      * destruct (Hent o' Hin) as (v & Hv & Hva). exists v. split; [|done].
        rewrite lookup_insert_ne; [done|]. congruence.
      * eexists. rewrite lookup_insert_eq. split; [reflexivity|done].
    + destruct (Hs a' l o' Hl Hin) as (v & Hv & Hva). exists v. split; [|done].
      rewrite lookup_insert_ne; [done|]. congruence.
  - intros a' l Hl. apply lookup_insert_Some in Hl as [[<- <-]|[Hne Hl]]; [|by apply (Hn a')].
    apply NoDup_app. split; [|split; [|apply NoDup_singleton]].
    + destruct (u_address_index u !! a) eqn:E; [by apply (Hn a)|constructor].
    + intros o' Hin ->%list_elem_of_singleton. destruct (Hent _ Hin) as (v & Hv & _). congruence.
Qed.
Lemma insert_output_consistent tx height u o output u' :
  index_consistent u -> insert_output tx height u o output = Some u' -> index_consistent u'.
Proof.
  unfold insert_output. intros Hc. destruct (u_utxos u !! o) eqn:Ho; [done|]. intros [= <-].
  by apply (insert_utxo_consistent u (mkUtxo o (out_address output) (out_amount output) (is_coinbase tx) height)).
Qed.

(** What the output loop adds. *)
Definition created_utxo (tx : Transaction) (height : Z) (o : OutPoint) (output : TxOutput) : Utxo :=
  mkUtxo o (out_address output) (out_amount output) (is_coinbase tx) height.
Definition with_created (tx : Transaction) (height : Z) (created : list (OutPoint * TxOutput))
    (m : gmap OutPoint Utxo) : gmap OutPoint Utxo :=
  foldl (fun m p => <[p.1 := created_utxo tx height p.1 p.2]> m) m created.

Lemma insert_outputs_spec tx height u created :
  NoDup (map fst created) -> Forall (fun o => u_utxos u !! o = None) (map fst created) ->
  exists u', insert_outputs tx height u created = (Ok tt, u') /\
    u_utxos u' = with_created tx height created (u_utxos u) /\
    total_amount (u_utxos u') = total_amount (u_utxos u) + sum_Z (map out_amount (map snd created)) /\
    (index_consistent u -> index_consistent u').
Proof.
  revert u. induction created as [|[o output] created IH]; intros u Hnd Hfree; simpl.
  { exists u. split_and!; auto; lia. }
  apply NoDup_cons in Hnd as [Ho Hnd]. apply Forall_cons in Hfree as [Hfo Hfree]. cbn [fst] in Ho, Hfo.
  destruct (insert_output tx height u o output) as [u1|] eqn:Hi.
  2: { unfold insert_output in Hi. by rewrite Hfo in Hi. }
  assert (Hu1 : u_utxos u1 = <[o := created_utxo tx height o output]> (u_utxos u)).
  { unfold insert_output in Hi. rewrite Hfo in Hi. by simplify_eq. }
  destruct (IH u1) as (u' & Hr & Hu' & Htot & Hc).
  - done.
  - rewrite Forall_forall in *. intros o' Ho'. rewrite Hu1, lookup_insert_ne by (intros ->; done). auto.
  - exists u'. split; [done|]. split; [by rewrite Hu', Hu1|]. split.
    + rewrite Htot, Hu1, total_amount_insert by done.
      unfold created_utxo; simpl; lia.
    + intros Hcu. apply Hc. by eapply insert_output_consistent.
Qed.

Lemma collect_created_Ok tx utxos index outputs seen l :
  collect_created tx utxos index outputs seen = Ok l ->
  l = map (created_outpoint tx) (seq index (length outputs)) /\ NoDup l /\
  Forall (fun o => o ∉ seen /\ utxos !! o = None) l.
Proof.
  revert index seen l. induction outputs as [|output outputs IH]; intros index seen l Hl; simpl in Hl.
  { simplify_eq. split_and!; auto using NoDup_nil_2. }
  destruct (bool_decide _ || bool_decide _) eqn:Hb; [done|].
  destruct (collect_created tx utxos (S index) outputs _) as [rest|] eqn:Hr; [|done].
  simplify_eq. apply IH in Hr as (-> & Hnd & Hall). bool_props. simpl. split; [done|].
  rewrite Forall_forall in Hall. split.
  - constructor; [|done]. intros Hin. apply Hall in Hin as [Hin _]. set_solver.
  - constructor; [split; [done|by apply eq_None_not_Some]|].
    apply Forall_forall. intros o Ho. destruct (Hall o Ho). set_solver.
Qed.

(** ** One transaction *)

Definition consumed (tx : Transaction) : list TxInput := if is_coinbase tx then [] else tx_inputs tx.
Definition created_outputs (tx : Transaction) : list (OutPoint * TxOutput) :=
  zip (map (created_outpoint tx) (seq 0 (length (tx_outputs tx)))) (tx_outputs tx).

(** What a successful application does to the unspent outputs. *)
Record applied (tx : Transaction) (height : Z) (pre post : gmap OutPoint Utxo) : Prop := {
  ap_inputs_present : Forall (fun o => is_Some (pre !! o)) (spent_outpoints (consumed tx));
  ap_inputs_nodup : NoDup (spent_outpoints (consumed tx));
  ap_outputs_fresh : Forall (fun o => pre !! o = None) (map fst (created_outputs tx));
  ap_outputs_nodup : NoDup (map fst (created_outputs tx));
  ap_post : post = with_created tx height (created_outputs tx)
                     (without (spent_outpoints (consumed tx)) pre);
  ap_value : total_amount post =
    total_amount pre - input_value pre (consumed tx) + output_value (tx_outputs tx);
}.
(** What a failed one leaves behind. *)
Inductive failed (tx : Transaction) (pre post : gmap OutPoint Utxo) : PulseError -> Prop :=
| failed_duplicate label : post = pre -> failed tx pre post (DuplicateUtxoOutpoint label)
| failed_missing spent i rest :
    tx_inputs tx = spent ++ i :: rest ->
    NoDup (spent_outpoints spent) ->
    Forall (fun o => is_Some (pre !! o)) (spent_outpoints spent) ->
    post = without (spent_outpoints spent) pre ->
    post !! in_previous_output i = None ->
    failed tx pre post UtxoNotFound.

Lemma created_outputs_zip tx l :
  l = map (created_outpoint tx) (seq 0 (length (tx_outputs tx))) ->
  zip l (tx_outputs tx) = created_outputs tx /\ map fst (created_outputs tx) = l /\
  map snd (created_outputs tx) = tx_outputs tx.
Proof.
  intros ->. split; [done|]. unfold created_outputs.
  split; [apply fst_zip|apply snd_zip]; rewrite length_map, length_seq; lia.
Qed.

Lemma without_subset os m o : m !! o = None -> without os m !! o = None.
Proof. rewrite lookup_without. by case_decide. Qed.

Lemma consumed_spend u tx ok u' :
  (if is_coinbase tx then (true, u) else spend_inputs u (tx_inputs tx)) = (ok, u') ->
  spend_inputs u (consumed tx) = (ok, u').
Proof. unfold consumed. by destruct (is_coinbase tx). Qed.

Lemma apply_transaction_spec tx state height r s' :
  apply_transaction tx state height = (r, s') ->
  (index_consistent (cs_utxo state) -> index_consistent (cs_utxo s')) /\
  cs_dag s' = cs_dag state /\
  match r with
  | Ok _ => applied tx height (u_utxos (cs_utxo state)) (u_utxos (cs_utxo s')) /\
            cs_mempool s' = confirm_in_mempool tx (cs_mempool state)
  | Err e => failed tx (u_utxos (cs_utxo state)) (u_utxos (cs_utxo s')) e /\
             cs_mempool s' = cs_mempool state
  end.
Proof.
  unfold apply_transaction.
  destruct (collect_created _ _ _ _ _) as [l|e] eqn:Hl.
  2: { intros [= <- <-]. split_and!; auto.
       cut (exists label, e = DuplicateUtxoOutpoint label); [intros [label ->]; by constructor|].
       revert Hl. generalize 0%nat (∅ : gset OutPoint). induction (tx_outputs tx) as [|x l IH];
         intros n g Hl; simpl in Hl; [done|]. inv_ok; simplify_eq; eauto. }
  apply collect_created_Ok in Hl as (Hl & Hnd & Hfresh).
  destruct (created_outputs_zip tx l Hl) as (Hz & Hfst & Hsnd). rewrite Hz.
  destruct (if is_coinbase tx then _ else _) as [ok u] eqn:Hsp.
  apply consumed_spend in Hsp. destruct (spend_inputs_spec _ _ _ _ Hsp)
    as (spent & rest & Hin & Hu & Hnds & Hall & Htot & Hc & Hrest).
  destruct ok; simpl.
  - assert (rest = []) as -> by (destruct rest; [done|]; by destruct Hrest).
    rewrite app_nil_r in Hin. subst spent.
    destruct (insert_outputs_spec tx height u (created_outputs tx)) as (u' & Hr & Hu' & Htot' & Hc').
    { by rewrite Hfst. }
    { rewrite Hfst, Hu. eapply Forall_impl; [exact Hfresh|]. intros o [_ Ho]. by apply without_subset. }
    rewrite Hr. intros [= <- <-]. simpl. split_and!; auto. split.
    + done.
    + done.
    + rewrite Hfst. eapply Forall_impl; [exact Hfresh|]. by intros o [_ Ho].
    + by rewrite Hfst.
    + by rewrite Hu', Hu.
    + unfold output_value. rewrite Htot', Htot, Hsnd. done.
  - intros [= <- <-]. simpl. split_and!; auto.
    destruct rest as [|i rest]; [done|]. destruct Hrest as [_ Hi].
    assert (Htx : tx_inputs tx = spent ++ i :: rest).
    { unfold consumed in Hin. destruct (is_coinbase tx); [by destruct spent|done]. }
    by apply (failed_missing _ _ _ spent i rest).
Qed.

(** Whatever its outcome, [apply_transaction] leaves the address index
    consistent, and it never touches the DAG. *)
Lemma apply_transaction_preserves_index tx state height r s' :
  index_consistent (cs_utxo state) -> apply_transaction tx state height = (r, s') ->
  index_consistent (cs_utxo s') /\ cs_dag s' = cs_dag state.
Proof. intros Hc Ha. apply apply_transaction_spec in Ha as (H1 & H2 & _). auto. Qed.

(** The complete effect of [apply_transaction].  On success the inputs were
    distinct unspent outputs, the created outpoints were fresh and distinct, the
    new UTXO set is the old one without the former and with the latter, and the
    value it holds changes by outputs minus inputs.  On failure the error is a
    duplicate outpoint with nothing changed, or a missing input, in which case
    exactly the inputs listed before the missing one are gone. *)
Lemma apply_transaction_effect tx state height :
  let '(r, s') := apply_transaction tx state height in
  match r with
  | Ok _ => applied tx height (u_utxos (cs_utxo state)) (u_utxos (cs_utxo s'))
  | Err e => failed tx (u_utxos (cs_utxo state)) (u_utxos (cs_utxo s')) e
  end.
Proof.
  destruct (apply_transaction tx state height) as [r s'] eqn:Ha.
  apply apply_transaction_spec in Ha as (_ & _ & Hr). destruct r; by apply Hr.
Qed.

(** The value that leaves with a set of present outpoints. *)
Lemma total_amount_without m os :
  NoDup os -> Forall (fun o => is_Some (m !! o)) os ->
  total_amount (without os m) = total_amount m - sum_Z (map (amount_at m) os).
Proof.
  intros Hnd. revert m. induction Hnd as [|o os Ho Hnd IH]; intros m Hall; simpl; [lia|].
  apply Forall_cons in Hall as [[v Hv] Hall]. rewrite IH.
  - rewrite (total_amount_delete m o v Hv). unfold amount_at at 2. rewrite Hv.
    assert (Heq : map (amount_at (delete o m)) os = map (amount_at m) os).
    { apply map_ext_in. intros o' Ho'%list_elem_of_In. apply amount_at_delete. intros ->; done. }
    rewrite Heq. lia.
  - rewrite Forall_forall in *. intros o' Ho'. rewrite lookup_delete_ne by (intros ->; done). auto.
Qed.

(** C40: replay of a conflict loser destroys value.  When
    [rebuild_state_from_ordered_dag] meets a transaction with a missing input it
    counts it as skipped and goes on.  The inputs listed before the first one that
    cannot be spent (it is absent, or repeats an earlier one) were all unspent and
    are now gone: the rebuilt set is the old one without them and holds exactly
    their value less, although the transaction was not applied.  So whenever the
    first listed input is unspent, it is destroyed. *)
Theorem replay_conflict_destroys_inputs block rebuilt diag tx s' :
  apply_transaction tx rebuilt (h_height (b_header block)) = (Err UtxoNotFound, s') ->
  let before := u_utxos (cs_utxo rebuilt) in
  let after := u_utxos (cs_utxo s') in
  exists diag' spent i rest,
    replay_transaction block (rebuilt, diag) tx = Ok (s', diag') /\
    ord_applied_transactions diag' = ord_applied_transactions diag /\
    ord_skipped_conflicting_transactions diag' = 1 + ord_skipped_conflicting_transactions diag /\
    tx_inputs tx = spent ++ i :: rest /\
    NoDup (spent_outpoints spent) /\ Forall (fun o => is_Some (before !! o)) (spent_outpoints spent) /\
    (before !! in_previous_output i = None \/ in_previous_output i ∈ spent_outpoints spent) /\
    after = without (spent_outpoints spent) before /\
    total_amount after = total_amount before - input_value before spent /\
    (forall first others v, tx_inputs tx = first :: others -> before !! in_previous_output first = Some v ->
       after !! in_previous_output first = None).
Proof.
  intros Ha before after. pose proof (apply_transaction_spec _ _ _ _ _ Ha) as (_ & _ & Hf & _).
  inversion Hf as [|spent i rest Hin Hnd Hall Hpost Hi]. fold before in Hall, Hpost. fold after in Hpost, Hi.
  rewrite Hpost in Hi. rewrite lookup_without in Hi.
  unfold replay_transaction. rewrite Ha. eexists _, spent, i, rest. split; [reflexivity|].
  split_and!; try done; [|rewrite Hpost; by apply total_amount_without|].
  - case_decide; [by right|by left].
  - intros first others v Hfirst Hv. rewrite Hpost, lookup_without. rewrite Hfirst in Hin.
    destruct spent as [|j spent]; injection Hin as -> _.
    + case_decide; [done|]. congruence.
    + rewrite decide_True; [done|]. left.
Qed.

(** ** Witnesses *)

Definition utxo_chain_state : ChainState := blank_state <| cs_utxo := sample_utxo_state |>.
(** Spends both sample outputs. *)
Definition sample_spend : Transaction :=
  mkTransaction "bb" 1 [mkTxInput (sample_outpoint 1) "" ""; mkTxInput (sample_outpoint 0) "" ""]
    [mkTxOutput "bob" 9] 1 0.
(** Spends a sample output and one that does not exist. *)
Definition sample_conflict : Transaction :=
  mkTransaction "cc" 1 [mkTxInput (sample_outpoint 1) "" ""; mkTxInput (sample_outpoint 7) "" ""]
    [mkTxOutput "bob" 9] 1 0.

Lemma sample_utxo_consistent : index_consistent sample_utxo_state.
Proof. apply (indexes_consistent (H0 := list_order)). by_compute. Qed.

Lemma apply_transaction_preserves_index_witness :
  index_consistent (cs_utxo (apply_transaction sample_spend utxo_chain_state 5).2) /\
  cs_dag (apply_transaction sample_spend utxo_chain_state 5).2 = cs_dag utxo_chain_state.
Proof.
  apply (apply_transaction_preserves_index sample_spend utxo_chain_state 5
    (apply_transaction sample_spend utxo_chain_state 5).1).
  - exact sample_utxo_consistent.
  - apply surjective_pairing.
Defined.

Lemma replay_conflict_destroys_inputs_witness :
  total_amount (u_utxos (cs_utxo utxo_chain_state)) = 10 /\
  total_amount (u_utxos (cs_utxo (apply_transaction sample_conflict utxo_chain_state 1).2)) = 0 /\
  exists diag',
    replay_transaction (sample_block "x" [] 1 1)
      (utxo_chain_state, mkOrderedDagRebuildDiagnostics 0 0 [] "" None) sample_conflict =
      Ok ((apply_transaction sample_conflict utxo_chain_state 1).2, diag') /\
    u_utxos (cs_utxo (apply_transaction sample_conflict utxo_chain_state 1).2) !! sample_outpoint 1 = None.
Proof.
  split; [by_compute|]. split; [by_compute|].
  destruct (replay_conflict_destroys_inputs (sample_block "x" [] 1 1) utxo_chain_state
    (mkOrderedDagRebuildDiagnostics 0 0 [] "" None) sample_conflict
    (apply_transaction sample_conflict utxo_chain_state 1).2 ltac:(by_compute))
    as (diag' & spent & i & rest & H1 & _ & _ & _ & _ & _ & _ & _ & _ & Hgone).
  exists diag'. split; [exact H1|clear H1].
  apply (Hgone (mkTxInput (sample_outpoint 1) "" "") [mkTxInput (sample_outpoint 7) "" ""]
    (default (mkUtxo (sample_outpoint 1) "" 0 false 0) (u_utxos sample_utxo_state !! sample_outpoint 1))); by_compute.
Defined.
