(* ===== verification/Validation.v ===== *)
(** * Transaction and block validation ([validation.rs])

    The subsidy schedule, the checks on a transaction and on a block, the state
    a block is validated against, and the state root it must commit to.  The
    system clock and the process environment are arguments. *)

From stdpp Require Import pretty.
From Stdlib Require Strings.String.
From S2P Require Import Prelude Encoding Crypto Types Merkle State Tx Graph Pow.
From S2P Require Import Selection Retarget Ghostdag Ordering OrderingV2 Mining Genesis Apply.

Definition INITIAL_BLOCK_SUBSIDY : Z := 50.
Definition SUBSIDY_HALVING_INTERVAL : Z := 210000.

Definition block_subsidy (height : Z) : Z :=
  let halvings := height / SUBSIDY_HALVING_INTERVAL in
  if 64 <=? halvings then 0 else Z.shiftr INITIAL_BLOCK_SUBSIDY halvings.

Definition transaction_output_sum (tx : Transaction) : result PulseError Z :=
  try_fold (fun acc output => ok_or (checked_add 64 acc (out_amount output)) RewardOverflow)
    0 (tx_outputs tx).

Definition total_block_fees (block : Block) : result PulseError Z :=
  try_fold (fun acc tx => ok_or (checked_add 64 acc (tx_fee tx)) RewardOverflow)
    0 (filter (fun tx => is_coinbase tx = false) (b_transactions block)).

(** Positions of the coinbase transactions. *)
Definition coinbase_positions (txs : list Transaction) : list nat :=
  map fst (filter (fun p : nat * Transaction => is_coinbase p.2 = true) (imap pair txs)).
Definition validate_coinbase_position (block : Block) : result PulseError unit :=
  match coinbase_positions (b_transactions block) with
  | [] => Err MissingCoinbase
  | [O] => Ok tt
  | [_] => Err CoinbaseNotFirst
  | _ => Err MultipleCoinbase
  end.

(** Over the outputs of one transaction, then over the transactions. *)
Fixpoint check_created (utxos : gmap OutPoint Utxo) (tx : Transaction) (index : nat)
    (outputs : list TxOutput) (created : gset OutPoint) : result PulseError (gset OutPoint) :=
  match outputs with
  | [] => Ok created
  | _ :: outputs' =>
      let outpoint := created_outpoint tx index in
      if bool_decide (is_Some (utxos !! outpoint)) || bool_decide (outpoint ∈ created)
      then Err (DuplicateUtxoOutpoint (outpoint_label outpoint))
      else check_created utxos tx (S index) outputs' ({[outpoint]} ∪ created)
  end.
Definition validate_created_utxo_outpoints (block : Block) (state : ChainState)
  : result PulseError unit :=
  check try_fold (fun created tx =>
    check_created (u_utxos (cs_utxo state)) tx 0 (tx_outputs tx) created) ∅ (b_transactions block) in
  Ok tt.

Definition validate_coinbase_reward (block : Block) : result PulseError unit :=
  let? coinbase := ok_or (head (b_transactions block)) MissingCoinbase in
  let? coinbase_outputs := transaction_output_sum coinbase in
  let? fees := total_block_fees block in
  let? max_reward := ok_or (checked_add 64 (block_subsidy (h_height (b_header block))) fees) RewardOverflow in
  if max_reward <? coinbase_outputs then Err ExcessiveCoinbaseReward else Ok tt.

Definition tx_output_amount (state : ChainState) (o : OutPoint) : option Z :=
  match u_utxos (cs_utxo state) !! o with
  | Some utxo => Some (utxo_amount utxo)
  | None =>
      match mp_transactions (cs_mempool state) !! op_txid o with
      | Some tx => match vec_get (tx_outputs tx) (op_index o) with
                   | Some output => Some (out_amount output)
                   | None => None
                   end
      | None => None
      end
  end.

Definition missing_transaction_inputs (tx : Transaction) (state : ChainState) : list OutPoint :=
  omap (fun input => match tx_output_amount state (in_previous_output input) with
                     | Some _ => None
                     | None => Some (in_previous_output input)
                     end) (tx_inputs tx).

(** [s.contains(p)] and [s.split_once(p)]. *)
Definition str_contains (s p : string) : bool :=
  match String.index 0 p s with Some _ => true | None => false end.
Definition split_once (s p : string) : option (string * string) :=
  match String.index 0 p s with
  | Some i => let after := (i + String.length p)%nat in
              Some (String.substring 0 i s, String.substring after (String.length s - after) s)
  | None => None
  end.

Definition ordered_block_skipped_transaction (txid block_hash : string) (state : ChainState) : bool :=
  let marker := " block=" +:+ block_hash +:+ " tx=" +:+ txid +:+ " skipped_conflict" in
  existsb (fun entry => str_contains entry marker) (d_ordered_dag_conflict_diagnostics (cs_dag state)).

Definition skipped_occurrence (entry : string) : option (string * string) :=
  match split_once entry " block=" with
  | None => None
  | Some (_, tail) =>
      match split_once tail " tx=" with
      | None => None
      | Some (block_hash, tail) =>
          match split_once tail " skipped_conflict" with
          | None => None
          | Some (txid, _) =>
              if bool_decide (block_hash = "") || bool_decide (txid = "") then None
              else Some (block_hash, txid)
          end
      end
  end.
Definition ordered_replay_skipped_transactions (state : ChainState) : gset (string * string) :=
  list_to_set (omap skipped_occurrence (d_ordered_dag_conflict_diagnostics (cs_dag state))).

Definition ordered_replay (state : ChainState) : bool :=
  ghostdag_metadata_active (d_consensus_mode (cs_dag state))
  || bool_decide (d_ordering_version (cs_dag state) = GHOSTDAG_V1_ORDERING_VERSION).
Definition canonical_order (state : ChainState) : list Hash :=
  if ordered_replay state then d_ordered_dag (cs_dag state) else d_selected_chain (cs_dag state).

Definition authoritative_confirmed_transaction_occurrences (state : ChainState)
  : gset (string * string) :=
  let skipped := if ordered_replay state then ordered_replay_skipped_transactions state else ∅ in
  foldl (fun confirmed (block : Block) =>
    foldl (fun confirmed tx =>
      let occurrence := (b_hash block, tx_txid tx) in
      if ordered_replay state && bool_decide (occurrence ∈ skipped) then confirmed
      else {[occurrence]} ∪ confirmed) confirmed (b_transactions block))
    ∅ (map snd (with_blocks state (canonical_order state))).

Definition transaction_is_confirmed (txid : string) (state : ChainState) : bool :=
  existsb (fun block : Block =>
    existsb (fun confirmed => bool_decide (tx_txid confirmed = txid)) (b_transactions block)
    && (negb (ordered_replay state)
        || negb (ordered_block_skipped_transaction txid (b_hash block) state)))
    (map snd (with_blocks state (canonical_order state))).

(** A [BTreeSet] of the elements seen so far; [Err] on the first repetition. *)
Definition all_distinct {A} `{Countable A} (e : PulseError) (l : list A) : result PulseError unit :=
  check try_fold (fun (seen : gset A) x =>
    if decide (x ∈ seen) then Err e else Ok ({[x]} ∪ seen)) ∅ l in Ok tt.

Section validation.
Context `{Crypto}.

Definition validate_transaction (tx : Transaction) (state : ChainState) : outcome unit :=
  if bool_decide (tx_outputs tx = []) then fails (InvalidTransaction "no outputs") else
  if bool_decide (tx_inputs tx = []) then fails (InvalidTransaction "no inputs") else
  if existsb (fun o => out_amount o =? 0) (tx_outputs tx)
  then fails (InvalidTransaction "zero-value output") else
  check lift (all_distinct (InvalidTransaction "duplicate input")
                (map in_previous_output (tx_inputs tx))) in
  let? txid := expect (compute_txid tx) in
  if negb (bool_decide (txid = tx_txid tx)) then fails InvalidTxid else
  if transaction_is_confirmed (tx_txid tx) state then fails TxAlreadyExists else
  let? total_input := lift (try_fold (fun acc input =>
    let? input_amount := ok_or (tx_output_amount state (in_previous_output input)) UtxoNotFound in
    if bool_decide (in_previous_output input ∈ mp_spent_outpoints (cs_mempool state))
    then Err DoubleSpend
    else ok_or (checked_add 64 acc input_amount) (InvalidTransaction "input overflow"))
    0 (tx_inputs tx)) in
  let? total_output := lift (try_fold (fun acc output =>
    ok_or (checked_add 64 acc (out_amount output)) (InvalidTransaction "output overflow"))
    0 (tx_outputs tx)) in
  let? required := lift (ok_or (checked_add 64 total_output (tx_fee tx))
                               (InvalidTransaction "output overflow")) in
  if total_input <? required then fails InsufficientFunds else
  verify_transaction_signatures tx state.

Definition clear_mempool_view (state : ChainState) : ChainState :=
  state <| cs_mempool ::= fun mp => mp <| mp_transactions := ∅ |> <| mp_spent_outpoints := ∅ |> |>.

(** [apply_transaction(..)?] on a working copy. *)
Definition apply_to_working (tx : Transaction) (working : ChainState) (height : Z) : outcome ChainState :=
  match apply_transaction tx working height with
  | (Ok _, working') => Ok working'
  | (Err e, _) => fails e
  end.

Definition compute_post_state_root `{HashOrder} (block : Block) (state : ChainState) : outcome Hash :=
  let working := clear_mempool_view state in
  match b_transactions block with
  | [] => fails (InvalidBlock "empty block")
  | coinbase :: rest =>
      let? working := apply_to_working coinbase working (h_height (b_header block)) in
      let? working := try_fold (fun working tx =>
        check validate_transaction tx working in
        apply_to_working tx working (h_height (b_header block))) working rest in
      compute_state_root (cs_utxo working)
  end.

Definition selected_parent_for_state_validation (block : Block) (state : ChainState) : option Hash :=
  if ghostdag_metadata_active (d_consensus_mode (cs_dag state))
  then calculate_selected_parent block state
  else max_stored_parent block (cs_dag state).

(** The replay of one ancestor onto the context. *)
Definition replay_ancestor `{HashOrder} (block : Block) (state context : ChainState) (hash : Hash)
  : outcome ChainState :=
  if decide (hash = d_genesis_hash (cs_dag context)) then Ok context
  else
    let? ancestor := lift (ok_or (d_blocks (cs_dag state) !! hash)
                             (ParentStateContextUnavailable (b_hash block) hash)) in
    let? context := lift (apply_transactions (b_transactions ancestor) context
                            (h_height (b_header ancestor))) in
    Ok (refresh_selected_chain (accept_block_to_dag_metadata ancestor context)).

Definition parent_state_context `{HashOrder} (block : Block) (state : ChainState) : outcome ChainState :=
  let? parent_hash := lift (ok_or (selected_parent_for_state_validation block state)
    (ParentStateContextUnavailable (b_hash block) (default "" (head (h_parents (b_header block)))))) in
  let? _ := lift (ok_or (d_blocks (cs_dag state) !! parent_hash)
                        (ParentStateContextUnavailable (b_hash block) parent_hash)) in
  if bool_decide (preferred_tip_hash state = Some parent_hash) then Ok (clear_mempool_view state)
  else
    let? context := init_chain_state (cs_chain_id state) in
    let context := context <| cs_dag ::= fun d =>
      d <| d_consensus_mode := d_consensus_mode (cs_dag state) |>
        <| d_selected_parent_policy := d_selected_parent_policy (cs_dag state) |> |> in
    let chain := rebuild_selected_chain_from_tip state (Some parent_hash) in
    if negb (existsb (fun h => bool_decide (h = parent_hash)) chain)
    then fails (ParentStateContextUnavailable (b_hash block) parent_hash)
    else try_fold (fun context hash => replay_ancestor block state context hash) context chain.

Definition invalid_state_root_diagnostics `{HashOrder} (block : Block) (state : ChainState)
    (computed_state_root : string) : InvalidStateRootDiagnostics :=
  let current_tips := sorted_tip_hashes state in
  let selected_tip := head current_tips in
  let selected_tip_height :=
    match selected_tip with
    | Some hash => option_map (fun b => h_height (b_header b)) (d_blocks (cs_dag state) !! hash)
    | None => None
    end in
  let parent_hashes := h_parents (b_header block) in
  let stale_template :=
    negb (bool_decide (parent_hashes = []))
    && (existsb (fun p => negb (bool_decide (p ∈ d_tips (cs_dag state)))) parent_hashes
        || match selected_tip with
           | Some tip => negb (bool_decide (tip ∈ parent_hashes))
           | None => false
           end
        || match selected_tip_height with
           | Some tip_height => h_height (b_header block) <=? tip_height
           | None => false
           end) in
  let unknown_context :=
    bool_decide (parent_hashes = []) || bool_decide (selected_tip = None)
    || existsb (fun p => bool_decide (d_blocks (cs_dag state) !! p = None)) parent_hashes in
  let classification :=
    if unknown_context then UnknownContext
    else if stale_template then StaleTemplate
    else TrueInvalid in
  {| isr_block_hash := b_hash block;
     isr_height := h_height (b_header block);
     isr_parent_hashes := parent_hashes;
     isr_supplied_state_root := h_state_root (b_header block);
     isr_computed_state_root := computed_state_root;
     isr_tx_count := Z.of_nat (length (b_transactions block));
     isr_coinbase_miner_address :=
       match head (b_transactions block) with
       | Some tx => option_map out_address (head (tx_outputs tx))
       | None => None
       end;
     isr_selected_tip := selected_tip;
     isr_selected_tip_height := selected_tip_height;
     isr_current_tips := current_tips;
     isr_stale_template := stale_template;
     isr_unknown_context := unknown_context;
     isr_classification := classification;
     isr_state_validation_context_tip := selected_tip;
     isr_state_validation_context_height := selected_tip_height;
     isr_state_validation_context_source := Some "current_selected_tip_legacy" |}.

Definition invalid_state_root_diagnostics_with_context `{HashOrder} (block : Block)
    (state context : ChainState) (computed_state_root : string) : InvalidStateRootDiagnostics :=
  let context_tip := selected_parent_for_state_validation block state in
  let diagnostics := invalid_state_root_diagnostics block state computed_state_root in
  diagnostics
    <| isr_state_validation_context_height :=
         match context_tip with
         | Some hash => option_map (fun b => h_height (b_header b)) (d_blocks (cs_dag state) !! hash)
         | None => None
         end |>
    <| isr_state_validation_context_tip := context_tip |>
    <| isr_state_validation_context_source := Some "canonical_parent_rebuild" |>
    <| isr_stale_template := false |>
    <| isr_classification :=
         if bool_decide (d_blocks (cs_dag context) = ∅) then ParentStateContextUnavailableClass
         else TrueInvalid |>.

(** The loop over the parents: seen set, expected height, newest timestamp. *)
Definition check_parent (state : ChainState) (acc : gset Hash * Z * Z) (parent : Hash)
  : result PulseError (gset Hash * Z * Z) :=
  let '(seen, expected_height, newest_timestamp) := acc in
  if decide (parent ∈ seen) then Err (InvalidBlock "duplicate parent")
  else
    let? parent_block := ok_or (d_blocks (cs_dag state) !! parent)
                               (InvalidBlock ("missing parent " +:+ parent)) in
    Ok ({[parent]} ∪ seen,
        Z.max expected_height (saturating_add 64 (h_height (b_header parent_block)) 1),
        Z.max newest_timestamp (h_timestamp (b_header parent_block))).

Definition validate_block `{HashOrder, Kaspa} (env : string -> option string) (now : Z)
    (block : Block) (state : ChainState) : outcome unit :=
  let header := b_header block in
  if bool_decide (is_Some (d_blocks (cs_dag state) !! b_hash block)) then fails BlockAlreadyExists else
  if h_timestamp header =? 0 then fails (InvalidBlock "timestamp must be greater than zero") else
  let max_future := dev_max_future_drift_secs env in
  if saturating_add 64 now max_future <? h_timestamp header
  then fails (InvalidBlock ("timestamp too far in the future: " +:+ pretty (h_timestamp header)
                +:+ " > " +:+ pretty now +:+ " + " +:+ pretty max_future)) else
  if bool_decide (h_parents header = []) then fails (InvalidBlock "block has no parents") else
  let? acc := lift (try_fold (check_parent state) (∅, 0, 0) (h_parents header)) in
  let '(_, expected_height, newest_parent_timestamp) := acc in
  if negb (h_height header =? expected_height)
  then fails (InvalidBlock ("invalid height " +:+ pretty (h_height header) +:+ ", expected "
                +:+ pretty expected_height)) else
  let? selected_parent := lift (ok_or (selected_parent_for_state_validation block state)
    (ParentStateContextUnavailable (b_hash block) (default "" (head (h_parents header))))) in
  let? expected := expect (expected_difficulty_for_parent state selected_parent) in
  let? expected_difficulty := lift (ok_or expected
    (ParentStateContextUnavailable (b_hash block) selected_parent)) in
  if negb (h_difficulty header =? expected_difficulty)
  then fails (InvalidBlock ("invalid consensus difficulty " +:+ pretty (h_difficulty header)
                +:+ ", expected " +:+ pretty expected_difficulty)) else
  let? pow := expect (validate_pow_header header) in
  check lift (map_err (fun reason =>
    InvalidBlock ("invalid proof of work for expected difficulty " +:+ pretty expected_difficulty
                  +:+ ": " +:+ PowRejectReason_code reason)) pow) in
  if h_timestamp header <? newest_parent_timestamp
  then fails (InvalidBlock ("timestamp " +:+ pretty (h_timestamp header)
                +:+ " is older than newest parent " +:+ pretty newest_parent_timestamp)) else
  check lift (validate_coinbase_position block) in
  let? computed_hash := expect (compute_block_hash header) in
  if negb (bool_decide (computed_hash = b_hash block))
  then fails (InvalidBlock ("block hash mismatch: supplied " +:+ b_hash block +:+ ", computed "
                +:+ computed_hash)) else
  check lift (all_distinct (InvalidBlock "duplicate transaction in block")
                (map tx_txid (b_transactions block))) in
  let? computed_merkle_root := expect (compute_merkle_root (b_transactions block)) in
  if negb (bool_decide (computed_merkle_root = h_merkle_root header))
  then fails (InvalidBlock ("merkle root mismatch: supplied " +:+ h_merkle_root header
                +:+ ", computed " +:+ computed_merkle_root)) else
  check try_fold (fun (_ : unit) tx =>
    let? txid := expect (compute_txid tx) in
    if bool_decide (txid = tx_txid tx) then Ok tt else fails InvalidTxid) tt (b_transactions block) in
  check lift (validate_coinbase_reward block) in
  let? parent_context := parent_state_context block state in
  check lift (validate_created_utxo_outpoints block parent_context) in
  let? computed_state_root := compute_post_state_root block parent_context in
  if negb (bool_decide (computed_state_root = h_state_root header))
  then fails (InvalidStateRoot
                (invalid_state_root_diagnostics_with_context block state parent_context computed_state_root))
  else Ok tt.

(** [mining.rs]: re-derive the identifiers of a candidate block. *)
Definition refresh_block_consensus_ids_with_state `{HashOrder} (block : Block) (state : ChainState)
  : outcome Block :=
  let? merkle_root := expect (compute_merkle_root (b_transactions block)) in
  let block := block <| b_header ::= fun h => h <| h_merkle_root := merkle_root |> |> in
  let? state_root := compute_post_state_root block state in
  let block := block <| b_header ::= fun h => h <| h_state_root := state_root |> |> in
  let? hash := expect (compute_block_hash (b_header block)) in
  Ok (block <| b_hash := hash |>).
End validation.
