(* ===== verification/ValidationProps.v ===== *)
(** * Correctness of validation ([validation.rs])

    The legacy subsidy schedule is bounded; [validate_transaction] accepts
    exactly the transactions that meet the listed conditions; and a block that
    [validate_block] accepts extends its parent's state to the one whose root it
    commits to, without creating more value than its subsidy. *)

From S2P Require Import Prelude Encoding Crypto Types Merkle State Tx Graph Pow.
From S2P Require Import Selection Retarget Ghostdag Ordering Mining Genesis Apply.
From S2P Require Import ApplyProps Validation.

(** ** The subsidy *)

(** The subsidies of the heights below [n]. *)
Fixpoint subsidy_below (n : nat) : Z :=
  match n with
  | O => 0
  | S n' => subsidy_below n' + block_subsidy (Z.of_nat n')
  end.

Definition halving_sum (n : Z) : Z :=
  25 * Z.min n 210000 + 13 * Z.min n 420000 + 6 * Z.min n 630000
  + 3 * Z.min n 840000 + 2 * Z.min n 1050000 + Z.min n 1260000.

Lemma block_subsidy_steps h :
  0 <= h -> block_subsidy h = halving_sum (h + 1) - halving_sum h.
Proof.
  intros Hh. unfold block_subsidy, SUBSIDY_HALVING_INTERVAL, INITIAL_BLOCK_SUBSIDY, halving_sum.
  pose proof (Z.div_mod h 210000) as Hdm. pose proof (Z.mod_pos_bound h 210000) as Hmb.
  set (q := h / 210000) in *. assert (0 <= q) by (apply Z.div_pos; lia).
  destruct (Z.leb_spec 64 q); [lia|].
  destruct (decide (6 <= q)) as [Hq|Hq].
  - rewrite Z.shiftr_div_pow2 by lia. rewrite Z.div_small; [lia|]. split; [lia|].
    apply (Z.lt_le_trans _ (2 ^ 6)); [done|]. apply Z.pow_le_mono_r; lia.
  - assert (Hc : q = 0 \/ q = 1 \/ q = 2 \/ q = 3 \/ q = 4 \/ q = 5) by lia.
    destruct Hc as [->|[->|[->|[->|[->| ->]]]]];
      match goal with |- Z.shiftr 50 ?k = _ =>
        let v := eval vm_compute in (Z.shiftr 50 k) in change (Z.shiftr 50 k) with v end; lia.
Qed.

Lemma subsidy_below_closed n : subsidy_below n = halving_sum (Z.of_nat n).
Proof.
  induction n as [|n IH]; [done|]. cbn [subsidy_below]. rewrite IH, block_subsidy_steps by lia.
  rewrite Nat2Z.inj_succ. unfold Z.succ. lia.
Qed.

(** The legacy subsidy never increases with height, halves at each
    210000-block boundary, ends after six halvings, and over all blocks pays
    exactly 20,370,000 units. *)
Lemma block_subsidy_bounded h n :
  0 <= h ->
  block_subsidy (h + 1) <= block_subsidy h <= INITIAL_BLOCK_SUBSIDY /\
  block_subsidy (h + SUBSIDY_HALVING_INTERVAL) = block_subsidy h / 2 /\
  subsidy_below n <= 20370000 /\ (1260000 <= Z.of_nat n -> subsidy_below n = 20370000).
Proof.
  intros Hh. rewrite subsidy_below_closed.
  unfold SUBSIDY_HALVING_INTERVAL, INITIAL_BLOCK_SUBSIDY.
  rewrite !block_subsidy_steps by lia. unfold halving_sum. split_and!; try lia.
  apply Z.div_unique_pos with
    (halving_sum (h + 1) - halving_sum h - 2 * (halving_sum (h + 210000 + 1) - halving_sum (h + 210000)));
    unfold halving_sum; lia.
Qed.

(** ** Loops *)

Lemma all_distinct_Ok {A} `{Countable A} e (l : list A) : all_distinct e l = Ok tt <-> NoDup l.
Proof.
  unfold all_distinct.
  assert (Hg : forall (seen : gset A),
    (exists s, try_fold (fun (seen : gset A) x =>
       if decide (x ∈ seen) then Err e else Ok ({[x]} ∪ seen)) seen l = Ok s) <->
    NoDup l /\ forall x, x ∈ l -> x ∉ seen).
  { induction l as [|x l IH]; intros seen; simpl; [split; [|eauto]; intros _; split; [constructor|set_solver]|].
    case_decide as Hx.
    - split; [by intros [? ?]|]. intros [_ Hn]. exfalso. apply (Hn x); [left|done].
    - rewrite IH, NoDup_cons. split; [|set_solver]. intros [Hnd Hn]. split; [|set_solver].
      split; [|done]. intros Hin. specialize (Hn x Hin). set_solver. }
  specialize (Hg ∅). destruct (try_fold _ ∅ l) as [s|e'].
  - split; [|done]. intros _. apply Hg. eauto.
  - split; [done|]. intros Hnd. destruct (proj2 Hg) as [s Hs]; [|done]. split; [done|set_solver].
Qed.

(** A checked [u64] sum. *)
Lemma checked_sum_Ok {A} (f : A -> Z) (e : PulseError) l acc total :
  Forall (fun x => 0 <= f x) l -> 0 <= acc ->
  try_fold (fun acc x => ok_or (checked_add 64 acc (f x)) e) acc l = Ok total <->
  total = acc + sum_Z (map f l) /\ (l = [] \/ total <= u64_max).
Proof.
  revert acc. induction l as [|x l IH]; intros acc Hl Hacc; simpl.
  { split; [intros [= ->]; split; [lia|auto]|]. intros [-> _]. f_equal. lia. }
  apply Forall_cons in Hl as [Hx Hl].
  assert (Hnn : 0 <= sum_Z (map f l)).
  { clear -Hl. induction Hl; simpl; lia. }
  unfold checked_add at 1. destruct (Z.leb_spec (acc + f x) u64_max); simpl.
  - rewrite IH by (done || lia). split.
    + intros [-> [->|Hle]]; simpl in *; (split; [lia|right; lia]).
    + intros [-> [?|Hle]]; [done|]. split; [lia|right; lia].
  - split; [done|]. intros [-> [?|Hle]]; [done|]. lia.
Qed.

(** ** Transactions *)

(** The amounts the inputs of a transaction bring in, as the state knows them. *)
Definition known_amount (state : ChainState) (i : TxInput) : Z :=
  default 0 (tx_output_amount state (in_previous_output i)).
(** Amounts are unsigned. *)
Definition amounts_ok (state : ChainState) : Prop :=
  forall o a, tx_output_amount state o = Some a -> 0 <= a.

Record tx_accepted `{Crypto} (tx : Transaction) (state : ChainState) : Prop := {
  ta_outputs : tx_outputs tx <> [];
  ta_inputs : tx_inputs tx <> [];
  ta_nonzero : Forall (fun o => out_amount o <> 0) (tx_outputs tx);
  ta_distinct : NoDup (spent_outpoints (tx_inputs tx));
  ta_txid : compute_txid tx = Some (tx_txid tx);
  ta_unconfirmed : transaction_is_confirmed (tx_txid tx) state = false;
  ta_known : Forall (fun i => is_Some (tx_output_amount state (in_previous_output i)) /\
    in_previous_output i ∉ mp_spent_outpoints (cs_mempool state)) (tx_inputs tx);
  ta_no_overflow : sum_Z (map (known_amount state) (tx_inputs tx)) <= u64_max;
  ta_required : output_value (tx_outputs tx) + tx_fee tx <= u64_max;
  ta_funded : output_value (tx_outputs tx) + tx_fee tx <= sum_Z (map (known_amount state) (tx_inputs tx));
  ta_version : tx_version tx = TRANSACTION_VERSION_V1;
  ta_signed : exists m, signing_message tx = Some m /\ Forall (input_authorized state m) (tx_inputs tx);
}.

Lemma sum_inputs_Ok state l acc total :
  amounts_ok state -> 0 <= acc ->
  try_fold (fun acc input =>
    let? input_amount := ok_or (tx_output_amount state (in_previous_output input)) UtxoNotFound in
    if bool_decide (in_previous_output input ∈ mp_spent_outpoints (cs_mempool state))
    then Err DoubleSpend
    else ok_or (checked_add 64 acc input_amount) (InvalidTransaction "input overflow")) acc l = Ok total <->
  Forall (fun i => is_Some (tx_output_amount state (in_previous_output i)) /\
    in_previous_output i ∉ mp_spent_outpoints (cs_mempool state)) l /\
  total = acc + sum_Z (map (known_amount state) l) /\ (l = [] \/ total <= u64_max).
Proof.
  intros Hok. revert acc. induction l as [|i l IH]; intros acc Hacc; simpl.
  { split; [intros [= ->]; split_and!; [constructor|lia|auto]|]. intros (_ & -> & _). f_equal. lia. }
  assert (Hnn : 0 <= sum_Z (map (known_amount state) l)).
  { clear -Hok. induction l as [|j l IH]; simpl; [lia|]. unfold known_amount at 1.
    destruct (tx_output_amount state (in_previous_output j)) as [a|] eqn:E; simpl; [apply Hok in E|]; lia. }
  rewrite Forall_cons. unfold known_amount at 1.
  destruct (tx_output_amount state (in_previous_output i)) as [a|] eqn:Ea; simpl.
  2: { split; [done|]. by intros ([[[? [=]] _] _] & _). }
  apply Hok in Ea as Ha. case_bool_decide as Hs.
  { split; [done|]. naive_solver. }
  unfold checked_add at 1. destruct (Z.leb_spec (acc + a) u64_max); simpl.
  - rewrite IH by lia. split.
    + intros (Hf & -> & [->|Hle]); simpl in *; (split; [by repeat split; eauto|split; [lia|right; lia]]).
    + intros ([_ Hf] & -> & [?|Hle]); [done|]. split_and!; [done|lia|right; lia].
  - split; [done|]. intros (_ & -> & [?|Hle]); [done|]. lia.
Qed.

Lemma existsb_zero_outputs l :
  existsb (fun o => out_amount o =? 0) l = false <-> Forall (fun o => out_amount o <> 0) l.
Proof.
  induction l as [|o l IH]; simpl; [naive_solver|].
  rewrite orb_false_iff, Forall_cons, IH, Z.eqb_neq. done.
Qed.

Lemma lift_bind_Ok {A B} (r : result PulseError A) (k : A -> outcome B) b :
  (let? x := lift r in k x) = Ok b <-> exists a, r = Ok a /\ k a = Ok b.
Proof. destruct r; simpl; naive_solver. Qed.

Lemma expect_bind_Ok {A B} (o : option A) (k : A -> outcome B) b :
  (let? x := expect o in k x) = Ok b <-> exists a, o = Some a /\ k a = Ok b.
Proof. destruct o; simpl; naive_solver. Qed.

Lemma guard_Ok {A} (c : bool) e (k : outcome A) a :
  (if c then fails e else k) = Ok a <-> c = false /\ k = Ok a.
Proof. destruct c; naive_solver. Qed.

Lemma validate_transaction_iff `{Crypto} tx state :
  tx_typed tx -> amounts_ok state ->
  validate_transaction tx state = Ok tt <-> tx_accepted tx state.
Proof.
  intros (_ & _ & Hout & [Hfee _] & _) Hok. unfold validate_transaction.
  assert (Hnn : Forall (fun o => 0 <= out_amount o) (tx_outputs tx))
    by (eapply Forall_impl; [exact Hout|]; intros ? []; done).
  assert (Hov : 0 <= output_value (tx_outputs tx)).
  { unfold output_value. clear -Hnn. induction Hnn; simpl; lia. }
  rewrite !guard_Ok, !bool_decide_eq_false, existsb_zero_outputs, lift_bind_Ok.
  setoid_rewrite expect_bind_Ok. setoid_rewrite guard_Ok. setoid_rewrite guard_Ok.
  setoid_rewrite lift_bind_Ok. setoid_rewrite lift_bind_Ok. setoid_rewrite lift_bind_Ok.
  setoid_rewrite guard_Ok. setoid_rewrite verify_signatures_iff.
  setoid_rewrite negb_false_iff. setoid_rewrite bool_decide_eq_true.
  setoid_rewrite (sum_inputs_Ok state (tx_inputs tx) 0); [|done|lia].
  setoid_rewrite (checked_sum_Ok out_amount _ (tx_outputs tx) 0); [|done|lia].
  setoid_rewrite ok_or_Ok. setoid_rewrite checked_add_Some. setoid_rewrite Z.ltb_ge.
  fold (output_value (tx_outputs tx)). split.
  - intros (H1 & H2 & H3 & [] & H4%all_distinct_Ok & txid & H5 & -> & H6 & ti & (H7 & -> & H8) &
      to & (-> & H9) & req & (-> & H10) & H11 & H12 & H13).
    split; try done; try lia. destruct H8; [done|lia].
  - intros [H1 H2 H3 H4 H5 H6 H7 H8 H9 H10 H11 H12].
    split; [done|]. split; [done|]. split; [done|]. exists tt. split; [by apply all_distinct_Ok|].
    exists (tx_txid tx). split; [done|]. split; [done|]. split; [done|].
    eexists. split; [split_and!; [done|reflexivity|right; lia]|].
    eexists. split; [split; [reflexivity|right; lia]|].
    eexists. split; [split; [reflexivity|lia]|]. split; [lia|]. done.
Qed.

(** C7: [validate_transaction] accepts a transaction exactly when it has inputs
    and outputs, no output is zero, no outpoint is spent twice, the id is its
    canonical one and not confirmed yet, every input is a known output that no
    mempool transaction spends, the sums fit in 64 bits, the inputs cover
    outputs plus fee, and every input carries a valid signature of the owner. *)
Theorem validate_transaction_spec `{Crypto} tx state :
  tx_typed tx -> amounts_ok state ->
  (validate_transaction tx state = Ok tt <-> tx_accepted tx state).
Proof. apply validate_transaction_iff. Qed.

(** ** What an accepted block satisfies *)

Lemma check_parents_Ok state parents acc seen height ts :
  try_fold (check_parent state) acc parents = Ok (seen, height, ts) ->
  NoDup parents /\ (forall p, p ∈ parents -> p ∉ acc.1.1) /\
  acc.1.2 <= height /\ acc.2 <= ts /\
  Forall (fun p => exists b, d_blocks (cs_dag state) !! p = Some b /\
    saturating_add 64 (h_height (b_header b)) 1 <= height /\ h_timestamp (b_header b) <= ts) parents /\
  (height = acc.1.2 \/ exists p b, p ∈ parents /\ d_blocks (cs_dag state) !! p = Some b /\
     height = saturating_add 64 (h_height (b_header b)) 1).
Proof.
  revert acc. induction parents as [|p parents IH]; intros [[seen0 h0] t0] Hf; cbn [try_fold] in Hf.
  { simplify_eq. simpl. split_and!; auto using NoDup_nil_2; try lia. set_solver. }
  destruct (check_parent state (seen0, h0, t0) p) as [acc'|] eqn:Hc; [|done].
  apply IH in Hf as (Hnd & Hns & Hh & Ht & Hall & Hwit). unfold check_parent in Hc.
  case_decide as Hp; [done|]. destruct (d_blocks (cs_dag state) !! p) as [b|] eqn:Hb; [|done].
  simpl in Hc. simplify_eq. simpl in *. split_and!.
  - constructor; [|done]. intros Hin. apply (Hns p Hin). set_solver.
  - intros q [->|Hq]%elem_of_cons; [done|]. specialize (Hns q Hq). set_solver.
  - lia.
  - lia.
  - constructor; [|done]. exists b. split; [done|]. lia.
  - destruct Hwit as [Hh'|(q & bq & Hq & Hbq & Hh')]; [|right; exists q, bq; set_solver].
    destruct (Z.max_spec h0 (saturating_add 64 (h_height (b_header b)) 1)) as [[_ Hm]|[_ Hm]]; [|left; lia].
    right. exists p, b. split; [set_solver|]. split; [done|]. lia.
Qed.

Lemma coinbase_position_Ok block :
  validate_coinbase_position block = Ok tt ->
  exists coinbase rest, b_transactions block = coinbase :: rest /\
    is_coinbase coinbase = true /\ Forall (fun tx => is_coinbase tx = false) rest.
Proof.
  unfold validate_coinbase_position, coinbase_positions.
  destruct (b_transactions block) as [|cb rest]; [done|]. rewrite imap_cons, filter_cons. simpl.
  set (l := filter (fun p : nat * Transaction => is_coinbase p.2 = true) _).
  assert (Hl : forall i tx, (i, tx) ∈ l -> i <> 0%nat).
  { intros i tx [_ Hin]%list_elem_of_filter. apply list_elem_of_lookup in Hin as [j Hj].
    rewrite list_lookup_imap in Hj. apply fmap_Some in Hj as (x & _ & [= -> _]). done. }
  destruct (decide (is_coinbase cb = true)) as [Hcb|Hcb]; simpl.
  - destruct l as [|[i tx] l'] eqn:El; simpl; [|done]. intros _. exists cb, rest. split; [done|]. split; [done|].
    apply Forall_forall. intros tx Htx. apply list_elem_of_lookup in Htx as [j Hj].
    apply not_true_is_false. intros Hc.
    assert (Hin : (S j, tx) ∈ l).
    { apply list_elem_of_filter. split; [done|]. apply list_elem_of_lookup. exists j.
      rewrite list_lookup_imap, Hj. done. }
    rewrite El in Hin. by apply not_elem_of_nil in Hin.
  - destruct l as [|[[|i] tx] [|]]; try done. exfalso. by eapply (Hl 0%nat tx); [left|].
Qed.

Record block_accepted `{Crypto, HashOrder, Kaspa} (env : string -> option string) (now : Z)
    (block : Block) (state : ChainState) : Prop := {
  ba_new : d_blocks (cs_dag state) !! b_hash block = None;
  ba_timestamp : h_timestamp (b_header block) <> 0 /\
    h_timestamp (b_header block) <= saturating_add 64 now (dev_max_future_drift_secs env);
  ba_parents : h_parents (b_header block) <> [] /\ NoDup (h_parents (b_header block));
  ba_parents_older : Forall (fun p => exists b, d_blocks (cs_dag state) !! p = Some b /\
    saturating_add 64 (h_height (b_header b)) 1 <= h_height (b_header block) /\
    h_timestamp (b_header b) <= h_timestamp (b_header block)) (h_parents (b_header block));
  ba_height : h_height (b_header block) = 0 \/ exists p b, p ∈ h_parents (b_header block) /\
    d_blocks (cs_dag state) !! p = Some b /\
    h_height (b_header block) = saturating_add 64 (h_height (b_header b)) 1;
  ba_difficulty : exists sp, selected_parent_for_state_validation block state = Some sp /\
    expected_difficulty_for_parent state sp = Some (Some (h_difficulty (b_header block)));
  ba_pow : meets_target (b_header block);
  ba_hash : compute_block_hash (b_header block) = Some (b_hash block);
  ba_txids : NoDup (map tx_txid (b_transactions block)) /\
    Forall (fun tx => compute_txid tx = Some (tx_txid tx)) (b_transactions block);
  ba_merkle : compute_merkle_root (b_transactions block) = Some (h_merkle_root (b_header block));
  ba_coinbase : exists coinbase rest, b_transactions block = coinbase :: rest /\
    is_coinbase coinbase = true /\ Forall (fun tx => is_coinbase tx = false) rest;
  ba_reward : validate_coinbase_reward block = Ok tt;
  ba_state : exists context, parent_state_context block state = Ok context /\
    compute_post_state_root block context = Ok (h_state_root (b_header block));
}.

Lemma validate_block_Ok `{Crypto, HashOrder, Kaspa} env now block state :
  validate_block env now block state = Ok tt -> block_accepted env now block state.
Proof.
  unfold validate_block. cbv zeta. intros Hv.
  apply guard_Ok in Hv as [Hnew Hv]. apply guard_Ok in Hv as [Hts0 Hv].
  apply guard_Ok in Hv as [Hfut Hv]. apply guard_Ok in Hv as [Hpar Hv].
  apply lift_bind_Ok in Hv as ([[seen height] newest] & Hpars & Hv).
  apply guard_Ok in Hv as [Hheight Hv]. apply lift_bind_Ok in Hv as (sp & Hsp & Hv).
  apply expect_bind_Ok in Hv as (expd & Hexpd & Hv). apply lift_bind_Ok in Hv as (bits & Hbits & Hv).
  apply guard_Ok in Hv as [Hdiff Hv]. apply expect_bind_Ok in Hv as (pow & Hpow & Hv).
  apply lift_bind_Ok in Hv as ([] & Hpow' & Hv). apply guard_Ok in Hv as [Hold Hv].
  apply lift_bind_Ok in Hv as ([] & Hcb & Hv). apply expect_bind_Ok in Hv as (hash & Hhash & Hv).
  apply guard_Ok in Hv as [Hhash' Hv]. apply lift_bind_Ok in Hv as ([] & Hdist & Hv).
  apply expect_bind_Ok in Hv as (root & Hroot & Hv). apply guard_Ok in Hv as [Hroot' Hv].
  destruct (try_fold _ tt (b_transactions block)) as [[]|] eqn:Htxids; [|done].
  apply lift_bind_Ok in Hv as ([] & Hreward & Hv).
  destruct (parent_state_context block state) as [context|] eqn:Hctx; [|done].
  apply lift_bind_Ok in Hv as ([] & Hcreated & Hv).
  destruct (compute_post_state_root block context) as [sroot|] eqn:Hsr; [|done].
  apply guard_Ok in Hv as [Hsroot _]. bool_props. subst.
  apply check_parents_Ok in Hpars as (Hnd & _ & _ & _ & Hall & Hwit). simpl in Hwit.
  apply ok_or_Ok in Hsp, Hbits. rewrite Hbits in Hexpd.
  apply map_err_Ok in Hpow'. subst pow. apply all_distinct_Ok in Hdist.
  destruct (validate_pow_header_cases (b_header block)) as (r & Hr & Hrt). rewrite Hr in Hpow.
  split; auto.
  - by apply eq_None_not_Some.
  - eapply Forall_impl; [exact Hall|]. simpl. intros p (b & Hb & ? & ?). exists b. split; [done|]. lia.
  - exists sp. split; [done|]. done.
  - apply Hrt. congruence.
  - split; [done|]. apply try_fold_unit in Htxids. eapply Forall_impl; [exact Htxids|].
    simpl. intros tx Htx. apply expect_bind_Ok in Htx as (txid & -> & Htx). case_bool_decide; by subst.
  - by apply coinbase_position_Ok.
  - eauto.
Qed.

(** C1: a block [validate_block] accepts is new, is not too far in the future,
    names at least one parent and none twice, all stored, lower and not newer,
    sits one above the highest of them, carries the expected difficulty and
    enough work for it, is stored under its own header hash, commits to its
    distinct, correctly identified transactions, starts with its only coinbase,
    and commits to the state its transactions lead to from its parent's state. *)
Theorem validate_block_sound `{Crypto, HashOrder, Kaspa} env now block state :
  validate_block env now block state = Ok tt -> block_accepted env now block state.
Proof. apply validate_block_Ok. Qed.

(** ** Value *)

(** A state a block is applied to: consistent index, unsigned amounts and an
    empty mempool view. *)
Record working_ok (s : ChainState) : Prop := {
  wo_index : index_consistent (cs_utxo s);
  wo_amounts : map_Forall (fun _ v => 0 <= utxo_amount v) (u_utxos (cs_utxo s));
  wo_mempool : mp_transactions (cs_mempool s) = ∅;
}.

Lemma confirm_in_mempool_empty tx mp :
  mp_transactions mp = ∅ -> mp_transactions (confirm_in_mempool tx mp) = ∅.
Proof.
  intros Hmp. unfold confirm_in_mempool. rewrite Hmp, lookup_empty.
  revert mp Hmp. induction (tx_inputs tx) as [|i l IH]; intros mp Hmp; simpl; [done|]. by apply IH.
Qed.

Lemma with_created_amounts tx height created m :
  Forall (fun p : OutPoint * TxOutput => 0 <= out_amount p.2) created ->
  map_Forall (fun _ v => 0 <= utxo_amount v) m ->
  map_Forall (fun _ v => 0 <= utxo_amount v) (with_created tx height created m).
Proof.
  intros Hc. revert m. induction Hc as [|[o out] l Ho _ IH]; intros m Hm; simpl; [done|].
  apply IH. by apply map_Forall_insert_2.
Qed.

Lemma created_amounts tx :
  tx_typed tx -> Forall (fun p : OutPoint * TxOutput => 0 <= out_amount p.2) (created_outputs tx).
Proof.
  intros (_ & _ & Hout & _). destruct (created_outputs_zip tx _ eq_refl) as (_ & _ & Hsnd).
  rewrite <- Hsnd in Hout. rewrite Forall_map in Hout. eapply Forall_impl; [exact Hout|]. by intros p [? _].
Qed.

Lemma apply_working_ok tx s height s' :
  tx_typed tx -> working_ok s -> apply_transaction tx s height = (Ok tt, s') ->
  working_ok s' /\ applied tx height (u_utxos (cs_utxo s)) (u_utxos (cs_utxo s')).
Proof.
  intros Ht [Hi Ha Hm] Happ. apply apply_transaction_spec in Happ as (Hi' & _ & Hap & Hmp).
  split; [|done]. split; [auto| |by rewrite Hmp; apply confirm_in_mempool_empty].
  rewrite (ap_post _ _ _ _ Hap). apply with_created_amounts; [by apply created_amounts|].
  intros o v Ho. rewrite lookup_without in Ho. case_decide; [done|]. by apply (Ha o).
Qed.

Lemma working_tx_output_amount s o :
  working_ok s -> tx_output_amount s o = utxo_amount <$> u_utxos (cs_utxo s) !! o.
Proof.
  intros [_ _ Hm]. unfold tx_output_amount. rewrite Hm, lookup_empty.
  by destruct (u_utxos (cs_utxo s) !! o).
Qed.
Lemma working_amounts_ok s : working_ok s -> amounts_ok s.
Proof.
  intros Hw o a. rewrite working_tx_output_amount by done. intros (v & Hv & ->)%fmap_Some.
  by apply (wo_amounts s Hw o).
Qed.
Lemma working_known_value s inputs :
  working_ok s -> sum_Z (map (known_amount s) inputs) = input_value (u_utxos (cs_utxo s)) inputs.
Proof.
  intros Hw. unfold input_value, spent_outpoints. rewrite map_map. f_equal. apply map_ext. intros i.
  unfold known_amount, amount_at. rewrite working_tx_output_amount by done.
  by destruct (u_utxos (cs_utxo s) !! in_previous_output i).
Qed.

(** A validated ordinary transaction burns at least its fee. *)
Lemma validated_step_value `{Crypto} tx s height s' :
  tx_typed tx -> working_ok s -> validate_transaction tx s = Ok tt ->
  apply_transaction tx s height = (Ok tt, s') ->
  working_ok s' /\
  total_amount (u_utxos (cs_utxo s')) <= total_amount (u_utxos (cs_utxo s)) - tx_fee tx.
Proof.
  intros Ht Hw Hv Ha. destruct (apply_working_ok _ _ _ _ Ht Hw Ha) as [Hw' Hap]. split; [done|].
  apply validate_transaction_iff in Hv; [|done|by apply working_amounts_ok].
  rewrite (ap_value _ _ _ _ Hap). unfold consumed.
  destruct (is_coinbase tx) eqn:Hcb; [apply is_coinbase_spec in Hcb; by destruct Hv, Hcb|].
  pose proof (ta_funded _ _ Hv) as Hf. rewrite working_known_value in Hf by done. lia.
Qed.

Lemma apply_to_working_Ok tx s height s' :
  apply_to_working tx s height = Ok s' <-> apply_transaction tx s height = (Ok tt, s').
Proof. unfold apply_to_working. destruct (apply_transaction tx s height) as [[[]|] ?]; naive_solver. Qed.

Lemma validated_fold_value `{Crypto} rest s height s' :
  Forall tx_typed rest -> working_ok s ->
  try_fold (fun working tx => check validate_transaction tx working in
              apply_to_working tx working height) s rest = Ok s' ->
  working_ok s' /\ apply_transactions rest s height = Ok s' /\
  total_amount (u_utxos (cs_utxo s')) <= total_amount (u_utxos (cs_utxo s)) - sum_Z (map tx_fee rest).
Proof.
  intros Ht. revert s. induction Ht as [|tx rest Htx _ IH]; intros s Hw Hf; cbn [try_fold] in Hf.
  { simplify_eq. simpl. split_and!; [done|done|lia]. }
  destruct (validate_transaction tx s) as [[]|] eqn:Hv; [|done].
  destruct (apply_to_working tx s height) as [s1|] eqn:Ha; [|done]. apply apply_to_working_Ok in Ha.
  destruct (validated_step_value _ _ _ _ Htx Hw Hv Ha) as [Hw1 Hval].
  destruct (IH s1 Hw1 Hf) as (Hw' & Happ & Hval'). split; [done|]. split.
  - unfold apply_transactions in *. simpl. by rewrite Ha.
  - simpl. lia.
Qed.

Lemma post_state_root_value `{Crypto, HashOrder} block context root coinbase rest :
  b_transactions block = coinbase :: rest -> is_coinbase coinbase = true ->
  Forall tx_typed (b_transactions block) -> working_ok (clear_mempool_view context) ->
  compute_post_state_root block context = Ok root ->
  exists s', apply_transactions (b_transactions block) (clear_mempool_view context)
               (h_height (b_header block)) = Ok s' /\
    working_ok s' /\ compute_state_root (cs_utxo s') = Ok root /\
    total_amount (u_utxos (cs_utxo s')) <=
      total_amount (u_utxos (cs_utxo context)) + output_value (tx_outputs coinbase)
      - sum_Z (map tx_fee rest).
Proof.
  intros Htxs Hcb Htyped Hw. unfold compute_post_state_root. rewrite Htxs in *.
  apply Forall_cons in Htyped as [Htc Htr].
  destruct (apply_to_working coinbase _ _) as [s1|] eqn:Ha; [|done]. apply apply_to_working_Ok in Ha.
  destruct (apply_working_ok _ _ _ _ Htc Hw Ha) as [Hw1 Hap].
  destruct (try_fold _ s1 rest) as [s'|] eqn:Hf; [|done]. intros Hroot.
  destruct (validated_fold_value _ _ _ _ Htr Hw1 Hf) as (Hw' & Happ & Hval).
  exists s'. split_and!; try done.
  - unfold apply_transactions in *. simpl. by rewrite Ha.
  - pose proof (ap_value _ _ _ _ Hap) as Hv. unfold consumed in Hv. rewrite Hcb in Hv.
    unfold input_value in Hv. simpl in Hv. simpl in Hval. lia.
Qed.

Lemma sum_Z_nonneg l : Forall (fun x => 0 <= x) l -> 0 <= sum_Z l.
Proof. induction 1; simpl; lia. Qed.

Lemma coinbase_reward_Ok block coinbase rest :
  b_transactions block = coinbase :: rest -> is_coinbase coinbase = true ->
  Forall (fun tx => is_coinbase tx = false) rest -> Forall tx_typed (b_transactions block) ->
  validate_coinbase_reward block = Ok tt ->
  output_value (tx_outputs coinbase) <= block_subsidy (h_height (b_header block)) + sum_Z (map tx_fee rest).
Proof.
  intros Htxs Hcb Hrest Htyped. unfold validate_coinbase_reward, transaction_output_sum, total_block_fees.
  rewrite Htxs in *. apply Forall_cons in Htyped as [(_ & _ & Hout & _) Htr]. simpl.
  rewrite filter_cons, decide_False by congruence.
  assert (Hfil : filter (fun tx => is_coinbase tx = false) rest = rest).
  { clear -Hrest. induction Hrest as [|tx l Htx _ IH]; [done|].
    rewrite filter_cons, decide_True by done. by f_equal. }
  rewrite Hfil. intros Hr.
  destruct (try_fold _ 0 (tx_outputs coinbase)) as [outs|] eqn:Ho; [|done].
  destruct (try_fold _ 0 rest) as [fees|] eqn:Hf; [|done].
  apply checked_sum_Ok in Ho as [-> _]; [|eapply Forall_impl; [exact Hout|]; by intros ? []|lia].
  apply checked_sum_Ok in Hf as [-> _].
  2: { eapply Forall_impl; [exact Htr|]. by intros ? (_ & _ & _ & [] & _). }
  2: lia.
  inv_ok. bool_props. unfold output_value in *. lia.
Qed.

(** ** The context of a block *)

(** Stored blocks carry well-typed transactions and the live state is
    consistent. *)
Record chain_ok (state : ChainState) : Prop := {
  co_index : index_consistent (cs_utxo state);
  co_amounts : map_Forall (fun _ v => 0 <= utxo_amount v) (u_utxos (cs_utxo state));
  co_blocks : map_Forall (fun _ b => Forall tx_typed (b_transactions b)) (d_blocks (cs_dag state));
}.

Lemma working_ok_same s s' :
  cs_utxo s' = cs_utxo s -> mp_transactions (cs_mempool s') = mp_transactions (cs_mempool s) ->
  working_ok s -> working_ok s'.
Proof. intros Hu Hm [Hi Ha Hmp]. split; by rewrite ?Hu, ?Hm. Qed.

Lemma init_working_ok `{Crypto, HashOrder} chain_id s :
  init_chain_state chain_id = Ok s -> working_ok s.
Proof.
  unfold init_chain_state. destruct genesis_block as [g|]; [|done].
  destruct (expect _) as [tx|]; [|done]. intros [= <-]. split; simpl.
  - apply genesis_utxo_consistent.
  - unfold genesis_utxo. simpl. by apply map_Forall_singleton.
  - done.
Qed.

Lemma apply_transactions_working_ok txs s height s' :
  Forall tx_typed txs -> working_ok s -> apply_transactions txs s height = Ok s' -> working_ok s'.
Proof.
  intros Ht. revert s. unfold apply_transactions.
  induction Ht as [|tx txs Htx _ IH]; intros s Hw Hf; cbn [try_fold] in Hf; [by simplify_eq|].
  destruct (apply_transaction tx s height) as [[[]|] s1] eqn:Ha; [|done].
  eapply IH; [|done]. by eapply apply_working_ok.
Qed.

Lemma parent_state_context_ok `{Crypto, HashOrder} block state context :
  chain_ok state -> parent_state_context block state = Ok context ->
  working_ok (clear_mempool_view context).
Proof.
  intros [Hi Ha Hb]. unfold parent_state_context. intros Hp.
  apply lift_bind_Ok in Hp as (parent & _ & Hp). apply lift_bind_Ok in Hp as (pb & _ & Hp).
  case_bool_decide; [simplify_eq; by split|].
  destruct (init_chain_state (cs_chain_id state)) as [s0|] eqn:Hinit; [|done].
  apply init_working_ok in Hinit. cbv zeta in Hp. apply guard_Ok in Hp as [_ Hp].
  cut (working_ok context); [intros [Hi' Ha' _]; by split|].
  revert Hp. apply (try_fold_ind _ (fun _ s => working_ok s)); [by apply (working_ok_same s0)|].
  intros pre hash post s s' _ Hs Hr. unfold replay_ancestor in Hr. case_decide; [by simplify_eq|].
  apply lift_bind_Ok in Hr as (anc & Hanc & Hr). apply lift_bind_Ok in Hr as (s1 & Hs1 & Hr).
  apply ok_or_Ok in Hanc. simplify_eq.
  apply (working_ok_same s1); [done|done|]. eapply apply_transactions_working_ok; [|done|done].
  by apply (Hb hash).
Qed.

Lemma validated_block_value `{Crypto, HashOrder, Kaspa} env now block state :
  chain_ok state -> Forall tx_typed (b_transactions block) ->
  validate_block env now block state = Ok tt ->
  exists context s', parent_state_context block state = Ok context /\
    apply_transactions (b_transactions block) (clear_mempool_view context)
      (h_height (b_header block)) = Ok s' /\ working_ok s' /\
    compute_state_root (cs_utxo s') = Ok (h_state_root (b_header block)) /\
    total_amount (u_utxos (cs_utxo s')) <=
      total_amount (u_utxos (cs_utxo context)) + block_subsidy (h_height (b_header block)).
Proof.
  intros Hok Htyped Hv. apply validate_block_Ok in Hv.
  destruct (ba_state _ _ _ _ Hv) as (context & Hctx & Hroot).
  destruct (ba_coinbase _ _ _ _ Hv) as (coinbase & rest & Htxs & Hcb & Hrest).
  destruct (post_state_root_value block context _ coinbase rest Htxs Hcb Htyped
    (parent_state_context_ok _ _ _ Hok Hctx) Hroot) as (s' & Happ & Hw & Hsr & Hval).
  pose proof (coinbase_reward_Ok block coinbase rest Htxs Hcb Hrest Htyped (ba_reward _ _ _ _ Hv)).
  exists context, s'. split_and!; try done. lia.
Qed.

(** C2: no inflation.  When [validate_block] accepts a block on a consistent
    chain, its parent's state exists, its transactions apply to it, the result
    has a consistent index and the committed state root, and the value of the
    unspent outputs grows by at most the subsidy of the block's height. *)
Theorem validate_block_no_inflation `{Crypto, HashOrder, Kaspa} env now block state :
  chain_ok state -> Forall tx_typed (b_transactions block) ->
  validate_block env now block state = Ok tt ->
  exists context s', parent_state_context block state = Ok context /\
    apply_transactions (b_transactions block) (clear_mempool_view context)
      (h_height (b_header block)) = Ok s' /\
    index_consistent (cs_utxo s') /\
    compute_state_root (cs_utxo s') = Ok (h_state_root (b_header block)) /\
    total_amount (u_utxos (cs_utxo s')) <=
      total_amount (u_utxos (cs_utxo context)) + block_subsidy (h_height (b_header block)).
Proof.
  intros Hok Htyped Hv.
  destruct (validated_block_value _ _ _ _ Hok Htyped Hv) as (c & s' & ? & ? & Hw & ? & ?).
  exists c, s'. split_and!; try done. by apply Hw.
Qed.

(** ** Witnesses *)

Definition ok_or_default {E A} (r : result E A) (d : A) : A := match r with Ok a => a | Err _ => d end.
Definition genesis_state : ChainState :=
  ok_or_default (@init_chain_state model_crypto list_order "main") blank_state.
Definition genesis_hash : Hash := d_genesis_hash (cs_dag genesis_state).
(** A block on top of genesis with only its coinbase. *)
Definition first_template : Block :=
  mkBlock "" (mkBlockHeader 1 [genesis_hash] 100 0x207fffff 0 "" "" 1 1)
    [ok_or_default (@build_coinbase_transaction model_crypto "miner" 50 1) sample_tx].
Definition first_block : Block :=
  ok_or_default (@refresh_block_consensus_ids_with_state model_crypto list_order first_template genesis_state)
    first_template.
Definition no_env : string -> option string := fun _ => None.

Lemma first_block_valid :
  @validate_block model_crypto list_order model_kaspa no_env 200 first_block genesis_state = Ok tt.
Proof. by_compute. Qed.

Lemma genesis_state_ok : chain_ok genesis_state.
Proof.
  split.
  - apply (indexes_consistent (H0 := list_order)). by_compute.
  - by_decide.
  - by_decide.
Qed.

Lemma block_subsidy_bounded_witness :
  block_subsidy (209999 + 1) <= block_subsidy 209999 <= INITIAL_BLOCK_SUBSIDY /\
  block_subsidy (209999 + SUBSIDY_HALVING_INTERVAL) = block_subsidy 209999 / 2.
Proof. pose proof (block_subsidy_bounded 209999 5 ltac:(lia)) as (H1 & H2 & _). exact (conj H1 H2). Defined.

Lemma validate_transaction_spec_witness :
  @validate_transaction model_crypto sample_tx utxo_chain_state = Ok tt <->
  @tx_accepted model_crypto sample_tx utxo_chain_state.
Proof.
  apply (@validate_transaction_spec model_crypto); [by_decide|].
  intros o a. unfold tx_output_amount. simpl.
  destruct (_ !! o) as [v|] eqn:Ho; [|rewrite lookup_empty; discriminate]. intros [= <-].
  assert (Hall : map_Forall (fun _ v => 0 <= utxo_amount v) (u_utxos sample_utxo_state)) by by_decide.
  exact (Hall o v Ho).
Defined.

Lemma validate_block_sound_witness :
  @block_accepted model_crypto list_order model_kaspa no_env 200 first_block genesis_state.
Proof. apply (@validate_block_sound model_crypto list_order model_kaspa), first_block_valid. Defined.

Lemma validate_block_no_inflation_witness :
  exists context s',
    @parent_state_context model_crypto list_order first_block genesis_state = Ok context /\
    total_amount (u_utxos (cs_utxo s')) <= total_amount (u_utxos (cs_utxo context)) + 50.
Proof.
  destruct (@validate_block_no_inflation model_crypto list_order model_kaspa no_env 200 first_block
    genesis_state genesis_state_ok ltac:(by_decide) first_block_valid)
    as (context & s' & Hc & _ & _ & _ & Hv).
  exists context, s'. split; [exact Hc|exact Hv].
Defined.
