(* ===== verification/DagInvariant.v ===== *)
(** * The block DAG invariant ([apply.rs], [validation.rs])

    What the DAG state promises to the code that walks it, and that accepting a
    validated block keeps it. *)

From S2P Require Import Prelude Encoding Crypto Types Merkle State Tx Graph Pow.
From S2P Require Import Selection Retarget Ghostdag Ordering Mining Genesis Apply.
From S2P Require Import ApplyProps Validation ValidationProps.

Record dag_ok (state : ChainState) : Prop := {
  (** blocks are stored under their own hash *)
  do_keyed : keyed_blocks state;
  (** parents are stored and lower *)
  do_parents : forall h b p, d_blocks (cs_dag state) !! h = Some b -> p ∈ h_parents (b_header b) ->
    exists bp, d_blocks (cs_dag state) !! p = Some bp /\ h_height (b_header bp) < h_height (b_header b);
  (** the tips are the stored blocks without children *)
  do_tips : forall h, h ∈ d_tips (cs_dag state) <->
    is_Some (d_blocks (cs_dag state) !! h) /\
    forall h' b', d_blocks (cs_dag state) !! h' = Some b' -> h ∉ h_parents (b_header b');
  (** the child index is the inverse of the parent lists *)
  do_children : forall p c, c ∈ default [] (d_children (cs_dag state) !! p) <->
    exists b, d_blocks (cs_dag state) !! c = Some b /\ p ∈ h_parents (b_header b);
  (** the selected parent is a parent, and only a block without parents has none *)
  do_selected : forall h b, d_blocks (cs_dag state) !! h = Some b ->
    match selected_parent_of state h with
    | Some p => p ∈ h_parents (b_header b)
    | None => h_parents (b_header b) = []
    end;
  do_best : forall h b, d_blocks (cs_dag state) !! h = Some b ->
    h_height (b_header b) <= d_best_height (cs_dag state);
}.

(** ** The parent loop *)

Lemma elem_of_isort_dedup h l x : h ∈ dedup (isort String.le (l ++ [x])) <-> h ∈ l \/ h = x.
Proof. rewrite elem_of_dedup, isort_elem_of. set_solver. Qed.

Lemma push_children_spec hash parents dag :
  let dag' := foldl (push_child hash) dag parents in
  d_blocks dag' = d_blocks dag /\ d_selected_parents dag' = d_selected_parents dag /\
  d_best_height dag' = d_best_height dag /\
  (forall h, h ∈ d_tips dag' <-> h ∈ d_tips dag /\ h ∉ parents) /\
  (forall p c, c ∈ default [] (d_children dag' !! p) <->
     c ∈ default [] (d_children dag !! p) \/ (c = hash /\ p ∈ parents)).
Proof.
  revert dag. induction parents as [|q parents IH]; intros dag; simpl.
  { split_and!; try done; set_solver. }
  destruct (IH (push_child hash dag q)) as (Hb & Hs & Hh & Ht & Hc). simpl in *.
  split_and!; try done.
  - intros h. rewrite Ht. simpl. set_solver.
  - intros p c. rewrite Hc. simpl. destruct (decide (p = q)) as [->|Hne].
    + rewrite lookup_insert_eq. simpl. rewrite elem_of_isort_dedup. set_solver.
    + rewrite lookup_insert_ne by done. set_solver.
Qed.

(** ** Accepting a block *)

Definition accepted_header (block : Block) (state : ChainState) : Block :=
  block <| b_header ::= fun h => h <| h_blue_score := msc_blue_score (classify_merge_set block state) |> |>.

Lemma max_stored_parent_Some block dag p :
  max_stored_parent block dag = Some p -> p ∈ h_parents (b_header block).
Proof.
  unfold max_stored_parent. intros [Hin _]%max_by_spec; [|apply _].
  by apply list_elem_of_filter in Hin as [_ Hin].
Qed.
Lemma max_stored_parent_None block dag :
  max_stored_parent block dag = None -> forall p, p ∈ h_parents (b_header block) -> d_blocks dag !! p = None.
Proof.
  unfold max_stored_parent. intros Hm p Hp. apply eq_None_not_Some. intros Hs.
  assert (Hin : p ∈ filter (fun p => is_Some (d_blocks dag !! p)) (h_parents (b_header block)))
    by (by apply list_elem_of_filter).
  destruct (filter _ _); [by apply not_elem_of_nil in Hin|done].
Qed.

(** The selected parent recorded for the new block. *)
Lemma accepted_selected_parent block state :
  h_parents (b_header block) <> [] ->
  Forall (fun p => is_Some (d_blocks (cs_dag state) !! p)) (h_parents (b_header block)) ->
  exists p, p ∈ h_parents (b_header block) /\
    selected_parent_of (accept_block_to_dag_metadata block state) (b_hash block) = Some p.
Proof.
  intros Hne Hst. rewrite Forall_forall in Hst.
  destruct (h_parents (b_header block)) as [|q parents] eqn:Hpar; [done|]. rewrite <- Hpar in *.
  assert (Hq : q ∈ h_parents (b_header block)) by (rewrite Hpar; left).
  unfold accept_block_to_dag_metadata, selected_parent_of. simpl. rewrite lookup_insert_eq.
  destruct (ghostdag_metadata_active _).
  - destruct (classify_fields block state (d_merge_set_k (cs_dag state))) as (Hsp & _).
    unfold classify_merge_set. rewrite Hsp.
    destruct (calculate_selected_parent block state) as [p|] eqn:Hc.
    + apply calculate_selected_parent_Some in Hc as (b & Hp & _). by exists p.
    + exfalso. rewrite calculate_selected_parent_None in Hc. destruct (Hst q Hq). by rewrite Hc in *.
  - match goal with |- context [max_stored_parent ?b ?d] => set (blk := b); set (dag := d) end.
    assert (Hblk : d_blocks dag = d_blocks (cs_dag state)).
    { unfold dag. simpl. by destruct (push_children_spec (b_hash block) (h_parents (b_header block)) (cs_dag state)). }
    destruct (max_stored_parent blk dag) as [p|] eqn:Hm.
    + exists p. split; [|done]. by apply max_stored_parent_Some in Hm.
    + exfalso. pose proof (max_stored_parent_None _ _ Hm q Hq) as Hn. rewrite Hblk in Hn.
      destruct (Hst q Hq). congruence.
Qed.

Lemma accept_fields block state :
  let state' := accept_block_to_dag_metadata block state in
  d_blocks (cs_dag state') = <[b_hash block := accepted_header block state]> (d_blocks (cs_dag state)) /\
  (forall h, h <> b_hash block -> selected_parent_of state' h = selected_parent_of state h) /\
  d_best_height (cs_dag state') = Z.max (h_height (b_header block)) (d_best_height (cs_dag state)) /\
  (forall h, h ∈ d_tips (cs_dag state') <->
     h = b_hash block \/ (h ∈ d_tips (cs_dag state) /\ h ∉ h_parents (b_header block))) /\
  (forall p c, c ∈ default [] (d_children (cs_dag state') !! p) <->
     c ∈ default [] (d_children (cs_dag state) !! p) \/
     (c = b_hash block /\ p ∈ h_parents (b_header block))).
Proof.
  destruct (push_children_spec (b_hash block) (h_parents (b_header block)) (cs_dag state))
    as (Hb & Hs & Hh & Ht & Hc).
  unfold accept_block_to_dag_metadata, selected_parent_of. simpl. split_and!.
  - by rewrite Hb.
  - intros h Hne. rewrite lookup_insert_ne by done. by rewrite Hs.
  - by rewrite Hh.
  - intros h. rewrite elem_of_union, elem_of_singleton, Ht. done.
  - done.
Qed.

Lemma accept_preserves_dag_ok block state :
  dag_ok state -> d_blocks (cs_dag state) !! b_hash block = None ->
  h_parents (b_header block) <> [] ->
  Forall (fun p => exists bp, d_blocks (cs_dag state) !! p = Some bp /\
    h_height (b_header bp) < h_height (b_header block)) (h_parents (b_header block)) ->
  dag_ok (accept_block_to_dag_metadata block state).
Proof.
  intros [Hk Hp Ht Hc Hs Hbest] Hnew Hne Hpar.
  destruct (accept_fields block state) as (Hb' & Hs' & Hh' & Ht' & Hc').
  destruct (accepted_selected_parent block state Hne) as (sp & Hsp & Hsel).
  { eapply Forall_impl; [exact Hpar|]. intros p (bp & Hbp & _). by exists bp. }
  rewrite Forall_forall in Hpar.
  assert (Hnotpar : b_hash block ∉ h_parents (b_header block)).
  { intros Hin. destruct (Hpar _ Hin) as (bp & Hbp & _). congruence. }
  assert (Hunused : forall h b, d_blocks (cs_dag state) !! h = Some b -> b_hash block ∉ h_parents (b_header b)).
  { intros h b Hb Hin. destruct (Hp h b _ Hb Hin) as (bp & Hbp & _). congruence. }
  split.
  - unfold keyed_blocks. rewrite Hb'. by apply map_Forall_insert_2.
  - intros h b p Hb Hin. rewrite Hb' in *.
    apply lookup_insert_Some in Hb as [[<- <-]|[Hneq Hb]].
    + destruct (Hpar p Hin) as (bp & Hbp & Hlt). exists bp. split; [|done].
      rewrite lookup_insert_ne; [done|]. by intros <-.
    + destruct (Hp h b p Hb Hin) as (bp & Hbp & Hlt). exists bp. split; [|done].
      rewrite lookup_insert_ne; [done|]. intros <-. by apply (Hunused h b).
  - intros h. rewrite Ht', Hb', Ht. split.
    + intros [->|[[Hst Hno] Hnp]].
      * rewrite lookup_insert_eq. split; [by eexists|]. intros h' b' Hb.
        apply lookup_insert_Some in Hb as [[<- <-]|[_ Hb]]; [done|by apply (Hunused h')].
      * split.
        { destruct (decide (h = b_hash block)) as [->|]; [rewrite lookup_insert_eq; by eexists|].
          by rewrite lookup_insert_ne. }
        intros h' b' Hb. apply lookup_insert_Some in Hb as [[<- <-]|[_ Hb]]; [done|by apply (Hno h')].
    + intros [Hst Hno]. destruct (decide (h = b_hash block)) as [->|Hneq]; [by left|right].
      rewrite lookup_insert_ne in Hst by done. split; [split; [done|]|].
      * intros h' b' Hb. apply (Hno h'). rewrite lookup_insert_ne; [done|]. congruence.
      * apply (Hno (b_hash block) (accepted_header block state)). apply lookup_insert_eq.
  - intros p c. rewrite Hc', Hb', Hc. split.
    + intros [(b & Hb & Hin)|[-> Hin]].
      * exists b. split; [|done]. rewrite lookup_insert_ne; [done|]. congruence.
      * exists (accepted_header block state). by rewrite lookup_insert_eq.
    + intros (b & Hb & Hin). apply lookup_insert_Some in Hb as [[<- <-]|[_ Hb]]; [by right|left; eauto].
  - intros h b Hb. rewrite Hb' in Hb. apply lookup_insert_Some in Hb as [[<- <-]|[Hneq Hb]].
    + by rewrite Hsel.
    + rewrite Hs' by done. by apply Hs.
  - intros h b Hb. rewrite Hh'. rewrite Hb' in Hb.
    apply lookup_insert_Some in Hb as [[<- <-]|[Hneq Hb]]; [simpl; lia|].
    specialize (Hbest h b Hb). lia.
Qed.

Lemma dag_ok_heights_decrease state : dag_ok state -> heights_decrease state.
Proof.
  intros [_ Hp _ _ Hs _] h b p bp Hb Hsel Hbp. specialize (Hs h b Hb). rewrite Hsel in Hs.
  destruct (Hp h b p Hb Hs) as (bp' & Hbp' & Hlt). congruence.
Qed.
