(* ===== verification/Mempool.v ===== *)
(** * The mempool ([mempool.rs])

    Pressure tiers, first-seen bookkeeping, expiry of transactions with their
    descendants, and the reconciliation of the live mempool with a new UTXO
    view. *)

From S2P Require Import Prelude Encoding Crypto Types Merkle State Tx Graph Pow.
From S2P Require Import Selection Retarget Ghostdag Ordering Mining Genesis Apply.
From S2P Require Import Validation.

(** ** Pressure *)

Inductive MempoolPressureTier := Normal | Elevated | High | Saturated.
Definition MempoolPressureTier_as_str (t : MempoolPressureTier) : string :=
  match t with
  | Normal => "normal" | Elevated => "elevated" | High => "high_pressure" | Saturated => "saturated"
  end.
(** The derived order. *)
Definition tier_rank (t : MempoolPressureTier) : Z :=
  match t with Normal => 0 | Elevated => 1 | High => 2 | Saturated => 3 end.

Definition MEMPOOL_PRESSURE_ELEVATED_BPS : Z := 6000.
Definition MEMPOOL_PRESSURE_HIGH_BPS : Z := 8000.
Definition MEMPOOL_PRESSURE_SATURATED_BPS : Z := 9500.

Definition mempool_pressure_bps (used capacity : Z) : Z :=
  if capacity =? 0 then 0 else Z.min (saturating_mul 64 used 10000 / capacity) 10000.
Definition pressure_tier_from_bps (pressure_bps : Z) : MempoolPressureTier :=
  if (0 <=? pressure_bps) && (pressure_bps <=? 5999) then Normal
  else if (MEMPOOL_PRESSURE_ELEVATED_BPS <=? pressure_bps) && (pressure_bps <=? 7999) then Elevated
  else if (MEMPOOL_PRESSURE_HIGH_BPS <=? pressure_bps) && (pressure_bps <=? 9499) then High
  else Saturated.
Definition combined_pressure_tier (mempool_bps orphan_bps : Z) : MempoolPressureTier :=
  let a := pressure_tier_from_bps mempool_bps in
  let b := pressure_tier_from_bps orphan_bps in
  if tier_rank b <? tier_rank a then a else b.

(** ** Bookkeeping *)

Record MempoolReconcileResult := mkMempoolReconcileResult {
  mr_removed_txids : list string;
  mr_kept_txids : list string;
}.
Record MempoolExpiryResult := mkMempoolExpiryResult {
  me_expired_txids : list Hash;
  me_kept_txids : list Hash;
}.

Definition assign_first_seen (txid : string) (state : ChainState) : ChainState :=
  match mp_first_seen (cs_mempool state) !! txid with
  | Some _ => state
  | None =>
      let sequence := mp_next_first_seen (cs_mempool state) in
      state <| cs_mempool ::= fun mp =>
        mp <| mp_next_first_seen := saturating_add 64 sequence 1 |>
           <| mp_first_seen ::= <[txid := sequence]> |> |>
  end.

(** The sort key: (first-seen sequence, txid). *)
Definition compare_first_seen (first_seen : gmap Hash Z) (a b : Hash) : comparison :=
  then_with (default u64_max (first_seen !! a) ?= default u64_max (first_seen !! b)) (String.compare a b).

Section mempool.
Context `{Crypto, HashOrder}.

Definition canonical_mempool_txids (state : ChainState) : list string :=
  let txids := isort String.le (map fst (map_iter (mp_transactions (cs_mempool state)))) in
  isort (cmp_le (compare_first_seen (mp_first_seen (cs_mempool state)))) txids.

Definition mempool_logical_clock (state : ChainState) : Z := d_best_height (cs_dag state).

Definition record_mempool_admission_height (txid : string) (state : ChainState) : ChainState :=
  let height := mempool_logical_clock state in
  state <| cs_mempool ::= fun mp => mp <| mp_admission_height ::= <[txid := height]> |> |>.

Definition mempool_tx_is_expired (txid : string) (state : ChainState)
    (current_height max_age_blocks : Z) : bool :=
  match mp_admission_height (cs_mempool state) !! txid with
  | None => false
  | Some admission_height =>
      if current_height <? admission_height then false
      else match checked_add 64 admission_height max_age_blocks with
           | None => false
           | Some deadline => deadline <=? current_height
           end
  end.

(** ** Expiry *)

(** The [children] map: one entry per (mempool parent, child) pair. *)
Definition add_child (txs : gmap Hash Transaction) (tx : Transaction)
    (children : gmap Hash (gset Hash)) (input : TxInput) : gmap Hash (gset Hash) :=
  let parent_txid := op_txid (in_previous_output input) in
  if decide (is_Some (txs !! parent_txid))
  then <[parent_txid := {[tx_txid tx]} ∪ default ∅ (children !! parent_txid)]> children
  else children.
Definition mempool_children (state : ChainState) : gmap Hash (gset Hash) :=
  let txs := mp_transactions (cs_mempool state) in
  foldl (fun children p => foldl (add_child txs p.2) children (tx_inputs p.2)) ∅ (map_iter txs).

(** One descendant of the popped transaction. *)
Definition enqueue_descendant (acc : gset Hash * list Hash) (descendant : Hash)
  : gset Hash * list Hash :=
  let '(expired, pending) := acc in
  if decide (descendant ∈ expired) then (expired, pending)
  else ({[descendant]} ∪ expired, pending ++ [descendant]).
Fixpoint expire_loop (children : gmap Hash (gset Hash)) (fuel : nat) (expired : gset Hash)
    (pending : list Hash) : option (gset Hash) :=
  match fuel with
  | O => None
  | S fuel' =>
      match pending with
      | [] => Some expired
      | txid :: pending =>
          let '(expired, pending) :=
            match children !! txid with
            | Some descendants => foldl enqueue_descendant (expired, pending) (btree_iter descendants)
            | None => (expired, pending)
            end in
          expire_loop children fuel' expired pending
      end
  end.

(** [spent_outpoints.clear()], then one insertion per input of a live
    transaction. *)
Definition rebuild_spent_outpoints (mp : Mempool) : Mempool :=
  mp <| mp_spent_outpoints :=
    foldl (fun spent p => foldl (fun spent i => {[in_previous_output i]} ∪ spent) spent (tx_inputs p.2))
      ∅ (map_iter (mp_transactions mp)) |>.

Definition remove_expired (expired : gset Hash) (mp : Mempool) : Mempool :=
  let mp := foldl (fun mp txid =>
    mp <| mp_transactions ::= delete txid |>
       <| mp_first_seen ::= delete txid |>
       <| mp_admission_height ::= delete txid |>) mp (btree_iter expired) in
  let live_txids := dom (mp_transactions mp) in
  rebuild_spent_outpoints
    (mp <| mp_first_seen ::= filter (fun p => p.1 ∈ live_txids) |>
        <| mp_admission_height ::= filter (fun p => p.1 ∈ live_txids) |>).

(** [None] is the worklist running out of fuel: one unit per transaction or
    child, and one to leave the loop. *)
Definition expire_fuel (state : ChainState) : nat :=
  S (size (mp_transactions (cs_mempool state)) + size (mp_transactions (cs_mempool state))).
Definition prune_expired_mempool (state : ChainState) (current_height max_age_blocks : Z)
  : option (MempoolExpiryResult * ChainState) :=
  let children := mempool_children state in
  let expired_roots : gset Hash := list_to_set (filter
    (fun txid => mempool_tx_is_expired txid state current_height max_age_blocks = true)
    (map fst (map_iter (mp_transactions (cs_mempool state))))) in
  match expire_loop children (expire_fuel state) expired_roots (btree_iter expired_roots) with
  | None => None
  | Some expired =>
      let state := state <| cs_mempool ::= remove_expired expired |> in
      Some (mkMempoolExpiryResult (btree_iter expired) (canonical_mempool_txids state), state)
  end.

(** ** Reconciliation *)

(** Every exit leaves the changed state behind. *)
Fixpoint mark_spent (inputs : list TxInput) (state : ChainState) : result PulseError unit * ChainState :=
  match inputs with
  | [] => (Ok tt, state)
  | i :: inputs' =>
      if decide (in_previous_output i ∈ mp_spent_outpoints (cs_mempool state)) then (Err DoubleSpend, state)
      else mark_spent inputs' (state <| cs_mempool ::= fun mp =>
             mp <| mp_spent_outpoints ::= fun s => {[in_previous_output i]} ∪ s |> |>)
  end.
Definition simulate_mempool_accept (tx : Transaction) (state : ChainState)
  : result PulseError unit * ChainState :=
  let '(r, state) := mark_spent (tx_inputs tx) state in
  match r with
  | Err e => (Err e, state)
  | Ok _ =>
      let state := assign_first_seen (tx_txid tx) state in
      (Ok tt, state <| cs_mempool ::= fun mp => mp <| mp_transactions ::= <[tx_txid tx := tx]> |> |>)
  end.

Record ReconcilePass := mkReconcilePass {
  rp_working : ChainState;
  rp_next_pending : list Transaction;
  rp_progressed : bool;
  rp_removed : list string;
  rp_kept : list string;
}.
#[global] Instance eta_ReconcilePass : Eta ReconcilePass := fun r =>
  mkReconcilePass (rp_working r) (rp_next_pending r) (rp_progressed r) (rp_removed r) (rp_kept r).

(** The body of the inner loop; [None] is a panic of the validation. *)
Definition reconcile_tx (pass : ReconcilePass) (tx : Transaction) : result unit ReconcilePass :=
  match validate_transaction tx (rp_working pass) with
  | Ok _ =>
      let '(r, working) := simulate_mempool_accept tx (rp_working pass) in
      let pass := pass <| rp_working := working |> in
      Ok (match r with
          | Ok _ => pass <| rp_kept ::= fun l => l ++ [tx_txid tx] |> <| rp_progressed := true |>
          | Err _ => pass <| rp_removed ::= fun l => l ++ [tx_txid tx] |>
          end)
  | Err (Some UtxoNotFound) => Ok (pass <| rp_next_pending ::= fun l => l ++ [tx] |>)
  | Err (Some _) => Ok (pass <| rp_removed ::= fun l => l ++ [tx_txid tx] |>)
  | Err None => Err tt
  end.
(** The outer loop: each pass but the last keeps at least one transaction. *)
Fixpoint reconcile_loop (fuel : nat) (working : ChainState) (pending : list Transaction)
    (removed kept : list string) : result unit (ChainState * list string * list string) :=
  match fuel with
  | O => Err tt
  | S fuel' =>
      match pending with
      | [] => Ok (working, removed, kept)
      | _ =>
          let? pass := try_fold reconcile_tx (mkReconcilePass working [] false removed kept) pending in
          if rp_progressed pass
          then reconcile_loop fuel' (rp_working pass) (rp_next_pending pass) (rp_removed pass) (rp_kept pass)
          else Ok (rp_working pass, rp_removed pass ++ map tx_txid (rp_next_pending pass), rp_kept pass)
      end
  end.

(** [values().copied().max()]. *)
Definition max_value (m : gmap Hash Z) : option Z :=
  max_by Z.compare (map snd (map_iter m)).

Definition rebuilt_mempool (working : Mempool) (counters : MempoolCounters)
    (max_transactions max_spent_outpoints removed : Z) : Mempool :=
  let live := dom (mp_transactions working) in
  let mp := working <| mp_first_seen ::= filter (fun p => p.1 ∈ live) |>
                    <| mp_admission_height ::= filter (fun p => p.1 ∈ live) |>
                    <| mp_counters := counters |>
                    <| mp_max_transactions := max_transactions |>
                    <| mp_max_spent_outpoints := max_spent_outpoints |> in
  mp <| mp_next_first_seen :=
          match max_value (mp_first_seen mp) with Some s => saturating_add 64 s 1 | None => 0 end |>
     <| mp_counters ::= fun c =>
          c <| mc_reconcile_removed_total := saturating_add 64 (mc_reconcile_removed_total c) removed |> |>.

Definition reconcile_mempool (state : ChainState) : result unit (MempoolReconcileResult * ChainState) :=
  let tx_count := size (mp_transactions (cs_mempool state)) in
  let state := state <| cs_mempool ::= fun mp => mp <| mp_counters ::= fun c =>
    c <| mc_reconcile_runs_total := saturating_add 64 (mc_reconcile_runs_total c) 1 |> |> |> in
  if decide (tx_count = 0%nat) then
    Ok (mkMempoolReconcileResult [] [],
        state <| cs_mempool ::= fun mp => mp <| mp_spent_outpoints := ∅ |> <| mp_first_seen := ∅ |>
                                             <| mp_admission_height := ∅ |> |>)
  else
    let original_first_seen := mp_first_seen (cs_mempool state) in
    let txs := isort (cmp_le (fun a b => compare_first_seen original_first_seen (tx_txid a) (tx_txid b)))
                 (map snd (map_iter (mp_transactions (cs_mempool state)))) in
    let working := state <| cs_mempool ::= fun mp => mp <| mp_transactions := ∅ |> <| mp_spent_outpoints := ∅ |> |> in
    let? r := reconcile_loop (S (length txs)) working txs [] [] in
    let '(working, removed_txids, kept_txids) := r in
    Ok (mkMempoolReconcileResult removed_txids kept_txids,
        state <| cs_mempool := rebuilt_mempool (cs_mempool working) (mp_counters (cs_mempool state))
          (mp_max_transactions (cs_mempool state)) (mp_max_spent_outpoints (cs_mempool state))
          (Z.of_nat (length removed_txids)) |>).
End mempool.
