(* ===== verification/MempoolProps.v ===== *)
(** * Correctness of the mempool ([mempool.rs])

    Reconciliation terminates, partitions the mempool into kept and removed
    transactions, and leaves a mempool in which every input is available and no
    outpoint is spent twice; expiry removes the expired transactions with
    exactly their descendants. *)

From S2P Require Import Prelude Encoding Crypto Types Merkle State Tx Graph Pow.
From S2P Require Import Selection Retarget Ghostdag Ordering Mining Genesis Apply.
From S2P Require Import ApplyProps Validation ValidationProps Mempool.

(** The outpoints a list of transactions spends. *)
Definition all_spent (K : list Transaction) : list OutPoint :=
  concat (map (fun tx => spent_outpoints (tx_inputs tx)) K).

(** A state whose mempool holds exactly the transactions [K]. *)
Record holds (u : UtxoState) (K : list Transaction) (s : ChainState) : Prop := {
  ho_utxo : cs_utxo s = u;
  ho_txs : forall id tx, mp_transactions (cs_mempool s) !! id = Some tx <-> tx ∈ K /\ tx_txid tx = id;
  ho_ids : NoDup (map tx_txid K);
  ho_spent : forall o, o ∈ mp_spent_outpoints (cs_mempool s) <-> o ∈ all_spent K;
  ho_single : NoDup (all_spent K);
  ho_available : forall tx i, tx ∈ K -> i ∈ tx_inputs tx ->
    is_Some (tx_output_amount s (in_previous_output i));
  ho_seen : forall tx, tx ∈ K -> is_Some (mp_first_seen (cs_mempool s) !! tx_txid tx);
}.

Lemma mark_spent_spec inputs s :
  NoDup (spent_outpoints inputs) ->
  (forall i, i ∈ inputs -> in_previous_output i ∉ mp_spent_outpoints (cs_mempool s)) ->
  exists s', mark_spent inputs s = (Ok tt, s') /\
    cs_utxo s' = cs_utxo s /\ cs_dag s' = cs_dag s /\
    mp_transactions (cs_mempool s') = mp_transactions (cs_mempool s) /\
    mp_first_seen (cs_mempool s') = mp_first_seen (cs_mempool s) /\
    (forall o, o ∈ mp_spent_outpoints (cs_mempool s') <->
       o ∈ mp_spent_outpoints (cs_mempool s) \/ o ∈ spent_outpoints inputs).
Proof.
  revert s. induction inputs as [|i inputs IH]; intros s Hnd Hfree; simpl.
  { exists s. split_and!; try done. set_solver. }
  apply NoDup_cons in Hnd as [Hi Hnd]. rewrite decide_False by (apply Hfree; left).
  destruct (IH (s <| cs_mempool ::= fun mp =>
    mp <| mp_spent_outpoints ::= fun s => {[in_previous_output i]} ∪ s |> |>)) as (s' & Hm & Hu & Hd & Ht & Hf & Hs).
  - done.
  - intros j Hj. simpl. intros [Heq%elem_of_singleton|Hin]%elem_of_union.
    + apply Hi. rewrite <- Heq. apply list_elem_of_fmap. by exists j.
    + by apply (Hfree j); [right|].
  - exists s'. simpl in *. split_and!; try done. intros o. rewrite Hs. set_solver.
Qed.

Lemma assign_first_seen_spec txid s :
  let s' := assign_first_seen txid s in
  cs_utxo s' = cs_utxo s /\ cs_dag s' = cs_dag s /\
  mp_transactions (cs_mempool s') = mp_transactions (cs_mempool s) /\
  mp_spent_outpoints (cs_mempool s') = mp_spent_outpoints (cs_mempool s) /\
  is_Some (mp_first_seen (cs_mempool s') !! txid) /\
  (forall id, is_Some (mp_first_seen (cs_mempool s) !! id) -> is_Some (mp_first_seen (cs_mempool s') !! id)).
Proof.
  unfold assign_first_seen. destruct (mp_first_seen (cs_mempool s) !! txid) eqn:E; simpl.
  { rewrite E. split_and!; try done. }
  split_and!; try done.
  - rewrite lookup_insert_eq. by eexists.
  - intros id Hid. destruct (decide (id = txid)) as [->|]; [rewrite lookup_insert_eq; by eexists|].
    by rewrite lookup_insert_ne.
Qed.

(** Adding a transaction only makes more outputs available. *)
Lemma tx_output_amount_mono s s' o :
  cs_utxo s' = cs_utxo s ->
  (forall id tx, mp_transactions (cs_mempool s) !! id = Some tx -> mp_transactions (cs_mempool s') !! id = Some tx) ->
  is_Some (tx_output_amount s o) -> is_Some (tx_output_amount s' o).
Proof.
  intros Hu Hm. unfold tx_output_amount. rewrite Hu. destruct (u_utxos (cs_utxo s) !! o); [done|].
  destruct (mp_transactions (cs_mempool s) !! op_txid o) as [tx|] eqn:E; [|by intros [? ?]].
  by rewrite (Hm _ _ E).
Qed.

Lemma all_spent_snoc K tx : all_spent (K ++ [tx]) = all_spent K ++ spent_outpoints (tx_inputs tx).
Proof. unfold all_spent. rewrite map_app, concat_app. simpl. by rewrite app_nil_r. Qed.

(** Accepting a validated transaction extends what the mempool holds. *)
Lemma simulate_accept_holds `{Crypto} u K s tx :
  holds u K s -> tx_accepted tx s -> tx_txid tx ∉ map tx_txid K ->
  exists s', simulate_mempool_accept tx s = (Ok tt, s') /\ cs_dag s' = cs_dag s /\ holds u (K ++ [tx]) s'.
Proof.
  intros [Hu Ht Hids Hsp Hsg Hav Hse] Hacc Hfresh.
  pose proof (ta_known _ _ Hacc) as Hknown. rewrite Forall_forall in Hknown.
  destruct (mark_spent_spec (tx_inputs tx) s) as (s1 & Hm & Hu1 & Hd1 & Ht1 & Hf1 & Hs1).
  { apply Hacc. }
  { intros i Hi. by apply Hknown. }
  unfold simulate_mempool_accept. rewrite Hm.
  destruct (assign_first_seen_spec (tx_txid tx) s1) as (Hu2 & Hd2 & Ht2 & Hs2 & Hf2 & Hf2').
  eexists. split; [reflexivity|]. simpl. split; [congruence|].
  assert (Hnone : mp_transactions (cs_mempool s) !! tx_txid tx = None).
  { apply eq_None_not_Some. intros [tx' [Hin Heq]%Ht]. apply Hfresh. rewrite <- Heq.
    apply list_elem_of_fmap. eauto. }
  assert (Htxs : forall id x, <[tx_txid tx := tx]> (mp_transactions (cs_mempool (assign_first_seen (tx_txid tx) s1))) !! id = Some x
    <-> x ∈ K ++ [tx] /\ tx_txid x = id).
  { intros id x. rewrite Ht2, Ht1, lookup_insert_Some, Ht, elem_of_app, list_elem_of_singleton. split.
    - intros [[<- <-]|[Hne [Hx Hid]]]; auto.
    - intros [[Hx| ->] Hid]; [|by left]. right. split; [|done]. intros Heq. apply Hfresh.
      rewrite Heq, <- Hid. apply list_elem_of_fmap. eauto. }
  split; simpl.
  - congruence.
  - exact Htxs.
  - rewrite map_app. apply NoDup_app. split; [done|]. split; [|apply NoDup_singleton]. simpl. set_solver.
  - intros o. rewrite Hs2, Hs1, Hsp, all_spent_snoc. set_solver.
  - rewrite all_spent_snoc. apply NoDup_app. split; [done|]. split; [|apply Hacc].
    intros o Ho (i & -> & Hi)%list_elem_of_fmap. apply (Hknown i Hi). by apply Hsp.
  - intros x i Hx Hi. apply (tx_output_amount_mono s).
    + simpl. congruence.
    + simpl. intros id y Hy. rewrite Ht2, Ht1. rewrite lookup_insert_ne; [done|]. congruence.
    + apply elem_of_app in Hx as [Hx| ->%list_elem_of_singleton]; [by eapply Hav|by apply Hknown].
  - intros x [Hx| ->%list_elem_of_singleton]%elem_of_app; [|done]. apply Hf2'. rewrite Hf1. auto.
Qed.

(** ** One pass *)

(** A transaction whose serialization does not panic. *)
Definition tx_encodable (tx : Transaction) : Prop :=
  is_Some (canonical_transaction_bytes tx) /\ is_Some (signing_message tx).

Lemma bind_no_panic {A B} (r : outcome A) (k : A -> outcome B) :
  r <> Err None -> (forall a, r = Ok a -> k a <> Err None) -> (let? x := r in k x) <> Err None.
Proof. destruct r as [a|e]; intros Hr Hk; [by apply Hk|congruence]. Qed.
Lemma lift_no_panic {A} (r : result PulseError A) : lift r <> Err None.
Proof. by destruct r. Qed.

Lemma guard_no_panic {A} (c : bool) e (k : outcome A) : k <> Err None -> (if c then fails e else k) <> Err None.
Proof. by destruct c. Qed.

Lemma validate_no_panic `{Crypto} tx s : tx_encodable tx -> validate_transaction tx s <> Err None.
Proof.
  intros [[b Hb] [m Hm]]. unfold validate_transaction, compute_txid, verify_transaction_signatures.
  rewrite Hb, Hm. cbn [expect ok_or].
  do 3 apply guard_no_panic. apply bind_no_panic; [apply lift_no_panic|]. intros _ _.
  do 2 apply guard_no_panic. do 3 (apply bind_no_panic; [apply lift_no_panic|]; intros ? _).
  apply guard_no_panic. apply bind_no_panic; [apply lift_no_panic|]. intros ? _. apply lift_no_panic.
Qed.

Section reconcile.
Context `{Crypto, HashOrder}.
Variable u : UtxoState.
Hypothesis u_amounts : map_Forall (fun _ v => 0 <= utxo_amount v) (u_utxos u).

Lemma holds_amounts_ok K s :
  holds u K s -> Forall tx_typed K -> amounts_ok s.
Proof.
  intros Hh Ht o a. unfold tx_output_amount. rewrite (ho_utxo _ _ _ Hh).
  destruct (u_utxos u !! o) as [v|] eqn:E; [intros [= <-]; by apply (u_amounts o)|].
  destruct (mp_transactions (cs_mempool s) !! op_txid o) as [tx|] eqn:Et; [|done].
  apply (ho_txs _ _ _ Hh) in Et as [Hin _]. rewrite Forall_forall in Ht.
  destruct (Ht tx Hin) as (_ & _ & Hout & _). rewrite Forall_forall in Hout.
  unfold vec_get. destruct (0 <=? op_index o); [|done]. destruct (tx_outputs tx !! _) as [out|] eqn:Eo; [|done].
  intros [= <-]. by apply Hout, list_elem_of_lookup; eauto.
Qed.

(** What is known after processing [pre] in a pass that started with [K0]. *)
Definition pass_inv (dag : DagState) (K0 : list Transaction) (removed0 : list string)
    (pre : list Transaction) (pass : ReconcilePass) : Prop :=
  exists K, holds u (K0 ++ K) (rp_working pass) /\ cs_dag (rp_working pass) = dag /\
    rp_kept pass = map tx_txid (K0 ++ K) /\
    (forall tx, tx ∈ K -> tx ∈ pre) /\ (forall tx, tx ∈ rp_next_pending pass -> tx ∈ pre) /\
    map tx_txid K ++ map tx_txid (rp_next_pending pass) ++ rp_removed pass
      ≡ₚ removed0 ++ map tx_txid pre /\
    NoDup (map tx_txid K ++ map tx_txid (rp_next_pending pass)) /\
    (length (rp_next_pending pass) + length K <= length pre)%nat /\
    (rp_progressed pass = true -> (0 < length K)%nat).

Lemma txid_in {x} {l : list Transaction} : x ∈ l -> tx_txid x ∈ map tx_txid l.
Proof. intros Hx. apply list_elem_of_fmap. eauto. Qed.

Lemma reconcile_tx_inv dag K0 removed0 pre x post pass :
  Forall tx_typed (K0 ++ pre ++ x :: post) -> Forall tx_encodable (pre ++ x :: post) ->
  NoDup (map tx_txid (K0 ++ pre ++ x :: post)) ->
  pass_inv dag K0 removed0 pre pass ->
  exists pass', reconcile_tx pass x = Ok pass' /\ pass_inv dag K0 removed0 (pre ++ [x]) pass'.
Proof.
  intros Hty Hen Hnd (K & Hh & Hdag & Hkept & HK & Hnext & Hperm & Hndn & Hlen & Hprog).
  rewrite Forall_forall in Hty, Hen.
  assert (HtyK : Forall tx_typed (K0 ++ K)).
  { apply Forall_forall. intros tx [Htx|Htx]%elem_of_app; apply Hty; [|apply HK in Htx]; set_solver. }
  assert (Hx : tx_txid x ∉ map tx_txid K0 /\ tx_txid x ∉ map tx_txid pre).
  { rewrite !map_app in Hnd. apply NoDup_app in Hnd as (_ & Hd & Hnd). apply NoDup_app in Hnd as (_ & Hd' & _).
    split; [intros Hin; apply (Hd _ Hin)|intros Hin; apply (Hd' _ Hin)]; simpl; set_solver. }
  destruct Hx as [Hx0 Hxpre].
  assert (HxK : forall l, (forall tx, tx ∈ l -> tx ∈ pre) -> tx_txid x ∉ map tx_txid l).
  { intros l Hl (y & Heq & Hy)%list_elem_of_fmap. apply Hxpre. rewrite Heq. by apply txid_in, Hl. }
  unfold reconcile_tx. destruct (validate_transaction x (rp_working pass)) as [[]|[e|]] eqn:Hv.
  - apply validate_transaction_iff in Hv; [|apply Hty; set_solver|by eapply holds_amounts_ok].
    destruct (simulate_accept_holds u (K0 ++ K) (rp_working pass) x Hh Hv) as (w & Hs & Hd & Hh').
    { rewrite map_app. intros [?|Hin]%elem_of_app; [done|]. by apply (HxK K HK). }
    rewrite Hs. eexists. split; [reflexivity|]. exists (K ++ [x]). simpl.
    rewrite (app_assoc K0 K [x]). split; [done|]. split; [congruence|].
    split; [rewrite Hkept; symmetry; apply map_app|]. split; [set_solver|]. split; [set_solver|]. split; [|split].
    + rewrite !map_app. simpl. rewrite (app_assoc removed0), <- Hperm. solve_Permutation.
    + rewrite map_app, <- app_assoc. simpl. rewrite <- Permutation_middle. apply NoDup_cons.
      split; [|done]. intros [Hin|Hin]%elem_of_app; [by apply (HxK K HK)|by apply (HxK _ Hnext)].
    + rewrite !length_app. simpl. lia.
  - assert (Hcase : (exists p', p' = pass <| rp_next_pending ::= fun l => l ++ [x] |> /\
        reconcile_tx pass x = Ok p') \/
      (exists p', p' = pass <| rp_removed ::= fun l => l ++ [tx_txid x] |> /\ reconcile_tx pass x = Ok p')).
    { unfold reconcile_tx. rewrite Hv. destruct e; eauto. }
    unfold reconcile_tx in Hcase. rewrite Hv in Hcase.
    destruct Hcase as [(p' & -> & Hr)|(p' & -> & Hr)]; rewrite Hr; eexists; (split; [reflexivity|]);
      exists K; simpl; (split; [done|]); (split; [done|]); (split; [done|]); (split; [set_solver|]);
      (split; [set_solver|]); rewrite !map_app, ?length_app; simpl; (split; [|split; [|split; [lia|done]]]).
    + rewrite (app_assoc removed0), <- Hperm. solve_Permutation.
    + rewrite app_assoc. apply NoDup_app. split; [done|]. split; [|apply NoDup_singleton].
      intros id Hid ->%list_elem_of_singleton.
      apply elem_of_app in Hid as [Hin|Hin]; [by apply (HxK K HK)|by apply (HxK _ Hnext)].
    + rewrite (app_assoc removed0), <- Hperm. solve_Permutation.
    + done.
  - exfalso. apply (validate_no_panic x (rp_working pass)); [apply Hen; set_solver|done].
Qed.

Lemma reconcile_pass_spec dag K0 removed0 pending pass :
  Forall tx_typed (K0 ++ pending) -> Forall tx_encodable pending -> NoDup (map tx_txid (K0 ++ pending)) ->
  pass_inv dag K0 removed0 [] pass ->
  exists pass', try_fold reconcile_tx pass pending = Ok pass' /\ pass_inv dag K0 removed0 pending pass'.
Proof.
  intros Hty Hen Hnd Hinv.
  cut (forall post pre pass, pending = pre ++ post -> pass_inv dag K0 removed0 pre pass ->
    exists pass', try_fold reconcile_tx pass post = Ok pass' /\ pass_inv dag K0 removed0 pending pass').
  { intros Hcut. by apply (Hcut pending []). }
  induction post as [|x post IH]; intros pre p Heq Hp; simpl.
  { exists p. split; [done|]. by rewrite app_nil_r in Heq; subst. }
  subst pending. destruct (reconcile_tx_inv dag K0 removed0 pre x post p Hty Hen Hnd Hp) as (p' & Hr & Hp').
  rewrite Hr. apply (IH (pre ++ [x])); [by rewrite <- app_assoc|done].
Qed.

(** ** All passes *)

Lemma reconcile_loop_spec dag fuel w pending K0 removed0 :
  (length pending < fuel)%nat ->
  Forall tx_typed (K0 ++ pending) -> Forall tx_encodable pending -> NoDup (map tx_txid (K0 ++ pending)) ->
  holds u K0 w -> cs_dag w = dag ->
  exists w' K removed,
    reconcile_loop fuel w pending removed0 (map tx_txid K0) = Ok (w', removed, map tx_txid (K0 ++ K)) /\
    holds u (K0 ++ K) w' /\ cs_dag w' = dag /\ (forall tx, tx ∈ K -> tx ∈ pending) /\
    map tx_txid K ++ removed ≡ₚ removed0 ++ map tx_txid pending.
Proof.
  revert w pending K0 removed0. induction fuel as [|fuel IH]; intros w pending K0 removed0 Hfuel Hty Hen Hnd Hh Hd; [lia|].
  simpl. destruct pending as [|x0 pend0] eqn:Hpend.
  { exists w, [], removed0. rewrite !app_nil_r. split_and!; try done. }
  rewrite <- Hpend in *. clear Hpend x0 pend0.
  destruct (reconcile_pass_spec dag K0 removed0 pending (mkReconcilePass w [] false removed0 (map tx_txid K0)))
    as (pass & Hf & K & Hh' & Hd' & Hk & HK & Hnext & Hperm & Hndn & Hlen & Hprog); try done.
  { exists []. simpl. rewrite !app_nil_r. split_and!; try done; first [set_solver | constructor]. }
  rewrite Hf. destruct (rp_progressed pass) eqn:Hpr.
  - specialize (Hprog eq_refl). rewrite Hk.
    assert (Hsub : forall tx, tx ∈ rp_next_pending pass -> tx ∈ pending) by done.
    destruct (IH (rp_working pass) (rp_next_pending pass) (K0 ++ K) (rp_removed pass))
      as (w' & K' & removed & Hr & Hw' & Hdw & HK' & Hp'); try done.
    + lia.
    + rewrite Forall_forall in *. intros tx Htx. apply Hty. set_solver.
    + rewrite Forall_forall in *. intros tx Htx. apply Hen. set_solver.
    + rewrite map_app. apply NoDup_app in Hndn as (_ & Hdis' & Hndn).
      apply NoDup_app. split; [apply (ho_ids _ _ _ Hh')|]. split; [|done].
      intros id Hid Hid'. rewrite map_app in Hid. apply elem_of_app in Hid as [Hid|Hid].
      * rewrite map_app in Hnd. apply NoDup_app in Hnd as (_ & Hdis & _). apply (Hdis id Hid).
        apply list_elem_of_fmap in Hid' as (tx & -> & Htx). by apply txid_in, Hsub.
      * by apply (Hdis' id).
    + exists w', (K ++ K'), removed. rewrite app_assoc. split_and!; try done.
      * intros tx [Htx|Htx]%elem_of_app; auto.
      * rewrite map_app, <- app_assoc, Hp'. rewrite (Permutation_app_comm (rp_removed pass)). done.
  - exists (rp_working pass), K, (rp_removed pass ++ map tx_txid (rp_next_pending pass)).
    rewrite Hk. split_and!; try done. rewrite (Permutation_app_comm (rp_removed pass)). done.
Qed.
End reconcile.

(** ** The whole reconciliation *)

(** Mempool entries are stored under their id, well typed and serializable. *)
Definition mempool_entries_ok (s : ChainState) : Prop :=
  map_Forall (fun id tx => tx_txid tx = id /\ tx_typed tx /\ tx_encodable tx)
    (mp_transactions (cs_mempool s)).

Lemma holds_nil u s :
  cs_utxo s = u -> mp_transactions (cs_mempool s) = ∅ -> mp_spent_outpoints (cs_mempool s) = ∅ ->
  holds u [] s.
Proof.
  intros Hu Ht Hs. split; rewrite ?Ht, ?Hs; try done; try set_solver; try constructor.
Qed.

Lemma holds_same_view u K s s' :
  cs_utxo s' = cs_utxo s -> mp_transactions (cs_mempool s') = mp_transactions (cs_mempool s) ->
  mp_spent_outpoints (cs_mempool s') = mp_spent_outpoints (cs_mempool s) ->
  (forall tx, tx ∈ K -> is_Some (mp_first_seen (cs_mempool s') !! tx_txid tx)) ->
  holds u K s -> holds u K s'.
Proof.
  intros Hu Ht Hs Hf [H1 H2 H3 H4 H5 H6 H7]. split; rewrite ?Hu, ?Ht, ?Hs; try done.
  intros tx i Htx Hi. unfold tx_output_amount. rewrite Hu, Ht. by apply (H6 tx).
Qed.

Lemma map_iter_values `{HashOrder} {V} (m : gmap Hash V) x :
  x ∈ map snd (map_iter m) <-> exists k, m !! k = Some x.
Proof.
  rewrite list_elem_of_fmap. split.
  - intros ([k y] & -> & Hk%elem_of_map_iter). eauto.
  - intros [k Hk]. exists (k, x). by rewrite elem_of_map_iter.
Qed.

Lemma mempool_txids `{HashOrder} s :
  mempool_entries_ok s ->
  map tx_txid (map snd (map_iter (mp_transactions (cs_mempool s)))) =
  map fst (map_iter (mp_transactions (cs_mempool s))).
Proof.
  intros Hok. rewrite map_map. apply map_ext_in. intros [id tx] Hin%list_elem_of_In.
  apply elem_of_map_iter in Hin. by destruct (Hok id tx Hin).
Qed.

Lemma reconcile_mempool_facts `{Crypto, HashOrder} s :
  map_Forall (fun _ v => 0 <= utxo_amount v) (u_utxos (cs_utxo s)) -> mempool_entries_ok s ->
  exists r s' K, reconcile_mempool s = Ok (r, s') /\
    cs_utxo s' = cs_utxo s /\ cs_dag s' = cs_dag s /\
    mr_kept_txids r = map tx_txid K /\
    mr_kept_txids r ++ mr_removed_txids r ≡ₚ map fst (map_iter (mp_transactions (cs_mempool s))) /\
    (forall tx, tx ∈ K -> mp_transactions (cs_mempool s) !! tx_txid tx = Some tx) /\
    holds (cs_utxo s) K s'.
Proof.
  intros Hua Hok. unfold reconcile_mempool.
  destruct (decide (size (mp_transactions (cs_mempool s)) = 0%nat)) as [Hz|Hz].
  { apply map_size_empty_inv in Hz. eexists _, _, []. split; [reflexivity|]. simpl.
    split_and!; try done; [|set_solver|].
    - pose proof (map_iter_perm (mp_transactions (cs_mempool s))) as Hp. rewrite Hz in *.
      rewrite map_to_list_empty in Hp. apply Permutation_nil_r in Hp. by rewrite Hp.
    - apply holds_nil; simpl; done. }
  match goal with |- context [reconcile_loop _ ?v ?t _ _] => set (w := v); set (txs := t) end.
  assert (Hp : txs ≡ₚ map snd (map_iter (mp_transactions (cs_mempool s)))) by apply isort_perm.
  assert (Hin : forall tx, tx ∈ txs -> mp_transactions (cs_mempool s) !! tx_txid tx = Some tx /\
    tx_typed tx /\ tx_encodable tx).
  { intros tx. rewrite Hp, map_iter_values. intros [id Hid]. destruct (Hok id tx Hid) as (<- & ? & ?). done. }
  destruct (reconcile_loop_spec (cs_utxo s) Hua (cs_dag s) (S (length txs)) w txs [] [])
    as (w' & K & removed & Hr & Hh & Hd & HK & Hperm); simpl.
  - lia.
  - apply Forall_forall. intros tx Htx. by apply Hin.
  - apply Forall_forall. intros tx Htx. by apply Hin.
  - rewrite Hp, mempool_txids by done. apply NoDup_map_iter_keys.
  - apply holds_nil; done.
  - done.
  - simpl in Hr. rewrite Hr. eexists _, _, K. split; [reflexivity|]. simpl. split_and!; try done.
    + rewrite Hperm, Hp, mempool_txids by done. done.
    + intros tx Htx%HK. by apply Hin.
    + apply (holds_same_view _ _ w'); simpl; try done.
      * symmetry. apply (ho_utxo _ _ _ Hh).
      * intros tx Htx. apply (ho_seen _ _ _ Hh) in Htx as Hs. destruct Hs as [n Hn]. exists n.
        apply map_lookup_filter_Some. split; [done|]. simpl. apply elem_of_dom.
        exists tx. by apply (ho_txs _ _ _ Hh).
Qed.

Lemma reconcile_keeps `{Crypto, HashOrder} s r s' :
  reconcile_mempool s = Ok (r, s') -> cs_utxo s' = cs_utxo s /\ cs_dag s' = cs_dag s.
Proof.
  unfold reconcile_mempool. case_decide; [by intros [= <- <-]|].
  destruct (reconcile_loop _ _ _ _ _) as [[[? ?] ?]|]; [|done]. by intros [= <- <-].
Qed.

(** C8: [reconcile_mempool] terminates without panicking, leaves the UTXO set
    and the DAG alone, splits the old mempool into the kept and the removed
    transactions, and the new mempool holds exactly the kept ones: each input
    of each of them is an unspent output or an output of another kept
    transaction, no outpoint is spent twice, and [spent_outpoints] is exactly
    the set of outpoints they spend. *)
Theorem reconcile_mempool_correct `{Crypto, HashOrder} s :
  map_Forall (fun _ v => 0 <= utxo_amount v) (u_utxos (cs_utxo s)) -> mempool_entries_ok s ->
  exists r s' K, reconcile_mempool s = Ok (r, s') /\
    cs_utxo s' = cs_utxo s /\ cs_dag s' = cs_dag s /\
    mr_kept_txids r = map tx_txid K /\
    mr_kept_txids r ++ mr_removed_txids r ≡ₚ map fst (map_iter (mp_transactions (cs_mempool s))) /\
    (forall tx, tx ∈ K -> mp_transactions (cs_mempool s) !! tx_txid tx = Some tx) /\
    holds (cs_utxo s) K s'.
Proof. apply reconcile_mempool_facts. Qed.

(** ** Expiry *)

Lemma add_children_spec txs tx children inputs p c :
  c ∈ default ∅ (foldl (add_child txs tx) children inputs !! p) <->
  c ∈ default ∅ (children !! p) \/
  (is_Some (txs !! p) /\ c = tx_txid tx /\ exists i, i ∈ inputs /\ op_txid (in_previous_output i) = p).
Proof.
  revert children. induction inputs as [|i inputs IH]; intros children; simpl; [set_solver|].
  rewrite IH. unfold add_child. case_decide as Hp.
  - destruct (decide (p = op_txid (in_previous_output i))) as [->|Hne].
    + rewrite lookup_insert_eq. simpl. set_solver.
    + rewrite lookup_insert_ne by done. set_solver.
  - set_solver.
Qed.

Lemma mempool_children_spec `{HashOrder} s p c :
  c ∈ default ∅ (mempool_children s !! p) <->
  is_Some (mp_transactions (cs_mempool s) !! p) /\
  exists id tx, mp_transactions (cs_mempool s) !! id = Some tx /\ c = tx_txid tx /\
    exists i, i ∈ tx_inputs tx /\ op_txid (in_previous_output i) = p.
Proof.
  unfold mempool_children. set (txs := mp_transactions (cs_mempool s)).
  assert (Hg : forall (l : list (Hash * Transaction)) children,
    c ∈ default ∅ (foldl (fun children (q : Hash * Transaction) => foldl (add_child txs q.2) children (tx_inputs q.2)) children l !! p) <->
    c ∈ default ∅ (children !! p) \/
    (is_Some (txs !! p) /\ exists id tx, (id, tx) ∈ l /\ c = tx_txid tx /\
       exists i, i ∈ tx_inputs tx /\ op_txid (in_previous_output i) = p)).
  { induction l as [|[id tx] l IH]; intros children; simpl; [set_solver|].
    rewrite IH, add_children_spec. simpl. split.
    - intros [[?|(Hp & Hc & Hi)]|(Hp & id' & tx' & Hin & ?)]; [by left|right..];
        (split; [done|]); eexists _, _; (split; [|done]); [by left|by right].
    - intros [?|(Hp & id' & tx' & [[= -> ->]|Hin]%elem_of_cons & Hr)]; [by left; left|left; right|right];
        [naive_solver|]. split; [done|]. eauto. }
  rewrite Hg, lookup_empty. setoid_rewrite elem_of_map_iter. set_solver.
Qed.

Lemma enqueue_fold_spec ds expired pending :
  NoDup ds ->
  exists new, foldl enqueue_descendant (expired, pending) ds = (list_to_set new ∪ expired, pending ++ new) /\
    NoDup new /\ (forall d, d ∈ new <-> d ∈ ds /\ d ∉ expired).
Proof.
  intros Hnd. revert expired pending. induction Hnd as [|d ds Hd _ IH]; intros expired pending; simpl.
  { exists []. rewrite app_nil_r. split; [f_equal; set_solver|]. split; [constructor|set_solver]. }
  case_decide as Hin.
  - destruct (IH expired pending) as (new & Hf & Hn & Hspec). exists new. split; [done|]. split; [done|].
    intros x. rewrite Hspec. set_solver.
  - destruct (IH ({[d]} ∪ expired) (pending ++ [d])) as (new & Hf & Hn & Hspec).
    exists (d :: new). rewrite Hf, <- app_assoc. split; [f_equal; set_solver|]. split.
    + constructor; [|done]. rewrite Hspec. set_solver.
    + intros x. rewrite elem_of_cons, Hspec. destruct (decide (x = d)); set_solver.
Qed.

Definition descends (children : gmap Hash (gset Hash)) : relation Hash :=
  rtc (fun p c => c ∈ default ∅ (children !! p)).

Lemma expire_loop_spec children (U roots : gset Hash) fuel expired pending :
  (forall p c, c ∈ default ∅ (children !! p) -> c ∈ U) ->
  expired ⊆ U -> roots ⊆ expired ->
  (forall t, t ∈ pending -> t ∈ expired) ->
  (forall t, t ∈ expired -> exists r, r ∈ roots /\ descends children r t) ->
  (forall t c, t ∈ expired -> t ∉ pending -> c ∈ default ∅ (children !! t) -> c ∈ expired) ->
  (size (U ∖ expired) + length pending < fuel)%nat ->
  exists result, expire_loop children fuel expired pending = Some result /\ result ⊆ U /\
    forall t, t ∈ result <-> exists r, r ∈ roots /\ descends children r t.
Proof.
  intros HU. revert expired pending.
  induction fuel as [|fuel IH]; intros expired pending HexU Hroots Hpe Hre Hcl Hfuel; [lia|]. simpl.
  destruct pending as [|txid pending].
  { exists expired. split; [done|]. split; [done|]. intros t. split; [by apply Hre|].
    intros (r & Hr & Hrt). apply Hroots in Hr. induction Hrt as [x|x y z Hxy _ IHr]; [done|].
    apply IHr. apply (Hcl x); [done|apply not_elem_of_nil|done]. }
  set (ds := default ∅ (children !! txid)).
  destruct (enqueue_fold_spec (btree_iter ds) expired pending (NoDup_btree_iter ds)) as (new & Hf & Hn & Hspec).
  setoid_rewrite elem_of_btree_iter in Hspec.
  assert (Hstep : match children !! txid with
    | Some descendants => foldl enqueue_descendant (expired, pending) (btree_iter descendants)
    | None => (expired, pending) end = (list_to_set new ∪ expired, pending ++ new)).
  { unfold ds in *. destruct (children !! txid); [done|]. simpl in *.
    rewrite <- Hf. by vm_compute (btree_iter ∅). }
  rewrite Hstep. apply IH.
  - intros x [Hx%elem_of_list_to_set|Hx]%elem_of_union; [|by apply HexU].
    apply Hspec in Hx as [Hx _]. by apply (HU txid).
  - set_solver.
  - intros t. rewrite elem_of_app, elem_of_union, elem_of_list_to_set. intros [Ht|Ht]; [right|by left].
    apply Hpe. by right.
  - intros t. rewrite elem_of_union, elem_of_list_to_set. intros [Ht|Ht]; [|by apply Hre].
    apply Hspec in Ht as [Ht _]. destruct (Hre txid) as (r & Hr & Hrt); [apply Hpe; left|].
    exists r. split; [done|]. eapply rtc_r; [exact Hrt|done].
  - intros t c. rewrite elem_of_app, !elem_of_union, !elem_of_list_to_set. intros Ht Hnp Hc.
    destruct (decide (t = txid)) as [->|Hne].
    + destruct (decide (c ∈ expired)); [by right|left]. by apply Hspec.
    + right. destruct Ht as [Ht|Ht]; [naive_solver|]. apply (Hcl t); [done| |done].
      intros [?|?]%elem_of_cons; naive_solver.
  - rewrite length_app. simpl in Hfuel.
    assert (Hsz : size (U ∖ expired) = (length new + size (U ∖ (list_to_set new ∪ expired)))%nat).
    { rewrite <- (size_list_to_set (C:=gset Hash) new Hn).
      rewrite <- size_union by (intros x; set_solver).
      f_equal. apply set_eq. intros x. rewrite elem_of_union, !elem_of_difference, elem_of_union, elem_of_list_to_set.
      destruct (decide (x ∈ new)) as [Hx|Hx]; [|set_solver]. apply Hspec in Hx as Hx'.
      split; [by left|]. intros _. split; [apply (HU txid); naive_solver|naive_solver]. }
    lia.
Qed.

(** [c] is a mempool transaction that spends an output of the mempool
    transaction [p]. *)
Definition mempool_child (s : ChainState) (p c : Hash) : Prop :=
  is_Some (mp_transactions (cs_mempool s) !! p) /\
  exists id tx, mp_transactions (cs_mempool s) !! id = Some tx /\ c = tx_txid tx /\
    exists i, i ∈ tx_inputs tx /\ op_txid (in_previous_output i) = p.

Lemma mempool_tx_is_expired_spec txid s h age :
  0 <= age -> h <= u64_max ->
  mempool_tx_is_expired txid s h age = true <->
  exists a, mp_admission_height (cs_mempool s) !! txid = Some a /\ a + age <= h.
Proof.
  intros Hage Hh. unfold mempool_tx_is_expired.
  destruct (mp_admission_height (cs_mempool s) !! txid) as [a|]; [|naive_solver].
  unfold checked_add. destruct (Z.ltb_spec h a) as [Hlt|Hlt]; [naive_solver lia|].
  destruct (Z.leb_spec (a + age) u64_max) as [Ho|Ho]; [|naive_solver lia]. rewrite Z.leb_le. naive_solver.
Qed.

Lemma remove_fold_transactions ids mp :
  mp_transactions (foldl (fun mp txid =>
    mp <| mp_transactions ::= delete txid |>
       <| mp_first_seen ::= delete txid |>
       <| mp_admission_height ::= delete txid |>) mp ids) =
  filter (fun p => p.1 ∉ ids) (mp_transactions mp).
Proof.
  revert mp. induction ids as [|x ids IH]; intros mp; simpl.
  { symmetry. apply map_filter_id. intros ? ? _. apply not_elem_of_nil. }
  rewrite IH. simpl. apply map_eq. intros id. apply option_eq. intros tx.
  rewrite !map_lookup_filter_Some, lookup_delete_Some, not_elem_of_cons. simpl. naive_solver.
Qed.

Lemma insert_inputs_spec (inputs : list TxInput) (spent : gset OutPoint) o :
  o ∈ foldl (fun spent i => {[in_previous_output i]} ∪ spent) spent inputs <->
  o ∈ spent \/ exists i, i ∈ inputs /\ in_previous_output i = o.
Proof.
  revert spent. induction inputs as [|i inputs IH]; intros spent; simpl; [set_solver|].
  rewrite IH. set_solver.
Qed.

Lemma rebuild_spent_spec `{HashOrder} mp o :
  o ∈ mp_spent_outpoints (rebuild_spent_outpoints mp) <->
  exists id tx i, mp_transactions mp !! id = Some tx /\ i ∈ tx_inputs tx /\ in_previous_output i = o.
Proof.
  unfold rebuild_spent_outpoints. simpl.
  assert (Hg : forall (l : list (Hash * Transaction)) (spent : gset OutPoint),
    o ∈ foldl (fun spent (p : Hash * Transaction) =>
      foldl (fun spent i => {[in_previous_output i]} ∪ spent) spent (tx_inputs p.2)) spent l <->
    o ∈ spent \/ exists id tx i, (id, tx) ∈ l /\ i ∈ tx_inputs tx /\ in_previous_output i = o).
  { induction l as [|[id tx] l IH]; intros spent; simpl; [set_solver|].
    rewrite IH, insert_inputs_spec. simpl. split.
    - intros [[?|(i & ? & ?)]|(id' & tx' & i & ? & ?)]; [by left|right..];
        eexists _, _, i; (split; [|done]); [by left|by right].
    - intros [?|(id' & tx' & i & [[= -> ->]|Hin]%elem_of_cons & Hr)]; [by left; left|left; right|right];
        [by exists i|]. eauto. }
  rewrite Hg. setoid_rewrite elem_of_map_iter. set_solver.
Qed.

Lemma remove_expired_spec `{HashOrder} expired mp :
  let mp' := remove_expired expired mp in
  mp_transactions mp' = filter (fun p => p.1 ∉ btree_iter expired) (mp_transactions mp) /\
  (forall o, o ∈ mp_spent_outpoints mp' <->
     exists id tx i, mp_transactions mp' !! id = Some tx /\ i ∈ tx_inputs tx /\ in_previous_output i = o) /\
  dom (mp_first_seen mp') ⊆ dom (mp_transactions mp') /\
  dom (mp_admission_height mp') ⊆ dom (mp_transactions mp').
Proof.
  intros mp'. unfold mp', remove_expired. split_and!.
  - apply remove_fold_transactions.
  - intros o. by rewrite rebuild_spent_spec.
  - intros x [v Hv]%elem_of_dom. by apply map_lookup_filter_Some in Hv as [_ Hv].
  - intros x [v Hv]%elem_of_dom. by apply map_lookup_filter_Some in Hv as [_ Hv].
Qed.

Lemma size_list_to_set_le (l : list Hash) : (size (list_to_set l : gset Hash) <= length l)%nat.
Proof.
  induction l as [|x l IH]; cbn [list_to_set length]; [vm_compute; lia|].
  rewrite size_union_alt, size_singleton. apply le_n_S.
  etransitivity; [|exact IH]. apply subseteq_size. set_solver.
Qed.

(** The ids the worklist can visit. *)
Lemma expire_universe `{HashOrder} s (roots : gset Hash) :
  let txs := mp_transactions (cs_mempool s) in
  let U := dom txs ∪ list_to_set (map tx_txid (map snd (map_iter txs))) in
  (forall p c, c ∈ default ∅ (mempool_children s !! p) -> c ∈ U) /\
  (roots ⊆ dom txs -> (size (U ∖ roots) + size roots < expire_fuel s)%nat).
Proof.
  intros txs U. split.
  - intros p c. rewrite mempool_children_spec. intros (_ & id & tx & Hid & -> & _).
    apply elem_of_union_r, elem_of_list_to_set, list_elem_of_fmap. exists tx. split; [done|].
    apply map_iter_values. by exists id.
  - intros Hr.
    assert (HU : (size U <= size txs + size txs)%nat).
    { unfold U. rewrite size_union_alt, size_dom.
      assert (Hl : (size (list_to_set (C:=gset Hash) (map tx_txid (map snd (map_iter txs)))) <= size txs)%nat).
      { etransitivity; [apply size_list_to_set_le|]. rewrite !length_map, map_iter_perm, length_map_to_list. done. }
      etransitivity; [|apply Nat.add_le_mono_l; exact Hl]. apply Nat.add_le_mono_l, subseteq_size. set_solver. }
    rewrite size_difference by (unfold U; set_solver).
    assert (size roots <= size U)%nat by (apply subseteq_size; unfold U; set_solver).
    unfold expire_fuel. fold txs. lia.
Qed.

Lemma prune_expired_spec `{HashOrder} s h age :
  0 <= age -> h <= u64_max ->
  exists r s', prune_expired_mempool s h age = Some (r, s') /\
    let txs := mp_transactions (cs_mempool s) in
    let txs' := mp_transactions (cs_mempool s') in
    (forall t, t ∈ me_expired_txids r <->
       exists root a, is_Some (txs !! root) /\ mp_admission_height (cs_mempool s) !! root = Some a /\
         a + age <= h /\ rtc (mempool_child s) root t) /\
    txs' = filter (fun p => p.1 ∉ me_expired_txids r) txs /\
    me_kept_txids r ≡ₚ map fst (map_iter txs') /\
    (forall id tx i, tx_txid tx = id -> txs' !! id = Some tx -> i ∈ tx_inputs tx ->
       is_Some (txs !! op_txid (in_previous_output i)) -> is_Some (txs' !! op_txid (in_previous_output i))) /\
    (forall o, o ∈ mp_spent_outpoints (cs_mempool s') <->
       exists id tx i, txs' !! id = Some tx /\ i ∈ tx_inputs tx /\ in_previous_output i = o) /\
    dom (mp_first_seen (cs_mempool s')) ⊆ dom txs' /\
    dom (mp_admission_height (cs_mempool s')) ⊆ dom txs' /\
    cs_utxo s' = cs_utxo s /\ cs_dag s' = cs_dag s /\
    exists expired, s' = s <| cs_mempool ::= remove_expired expired |>.
Proof.
  intros Hage Hh. unfold prune_expired_mempool.
  match goal with |- context [expire_loop _ _ ?r _] => set (roots := r) end.
  assert (Hroots : forall t, t ∈ roots <-> is_Some (mp_transactions (cs_mempool s) !! t) /\
    exists a, mp_admission_height (cs_mempool s) !! t = Some a /\ a + age <= h).
  { intros t. unfold roots. rewrite elem_of_list_to_set, list_elem_of_filter, mempool_tx_is_expired_spec by done.
    rewrite list_elem_of_fmap. split.
    - intros [Ha ([k v] & -> & Hk%elem_of_map_iter)]. split; [by eexists|done].
    - intros [[v Hv] Ha]. split; [done|]. exists (t, v). by rewrite elem_of_map_iter. }
  destruct (expire_universe s roots) as [HU Hfuel].
  destruct (expire_loop_spec (mempool_children s) _ roots (expire_fuel s) roots (btree_iter roots) HU)
    as (expired & Hloop & HexU & Hexp).
  - intros t [Ht _]%Hroots. apply elem_of_union_l, elem_of_dom, Ht.
  - done.
  - intros t. by rewrite elem_of_btree_iter.
  - intros t Ht. exists t. split; [done|apply rtc_refl].
  - intros t c Ht Hn. by rewrite elem_of_btree_iter in Hn.
  - rewrite length_btree_iter. apply Hfuel. intros t [Ht _]%Hroots. apply elem_of_dom, Ht.
  - rewrite Hloop. eexists _, _. split; [reflexivity|].
    cbn -[remove_expired].
    destruct (remove_expired_spec expired (cs_mempool s)) as (Htxs & Hspent & Hseen & Hadm).
    set (mp' := remove_expired expired (cs_mempool s)) in *.
    assert (Hex : forall t, t ∈ btree_iter expired <->
       exists root a, is_Some (mp_transactions (cs_mempool s) !! root) /\
         mp_admission_height (cs_mempool s) !! root = Some a /\ a + age <= h /\ rtc (mempool_child s) root t).
    { intros t. rewrite elem_of_btree_iter, Hexp.
      assert (Hd : forall r, descends (mempool_children s) r t <-> rtc (mempool_child s) r t).
      { intros r. split; apply rtc_subrel; intros x y; apply mempool_children_spec. }
      setoid_rewrite Hroots. setoid_rewrite Hd. naive_solver. }
    split_and!; try done; [| |by exists expired].
    + unfold canonical_mempool_txids. by rewrite !isort_perm.
    + intros id tx i Hid Htx Hi [ptx Hp]. exists ptx. rewrite Htxs in *.
      apply map_lookup_filter_Some. split; [done|].
      apply map_lookup_filter_Some in Htx as [Htx Hnot]. simpl in *. intros Hpe. apply Hnot.
      apply Hex. apply Hex in Hpe as (root & a & Hr & Ha & Hle & Hrt).
      exists root, a. split_and!; try done. eapply rtc_r; [exact Hrt|].
      split; [by eexists|]. exists id, tx. split_and!; [done..|]. by exists i.
Qed.

(** [prune_expired_mempool] terminates; the transactions it removes are
    exactly the ones reached from a transaction that is [max_age_blocks] old by
    following mempool spends; everything else stays, so that no kept
    transaction loses a mempool parent; the reserved outpoints are rebuilt from
    the kept transactions, and no bookkeeping of a removed one survives. *)
Lemma prune_expired_mempool_spec `{HashOrder} s h age :
  0 <= age -> h <= u64_max ->
  exists r s', prune_expired_mempool s h age = Some (r, s') /\
    let txs := mp_transactions (cs_mempool s) in
    let txs' := mp_transactions (cs_mempool s') in
    (forall t, t ∈ me_expired_txids r <->
       exists root a, is_Some (txs !! root) /\ mp_admission_height (cs_mempool s) !! root = Some a /\
         a + age <= h /\ rtc (mempool_child s) root t) /\
    txs' = filter (fun p => p.1 ∉ me_expired_txids r) txs /\
    me_kept_txids r ≡ₚ map fst (map_iter txs') /\
    (forall id tx i, tx_txid tx = id -> txs' !! id = Some tx -> i ∈ tx_inputs tx ->
       is_Some (txs !! op_txid (in_previous_output i)) -> is_Some (txs' !! op_txid (in_previous_output i))) /\
    (forall o, o ∈ mp_spent_outpoints (cs_mempool s') <->
       exists id tx i, txs' !! id = Some tx /\ i ∈ tx_inputs tx /\ in_previous_output i = o) /\
    dom (mp_first_seen (cs_mempool s')) ⊆ dom txs' /\
    dom (mp_admission_height (cs_mempool s')) ⊆ dom txs' /\
    cs_utxo s' = cs_utxo s /\ cs_dag s' = cs_dag s.
Proof.
  intros Hage Hh. destruct (prune_expired_spec s h age Hage Hh) as (r & s' & Hr & T1 & T2 & T3 & T4 & T5 & T6 & T7 & T8 & T9 & _).
  exists r, s'. by split_and!.
Qed.

(** ** Witnesses *)

(** A mempool with a transaction admitted at height 2 and its child. *)
Definition sample_child : Transaction :=
  mkTransaction "dd" 1 [mkTxInput (mkOutPoint "bb" 0) "" ""] [mkTxOutput "carol" 8] 1 1.
Definition sample_pool_state : ChainState :=
  utxo_chain_state <| cs_mempool ::= fun mp =>
    mp <| mp_transactions := {[ "bb" := sample_spend; "dd" := sample_child ]} |>
       <| mp_admission_height := {[ "bb" := 2; "dd" := 9 ]} |> |>.

Lemma reconcile_mempool_correct_witness :
  exists r s' K,
    @reconcile_mempool model_crypto list_order sample_pool_state = Ok (r, s') /\
    mr_kept_txids r = map tx_txid K /\ holds (cs_utxo sample_pool_state) K s'.
Proof.
  destruct (@reconcile_mempool_correct model_crypto list_order sample_pool_state)
    as (r & s' & K & Hr & _ & _ & Hk & _ & _ & Hh).
  - by_decide.
  - apply map_Forall_insert; [by_decide|]. split; [|apply map_Forall_singleton];
      (split; [reflexivity|]); (split; [by_decide|]); split; eexists; vm_compute; reflexivity.
  - exists r, s', K. split; [exact Hr|]. split; assumption.
Defined.

Lemma prune_expired_mempool_spec_witness :
  exists r s', @prune_expired_mempool list_order sample_pool_state 12 10 = Some (r, s') /\
    "bb" ∈ me_expired_txids r /\ "dd" ∈ me_expired_txids r.
Proof.
  destruct (@prune_expired_mempool_spec list_order sample_pool_state 12 10 ltac:(lia) ltac:(by_decide))
    as (r & s' & Hr & Hex & _).
  exists r, s'. split; [exact Hr|].
  assert (Hroot : is_Some (mp_transactions (cs_mempool sample_pool_state) !! "bb")) by (eexists; reflexivity).
  split; apply Hex; exists "bb", 2; (split; [exact Hroot|]); (split; [reflexivity|]); (split; [lia|]).
  - apply rtc_refl.
  - apply rtc_once. split; [exact Hroot|]. exists "dd", sample_child. split; [reflexivity|].
    split; [reflexivity|]. eexists. split; [apply list_elem_of_here|reflexivity].
Defined.
