(* ===== verification/Commit.v ===== *)
(** * Committing a block ([apply.rs])

    [commit_block_to_state] runs on a state it mutates and can leave half-way,
    so every operation here returns its outcome together with the state it
    leaves behind: the DAG metadata, the selected chain, the ordered DAG, the
    unspent outputs rebuilt by replay, and the reconciled mempool. *)

From stdpp Require Import pretty.
From S2P Require Import Prelude Encoding Crypto Types Merkle State Tx Graph Pow.
From S2P Require Import Selection Retarget Ghostdag Ordering Mining Genesis Apply.
From S2P Require Import Validation Mempool.

(** [c?; k] where both sides mutate the state. *)
Notation "'run!' s := c 'in' k" :=
  (match c with (Ok _, s) => k | (Err e, s) => (Err e, s) end)
  (at level 200, s name, c at level 100, k at level 200, only parsing).

Definition selected_chain_extends_with_block (previous_selected_chain selected_chain : list Hash)
    (block_hash : Hash) : bool :=
  bool_decide (Z.of_nat (length selected_chain) =
               saturating_add 64 (Z.of_nat (length previous_selected_chain)) 1)
  && bool_decide (take (length previous_selected_chain) selected_chain = previous_selected_chain)
  && bool_decide (last selected_chain = Some block_hash).

(** [for tx in txs { apply_transaction(tx, state, height)?; }] on the live state. *)
Fixpoint apply_transactions_live (txs : list Transaction) (state : ChainState) (height : Z)
  : outcome unit * ChainState :=
  match txs with
  | [] => (Ok tt, state)
  | tx :: txs' =>
      match apply_transaction tx state height with
      | (Ok _, state) => apply_transactions_live txs' state height
      | (Err e, state) => (fails e, state)
      end
  end.

Section commit.
Context `{Crypto, HashOrder}.

(** [state.dag.ordered_dag_state_root = state.utxo.compute_state_root().ok()]. *)
Definition record_state_root (state : ChainState) : outcome unit * ChainState :=
  match compute_state_root (cs_utxo state) with
  | Ok root => (Ok tt, state <| cs_dag ::= fun d => d <| d_ordered_dag_state_root := Some root |> |>)
  | Err (Some _) => (Ok tt, state <| cs_dag ::= fun d => d <| d_ordered_dag_state_root := None |> |>)
  | Err None => (Err None, state)
  end.

Definition commit_legacy_compact_snapshot_state (block : Block) (state : ChainState)
    (previous_selected_chain : list Hash) : outcome unit * ChainState :=
  if decide (d_selected_chain (cs_dag state) = previous_selected_chain) then record_state_root state
  else if negb (selected_chain_extends_with_block previous_selected_chain
                  (d_selected_chain (cs_dag state)) (b_hash block))
  then (fails (StorageError
         ("compact snapshot selected-chain transition requires unavailable historical state: previous_tip="
          +:+ default "-" (last previous_selected_chain) +:+ " candidate=" +:+ b_hash block
          +:+ " selected_tip=" +:+ default "-" (last (d_selected_chain (cs_dag state))))), state)
  else
    run! state := apply_transactions_live (b_transactions block) state (h_height (b_header block)) in
    match compute_state_root (cs_utxo state) with
    | Err e => (Err e, state)
    | Ok state_root =>
        if negb (bool_decide (state_root = h_state_root (b_header block)))
        then (fails (Internal ("compact snapshot incremental state root mismatch for block "
               +:+ b_hash block +:+ ": computed " +:+ state_root +:+ ", expected "
               +:+ h_state_root (b_header block))), state)
        else (Ok tt, state <| cs_dag ::= fun d => d <| d_ordered_dag_state_root := Some state_root |> |>)
    end.

(** One block of the selected chain, replayed onto the fresh state. *)
Definition replay_selected (state rebuilt : ChainState) (hash : Hash) : outcome ChainState :=
  if decide (hash = d_genesis_hash (cs_dag state)) then Ok rebuilt
  else
    let? selected_block := lift (ok_or (d_blocks (cs_dag state) !! hash)
      (Internal ("selected chain references missing block " +:+ hash))) in
    let? rebuilt := lift (apply_transactions (b_transactions selected_block) rebuilt
                            (h_height (b_header selected_block))) in
    Ok (refresh_selected_chain (accept_block_to_dag_metadata selected_block rebuilt)).
Definition rebuild_legacy_state (state : ChainState) : outcome ChainState :=
  let? rebuilt := init_chain_state (cs_chain_id state) in
  let rebuilt := rebuilt <| cs_dag ::= fun d =>
    d <| d_consensus_mode := d_consensus_mode (cs_dag state) |>
      <| d_selected_parent_policy := d_selected_parent_policy (cs_dag state) |> |> in
  try_fold (replay_selected state) rebuilt (d_selected_chain (cs_dag state)).

(** The GHOSTDAG branch: a failed rebuild is counted; a panic is not. *)
Definition commit_ghostdag (block : Block) (state : ChainState) : outcome unit * ChainState :=
  let state := accept_block_to_dag_metadata block state in
  let state := refresh_selected_chain state in
  let state := refresh_ordered_dag state in
  match rebuild_state_from_ordered_dag state with
  | Ok rebuilt => (Ok tt, commit_rebuilt_state state rebuilt)
  | Err (Some err) =>
      (fails err, state <| cs_dag ::= fun d => d <| d_ordered_dag_rebuild_failed_total :=
         saturating_add 64 (d_ordered_dag_rebuild_failed_total d) 1 |> |>)
  | Err None => (Err None, state)
  end.

(** In legacy mode the ordered DAG is the selected chain. *)
Definition record_legacy_order (state : ChainState) : ChainState :=
  state <| cs_dag ::= fun d =>
    d <| d_ordered_dag := d_selected_chain d |>
      <| d_ordering_version := "legacy" |>
      <| d_ordered_dag_tip := last (d_selected_chain d) |> |>.

(** The legacy branch: without the genesis block the state was restored from a
    compact snapshot, and is extended incrementally. *)
Definition commit_legacy (block : Block) (state : ChainState) : outcome unit * ChainState :=
  let compact_snapshot := bool_decide (d_blocks (cs_dag state) !! d_genesis_hash (cs_dag state) = None) in
  let previous_selected_chain := d_selected_chain (cs_dag state) in
  let state := accept_block_to_dag_metadata block state in
  let state := refresh_selected_chain state in
  let state := record_legacy_order state in
  if compact_snapshot then commit_legacy_compact_snapshot_state block state previous_selected_chain
  else
    match rebuild_legacy_state state with
    | Err e => (Err e, state)
    | Ok rebuilt => record_state_root (state <| cs_utxo := cs_utxo rebuilt |>)
    end.

Definition commit_block_to_state (block : Block) (state : ChainState) : outcome unit * ChainState :=
  run! state := (if decide (d_consensus_mode (cs_dag state) = GhostdagDev)
                 then commit_ghostdag block state else commit_legacy block state) in
  match reconcile_mempool state with
  | Ok (_, state) => (Ok tt, state)
  | Err _ => (Err None, state)
  end.
End commit.
