(* ===== verification/CommitProps.v ===== *)
(** * Correctness of committing blocks ([apply.rs])

    In legacy mode the live unspent outputs are always the replay of the
    selected chain: a validated block can be committed without failing, the
    state it leads to has the root the selected tip commits to, and the value in
    circulation follows the subsidy schedule. *)

From S2P Require Import Prelude Encoding Crypto Types Merkle State Tx Graph Pow.
From S2P Require Import Selection Retarget Ghostdag Ordering Mining Genesis Apply.
From S2P Require Import ApplyProps Validation ValidationProps DagInvariant Mempool.
From S2P Require Import MempoolProps Commit.

(** ** Transactions act on the unspent outputs only *)

Definition on_utxo (u : UtxoState) : ChainState := blank_state <| cs_utxo := u |>.

Lemma apply_transaction_utxo tx s1 s2 height :
  cs_utxo s1 = cs_utxo s2 ->
  (apply_transaction tx s1 height).1 = (apply_transaction tx s2 height).1 /\
  cs_utxo (apply_transaction tx s1 height).2 = cs_utxo (apply_transaction tx s2 height).2.
Proof.
  intros Hu. unfold apply_transaction. rewrite Hu. repeat case_match; simpl in *; by simplify_eq.
Qed.

Lemma apply_transactions_utxo txs s1 s2 height s1' :
  cs_utxo s1 = cs_utxo s2 -> apply_transactions txs s1 height = Ok s1' ->
  exists s2', apply_transactions txs s2 height = Ok s2' /\ cs_utxo s2' = cs_utxo s1'.
Proof.
  unfold apply_transactions. revert s1 s2. induction txs as [|tx txs IH]; intros s1 s2 Hu; simpl.
  { intros [= ->]. by exists s2. }
  destruct (apply_transaction_utxo tx s1 s2 height Hu) as [Hr Hs].
  destruct (apply_transaction tx s1 height) as [[[]|] t1], (apply_transaction tx s2 height) as [[[]|] t2];
    simpl in *; try done. by apply IH.
Qed.

(** ** The state a block stands for *)

(** The unspent outputs after replaying the selected-parent chain of a stored
    block, the initial outputs [u0] being those of the genesis block [g]. *)
Inductive chain_utxo (g : Hash) (u0 : UtxoState) (s : ChainState) : Hash -> UtxoState -> Prop :=
| chain_genesis : chain_utxo g u0 s g u0
| chain_block h b p u s' :
    h <> g -> d_blocks (cs_dag s) !! h = Some b -> selected_parent_of s h = Some p ->
    chain_utxo g u0 s p u ->
    apply_transactions (b_transactions b) (on_utxo u) (h_height (b_header b)) = Ok s' ->
    chain_utxo g u0 s h (cs_utxo s').

Lemma chain_utxo_det g u0 s h u1 u2 :
  chain_utxo g u0 s h u1 -> chain_utxo g u0 s h u2 -> u1 = u2.
Proof.
  intros H1. revert u2. induction H1 as [|h b p u s' Hne Hb Hp _ IH Ha]; intros u2 H2;
    inversion H2 as [|h2 b2 p2 v2 s2 Hne2 Hb2 Hp2 Hc2 Ha2]; subst; try done.
  assert (p2 = p) as -> by congruence. assert (b2 = b) as -> by congruence.
  rewrite (IH _ Hc2) in *. congruence.
Qed.

(** One replayed block: nothing for the genesis, the block's transactions
    otherwise. *)
Definition replays (g : Hash) (s : ChainState) (step : ChainState -> Hash -> outcome ChainState)
    (ok : ChainState -> Prop) : Prop :=
  forall acc, ok acc -> step acc g = Ok acc /\
  forall h b s', h <> g -> d_blocks (cs_dag s) !! h = Some b ->
    apply_transactions (b_transactions b) (on_utxo (cs_utxo acc)) (h_height (b_header b)) = Ok s' ->
    exists acc', step acc h = Ok acc' /\ cs_utxo acc' = cs_utxo s' /\ ok acc'.

(** Replaying a selected chain that starts at the genesis. *)
Lemma replay_chain g u0 s step ok c acc tip :
  replays g s step ok -> ok acc -> cs_utxo acc = u0 ->
  selected_chain_from s tip c -> head c = Some g ->
  (forall h, h ∈ c -> exists u, chain_utxo g u0 s h u) ->
  exists acc', try_fold step acc c = Ok acc' /\ chain_utxo g u0 s tip (cs_utxo acc').
Proof.
  intros Hstep Hok Hu Hc Hhd Hall.
  cut (forall post pre acc, c = pre ++ post -> ok acc ->
    match last pre with Some a => chain_utxo g u0 s a (cs_utxo acc) | None => cs_utxo acc = u0 end ->
    exists acc', try_fold step acc post = Ok acc' /\ ok acc' /\
      match last c with Some a => chain_utxo g u0 s a (cs_utxo acc') | None => True end).
  { intros Hcut. destruct (Hcut c [] acc eq_refl Hok Hu) as (acc' & Hr & _ & Hl).
    rewrite (sc_tip _ _ _ Hc) in Hl. eauto. }
  clear Hok Hu acc. induction post as [|h post IH]; intros pre acc Hpre Hok Hinv.
  { exists acc. simpl. split; [done|]. split; [done|]. rewrite app_nil_r in Hpre. subst c. by case_match. }
  assert (Hnext : exists acc1, step acc h = Ok acc1 /\ ok acc1 /\ chain_utxo g u0 s h (cs_utxo acc1)).
  { destruct (Hstep acc Hok) as [Hg Hb]. destruct (Hall h) as [u Hch]; [subst c; set_solver|].
    destruct (last pre) as [a|] eqn:Hlast.
    - assert (Hsel : selected_parent_of s h = Some a).
      { apply last_Some in Hlast as [pre' ->]. apply (sc_linked _ _ _ Hc (length pre')); subst c.
        - rewrite <- app_assoc. by apply list_lookup_middle.
        - apply list_lookup_middle. rewrite length_app. simpl. lia. }
      inversion Hch as [|h' b p u1 s' Hne Hbl Hp Hpu Ha]; subst.
      { exfalso. pose proof (sc_nodup _ _ _ Hc) as Hnd.
        apply last_Some in Hlast as [pre' ->]. destruct pre' as [|x pre'].
        - simpl in Hhd, Hnd. simplify_eq. apply NoDup_cons in Hnd as [Hn _]. set_solver.
        - simpl in Hhd, Hnd. simplify_eq. apply NoDup_cons in Hnd as [Hn _]. set_solver. }
      simplify_eq. rewrite <- (chain_utxo_det _ _ _ _ _ _ Hinv Hpu) in Ha.
      destruct (Hb h b s' Hne Hbl Ha) as (acc1 & Hs & Hu1 & Hok1). exists acc1. by rewrite Hu1.
    - apply last_None in Hlast as ->. subst c. simpl in Hhd. simplify_eq. exists acc.
      split; [done|]. split; [done|]. constructor. }
  destruct Hnext as (acc1 & Hs & Hok1 & Hu1).
  destruct (IH (pre ++ [h]) acc1) as (acc' & Hr & Hok' & Hl).
  - by rewrite <- app_assoc.
  - done.
  - by rewrite last_snoc.
  - exists acc'. simpl. by rewrite Hs.
Qed.

(** ** The selected chain reaches the genesis *)

(** Only the genesis block has no parents. *)
Definition rooted (g : Hash) (s : ChainState) : Prop :=
  forall h b, d_blocks (cs_dag s) !! h = Some b -> h_parents (b_header b) = [] -> h = g.

Lemma chain_heights s tip c :
  dag_ok s -> selected_chain_from s tip c ->
  forall i h0 b0 h b, c !! 0%nat = Some h0 -> d_blocks (cs_dag s) !! h0 = Some b0 ->
    c !! i = Some h -> d_blocks (cs_dag s) !! h = Some b -> h_height (b_header b0) <= h_height (b_header b).
Proof.
  intros Hdag Hc. pose proof (dag_ok_heights_decrease s Hdag) as Hdec.
  induction i as [|i IH]; intros h0 b0 h b H0 Hb0 Hi Hb; [simplify_eq; lia|].
  destruct (c !! i) as [a|] eqn:Ha.
  2: { apply lookup_ge_None in Ha. apply lookup_lt_Some in Hi. lia. }
  destruct (sc_stored _ _ _ Hc a) as [ba Hba]; [by eapply list_elem_of_lookup_2|].
  pose proof (IH h0 b0 a ba H0 Hb0 eq_refl Hba).
  pose proof (Hdec h b a ba Hb (sc_linked _ _ _ Hc i a h Ha Hi) Hba). lia.
Qed.

Lemma selected_chain_starts_at_genesis g s tip c :
  dag_ok s -> rooted g s -> selected_chain_from s tip c -> head c = Some g.
Proof.
  intros Hdag Hroot Hc. destruct (head c) as [h|] eqn:Hh.
  2: { pose proof (sc_tip _ _ _ Hc). by destruct c. }
  f_equal. assert (H0 : c !! 0%nat = Some h) by (by destruct c).
  destruct (sc_stored _ _ _ Hc h) as [b Hb]; [by eapply list_elem_of_lookup_2|].
  pose proof (sc_start _ _ _ Hc h Hh) as Hend. pose proof (do_selected _ Hdag h b Hb) as Hsel.
  destruct (selected_parent_of s h) as [p|] eqn:Hp; [|by apply (Hroot h b)].
  destruct (do_parents _ Hdag h b p Hb Hsel) as (bp & Hbp & Hlt). simpl in Hend.
  destruct Hend as [?|Hin]; [congruence|]. apply list_elem_of_lookup in Hin as [i Hi].
  pose proof (chain_heights s tip c Hdag Hc i h b p bp H0 Hb Hi Hbp). lia.
Qed.

(** ** The invariant *)

(** The value that may exist after the blocks up to a height: the genesis
    supply and the subsidies of the heights above 0. *)
Definition supply_cap (height : Z) : Z := GENESIS_SUPPLY + halving_sum (height + 1) - halving_sum 1.

Lemma supply_cap_step h1 h2 :
  0 <= h1 < h2 -> supply_cap h1 + block_subsidy h2 <= supply_cap h2.
Proof. intros Hh. rewrite block_subsidy_steps by lia. unfold supply_cap, halving_sum. lia. Qed.
Lemma supply_cap_bound h : 0 <= h -> supply_cap h <= 1020369950.
Proof. intros Hh. unfold supply_cap, halving_sum, GENESIS_SUPPLY. lia. Qed.

Section legacy.
Context `{CryptoLaws, HashOrder, Kaspa}.

(** What replaying a stored block's chain yields. *)
Record block_state_ok (u : UtxoState) (b : Block) : Prop := {
  bs_root : compute_state_root u = Ok (h_state_root (b_header b));
  bs_index : index_consistent u;
  bs_amounts : map_Forall (fun _ v => 0 <= utxo_amount v) (u_utxos u);
  bs_supply : total_amount (u_utxos u) <= supply_cap (h_height (b_header b));
}.

(** The stored history: everything but the live outputs. *)
Record history_ok (g : Hash) (u0 : UtxoState) (s : ChainState) : Prop := {
  hi_mode : d_consensus_mode (cs_dag s) = Legacy;
  hi_dag : dag_ok s;
  hi_rooted : rooted g s;
  hi_genesis : is_Some (d_blocks (cs_dag s) !! g) /\ d_genesis_hash (cs_dag s) = g;
  hi_init : forall chain_id s0, init_chain_state chain_id = Ok s0 ->
    cs_utxo s0 = u0 /\ d_genesis_hash (cs_dag s0) = g;
  hi_typed : map_Forall (fun _ b => Forall tx_typed (b_transactions b)) (d_blocks (cs_dag s));
  hi_heights : map_Forall (fun _ b => 0 <= h_height (b_header b)) (d_blocks (cs_dag s));
  hi_blocks : forall h b, d_blocks (cs_dag s) !! h = Some b ->
    exists u, chain_utxo g u0 s h u /\ block_state_ok u b;
}.

(** The live outputs are those of the preferred tip. *)
Record legacy_ok (g : Hash) (u0 : UtxoState) (s : ChainState) : Prop := {
  lo_history : history_ok g u0 s;
  lo_tip : exists tip, preferred_tip_hash s = Some tip /\ is_Some (d_blocks (cs_dag s) !! tip) /\
    chain_utxo g u0 s tip (cs_utxo s);
}.

Lemma legacy_live g u0 s :
  legacy_ok g u0 s -> exists tip b, preferred_tip_hash s = Some tip /\
    d_blocks (cs_dag s) !! tip = Some b /\ block_state_ok (cs_utxo s) b.
Proof.
  intros Hs. destruct (lo_tip _ _ _ Hs) as (tip & Ht & [b Hb] & Hu).
  destruct (hi_blocks _ _ _ (lo_history _ _ _ Hs) tip b Hb) as (u & Hch & Hok).
  exists tip, b. by rewrite (chain_utxo_det _ _ _ _ _ _ Hu Hch).
Qed.

Lemma legacy_chain_ok g u0 s : legacy_ok g u0 s -> chain_ok s.
Proof.
  intros Hs. destruct (legacy_live _ _ _ Hs) as (tip & b & _ & _ & [_ Hi Ha _]).
  split; [done|done|apply (hi_typed _ _ _ (lo_history _ _ _ Hs))].
Qed.

(** The two replay loops. *)
Lemma accept_genesis_hash block state :
  d_genesis_hash (cs_dag (accept_block_to_dag_metadata block state)) = d_genesis_hash (cs_dag state) /\
  d_consensus_mode (cs_dag (accept_block_to_dag_metadata block state)) = d_consensus_mode (cs_dag state) /\
  cs_utxo (accept_block_to_dag_metadata block state) = cs_utxo state /\
  cs_chain_id (accept_block_to_dag_metadata block state) = cs_chain_id state.
Proof.
  unfold accept_block_to_dag_metadata. simpl.
  enough (Hg : forall dag,
    d_genesis_hash (foldl (push_child (b_hash block)) dag (h_parents (b_header block))) = d_genesis_hash dag /\
    d_consensus_mode (foldl (push_child (b_hash block)) dag (h_parents (b_header block))) = d_consensus_mode dag)
    by (destruct (Hg (cs_dag state)); done).
  induction (h_parents (b_header block)) as [|p l IH]; intros dag; simpl; [done|].
  destruct (IH (push_child (b_hash block) dag p)). done.
Qed.

Lemma refresh_genesis_hash state :
  d_genesis_hash (cs_dag (refresh_selected_chain state)) = d_genesis_hash (cs_dag state).
Proof. done. Qed.

Lemma apply_transactions_dag txs s height s' :
  apply_transactions txs s height = Ok s' -> cs_dag s' = cs_dag s.
Proof.
  apply (try_fold_ind _ (fun _ t => cs_dag t = cs_dag s)); [done|].
  intros pre tx post t t' _ Ht Hs. destruct (apply_transaction tx t height) as [[]] eqn:Ha; simplify_eq.
  apply apply_transaction_spec in Ha as (_ & Hd & _). congruence.
Qed.

Lemma replay_ancestor_replays g s block :
  replays g s (fun context hash => replay_ancestor block s context hash)
    (fun acc => d_genesis_hash (cs_dag acc) = g).
Proof.
  intros acc Hacc. unfold replay_ancestor. rewrite Hacc. split; [by rewrite decide_True|].
  intros h b s' Hne Hb Ha. rewrite decide_False, Hb by done. simpl.
  destruct (apply_transactions_utxo _ (on_utxo (cs_utxo acc)) acc _ _ eq_refl Ha) as (t & Ht & Hu).
  rewrite Ht. simpl. eexists. split; [reflexivity|]. split; [done|].
  destruct (accept_genesis_hash b t) as (Hg & _).
  by rewrite refresh_genesis_hash, Hg, (apply_transactions_dag _ _ _ _ Ht).
Qed.

Lemma replay_selected_replays g s :
  d_genesis_hash (cs_dag s) = g -> replays g s (replay_selected s) (fun _ => True).
Proof.
  intros Hg acc _. unfold replay_selected. rewrite Hg. split; [by rewrite decide_True|].
  intros h b s' Hne Hb Ha. rewrite decide_False, Hb by done. simpl.
  destruct (apply_transactions_utxo _ (on_utxo (cs_utxo acc)) acc _ _ eq_refl Ha) as (t & Ht & Hu).
  rewrite Ht. simpl. by eexists.
Qed.

(** The parent's state, as validation computes it. *)
Lemma parent_context_utxo g u0 s block context p :
  legacy_ok g u0 s -> parent_state_context block s = Ok context ->
  selected_parent_for_state_validation block s = Some p ->
  chain_utxo g u0 s p (cs_utxo context).
Proof.
  intros Hs Hc Hp. unfold parent_state_context in Hc. rewrite Hp in Hc. simpl in Hc.
  destruct (d_blocks (cs_dag s) !! p) as [pb|] eqn:Hpb; [|done]. simpl in Hc.
  case_bool_decide as Htip.
  { simplify_eq. destruct (lo_tip _ _ _ Hs) as (tip & Ht & _ & Hu). simpl. congruence. }
  destruct (init_chain_state (cs_chain_id s)) as [s0|] eqn:Hinit; [|done].
  destruct (hi_init _ _ _ (lo_history _ _ _ Hs) _ _ Hinit) as [Hu0 Hg0]. cbv zeta in Hc. apply guard_Ok in Hc as [_ Hc].
  assert (Hsc : selected_chain_from s p (rebuild_selected_chain_from_tip s (Some p)))
    by (apply rebuild_selected_chain_ok; by eexists).
  match type of Hc with try_fold ?f ?a ?l = _ =>
    destruct (replay_chain g u0 s f _ l a p (replay_ancestor_replays g s block)) as (acc' & Hr & Hch)
  end; try done.
  - eapply selected_chain_starts_at_genesis; [apply (hi_dag _ _ _ (lo_history _ _ _ Hs))|apply (hi_rooted _ _ _ (lo_history _ _ _ Hs))|exact Hsc].
  - intros h Hh. destruct (sc_stored _ _ _ Hsc h Hh) as [b Hb].
    destruct (hi_blocks _ _ _ (lo_history _ _ _ Hs) h b Hb) as (u & ? & _). by exists u.
  - congruence.
Qed.

(** ** Accepting the block *)

(** States with the same blocks, tips and selected parents. *)
Definition same_dag (s s' : ChainState) : Prop :=
  d_blocks (cs_dag s') = d_blocks (cs_dag s) /\ d_tips (cs_dag s') = d_tips (cs_dag s) /\
  d_children (cs_dag s') = d_children (cs_dag s) /\
  d_selected_parents (cs_dag s') = d_selected_parents (cs_dag s) /\
  d_best_height (cs_dag s') = d_best_height (cs_dag s) /\
  d_genesis_hash (cs_dag s') = d_genesis_hash (cs_dag s) /\
  d_consensus_mode (cs_dag s') = d_consensus_mode (cs_dag s) /\
  d_selected_parent_policy (cs_dag s') = d_selected_parent_policy (cs_dag s) /\
  d_blue_work (cs_dag s') = d_blue_work (cs_dag s) /\ d_merge_set_k (cs_dag s') = d_merge_set_k (cs_dag s).

Lemma same_dag_selected s s' h : same_dag s s' -> selected_parent_of s' h = selected_parent_of s h.
Proof. intros (_ & _ & _ & Hp & _). unfold selected_parent_of. by rewrite Hp. Qed.
Lemma same_dag_ok s s' : same_dag s s' -> dag_ok s -> dag_ok s'.
Proof.
  intros Hs [D1 D2 D3 D4 D5 D6]. pose proof (fun h => same_dag_selected s s' h Hs) as Hsel.
  destruct Hs as (Hb & Ht & Hc & _ & Hh & _).
  split.
  - unfold keyed_blocks. by rewrite Hb.
  - by rewrite Hb.
  - intros h. rewrite Ht, Hb. apply D3.
  - intros p c. rewrite Hc, Hb. apply D4.
  - intros h b. rewrite Hb, Hsel. apply D5.
  - rewrite Hb, Hh. apply D6.
Qed.
Lemma same_dag_tip s s' : same_dag s s' -> preferred_tip_hash s' = preferred_tip_hash s.
Proof.
  intros (Hb & Ht & _ & _ & _ & _ & _ & Hp & _).
  unfold preferred_tip_hash, sorted_tip_hashes, sorted_tip_hashes_with_policy, with_blocks.
  by rewrite Hb, Ht, Hp.
Qed.
Lemma chain_utxo_mono g u0 s s' h u :
  (forall h b, d_blocks (cs_dag s) !! h = Some b -> d_blocks (cs_dag s') !! h = Some b /\
     selected_parent_of s' h = selected_parent_of s h) ->
  chain_utxo g u0 s h u -> chain_utxo g u0 s' h u.
Proof.
  intros Hm. induction 1 as [|h b p u t Hne Hb Hp _ IH Ha]; [constructor|].
  destruct (Hm h b Hb) as [Hb' Hp']. eapply chain_block; eauto. congruence.
Qed.
Lemma same_dag_chain g u0 s s' h u : same_dag s s' -> chain_utxo g u0 s h u -> chain_utxo g u0 s' h u.
Proof.
  intros Hs. apply chain_utxo_mono. intros h' b Hb. split; [|by apply same_dag_selected].
  destruct Hs as [Hbl _]. congruence.
Qed.

(** The selected parent recorded for a block is the one validation used. *)
Lemma legacy_selected_parent s block p :
  d_consensus_mode (cs_dag s) = Legacy -> selected_parent_for_state_validation block s = Some p ->
  selected_parent_of (accept_block_to_dag_metadata block s) (b_hash block) = Some p.
Proof.
  intros Hm. unfold selected_parent_for_state_validation, accept_block_to_dag_metadata, selected_parent_of.
  rewrite Hm. simpl. rewrite lookup_insert_eq. unfold max_stored_parent. simpl.
  destruct (push_children_spec (b_hash block) (h_parents (b_header block)) (cs_dag s)) as (Hb & _).
  by rewrite Hb.
Qed.

(** The state of the new block. *)
Lemma accepted_block_state g u0 s env now block p bp :
  legacy_ok g u0 s -> validate_block env now block s = Ok tt ->
  Forall tx_typed (b_transactions block) ->
  selected_parent_for_state_validation block s = Some p ->
  d_blocks (cs_dag s) !! p = Some bp -> 0 <= h_height (b_header bp) < h_height (b_header block) ->
  exists u s', chain_utxo g u0 s p u /\
    apply_transactions (b_transactions block) (on_utxo u) (h_height (b_header block)) = Ok s' /\
    block_state_ok (cs_utxo s') block.
Proof.
  intros Hs Hv Hty Hp Hbp Hht.
  destruct (validated_block_value _ _ _ _ (legacy_chain_ok _ _ _ Hs) Hty Hv)
    as (context & t & Hctx & Ht & [Hwi Hwa _] & Hroot & Hval).
  pose proof (parent_context_utxo _ _ _ _ _ _ Hs Hctx Hp) as Hpu.
  destruct (hi_blocks _ _ _ (lo_history _ _ _ Hs) p bp Hbp) as (u & Hch & Hok).
  assert (u = cs_utxo context) as -> by (by eapply chain_utxo_det).
  destruct (apply_transactions_utxo _ (clear_mempool_view context) (on_utxo (cs_utxo context)) _ _ eq_refl Ht) as (t' & Ht' & Hu).
  exists (cs_utxo context), t'. split; [done|]. split; [done|]. rewrite Hu.
  split; [done|done|done|]. pose proof (bs_supply _ _ Hok).
  pose proof (supply_cap_step _ _ Hht). lia.
Qed.

Lemma accept_history g u0 s env now block :
  legacy_ok g u0 s -> validate_block env now block s = Ok tt ->
  Forall tx_typed (b_transactions block) -> h_height (b_header block) < u64_max ->
  history_ok g u0 (accept_block_to_dag_metadata block s).
Proof.
  intros Hs Hv Hty Hmax. pose proof (lo_history _ _ _ Hs) as Hh.
  pose proof (validate_block_Ok _ _ _ _ Hv) as Hacc.
  destruct (accept_genesis_hash block s) as (Hg' & Hmode' & _).
  destruct (accept_fields block s) as (Hb' & Hsel' & _).
  assert (Hpar : Forall (fun p => exists bp, d_blocks (cs_dag s) !! p = Some bp /\
    h_height (b_header bp) < h_height (b_header block)) (h_parents (b_header block))).
  { eapply Forall_impl; [apply (ba_parents_older _ _ _ _ Hacc)|]. simpl.
    intros p (bp & Hbp & Hle & _). exists bp. split; [done|]. unfold saturating_add in Hle. lia. }
  pose proof (ba_new _ _ _ _ Hacc) as Hnew. destruct (ba_parents _ _ _ _ Hacc) as [Hne _].
  assert (Hmono : forall h b, d_blocks (cs_dag s) !! h = Some b ->
    d_blocks (cs_dag (accept_block_to_dag_metadata block s)) !! h = Some b /\
    selected_parent_of (accept_block_to_dag_metadata block s) h = selected_parent_of s h).
  { intros h b Hb. assert (h <> b_hash block) by congruence.
    rewrite Hb', lookup_insert_ne by done. split; [done|by apply Hsel']. }
  destruct (ba_difficulty _ _ _ _ Hacc) as (p & Hp & _).
  assert (Hpin : p ∈ h_parents (b_header block)).
  { unfold selected_parent_for_state_validation in Hp. rewrite (hi_mode _ _ _ Hh) in Hp. simpl in Hp.
    by apply max_stored_parent_Some in Hp. }
  rewrite Forall_forall in Hpar. destruct (Hpar p Hpin) as (bp & Hbp & Hlt).
  assert (0 <= h_height (b_header bp)) as Hbp0 by (by apply (hi_heights _ _ _ Hh p)).
  assert (Hng : b_hash block <> g). { intros Heq. destruct (proj1 (hi_genesis _ _ _ Hh)). congruence. }
  split.
  - by rewrite Hmode'; apply Hh.
  - apply accept_preserves_dag_ok; [apply Hh|done|done|by apply Forall_forall].
  - intros h b Hb Hnil. rewrite Hb' in Hb. apply lookup_insert_Some in Hb as [[<- <-]|[_ Hb]]; [done|].
    by apply (hi_rooted _ _ _ Hh h b).
  - destruct (hi_genesis _ _ _ Hh) as [[gb Hgb] Hg]. split; [|congruence].
    exists gb. by apply Hmono.
  - apply Hh.
  - rewrite Hb'. apply map_Forall_insert_2; [done|apply Hh].
  - rewrite Hb'. apply map_Forall_insert_2; [simpl; lia|apply Hh].
  - intros h b Hb. rewrite Hb' in Hb. apply lookup_insert_Some in Hb as [[<- <-]|[Hne' Hb]].
    + destruct (accepted_block_state _ _ _ _ _ _ _ _ Hs Hv Hty Hp Hbp) as (u & t & Hu & Ht & Hok); [lia|].
      exists (cs_utxo t). split; [|by destruct Hok; split].
      apply (chain_block _ _ _ _ (accepted_header block s) p u); try done.
      * by rewrite Hb', lookup_insert_eq.
      * apply legacy_selected_parent; [apply Hh|done].
      * by apply (chain_utxo_mono _ _ s).
    + destruct (hi_blocks _ _ _ Hh h b Hb) as (u & Hch & Hok). exists u. split; [|done].
      by apply (chain_utxo_mono _ _ s).
Qed.

(** ** Committing the block *)

Lemma history_same g u0 s s' : same_dag s s' -> history_ok g u0 s -> history_ok g u0 s'.
Proof.
  intros Hsame [D1 D2 D3 D4 D5 D6 D7 D8]. pose proof Hsame as (Hb & _ & _ & _ & _ & Hg & Hm & _).
  split; unfold rooted in *; rewrite ?Hb, ?Hg, ?Hm; try done.
  - by apply (same_dag_ok s).
  - intros h b Hbl. destruct (D8 h b Hbl) as (u & Hu & Hok). exists u. split; [|done].
    by apply (same_dag_chain _ _ s).
Qed.

(** The legacy rebuild of a state whose selected chain is up to date. *)
Lemma rebuild_legacy_ok g u0 s s0 tip :
  history_ok g u0 s -> init_chain_state (cs_chain_id s) = Ok s0 ->
  selected_chain_from s tip (d_selected_chain (cs_dag s)) ->
  exists rebuilt, rebuild_legacy_state s = Ok rebuilt /\ chain_utxo g u0 s tip (cs_utxo rebuilt).
Proof.
  intros Hh Hinit Hsc. unfold rebuild_legacy_state. rewrite Hinit. cbv zeta.
  destruct (hi_init _ _ _ Hh _ _ Hinit) as [Hu0 _].
  apply (replay_chain g u0 s (replay_selected s) (fun _ => True)); try done.
  - apply replay_selected_replays, Hh.
  - eapply selected_chain_starts_at_genesis; [apply (hi_dag _ _ _ Hh)|apply (hi_rooted _ _ _ Hh)|exact Hsc].
  - intros h Hin. destruct (sc_stored _ _ _ Hsc h Hin) as [b Hb].
    destruct (hi_blocks _ _ _ Hh h b Hb) as (u & ? & _). by exists u.
Qed.

Lemma same_dag_selected_chain s s' tip c :
  same_dag s s' -> selected_chain_from s tip c -> selected_chain_from s' tip c.
Proof.
  intros Hs [C1 C2 C3 C4 C5]. pose proof (fun h => same_dag_selected s s' h Hs) as Hsel.
  destruct Hs as (Hb & _). split; try done.
  - by rewrite Hb.
  - intros i a b. rewrite Hsel. apply C4.
  - intros h Hh. rewrite Hsel. unfold path_end. rewrite Hb. by apply C5.
Qed.

(** The state before the rebuild: the selected chain ends in the best tip. *)
Lemma refreshed_chain g u0 s :
  history_ok g u0 s -> (exists t, t ∈ d_tips (cs_dag s)) ->
  exists best b, preferred_tip_hash s = Some best /\ d_blocks (cs_dag s) !! best = Some b /\
    selected_chain_from s best (d_selected_chain (cs_dag (refresh_selected_chain s))).
Proof.
  intros Hh [t Ht]. destruct (preferred_tip_exists s t Ht) as [best Hbest].
  { by apply (do_tips _ (hi_dag _ _ _ Hh)). }
  destruct (preferred_tip_best s best Hbest) as (b & _ & Hb & _). exists best, b.
  split; [done|]. split; [done|]. unfold refresh_selected_chain. rewrite Hbest. simpl.
  apply rebuild_selected_chain_ok. by exists b.
Qed.

Lemma accept_mempool block state : cs_mempool (accept_block_to_dag_metadata block state) = cs_mempool state.
Proof. done. Qed.

(** [commit_legacy] from the accepted state on. *)
Lemma commit_from_accepted g u0 s1 :
  history_ok g u0 s1 -> (exists t, t ∈ d_tips (cs_dag s1)) ->
  exists rebuilt s', let s3 := record_legacy_order (refresh_selected_chain s1) in
    rebuild_legacy_state s3 = Ok rebuilt /\
    record_state_root (s3 <| cs_utxo := cs_utxo rebuilt |>) = (Ok tt, s') /\
    legacy_ok g u0 s' /\ same_dag s1 s' /\ cs_mempool s' = cs_mempool s1.
Proof.
  intros Hh Ht. destruct (refreshed_chain g u0 s1 Hh Ht) as (best & b & Hbest & Hb & Hsc).
  set (s3 := record_legacy_order (refresh_selected_chain s1)).
  assert (Hsame : same_dag s1 s3) by (by unfold same_dag).
  assert (Hh3 : history_ok g u0 s3) by (by apply (history_same _ _ s1)).
  destruct (init_chain_state_facts (cs_chain_id s3)) as (s0 & _ & Hinit & _).
  destruct (rebuild_legacy_ok g u0 s3 s0 best Hh3 Hinit) as (rebuilt & Hr & Hu).
  { exact (same_dag_selected_chain s1 s3 _ _ Hsame Hsc). }
  destruct (hi_blocks _ _ _ Hh3 best b) as (u & Hch & Hok).
  { by destruct Hsame as (-> & _). }
  rewrite (chain_utxo_det _ _ _ _ _ _ Hch Hu) in Hok. unfold record_state_root. simpl cs_utxo at 1.
  exists rebuilt. rewrite (bs_root _ _ Hok). eexists. split; [done|]. split; [reflexivity|].
  match goal with |- legacy_ok _ _ ?s /\ _ => set (s4 := s) end.
  assert (Hsame4 : same_dag s3 s4) by (by unfold same_dag).
  split; [split|split; [|done]].
  - by apply (history_same _ _ s3).
  - exists best. split; [|split].
    + by rewrite (same_dag_tip s3 s4 Hsame4), (same_dag_tip s1 s3 Hsame).
    + exists b. destruct Hsame4 as (-> & _). by destruct Hsame as (-> & _).
    + by apply (same_dag_chain _ _ s3).
  - unfold same_dag in *. intuition congruence.
Qed.

Lemma commit_legacy_ok g u0 s env now block :
  legacy_ok g u0 s -> validate_block env now block s = Ok tt ->
  Forall tx_typed (b_transactions block) -> h_height (b_header block) < u64_max ->
  exists s', commit_legacy block s = (Ok tt, s') /\ legacy_ok g u0 s' /\
    same_dag (accept_block_to_dag_metadata block s) s' /\ cs_mempool s' = cs_mempool s.
Proof.
  intros Hs Hv Hty Hmax. pose proof (accept_history _ _ _ _ _ _ Hs Hv Hty Hmax) as Hh1.
  unfold commit_legacy. rewrite bool_decide_eq_false_2.
  2: { destruct (hi_genesis _ _ _ (lo_history _ _ _ Hs)) as [[gb Hgb] ->]. congruence. }
  rewrite <- (accept_mempool block s). revert Hh1.
  destruct (accept_fields block s) as (_ & _ & _ & Htips & _). revert Htips.
  generalize (accept_block_to_dag_metadata block s) as s1. intros s1 Htips Hh1.
  destruct (commit_from_accepted g u0 s1 Hh1) as (rebuilt & s' & Hr & Hc & Hl & Hsame & Hmp).
  { exists (b_hash block). apply Htips. by left. }
  exists s'. cbv zeta. by rewrite Hr.
Qed.

(** ** Reachable states *)

(** A node in legacy mode: it starts from the initial state, changes its
    mempool in any way, and commits the blocks it validates. *)
Inductive legacy_reachable : ChainState -> Prop :=
| reach_init chain_id s : init_chain_state chain_id = Ok s -> legacy_reachable s
| reach_mempool s mp : legacy_reachable s -> legacy_reachable (s <| cs_mempool := mp |>)
| reach_commit env now block s s' :
    legacy_reachable s -> validate_block env now block s = Ok tt ->
    Forall tx_typed (b_transactions block) -> h_height (b_header block) < u64_max ->
    commit_block_to_state block s = (Ok tt, s') -> legacy_reachable s'.

Lemma single_block_dag_ok s g gb :
  d_blocks (cs_dag s) = {[ g := gb ]} -> b_hash gb = g -> d_tips (cs_dag s) = {[ g ]} ->
  d_children (cs_dag s) = ∅ -> d_selected_parents (cs_dag s) = {[ g := None ]} ->
  h_parents (b_header gb) = [] -> h_height (b_header gb) <= d_best_height (cs_dag s) -> dag_ok s.
Proof.
  intros Hb Hg Ht Hc Hsp Hp Hh.
  split; unfold keyed_blocks, selected_parent_of; rewrite ?Hb, ?Ht, ?Hc, ?Hsp.
  - by apply map_Forall_singleton.
  - intros h b p [<- <-]%lookup_singleton_Some. rewrite Hp. by intros ?%not_elem_of_nil.
  - intros h. rewrite elem_of_singleton. split.
    + intros ->. rewrite lookup_singleton_eq. split; [by eexists|].
      intros h' b' [<- <-]%lookup_singleton_Some. rewrite Hp. apply not_elem_of_nil.
    + intros [[b [<- _]%lookup_singleton_Some] _]. done.
  - intros p c. rewrite lookup_empty. simpl. split; [by intros ?%not_elem_of_nil|].
    intros (b & [<- <-]%lookup_singleton_Some & Hin). rewrite Hp in Hin. by apply not_elem_of_nil in Hin.
  - intros h b [<- <-]%lookup_singleton_Some. by rewrite lookup_singleton_eq.
  - intros h b [<- <-]%lookup_singleton_Some. done.
Qed.

Lemma init_legacy_ok chain_id s :
  init_chain_state chain_id = Ok s -> exists g u0, legacy_ok g u0 s.
Proof.
  intros Hs. destruct (init_chain_state_facts chain_id) as
    (s' & gb & Hs' & Hgb & Hb & _ & Hroot & Hidx & Htip & (tx & Htx & Hu & Hout & Hver & Hin & Hfee & Hnon) &
     Hp & Hh & Hgh & Htips & Hch & Hsp & Hbest & Hmode & _).
  assert (s' = s) as -> by congruence. exists (b_hash gb), (genesis_utxo tx).
  assert (Hg : is_Some (d_blocks (cs_dag s) !! b_hash gb)) by (rewrite Hb, lookup_singleton_eq; by eexists).
  split; [split|].
  - done.
  - by apply (single_block_dag_ok s (b_hash gb) gb); try done; rewrite Hh, Hbest.
  - intros h b. rewrite Hb. by intros [<- <-]%lookup_singleton_Some.
  - done.
  - intros cid s0 Hs0. destruct (init_chain_state_facts cid) as
      (s0' & gb' & Hs0' & Hgb' & _ & _ & _ & _ & _ & (tx' & Htx' & Hu' & _) & _ & _ & Hgh' & _).
    assert (s0' = s0) as -> by congruence. assert (gb' = gb) as -> by congruence.
    split; [|done]. congruence.
  - rewrite Hb. apply map_Forall_singleton. rewrite Htx. constructor; [|constructor].
    unfold tx_typed. rewrite Hver, Hin, Hout, Hfee, Hnon. by_decide.
  - rewrite Hb. apply map_Forall_singleton. lia.
  - intros h b. rewrite Hb. intros [<- <-]%lookup_singleton_Some. exists (genesis_utxo tx).
    split; [constructor|]. split.
    + congruence.
    + by rewrite <- Hu.
    + unfold genesis_utxo. simpl. by apply map_Forall_singleton.
    + rewrite Hh. unfold genesis_utxo. simpl. rewrite <- insert_empty, total_amount_insert by done. done.
  - exists (b_hash gb). split; [done|]. split; [done|]. rewrite Hu. constructor.
Qed.

Lemma legacy_same g u0 s s' :
  cs_dag s' = cs_dag s -> cs_utxo s' = cs_utxo s -> legacy_ok g u0 s -> legacy_ok g u0 s'.
Proof.
  intros Hd Hu [Hh (tip & Ht & Hb & Hc)].
  assert (Hsame : same_dag s s') by (unfold same_dag; rewrite Hd; done).
  split; [by apply (history_same _ _ s)|]. exists tip.
  rewrite (same_dag_tip s s' Hsame), Hd, Hu. split; [done|]. split; [done|]. by apply (same_dag_chain _ _ s).
Qed.

Lemma reachable_legacy_ok s : legacy_reachable s -> exists g u0, legacy_ok g u0 s.
Proof.
  induction 1 as [chain_id s Hi|s mp _ (g & u0 & Hs)|env now block s s' _ (g & u0 & Hs) Hv Hty Hmax Hc].
  - by eapply init_legacy_ok.
  - exists g, u0. by apply (legacy_same _ _ s).
  - exists g, u0. destruct (commit_legacy_ok _ _ _ _ _ _ Hs Hv Hty Hmax) as (s1 & Hc1 & Hs1 & _).
    unfold commit_block_to_state in Hc.
    rewrite decide_False, Hc1 in Hc by (rewrite (hi_mode _ _ _ (lo_history _ _ _ Hs)); done).
    destruct (reconcile_mempool s1) as [[r s2]|] eqn:Hr; [|done]. simplify_eq.
    apply reconcile_keeps in Hr as [Hu Hd]. by apply (legacy_same _ _ s1).
Qed.

(** ** Both modes *)

Lemma apply_transactions_index txs s height s' :
  apply_transactions txs s height = Ok s' -> index_consistent (cs_utxo s) -> index_consistent (cs_utxo s').
Proof.
  intros Ha Hi. revert Ha. apply (try_fold_ind _ (fun _ t => index_consistent (cs_utxo t))); [done|].
  intros pre tx post t t' _ Ht Hs. destruct (apply_transaction tx t height) as [[]] eqn:Ha; simplify_eq.
  apply apply_transaction_spec in Ha as (Hc & _). auto.
Qed.

Lemma apply_transactions_live_index txs s height r s' :
  apply_transactions_live txs s height = (r, s') ->
  cs_dag s' = cs_dag s /\ (index_consistent (cs_utxo s) -> index_consistent (cs_utxo s')).
Proof.
  revert s. induction txs as [|tx txs IH]; intros s; simpl; [by intros [= <- <-]|].
  destruct (apply_transaction tx s height) as [[] t] eqn:Ha;
    apply apply_transaction_spec in Ha as (Hc & Hd & _).
  - intros Hl. apply IH in Hl as [Hd' Hi]. rewrite Hd'. auto.
  - by intros [= <- <-].
Qed.

Lemma init_index chain_id s : init_chain_state chain_id = Ok s -> index_consistent (cs_utxo s).
Proof. intros Hi. by apply init_working_ok in Hi as [? _ _]. Qed.

Lemma rebuild_legacy_index s rebuilt :
  rebuild_legacy_state s = Ok rebuilt -> index_consistent (cs_utxo rebuilt).
Proof.
  unfold rebuild_legacy_state. destruct (init_chain_state _) as [s0|] eqn:Hi; [|done]. cbv zeta.
  apply (try_fold_ind _ (fun _ t => index_consistent (cs_utxo t))); [by apply init_index in Hi|].
  intros pre h post t t' _ Ht. unfold replay_selected. case_decide; [by intros [= <-]|].
  intros (b & _ & Hr)%lift_bind_Ok. apply lift_bind_Ok in Hr as (t1 & Ha & Hr).
  apply apply_transactions_index in Ha; [|done]. by simplify_eq.
Qed.

Lemma rebuild_ordered_index s rebuilt :
  rebuild_state_from_ordered_dag s = Ok rebuilt -> index_consistent (or_utxo rebuilt).
Proof.
  unfold rebuild_state_from_ordered_dag. destruct (init_chain_state _) as [s0|] eqn:Hi; [|done]. cbv zeta.
  intros (acc & Hf & Hr)%lift_bind_Ok.
  assert (Hacc : index_consistent (cs_utxo acc.1)).
  { revert Hf. apply (try_fold_ind _ (fun _ t => index_consistent (cs_utxo t.1))).
    { by apply init_index in Hi. }
    intros pre h post t t' _ Ht. unfold replay_block. case_decide; [by intros [= <-]|].
    destruct (ok_or _ _) as [b|]; [|done].
    apply (try_fold_ind _ (fun _ t => index_consistent (cs_utxo t.1))); [done|].
    intros pre' tx post' [c d] [c' d'] _ Hc. unfold replay_transaction. simpl in *.
    destruct (apply_transaction tx c _) as [r c1] eqn:Ha. apply apply_transaction_spec in Ha as (Hx & _).
    destruct r as [|[]]; intros; simplify_eq; auto. }
  destruct acc as [c d]. destruct (compute_state_root (cs_utxo c)) as [root|]; [|done]. by simplify_eq.
Qed.

Lemma record_state_root_Ok s s' :
  record_state_root s = (Ok tt, s') -> same_dag s s' /\ cs_utxo s' = cs_utxo s.
Proof. unfold record_state_root. repeat case_match; intros [= <-]; by unfold same_dag. Qed.

Lemma same_dag_trans s1 s2 s3 : same_dag s1 s2 -> same_dag s2 s3 -> same_dag s1 s3.
Proof. unfold same_dag. intuition congruence. Qed.

Lemma commit_compact_Ok block s prev s' :
  commit_legacy_compact_snapshot_state block s prev = (Ok tt, s') -> index_consistent (cs_utxo s) ->
  same_dag s s' /\ index_consistent (cs_utxo s').
Proof.
  unfold commit_legacy_compact_snapshot_state. intros Hc Hi. case_decide.
  { apply record_state_root_Ok in Hc as [Hs Hu]. by rewrite Hu. }
  destruct (negb _); [done|].
  destruct (apply_transactions_live _ _ _) as [[] s1] eqn:Ha; [|done].
  apply apply_transactions_live_index in Ha as [Hd Hx].
  destruct (compute_state_root _); [|done]. case_bool_decide; simpl in Hc; [|done]. simplify_eq.
  split; [|by apply Hx]. unfold same_dag. simpl. by rewrite Hd.
Qed.

Lemma commit_ghostdag_Ok block s s' :
  commit_ghostdag block s = (Ok tt, s') -> 
  same_dag (accept_block_to_dag_metadata block s) s' /\ index_consistent (cs_utxo s').
Proof.
  unfold commit_ghostdag. cbv zeta. generalize (accept_block_to_dag_metadata block s) as s1. intros s1.
  destruct (rebuild_state_from_ordered_dag _) as [rebuilt|[|]] eqn:Hr; [|done..]. intros [= <-].
  apply rebuild_ordered_index in Hr. split; [|done]. by unfold same_dag.
Qed.

Lemma commit_legacy_Ok block s s' :
  commit_legacy block s = (Ok tt, s') -> index_consistent (cs_utxo s) ->
  same_dag (accept_block_to_dag_metadata block s) s' /\ index_consistent (cs_utxo s').
Proof.
  unfold commit_legacy. cbv zeta. destruct (accept_genesis_hash block s) as (_ & _ & Hu & _). rewrite <- Hu.
  generalize (accept_block_to_dag_metadata block s) as s1. intros s1 Hc Hi.
  assert (Hs : same_dag s1 (record_legacy_order (refresh_selected_chain s1))) by (by unfold same_dag).
  revert Hs Hc. set (s3 := record_legacy_order (refresh_selected_chain s1)). intros Hs Hc.
  case_bool_decide.
  - apply commit_compact_Ok in Hc as [Hs' Hi']; [|done]. split; [|done]. by apply (same_dag_trans _ s3).
  - destruct (rebuild_legacy_state s3) as [rebuilt|] eqn:Hr; [|done].
    apply rebuild_legacy_index in Hr. apply record_state_root_Ok in Hc as [Hs' Hu']. rewrite Hu'.
    split; [|done]. by apply (same_dag_trans _ s3).
Qed.

Lemma commit_block_Ok block s s' :
  commit_block_to_state block s = (Ok tt, s') -> index_consistent (cs_utxo s) ->
  same_dag (accept_block_to_dag_metadata block s) s' /\ index_consistent (cs_utxo s').
Proof.
  unfold commit_block_to_state. intros Hc Hi.
  destruct (if decide _ then _ else _) as [[[]|] s1] eqn:Hb; [|done].
  destruct (reconcile_mempool s1) as [[r s2]|] eqn:Hr; [|done]. simplify_eq.
  apply reconcile_keeps in Hr as [Hu Hd].
  assert (Hsame : same_dag (accept_block_to_dag_metadata block s) s1 /\ index_consistent (cs_utxo s1)).
  { case_decide; [by apply commit_ghostdag_Ok|by apply commit_legacy_Ok]. }
  destruct Hsame as [Hs Hx]. rewrite Hu. split; [|done].
  apply (same_dag_trans _ s1); [done|]. unfold same_dag. by rewrite Hd.
Qed.

(** A node in either mode, with any configuration. *)
Inductive node_reachable : ChainState -> Prop :=
| node_init chain_id mode policy k s : init_chain_state chain_id = Ok s ->
    node_reachable (s <| cs_dag ::= fun d => d <| d_consensus_mode := mode |>
                      <| d_selected_parent_policy := policy |> <| d_merge_set_k := k |> |>)
| node_mempool s mp : node_reachable s -> node_reachable (s <| cs_mempool := mp |>)
| node_commit env now block s s' :
    node_reachable s -> validate_block env now block s = Ok tt ->
    h_height (b_header block) < u64_max ->
    commit_block_to_state block s = (Ok tt, s') -> node_reachable s'.

Lemma validated_accept_dag_ok env now block s :
  dag_ok s -> validate_block env now block s = Ok tt -> h_height (b_header block) < u64_max ->
  dag_ok (accept_block_to_dag_metadata block s).
Proof.
  intros Hs Hv Hmax. apply validate_block_Ok in Hv. destruct (ba_parents _ _ _ _ Hv) as [Hne _].
  apply accept_preserves_dag_ok; [done|apply Hv|done|].
  eapply Forall_impl; [apply (ba_parents_older _ _ _ _ Hv)|]. simpl.
  intros p (bp & Hbp & Hle & _). exists bp. split; [done|]. unfold saturating_add in Hle. lia.
Qed.

Lemma node_dag_ok s : node_reachable s -> dag_ok s /\ index_consistent (cs_utxo s).
Proof.
  induction 1 as [chain_id mode policy k s Hi|s mp _ [Hd Hx]|env now block s s' _ [Hd Hx] Hv Hmax Hc].
  - split; [|by apply init_index in Hi]. destruct (init_chain_state_facts chain_id) as
      (s' & gb & Hs' & _ & Hb & _ & _ & _ & _ & _ & Hp & Hh & _ & Ht & Hch & Hsp & Hbest & _).
    assert (s' = s) as -> by congruence. eapply (single_block_dag_ok _ (b_hash gb) gb); try done. simpl. lia.
  - split; [|done]. apply (same_dag_ok s); [by unfold same_dag|done].
  - apply commit_block_Ok in Hc as [Hs Hx']; [|done]. split; [|done].
    apply (same_dag_ok _ _ Hs). by eapply validated_accept_dag_ok.
Qed.

(** ** Theorems *)

(** C6: in every state a node reaches, in either mode and configuration, by
    committing validated blocks, blocks are stored under their hash with their
    parents stored and lower, the tips are exactly the blocks without children,
    the child index is the inverse of the parent lists, each block's selected
    parent is one of its parents, and the address index of the unspent outputs
    is consistent. *)
Theorem reachable_dag_invariant s :
  node_reachable s -> dag_ok s /\ index_consistent (cs_utxo s).
Proof. apply node_dag_ok. Qed.

(** C4: in legacy mode the live unspent outputs are, in every reachable state,
    those of replaying the selected chain of the preferred tip, and their root
    is the state root the tip's header commits to. *)
Theorem reachable_state_root s :
  legacy_reachable s ->
  exists tip b s0, preferred_tip_hash s = Some tip /\ d_blocks (cs_dag s) !! tip = Some b /\
    init_chain_state (cs_chain_id s) = Ok s0 /\
    chain_utxo (d_genesis_hash (cs_dag s0)) (cs_utxo s0) s tip (cs_utxo s) /\
    compute_state_root (cs_utxo s) = Ok (h_state_root (b_header b)).
Proof.
  intros Hs. destruct (reachable_legacy_ok s Hs) as (g & u0 & Hl).
  destruct (legacy_live g u0 s Hl) as (tip & b & Ht & Hb & Hok).
  destruct (lo_tip _ _ _ Hl) as (tip' & Ht' & _ & Hch). assert (tip' = tip) as -> by congruence.
  destruct (init_chain_state_facts (cs_chain_id s)) as (s0 & _ & Hi & _).
  destruct (hi_init _ _ _ (lo_history _ _ _ Hl) _ _ Hi) as [Hu0 Hg].
  exists tip, b, s0. rewrite Hu0, Hg. split_and!; try done. apply Hok.
Qed.

(** C5: in legacy mode the value of all unspent outputs never exceeds the
    genesis supply and the subsidies of the heights reached, and so never
    exceeds 1,020,369,950 units. *)
Theorem reachable_supply_bounded s :
  legacy_reachable s ->
  0 <= d_best_height (cs_dag s) /\
  total_amount (u_utxos (cs_utxo s)) <= supply_cap (d_best_height (cs_dag s)) <= 1020369950.
Proof.
  intros Hs. destruct (reachable_legacy_ok s Hs) as (g & u0 & Hl).
  destruct (legacy_live g u0 s Hl) as (tip & b & Ht & Hb & Hok).
  pose proof (do_best _ (hi_dag _ _ _ (lo_history _ _ _ Hl)) tip b Hb) as Hbest.
  pose proof (hi_heights _ _ _ (lo_history _ _ _ Hl) tip b Hb) as H0'. simpl in H0'.
  pose proof (bs_supply _ _ Hok) as Hsup. split; [lia|].
  split; [|apply supply_cap_bound; lia]. etransitivity; [exact Hsup|]. unfold supply_cap, halving_sum. lia.
Qed.

(** C3: in legacy mode a block that validates against a reachable state can be
    committed: the replay, the state root and the reconciliation all succeed.
    The block is then stored, and if it became the preferred tip the new
    unspent outputs have exactly the state root it commits to. *)
Theorem commit_validated_block env now block s :
  legacy_reachable s -> validate_block env now block s = Ok tt ->
  Forall tx_typed (b_transactions block) -> h_height (b_header block) < u64_max ->
  mempool_entries_ok s ->
  exists s', commit_block_to_state block s = (Ok tt, s') /\
    d_blocks (cs_dag s') !! b_hash block = Some (accepted_header block s) /\
    (preferred_tip_hash s' = Some (b_hash block) ->
     compute_state_root (cs_utxo s') = Ok (h_state_root (b_header block))).
Proof.
  intros Hs Hv Hty Hmax Hmp. destruct (reachable_legacy_ok s Hs) as (g & u0 & Hl).
  destruct (commit_legacy_ok _ _ _ _ _ _ Hl Hv Hty Hmax) as (s1 & Hc & Hl1 & Hsame & Hm1).
  unfold commit_block_to_state.
  rewrite decide_False, Hc by (rewrite (hi_mode _ _ _ (lo_history _ _ _ Hl)); done).
  destruct (reconcile_mempool_facts s1) as (r & s' & K & Hr & Hu & Hd & _).
  { destruct (legacy_live _ _ _ Hl1) as (tip & b & _ & _ & Hok). apply Hok. }
  { unfold mempool_entries_ok. by rewrite Hm1. }
  rewrite Hr. exists s'. split; [done|].
  assert (Hb : d_blocks (cs_dag s') !! b_hash block = Some (accepted_header block s)).
  { rewrite Hd. destruct Hsame as (-> & _). destruct (accept_fields block s) as (-> & _). apply lookup_insert_eq. }
  split; [done|]. intros Htip.
  destruct (legacy_live g u0 s' (legacy_same _ _ s1 s' Hd Hu Hl1)) as (tip & b & Ht & Hbt & Hok).
  assert (tip = b_hash block) as -> by congruence. assert (b = accepted_header block s) as -> by congruence.
  apply Hok.
Qed.

(** C39: committing a block replaces the blue score its miner declared by the one
    the node computes, without rehashing.  As long as the two headers do not
    collide, the header stored under a validated block's hash hashes to it if
    and only if the declared score was the computed one, which [validate_block]
    does not check. *)
Theorem stored_header_hash env now block s b1 b2 :
  validate_block env now block s = Ok tt ->
  header_typed (b_header block) -> header_typed (b_header (accepted_header block s)) ->
  canonical_block_header_bytes (b_header block) = Some b1 ->
  canonical_block_header_bytes (b_header (accepted_header block s)) = Some b2 ->
  collision_free [b1; b2] ->
  d_blocks (cs_dag (accept_block_to_dag_metadata block s)) !! b_hash block = Some (accepted_header block s) /\
  (compute_block_hash (b_header (accepted_header block s)) = Some (b_hash block) <->
   h_blue_score (b_header block) = msc_blue_score (classify_merge_set block s)).
Proof.
  intros Hv Ht1 Ht2 Hb1 Hb2 Hcf. apply validate_block_Ok in Hv.
  split; [destruct (accept_fields block s) as (-> & _); apply lookup_insert_eq|].
  rewrite <- (ba_hash _ _ _ _ Hv). split.
  - intros Heq. symmetry in Heq. apply (block_hash_inj _ _ b1 b2) in Heq; try done.
    apply (f_equal h_blue_score) in Heq. exact Heq.
  - intros Heq. unfold accepted_header. rewrite <- Heq. by destruct block as [? [] ?].
Qed.
End legacy.

(** ** Witnesses *)

(** The state after committing the first block. *)
Definition first_state : ChainState := (@commit_block_to_state model_crypto list_order first_block genesis_state).2.

Lemma genesis_state_init : @init_chain_state model_crypto list_order "main" = Ok genesis_state.
Proof.
  unfold genesis_state. destruct (@init_chain_state_facts model_crypto model_crypto_laws list_order "main")
    as (s & _ & -> & _). done.
Qed.
Lemma first_commit : @commit_block_to_state model_crypto list_order first_block genesis_state = (Ok tt, first_state).
Proof.
  unfold first_state. destruct (commit_block_to_state first_block genesis_state) as [r s] eqn:E.
  assert (Hr : (@commit_block_to_state model_crypto list_order first_block genesis_state).1 = Ok tt) by by_compute.
  rewrite E in Hr. simpl in Hr. by subst.
Qed.

Lemma first_legacy_reachable : @legacy_reachable model_crypto list_order model_kaspa first_state.
Proof.
  refine (reach_commit no_env 200 first_block genesis_state _ _ first_block_valid _ _ first_commit).
  - exact (reach_init "main" _ genesis_state_init).
  - by_decide.
  - by_decide.
Qed.

(** Genesis with the GHOSTDAG mode switched on. *)
Definition ghostdag_genesis : ChainState :=
  genesis_state <| cs_dag ::= fun d => d <| d_consensus_mode := GhostdagDev |>
    <| d_selected_parent_policy := GhostdagInspired |> <| d_merge_set_k := 3 |> |>.
Definition ghostdag_first : ChainState :=
  (@commit_block_to_state model_crypto list_order first_block ghostdag_genesis).2.

Lemma reachable_dag_invariant_witness : dag_ok ghostdag_first /\ index_consistent (cs_utxo ghostdag_first).
Proof.
  apply (@reachable_dag_invariant model_crypto model_crypto_laws list_order model_kaspa).
  assert (Hc : @commit_block_to_state model_crypto list_order first_block ghostdag_genesis = (Ok tt, ghostdag_first)).
  { rewrite (surjective_pairing (commit_block_to_state first_block ghostdag_genesis)).
    apply pair_equal_spec. split; [by_compute|reflexivity]. }
  refine (node_commit no_env 200 first_block ghostdag_genesis _ _ _ _ Hc).
  - exact (node_init "main" GhostdagDev GhostdagInspired 3 _ genesis_state_init).
  - by_compute.
  - by_decide.
Defined.

Lemma reachable_state_root_witness :
  exists tip b, @preferred_tip_hash list_order first_state = Some tip /\
    d_blocks (cs_dag first_state) !! tip = Some b /\
    @compute_state_root model_crypto list_order (cs_utxo first_state) = Ok (h_state_root (b_header b)).
Proof.
  destruct (@reachable_state_root model_crypto model_crypto_laws list_order model_kaspa first_state
    first_legacy_reachable) as (tip & b & s0 & Ht & Hb & _ & _ & Hr).
  exists tip, b. split; [exact Ht|]. split; [exact Hb|exact Hr].
Defined.

Lemma reachable_supply_bounded_witness :
  total_amount (u_utxos (cs_utxo first_state)) <= supply_cap (d_best_height (cs_dag first_state)) <= 1020369950.
Proof.
  exact (proj2 (@reachable_supply_bounded model_crypto model_crypto_laws list_order model_kaspa first_state
    first_legacy_reachable)).
Defined.

Lemma commit_validated_block_witness :
  exists s', @commit_block_to_state model_crypto list_order first_block genesis_state = (Ok tt, s') /\
    d_blocks (cs_dag s') !! b_hash first_block = Some (accepted_header first_block genesis_state).
Proof.
  destruct (@commit_validated_block model_crypto model_crypto_laws list_order model_kaspa no_env 200 first_block
    genesis_state (reach_init "main" _ genesis_state_init) first_block_valid) as (s' & Hc & Hb & _).
  - by_decide.
  - by_decide.
  - assert (Hmp : mp_transactions (cs_mempool genesis_state) = ∅) by by_compute.
    unfold mempool_entries_ok. rewrite Hmp. apply map_Forall_empty.
  - exists s'. split; [exact Hc|exact Hb].
Defined.

(** A valid block that declares a blue score of 9; the node computes 1. *)
Definition odd_template : Block :=
  mkBlock "" (mkBlockHeader 1 [genesis_hash] 100 0x207fffff 0 "" "" 9 1)
    [ok_or_default (@build_coinbase_transaction model_crypto "miner" 50 1) sample_tx].
Definition odd_block : Block :=
  ok_or_default (@refresh_block_consensus_ids_with_state model_crypto list_order odd_template genesis_state)
    odd_template.

Lemma stored_header_hash_witness :
  @validate_block model_crypto list_order model_kaspa no_env 200 odd_block genesis_state = Ok tt /\
  d_blocks (cs_dag (accept_block_to_dag_metadata odd_block genesis_state)) !! b_hash odd_block =
    Some (accepted_header odd_block genesis_state) /\
  @compute_block_hash model_crypto (b_header (accepted_header odd_block genesis_state)) <> Some (b_hash odd_block).
Proof.
  assert (Hv : @validate_block model_crypto list_order model_kaspa no_env 200 odd_block genesis_state = Ok tt)
    by by_compute.
  split; [exact Hv|].
  assert (Ht1 : header_typed (b_header odd_block)) by by_decide.
  assert (Ht2 : header_typed (b_header (accepted_header odd_block genesis_state))) by by_decide.
  set (b1 := default [] (canonical_block_header_bytes (b_header odd_block))).
  set (b2 := default [] (canonical_block_header_bytes (b_header (accepted_header odd_block genesis_state)))).
  assert (Hb1 : canonical_block_header_bytes (b_header odd_block) = Some b1) by by_compute.
  assert (Hb2 : canonical_block_header_bytes (b_header (accepted_header odd_block genesis_state)) = Some b2)
    by by_compute.
  assert (Hcf : @collision_free model_crypto [b1; b2]) by by_decide.
  destruct (@stored_header_hash model_crypto model_crypto_laws list_order model_kaspa no_env 200 odd_block
    genesis_state b1 b2 Hv Ht1 Ht2 Hb1 Hb2 Hcf) as [Hb Hiff].
  split; [exact Hb|]. intros Hc. apply Hiff in Hc. vm_compute in Hc. discriminate Hc.
Defined.
