(* ===== verification/Text.v ===== *)
(** * Strings as Unicode text

    The functions of Rust's [str] that the compiler and the amount parser use: a
    [str] is the list of its Unicode scalar values, and [len] is its length in
    UTF-8.  Decimal numbers: [parse] of an unsigned integer, and the digits
    [Display] prints. *)

From S2P Require Import Prelude Encoding.

Abbreviation text := (list Z) (only parsing).

(** An ASCII literal of the source. *)
Definition lit (s : string) : text := map Z_of_byte (str_bytes s).

(** [str::len]: bytes in UTF-8. *)
Definition utf8_len (c : Z) : Z :=
  if c <? 0x80 then 1 else if c <? 0x800 then 2 else if c <? 0x10000 then 3 else 4.
Definition text_len (s : text) : Z := foldr (fun c n => utf8_len c + n) 0 s.

(** [char::is_whitespace]: the Unicode property [White_Space]. *)
Definition is_whitespace (c : Z) : bool :=
  ((9 <=? c) && (c <=? 13)) || (c =? 0x20) || (c =? 0x85) || (c =? 0xA0) || (c =? 0x1680)
  || ((0x2000 <=? c) && (c <=? 0x200A)) || (c =? 0x2028) || (c =? 0x2029) || (c =? 0x202F)
  || (c =? 0x205F) || (c =? 0x3000).

Fixpoint trim_start (s : text) : text :=
  match s with
  | c :: s' => if is_whitespace c then trim_start s' else s
  | [] => []
  end.
Definition trim (s : text) : text := reverse (trim_start (reverse (trim_start s))).

(** [s.chars()] of a [String] kept as its UTF-8 bytes. *)
Fixpoint utf8_chars (l : bytes) : text :=
  match l with
  | [] => []
  | b0 :: l1 =>
      let x0 := Z_of_byte b0 in
      if x0 <? 0x80 then x0 :: utf8_chars l1 else
      match l1 with
      | [] => []
      | b1 :: l2 =>
          let x1 := Z.land (Z_of_byte b1) 0x3F in
          if x0 <? 0xE0 then (Z.shiftl (Z.land x0 0x1F) 6 + x1) :: utf8_chars l2 else
          match l2 with
          | [] => []
          | b2 :: l3 =>
              let x2 := Z.land (Z_of_byte b2) 0x3F in
              if x0 <? 0xF0
              then (Z.shiftl (Z.land x0 0x0F) 12 + Z.shiftl x1 6 + x2) :: utf8_chars l3 else
              match l3 with
              | [] => []
              | b3 :: l4 =>
                  (Z.shiftl (Z.land x0 0x07) 18 + Z.shiftl x1 12 + Z.shiftl x2 6
                   + Z.land (Z_of_byte b3) 0x3F) :: utf8_chars l4
              end
          end
      end
  end.
(** [s.trim().is_empty()]. *)
Definition is_blank (s : string) : bool := bool_decide (trim (utf8_chars (str_bytes s)) = []).
(** [s.split_whitespace()]: [cur] is the current token, reversed. *)
Fixpoint split_whitespace_from (cur : text) (s : text) : list text :=
  let flush := match cur with [] => [] | _ => [reverse cur] end in
  match s with
  | [] => flush
  | c :: s' =>
      if is_whitespace c then flush ++ split_whitespace_from [] s'
      else split_whitespace_from (c :: cur) s'
  end.
Definition split_whitespace (s : text) : list text := split_whitespace_from [] s.

(** [s.strip_prefix(p)]. *)
Fixpoint strip_prefix (p s : text) : option text :=
  match p, s with
  | [], _ => Some s
  | c :: p', d :: s' => if c =? d then strip_prefix p' s' else None
  | _ :: _, [] => None
  end.

(** [s.parse::<uN>()]: an optional sign and at least one decimal digit. *)
Fixpoint parse_decimal (w acc : Z) (s : text) : option Z :=
  match s with
  | [] => Some acc
  | c :: s' =>
      if (48 <=? c) && (c <=? 57) then
        if acc * 10 + (c - 48) <=? u_max w then parse_decimal w (acc * 10 + (c - 48)) s' else None
      else None
  end.
Definition parse_uint (w : Z) (s : text) : option Z :=
  let digits := match s with c :: s' => if c =? 43 then s' else s | [] => s end in
  match digits with [] => None | _ => parse_decimal w 0 digits end.

(** ** Parsing and printing decimals *)

Lemma parse_decimal_range w acc s v : 0 <= acc -> parse_decimal w acc s = Some v -> 0 <= v.
Proof.
  revert acc. induction s as [|c s IH]; intros acc Ha Hp; simpl in Hp; [by simplify_eq|].
  inv_ok. bool_props. eapply IH; [|done]. lia.
Qed.
Lemma parse_decimal_max w acc s v :
  acc <= u_max w -> parse_decimal w acc s = Some v -> v <= u_max w.
Proof.
  revert acc. induction s as [|c s IH]; intros acc Ha Hp; simpl in Hp; [by simplify_eq|].
  inv_ok. bool_props. by eapply IH.
Qed.
Lemma parse_uint_range w s v : 0 <= w -> parse_uint w s = Some v -> in_u w v.
Proof.
  intros Hw Hp. unfold parse_uint in Hp.
  assert (0 <= u_max w) by (unfold u_max; pose proof (Z.pow_pos_nonneg 2 w); lia).
  repeat case_match; try done; split;
    by (eapply parse_decimal_range + eapply parse_decimal_max; [|done]).
Qed.

Definition is_ascii_digit (c : Z) : bool := (48 <=? c) && (c <=? 57).
(** The number a string of digits denotes, after [acc]. *)
Definition dec_value_from (acc : Z) (s : text) : Z := foldl (fun acc c => acc * 10 + (c - 48)) acc s.
Definition dec_value (s : text) : Z := dec_value_from 0 s.

(** [n] as the digits [Display] prints; [fuel] bounds their number. *)
Fixpoint print_digits (fuel : nat) (n : Z) (acc : text) : text :=
  match fuel with
  | O => acc
  | S fuel =>
      let acc := (48 + n mod 10) :: acc in
      if n <? 10 then acc else print_digits fuel (n / 10) acc
  end.
Definition print_decimal (n : Z) : text := print_digits 20 n [].
(** [{n:08}] with [width] 8. *)
Definition pad_zeros (width : nat) (s : text) : text := replicate (width - length s) 48 ++ s.

(** [s.split(sep)]: [cur] is the current piece, reversed. *)
Fixpoint split_on_from (sep : Z) (cur s : text) : list text :=
  match s with
  | [] => [reverse cur]
  | c :: s' => if c =? sep then reverse cur :: split_on_from sep [] s' else split_on_from sep (c :: cur) s'
  end.
Definition split_on (sep : Z) (s : text) : list text := split_on_from sep [] s.

Abbreviation digits := (Forall (fun c => is_ascii_digit c = true)).

Lemma dec_value_from_app acc s t : dec_value_from acc (s ++ t) = dec_value_from (dec_value_from acc s) t.
Proof. apply foldl_app. Qed.
Lemma dec_value_from_mono acc s : digits s -> 0 <= acc -> acc <= dec_value_from acc s.
Proof.
  intros Hs. revert acc. induction Hs as [|c s Hc Hs IH]; intros acc Ha; [done|].
  unfold is_ascii_digit in Hc. bool_props. cbn. etrans; [|apply IH; lia]. lia.
Qed.
Lemma dec_value_from_shift acc s :
  dec_value_from acc s = acc * 10 ^ Z.of_nat (length s) + dec_value s.
Proof.
  unfold dec_value. cut (forall b, dec_value_from (acc + b) s = acc * 10 ^ Z.of_nat (length s) + dec_value_from b s).
  { intros H. rewrite <- (H 0). f_equal. lia. }
  revert acc. induction s as [|c s IH]; intros acc b; cbn [dec_value_from foldl length]; [cbn; lia|].
  replace ((acc + b) * 10 + (c - 48)) with (acc * 10 + (b * 10 + (c - 48))) by lia.
  fold (dec_value_from (acc * 10 + (b * 10 + (c - 48))) s).
  fold (dec_value_from (b * 10 + (c - 48)) s).
  rewrite IH, Nat2Z.inj_succ, Z.pow_succ_r by lia. lia.
Qed.
Lemma dec_value_bound s : digits s -> 0 <= dec_value s < 10 ^ Z.of_nat (length s).
Proof.
  intros Hs. induction s as [|c s IH] using rev_ind; [done|]. apply Forall_app in Hs as [Hs Hc].
  apply Forall_cons in Hc as [Hc _]. unfold is_ascii_digit in Hc. bool_props.
  unfold dec_value in *. rewrite dec_value_from_app, length_app, Nat2Z.inj_add, Z.pow_add_r by lia.
  specialize (IH Hs). change (10 ^ Z.of_nat (length [c])) with 10.
  change (dec_value_from ?v [c]) with (v * 10 + (c - 48)). lia.
Qed.

Lemma parse_decimal_digits w acc s :
  digits s -> 0 <= acc <= u_max w ->
  parse_decimal w acc s = if dec_value_from acc s <=? u_max w then Some (dec_value_from acc s) else None.
Proof.
  intros Hs. revert acc. induction Hs as [|c s Hc Hs IH]; intros acc Ha.
  { cbn. by rewrite (proj2 (Z.leb_le _ _)) by lia. }
  cbn [parse_decimal]. fold (is_ascii_digit c). rewrite Hc. unfold is_ascii_digit in Hc. bool_props.
  change (dec_value_from acc (c :: s)) with (dec_value_from (acc * 10 + (c - 48)) s).
  destruct (Z.leb_spec (acc * 10 + (c - 48)) (u_max w)); [apply IH; lia|].
  pose proof (dec_value_from_mono (acc * 10 + (c - 48)) s Hs ltac:(lia)).
  by rewrite (proj2 (Z.leb_gt _ _)) by lia.
Qed.
Lemma parse_uint_digits w s :
  0 <= w -> digits s -> s <> [] ->
  parse_uint w s = if dec_value s <=? u_max w then Some (dec_value s) else None.
Proof.
  intros Hw Hs Hne. unfold parse_uint. destruct s as [|c s]; [done|].
  pose proof (proj1 (proj1 (Forall_cons _ _ _) Hs)) as Hc. unfold is_ascii_digit in Hc. bool_props.
  rewrite (proj2 (Z.eqb_neq c 43)) by lia. apply parse_decimal_digits; [done|].
  unfold u_max. pose proof (Z.pow_pos_nonneg 2 w). lia.
Qed.

Lemma print_digits_spec fuel n acc :
  0 <= n < 10 ^ Z.of_nat fuel -> (0 < fuel)%nat ->
  exists s, print_digits fuel n acc = s ++ acc /\ digits s /\ s <> [] /\ dec_value s = n.
Proof.
  revert n acc. induction fuel as [|fuel IH]; intros n acc Hn Hf; [lia|]. cbn [print_digits].
  pose proof (Z.mod_pos_bound n 10 ltac:(lia)).
  assert (Hd : is_ascii_digit (48 + n mod 10) = true) by (unfold is_ascii_digit; lia).
  destruct (Z.ltb_spec n 10) as [Hlt|Hge].
  - exists [48 + n mod 10]. split_and!; [done|by repeat constructor|done|].
    cbn. rewrite Z.mod_small by lia. lia.
  - rewrite Nat2Z.inj_succ, Z.pow_succ_r in Hn by lia.
    assert (Hn' : 0 <= n / 10 < 10 ^ Z.of_nat fuel).
    { split; [apply Z.div_pos; lia|apply Z.div_lt_upper_bound; lia]. }
    assert (0 < fuel)%nat by (destruct fuel; [cbn in Hn'|]; lia).
    destruct (IH (n / 10) ((48 + n mod 10) :: acc) Hn' ltac:(done)) as (s & -> & Hs & Hne & Hv).
    exists (s ++ [48 + n mod 10]). rewrite <- app_assoc. split_and!; [done| |by destruct s|].
    + apply Forall_app. split; [done|]. by repeat constructor.
    + unfold dec_value. rewrite dec_value_from_app. fold (dec_value s). rewrite Hv. cbn.
      pose proof (Z.div_mod n 10). lia.
Qed.
Lemma print_digits_length fuel n acc k :
  0 <= n < 10 ^ Z.of_nat k -> (0 < k)%nat -> (length (print_digits fuel n acc) <= k + length acc)%nat.
Proof.
  revert n acc k. induction fuel as [|fuel IH]; intros n acc k Hn Hk; cbn [print_digits]; [lia|].
  destruct (Z.ltb_spec n 10) as [Hlt|Hge]; [cbn; lia|].
  destruct k as [|k]; [lia|]. rewrite Nat2Z.inj_succ, Z.pow_succ_r in Hn by lia.
  assert (Hn' : 0 <= n / 10 < 10 ^ Z.of_nat k)
    by (split; [apply Z.div_pos; lia|apply Z.div_lt_upper_bound; lia]).
  specialize (IH (n / 10) ((48 + n mod 10) :: acc) k Hn'). cbn in IH.
  destruct k; [cbn in Hn'; lia|]. lia.
Qed.
Lemma print_decimal_spec n :
  in_u 64 n -> digits (print_decimal n) /\ print_decimal n <> [] /\ dec_value (print_decimal n) = n.
Proof.
  intros [H0 H1]. unfold print_decimal.
  destruct (print_digits_spec 20 n []) as (s & -> & ? & ? & ?); [|lia|by rewrite app_nil_r].
  unfold u_max in H1. split; [done|]. change (10 ^ Z.of_nat 20) with (10 ^ 20). lia.
Qed.

Lemma split_on_from_none sep cur s :
  sep ∉ s -> split_on_from sep cur s = [reverse cur ++ s].
Proof.
  revert cur. induction s as [|c s IH]; intros cur Hs; cbn; [by rewrite app_nil_r|].
  apply not_elem_of_cons in Hs as [Hc Hs]. rewrite (proj2 (Z.eqb_neq c sep)) by done.
  rewrite IH by done. by rewrite reverse_cons, <- app_assoc.
Qed.
Lemma split_on_from_cons sep cur s t :
  sep ∉ s -> split_on_from sep cur (s ++ sep :: t) = (reverse cur ++ s) :: split_on sep t.
Proof.
  revert cur. induction s as [|c s IH]; intros cur Hs; cbn; [by rewrite Z.eqb_refl, app_nil_r|].
  apply not_elem_of_cons in Hs as [Hc Hs]. rewrite (proj2 (Z.eqb_neq c sep)) by done.
  rewrite IH by done. by rewrite reverse_cons, <- app_assoc.
Qed.
(** The pieces of a split, put back together. *)
Lemma split_on_from_ne sep cur s : split_on_from sep cur s <> [].
Proof. revert cur. induction s as [|c s IH]; intros cur; cbn; [done|]. by destruct (c =? sep). Qed.
Lemma split_on_from_one sep cur s q :
  split_on_from sep cur s = [q] -> q = reverse cur ++ s /\ sep ∉ s.
Proof.
  revert cur. induction s as [|c s IH]; intros cur Hq; cbn in Hq.
  { simplify_eq. rewrite app_nil_r. split; [done|]. apply not_elem_of_nil. }
  destruct (Z.eqb_spec c sep) as [->|Hc].
  - injection Hq as _ E. by apply split_on_from_ne in E.
  - destruct (IH _ Hq) as [-> Hs]. rewrite reverse_cons, <- app_assoc. split; [done|].
    apply not_elem_of_cons. done.
Qed.
Lemma split_on_two sep s p q :
  split_on sep s = [p; q] -> s = p ++ sep :: q /\ sep ∉ p /\ sep ∉ q.
Proof.
  intros Hs. destruct (decide (sep ∈ s)) as [(a & t & -> & Ha)%list_elem_of_split_l|Hn].
  - unfold split_on at 1 in Hs. rewrite split_on_from_cons in Hs by done. injection Hs as <- Hs.
    apply split_on_from_one in Hs as [-> ?]. done.
  - unfold split_on in Hs. by rewrite split_on_from_none in Hs.
Qed.
