(* ===== verification/ContractV3.v ===== *)
(** * Contract transactions v3 ([contract_v3.rs])

    The envelope of a programmable transaction: its identity, proof metadata,
    resource budget and covenant descriptor, their validation, and the canonical
    bytes from which the envelope hash, the signing digest and the transaction
    id are computed.

    A [[u8; 32]] is a list of bytes; [*_typed] states that it has 32 of them and
    that the integers fit.  Where a writer's only failure is a field longer than
    [u32::MAX], it is an [emit] whose [None] is [CanonicalLengthOverflow]. *)

From S2P Require Import Prelude Encoding Crypto Types.

Definition PROGRAMMABILITY_IDENTITY_VERSION_V1 : Z := 1.
Definition CONTRACT_TRANSACTION_VERSION_V3 : Z := 3.
Definition PROOF_COMMITMENT_METADATA_VERSION_V1 : Z := 1.
Definition RESOURCE_BUDGET_VERSION_V1 : Z := 1.
Definition COVENANT_DESCRIPTOR_VERSION_V1 : Z := 1.
Definition CONTRACT_V3_COMPATIBILITY_SCHEMA_VERSION : Z := 1.
Definition PROOF_SYSTEM_NONE : Z := 0.
Definition PROOF_SYSTEM_EXTERNAL_COMMITMENT_V1 : Z := 1.
Definition MAX_PROGRAMMABILITY_CHAIN_ID_BYTES : Z := 64.
Definition MAX_CONTRACT_NAMESPACE_BYTES : Z := 64.
Definition MAX_COVENANT_WITNESS_BYTES : Z := 64 * 1024.
Definition CONTRACT_V3_MAX_COMPUTE_UNITS : Z := 10000000.
Definition CONTRACT_V3_MAX_READ_BYTES : Z := 16 * 1024 * 1024.
Definition CONTRACT_V3_MAX_WRITE_BYTES : Z := 4 * 1024 * 1024.
Definition CONTRACT_V3_MAX_PROOF_BYTES : Z := 8 * 1024 * 1024.
Definition CONTRACT_V3_MAX_EVENT_BYTES : Z := 1024 * 1024.
Definition PROGRAMMABILITY_IDENTITY_DOMAIN : bytes := str_bytes "PulseDAG:programmability-identity:v1".
Definition CONTRACT_ENVELOPE_DOMAIN : bytes := str_bytes "PulseDAG:contract-envelope:v3".
Definition CONTRACT_SIGNING_DOMAIN : bytes := str_bytes "PulseDAG:contract-signing:v3".
Definition CONTRACT_TXID_DOMAIN : bytes := str_bytes "PulseDAG:contract-txid:v3".
Definition CONTRACT_COMPATIBILITY_DOMAIN : bytes := str_bytes "PulseDAG:contract-compatibility:v1".

Inductive CovenantKindV1 := Timelock | Vault | Multisig | Escrow | AtomicSwap | PaymentChannel.

Inductive ContractV3Error :=
| UnsupportedIdentityVersion (v : Z)
| InvalidApplicationDomain
| EmptyField (field : string)
| FieldTooLong (field : string) (actual max : Z)
| InvalidFieldByte (field : string) (byte : Byte.byte)
| IdentityMismatch
| UnsupportedContractTransactionVersion (v : Z)
| UnsupportedProofMetadataVersion (v : Z)
| UnsupportedProofSystem (v : Z)
| InvalidProofSystemVersion (system actual : Z)
| InvalidProofCommitment (system : Z)
| UnsupportedResourceBudgetVersion (v : Z)
| ResourceLimitExceeded (field : string) (actual max : Z)
| UnsupportedCovenantVersion (v : Z)
| CovenantWitnessBudgetExceeded (actual max : Z)
| EmptyCovenantParametersCommitment
| UnsupportedCovenantKind (kind : CovenantKindV1)
| EmptyCommitment (field : string)
| CanonicalLengthOverflow
| UnsupportedCompatibilitySchemaVersion (v : Z)
| CompatibilityVersionMismatch.

#[global] Instance CovenantKindV1_eq_dec : EqDecision CovenantKindV1.
Proof. solve_decision. Defined.
#[global] Instance ContractV3Error_eq_dec : EqDecision ContractV3Error.
Proof. solve_decision. Defined.

Inductive ProgrammabilityDomain := Mainnet | Testnet | Application (id : Z).
#[global] Instance ProgrammabilityDomain_eq_dec : EqDecision ProgrammabilityDomain.
Proof. solve_decision. Defined.

Record ProgrammabilityActivationIdentity := mkProgrammabilityActivationIdentity {
  pai_version : Z;
  pai_domain : ProgrammabilityDomain;
  pai_chain_id : string;
  pai_genesis_hash : bytes;
  pai_base_protocol_fingerprint : bytes;
}.
Record ProofCommitmentMetadataV1 := mkProofCommitmentMetadataV1 {
  pcm_version : Z;
  pcm_proof_system : Z;
  pcm_proof_system_version : Z;
  pcm_proof_commitment : bytes;
}.
Record ResourceBudgetV1 := mkResourceBudgetV1 {
  rb_version : Z;
  rb_compute_units : Z;
  rb_read_bytes : Z;
  rb_write_bytes : Z;
  rb_proof_bytes : Z;
  rb_event_bytes : Z;
}.
Record CovenantDescriptorV1 := mkCovenantDescriptorV1 {
  cd_version : Z;
  cd_kind : CovenantKindV1;
  cd_parameters_commitment : bytes;
  cd_witness_budget_bytes : Z;
}.
Record ContractTransactionV3Envelope := mkContractTransactionV3Envelope {
  ce_version : Z;
  ce_identity : ProgrammabilityActivationIdentity;
  ce_namespace : string;
  ce_payload_commitment : bytes;
  ce_state_commitment : bytes;
  ce_authorization_commitment : bytes;
  ce_proof : ProofCommitmentMetadataV1;
  ce_resources : ResourceBudgetV1;
  ce_nonce : Z;
  ce_replay_nonce : Z;
  ce_covenant : option CovenantDescriptorV1;
}.
Record ContractV3CompatibilityMetadataV1 := mkContractV3CompatibilityMetadataV1 {
  cm_schema_version : Z;
  cm_identity_fingerprint : bytes;
  cm_contract_transaction_version : Z;
  cm_proof_metadata_version : Z;
  cm_resource_budget_version : Z;
  cm_covenant_descriptor_version : Z;
}.

#[global] Instance identity_eq_dec : EqDecision ProgrammabilityActivationIdentity.
Proof. solve_decision. Defined.
#[global] Instance envelope_eq_dec : EqDecision ContractTransactionV3Envelope.
Proof.
  assert (EqDecision ProofCommitmentMetadataV1) by solve_decision.
  assert (EqDecision ResourceBudgetV1) by solve_decision.
  assert (EqDecision CovenantDescriptorV1) by solve_decision.
  solve_decision.
Defined.

(** ** Validation *)

Definition all_zero (b : bytes) : bool := forallb (fun x => Byte.eqb x Byte.x00) b.
Definition ensure_nonzero_commitment (field : string) (value : bytes) : result ContractV3Error unit :=
  if all_zero value then Err (EmptyCommitment field) else Ok ().
Definition ensure_resource_limit (field : string) (actual max : Z) : result ContractV3Error unit :=
  if max <? actual then Err (ResourceLimitExceeded field actual max) else Ok ().
Definition validate_text_length (value field : string) (max : Z) : result ContractV3Error unit :=
  let len := Z.of_nat (length (str_bytes value)) in
  if len =? 0 then Err (EmptyField field)
  else if max <? len then Err (FieldTooLong field len max)
  else Ok ().

(** [lo..=hi] on bytes. *)
Definition byte_in (lo hi : string) (b : Byte.byte) : bool :=
  match str_bytes lo, str_bytes hi with
  | [l], [h] => (Z_of_byte l <=? Z_of_byte b) && (Z_of_byte b <=? Z_of_byte h)
  | _, _ => false
  end.
Definition byte_one_of (chars : string) (b : Byte.byte) : bool :=
  existsb (Byte.eqb b) (str_bytes chars).

Definition validate_chain_id (value : string) : result ContractV3Error unit :=
  check validate_text_length value "programmability chain_id" MAX_PROGRAMMABILITY_CHAIN_ID_BYTES in
  match List.find (fun b => negb (byte_in "a" "z" b || byte_in "A" "Z" b || byte_in "0" "9" b
                                  || byte_one_of "-_.:" b)) (str_bytes value) with
  | Some b => Err (InvalidFieldByte "programmability chain_id" b)
  | None => Ok ()
  end.
Definition validate_namespace (value : string) : result ContractV3Error unit :=
  check validate_text_length value "contract namespace" MAX_CONTRACT_NAMESPACE_BYTES in
  match List.find (fun b => negb (byte_in "a" "z" b || byte_in "0" "9" b
                                  || byte_one_of "-_./:" b)) (str_bytes value) with
  | Some b => Err (InvalidFieldByte "contract namespace" b)
  | None => Ok ()
  end.

Definition ProgrammabilityDomain_validate (d : ProgrammabilityDomain) : result ContractV3Error unit :=
  match d with
  | Application 0 => Err InvalidApplicationDomain
  | _ => Ok ()
  end.
Definition identity_validate (i : ProgrammabilityActivationIdentity) : result ContractV3Error unit :=
  if negb (pai_version i =? PROGRAMMABILITY_IDENTITY_VERSION_V1)
  then Err (UnsupportedIdentityVersion (pai_version i)) else
  check ProgrammabilityDomain_validate (pai_domain i) in
  check validate_chain_id (pai_chain_id i) in
  check ensure_nonzero_commitment "genesis_hash" (pai_genesis_hash i) in
  ensure_nonzero_commitment "base_protocol_fingerprint" (pai_base_protocol_fingerprint i).
Definition identity_validate_against (i expected : ProgrammabilityActivationIdentity)
  : result ContractV3Error unit :=
  check identity_validate i in
  check identity_validate expected in
  if bool_decide (i <> expected) then Err IdentityMismatch else Ok ().
Definition proof_validate (p : ProofCommitmentMetadataV1) : result ContractV3Error unit :=
  if negb (pcm_version p =? PROOF_COMMITMENT_METADATA_VERSION_V1)
  then Err (UnsupportedProofMetadataVersion (pcm_version p))
  else if pcm_proof_system p =? PROOF_SYSTEM_NONE then
    if negb (pcm_proof_system_version p =? 0)
    then Err (InvalidProofSystemVersion (pcm_proof_system p) (pcm_proof_system_version p))
    else if negb (all_zero (pcm_proof_commitment p))
    then Err (InvalidProofCommitment (pcm_proof_system p)) else Ok ()
  else if pcm_proof_system p =? PROOF_SYSTEM_EXTERNAL_COMMITMENT_V1 then
    if negb (pcm_proof_system_version p =? 1)
    then Err (InvalidProofSystemVersion (pcm_proof_system p) (pcm_proof_system_version p))
    else if all_zero (pcm_proof_commitment p)
    then Err (InvalidProofCommitment (pcm_proof_system p)) else Ok ()
  else Err (UnsupportedProofSystem (pcm_proof_system p)).
Definition budget_validate (r : ResourceBudgetV1) : result ContractV3Error unit :=
  if negb (rb_version r =? RESOURCE_BUDGET_VERSION_V1)
  then Err (UnsupportedResourceBudgetVersion (rb_version r)) else
  check ensure_resource_limit "compute_units" (rb_compute_units r) CONTRACT_V3_MAX_COMPUTE_UNITS in
  check ensure_resource_limit "read_bytes" (rb_read_bytes r) CONTRACT_V3_MAX_READ_BYTES in
  check ensure_resource_limit "write_bytes" (rb_write_bytes r) CONTRACT_V3_MAX_WRITE_BYTES in
  check ensure_resource_limit "proof_bytes" (rb_proof_bytes r) CONTRACT_V3_MAX_PROOF_BYTES in
  ensure_resource_limit "event_bytes" (rb_event_bytes r) CONTRACT_V3_MAX_EVENT_BYTES.
Definition covenant_validate (c : CovenantDescriptorV1) : result ContractV3Error unit :=
  if negb (cd_version c =? COVENANT_DESCRIPTOR_VERSION_V1)
  then Err (UnsupportedCovenantVersion (cd_version c))
  else if MAX_COVENANT_WITNESS_BYTES <? cd_witness_budget_bytes c
  then Err (CovenantWitnessBudgetExceeded (cd_witness_budget_bytes c) MAX_COVENANT_WITNESS_BYTES)
  else if all_zero (cd_parameters_commitment c)
  then Err EmptyCovenantParametersCommitment
  else Ok ().
Definition reject_unsupported_execution (c : CovenantDescriptorV1) : result ContractV3Error unit :=
  check covenant_validate c in Err (UnsupportedCovenantKind (cd_kind c)).
Definition envelope_validate (e : ContractTransactionV3Envelope) : result ContractV3Error unit :=
  if negb (ce_version e =? CONTRACT_TRANSACTION_VERSION_V3)
  then Err (UnsupportedContractTransactionVersion (ce_version e)) else
  check identity_validate (ce_identity e) in
  check validate_namespace (ce_namespace e) in
  check ensure_nonzero_commitment "payload_commitment" (ce_payload_commitment e) in
  check ensure_nonzero_commitment "state_commitment" (ce_state_commitment e) in
  check ensure_nonzero_commitment "authorization_commitment" (ce_authorization_commitment e) in
  check proof_validate (ce_proof e) in
  check budget_validate (ce_resources e) in
  match ce_covenant e with
  | Some covenant => covenant_validate covenant
  | None => Ok ()
  end.
Definition validate_identity (e : ContractTransactionV3Envelope)
  (expected : ProgrammabilityActivationIdentity) : result ContractV3Error unit :=
  check envelope_validate e in
  identity_validate_against (ce_identity e) expected.

(** ** Canonical bytes *)

Definition canonical_id (k : CovenantKindV1) : Z :=
  match k with
  | Timelock => 1 | Vault => 2 | Multisig => 3 | Escrow => 4 | AtomicSwap => 5
  | PaymentChannel => 6
  end.
(** [out.extend_from_slice(b)]. *)
Definition raw (b : bytes) : option bytes := Some b.
Definition encode_domain (d : ProgrammabilityDomain) : option bytes :=
  match d with
  | Mainnet => fixed 1 1
  | Testnet => fixed 1 2
  | Application id => emit [fixed 1 3; fixed 4 id]
  end.
Definition encode_covenant (c : option CovenantDescriptorV1) : option bytes :=
  match c with
  | None => fixed 1 0
  | Some c =>
      emit [fixed 1 1; fixed 2 (cd_version c); fixed 2 (canonical_id (cd_kind c));
            raw (cd_parameters_commitment c); fixed 4 (cd_witness_budget_bytes c)]
  end.
Definition encode_len_prefixed (b : bytes) : option bytes := encode_len_prefixed_bytes b.

Definition canonical_programmability_identity_bytes_v1 (i : ProgrammabilityActivationIdentity)
  : result ContractV3Error bytes :=
  check identity_validate i in
  ok_or (emit [encode_len_prefixed PROGRAMMABILITY_IDENTITY_DOMAIN;
               fixed 2 (pai_version i);
               encode_domain (pai_domain i);
               encode_len_prefixed (str_bytes (pai_chain_id i));
               raw (pai_genesis_hash i);
               raw (pai_base_protocol_fingerprint i)])
        CanonicalLengthOverflow.
Definition canonical_contract_envelope_bytes_v3 (e : ContractTransactionV3Envelope)
  : result ContractV3Error bytes :=
  check envelope_validate e in
  let? identity_bytes := canonical_programmability_identity_bytes_v1 (ce_identity e) in
  ok_or (emit [encode_len_prefixed CONTRACT_ENVELOPE_DOMAIN;
               fixed 2 (ce_version e);
               encode_len_prefixed identity_bytes;
               encode_len_prefixed (str_bytes (ce_namespace e));
               raw (ce_payload_commitment e);
               raw (ce_state_commitment e);
               raw (ce_authorization_commitment e);
               fixed 2 (pcm_version (ce_proof e));
               fixed 2 (pcm_proof_system (ce_proof e));
               fixed 2 (pcm_proof_system_version (ce_proof e));
               raw (pcm_proof_commitment (ce_proof e));
               fixed 2 (rb_version (ce_resources e));
               fixed 8 (rb_compute_units (ce_resources e));
               fixed 8 (rb_read_bytes (ce_resources e));
               fixed 8 (rb_write_bytes (ce_resources e));
               fixed 4 (rb_proof_bytes (ce_resources e));
               fixed 4 (rb_event_bytes (ce_resources e));
               fixed 8 (ce_nonce e);
               fixed 8 (ce_replay_nonce e);
               encode_covenant (ce_covenant e)])
        CanonicalLengthOverflow.

Section digests.
Context `{Crypto}.

Definition identity_fingerprint (i : ProgrammabilityActivationIdentity)
  : result ContractV3Error bytes :=
  let? b := canonical_programmability_identity_bytes_v1 i in Ok (sha256 b).
Definition canonical_contract_signing_preimage_v3 (e : ContractTransactionV3Envelope)
  : result ContractV3Error bytes :=
  let? envelope_bytes := canonical_contract_envelope_bytes_v3 e in
  let? fingerprint := identity_fingerprint (ce_identity e) in
  ok_or (emit [encode_len_prefixed CONTRACT_SIGNING_DOMAIN;
               raw fingerprint;
               encode_len_prefixed envelope_bytes])
        CanonicalLengthOverflow.
Definition canonical_contract_txid_preimage_v3 (e : ContractTransactionV3Envelope)
  : result ContractV3Error bytes :=
  let? envelope_bytes := canonical_contract_envelope_bytes_v3 e in
  ok_or (emit [encode_len_prefixed CONTRACT_TXID_DOMAIN; encode_len_prefixed envelope_bytes])
        CanonicalLengthOverflow.

Definition contract_envelope_hash_v3 (e : ContractTransactionV3Envelope)
  : result ContractV3Error bytes :=
  let? b := canonical_contract_envelope_bytes_v3 e in Ok (sha256 b).
Definition contract_signing_digest_v3 (e : ContractTransactionV3Envelope)
  : result ContractV3Error bytes :=
  let? b := canonical_contract_signing_preimage_v3 e in Ok (sha256 b).
Definition compute_contract_txid_v3 (e : ContractTransactionV3Envelope)
  : result ContractV3Error bytes :=
  let? b := canonical_contract_txid_preimage_v3 e in Ok (sha256 b).

(** ** Compatibility metadata *)

Definition from_identity (i : ProgrammabilityActivationIdentity)
  : result ContractV3Error ContractV3CompatibilityMetadataV1 :=
  let? fingerprint := identity_fingerprint i in
  Ok (mkContractV3CompatibilityMetadataV1 CONTRACT_V3_COMPATIBILITY_SCHEMA_VERSION fingerprint
        CONTRACT_TRANSACTION_VERSION_V3 PROOF_COMMITMENT_METADATA_VERSION_V1
        RESOURCE_BUDGET_VERSION_V1 COVENANT_DESCRIPTOR_VERSION_V1).
Definition metadata_validate (m : ContractV3CompatibilityMetadataV1) : result ContractV3Error unit :=
  if negb (cm_schema_version m =? CONTRACT_V3_COMPATIBILITY_SCHEMA_VERSION)
  then Err (UnsupportedCompatibilitySchemaVersion (cm_schema_version m))
  else if negb (cm_contract_transaction_version m =? CONTRACT_TRANSACTION_VERSION_V3)
       || negb (cm_proof_metadata_version m =? PROOF_COMMITMENT_METADATA_VERSION_V1)
       || negb (cm_resource_budget_version m =? RESOURCE_BUDGET_VERSION_V1)
       || negb (cm_covenant_descriptor_version m =? COVENANT_DESCRIPTOR_VERSION_V1)
  then Err CompatibilityVersionMismatch
  else ensure_nonzero_commitment "identity_fingerprint" (cm_identity_fingerprint m).
Definition canonical_contract_v3_compatibility_metadata_bytes_v1
  (m : ContractV3CompatibilityMetadataV1) : result ContractV3Error bytes :=
  check metadata_validate m in
  ok_or (emit [encode_len_prefixed CONTRACT_COMPATIBILITY_DOMAIN;
               fixed 2 (cm_schema_version m);
               raw (cm_identity_fingerprint m);
               fixed 2 (cm_contract_transaction_version m);
               fixed 2 (cm_proof_metadata_version m);
               fixed 2 (cm_resource_budget_version m);
               fixed 2 (cm_covenant_descriptor_version m)])
        CanonicalLengthOverflow.
Definition metadata_fingerprint (m : ContractV3CompatibilityMetadataV1)
  : result ContractV3Error bytes :=
  let? b := canonical_contract_v3_compatibility_metadata_bytes_v1 m in Ok (sha256 b).
End digests.

(** ** The canonical bytes determine the envelope *)

Definition hash32 (b : bytes) : Prop := length b = 32%nat.

Definition domain_typed (d : ProgrammabilityDomain) : Prop :=
  match d with Application id => in_u 32 id | _ => True end.
Definition identity_typed (i : ProgrammabilityActivationIdentity) : Prop :=
  in_u 16 (pai_version i) /\ domain_typed (pai_domain i) /\ hash32 (pai_genesis_hash i) /\
  hash32 (pai_base_protocol_fingerprint i).
Definition proof_typed (p : ProofCommitmentMetadataV1) : Prop :=
  in_u 16 (pcm_version p) /\ in_u 16 (pcm_proof_system p) /\
  in_u 16 (pcm_proof_system_version p) /\ hash32 (pcm_proof_commitment p).
Definition budget_typed (r : ResourceBudgetV1) : Prop :=
  in_u 16 (rb_version r) /\ in_u 64 (rb_compute_units r) /\ in_u 64 (rb_read_bytes r) /\
  in_u 64 (rb_write_bytes r) /\ in_u 32 (rb_proof_bytes r) /\ in_u 32 (rb_event_bytes r).
Definition covenant_typed (c : option CovenantDescriptorV1) : Prop :=
  match c with
  | Some c => in_u 16 (cd_version c) /\ hash32 (cd_parameters_commitment c) /\
              in_u 32 (cd_witness_budget_bytes c)
  | None => True
  end.
Definition envelope_typed (e : ContractTransactionV3Envelope) : Prop :=
  in_u 16 (ce_version e) /\ identity_typed (ce_identity e) /\
  hash32 (ce_payload_commitment e) /\ hash32 (ce_state_commitment e) /\
  hash32 (ce_authorization_commitment e) /\ proof_typed (ce_proof e) /\
  budget_typed (ce_resources e) /\ in_u 64 (ce_nonce e) /\ in_u 64 (ce_replay_nonce e) /\
  covenant_typed (ce_covenant e).

(** The all-zero values the validators refuse. *)
Lemma all_zero_replicate b : all_zero b = true -> b = replicate (length b) Byte.x00.
Proof.
  unfold all_zero. induction b as [|x b IH]; [done|]. cbn. rewrite andb_true_iff.
  intros [E%Byte.byte_dec_bl ?]. subst. f_equal. by apply IH.
Qed.
Lemma all_zero_zeros n : all_zero (replicate n Byte.x00) = true.
Proof. induction n; [done|]. by cbn. Qed.

#[global] Instance hash32_dec b : Decision (hash32 b).
Proof. unfold hash32. apply _. Defined.
#[global] Instance domain_typed_dec d : Decision (domain_typed d).
Proof. destruct d; simpl; apply _. Defined.
#[global] Instance covenant_typed_dec c : Decision (covenant_typed c).
Proof. destruct c; simpl; apply _. Defined.
#[global] Instance envelope_typed_dec e : Decision (envelope_typed e).
Proof. unfold envelope_typed, identity_typed, proof_typed, budget_typed. apply _. Defined.
#[global] Typeclasses Opaque hash32 domain_typed covenant_typed envelope_typed.

#[export] Hint Extern 1 (0 <= _ < 256 ^ Z.of_nat 2) =>
  apply (in_u_fixed 16); [reflexivity|assumption] : core.
#[export] Hint Extern 1 (0 <= _ < 256 ^ Z.of_nat 1) => change (256 ^ Z.of_nat 1) with 256; lia : core.

#[global] Instance raw_delimited n : Delimited (fun b => length b = n) raw.
Proof.
  intros a b x y r s Ha Hb [= <-] [= <-] Heq. apply app_inj_1 in Heq; [done|lia].
Qed.

(** Read the next field of the two encodings of the context, whatever it is. *)
Ltac peel_field :=
  match goal with
  | H : emit (encode_len_prefixed _ :: _) = Some _ |- _ =>
      peel (fun _ : bytes => True) encode_len_prefixed_bytes
  | H : emit (raw _ :: _) = Some _ |- _ => peel (fun b : bytes => length b = 32%nat) raw
  | H : emit (fixed ?n _ :: _) = Some _ |- _ =>
      peel (fun x => 0 <= x < 256 ^ Z.of_nat n) (fixed n)
  end.

(** Two tagged alternatives never agree. *)
Lemma tag_differs t1 t2 l1 l2 z1 z2 r s :
  0 <= t1 < 256 -> 0 <= t2 < 256 ->
  emit (fixed 1 t1 :: l1) = Some z1 -> emit (fixed 1 t2 :: l2) = Some z2 ->
  z1 ++ r = z2 ++ s -> t1 = t2.
Proof. intros ? ? H1 H2 Heq. by peel_field. Qed.
Lemma fixed_emit n x z : fixed n x = Some z -> emit [fixed n x] = Some z.
Proof. simpl. intros [= <-]. by rewrite app_nil_r. Qed.

(** Both encodings start with a tag: either the tags agree or there is nothing
    to show. *)
Ltac split_tags H1 H2 Heq :=
  repeat match goal with H : fixed _ _ = Some _ |- _ => apply fixed_emit in H end;
  try (exfalso; pose proof (fun B1 B2 => tag_differs _ _ _ _ _ _ _ _ B1 B2 H1 H2 Heq); lia).

#[global] Instance encode_domain_delimited : Delimited domain_typed encode_domain.
Proof.
  intros [| |a] [| |b] x y r s Ha Hb H1 H2 Heq; cbn [encode_domain domain_typed] in *;
    split_tags H1 H2 Heq; repeat peel_field; by simplify_eq/=.
Qed.

Lemma canonical_id_inj k1 k2 : canonical_id k1 = canonical_id k2 -> k1 = k2.
Proof. by destruct k1, k2. Qed.
Lemma canonical_id_range k : in_u 16 (canonical_id k).
Proof. destruct k; by_decide. Qed.

#[global] Instance encode_covenant_delimited : Delimited covenant_typed encode_covenant.
Proof.
  intros [a|] [b|] x y r s Ha Hb H1 H2 Heq; cbn [encode_covenant covenant_typed] in *;
    split_tags H1 H2 Heq.
  - destruct Ha as (?&?&?), Hb as (?&?&?). unfold hash32 in *.
    pose proof (canonical_id_range (cd_kind a)). pose proof (canonical_id_range (cd_kind b)).
    repeat peel_field. destruct a as [? ka], b as [? kb]; simpl in *; simplify_eq.
    by rewrite (canonical_id_inj ka kb).
  - by peel_field; simplify_eq/=.
Qed.

(** The identity writer implements the [Delimited] interface. *)
Lemma identity_bytes_delimited i1 i2 x y r s :
  identity_typed i1 -> identity_typed i2 ->
  canonical_programmability_identity_bytes_v1 i1 = Ok x ->
  canonical_programmability_identity_bytes_v1 i2 = Ok y ->
  x ++ r = y ++ s -> i1 = i2 /\ r = s.
Proof.
  unfold identity_typed, hash32. intros (?&?&?&?) (?&?&?&?) Hx Hy Heq.
  unfold canonical_programmability_identity_bytes_v1 in *. inv_ok.
  do 2 peel_field. peel domain_typed encode_domain. repeat peel_field.
  destruct i1, i2; simpl in *; simplify_eq. split; [|done]. f_equal; by apply (inj str_bytes).
Qed.

(** So does the envelope writer. *)
Lemma envelope_bytes_delimited e1 e2 x y r s :
  envelope_typed e1 -> envelope_typed e2 ->
  canonical_contract_envelope_bytes_v3 e1 = Ok x ->
  canonical_contract_envelope_bytes_v3 e2 = Ok y ->
  x ++ r = y ++ s -> e1 = e2 /\ r = s.
Proof.
  unfold envelope_typed, proof_typed, budget_typed, hash32.
  intros (?&?&?&?&?&(?&?&?&?)&(?&?&?&?&?&?)&?&?&?) (?&?&?&?&?&(?&?&?&?)&(?&?&?&?&?&?)&?&?&?).
  intros Hx Hy Heq. unfold canonical_contract_envelope_bytes_v3 in *. inv_ok.
  repeat peel_field. peel covenant_typed encode_covenant.
  match goal with
  | A : canonical_programmability_identity_bytes_v1 _ = Ok ?b,
    B : canonical_programmability_identity_bytes_v1 _ = Ok ?b', E : ?b = ?b' |- _ =>
      subst b'; destruct (fun T1 T2 => identity_bytes_delimited _ _ b b [] [] T1 T2 A B eq_refl); [done..|]
  end.
  destruct e1 as [??????[][]], e2 as [??????[][]]; simpl in *; simplify_eq.
  split; [|done]. f_equal; by apply (inj str_bytes).
Qed.

(** ** Bounded lengths: a validated envelope can always be serialized *)

Definition at_most (n : Z) (o : option bytes) : Prop :=
  exists x, o = Some x /\ Z.of_nat (length x) <= n.

Lemma emit_at_most ns l : Forall2 at_most ns l -> at_most (foldr Z.add 0 ns) (emit l).
Proof.
  induction 1 as [|n o ns l (x & -> & Hx) _ (z & Hz & Hlen)]; simpl; [by exists []|].
  rewrite Hz. eexists; split; [done|]. rewrite length_app. lia.
Qed.
Lemma at_most_fixed n x : at_most (Z.of_nat n) (fixed n x).
Proof. eexists; split; [done|]. by rewrite length_le_bytes. Qed.
Lemma at_most_raw b : hash32 b -> at_most 32 (raw b).
Proof. intros Hb. eexists; split; [done|]. unfold hash32 in Hb. lia. Qed.
Lemma at_most_len_prefixed n b :
  Z.of_nat (length b) <= n -> n <= u32_max -> at_most (4 + n) (encode_len_prefixed b).
Proof.
  intros Hb Hn. unfold encode_len_prefixed, encode_len_prefixed_bytes.
  rewrite (proj2 (Z.leb_le _ _)) by lia. eexists; split; [done|].
  rewrite length_app. unfold u32_le. rewrite length_le_bytes. lia.
Qed.
Lemma at_most_domain d : at_most 5 (encode_domain d).
Proof.
  destruct d; (eexists; split; [done|]); rewrite ?length_app, ?length_le_bytes; simpl; lia.
Qed.
Lemma at_most_covenant c : covenant_typed c -> at_most 41 (encode_covenant c).
Proof.
  destruct c as [c|]; cbn [encode_covenant covenant_typed].
  - intros (_ & Hc & _). apply (emit_at_most [1; 2; 2; 32; 4]).
    repeat first [apply at_most_fixed | by apply at_most_raw | constructor].
  - intros _. eexists; split; [done|]. simpl. lia.
Qed.
#[local] Hint Resolve at_most_raw at_most_domain at_most_covenant : core.

Lemma validate_text_length_Ok v f m :
  validate_text_length v f m = Ok () -> Z.of_nat (length (str_bytes v)) <= m.
Proof. unfold validate_text_length. intros ?. inv_ok. bool_props. lia. Qed.
Lemma identity_chain_id_bound i :
  identity_validate i = Ok () -> Z.of_nat (length (str_bytes (pai_chain_id i))) <= 64.
Proof.
  unfold identity_validate, validate_chain_id. intros ?. inv_ok.
  repeat match goal with u : unit |- _ => destruct u end. by eapply validate_text_length_Ok.
Qed.
Lemma envelope_validate_Ok e :
  envelope_validate e = Ok () ->
  identity_validate (ce_identity e) = Ok () /\
  Z.of_nat (length (str_bytes (ce_namespace e))) <= 64.
Proof.
  unfold envelope_validate, validate_namespace. intros ?. inv_ok;
  repeat match goal with u : unit |- _ => destruct u end; (split; [done|]); by eapply validate_text_length_Ok.
Qed.

(** Discharge the field bounds of an [emit]. *)
Ltac solve_at_most :=
  repeat match goal with
  | |- Forall2 _ _ [] => apply Forall2_nil_2
  | |- Forall2 _ _ _ => apply Forall2_cons_2
  | |- at_most _ (fixed _ _) => apply at_most_fixed
  | |- at_most _ (encode_len_prefixed _) => apply at_most_len_prefixed; [|done]
  | |- at_most _ _ => by auto
  end.

Lemma identity_bytes_total i :
  identity_typed i -> identity_validate i = Ok () ->
  exists b, canonical_programmability_identity_bytes_v1 i = Ok b /\ Z.of_nat (length b) <= 179.
Proof.
  intros (_ & _ & ? & ?) Hv. unfold canonical_programmability_identity_bytes_v1. rewrite Hv.
  match goal with |- context [emit ?l] =>
    destruct (emit_at_most [4 + 36; 2; 5; 4 + 64; 32; 32] l) as (b & -> & Hb) end.
  { solve_at_most; [by_decide|by apply identity_chain_id_bound]. }
  by exists b.
Qed.
Lemma envelope_bytes_total e :
  envelope_typed e -> envelope_validate e = Ok () ->
  exists b, canonical_contract_envelope_bytes_v3 e = Ok b /\ Z.of_nat (length b) <= 519.
Proof.
  intros (_ & Hi & ? & ? & ? & (_ & _ & _ & ?) & _ & _ & _ & ?) Hv.
  destruct (envelope_validate_Ok e Hv) as [Hvi Hns].
  destruct (identity_bytes_total _ Hi Hvi) as (ib & Hib & Hlen).
  unfold canonical_contract_envelope_bytes_v3. rewrite Hv, Hib.
  match goal with |- context [emit ?l] =>
    destruct (emit_at_most [4 + 29; 2; 4 + 179; 4 + 64; 32; 32; 32; 2; 2; 2; 32; 2; 8; 8; 8; 4; 4;
                            8; 8; 41] l) as (b & -> & Hb) end.
  { solve_at_most; [by_decide|done|done]. }
  exists b. split; [done|]. simpl in Hb. lia.
Qed.

(** ** The three digests *)

Inductive ContractDigestKind := EnvelopeHash | SigningDigest | ContractTxid.

Section digest_theorems.
Context `{CryptoLaws}.

Definition contract_preimage (k : ContractDigestKind) (e : ContractTransactionV3Envelope) :=
  match k with
  | EnvelopeHash => canonical_contract_envelope_bytes_v3 e
  | SigningDigest => canonical_contract_signing_preimage_v3 e
  | ContractTxid => canonical_contract_txid_preimage_v3 e
  end.
Definition contract_digest (k : ContractDigestKind) (e : ContractTransactionV3Envelope) :=
  match k with
  | EnvelopeHash => contract_envelope_hash_v3 e
  | SigningDigest => contract_signing_digest_v3 e
  | ContractTxid => compute_contract_txid_v3 e
  end.

Lemma contract_digest_preimage k e :
  contract_digest k e = let? p := contract_preimage k e in Ok (sha256 p).
Proof. by destruct k. Qed.

(** Every preimage starts with the framed name of its kind. *)
Definition digest_domain (k : ContractDigestKind) : bytes :=
  match k with
  | EnvelopeHash => CONTRACT_ENVELOPE_DOMAIN
  | SigningDigest => CONTRACT_SIGNING_DOMAIN
  | ContractTxid => CONTRACT_TXID_DOMAIN
  end.
Lemma contract_preimage_domain k e p :
  contract_preimage k e = Ok p -> exists l, emit (encode_len_prefixed (digest_domain k) :: l) = Some p.
Proof.
  destruct k; cbn [contract_preimage digest_domain]; unfold canonical_contract_envelope_bytes_v3,
    canonical_contract_signing_preimage_v3, canonical_contract_txid_preimage_v3; intros ?; inv_ok;
    by eexists.
Qed.
Lemma digest_domain_inj k1 k2 : digest_domain k1 = digest_domain k2 -> k1 = k2.
Proof. by destruct k1, k2. Qed.

Lemma contract_preimage_kind k1 k2 e1 e2 p :
  contract_preimage k1 e1 = Ok p -> contract_preimage k2 e2 = Ok p -> k1 = k2.
Proof.
  intros (l1 & Hp1)%contract_preimage_domain (l2 & Hp2)%contract_preimage_domain.
  apply digest_domain_inj.
  destruct (emit_peel (fun _ => True) encode_len_prefixed_bytes _ _ _ _ _ _ [] [] I I Hp1 Hp2 eq_refl).
  done.
Qed.
Lemma identity_fingerprint_length i f : identity_fingerprint i = Ok f -> length f = 32%nat.
Proof. unfold identity_fingerprint. intros ?. inv_ok. apply sha256_length. Qed.

Lemma contract_preimage_inj k e1 e2 p :
  envelope_typed e1 -> envelope_typed e2 ->
  contract_preimage k e1 = Ok p -> contract_preimage k e2 = Ok p -> e1 = e2.
Proof.
  intros T1 T2 Hx Hy.
  assert (Hbytes : exists b, canonical_contract_envelope_bytes_v3 e1 = Ok b /\
                             canonical_contract_envelope_bytes_v3 e2 = Ok b).
  { destruct k; simpl in Hx, Hy; [eauto| |];
      unfold canonical_contract_signing_preimage_v3, canonical_contract_txid_preimage_v3 in *;
      inv_ok; assert (Heq : p ++ [] = p ++ []) by done;
      repeat match goal with F : identity_fingerprint _ = Ok _ |- _ =>
        apply identity_fingerprint_length in F end.
    - peel (fun _ : bytes => True) encode_len_prefixed_bytes.
      peel (fun b : bytes => length b = 32%nat) raw.
      peel (fun _ : bytes => True) encode_len_prefixed_bytes. subst. eauto.
    - do 2 peel (fun _ : bytes => True) encode_len_prefixed_bytes. subst. eauto. }
  destruct Hbytes as (b & H1 & H2).
  by destruct (envelope_bytes_delimited e1 e2 b b [] []).
Qed.

(** C26: the envelope hash, the signing digest and the transaction id of a
    contract transaction each determine the whole envelope, and no digest of one
    kind equals a digest of another kind: as long as the two serialized messages
    do not collide under SHA-256, equal digests mean the same kind of digest of
    the same envelope (identity, namespace, commitments, proof metadata, budget,
    nonces and covenant). *)
Theorem contract_digest_binding k1 k2 e1 e2 p1 p2 d :
  envelope_typed e1 -> envelope_typed e2 ->
  contract_preimage k1 e1 = Ok p1 -> contract_preimage k2 e2 = Ok p2 ->
  collision_free [p1; p2] ->
  contract_digest k1 e1 = Ok d -> contract_digest k2 e2 = Ok d ->
  k1 = k2 /\ e1 = e2.
Proof.
  intros T1 T2 Hp1 Hp2 Hcf. rewrite !contract_digest_preimage, Hp1, Hp2.
  intros [= <-] [= Heq]. apply Hcf in Heq; [|set_solver..]. subst p2.
  pose proof (contract_preimage_kind _ _ _ _ _ Hp1 Hp2) as <-.
  split; [done|]. by eapply contract_preimage_inj.
Qed.

(** A digest of an envelope exists exactly when the envelope validates, and
    fails with the validation's error otherwise: [CanonicalLengthOverflow] is
    never the result. *)
Lemma contract_digest_validated k e :
  envelope_typed e ->
  match envelope_validate e with
  | Ok _ => exists d, contract_digest k e = Ok d /\ length d = 32%nat
  | Err err => contract_digest k e = Err err
  end.
Proof.
  intros Ht. rewrite contract_digest_preimage. destruct (envelope_validate e) as [[]|err] eqn:Hv.
  - destruct (envelope_bytes_total e Ht Hv) as (b & Hb & Hlen).
    destruct (envelope_validate_Ok e Hv) as [Hvi _]. destruct Ht as (_ & Ti & _).
    destruct (identity_bytes_total _ Ti Hvi) as (ib & Hib & _).
    destruct (at_most_len_prefixed 519 b Hlen ltac:(done)) as (fb & Hfb & _).
    destruct k; simpl; unfold canonical_contract_signing_preimage_v3,
      canonical_contract_txid_preimage_v3, identity_fingerprint; rewrite ?Hib, Hb, ?Hfb; simpl;
      eauto using sha256_length.
  - destruct k; simpl; unfold canonical_contract_signing_preimage_v3,
      canonical_contract_txid_preimage_v3, canonical_contract_envelope_bytes_v3; by rewrite Hv.
Qed.
End digest_theorems.

(** ** Witnesses *)

Definition sample_identity : ProgrammabilityActivationIdentity :=
  mkProgrammabilityActivationIdentity 1 (Application 7) "pulsedag-testnet-v3"
    (replicate 32 Byte.x11) (replicate 32 Byte.x22).
Definition sample_envelope (nonce : Z) : ContractTransactionV3Envelope :=
  mkContractTransactionV3Envelope 3 sample_identity "pulse/app"
    (replicate 32 Byte.x33) (replicate 32 Byte.x44) (replicate 32 Byte.x55)
    (mkProofCommitmentMetadataV1 1 0 0 (replicate 32 Byte.x00))
    (mkResourceBudgetV1 1 1000 2000 3000 4000 5000) nonce 9
    (Some (mkCovenantDescriptorV1 1 Vault (replicate 32 Byte.x66) 100)).

Lemma contract_digest_binding_witness :
  @contract_digest model_crypto SigningDigest (sample_envelope 1) <>
  @contract_digest model_crypto SigningDigest (sample_envelope 2).
Proof.
  intros Heq.
  destruct (@contract_digest model_crypto SigningDigest (sample_envelope 1)) as [d|] eqn:Hd;
    [|vm_compute in Hd; discriminate Hd].
  enough (sample_envelope 1 = sample_envelope 2) as Habs by discriminate Habs.
  refine (proj2 (@contract_digest_binding model_crypto model_crypto_laws SigningDigest SigningDigest _ _
    (match @contract_preimage model_crypto SigningDigest (sample_envelope 1) with Ok b => b | _ => [] end)
    (match @contract_preimage model_crypto SigningDigest (sample_envelope 2) with Ok b => b | _ => [] end)
    d _ _ _ _ _ Hd (eq_sym Heq)));
    [by_decide|by_decide|by_compute|by_compute|by_decide].
Defined.
Lemma contract_digest_validated_witness :
  exists d, @contract_digest model_crypto ContractTxid (sample_envelope 1) = Ok d /\ length d = 32%nat.
Proof.
  assert (Ht : envelope_typed (sample_envelope 1)) by by_decide.
  assert (Hv : envelope_validate (sample_envelope 1) = Ok ()) by by_compute.
  pose proof (@contract_digest_validated model_crypto model_crypto_laws ContractTxid _ Ht) as Hd.
  rewrite Hv in Hd. exact Hd.
Defined.
