(* ===== verification/PulseScript.v ===== *)
(** * The PulseScript compiler and contract VM ([pulsescript_vm_v1.rs])

    The opcode table, the source compiler, the static analysis, the bytecode
    writer and reader, and the interpreter.  [PulseScriptProps] holds the
    theorems.

    A function that indexes an array or calls [expect] can panic: the error type
    of [vm] is [option PulseVmV1Error], and [Err None] is the panic.  A [str] is
    the list of its Unicode scalar values ([Text]).
    The operand stack is a list with the top at its head, the local slots a list
    of 64 optional values. *)

From S2P Require Import Prelude Encoding Crypto Text ContractV3.

Definition PULSESCRIPT_COMPILER_VERSION_V1 : Z := 1.
Definition PULSE_BYTECODE_VERSION_V1 : Z := 1.
Definition PULSE_VM_VERSION_V1 : Z := 1.
Definition PULSESCRIPT_MAX_SOURCE_BYTES_V1 : Z := 16 * 1024.
Definition PULSESCRIPT_MAX_RAW_SOURCE_BYTES_V1 : Z := PULSESCRIPT_MAX_SOURCE_BYTES_V1 * 2.
Definition PULSE_VM_MAX_BYTECODE_BYTES_V1 : Z := 64 * 1024.
Definition PULSE_VM_MAX_INSTRUCTIONS_V1 : Z := 1024.
Definition PULSE_VM_MAX_STACK_VALUES_V1 : Z := 256.
Definition PULSE_VM_MAX_LOCAL_SLOTS_V1 : Z := 64.
Definition PULSE_VM_MAX_CALL_DEPTH_V1 : Z := 0.
Definition PULSE_VM_MAX_STATE_ACCESSES_V1 : Z := 0.
Definition PULSE_VM_CONSENSUS_VALUE_BYTES_V1 : Z := 9.
Definition PULSE_BYTECODE_MAGIC_V1 : bytes := str_bytes "PDPS".
Definition PULSE_BYTECODE_FINGERPRINT_DOMAIN_V1 : bytes := str_bytes "PulseDAG:pulsescript-bytecode:v1".
Definition PULSE_TOOLCHAIN_FINGERPRINT_DOMAIN_V1 : bytes :=
  str_bytes "PulseDAG:pulsescript-vm-toolchain:v1".

(** ** Opcodes *)

Inductive PulseOpcodeKindV1 :=
| KPushU64 | KPushBool | KAddU64 | KSubU64 | KMulU64 | KEqU64 | KAndBool | KOrBool | KNotBool
| KDup | KDrop | KStoreLocal | KLoadLocal | KHalt.
#[global] Instance PulseOpcodeKindV1_eq_dec : EqDecision PulseOpcodeKindV1.
Proof. solve_decision. Defined.

Record PulseOpcodeSpecV1 := mkPulseOpcodeSpecV1 {
  os_kind : PulseOpcodeKindV1;
  os_opcode : Byte.byte;
  os_name : string;
  os_operand_bytes : Z;
  os_compute_cost : Z;
}.

Definition PULSE_OPCODE_SPECS_V1 : list PulseOpcodeSpecV1 :=
  [mkPulseOpcodeSpecV1 KPushU64 Byte.x01 "push_u64" 8 1;
   mkPulseOpcodeSpecV1 KPushBool Byte.x02 "push_bool" 1 1;
   mkPulseOpcodeSpecV1 KAddU64 Byte.x10 "add_u64" 0 2;
   mkPulseOpcodeSpecV1 KSubU64 Byte.x11 "sub_u64" 0 2;
   mkPulseOpcodeSpecV1 KMulU64 Byte.x12 "mul_u64" 0 2;
   mkPulseOpcodeSpecV1 KEqU64 Byte.x13 "eq_u64" 0 1;
   mkPulseOpcodeSpecV1 KAndBool Byte.x20 "and_bool" 0 1;
   mkPulseOpcodeSpecV1 KOrBool Byte.x21 "or_bool" 0 1;
   mkPulseOpcodeSpecV1 KNotBool Byte.x22 "not_bool" 0 1;
   mkPulseOpcodeSpecV1 KDup Byte.x30 "dup" 0 1;
   mkPulseOpcodeSpecV1 KDrop Byte.x31 "drop" 0 1;
   mkPulseOpcodeSpecV1 KStoreLocal Byte.x40 "store_local" 1 2;
   mkPulseOpcodeSpecV1 KLoadLocal Byte.x41 "load_local" 1 2;
   mkPulseOpcodeSpecV1 KHalt Byte.xff "halt" 0 0].

(** ** Values, instructions, results *)

Inductive PulseValueTypeV1 := TU64 | TBool.
Inductive PulseValueV1 := VU64 (v : Z) | VBool (b : bool).
#[global] Instance PulseValueTypeV1_eq_dec : EqDecision PulseValueTypeV1.
Proof. solve_decision. Defined.
#[global] Instance PulseValueV1_eq_dec : EqDecision PulseValueV1.
Proof. solve_decision. Defined.

Definition value_type (v : PulseValueV1) : PulseValueTypeV1 :=
  match v with VU64 _ => TU64 | VBool _ => TBool end.

Inductive PulseInstructionV1 :=
| PushU64 (v : Z) | PushBool (b : bool) | AddU64 | SubU64 | MulU64 | EqU64 | AndBool | OrBool
| NotBool | Dup | Drop | StoreLocal (local : Z) | LoadLocal (local : Z) | Halt.
#[global] Instance PulseInstructionV1_eq_dec : EqDecision PulseInstructionV1.
Proof. solve_decision. Defined.

Record PulseStaticAnalysisV1 := mkPulseStaticAnalysisV1 {
  psa_instruction_count : Z;
  psa_compute_units : Z;
  psa_max_stack_values : Z;
  psa_local_slots_used : Z;
  psa_result_type : PulseValueTypeV1;
  psa_max_call_depth : Z;
  psa_state_accesses : Z;
}.
Record CompiledPulseScriptV1 := mkCompiledPulseScriptV1 {
  cps_bytecode : bytes;
  cps_bytecode_fingerprint : bytes;
  cps_analysis : PulseStaticAnalysisV1;
}.
Record PulseVmResourceUsageV1 := mkPulseVmResourceUsageV1 {
  ru_compute_units : Z;
  ru_peak_stack_values : Z;
  ru_local_slots_used : Z;
  ru_call_depth_peak : Z;
  ru_state_accesses : Z;
}.
Record PulseVmExecutionV1 := mkPulseVmExecutionV1 {
  pve_result : PulseValueV1;
  pve_executed_instructions : Z;
  pve_usage : PulseVmResourceUsageV1;
}.
Record ValidatedPulseProgramV1 := mkValidatedPulseProgramV1 {
  vpp_instructions : list PulseInstructionV1;
  vpp_analysis : PulseStaticAnalysisV1;
}.

Inductive PulseVmV1Error :=
| SourceTooLarge (actual max : Z)
| UnsupportedCompilerHeader
| SourceSyntax (line : Z)
| InvalidLiteral (line : Z)
| TooManyInstructions (max : Z)
| LocalIndexOutOfRange (index max : Z)
| TypeStackUnderflow (instruction : Z)
| TypeMismatch (instruction : Z) (expected actual : PulseValueTypeV1)
| UninitializedLocal (index : Z)
| StackLimitExceeded (max : Z)
| MissingOrMisplacedHalt
| InvalidResultArity (actual : Z)
| BytecodeTooLarge (actual max : Z)
| InvalidBytecodeHeader
| UnsupportedBytecodeVersion (v : Z)
| UnsupportedCompilerVersion (v : Z)
| InvalidInstructionCount (actual max : Z)
| TruncatedBytecode
| UnknownOpcode (b : Byte.byte)
| InvalidBooleanEncoding (b : Byte.byte)
| TrailingBytecode
| ArithmeticOverflow (instruction : Z)
| ComputeBudgetExceeded (actual max : Z)
| ComputeAccountingOverflow
| RuntimeTypeInvariant (instruction : Z)
| ContractV3 (e : ContractV3Error)
| OpcodeTableInvariant.

Definition rejection_code (e : PulseVmV1Error) : Z :=
  match e with
  | SourceTooLarge _ _ => 1
  | UnsupportedCompilerHeader => 2
  | SourceSyntax _ => 3
  | InvalidLiteral _ => 4
  | TooManyInstructions _ => 5
  | LocalIndexOutOfRange _ _ => 6
  | TypeStackUnderflow _ => 7
  | TypeMismatch _ _ _ => 8
  | UninitializedLocal _ => 9
  | StackLimitExceeded _ => 10
  | MissingOrMisplacedHalt => 11
  | InvalidResultArity _ => 12
  | BytecodeTooLarge _ _ => 13
  | InvalidBytecodeHeader => 14
  | UnsupportedBytecodeVersion _ => 15
  | UnsupportedCompilerVersion _ => 16
  | InvalidInstructionCount _ _ => 17
  | TruncatedBytecode => 18
  | UnknownOpcode _ => 19
  | InvalidBooleanEncoding _ => 20
  | TrailingBytecode => 21
  | ArithmeticOverflow _ => 22
  | ComputeBudgetExceeded _ _ => 23
  | ComputeAccountingOverflow => 24
  | RuntimeTypeInvariant _ => 25
  | ContractV3 _ => 26
  | OpcodeTableInvariant => 27
  end.

Abbreviation vm := (result (option PulseVmV1Error)).
Definition rejects {A} (e : PulseVmV1Error) : vm A := Err (Some e).
Definition panics {A} : vm A := Err None.
(** [o.ok_or(e)?]. *)
Definition or_reject {A} (o : option A) (e : PulseVmV1Error) : vm A := ok_or o (Some e).

Definition opcode_spec_for_byte_v1 (opcode : Byte.byte) : option PulseOpcodeSpecV1 :=
  List.find (fun spec => bool_decide (os_opcode spec = opcode)) PULSE_OPCODE_SPECS_V1.
Definition opcode_spec_for_kind_v1 (kind : PulseOpcodeKindV1) : vm PulseOpcodeSpecV1 :=
  ok_or (List.find (fun spec => bool_decide (os_kind spec = kind)) PULSE_OPCODE_SPECS_V1) None.
Definition instruction_opcode_kind_v1 (i : PulseInstructionV1) : PulseOpcodeKindV1 :=
  match i with
  | PushU64 _ => KPushU64
  | PushBool _ => KPushBool
  | AddU64 => KAddU64
  | SubU64 => KSubU64
  | MulU64 => KMulU64
  | EqU64 => KEqU64
  | AndBool => KAndBool
  | OrBool => KOrBool
  | NotBool => KNotBool
  | Dup => KDup
  | Drop => KDrop
  | StoreLocal _ => KStoreLocal
  | LoadLocal _ => KLoadLocal
  | Halt => KHalt
  end.
Definition opcode_spec_for_instruction_v1 (i : PulseInstructionV1) : vm PulseOpcodeSpecV1 :=
  opcode_spec_for_kind_v1 (instruction_opcode_kind_v1 i).
Definition instruction_compute_cost (i : PulseInstructionV1) : vm Z :=
  let? spec := opcode_spec_for_instruction_v1 i in Ok (os_compute_cost spec).

(** ** Static analysis *)

Abbreviation locals_of A := (list (option A)) (only parsing).
Definition empty_locals {A} : locals_of A := replicate 64 None.

Definition push_type (stack : list PulseValueTypeV1) (t : PulseValueTypeV1) (max_stack_values : Z)
  : vm (list PulseValueTypeV1 * Z) :=
  if PULSE_VM_MAX_STACK_VALUES_V1 <=? Z.of_nat (length stack)
  then rejects (StackLimitExceeded PULSE_VM_MAX_STACK_VALUES_V1)
  else let stack := t :: stack in
       Ok (stack, Z.max max_stack_values (Z.of_nat (length stack))).
Definition pop_expected_type (stack : list PulseValueTypeV1) (expected : PulseValueTypeV1)
  (instruction : Z) : vm (list PulseValueTypeV1) :=
  match stack with
  | [] => rejects (TypeStackUnderflow instruction)
  | actual :: stack =>
      if bool_decide (actual <> expected)
      then rejects (TypeMismatch instruction expected actual)
      else Ok stack
  end.

(** The variables of the loop of [analyze_instructions]. *)
Record AnalysisState := mkAnalysisState {
  as_stack : list PulseValueTypeV1;
  as_locals : locals_of PulseValueTypeV1;
  as_compute_units : Z;
  as_max_stack_values : Z;
  as_local_slots_used : Z;
  as_halted : bool;
}.
#[global] Instance eta_AnalysisState : Eta AnalysisState := fun s =>
  mkAnalysisState (as_stack s) (as_locals s) (as_compute_units s) (as_max_stack_values s)
    (as_local_slots_used s) (as_halted s).

Definition with_pushed (s : AnalysisState) (stack : list PulseValueTypeV1) (t : PulseValueTypeV1)
  : vm AnalysisState :=
  let? (stack, max_stack) := push_type stack t (as_max_stack_values s) in
  Ok (s <| as_stack := stack |> <| as_max_stack_values := max_stack |>).

Definition analyze_step (count index : Z) (s : AnalysisState) (i : PulseInstructionV1)
  : vm AnalysisState :=
  let stack := as_stack s in
  match i with
  | PushU64 _ => with_pushed s stack TU64
  | PushBool _ => with_pushed s stack TBool
  | AddU64 | SubU64 | MulU64 =>
      let? stack := pop_expected_type stack TU64 index in
      let? stack := pop_expected_type stack TU64 index in
      with_pushed s stack TU64
  | EqU64 =>
      let? stack := pop_expected_type stack TU64 index in
      let? stack := pop_expected_type stack TU64 index in
      with_pushed s stack TBool
  | AndBool | OrBool =>
      let? stack := pop_expected_type stack TBool index in
      let? stack := pop_expected_type stack TBool index in
      with_pushed s stack TBool
  | NotBool =>
      let? stack := pop_expected_type stack TBool index in
      with_pushed s stack TBool
  | Dup =>
      let? t := or_reject (head stack) (TypeStackUnderflow index) in
      with_pushed s stack t
  | Drop =>
      match stack with
      | [] => rejects (TypeStackUnderflow index)
      | _ :: stack => Ok (s <| as_stack := stack |>)
      end
  | StoreLocal local =>
      match stack with
      | [] => rejects (TypeStackUnderflow index)
      | t :: stack =>
          match as_locals s !! Z.to_nat local with
          | None => panics
          | Some slot =>
              let? locals :=
                match slot with
                | Some expected =>
                    if bool_decide (expected <> t) then rejects (TypeMismatch index expected t)
                    else Ok (as_locals s)
                | None => Ok (<[Z.to_nat local := Some t]> (as_locals s))
                end in
              Ok (s <| as_stack := stack |> <| as_locals := locals |>
                    <| as_local_slots_used := Z.max (as_local_slots_used s) (local + 1) |>)
          end
      end
  | LoadLocal local =>
      match as_locals s !! Z.to_nat local with
      | None => panics
      | Some slot =>
          let? t := or_reject slot (UninitializedLocal local) in
          let? s := with_pushed s stack t in
          Ok (s <| as_local_slots_used := Z.max (as_local_slots_used s) (local + 1) |>)
      end
  | Halt =>
      if negb (index + 1 =? count) || as_halted s then rejects MissingOrMisplacedHalt
      else if negb (Z.of_nat (length stack) =? 1)
      then rejects (InvalidResultArity (Z.of_nat (length stack)))
      else Ok (s <| as_halted := true |>)
  end.

(** [for (index, instruction) in instructions.iter().enumerate()]. *)
Fixpoint enumerate_from {A} (n : Z) (l : list A) : list (Z * A) :=
  match l with
  | [] => []
  | x :: l' => (n, x) :: enumerate_from (n + 1) l'
  end.
Definition enumerate {A} (l : list A) : list (Z * A) := enumerate_from 0 l.

Definition analyze_body (count : Z) (s : AnalysisState) (p : Z * PulseInstructionV1)
  : vm AnalysisState :=
  let? cost := instruction_compute_cost p.2 in
  let? compute := or_reject (checked_add 64 (as_compute_units s) cost) ComputeAccountingOverflow in
  analyze_step count p.1 (s <| as_compute_units := compute |>) p.2.

Definition analyze_instructions (instructions : list PulseInstructionV1)
  : vm PulseStaticAnalysisV1 :=
  let count := Z.of_nat (length instructions) in
  if PULSE_VM_MAX_INSTRUCTIONS_V1 <? count
  then rejects (TooManyInstructions PULSE_VM_MAX_INSTRUCTIONS_V1) else
  let? s := try_fold (analyze_body count) (mkAnalysisState [] empty_locals 0 0 0 false)
              (enumerate instructions) in
  if negb (as_halted s) then rejects MissingOrMisplacedHalt else
  match last (as_stack s) with
  | None => panics
  | Some result_type =>
      Ok (mkPulseStaticAnalysisV1 count (as_compute_units s) (as_max_stack_values s)
            (as_local_slots_used s) result_type 0 0)
  end.

(** ** Bytecode *)

(** The operand bytes of an instruction. *)
Definition instruction_operand (i : PulseInstructionV1) : bytes :=
  match i with
  | PushU64 v => le_bytes 8 v
  | PushBool b => [byte_of_Z (if b then 1 else 0)]
  | StoreLocal local | LoadLocal local => [byte_of_Z local]
  | _ => []
  end.
Definition encode_instruction (out : bytes) (i : PulseInstructionV1) : vm bytes :=
  let? spec := opcode_spec_for_instruction_v1 i in
  let operand := instruction_operand i in
  if negb (Z.of_nat (length operand) =? os_operand_bytes spec) then rejects OpcodeTableInvariant
  else Ok (out ++ os_opcode spec :: operand).
Definition encode_bytecode_v1 (instructions : list PulseInstructionV1) : vm bytes :=
  let count := Z.of_nat (length instructions) in
  if PULSE_VM_MAX_INSTRUCTIONS_V1 <? count
  then rejects (TooManyInstructions PULSE_VM_MAX_INSTRUCTIONS_V1) else
  let header := PULSE_BYTECODE_MAGIC_V1 ++ le_bytes 2 PULSE_BYTECODE_VERSION_V1
                ++ le_bytes 2 PULSESCRIPT_COMPILER_VERSION_V1 ++ le_bytes 4 count in
  let? out := try_fold encode_instruction header instructions in
  let len := Z.of_nat (length out) in
  if PULSE_VM_MAX_BYTECODE_BYTES_V1 <? len
  then rejects (BytecodeTooLarge len PULSE_VM_MAX_BYTECODE_BYTES_V1)
  else Ok out.

(** [bytes.get(start..end)]. *)
Definition get_range (b : bytes) (start fin : Z) : option bytes :=
  if (start <=? fin) && (fin <=? Z.of_nat (length b))
  then Some (take (Z.to_nat (fin - start)) (drop (Z.to_nat start) b))
  else None.
(** A reader returns what it read and the new cursor. *)
Definition read_exact (n : Z) (b : bytes) (cursor : Z) : vm (bytes * Z) :=
  let? fin := or_reject (checked_add 64 cursor n) TruncatedBytecode in
  let? slice := or_reject (get_range b cursor fin) TruncatedBytecode in
  Ok (slice, fin).
Definition read_u8 (b : bytes) (cursor : Z) : vm (Byte.byte * Z) :=
  let? (raw, cursor) := read_exact 1 b cursor in
  match raw with x :: _ => Ok (x, cursor) | [] => panics end.
Definition read_u16 (b : bytes) (cursor : Z) : vm (Z * Z) :=
  let? (raw, cursor) := read_exact 2 b cursor in Ok (le_value raw, cursor).
Definition read_u32 (b : bytes) (cursor : Z) : vm (Z * Z) :=
  let? (raw, cursor) := read_exact 4 b cursor in Ok (le_value raw, cursor).
Definition validate_bytecode_local (local : Z) : vm unit :=
  if PULSE_VM_MAX_LOCAL_SLOTS_V1 <=? local
  then rejects (LocalIndexOutOfRange local (PULSE_VM_MAX_LOCAL_SLOTS_V1 - 1))
  else Ok ().

(** The instruction of an opcode and its operand bytes. *)
Definition decode_operand (kind : PulseOpcodeKindV1) (operand : bytes) : vm PulseInstructionV1 :=
  match kind with
  | KPushU64 =>
      if negb (Z.of_nat (length operand) =? 8) then rejects OpcodeTableInvariant
      else Ok (PushU64 (le_value operand))
  | KPushBool =>
      let? raw := or_reject (head operand) OpcodeTableInvariant in
      match Z_of_byte raw with
      | 0 => Ok (PushBool false)
      | 1 => Ok (PushBool true)
      | _ => rejects (InvalidBooleanEncoding raw)
      end
  | KAddU64 => Ok AddU64
  | KSubU64 => Ok SubU64
  | KMulU64 => Ok MulU64
  | KEqU64 => Ok EqU64
  | KAndBool => Ok AndBool
  | KOrBool => Ok OrBool
  | KNotBool => Ok NotBool
  | KDup => Ok Dup
  | KDrop => Ok Drop
  | KStoreLocal =>
      let? raw := or_reject (head operand) OpcodeTableInvariant in
      check validate_bytecode_local (Z_of_byte raw) in
      Ok (StoreLocal (Z_of_byte raw))
  | KLoadLocal =>
      let? raw := or_reject (head operand) OpcodeTableInvariant in
      check validate_bytecode_local (Z_of_byte raw) in
      Ok (LoadLocal (Z_of_byte raw))
  | KHalt => Ok Halt
  end.
Definition decode_instruction (b : bytes) (cursor : Z) : vm (PulseInstructionV1 * Z) :=
  let? (opcode, cursor) := read_u8 b cursor in
  let? spec := or_reject (opcode_spec_for_byte_v1 opcode) (UnknownOpcode opcode) in
  let? operand_end := or_reject (checked_add 64 cursor (os_operand_bytes spec)) TruncatedBytecode in
  let? operand := or_reject (get_range b cursor operand_end) TruncatedBytecode in
  let? i := decode_operand (os_kind spec) operand in
  Ok (i, operand_end).
(** [for _ in 0..instruction_count]. *)
Fixpoint decode_instructions (n : nat) (b : bytes) (cursor : Z) : vm (list PulseInstructionV1 * Z) :=
  match n with
  | O => Ok ([], cursor)
  | S n' =>
      let? (i, cursor) := decode_instruction b cursor in
      let? (rest, cursor) := decode_instructions n' b cursor in
      Ok (i :: rest, cursor)
  end.

Definition decode_and_validate_bytecode_v1 (bytecode : bytes) : vm ValidatedPulseProgramV1 :=
  let len := Z.of_nat (length bytecode) in
  if PULSE_VM_MAX_BYTECODE_BYTES_V1 <? len
  then rejects (BytecodeTooLarge len PULSE_VM_MAX_BYTECODE_BYTES_V1) else
  let? (magic, cursor) := read_exact 4 bytecode 0 in
  if bool_decide (magic <> PULSE_BYTECODE_MAGIC_V1) then rejects InvalidBytecodeHeader else
  let? (bytecode_version, cursor) := read_u16 bytecode cursor in
  if negb (bytecode_version =? PULSE_BYTECODE_VERSION_V1)
  then rejects (UnsupportedBytecodeVersion bytecode_version) else
  let? (compiler_version, cursor) := read_u16 bytecode cursor in
  if negb (compiler_version =? PULSESCRIPT_COMPILER_VERSION_V1)
  then rejects (UnsupportedCompilerVersion compiler_version) else
  let? (count, cursor) := read_u32 bytecode cursor in
  if PULSE_VM_MAX_INSTRUCTIONS_V1 <? count
  then rejects (InvalidInstructionCount count PULSE_VM_MAX_INSTRUCTIONS_V1) else
  let? (instructions, cursor) := decode_instructions (Z.to_nat count) bytecode cursor in
  if negb (cursor =? len) then rejects TrailingBytecode else
  let? analysis := analyze_instructions instructions in
  Ok (mkValidatedPulseProgramV1 instructions analysis).
Definition validate_pulse_bytecode_v1 (bytecode : bytes) : vm PulseStaticAnalysisV1 :=
  let? p := decode_and_validate_bytecode_v1 bytecode in Ok (vpp_analysis p).

(** ** Execution *)

Definition runtime_pop_u64 (stack : list PulseValueV1) (instruction : Z)
  : vm (Z * list PulseValueV1) :=
  match stack with
  | VU64 v :: stack => Ok (v, stack)
  | _ => rejects (RuntimeTypeInvariant instruction)
  end.
Definition runtime_pop_bool (stack : list PulseValueV1) (instruction : Z)
  : vm (bool * list PulseValueV1) :=
  match stack with
  | VBool b :: stack => Ok (b, stack)
  | _ => rejects (RuntimeTypeInvariant instruction)
  end.

(** The operand stack and the local slots. *)
Record Machine := mkMachine {
  m_stack : list PulseValueV1;
  m_locals : locals_of PulseValueV1;
}.

(** The [match instruction] of the interpreter loop; [None] is [break]. *)
Definition execute_instruction (index : Z) (m : Machine) (i : PulseInstructionV1)
  : vm (option Machine) :=
  let stack := m_stack m in
  let push v stack := Ok (Some (mkMachine (v :: stack) (m_locals m))) in
  match i with
  | PushU64 v => push (VU64 v) stack
  | PushBool b => push (VBool b) stack
  | AddU64 =>
      let? (rhs, stack) := runtime_pop_u64 stack index in
      let? (lhs, stack) := runtime_pop_u64 stack index in
      let? v := or_reject (checked_add 64 lhs rhs) (ArithmeticOverflow index) in
      push (VU64 v) stack
  | SubU64 =>
      let? (rhs, stack) := runtime_pop_u64 stack index in
      let? (lhs, stack) := runtime_pop_u64 stack index in
      let? v := or_reject (checked_sub lhs rhs) (ArithmeticOverflow index) in
      push (VU64 v) stack
  | MulU64 =>
      let? (rhs, stack) := runtime_pop_u64 stack index in
      let? (lhs, stack) := runtime_pop_u64 stack index in
      let? v := or_reject (checked_mul 64 lhs rhs) (ArithmeticOverflow index) in
      push (VU64 v) stack
  | EqU64 =>
      let? (rhs, stack) := runtime_pop_u64 stack index in
      let? (lhs, stack) := runtime_pop_u64 stack index in
      push (VBool (lhs =? rhs)) stack
  | AndBool =>
      let? (rhs, stack) := runtime_pop_bool stack index in
      let? (lhs, stack) := runtime_pop_bool stack index in
      push (VBool (lhs && rhs)) stack
  | OrBool =>
      let? (rhs, stack) := runtime_pop_bool stack index in
      let? (lhs, stack) := runtime_pop_bool stack index in
      push (VBool (lhs || rhs)) stack
  | NotBool =>
      let? (b, stack) := runtime_pop_bool stack index in
      push (VBool (negb b)) stack
  | Dup =>
      let? v := or_reject (head stack) (RuntimeTypeInvariant index) in
      push v stack
  | Drop =>
      match stack with
      | [] => rejects (RuntimeTypeInvariant index)
      | _ :: stack => Ok (Some (mkMachine stack (m_locals m)))
      end
  | StoreLocal local =>
      match stack with
      | [] => rejects (RuntimeTypeInvariant index)
      | v :: stack =>
          match m_locals m !! Z.to_nat local with
          | None => panics
          | Some _ => Ok (Some (mkMachine stack (<[Z.to_nat local := Some v]> (m_locals m))))
          end
      end
  | LoadLocal local =>
      match m_locals m !! Z.to_nat local with
      | None => panics
      | Some slot =>
          let? v := or_reject slot (RuntimeTypeInvariant index) in
          push v stack
      end
  | Halt => Ok None
  end.

(** The variables of the interpreter loop. *)
Record VmState := mkVmState {
  vs_machine : Machine;
  vs_compute_units : Z;
  vs_executed : Z;
}.
Fixpoint execute_loop (s : VmState) (l : list (Z * PulseInstructionV1)) : vm VmState :=
  match l with
  | [] => Ok s
  | (index, i) :: l' =>
      let? cost := instruction_compute_cost i in
      let? compute := or_reject (checked_add 64 (vs_compute_units s) cost) ComputeAccountingOverflow in
      let? executed := or_reject (checked_add 32 (vs_executed s) 1) ComputeAccountingOverflow in
      let? o := execute_instruction index (vs_machine s) i in
      match o with
      | Some m => execute_loop (mkVmState m compute executed) l'
      | None => Ok (mkVmState (vs_machine s) compute executed)
      end
  end.
Definition initial_vm_state : VmState := mkVmState (mkMachine [] empty_locals) 0 0.

Definition execute_pulse_bytecode_v1 (bytecode : bytes) (budget : ResourceBudgetV1)
  : vm PulseVmExecutionV1 :=
  check map_err (fun e => Some (ContractV3 e)) (budget_validate budget) in
  let? program := decode_and_validate_bytecode_v1 bytecode in
  let analysis := vpp_analysis program in
  if rb_compute_units budget <? psa_compute_units analysis
  then rejects (ComputeBudgetExceeded (psa_compute_units analysis) (rb_compute_units budget)) else
  let? s := execute_loop initial_vm_state (enumerate (vpp_instructions program)) in
  let compute := vs_compute_units s in
  if negb (compute =? psa_compute_units analysis) then rejects ComputeAccountingOverflow
  else if rb_compute_units budget <? compute
  then rejects (ComputeBudgetExceeded compute (rb_compute_units budget)) else
  let? v := or_reject (last (m_stack (vs_machine s)))
              (RuntimeTypeInvariant (saturating_sub (vs_executed s) 1)) in
  Ok (mkPulseVmExecutionV1 v (vs_executed s)
        (mkPulseVmResourceUsageV1 compute (psa_max_stack_values analysis)
           (psa_local_slots_used analysis) 0 0)).

(** ** Source text *)

Definition LF : Z := 10.
Definition CR : Z := 13.

(** [s.replace("\r\n", "\n")] and [s.replace('\r', "\n")]. *)
Fixpoint replace_crlf (s : text) : text :=
  match s with
  | c :: s' =>
      match s' with
      | d :: s'' => if (c =? CR) && (d =? LF) then LF :: replace_crlf s'' else c :: replace_crlf s'
      | [] => [c]
      end
  | [] => []
  end.
Definition replace_cr (s : text) : text := map (fun c => if c =? CR then LF else c) s.

(** [s.split_inclusive('\n')]: [cur] is the current piece, reversed. *)
Fixpoint split_inclusive_lf (cur : text) (s : text) : list text :=
  match s with
  | [] => match cur with [] => [] | _ => [reverse cur] end
  | c :: s' =>
      if c =? LF then reverse (c :: cur) :: split_inclusive_lf [] s'
      else split_inclusive_lf (c :: cur) s'
  end.
Definition strip_suffix (c : Z) (s : text) : option text :=
  match reverse s with
  | d :: r => if d =? c then Some (reverse r) else None
  | [] => None
  end.
(** [s.lines()]. *)
Definition line_of (l : text) : text :=
  match strip_suffix LF l with
  | None => l
  | Some l => match strip_suffix CR l with None => l | Some l => l end
  end.
Definition lines (s : text) : list text := map line_of (split_inclusive_lf [] s).

(** [split_once('#').map_or(line, |(before, _)| before)]. *)
Fixpoint before_hash (s : text) : text :=
  match s with
  | [] => []
  | c :: s' => if c =? 35 then [] else c :: before_hash s'
  end.
Definition opcode_spec_for_name_v1 (name : text) : option PulseOpcodeSpecV1 :=
  List.find (fun spec => bool_decide (lit (os_name spec) = name)) PULSE_OPCODE_SPECS_V1.
Definition parse_local_index (token : text) (line : Z) : vm Z :=
  let? index := or_reject (parse_uint 16 token) (InvalidLiteral line) in
  if PULSE_VM_MAX_LOCAL_SLOTS_V1 <=? index
  then rejects (LocalIndexOutOfRange index (PULSE_VM_MAX_LOCAL_SLOTS_V1 - 1))
  else Ok index.
Definition parse_source_instruction (tokens : list text) (line : Z) : vm PulseInstructionV1 :=
  match tokens with
  | [] => rejects (SourceSyntax line)
  | opcode_name :: operands =>
      let? spec := or_reject (opcode_spec_for_name_v1 opcode_name) (SourceSyntax line) in
      match os_kind spec, operands with
      | KPushU64, [operand] =>
          let? v := or_reject (parse_uint 64 operand) (InvalidLiteral line) in
          Ok (PushU64 v)
      | KPushBool, [operand] =>
          if bool_decide (operand = lit "true") then Ok (PushBool true)
          else if bool_decide (operand = lit "false") then Ok (PushBool false)
          else rejects (InvalidLiteral line)
      | KAddU64, [] => Ok AddU64
      | KSubU64, [] => Ok SubU64
      | KMulU64, [] => Ok MulU64
      | KEqU64, [] => Ok EqU64
      | KAndBool, [] => Ok AndBool
      | KOrBool, [] => Ok OrBool
      | KNotBool, [] => Ok NotBool
      | KDup, [] => Ok Dup
      | KDrop, [] => Ok Drop
      | KStoreLocal, [operand] =>
          let? index := parse_local_index operand line in Ok (StoreLocal index)
      | KLoadLocal, [operand] =>
          let? index := parse_local_index operand line in Ok (LoadLocal index)
      | KHalt, [] => Ok Halt
      | _, _ => rejects (SourceSyntax line)
      end
  end.

(** One iteration of the line loop of the compiler; the state is
    [(header_seen, instructions)]. *)
Definition compile_line (st : bool * list PulseInstructionV1) (p : Z * text)
  : vm (bool * list PulseInstructionV1) :=
  let '(header_seen, instructions) := st in
  let line_number := Z.min (p.1 + 1) u32_max in
  let code := trim (before_hash p.2) in
  match code with
  | [] => Ok st
  | _ =>
      if negb header_seen then
        if bool_decide (code <> lit "pulsescript-v1") then rejects UnsupportedCompilerHeader
        else Ok (true, instructions)
      else if PULSE_VM_MAX_INSTRUCTIONS_V1 <=? Z.of_nat (length instructions)
      then rejects (TooManyInstructions PULSE_VM_MAX_INSTRUCTIONS_V1)
      else
        let? i := parse_source_instruction (split_whitespace code) line_number in
        Ok (header_seen, instructions ++ [i])
  end.
Definition canonical_source (source : text) : text := replace_cr (replace_crlf source).

Section fingerprints.
Context `{Crypto}.

(** The module's own [encode_len_prefixed]: the length saturates. *)
Definition vm_len_prefixed (b : bytes) : bytes :=
  le_bytes 4 (Z.min (Z.of_nat (length b)) u32_max) ++ b.

Definition pulse_toolchain_fingerprint_v1 : bytes :=
  sha256 (vm_len_prefixed PULSE_TOOLCHAIN_FINGERPRINT_DOMAIN_V1
          ++ le_bytes 2 PULSESCRIPT_COMPILER_VERSION_V1
          ++ le_bytes 2 PULSE_BYTECODE_VERSION_V1
          ++ le_bytes 2 PULSE_VM_VERSION_V1
          ++ le_bytes 4 PULSESCRIPT_MAX_SOURCE_BYTES_V1
          ++ le_bytes 4 PULSESCRIPT_MAX_RAW_SOURCE_BYTES_V1
          ++ le_bytes 4 PULSE_VM_MAX_BYTECODE_BYTES_V1
          ++ le_bytes 4 PULSE_VM_MAX_INSTRUCTIONS_V1
          ++ le_bytes 2 PULSE_VM_MAX_STACK_VALUES_V1
          ++ le_bytes 2 PULSE_VM_MAX_LOCAL_SLOTS_V1
          ++ le_bytes 2 PULSE_VM_MAX_CALL_DEPTH_V1
          ++ le_bytes 2 PULSE_VM_MAX_STATE_ACCESSES_V1
          ++ le_bytes 2 PULSE_VM_CONSENSUS_VALUE_BYTES_V1
          ++ le_bytes 8 CONTRACT_V3_MAX_COMPUTE_UNITS
          ++ flat_map (fun spec =>
               os_opcode spec :: vm_len_prefixed (str_bytes (os_name spec))
               ++ le_bytes 1 (os_operand_bytes spec) ++ le_bytes 8 (os_compute_cost spec))
               PULSE_OPCODE_SPECS_V1).

Definition pulse_bytecode_fingerprint_v1 (bytecode : bytes) : vm bytes :=
  check decode_and_validate_bytecode_v1 bytecode in
  Ok (sha256 (vm_len_prefixed PULSE_BYTECODE_FINGERPRINT_DOMAIN_V1 ++ vm_len_prefixed bytecode)).

Definition compile_pulsescript_v1 (source : text) : vm CompiledPulseScriptV1 :=
  if PULSESCRIPT_MAX_RAW_SOURCE_BYTES_V1 <? text_len source
  then rejects (SourceTooLarge (text_len source) PULSESCRIPT_MAX_RAW_SOURCE_BYTES_V1) else
  let source := canonical_source source in
  if PULSESCRIPT_MAX_SOURCE_BYTES_V1 <? text_len source
  then rejects (SourceTooLarge (text_len source) PULSESCRIPT_MAX_SOURCE_BYTES_V1) else
  let? (header_seen, instructions) :=
    try_fold compile_line (false, []) (enumerate (lines source)) in
  if negb header_seen then rejects UnsupportedCompilerHeader else
  let? analysis := analyze_instructions instructions in
  let? bytecode := encode_bytecode_v1 instructions in
  let? fingerprint := pulse_bytecode_fingerprint_v1 bytecode in
  Ok (mkCompiledPulseScriptV1 bytecode fingerprint analysis).
End fingerprints.

(** ** Examples *)

Definition example_source : text :=
  lit "# sum of two squares" ++ [CR; LF]
  ++ lit "pulsescript-v1" ++ [LF] ++ lit "push_u64 3" ++ [LF] ++ lit "dup" ++ [CR] ++ lit "mul_u64"
  ++ [LF] ++ lit "  store_local 0  # nine" ++ [LF] ++ lit "push_u64 +4" ++ [LF] ++ lit "dup" ++ [LF]
  ++ lit "mul_u64" ++ [LF] ++ lit "load_local 0" ++ [LF] ++ lit "add_u64" ++ [LF] ++ lit "push_u64 25"
  ++ [LF] ++ lit "eq_u64" ++ [LF] ++ lit "halt".
Definition example_program : list PulseInstructionV1 :=
  [PushU64 3; Dup; MulU64; StoreLocal 0; PushU64 4; Dup; MulU64; LoadLocal 0; AddU64; PushU64 25;
   EqU64; Halt].
Definition example_bytecode : bytes :=
  match encode_bytecode_v1 example_program with Ok b => b | Err _ => [] end.
Definition example_budget : ResourceBudgetV1 := mkResourceBudgetV1 1 100 0 0 0 0.

Example compile_example :
  match @compile_pulsescript_v1 model_crypto example_source with
  | Ok c => cps_bytecode c = example_bytecode | Err _ => False end.
Proof. by_compute. Qed.
Example execute_example :
  execute_pulse_bytecode_v1 example_bytecode example_budget =
  Ok (mkPulseVmExecutionV1 (VBool true) 12 (mkPulseVmResourceUsageV1 16 2 1 0 0)).
Proof. by_compute. Qed.
