(* ===== verification/PulseScriptProps.v ===== *)
(** * Correctness of the PulseScript toolchain

    Type soundness of the VM: a program that passes the static analysis runs to
    a value of the announced type with the announced resource usage, or stops at
    an arithmetic overflow.  The bytecode format is a bijection between its valid
    strings and the programs that pass the analysis, and the compiler targets
    it.  No internal-error code can be observed. *)

From S2P Require Import Prelude Encoding Crypto Types Text ContractV3 PulseScript.

(** ** Well-formed values, programs and machine states *)

Definition value_ok (v : PulseValueV1) : Prop :=
  match v with VU64 n => in_u 64 n | VBool _ => True end.
Definition instruction_ok (i : PulseInstructionV1) : Prop :=
  match i with
  | PushU64 v => in_u 64 v
  | StoreLocal local | LoadLocal local => 0 <= local < PULSE_VM_MAX_LOCAL_SLOTS_V1
  | _ => True
  end.
#[global] Instance instruction_ok_dec i : Decision (instruction_ok i).
Proof. destruct i; simpl; apply _. Defined.

(** A machine state that has the types the analysis predicts. *)
Record machine_ok (m : Machine) (s : AnalysisState) : Prop := {
  mok_stack : map value_type (m_stack m) = as_stack s;
  mok_locals : option_map value_type <$> m_locals m = as_locals s;
  mok_stack_values : Forall value_ok (m_stack m);
  mok_local_values : Forall (fun o => forall v, o = Some v -> value_ok v) (m_locals m);
}.

(** The outcomes a well-typed step may have. *)
Definition step_outcome (index : Z) (r : vm (option Machine)) (s : AnalysisState) : Prop :=
  (exists m, r = Ok (Some m) /\ machine_ok m s) \/ r = rejects (ArithmeticOverflow index).

(** ** The opcode table *)

Lemma opcode_spec_total i :
  exists spec, opcode_spec_for_instruction_v1 i = Ok spec /\
    os_kind spec = instruction_opcode_kind_v1 i /\
    opcode_spec_for_byte_v1 (os_opcode spec) = Some spec /\
    Z.of_nat (length (instruction_operand i)) = os_operand_bytes spec /\
    0 <= os_compute_cost spec <= 2 /\ 0 <= os_operand_bytes spec <= 8.
Proof. destruct i; (eexists; split; [done|]); vm_compute; repeat split; discriminate. Qed.
Lemma opcode_spec_byte b spec :
  opcode_spec_for_byte_v1 b = Some spec -> os_opcode spec = b /\ spec ∈ PULSE_OPCODE_SPECS_V1.
Proof.
  intros [Hin Heq]%find_some. apply bool_decide_eq_true in Heq. split; [done|].
  by apply list_elem_of_In.
Qed.
Lemma operand_bytes_range spec :
  spec ∈ PULSE_OPCODE_SPECS_V1 -> 0 <= os_operand_bytes spec <= 8.
Proof.
  assert (H : Forall (fun s => 0 <= os_operand_bytes s <= 8) PULSE_OPCODE_SPECS_V1) by by_decide.
  by apply (proj1 (Forall_forall _ _) H).
Qed.
Lemma compute_cost_total i : exists c, instruction_compute_cost i = Ok c /\ 0 <= c <= 2.
Proof.
  unfold instruction_compute_cost. destruct (opcode_spec_total i) as (spec & -> & _ & _ & _ & Hc & _).
  eauto.
Qed.

(** ** One step *)

Lemma with_pushed_Ok s stack t s' :
  with_pushed s stack t = Ok s' ->
  (length stack < 256)%nat /\
  s' = s <| as_stack := t :: stack |>
         <| as_max_stack_values := Z.max (as_max_stack_values s) (Z.of_nat (S (length stack))) |>.
Proof.
  unfold with_pushed, push_type, PULSE_VM_MAX_STACK_VALUES_V1. intros ?.
  destruct (Z.leb_spec 256 (Z.of_nat (length stack))); [done|]. simpl in *. simplify_eq.
  split; [lia|done].
Qed.
Lemma pop_expected_type_Ok stack t i stack' :
  pop_expected_type stack t i = Ok stack' -> stack = t :: stack'.
Proof.
  unfold pop_expected_type. destruct stack as [|u stack]; [done|]. intros ?. inv_ok. bool_props.
  by destruct (decide (u = t)); simplify_eq.
Qed.

(** The effect of a push and of a pop of the machine. *)
Lemma machine_ok_push m s stack tstack v :
  machine_ok m s -> map value_type stack = tstack -> Forall value_ok stack -> value_ok v ->
  forall n, machine_ok (mkMachine (v :: stack) (m_locals m))
              (s <| as_stack := value_type v :: tstack |> <| as_max_stack_values := n |>).
Proof. intros [? ? ? ?] <- ? ? n. split; simpl; auto. Qed.

Lemma execute_push_sound index m s stack v s' :
  machine_ok m s -> Forall value_ok stack -> value_ok v ->
  with_pushed s (map value_type stack) (value_type v) = Ok s' ->
  step_outcome index (Ok (Some (mkMachine (v :: stack) (m_locals m)))) s'.
Proof.
  intros Hm Hst Hv [_ ->]%with_pushed_Ok. left. eexists; split; [done|].
  by apply machine_ok_push.
Qed.

(** The binary operators: [op] is the checked operation on the two operands. *)
Lemma execute_arith_sound index m s s' stack (op : Z -> Z -> option Z) :
  machine_ok m s -> as_stack s = TU64 :: TU64 :: stack ->
  (forall a b c, in_u 64 a -> in_u 64 b -> op a b = Some c -> in_u 64 c) ->
  with_pushed s stack TU64 = Ok s' ->
  step_outcome index
    (let? (rhs, stack) := runtime_pop_u64 (m_stack m) index in
     let? (lhs, stack) := runtime_pop_u64 stack index in
     let? v := or_reject (op lhs rhs) (ArithmeticOverflow index) in
     Ok (Some (mkMachine (VU64 v :: stack) (m_locals m)))) s'.
Proof.
  intros Hm Hs Hop Hp. pose proof Hm as [Hst _ Hvs _]. rewrite Hs in Hst.
  destruct (m_stack m) as [|[b|] [|[a|] st]]; simplify_eq/=.
  apply Forall_cons in Hvs as [Hb Hvs]. apply Forall_cons in Hvs as [Ha Hvs].
  destruct (op a b) as [c|] eqn:Hc; simpl; [|by right].
  eapply execute_push_sound; eauto. by apply (Hop a b).
Qed.

Lemma locals_lookup m s k slot :
  machine_ok m s -> as_locals s !! k = Some slot ->
  exists o, m_locals m !! k = Some o /\ option_map value_type o = slot /\ (forall v, o = Some v -> value_ok v).
Proof.
  intros [_ Hloc _ Hlv] Hk. rewrite <- Hloc, list_lookup_fmap in Hk.
  destruct (m_locals m !! k) as [o|] eqn:Ho; simplify_eq/=. exists o. split_and!; [done..|].
  by apply (Forall_lookup_1 _ _ _ _ Hlv Ho).
Qed.

(** Popping a value of a known type into a slot. *)
Lemma execute_store_sound m s k v stack tstack o slots :
  machine_ok m s -> m_stack m = v :: stack -> as_stack s = value_type v :: tstack ->
  m_locals m !! k = Some o -> (option_map value_type o = None \/ option_map value_type o = Some (value_type v)) ->
  machine_ok (mkMachine stack (<[k := Some v]> (m_locals m)))
    (s <| as_stack := tstack |>
       <| as_locals := match option_map value_type o with
                       | Some _ => as_locals s | None => <[k := Some (value_type v)]> (as_locals s) end |>
       <| as_local_slots_used := slots |>).
Proof.
  intros [Hst Hloc Hvs Hlv] Hm Hs Ho Hcase. rewrite Hm, Hs in *. simplify_eq/=.
  apply Forall_cons in Hvs as [Hv Hvs]. split; simpl; [done| |done|].
  - rewrite list_fmap_insert, Hloc. simpl. destruct Hcase as [E|E]; rewrite E; [done|].
    apply list_insert_id. rewrite <- Hloc, list_lookup_fmap, Ho. simpl. by rewrite E.
  - apply Forall_insert; [done|]. intros w [= <-]. done.
Qed.

(** The pops of the analysis fix the shape of the type stack. *)
Ltac typed_pops :=
  inv_ok;
  repeat match goal with H : pop_expected_type _ _ _ = Ok _ |- _ =>
    apply pop_expected_type_Ok in H end.

Lemma execute_local_sound count index m s i s' local :
  machine_ok m s -> i = StoreLocal local \/ i = LoadLocal local ->
  analyze_step count index s i = Ok s' ->
  step_outcome index (execute_instruction index m i) s'.
Proof.
  intros Hm [-> | ->] Ha; pose proof Hm as [Hst _ Hvs _]; cbn [analyze_step execute_instruction] in *.
  - destruct (as_stack s) as [|t ts] eqn:Hs; [done|].
    destruct (as_locals s !! _) as [slot|] eqn:Hk; [|done].
    destruct (locals_lookup m s _ _ Hm Hk) as (o & Ho & <- & _). rewrite Ho.
    destruct (m_stack m) as [|v st] eqn:Hv; simplify_eq/=. left. eexists; split; [done|].
    assert (Hcase : option_map value_type o = None \/ option_map value_type o = Some (value_type v)).
    { destruct o as [w|]; simpl in *; [|by left]. right. inv_ok. bool_props.
      destruct (decide (value_type w = value_type v)) as [->|]; naive_solver. }
    eapply execute_store_sound in Hcase; [|done..].
    destruct o as [w|]; simpl in *; inv_ok; apply Hcase.
  - destruct (as_locals s !! _) as [slot|] eqn:Hk; [|done].
    destruct (locals_lookup m s _ _ Hm Hk) as (o & Ho & <- & Hok). rewrite Ho.
    destruct o as [v|]; [|done]. simpl in *. rewrite <- Hst in Ha. inv_ok.
    match goal with H : with_pushed _ _ _ = Ok _ |- _ =>
      destruct (execute_push_sound index m s (m_stack m) v _ Hm Hvs (Hok v eq_refl) H)
        as [(m' & [= <-] & [])|] end; [|done].
    left. eexists; split; [done|]. by split.
Qed.

(** An operator that never fails: read the operands off the typed stack and push
    its result. *)
Ltac bool_op_sound :=
  cbn [execute_instruction]; subst;
  match goal with H : as_stack ?s = _, Hst : map value_type (m_stack ?m) = as_stack ?s |- _ =>
    rewrite H in Hst end;
  repeat match goal with
  | Hst : map value_type ?st = _ :: _ |- _ =>
      destruct st as [|[?|?] ?]; simpl in Hst; simplify_eq; cbn [runtime_pop_u64 runtime_pop_bool]
  | H : Forall value_ok (_ :: _) |- _ => apply Forall_cons in H as [? ?]
  end;
  eapply execute_push_sound; eauto.

Lemma execute_instruction_sound count index m s i s' :
  machine_ok m s -> instruction_ok i -> i <> Halt ->
  analyze_step count index s i = Ok s' ->
  step_outcome index (execute_instruction index m i) s'.
Proof.
  intros Hm Hi Hh Ha. pose proof Hm as [Hst Hloc Hvs Hlv].
  destruct i as [v|b| | | | | | | | | |local|local|];
    [..|eapply execute_local_sound; eauto|eapply execute_local_sound; eauto|done];
    cbn [analyze_step] in Ha.
  - rewrite <- Hst in Ha. by eapply execute_push_sound.
  - rewrite <- Hst in Ha. by eapply execute_push_sound.
  - typed_pops. eapply execute_arith_sound; [done| | |done]; [congruence|].
    intros x y z ? ? [-> ?]%checked_add_Some. unfold in_u in *. lia.
  - typed_pops. eapply execute_arith_sound; [done| | |done]; [congruence|].
    intros x y z ? ? [-> ?]%checked_sub_Some. unfold in_u in *. lia.
  - typed_pops. eapply execute_arith_sound; [done| | |done]; [congruence|].
    intros x y z ? ? [-> ?]%checked_mul_Some. unfold in_u in *. nia.
  - typed_pops. by bool_op_sound.
  - typed_pops. by bool_op_sound.
  - typed_pops. by bool_op_sound.
  - typed_pops. by bool_op_sound.
  - cbn. destruct (as_stack s) as [|t ts] eqn:Hs; [done|]. simpl in Ha.
    destruct (m_stack m) as [|v st] eqn:Hv; simplify_eq/=. eapply execute_push_sound; eauto.
    by apply Forall_cons in Hvs as [? _].
  - destruct (as_stack s) as [|t ts] eqn:Hs; [done|]. cbn.
    destruct (m_stack m) as [|v st] eqn:Hv; simplify_eq/=.
    left. eexists; split; [done|]. apply Forall_cons in Hvs as [_ ?]. by split.
Qed.

(** ** The two loops *)

Lemma enumerate_from_app {A} n (l1 l2 : list A) :
  enumerate_from n (l1 ++ l2) =
  enumerate_from n l1 ++ enumerate_from (n + Z.of_nat (length l1)) l2.
Proof.
  revert n. induction l1 as [|x l1 IH]; intros n; simpl; [by rewrite Z.add_0_r|].
  rewrite IH. do 3 f_equal. lia.
Qed.

(** What every step of the analysis maintains. *)
Record analysis_inv (s : AnalysisState) : Prop := {
  ai_stack : Z.of_nat (length (as_stack s)) <= as_max_stack_values s;
  ai_max : 0 <= as_max_stack_values s <= PULSE_VM_MAX_STACK_VALUES_V1;
  ai_locals : length (as_locals s) = 64%nat;
}.
Lemma analyze_step_inv count index s i s' :
  analysis_inv s -> analyze_step count index s i = Ok s' ->
  analysis_inv s' /\ as_max_stack_values s <= as_max_stack_values s' /\
  as_compute_units s' = as_compute_units s /\
  (i <> Halt -> as_halted s' = as_halted s) /\
  (i = Halt -> index + 1 = count /\ as_halted s' = true /\ as_stack s' = as_stack s /\
     as_locals s' = as_locals s /\ length (as_stack s) = 1%nat).
Proof.
  intros [Hst Hmax Hloc] Ha. unfold PULSE_VM_MAX_STACK_VALUES_V1 in Hmax.
  destruct i; cbn [analyze_step] in Ha;
    repeat match goal with H : match as_stack s with [] => _ | _ => _ end = _ |- _ =>
      destruct (as_stack s); [done|] end;
    typed_pops;
    repeat match goal with H : with_pushed _ _ _ = Ok _ |- _ =>
      apply with_pushed_Ok in H as [? ->]; cbn in * end;
    repeat match goal with H : as_stack s = _ |- _ => rewrite H in *; clear H end; subst;
    bool_props; simpl in *;
    (split_and!; [split; simpl; rewrite ?length_insert; unfold PULSE_VM_MAX_STACK_VALUES_V1; lia
                 |lia|done|done|intros ?; try done]).
  split_and!; done || lia.
Qed.

Lemma or_reject_Ok {A} (o : option A) e a : or_reject o e = Ok a <-> o = Some a.
Proof. apply ok_or_Ok. Qed.
Lemma machine_ok_compute m s n : machine_ok m s -> machine_ok m (s <| as_compute_units := n |>).
Proof. by intros []. Qed.
Lemma analysis_inv_compute s n : analysis_inv s -> analysis_inv (s <| as_compute_units := n |>).
Proof. by intros []. Qed.

(** One iteration of the analysis loop. *)
Lemma analyze_body_Ok count s index i s' :
  analysis_inv s -> analyze_body count s (index, i) = Ok s' ->
  exists c, instruction_compute_cost i = Ok c /\ as_compute_units s' = as_compute_units s + c /\
    as_compute_units s + c <= u64_max /\
    analyze_step count index (s <| as_compute_units := as_compute_units s + c |>) i = Ok s' /\
    analysis_inv s' /\ as_max_stack_values s <= as_max_stack_values s' /\
    (i <> Halt -> as_halted s' = as_halted s) /\
    (i = Halt -> index + 1 = count /\ as_halted s' = true /\ as_stack s' = as_stack s /\
       as_locals s' = as_locals s /\ length (as_stack s') = 1%nat).
Proof.
  intros Hinv Hb. unfold analyze_body in Hb. simpl in Hb. inv_ok.
  match goal with H : or_reject _ _ = Ok _ |- _ => apply or_reject_Ok in H end. inv_ok.
  match goal with H : analyze_step _ _ _ _ = Ok _ |- _ =>
    destruct (analyze_step_inv _ _ _ _ _ (analysis_inv_compute _ _ Hinv) H) as (? & ? & ? & ? & Hh) end.
  eexists. split_and!; eauto. intros E. destruct (Hh E) as (? & ? & E' & ? & ?).
  rewrite E' in *. auto.
Qed.

Lemma analyze_loop_inv count idx ins s s' :
  analysis_inv s -> try_fold (analyze_body count) s (enumerate_from idx ins) = Ok s' ->
  analysis_inv s' /\ as_max_stack_values s <= as_max_stack_values s'.
Proof.
  revert idx s. induction ins as [|i ins IH]; intros idx s Hinv Hf; simpl in Hf; [by simplify_eq|].
  destruct (analyze_body count s (idx, i)) as [s1|] eqn:Hb; [|done].
  destruct (analyze_body_Ok _ _ _ _ _ Hinv Hb) as (c & _ & _ & _ & _ & Hinv1 & Hm & _).
  destruct (IH _ _ Hinv1 Hf). split; [done|]. lia.
Qed.

(** An accepted program ends in its only [Halt], with one value on the stack. *)
Lemma analyze_loop_halted count idx ins s s' :
  analysis_inv s -> as_halted s = false -> idx + Z.of_nat (length ins) <= count ->
  try_fold (analyze_body count) s (enumerate_from idx ins) = Ok s' -> as_halted s' = true ->
  length (as_stack s') = 1%nat.
Proof.
  revert idx s. induction ins as [|i ins IH]; intros idx s Hinv Hs Hc Hf Hh; simpl in Hf.
  { simplify_eq. congruence. }
  destruct (analyze_body count s (idx, i)) as [s1|] eqn:Hb; [|done]. simpl in Hc.
  destruct (analyze_body_Ok _ _ _ _ _ Hinv Hb) as (c & _ & _ & _ & _ & Hinv1 & _ & Hn & Hy).
  destruct (decide (i = Halt)) as [->|Hi].
  - destruct (Hy eq_refl) as (Hidx & _ & _ & _ & Hl).
    destruct ins; simpl in *; [by simplify_eq|lia].
  - apply (IH (idx + 1) s1); [done|by rewrite Hn|lia|done|done].
Qed.

(** Simulation: the interpreter follows the analysis, or overflows. *)
Definition loop_outcome (idx count : Z) (r : vm VmState) (compute executed : Z) (s : AnalysisState)
  : Prop :=
  (exists m, r = Ok (mkVmState m compute executed) /\ machine_ok m s) \/
  (exists j, idx <= j < count /\ r = rejects (ArithmeticOverflow j)).

Lemma execute_loop_sound count idx ins m s s' executed :
  analysis_inv s -> machine_ok m s -> Forall instruction_ok ins ->
  idx + Z.of_nat (length ins) <= count ->
  0 <= executed -> executed + Z.of_nat (length ins) <= u32_max ->
  try_fold (analyze_body count) s (enumerate_from idx ins) = Ok s' ->
  loop_outcome idx count
    (execute_loop (mkVmState m (as_compute_units s) executed) (enumerate_from idx ins))
    (as_compute_units s') (executed + Z.of_nat (length ins)) s'.
Proof.
  revert idx m s executed. induction ins as [|i ins IH];
    intros idx m s executed Hinv Hm Hok Hc He Hmax Hf; simpl in Hf.
  { simplify_eq. left. simpl. rewrite Z.add_0_r. eauto. }
  destruct (analyze_body count s (idx, i)) as [s1|] eqn:Hb; [|done]. simpl in Hc, Hmax.
  destruct (analyze_body_Ok _ _ _ _ _ Hinv Hb) as (c & Hcost & Hcu & Hcm & Hstep & Hinv1 & _ & _ & Hy).
  apply Forall_cons in Hok as [Hi Hok]. cbn [enumerate_from execute_loop]. rewrite Hcost.
  unfold or_reject at 1 2. cbn [vs_compute_units vs_executed vs_machine].
  unfold checked_add. rewrite (proj2 (Z.leb_le _ _)) by done.
  rewrite (proj2 (Z.leb_le (executed + 1) _)) by lia. cbn [ok_or].
  destruct (decide (i = Halt)) as [->|Hn].
  - destruct (Hy eq_refl) as (Hidx & _ & Est & Eloc & _).
    destruct ins; simpl in *; [|lia]. simplify_eq. left. exists m. split; [by rewrite Hcu|].
    destruct Hm. split; congruence.
  - destruct (execute_instruction_sound _ _ m _ _ _ (machine_ok_compute _ _ _ Hm) Hi Hn Hstep)
      as [(m1 & -> & Hm1)| ->]; [|right; exists idx; split; [lia|done]].
    specialize (IH (idx + 1) m1 s1 (executed + 1) Hinv1 Hm1 Hok).
    rewrite Hcu in IH. replace (executed + Z.of_nat (length (i :: ins)))
      with (executed + 1 + Z.of_nat (length ins)) by (simpl; lia).
    destruct IH as [|(j & ? & ?)]; [lia..|done|by left|]. right. exists j. split; [lia|done].
Qed.

(** ** The bytecode format *)

Definition instruction_bytes (i : PulseInstructionV1) : bytes :=
  match opcode_spec_for_instruction_v1 i with
  | Ok spec => os_opcode spec :: instruction_operand i
  | Err _ => []
  end.
Definition bytecode_header (count : Z) : bytes :=
  PULSE_BYTECODE_MAGIC_V1 ++ le_bytes 2 PULSE_BYTECODE_VERSION_V1
  ++ le_bytes 2 PULSESCRIPT_COMPILER_VERSION_V1 ++ le_bytes 4 count.
(** The bytecode of a program. *)
Definition program_bytes (ins : list PulseInstructionV1) : bytes :=
  bytecode_header (Z.of_nat (length ins)) ++ concat (map instruction_bytes ins).

Lemma length_instruction_bytes i : (1 <= length (instruction_bytes i) <= 9)%nat.
Proof.
  unfold instruction_bytes. destruct (opcode_spec_total i) as (spec & -> & _ & _ & Hl & _ & ?).
  simpl. lia.
Qed.
Lemma length_program_bytes ins :
  (length (program_bytes ins) <= 12 + 9 * length ins)%nat.
Proof.
  unfold program_bytes. rewrite length_app. apply Nat.add_le_mono; [done|].
  induction ins as [|i ins IH]; simpl; [lia|]. rewrite length_app.
  pose proof (length_instruction_bytes i). lia.
Qed.

Lemma encode_loop_eq out ins :
  try_fold encode_instruction out ins = Ok (out ++ concat (map instruction_bytes ins)).
Proof.
  revert out. induction ins as [|i ins IH]; intros out; simpl; [by rewrite app_nil_r|].
  unfold encode_instruction at 1, instruction_bytes at 1.
  destruct (opcode_spec_total i) as (spec & -> & _ & _ & Hl & _ & _).
  rewrite Hl, Z.eqb_refl. simpl. rewrite IH, <- app_assoc. done.
Qed.
Lemma encode_bytecode_eq ins :
  encode_bytecode_v1 ins =
  if PULSE_VM_MAX_INSTRUCTIONS_V1 <? Z.of_nat (length ins)
  then rejects (TooManyInstructions PULSE_VM_MAX_INSTRUCTIONS_V1) else Ok (program_bytes ins).
Proof.
  unfold encode_bytecode_v1. destruct (Z.ltb_spec PULSE_VM_MAX_INSTRUCTIONS_V1 (Z.of_nat (length ins)));
    [done|]. rewrite encode_loop_eq. fold (bytecode_header (Z.of_nat (length ins))).
  fold (program_bytes ins). pose proof (length_program_bytes ins).
  unfold PULSE_VM_MAX_INSTRUCTIONS_V1, PULSE_VM_MAX_BYTECODE_BYTES_V1 in *.
  by rewrite (proj2 (Z.ltb_ge _ _)) by lia.
Qed.

(** *** Reading at a cursor *)

(** [rest] is what remains of [b] at [cursor]. *)
Definition at_cursor (b : bytes) (cursor : Z) (rest : bytes) : Prop :=
  exists pre, b = pre ++ rest /\ cursor = Z.of_nat (length pre).
Definition bounded (b : bytes) : Prop := Z.of_nat (length b) <= PULSE_VM_MAX_BYTECODE_BYTES_V1.

Lemma at_cursor_start b : at_cursor b 0 b.
Proof. by exists []. Qed.
Lemma at_cursor_advance b c x rest n :
  at_cursor b c (x ++ rest) -> n = Z.of_nat (length x) -> at_cursor b (c + n) rest.
Proof.
  intros (pre & -> & ->) ->. exists (pre ++ x). rewrite length_app, <- app_assoc. split; [done|lia].
Qed.
Lemma at_cursor_end b c rest : at_cursor b c rest -> (c = Z.of_nat (length b) <-> rest = []).
Proof.
  intros (pre & -> & ->). rewrite length_app. destruct rest; simpl; split; intros; [done|lia|lia|done].
Qed.

Lemma get_range_at b c rest n :
  at_cursor b c rest -> 0 <= n ->
  get_range b c (c + n) =
  if n <=? Z.of_nat (length rest) then Some (take (Z.to_nat n) rest) else None.
Proof.
  intros (pre & -> & ->) Hn. unfold get_range. rewrite length_app.
  rewrite (proj2 (Z.leb_le _ (Z.of_nat (length pre) + n))) by lia. simpl.
  destruct (Z.leb_spec n (Z.of_nat (length rest))).
  - rewrite (proj2 (Z.leb_le _ _)) by lia. f_equal.
    rewrite Nat2Z.id, drop_app_length. f_equal. lia.
  - by rewrite (proj2 (Z.leb_gt _ _)) by lia.
Qed.
(** The operand reader of [decode_instruction] and [read_exact]. *)
Lemma checked_cursor b c rest n :
  at_cursor b c rest -> bounded b -> 0 <= n <= 8 -> checked_add 64 c n = Some (c + n).
Proof.
  intros (pre & -> & ->) Hb Hn. apply checked_add_Some. split; [done|].
  unfold bounded, PULSE_VM_MAX_BYTECODE_BYTES_V1 in Hb. rewrite length_app in Hb.
  unfold u_max. lia.
Qed.
Lemma read_exact_at b c rest n :
  at_cursor b c rest -> bounded b -> 0 <= n <= 8 ->
  read_exact n b c =
  if n <=? Z.of_nat (length rest) then Ok (take (Z.to_nat n) rest, c + n)
  else rejects TruncatedBytecode.
Proof.
  intros Hc Hb Hn. unfold read_exact. rewrite (checked_cursor b c rest) by done. cbn.
  rewrite (get_range_at b c rest) by (done || lia). by destruct (n <=? _).
Qed.
(** Reading succeeds exactly when the bytes are there. *)
Lemma read_exact_Ok b c rest n x c' :
  at_cursor b c rest -> bounded b -> 0 <= n <= 8 ->
  read_exact n b c = Ok (x, c') <->
  exists rest', rest = x ++ rest' /\ Z.of_nat (length x) = n /\ c' = c + n /\ at_cursor b c' rest'.
Proof.
  intros Hc Hb Hn. rewrite (read_exact_at b c rest) by done. split.
  - intros ?. inv_ok. bool_props. simplify_eq. exists (drop (Z.to_nat n) rest).
    assert (Hlen : Z.of_nat (length (take (Z.to_nat n) rest)) = n) by (rewrite length_take; lia).
    rewrite take_drop. split_and!; [done|done|done|].
    apply (at_cursor_advance b c (take (Z.to_nat n) rest)); [by rewrite take_drop|done].
  - intros (rest' & -> & Hlen & -> & _). rewrite length_app, (proj2 (Z.leb_le _ _)) by lia.
    do 2 f_equal. rewrite <- Hlen, Nat2Z.id. apply take_app_length.
Qed.

(** *** Instructions *)

Lemma decode_operand_encode i :
  instruction_ok i -> decode_operand (instruction_opcode_kind_v1 i) (instruction_operand i) = Ok i.
Proof.
  assert (Hl : forall x, 0 <= x < PULSE_VM_MAX_LOCAL_SLOTS_V1 ->
    Z_of_byte (byte_of_Z x) = x /\ validate_bytecode_local x = Ok ()).
  { unfold PULSE_VM_MAX_LOCAL_SLOTS_V1. intros x Hx. rewrite Z_of_byte_of_Z, Z.mod_small by lia.
    split; [done|]. unfold validate_bytecode_local, PULSE_VM_MAX_LOCAL_SLOTS_V1.
    by rewrite (proj2 (Z.leb_gt _ _)) by lia. }
  destruct i as [v|[]| | | | | | | | | |l|l|]; cbn [instruction_ok]; intros Hi; try done.
  - cbn [instruction_opcode_kind_v1 decode_operand instruction_operand]. rewrite length_le_bytes.
    simpl Z.eqb. cbn [negb]. do 2 f_equal. apply le_value_le_bytes. by apply (in_u_fixed 64).
  - destruct (Hl l Hi) as [E1 E2]. cbn. by rewrite E1, E2.
  - destruct (Hl l Hi) as [E1 E2]. cbn. by rewrite E1, E2.
Qed.
Lemma decode_operand_Ok spec operand i :
  spec ∈ PULSE_OPCODE_SPECS_V1 -> Z.of_nat (length operand) = os_operand_bytes spec ->
  decode_operand (os_kind spec) operand = Ok i ->
  instruction_ok i /\ instruction_bytes i = os_opcode spec :: operand.
Proof.
  intros Hin Hlen Hd.
  assert (Hnil : os_operand_bytes spec = 0 -> operand = []) by (destruct operand; simpl in *; lia || done).
  assert (Hone : os_operand_bytes spec = 1 -> exists x, operand = [x]).
  { destruct operand as [|x [|]]; simpl in *; (lia || eauto). }
  assert (Hloc : forall x, validate_bytecode_local (Z_of_byte x) = Ok () ->
    0 <= Z_of_byte x < PULSE_VM_MAX_LOCAL_SLOTS_V1).
  { intros x. unfold validate_bytecode_local. intros ?. inv_ok. bool_props.
    pose proof (Z_of_byte_range x). lia. }
  repeat (apply elem_of_cons in Hin as [->|Hin]); [..|by apply elem_of_nil in Hin];
    cbn in Hnil, Hone, Hlen; cbn [os_kind os_opcode] in *;
    first [ rewrite (Hnil eq_refl) in *; cbn in Hd; simplify_eq; by split
          | destruct (Hone eq_refl) as [x ->]; cbn in Hd | cbn in Hd ].
  - rewrite Hlen in Hd. simpl in Hd. simplify_eq. split.
    + pose proof (le_value_range operand) as Hr. rewrite Hlen in Hr.
      unfold instruction_ok, in_u, u_max. change (256 ^ 8) with (2 ^ 64) in Hr. lia.
    + unfold instruction_bytes. cbn [opcode_spec_for_instruction_v1 instruction_operand].
      replace (le_bytes 8 (le_value operand)) with operand; [done|].
      replace 8%nat with (length operand) by lia. by rewrite le_bytes_le_value.
  - destruct x; try discriminate Hd; injection Hd as <-; by split.
  - inv_ok. destruct a. split; [by apply Hloc|].
    unfold instruction_bytes. cbn. by rewrite byte_of_Z_of_byte.
  - inv_ok. destruct a. split; [by apply Hloc|].
    unfold instruction_bytes. cbn. by rewrite byte_of_Z_of_byte.
Qed.

Lemma decode_instruction_encode b c i rest :
  at_cursor b c (instruction_bytes i ++ rest) -> bounded b -> instruction_ok i ->
  decode_instruction b c = Ok (i, c + Z.of_nat (length (instruction_bytes i))).
Proof.
  intros Hc Hb Hi. unfold instruction_bytes in *.
  destruct (opcode_spec_total i) as (spec & Hs & Hk & Hbyte & Hl & _ & Hr).
  rewrite Hs in *. unfold decode_instruction, read_u8. cbn in Hc.
  pose proof (at_cursor_advance b c [os_opcode spec] _ 1 Hc eq_refl) as Hc1.
  rewrite (read_exact_at _ _ _ _ Hc Hb) by lia.
  rewrite (proj2 (Z.leb_le _ _)) by (simpl; lia). change (Z.to_nat 1) with 1%nat. cbn [take firstn].
  rewrite Hbyte. unfold or_reject. cbn [ok_or].
  rewrite (checked_cursor _ _ _ _ Hc1 Hb Hr). cbn [ok_or].
  rewrite (get_range_at _ _ _ _ Hc1), length_app, (proj2 (Z.leb_le _ _)) by lia. cbn [ok_or].
  rewrite <- Hl, Nat2Z.id, take_app_length, Hk, decode_operand_encode by done.
  do 2 f_equal. simpl. lia.
Qed.
Lemma decode_instruction_Ok b c rest i c' :
  at_cursor b c rest -> bounded b -> decode_instruction b c = Ok (i, c') ->
  instruction_ok i /\ exists rest', rest = instruction_bytes i ++ rest' /\ at_cursor b c' rest'.
Proof.
  intros Hc Hb Hd. unfold decode_instruction, read_u8 in Hd.
  destruct (read_exact 1 b c) as [[raw c1]|] eqn:Hr; [|done].
  apply (read_exact_Ok _ _ _ _ _ _ Hc Hb) in Hr as (rest1 & -> & Hlen & -> & Hc1); [|lia].
  destruct raw as [|x [|]]; simpl in Hlen; [lia| |lia]. simpl in Hd.
  destruct (opcode_spec_for_byte_v1 x) as [spec|] eqn:Hs; [|done]. simpl in Hd.
  apply opcode_spec_byte in Hs as [Hx Hin].
  pose proof (operand_bytes_range _ Hin) as Hn.
  rewrite (checked_cursor _ _ _ _ Hc1 Hb Hn) in Hd. cbn in Hd.
  rewrite (get_range_at _ _ _ _ Hc1) in Hd by lia. destruct (Z.leb_spec (os_operand_bytes spec) (Z.of_nat (length rest1))); [|done].
  simpl in Hd. inv_ok. simplify_eq.
  assert (Hlen' : Z.of_nat (length (take (Z.to_nat (os_operand_bytes spec)) rest1)) = os_operand_bytes spec)
    by (rewrite length_take; lia).
  destruct (decode_operand_Ok _ _ _ Hin Hlen' Hok) as [Hi Hbytes].
  split; [done|]. exists (drop (Z.to_nat (os_operand_bytes spec)) rest1). rewrite Hbytes. split.
  - cbn. by rewrite take_drop.
  - eapply at_cursor_advance; [|symmetry; exact Hlen']. by rewrite take_drop.
Qed.

(** *** Programs *)

Lemma decode_instructions_encode b c ins rest :
  at_cursor b c (concat (map instruction_bytes ins) ++ rest) -> bounded b ->
  Forall instruction_ok ins ->
  exists c', decode_instructions (length ins) b c = Ok (ins, c') /\ at_cursor b c' rest.
Proof.
  revert c. induction ins as [|i ins IH]; intros c Hc Hb Hok; simpl in *; [eauto|].
  apply Forall_cons in Hok as [Hi Hok]. rewrite <- app_assoc in Hc.
  rewrite (decode_instruction_encode _ _ _ _ Hc Hb Hi).
  destruct (IH (c + Z.of_nat (length (instruction_bytes i)))) as (c' & -> & Hc'); [|done|done|eauto].
  by eapply at_cursor_advance.
Qed.
Lemma decode_instructions_Ok n b c rest ins c' :
  at_cursor b c rest -> bounded b -> decode_instructions n b c = Ok (ins, c') ->
  length ins = n /\ Forall instruction_ok ins /\
  exists rest', rest = concat (map instruction_bytes ins) ++ rest' /\ at_cursor b c' rest'.
Proof.
  revert c rest ins. induction n as [|n IH]; intros c rest ins Hc Hb Hd; simpl in Hd.
  { simplify_eq. simpl. eauto. }
  destruct (decode_instruction b c) as [[i c1]|] eqn:Hi; [|done].
  destruct (decode_instruction_Ok _ _ _ _ _ Hc Hb Hi) as (Hiok & rest1 & -> & Hc1).
  destruct (decode_instructions n b c1) as [[ins1 c2]|] eqn:Hd1; [|done]. simplify_eq.
  destruct (IH _ _ _ Hc1 Hb Hd1) as (Hlen & Hok & rest2 & -> & Hc2).
  split_and!; [simpl; lia|by constructor|]. exists rest2. simpl. by rewrite <- app_assoc.
Qed.

(** The fields of the header, one reader at a time. *)
Lemma read_uint_encode n b c x rest :
  at_cursor b c (le_bytes n x ++ rest) -> bounded b -> (n <= 8)%nat ->
  read_exact (Z.of_nat n) b c = Ok (le_bytes n x, c + Z.of_nat n) /\
  at_cursor b (c + Z.of_nat n) rest.
Proof.
  intros Hc Hb Hn.
  assert (Hc' : at_cursor b (c + Z.of_nat n) rest)
    by (eapply at_cursor_advance; [done|by rewrite length_le_bytes]).
  split; [|done]. apply (read_exact_Ok _ _ _ _ _ _ Hc Hb); [lia|]. exists rest.
  by rewrite length_le_bytes.
Qed.

Definition max_instructions (ins : list PulseInstructionV1) : Prop :=
  Z.of_nat (length ins) <= PULSE_VM_MAX_INSTRUCTIONS_V1.

Lemma decode_program_bytes ins :
  Forall instruction_ok ins -> max_instructions ins ->
  decode_and_validate_bytecode_v1 (program_bytes ins) =
  let? analysis := analyze_instructions ins in Ok (mkValidatedPulseProgramV1 ins analysis).
Proof.
  intros Hok Hlen. unfold decode_and_validate_bytecode_v1, max_instructions in *.
  set (b := program_bytes ins).
  assert (Hb : bounded b).
  { unfold bounded. pose proof (length_program_bytes ins). fold b in H.
    unfold PULSE_VM_MAX_BYTECODE_BYTES_V1, PULSE_VM_MAX_INSTRUCTIONS_V1 in *. lia. }
  rewrite (proj2 (Z.ltb_ge _ _)) by exact Hb.
  pose proof (at_cursor_start b) as Hc. unfold b at 2, program_bytes, bytecode_header in Hc.
  rewrite <- !app_assoc in Hc.
  change PULSE_BYTECODE_MAGIC_V1 with (le_bytes 4 (le_value PULSE_BYTECODE_MAGIC_V1)) in Hc.
  destruct (read_uint_encode 4 _ _ _ _ Hc Hb ltac:(lia)) as [E0 Hc0].
  destruct (read_uint_encode 2 _ _ _ _ Hc0 Hb ltac:(lia)) as [E1 Hc1].
  destruct (read_uint_encode 2 _ _ _ _ Hc1 Hb ltac:(lia)) as [E2 Hc2].
  destruct (read_uint_encode 4 _ _ _ _ Hc2 Hb ltac:(lia)) as [E3 Hc3].
  change (Z.of_nat 4) with 4 in *. change (Z.of_nat 2) with 2 in *. unfold read_u16, read_u32.
  rewrite E0. rewrite (bool_decide_eq_false_2 (_ <> _)) by (intros Hn; by apply Hn).
  rewrite E1. change (negb (le_value _ =? PULSE_BYTECODE_VERSION_V1)) with false. cbv iota.
  rewrite E2. change (negb (le_value _ =? PULSESCRIPT_COMPILER_VERSION_V1)) with false. cbv iota.
  rewrite E3, le_value_le_bytes.
  2: { unfold PULSE_VM_MAX_INSTRUCTIONS_V1 in Hlen. change (256 ^ Z.of_nat 4) with (2 ^ 32). lia. }
  rewrite (proj2 (Z.ltb_ge _ _)) by exact Hlen. rewrite Nat2Z.id.
  rewrite <- (app_nil_r (concat _)) in Hc3.
  destruct (decode_instructions_encode _ _ _ _ Hc3 Hb Hok) as (c' & -> & Hend).
  apply at_cursor_end in Hend. rewrite (proj2 Hend eq_refl), Z.eqb_refl. done.
Qed.

(** A field the reader accepted is the bytes of its value. *)
Lemma read_uint_Ok n b c rest x c' :
  at_cursor b c rest -> bounded b -> (n <= 8)%nat ->
  read_exact (Z.of_nat n) b c = Ok (x, c') ->
  exists rest', rest = le_bytes n (le_value x) ++ rest' /\ at_cursor b c' rest'.
Proof.
  intros Hc Hb Hn Hr. apply (read_exact_Ok _ _ _ _ _ _ Hc Hb) in Hr as (rest' & -> & Hlen & -> & Hc');
    [|lia]. exists rest'. split; [|done]. replace n with (length x) by lia.
  by rewrite le_bytes_le_value.
Qed.

Lemma decode_and_validate_Ok b p :
  decode_and_validate_bytecode_v1 b = Ok p ->
  b = program_bytes (vpp_instructions p) /\ Forall instruction_ok (vpp_instructions p) /\
  max_instructions (vpp_instructions p) /\
  analyze_instructions (vpp_instructions p) = Ok (vpp_analysis p).
Proof.
  intros Hd. unfold decode_and_validate_bytecode_v1, read_u16, read_u32 in Hd.
  destruct (Z.ltb_spec PULSE_VM_MAX_BYTECODE_BYTES_V1 (Z.of_nat (length b))) as [|Hb]; [done|].
  change (bounded b) in Hb. pose proof (at_cursor_start b) as Hc.
  destruct (read_exact 4 b 0) as [[x0 c0]|] eqn:E0; [|done].
  destruct (read_uint_Ok 4 _ _ _ _ _ Hc Hb ltac:(lia) E0) as (r0 & Hr0 & Hc0).
  destruct (bool_decide (x0 <> _)) eqn:Ex0; [done|].
  destruct (read_exact 2 b c0) as [[x1 c1]|] eqn:E1; [|done].
  destruct (read_uint_Ok 2 _ _ _ _ _ Hc0 Hb ltac:(lia) E1) as (r1 & Hr1 & Hc1).
  destruct (negb (le_value x1 =? _)) eqn:Ex1; [done|].
  destruct (read_exact 2 b c1) as [[x2 c2]|] eqn:E2; [|done].
  destruct (read_uint_Ok 2 _ _ _ _ _ Hc1 Hb ltac:(lia) E2) as (r2 & Hr2 & Hc2).
  destruct (negb (le_value x2 =? _)) eqn:Ex2; [done|].
  destruct (read_exact 4 b c2) as [[x3 c3]|] eqn:E3; [|done].
  destruct (read_uint_Ok 4 _ _ _ _ _ Hc2 Hb ltac:(lia) E3) as (r3 & Hr3 & Hc3).
  destruct (Z.ltb_spec PULSE_VM_MAX_INSTRUCTIONS_V1 (le_value x3)) as [|Hn]; [done|].
  destruct (decode_instructions _ b c3) as [[ins c4]|] eqn:E4; [|done].
  destruct (decode_instructions_Ok _ _ _ _ _ _ Hc3 Hb E4) as (Hlen & Hok & r4 & Hr4 & Hc4).
  destruct (negb (c4 =? _)) eqn:Ex4; [done|].
  destruct (analyze_instructions ins) as [a|] eqn:Ea; [|done]. injection Hd as <-. bool_props. simpl.
  apply at_cursor_end in Hc4. apply Hc4 in Ex4. apply dec_stable in Ex0.
  pose proof (le_value_range x3).
  assert (Hcount : Z.of_nat (length ins) = le_value x3) by lia.
  split_and!; [|done|unfold max_instructions; lia|done].
  unfold program_bytes, bytecode_header. rewrite Hcount, <- Ex1, <- Ex2, <- !app_assoc.
  rewrite Hr0, Hr1, Hr2, Hr3, Hr4, Ex4, app_nil_r. by subst x0.
Qed.

(** *** Type soundness *)

Definition initial_analysis : AnalysisState := mkAnalysisState [] empty_locals 0 0 0 false.

Lemma initial_ok : analysis_inv initial_analysis /\ machine_ok (mkMachine [] empty_locals) initial_analysis.
Proof.
  split; split; try done.
  - simpl. apply Forall_replicate. done.
Qed.

Lemma analyze_instructions_Ok ins a :
  analyze_instructions ins = Ok a ->
  max_instructions ins /\ exists s t,
    try_fold (analyze_body (Z.of_nat (length ins))) initial_analysis (enumerate ins) = Ok s /\
    analysis_inv s /\ as_halted s = true /\ as_stack s = [t] /\
    a = mkPulseStaticAnalysisV1 (Z.of_nat (length ins)) (as_compute_units s) (as_max_stack_values s)
          (as_local_slots_used s) t 0 0.
Proof.
  unfold analyze_instructions. intros Ha.
  destruct (Z.ltb_spec PULSE_VM_MAX_INSTRUCTIONS_V1 (Z.of_nat (length ins))) as [|Hn]; [done|].
  split; [done|]. fold initial_analysis in Ha. unfold enumerate in *.
  destruct (try_fold _ _ _) as [s|] eqn:Hf; [|done].
  destruct (as_halted s) eqn:Hh; [|done]. simpl in Ha.
  destruct (analyze_loop_inv _ _ _ _ _ (proj1 initial_ok) Hf) as [Hinv _].
  pose proof (analyze_loop_halted _ _ _ _ _ (proj1 initial_ok) eq_refl
    (Z.le_refl (0 + Z.of_nat (length ins))) Hf Hh) as Hl.
  destruct (as_stack s) as [|t [|]] eqn:Hs; try done. simpl in Ha. inv_ok.
  exists s, t. split_and!; done.
Qed.

(** The result of running an analysed program: a value of the announced type
    with the announced usage, or an overflow at one of its instructions. *)
Definition sound_outcome (a : PulseStaticAnalysisV1) (r : vm PulseVmExecutionV1) : Prop :=
  (exists v, r = Ok (mkPulseVmExecutionV1 v (psa_instruction_count a)
                       (mkPulseVmResourceUsageV1 (psa_compute_units a) (psa_max_stack_values a)
                          (psa_local_slots_used a) 0 0)) /\
     value_type v = psa_result_type a /\ value_ok v) \/
  (exists j, 0 <= j < psa_instruction_count a /\ r = rejects (ArithmeticOverflow j)).

Lemma execute_loop_program ins a :
  Forall instruction_ok ins -> analyze_instructions ins = Ok a ->
  (exists m v, execute_loop initial_vm_state (enumerate ins) =
      Ok (mkVmState m (psa_compute_units a) (psa_instruction_count a)) /\
      m_stack m = [v] /\ value_type v = psa_result_type a /\ value_ok v) \/
  (exists j, 0 <= j < psa_instruction_count a /\
     execute_loop initial_vm_state (enumerate ins) = rejects (ArithmeticOverflow j)).
Proof.
  intros Hok Ha. apply analyze_instructions_Ok in Ha as (Hmax & s & t & Hf & Hinv & Hh & Hs & ->).
  unfold max_instructions, PULSE_VM_MAX_INSTRUCTIONS_V1 in Hmax. unfold enumerate in *. simpl.
  destruct initial_ok as [Hi Hm].
  destruct (execute_loop_sound (Z.of_nat (length ins)) 0 ins _ _ s 0 Hi Hm Hok) as [(m & E & [Hst _ Hvs _])|(j & Hj & E)];
    [lia|lia|unfold u_max; lia|done| |].
  - left. rewrite Hs in Hst. destruct (m_stack m) as [|v [|]] eqn:Hv; simplify_eq/=.
    apply Forall_cons in Hvs as [? _]. eauto 10.
  - right. eauto.
Qed.

Lemma execute_sound b budget p :
  decode_and_validate_bytecode_v1 b = Ok p -> budget_validate budget = Ok () ->
  psa_compute_units (vpp_analysis p) <= rb_compute_units budget ->
  sound_outcome (vpp_analysis p) (execute_pulse_bytecode_v1 b budget).
Proof.
  intros Hd Hb Hc. pose proof (decode_and_validate_Ok _ _ Hd) as (_ & Hok & _ & Ha).
  unfold execute_pulse_bytecode_v1. rewrite Hb, Hd. cbn [map_err].
  rewrite (proj2 (Z.ltb_ge _ _)) by done.
  destruct (execute_loop_program _ _ Hok Ha) as [(m & v & -> & Hst & Ht & Hv)|(j & Hj & ->)];
    [left|right; eauto].
  cbn [vs_compute_units vs_machine vs_executed]. rewrite Z.eqb_refl. cbn [negb].
  rewrite (proj2 (Z.ltb_ge _ _)) by done. rewrite Hst. simpl. eauto.
Qed.

(** C23: type soundness of the contract VM: bytecode that passes validation,
    executed with a valid budget of at least the analysed compute units, returns a
    value of the analysed result type (a [u64] in range or a boolean), after the
    analysed number of instructions and with the analysed compute units, peak
    stack depth and local slots, or rejects with [ArithmeticOverflow] at one of
    the program's instructions; it cannot fail in any other way. *)
Theorem vm_type_soundness b budget a :
  validate_pulse_bytecode_v1 b = Ok a -> budget_validate budget = Ok () ->
  psa_compute_units a <= rb_compute_units budget ->
  sound_outcome a (execute_pulse_bytecode_v1 b budget).
Proof.
  unfold validate_pulse_bytecode_v1. intros Hv Hb Hc. inv_ok. by apply execute_sound.
Qed.

(** *** The peak stack depth *)

Lemma analyze_step_peak count index s i s' :
  analyze_step count index s i = Ok s' ->
  as_max_stack_values s' = as_max_stack_values s \/
  as_max_stack_values s' = Z.of_nat (length (as_stack s')).
Proof.
  intros Ha. destruct i; cbn [analyze_step] in Ha;
    repeat match goal with H : match as_stack s with [] => _ | _ => _ end = _ |- _ =>
      destruct (as_stack s); [done|] end;
    inv_ok;
    repeat match goal with H : with_pushed _ _ _ = Ok _ |- _ => apply with_pushed_Ok in H as [? ->] end;
    simpl; lia.
Qed.
(** The reported maximum is the depth after some prefix. *)
Lemma analyze_loop_peak count idx ins s s' :
  try_fold (analyze_body count) s (enumerate_from idx ins) = Ok s' ->
  as_max_stack_values s' = as_max_stack_values s \/
  exists n sn, try_fold (analyze_body count) s (enumerate_from idx (take n ins)) = Ok sn /\
    Z.of_nat (length (as_stack sn)) = as_max_stack_values s'.
Proof.
  revert idx s. induction ins as [|i ins IH]; intros idx s Hf; simpl in Hf; [left; by simplify_eq|].
  destruct (analyze_body count s (idx, i)) as [s1|] eqn:Hb; [|done].
  destruct (IH _ _ Hf) as [E|(n & sn & En & Hn)].
  - pose proof Hb as Hb'. unfold analyze_body in Hb'. inv_ok.
    match goal with H : analyze_step _ _ _ _ = Ok _ |- _ => apply analyze_step_peak in H as [Hp|Hp] end.
    + left. rewrite E. exact Hp.
    + right. exists 1%nat, s1. simpl. rewrite Hb. split; [done|]. congruence.
  - right. exists (S n), sn. simpl. by rewrite Hb.
Qed.
Lemma try_fold_prefix {E A B} (f : B -> A -> result E B) acc l1 l2 r :
  try_fold f acc (l1 ++ l2) = Ok r -> exists r1, try_fold f acc l1 = Ok r1 /\ try_fold f r1 l2 = Ok r.
Proof. rewrite try_fold_app. destruct (try_fold f acc l1); [eauto|done]. Qed.

Lemma execute_prefix ins s n sn :
  Forall instruction_ok ins -> max_instructions ins ->
  try_fold (analyze_body (Z.of_nat (length ins))) initial_analysis (enumerate ins) = Ok s ->
  try_fold (analyze_body (Z.of_nat (length ins))) initial_analysis (enumerate (take n ins)) = Ok sn ->
  (exists vs, execute_loop initial_vm_state (enumerate (take n ins)) = Ok vs /\
     length (m_stack (vs_machine vs)) = length (as_stack sn)) \/
  (exists j, execute_loop initial_vm_state (enumerate (take n ins)) = rejects (ArithmeticOverflow j)).
Proof.
  intros Hok Hmax Hf Hn. unfold max_instructions, PULSE_VM_MAX_INSTRUCTIONS_V1, enumerate in *.
  destruct initial_ok as [Hi Hm].
  destruct (execute_loop_sound (Z.of_nat (length ins)) 0 (take n ins) _ _ sn 0 Hi Hm)
    as [(m & E & [Hst _ _ _])|(j & _ & E)];
    [by apply Forall_take|rewrite length_take; lia|lia|rewrite length_take; unfold u_max; lia|done| |].
  - left. eexists; split; [exact E|]. simpl. by rewrite <- Hst, length_map.
  - right. eauto.
Qed.

(** Overflow in a prefix is overflow of the program. *)
Lemma execute_loop_app s l1 l2 vs :
  execute_loop s (l1 ++ l2) = Ok vs -> is_ok (execute_loop s l1) = true.
Proof.
  revert s. induction l1 as [|[k i] l1 IH]; intros s Hr; simpl in *; [done|].
  inv_ok; [|done]. by eapply IH.
Qed.

Lemma vm_peak ins a :
  Forall instruction_ok ins -> analyze_instructions ins = Ok a ->
  (forall n vs, execute_loop initial_vm_state (enumerate (take n ins)) = Ok vs ->
     Z.of_nat (length (m_stack (vs_machine vs))) <= psa_max_stack_values a) /\
  (is_ok (execute_loop initial_vm_state (enumerate ins)) = true ->
     exists n vs, execute_loop initial_vm_state (enumerate (take n ins)) = Ok vs /\
       Z.of_nat (length (m_stack (vs_machine vs))) = psa_max_stack_values a).
Proof.
  intros Hok Ha. apply analyze_instructions_Ok in Ha as (Hmax & s & t & Hf & Hinv & _ & _ & ->). simpl.
  split.
  - intros n vs Hvs. pose proof Hf as Hf'. rewrite <- (take_drop n ins) in Hf' at 2.
    unfold enumerate in Hf'. rewrite enumerate_from_app in Hf'.
    apply try_fold_prefix in Hf' as (sn & Hn & Hrest).
    destruct (analyze_loop_inv _ _ _ _ _ (proj1 initial_ok) Hn) as [Hinvn _].
    destruct (analyze_loop_inv _ _ _ _ _ Hinvn Hrest) as [_ Hmono].
    destruct (execute_prefix _ _ _ _ Hok Hmax Hf Hn) as [(vs' & E & Hl)|(j & E)]; [|by rewrite Hvs in E].
    rewrite Hvs in E. simplify_eq. rewrite Hl. destruct Hinvn. lia.
  - intros Hrun.
    assert (Hp : exists n sn, try_fold (analyze_body (Z.of_nat (length ins))) initial_analysis
      (enumerate (take n ins)) = Ok sn /\ Z.of_nat (length (as_stack sn)) = as_max_stack_values s).
    { destruct (analyze_loop_peak _ _ _ _ _ Hf) as [E|(n & sn & Hn & Hl)]; [|by eauto].
      exists 0%nat, initial_analysis. simpl. by rewrite E. }
    destruct Hp as (n & sn & Hn & Hl). exists n.
    destruct (execute_prefix _ _ _ _ Hok Hmax Hf Hn) as [(vs & E & Hlen)|(j & E)].
    + exists vs. split; [done|]. lia.
    + destruct (execute_loop _ (enumerate ins)) as [vs|] eqn:Hall; [|done].
      rewrite <- (take_drop n ins) in Hall. unfold enumerate in *. rewrite enumerate_from_app in Hall.
      apply execute_loop_app in Hall. by rewrite E in Hall.
Qed.

(** The peak stack depth the VM reports is the real one, and at most 256: in
    a run of validated bytecode the stack is never deeper after any prefix of the
    instructions, and a run that succeeds reaches that depth. *)
Lemma vm_peak_stack_exact b p :
  decode_and_validate_bytecode_v1 b = Ok p ->
  let peak := psa_max_stack_values (vpp_analysis p) in
  let run n := execute_loop initial_vm_state (enumerate (take n (vpp_instructions p))) in
  peak <= PULSE_VM_MAX_STACK_VALUES_V1 /\
  (forall n vs, run n = Ok vs -> Z.of_nat (length (m_stack (vs_machine vs))) <= peak) /\
  (is_ok (run (length (vpp_instructions p))) = true ->
   exists n vs, run n = Ok vs /\ Z.of_nat (length (m_stack (vs_machine vs))) = peak).
Proof.
  intros (_ & Hok & _ & Ha)%decode_and_validate_Ok peak run.
  destruct (vm_peak _ _ Hok Ha) as [H1 H2]. split_and!; [|done|].
  - apply analyze_instructions_Ok in Ha as (_ & s & t & _ & [] & _ & _ & E). unfold peak. rewrite E.
    simpl. lia.
  - unfold run. rewrite take_ge by done. exact H2.
Qed.

(** ** Round trip *)

(** C24: the bytecode format is a bijection: the reader accepts exactly the
    strings the writer produces for programs that pass the analysis, and returns
    that program with its analysis. *)
Theorem bytecode_roundtrip b p :
  decode_and_validate_bytecode_v1 b = Ok p <->
  Forall instruction_ok (vpp_instructions p) /\
  analyze_instructions (vpp_instructions p) = Ok (vpp_analysis p) /\
  encode_bytecode_v1 (vpp_instructions p) = Ok b.
Proof.
  rewrite encode_bytecode_eq. split.
  - intros (-> & Hok & Hmax & Ha)%decode_and_validate_Ok. split_and!; [done..|].
    by rewrite (proj2 (Z.ltb_ge _ _)) by exact Hmax.
  - intros (Hok & Ha & He). inv_ok. bool_props. rewrite decode_program_bytes by done.
    rewrite Ha. by destruct p.
Qed.

(** ** No internal errors

    The codes 24, 25 and 27 report a broken invariant of the toolchain itself;
    [None] is a panic. *)

Definition user_error (e : option PulseVmV1Error) : Prop :=
  match e with Some e => rejection_code e ∉ [24; 25; 27] | None => False end.
Definition clean {A} (r : vm A) : Prop :=
  match r with Ok _ => True | Err e => user_error e end.

Lemma clean_bind {A B} (c : vm A) (k : A -> vm B) :
  clean c -> (forall a, c = Ok a -> clean (k a)) -> clean (let? a := c in k a).
Proof. destruct c; simpl; auto. Qed.
Lemma clean_reject {A} e : rejection_code e ∉ [24; 25; 27] -> clean (A:=A) (rejects e).
Proof. done. Qed.
Lemma clean_or_reject {A} (o : option A) e : rejection_code e ∉ [24; 25; 27] -> clean (or_reject o e).
Proof. by destruct o. Qed.
Lemma clean_fold {A B} (f : B -> A -> vm B) (P : list A -> B -> Prop) l acc :
  P [] acc ->
  (forall pre x b, pre ++ [x] `prefix_of` l -> P pre b ->
     clean (f b x) /\ forall b', f b x = Ok b' -> P (pre ++ [x]) b') ->
  clean (try_fold f acc l).
Proof.
  intros H0 Hstep.
  cut (forall post pre b, l = pre ++ post -> P pre b -> clean (try_fold f b post)).
  { intros Hcut. by apply (Hcut l []). }
  induction post as [|x post IH]; intros pre b -> HP; simpl; [done|].
  destruct (Hstep pre x b) as [Hc Hn]; [exists post; by rewrite <- app_assoc|done|].
  destruct (f b x) as [b'|]; [|done]. apply (IH (pre ++ [x])); [by rewrite <- app_assoc|by apply Hn].
Qed.

Ltac clean_step :=
  match goal with
  | |- clean (Ok _) => exact I
  | |- clean (rejects _) => by_decide
  | |- clean (or_reject _ _) => apply clean_or_reject; by_decide
  | |- clean (pop_expected_type ?s _ _) => unfold pop_expected_type
  | |- clean (push_type _ _ _) => unfold push_type
  | |- clean (with_pushed _ _ _) => unfold with_pushed
  | |- clean (validate_bytecode_local _) => unfold validate_bytecode_local
  | |- clean (match ?c with Ok _ => _ | Err _ => _ end) => apply clean_bind; [|intros ? ?]
  | |- clean (if ?c then _ else _) => destruct c eqn:?
  | |- clean (let '(_, _) := ?p in _) => destruct p
  | |- clean (match ?o with [] => _ | _ => _ end) => destruct o eqn:?
  | |- clean (match ?o with Some _ => _ | None => _ end) => destruct o eqn:?
  end.

Lemma analyze_step_clean count index s i :
  analysis_inv s -> instruction_ok i -> clean (analyze_step count index s i).
Proof.
  intros [_ _ Hloc] Hi. unfold PULSE_VM_MAX_LOCAL_SLOTS_V1 in *.
  destruct i; cbn [analyze_step]; repeat clean_step.
  all: exfalso; apply lookup_ge_None in Heqo; unfold instruction_ok, PULSE_VM_MAX_LOCAL_SLOTS_V1 in Hi; lia.
Qed.

Lemma elem_of_enumerate_from {A} n (l : list A) k x :
  (k, x) ∈ enumerate_from n l -> n <= k < n + Z.of_nat (length l) /\ x ∈ l.
Proof.
  revert n. induction l as [|y l IH]; intros n; simpl; [by rewrite elem_of_nil|].
  intros [[= -> ->]|(Hk & Hx)%IH]%elem_of_cons; (split; [lia|by constructor]).
Qed.
Lemma length_enumerate_from {A} n (l : list A) : length (enumerate_from n l) = length l.
Proof. revert n. induction l; intros n; simpl; auto. Qed.

Lemma analyze_instructions_clean ins :
  Forall instruction_ok ins -> clean (analyze_instructions ins).
Proof.
  intros Hok. unfold analyze_instructions. repeat clean_step.
  - apply Z.ltb_ge in Heqb. unfold PULSE_VM_MAX_INSTRUCTIONS_V1 in Heqb.
    apply (clean_fold _ (fun pre s => analysis_inv s /\
      0 <= as_compute_units s <= 2 * Z.of_nat (length pre))).
    { split; [apply initial_ok|done]. }
    intros pre [k i] s Hpre [Hinv Hcu].
    assert (Hk : (k, i) ∈ enumerate ins).
    { destruct Hpre as [post ->]. set_solver. }
    apply elem_of_enumerate_from in Hk as [_ Hi]. rewrite Forall_forall in Hok.
    apply prefix_length in Hpre. unfold enumerate in Hpre.
    rewrite length_app, length_enumerate_from in Hpre. simpl in Hpre.
    destruct (compute_cost_total i) as (c & Hc & Hcr). split.
    + unfold analyze_body. simpl. rewrite Hc. unfold checked_add.
      rewrite (proj2 (Z.leb_le _ _)) by (unfold u_max; lia). simpl.
      apply analyze_step_clean; [by apply analysis_inv_compute|by apply Hok].
    + intros s' Hb. destruct (analyze_body_Ok _ _ _ _ _ Hinv Hb) as (c' & Hc' & Hcu' & _ & _ & Hinv' & _).
      split; [done|]. rewrite length_app. simpl. rewrite Hc in Hc'. simplify_eq. lia.
  - exfalso. apply negb_false_iff in Heqb0.
    pose proof (analyze_loop_halted _ _ _ _ _ (proj1 initial_ok) eq_refl
      (Z.le_refl (0 + Z.of_nat (length ins))) H Heqb0) as Hl.
    destruct (as_stack a) as [|? []]; simpl in *; done.
Qed.

Lemma read_exact_clean n b c : clean (read_exact n b c).
Proof. unfold read_exact. repeat clean_step. Qed.
Lemma decode_operand_clean spec operand :
  spec ∈ PULSE_OPCODE_SPECS_V1 -> Z.of_nat (length operand) = os_operand_bytes spec ->
  clean (decode_operand (os_kind spec) operand).
Proof.
  intros Hin Hlen.
  repeat (apply elem_of_cons in Hin as [->|Hin]); [..|by apply elem_of_nil in Hin]; cbn in Hlen;
    cbn [os_kind decode_operand]; rewrite ?Hlen; try exact I;
    destruct operand as [|x [|]]; simpl in Hlen; try lia; cbn [or_reject ok_or head];
    repeat clean_step.
  destruct x; by_decide.
Qed.
Lemma decode_instruction_clean b c rest :
  at_cursor b c rest -> bounded b -> clean (decode_instruction b c).
Proof.
  intros Hc Hb. unfold decode_instruction, read_u8.
  destruct (read_exact 1 b c) as [[raw c1]|e] eqn:Hr.
  2: { pose proof (read_exact_clean 1 b c) as Hcl. by rewrite Hr in Hcl. }
  apply (read_exact_Ok _ _ _ _ _ _ Hc Hb) in Hr as (rest1 & -> & Hlen & -> & Hc1); [|lia].
  destruct raw as [|x [|]]; simpl in Hlen; [lia| |lia].
  destruct (opcode_spec_for_byte_v1 x) as [spec|] eqn:Hs; [|by_decide]. simpl.
  apply opcode_spec_byte in Hs as [_ Hin].
  pose proof (operand_bytes_range _ Hin) as Hn.
  rewrite (checked_cursor _ _ _ _ Hc1 Hb Hn). cbn.
  rewrite (get_range_at _ _ _ _ Hc1) by lia. destruct (Z.leb_spec (os_operand_bytes spec) (Z.of_nat (length rest1))); [|by_decide].
  simpl. apply clean_bind; [|done]. apply decode_operand_clean; [done|]. rewrite length_take. lia.
Qed.
Lemma decode_instructions_clean n b c rest :
  at_cursor b c rest -> bounded b -> clean (decode_instructions n b c).
Proof.
  revert c rest. induction n as [|n IH]; intros c rest Hc Hb; simpl; [done|].
  destruct (decode_instruction b c) as [[i c1]|] eqn:Hi.
  - destruct (decode_instruction_Ok _ _ _ _ _ Hc Hb Hi) as (_ & rest1 & _ & Hc1).
    specialize (IH _ _ Hc1 Hb). destruct (decode_instructions n b c1) as [[]|]; done.
  - pose proof (decode_instruction_clean _ _ _ Hc Hb) as Hcl. by rewrite Hi in Hcl.
Qed.
Lemma read_clean {A} n b c rest (k : bytes -> Z -> vm A) :
  at_cursor b c rest -> bounded b -> 0 <= n <= 8 ->
  (forall x c' rest', at_cursor b c' rest' -> clean (k x c')) ->
  clean (let? (x, c') := read_exact n b c in k x c').
Proof.
  intros Hc Hb Hn Hk. apply clean_bind; [apply read_exact_clean|].
  intros [x c'] (rest' & _ & _ & _ & Hc')%(read_exact_Ok _ _ _ _ _ _ Hc Hb); [|done]. by eapply Hk.
Qed.
(** A reader that maps the bytes it reads. *)
Lemma map_read_bind {A} (r : vm (bytes * Z)) (k : Z -> Z -> vm A) :
  (let? (v, c) := let? (raw, c) := r in Ok (le_value raw, c) in k v c) =
  let? (raw, c) := r in k (le_value raw) c.
Proof. by destruct r as [[]|]. Qed.

Lemma decode_and_validate_clean b : clean (decode_and_validate_bytecode_v1 b).
Proof.
  unfold decode_and_validate_bytecode_v1, read_u16, read_u32.
  destruct (Z.ltb_spec PULSE_VM_MAX_BYTECODE_BYTES_V1 (Z.of_nat (length b))) as [|Hb]; [by_decide|].
  change (bounded b) in Hb.
  eapply read_clean; [apply at_cursor_start|done|done|]. intros x0 c0 r0 Hc0.
  destruct (bool_decide _); [by_decide|]. rewrite map_read_bind.
  eapply read_clean; [done..|]. intros x1 c1 r1 Hc1.
  destruct (negb _); [by_decide|]. rewrite map_read_bind.
  eapply read_clean; [done..|]. intros x2 c2 r2 Hc2.
  destruct (negb _); [by_decide|]. rewrite map_read_bind.
  eapply read_clean; [done..|]. intros x3 c3 r3 Hc3.
  destruct (_ <? _); [by_decide|].
  apply clean_bind; [by eapply decode_instructions_clean|]. intros [ins c4] Hd.
  destruct (decode_instructions_Ok _ _ _ _ _ _ Hc3 Hb Hd) as (_ & Hok & _).
  destruct (negb _); [by_decide|].
  apply clean_bind; [by apply analyze_instructions_clean|done].
Qed.

Lemma execute_clean b budget : clean (execute_pulse_bytecode_v1 b budget).
Proof.
  destruct (budget_validate budget) as [[]|e] eqn:Hb.
  2: { unfold execute_pulse_bytecode_v1. rewrite Hb. by_decide. }
  destruct (decode_and_validate_bytecode_v1 b) as [p|e] eqn:Hd.
  2: { pose proof (decode_and_validate_clean b) as Hc. unfold execute_pulse_bytecode_v1.
       by rewrite Hb, Hd in *. }
  destruct (Z.leb_spec (psa_compute_units (vpp_analysis p)) (rb_compute_units budget)) as [Hc|Hc].
  - destruct (execute_sound _ _ _ Hd Hb Hc) as [(v & -> & _)|(j & _ & ->)]; [done|by_decide].
  - unfold execute_pulse_bytecode_v1. rewrite Hb, Hd. cbn [map_err].
    rewrite (proj2 (Z.ltb_lt _ _)) by lia. by_decide.
Qed.

(** ** The compiler *)

Lemma parse_local_index_Ok t line i :
  parse_local_index t line = Ok i -> 0 <= i < PULSE_VM_MAX_LOCAL_SLOTS_V1.
Proof.
  unfold parse_local_index. intros ?. inv_ok. bool_props.
  match goal with H : or_reject _ _ = Ok _ |- _ => apply or_reject_Ok, parse_uint_range in H end; [|done].
  unfold in_u in *. lia.
Qed.
Lemma parse_source_instruction_Ok tokens line i :
  parse_source_instruction tokens line = Ok i -> instruction_ok i.
Proof.
  unfold parse_source_instruction. destruct tokens as [|t ts]; [done|]. intros Hp.
  destruct (or_reject _ _) as [spec|]; [|done].
  destruct (os_kind spec), ts as [|o [|]]; try done; inv_ok; simpl; try done;
    first [by eapply parse_local_index_Ok
          |match goal with H : or_reject _ _ = Ok _ |- _ => apply or_reject_Ok in H end;
           by eapply parse_uint_range].
Qed.
Lemma parse_source_instruction_clean tokens line : clean (parse_source_instruction tokens line).
Proof.
  unfold parse_source_instruction, parse_local_index. destruct tokens as [|t ts]; [by_decide|].
  apply clean_bind; [apply clean_or_reject; by_decide|]. intros spec _.
  destruct (os_kind spec), ts as [|o [|]]; repeat clean_step.
Qed.

(** The compiler loop: every instruction is well formed and there are at most
    1024. *)
Definition compile_inv (st : bool * list PulseInstructionV1) : Prop :=
  Forall instruction_ok st.2 /\ max_instructions st.2.
Lemma compile_line_inv st p st' : compile_inv st -> compile_line st p = Ok st' -> compile_inv st'.
Proof.
  destruct st as [hs ins]. intros [Hok Hmax] Hc. unfold compile_line, compile_inv in *. simpl in *.
  destruct (trim _); [by simplify_eq|]. inv_ok; simpl in *; try done. bool_props.
  match goal with H : parse_source_instruction _ _ = Ok _ |- _ => apply parse_source_instruction_Ok in H end.
  split; [by apply Forall_app; split; [|constructor]|].
  unfold max_instructions in *. rewrite length_app. simpl. lia.
Qed.
Lemma compile_line_clean st p : clean (compile_line st p).
Proof.
  destruct st as [hs ins]. unfold compile_line. destruct (trim _); [done|].
  repeat clean_step. apply parse_source_instruction_clean.
Qed.

Section compiler.
Context `{Crypto}.

Lemma compile_loop_inv l st :
  try_fold compile_line (false, []) l = Ok st -> compile_inv st.
Proof.
  apply (try_fold_ind compile_line (fun _ st => compile_inv st)); [by split|].
  intros. by eapply compile_line_inv.
Qed.

Lemma compile_Ok source c :
  compile_pulsescript_v1 source = Ok c ->
  exists ins, Forall instruction_ok ins /\ max_instructions ins /\
    analyze_instructions ins = Ok (cps_analysis c) /\ cps_bytecode c = program_bytes ins /\
    pulse_bytecode_fingerprint_v1 (cps_bytecode c) = Ok (cps_bytecode_fingerprint c).
Proof.
  unfold compile_pulsescript_v1. intros Hc. do 2 (destruct (_ <? _); [done|]).
  destruct (try_fold _ _ _) as [[hs ins]|] eqn:Hf; [|done].
  apply compile_loop_inv in Hf as [Hok Hmax]. inv_ok. simpl.
  exists ins. rewrite encode_bytecode_eq in *. inv_ok. done.
Qed.

Lemma compile_clean source : clean (compile_pulsescript_v1 source).
Proof.
  unfold compile_pulsescript_v1. do 2 (destruct (_ <? _); [by_decide|]).
  apply clean_bind.
  { apply (clean_fold _ (fun _ _ => True)); [done|]. intros. split; [apply compile_line_clean|done]. }
  intros [hs ins] [Hok Hmax]%compile_loop_inv. simpl in *. destruct hs; [|by_decide]. simpl.
  apply clean_bind; [by apply analyze_instructions_clean|]. intros a Ha.
  rewrite encode_bytecode_eq, (proj2 (Z.ltb_ge _ _)) by exact Hmax.
  unfold pulse_bytecode_fingerprint_v1. by rewrite decode_program_bytes, Ha by done.
Qed.

(** C25: no input makes the toolchain panic or report one of its internal-error
    codes (compute accounting, runtime type, opcode table): every rejection of the
    compiler and of the interpreter is an error of the source, the bytecode or the
    budget. *)
Theorem toolchain_no_internal_error source b budget :
  clean (compile_pulsescript_v1 source) /\ clean (execute_pulse_bytecode_v1 b budget).
Proof. split; [apply compile_clean|apply execute_clean]. Qed.

(** Compiled bytecode validates with the analysis the compiler reports, and
    with any valid budget that covers it the VM returns a value of the reported
    type with the reported usage or stops at an arithmetic overflow. *)
Lemma compile_sound source c budget :
  compile_pulsescript_v1 source = Ok c ->
  validate_pulse_bytecode_v1 (cps_bytecode c) = Ok (cps_analysis c) /\
  (budget_validate budget = Ok () -> psa_compute_units (cps_analysis c) <= rb_compute_units budget ->
   sound_outcome (cps_analysis c) (execute_pulse_bytecode_v1 (cps_bytecode c) budget)).
Proof.
  intros (ins & Hok & Hmax & Ha & Hb & _)%compile_Ok.
  assert (Hd : decode_and_validate_bytecode_v1 (cps_bytecode c) =
               Ok (mkValidatedPulseProgramV1 ins (cps_analysis c)))
    by (rewrite Hb, decode_program_bytes, Ha by done; done).
  split; [unfold validate_pulse_bytecode_v1; by rewrite Hd|].
  intros Hv Hc. by apply (execute_sound _ _ _ Hd).
Qed.
End compiler.

(** ** Witnesses *)

Definition example_analysis : PulseStaticAnalysisV1 :=
  mkPulseStaticAnalysisV1 12 16 2 1 TBool 0 0.
Definition example_validated : ValidatedPulseProgramV1 :=
  mkValidatedPulseProgramV1 example_program example_analysis.

Lemma vm_type_soundness_witness :
  exists v, execute_pulse_bytecode_v1 example_bytecode example_budget =
    Ok (mkPulseVmExecutionV1 v 12 (mkPulseVmResourceUsageV1 16 2 1 0 0)) /\ value_type v = TBool.
Proof.
  destruct (vm_type_soundness example_bytecode example_budget example_analysis)
    as [(v & E & Ht & _)|(j & _ & E)]; [by_compute|by_compute|by_decide|exists v; split; [exact E|exact Ht]|].
  exfalso. vm_compute in E. discriminate E.
Defined.
Lemma vm_peak_stack_exact_witness :
  exists n vs, execute_loop initial_vm_state (enumerate (take n example_program)) = Ok vs /\
    length (m_stack (vs_machine vs)) = 2%nat.
Proof.
  destruct (vm_peak_stack_exact example_bytecode example_validated) as (_ & _ & Hp); [by_compute|].
  destruct Hp as (n & vs & E & Hl); [by_compute|]. exists n, vs. split; [exact E|].
  cbn in Hl. lia.
Defined.
Lemma compile_sound_witness :
  exists c, @compile_pulsescript_v1 model_crypto example_source = Ok c /\
    validate_pulse_bytecode_v1 (cps_bytecode c) = Ok (cps_analysis c).
Proof.
  destruct (@compile_pulsescript_v1 model_crypto example_source) as [c|] eqn:Hc;
    [|vm_compute in Hc; discriminate Hc].
  exists c. split; [reflexivity|].
  exact (proj1 (@compile_sound model_crypto example_source c example_budget Hc)).
Defined.
