(* ===== verification/Monetary.v ===== *)
(** * Monetary rules v3 ([monetary_v3.rs])

    The emission curve in Q64 fixed-point arithmetic, the cadence schedule that
    maps the canonical score of a block to economic time, the subsidy of a score,
    the coinbase claim and the maturity rule.  The theorems: the curve is defined
    everywhere, starts at zero, never decreases, ends at exactly the maximum
    supply, and the subsidies of the scores add up to it.

    [u64] and [u128] values are [Z]; every checked operation of the code is one
    here.  [debug_assert!] is not modelled (it is absent from release builds);
    [q64_pow_range] shows that the asserted bound holds. *)

From stdpp Require Import pretty.
From S2P Require Import Prelude Encoding Crypto Types.

Definition MONETARY_CADENCE_FINGERPRINT_DOMAIN_V3 : bytes :=
  str_bytes "PulseDAG:monetary-cadence:v3.0.0".
Definition MAX_SUPPLY_ATOMS : Z := 100000000000000000.
Definition GENESIS_ISSUANCE_ATOMS : Z := 0.
Definition ATOMS_PER_COIN : Z := 100000000.
Definition ECONOMIC_YEAR_SECONDS : Z := 31536000.
Definition ECONOMIC_YEAR_NS : Z := ECONOMIC_YEAR_SECONDS * 1000000000.
Definition HALF_LIFE_YEARS : Z := 3.
Definition HALF_LIFE_SECONDS : Z := HALF_LIFE_YEARS * ECONOMIC_YEAR_SECONDS.
Definition HALF_LIFE_NS : Z := HALF_LIFE_SECONDS * 1000000000.
Definition EMISSION_QUANTUM_SECONDS : Z := 21600.
Definition EMISSION_QUANTUM_NS : Z := EMISSION_QUANTUM_SECONDS * 1000000000.
Definition HALF_LIFE_QUANTA : Z := HALF_LIFE_SECONDS / EMISSION_QUANTUM_SECONDS.
Definition Q64_ONE : Z := Z.shiftl 1 64.
Definition DECAY_FACTOR_Q64 : Z := 18443825056137834748.
Definition HALF_LIFE_END_FACTOR_Q64 : Z := 9223372036854774856.
Definition YEAR1_TARGET_ISSUANCE_ATOMS : Z := 20629947401590026.
Definition TERMINAL_HALF_LIVES : Z := 57.
Definition TERMINAL_ECONOMIC_YEAR : Z := HALF_LIFE_YEARS * TERMINAL_HALF_LIVES.
Definition TERMINAL_EMISSION_QUANTUM : Z := HALF_LIFE_QUANTA * TERMINAL_HALF_LIVES.
Definition TERMINAL_EMISSION_SECONDS : Z := TERMINAL_EMISSION_QUANTUM * EMISSION_QUANTUM_SECONDS.
Definition COINBASE_MATURITY_SECONDS : Z := 3600.
Definition COINBASE_MATURITY_NS : Z := COINBASE_MATURITY_SECONDS * 1000000000.
Definition PRODUCTION_CADENCE_TARGET_INTERVAL_NS_V3 : Z := 500000000.

Record MonetaryCadenceSegment := mkMonetaryCadenceSegment {
  seg_activation_score : Z;
  seg_target_interval_ns : Z;
}.
Definition PRODUCTION_CADENCE_V3 : list MonetaryCadenceSegment :=
  [mkMonetaryCadenceSegment 0 PRODUCTION_CADENCE_TARGET_INTERVAL_NS_V3].

Inductive MonetaryV3Error :=
| EmptyCadenceSchedule
| FirstCadenceMustStartAtZero
| ZeroCadenceInterval
| NonIncreasingCadenceActivation
| NonMonotonicScoreRange
| MonetaryOverflow.
#[global] Instance MonetaryV3Error_eq_dec : EqDecision MonetaryV3Error.
Proof. solve_decision. Defined.

Abbreviation monetary := (result MonetaryV3Error).
Definition or_overflow {A} (o : option A) : monetary A := ok_or o MonetaryOverflow.

(** ** Cadence *)

(** [for pair in segments.windows(2)]. *)
Fixpoint check_cadence_pairs (segments : list MonetaryCadenceSegment) : monetary unit :=
  match segments with
  | s0 :: (s1 :: _) as rest =>
      if seg_activation_score s1 <=? seg_activation_score s0 then Err NonIncreasingCadenceActivation
      else if seg_target_interval_ns s1 =? 0 then Err ZeroCadenceInterval
      else check_cadence_pairs rest
  | _ => Ok ()
  end.
Definition validate_cadence_segments (segments : list MonetaryCadenceSegment) : monetary unit :=
  match segments with
  | [] => Err EmptyCadenceSchedule
  | first :: _ =>
      if negb (seg_activation_score first =? 0) then Err FirstCadenceMustStartAtZero
      else if seg_target_interval_ns first =? 0 then Err ZeroCadenceInterval
      else check_cadence_pairs segments
  end.

(** The loop over the segments; [acc] is [economic_time_ns]. *)
Fixpoint economic_time_loop (score acc : Z) (segments : list MonetaryCadenceSegment) : monetary Z :=
  match segments with
  | [] => Ok acc
  | segment :: rest =>
      if score <=? seg_activation_score segment then Ok acc else
      let next_activation := match rest with next :: _ => seg_activation_score next | [] => score end in
      let end_score := Z.min score next_activation in
      if end_score <=? seg_activation_score segment then economic_time_loop score acc rest else
      let steps := end_score - seg_activation_score segment in
      let? contribution := or_overflow (checked_mul 128 steps (seg_target_interval_ns segment)) in
      let? acc := or_overflow (checked_add 128 acc contribution) in
      if end_score =? score then Ok acc else economic_time_loop score acc rest
  end.
Definition economic_time_ns_for_score (score : Z) (segments : list MonetaryCadenceSegment)
  : monetary Z :=
  check validate_cadence_segments segments in
  economic_time_loop score 0 segments.

(** ** The emission curve *)

Definition ceil_div_u128 (numerator denominator : Z) : Z :=
  numerator / denominator + (if numerator mod denominator =? 0 then 0 else 1).

Definition q64_mul (lhs rhs : Z) : monetary Z :=
  let? product := or_overflow (checked_mul 128 lhs rhs) in
  Ok (Z.shiftr product 64).
(** The loop of [q64_pow] on the bits of the exponent: [exponent & 1] and
    [exponent >>= 1] are the constructors of [positive], and [xH] is the last
    round. *)
Fixpoint q64_pow_loop (exponent : positive) (result base : Z) : monetary Z :=
  match exponent with
  | xH => q64_mul result base
  | xO exponent =>
      let? base := q64_mul base base in q64_pow_loop exponent result base
  | xI exponent =>
      let? result := q64_mul result base in
      let? base := q64_mul base base in q64_pow_loop exponent result base
  end.
Definition q64_pow (exponent : Z) : monetary Z :=
  match exponent with
  | Zpos p => q64_pow_loop p Q64_ONE DECAY_FACTOR_Q64
  | _ => Ok Q64_ONE
  end.

Definition remaining_atoms_at_half_life_boundary (completed_half_lives : Z) : monetary Z :=
  if TERMINAL_HALF_LIVES <=? completed_half_lives then Ok 0 else
  let? denominator := or_overflow (if completed_half_lives <? 128
                                   then Some (Z.shiftl 1 completed_half_lives) else None) in
  or_overflow (try_into 64 (ceil_div_u128 MAX_SUPPLY_ATOMS denominator)).

Definition issuance_within_half_life_at_quantum (half_life_budget_atoms quantum : Z) : monetary Z :=
  if HALF_LIFE_QUANTA <? quantum then Err MonetaryOverflow else
  let? factor := q64_pow quantum in
  let? progress := or_overflow (checked_sub Q64_ONE factor) in
  let? normalization := or_overflow (checked_sub Q64_ONE HALF_LIFE_END_FACTOR_Q64) in
  let? product := or_overflow (checked_mul 128 half_life_budget_atoms progress) in
  or_overflow (try_into 64 (product / normalization)).

Definition target_issuance_atoms (economic_time_ns : Z) : monetary Z :=
  let completed := economic_time_ns / HALF_LIFE_NS in
  if TERMINAL_HALF_LIVES <=? completed then Ok MAX_SUPPLY_ATOMS else
  let? completed := or_overflow (try_into 32 completed) in
  let within_half_life_ns := economic_time_ns mod HALF_LIFE_NS in
  let? start_remaining := remaining_atoms_at_half_life_boundary completed in
  let? end_remaining := remaining_atoms_at_half_life_boundary (completed + 1) in
  let? budget := or_overflow (checked_sub start_remaining end_remaining) in
  let? base_issued := or_overflow (checked_sub MAX_SUPPLY_ATOMS start_remaining) in
  let? quantum := or_overflow (try_into 64 (within_half_life_ns / EMISSION_QUANTUM_NS)) in
  let within_quantum_ns := within_half_life_ns mod EMISSION_QUANTUM_NS in
  let? issued_at_quantum := issuance_within_half_life_at_quantum budget quantum in
  let? issued_at_next := issuance_within_half_life_at_quantum budget (quantum + 1) in
  let? quantum_delta := or_overflow (checked_sub issued_at_next issued_at_quantum) in
  let? product := or_overflow (checked_mul 128 quantum_delta within_quantum_ns) in
  let? partial := or_overflow (try_into 64 (product / EMISSION_QUANTUM_NS)) in
  let? value := or_overflow (checked_add 64 base_issued issued_at_quantum) in
  or_overflow (checked_add 64 value partial).

(** ** Supply, subsidy and maturity of a score *)

Definition total_supply_atoms_for_score (score : Z) (segments : list MonetaryCadenceSegment)
  : monetary Z :=
  let? t := economic_time_ns_for_score score segments in
  target_issuance_atoms t.
Definition subsidy_atoms_for_score (score : Z) (segments : list MonetaryCadenceSegment) : monetary Z :=
  if score =? 0 then Ok 0 else
  let? previous := total_supply_atoms_for_score (score - 1) segments in
  let? current := total_supply_atoms_for_score score segments in
  or_overflow (checked_sub current previous).
Definition authorized_issuance_atoms (from_score to_score : Z) (segments : list MonetaryCadenceSegment)
  : monetary Z :=
  if to_score <? from_score then Err NonMonotonicScoreRange else
  let? from := total_supply_atoms_for_score from_score segments in
  let? to := total_supply_atoms_for_score to_score segments in
  or_overflow (checked_sub to from).
Definition max_coinbase_claim_atoms (score eligible_fees_atoms : Z)
  (segments : list MonetaryCadenceSegment) : monetary Z :=
  let? subsidy := subsidy_atoms_for_score score segments in
  or_overflow (checked_add 64 subsidy eligible_fees_atoms).
Definition economic_maturity_reached (reward_score current_score : Z)
  (segments : list MonetaryCadenceSegment) : monetary bool :=
  if current_score <? reward_score then Ok false else
  let? reward_time := economic_time_ns_for_score reward_score segments in
  let? current_time := economic_time_ns_for_score current_score segments in
  Ok (COINBASE_MATURITY_NS <=? saturating_sub current_time reward_time).

(** ** Fingerprint of a cadence *)

Definition encode_segment (s : MonetaryCadenceSegment) : option bytes :=
  emit [fixed 8 (seg_activation_score s); fixed 8 (seg_target_interval_ns s)].
Definition canonical_monetary_cadence_bytes_v3 (segments : list MonetaryCadenceSegment)
  : monetary bytes :=
  check validate_cadence_segments segments in
  let? count := or_overflow (try_into 32 (Z.of_nat (length segments))) in
  or_overflow (emit (Some MONETARY_CADENCE_FINGERPRINT_DOMAIN_V3 :: fixed 4 count
                     :: map encode_segment segments)).
Definition monetary_cadence_fingerprint_v3 `{Crypto} (segments : list MonetaryCadenceSegment)
  : monetary string :=
  let? b := canonical_monetary_cadence_bytes_v3 segments in
  Ok (hex_encode (sha256 b)).

(** ** The policy text *)

Definition ORDINARY_FEE_RECIPIENT_BPS : Z := 10000.
Definition CONSENSUS_BURN_BPS : Z := 0.
Definition TAIL_EMISSION_ATOMS : Z := 0.
Definition MONETARY_POLICY_CANONICAL_V3 : string := "PulseDAG:monetary-policy:v3.0.0-smooth-v1
max_supply_atoms=100000000000000000
atoms_per_coin=100000000
genesis_issuance_atoms=0
emission_curve=normalized-q64-exponential-v1
economic_year_seconds=31536000
half_life_years=3
half_life_seconds=94608000
emission_quantum_seconds=21600
half_life_quanta=4380
decay_factor_q64=18443825056137834748
half_life_end_factor_q64=9223372036854774856
boundary_rounding=ceil-remaining-v1
terminal_half_lives=57
terminal_emission_quantum=249660
terminal_residual=folded-into-final-half-life-v1
coinbase_maturity_seconds=3600
ordinary_fee_recipient_bps=10000
consensus_burn_bps=0
tail_emission_atoms=0
score_basis=ordered-dag-ordinal-v1
programmable_resource_fees=inactive-unreachable-v3.0.0
".
Definition monetary_policy_fingerprint_v3 `{Crypto} : string :=
  hex_encode (sha256 (str_bytes MONETARY_POLICY_CANONICAL_V3)).

(** The lines of the text with the constants the code computes with. *)
Definition policy_lines : list string := [
  "PulseDAG:monetary-policy:v3.0.0-smooth-v1";
  "max_supply_atoms=" +:+ pretty MAX_SUPPLY_ATOMS;
  "atoms_per_coin=" +:+ pretty ATOMS_PER_COIN;
  "genesis_issuance_atoms=" +:+ pretty GENESIS_ISSUANCE_ATOMS;
  "emission_curve=normalized-q64-exponential-v1";
  "economic_year_seconds=" +:+ pretty ECONOMIC_YEAR_SECONDS;
  "half_life_years=" +:+ pretty HALF_LIFE_YEARS;
  "half_life_seconds=" +:+ pretty HALF_LIFE_SECONDS;
  "emission_quantum_seconds=" +:+ pretty EMISSION_QUANTUM_SECONDS;
  "half_life_quanta=" +:+ pretty HALF_LIFE_QUANTA;
  "decay_factor_q64=" +:+ pretty DECAY_FACTOR_Q64;
  "half_life_end_factor_q64=" +:+ pretty HALF_LIFE_END_FACTOR_Q64;
  "boundary_rounding=ceil-remaining-v1";
  "terminal_half_lives=" +:+ pretty TERMINAL_HALF_LIVES;
  "terminal_emission_quantum=" +:+ pretty TERMINAL_EMISSION_QUANTUM;
  "terminal_residual=folded-into-final-half-life-v1";
  "coinbase_maturity_seconds=" +:+ pretty COINBASE_MATURITY_SECONDS;
  "ordinary_fee_recipient_bps=" +:+ pretty ORDINARY_FEE_RECIPIENT_BPS;
  "consensus_burn_bps=" +:+ pretty CONSENSUS_BURN_BPS;
  "tail_emission_atoms=" +:+ pretty TAIL_EMISSION_ATOMS;
  "score_basis=ordered-dag-ordinal-v1";
  "programmable_resource_fees=inactive-unreachable-v3.0.0"].
(** The fingerprinted text states the constants of the code. *)
Example policy_text_constants :
  MONETARY_POLICY_CANONICAL_V3 =
  foldr (fun l t => l +:+ String (Ascii.ascii_of_nat 10) t) "" policy_lines.
Proof. by_compute. Qed.

Example year_one : target_issuance_atoms ECONOMIC_YEAR_NS = Ok YEAR1_TARGET_ISSUANCE_ATOMS.
Proof. by_compute. Qed.
Example half_life : target_issuance_atoms HALF_LIFE_NS = Ok (MAX_SUPPLY_ATOMS / 2).
Proof. by_compute. Qed.

(** ** The curve as a function

    [remaining k] is the supply left after [k] half-lives, [factor q] the decay
    factor of quantum [q]; their tables are evaluated once. *)

Definition ok_value (r : monetary Z) : Z := match r with Ok v => v | Err _ => 0 end.
Definition remaining (k : Z) : Z := ok_value (remaining_atoms_at_half_life_boundary k).
Definition factor (q : Z) : Z := ok_value (q64_pow q).
Definition normalization : Z := Q64_ONE - HALF_LIFE_END_FACTOR_Q64.
Definition budget (k : Z) : Z := remaining k - remaining (k + 1).
Definition issued (b q : Z) : Z := b * (Q64_ONE - factor q) / normalization.
Definition curve (t : Z) : Z :=
  let k := t / HALF_LIFE_NS in
  if TERMINAL_HALF_LIVES <=? k then MAX_SUPPLY_ATOMS else
  let q := t mod HALF_LIFE_NS / EMISSION_QUANTUM_NS in
  let w := t mod HALF_LIFE_NS mod EMISSION_QUANTUM_NS in
  MAX_SUPPLY_ATOMS - remaining k + issued (budget k) q
  + (issued (budget k) (q + 1) - issued (budget k) q) * w / EMISSION_QUANTUM_NS.

Lemma seqZ_forall (P : Z -> Prop) n : Forall P (seqZ 0 n) -> forall k, 0 <= k < n -> P k.
Proof. rewrite Forall_forall. intros HP k Hk. apply HP. apply elem_of_seqZ. lia. Qed.

Lemma remaining_table k : 0 <= k <= TERMINAL_HALF_LIVES ->
  remaining_atoms_at_half_life_boundary k = Ok (remaining k) /\ remaining (k + 1) <= remaining k /\
  0 <= remaining k <= MAX_SUPPLY_ATOMS.
Proof.
  intros Hk.
  refine (seqZ_forall (fun k => remaining_atoms_at_half_life_boundary k = Ok (remaining k) /\
    remaining (k + 1) <= remaining k /\ 0 <= remaining k <= MAX_SUPPLY_ATOMS) 58 _ k _);
    [by_decide|unfold TERMINAL_HALF_LIVES in *; lia].
Qed.

(** *** Fixed-point powers

    [q64_pow n] is below the exact power [one * (decay / one) ^ n] by less than
    [n] units: truncation loses at most one unit per multiplication. *)

Lemma q64_mul_spec l r :
  0 <= l <= Q64_ONE -> 0 <= r < Q64_ONE ->
  exists v, q64_mul l r = Ok v /\ 0 <= v /\ v * Q64_ONE <= l * r < (v + 1) * Q64_ONE /\ v <= l /\ v <= r.
Proof.
  intros Hl Hr. unfold q64_mul, checked_mul.
  assert (H1 : Q64_ONE = 2 ^ 64) by reflexivity.
  rewrite (proj2 (Z.leb_le _ _)) by (unfold u_max; rewrite H1 in *; nia). simpl.
  exists (Z.shiftr (l * r) 64). split; [done|]. rewrite Z.shiftr_div_pow2, <- H1 by lia.
  pose proof (Z.div_mod (l * r) Q64_ONE ltac:(done)).
  pose proof (Z.mod_pos_bound (l * r) Q64_ONE ltac:(done)).
  assert (0 <= l * r / Q64_ONE) by (apply Z.div_pos; nia).
  split_and!; [done|nia|nia| |]; apply Z.div_le_upper_bound; nia.
Qed.

(** [(b + 1)^n <= b^n + n * one^(n-1)] while [b + 1 <= one]. *)
Lemma pow_succ_le b one n :
  0 <= b -> b + 1 <= one -> 0 <= n -> (b + 1) ^ n * one <= b ^ n * one + n * one ^ n.
Proof.
  intros Hb Hone Hn. revert n Hn. apply (natlike_ind (fun n => _)); [lia|].
  intros n Hn IH. rewrite !Z.pow_succ_r by lia.
  assert ((b + 1) ^ n <= one ^ n) by (apply Z.pow_le_mono_l; lia).
  assert (0 <= b ^ n) by (apply Z.pow_nonneg; lia). nia.
Qed.

(** One squaring: [c] is [b * b / one]. *)
Lemma square_pow_bounds one b c n :
  0 <= n -> 0 < one -> 0 <= c -> c * one <= b * b < (c + 1) * one ->
  c ^ n * one ^ n <= b ^ (2 * n) <= (c + 1) ^ n * one ^ n.
Proof.
  intros Hn Ho Hc [H1 H2]. rewrite (Z.pow_mul_r b 2 n), Z.pow_2_r, <- !Z.pow_mul_l by lia.
  split; apply Z.pow_le_mono_l; nia.
Qed.
Lemma scaled_pow_succ r c one n v :
  0 <= r <= one -> 0 <= c -> c + 1 <= one -> 0 < one -> 0 <= n ->
  r * c ^ n <= (v + n) * one ^ n -> r * (c + 1) ^ n <= (v + 2 * n) * one ^ n.
Proof.
  intros Hr Hc Hc1 Ho Hn Hv. pose proof (pow_succ_le c one n Hc Hc1 Hn).
  assert (0 <= one ^ n) by (apply Z.pow_nonneg; lia). apply (Z.mul_le_mono_pos_r _ _ one); [done|].
  assert (r * (n * one ^ n) <= one * (n * one ^ n)) by (apply Z.mul_le_mono_nonneg_r; nia). nia.
Qed.

(** Chaining the bounds of one round with those of the recursive call. *)
Lemma round_lower v P a C one rb B :
  0 <= P -> 0 <= one -> 0 <= a -> 0 <= C ->
  v * P <= a * C -> a * one <= rb -> C * P <= B -> v * (P * P * one) <= rb * B.
Proof.
  intros. transitivity ((a * one) * (C * P)); [|apply Z.mul_le_mono_nonneg; nia].
  transitivity ((a * C) * (P * one)); [|lia].
  replace (v * (P * P * one)) with ((v * P) * (P * one)) by ring.
  apply Z.mul_le_mono_nonneg_r; nia.
Qed.
Lemma round_upper w P a D one rb B :
  0 <= P -> 0 <= one -> 0 <= rb -> 0 <= B ->
  rb <= a * one -> B <= D * P -> a * D <= w * P -> rb * B <= w * (P * P * one).
Proof.
  intros. transitivity ((a * one) * (D * P)); [apply Z.mul_le_mono_nonneg; nia|].
  replace (w * (P * P * one)) with ((w * P) * (P * one)) by ring.
  replace (a * one * (D * P)) with ((a * D) * (P * one)) by ring.
  apply Z.mul_le_mono_nonneg_r; nia.
Qed.

Lemma q64_pow_loop_spec n r b :
  0 <= r <= Q64_ONE -> 0 <= b < Q64_ONE ->
  exists v, q64_pow_loop n r b = Ok v /\ 0 <= v <= r /\
    v * Q64_ONE ^ Zpos n <= r * b ^ Zpos n <= (v + Zpos n) * Q64_ONE ^ Zpos n.
Proof.
  assert (Hone : 0 < Q64_ONE) by done.
  revert r b. induction n as [n IH|n IH|]; intros r b Hr Hb; cbn [q64_pow_loop];
    [destruct (q64_mul_spec r b Hr Hb) as (r' & -> & Hr0 & Hrb & Hr' & _)| |];
    [destruct (q64_mul_spec b b ltac:(lia) Hb) as (c & -> & Hc & Hcb & Hc' & _);
     destruct (square_pow_bounds Q64_ONE b c (Zpos n) ltac:(lia) Hone Hc Hcb) as [S1 S2];
     assert (0 <= c ^ Zpos n) by (apply Z.pow_nonneg; lia);
     assert (0 <= b ^ (2 * Zpos n)) by (apply Z.pow_nonneg; lia);
     assert (0 < Q64_ONE ^ Zpos n) by (apply Z.pow_pos_nonneg; lia) ..|].
  - destruct (IH r' c) as (v & -> & Hv & Hlo & Hhi); [lia..|].
    exists v. split; [done|]. split; [lia|]. rewrite Pos2Z.inj_xI.
    pose proof (scaled_pow_succ r' c Q64_ONE (Zpos n) v ltac:(lia) Hc ltac:(lia) Hone ltac:(lia) Hhi).
    assert ((c + 1) ^ Zpos n <= Q64_ONE ^ Zpos n) by (apply Z.pow_le_mono_l; lia).
    assert (E1 : Q64_ONE ^ (2 * Zpos n + 1) = Q64_ONE ^ Zpos n * Q64_ONE ^ Zpos n * Q64_ONE)
      by (rewrite Z.pow_add_r, Z.pow_1_r by lia; f_equal;
          rewrite <- Z.pow_add_r by lia; f_equal; lia).
    assert (E2 : r * b ^ (2 * Zpos n + 1) = r * b * b ^ (2 * Zpos n))
      by (rewrite Z.pow_add_r, Z.pow_1_r by lia; ring).
    rewrite E1, E2. split; [apply (round_lower _ _ r' (c ^ Zpos n)); lia|].
    apply (round_upper _ _ (r' + 1) ((c + 1) ^ Zpos n)); [lia|lia|nia|lia|lia|lia|].
    set (D := (c + 1) ^ Zpos n) in *. set (P := Q64_ONE ^ Zpos n) in *. clearbody D P. lia.
  - destruct (IH r c) as (v & -> & Hv & Hlo & Hhi); [lia..|].
    exists v. split; [done|]. split; [lia|]. rewrite Pos2Z.inj_xO.
    pose proof (scaled_pow_succ r c Q64_ONE (Zpos n) v ltac:(lia) Hc ltac:(lia) Hone ltac:(lia) Hhi).
    assert (E1 : Q64_ONE ^ (2 * Zpos n) = Q64_ONE ^ Zpos n * Q64_ONE ^ Zpos n * 1)
      by (rewrite Z.mul_1_r, <- Z.pow_add_r by lia; f_equal; lia).
    rewrite E1. split; [apply (round_lower _ _ r (c ^ Zpos n)); lia|].
    apply (round_upper _ _ r ((c + 1) ^ Zpos n)); lia.
  - destruct (q64_mul_spec r b Hr Hb) as (v & -> & Hv & Hrb & Hv' & _).
    exists v. rewrite !Z.pow_1_r. split; [done|]. lia.
Qed.

Lemma q64_pow_spec n :
  0 <= n ->
  q64_pow n = Ok (factor n) /\ 0 <= factor n <= Q64_ONE /\
  factor n * Q64_ONE ^ n <= Q64_ONE * DECAY_FACTOR_Q64 ^ n <= (factor n + n) * Q64_ONE ^ n.
Proof.
  intros Hn. unfold factor. destruct n as [|n|n]; [by_decide| |lia].
  destruct (q64_pow_loop_spec n Q64_ONE DECAY_FACTOR_Q64) as (v & E & Hv & Hb); [by_decide|by_decide|].
  cbn [q64_pow]. rewrite E. done.
Qed.
Lemma factor_end : factor HALF_LIFE_QUANTA = HALF_LIFE_END_FACTOR_Q64.
Proof. by_compute. Qed.

(** The exact power at an earlier quantum is at least the final factor. *)
Lemma factor_lower n :
  0 <= n <= HALF_LIFE_QUANTA -> HALF_LIFE_END_FACTOR_Q64 <= factor n + n.
Proof.
  intros Hn. destruct (q64_pow_spec n ltac:(lia)) as (_ & _ & _ & H1).
  destruct (q64_pow_spec HALF_LIFE_QUANTA ltac:(done)) as (_ & _ & H2 & _).
  rewrite factor_end in H2.
  set (m := HALF_LIFE_QUANTA) in *. replace m with (n + (m - n)) in H2 by lia.
  rewrite !Z.pow_add_r in H2 by lia.
  assert (HD : DECAY_FACTOR_Q64 ^ (m - n) <= Q64_ONE ^ (m - n)) by (apply Z.pow_le_mono_l; by_decide).
  assert (0 < Q64_ONE ^ (m - n)) by (apply Z.pow_pos_nonneg; [done|lia]).
  assert (0 < Q64_ONE ^ n) by (apply Z.pow_pos_nonneg; [done|lia]).
  assert (0 <= Q64_ONE * DECAY_FACTOR_Q64 ^ n)
    by (apply Z.mul_nonneg_nonneg; [done|]; apply Z.pow_nonneg; done).
  apply (Z.mul_le_mono_pos_r _ _ (Q64_ONE ^ n * Q64_ONE ^ (m - n))); [by apply Z.mul_pos_pos|].
  etrans; [exact H2|]. rewrite !Z.mul_assoc. apply Z.mul_le_mono_nonneg; try done.
  apply Z.pow_nonneg; done.
Qed.

Lemma factor_step n : 0 <= n < HALF_LIFE_QUANTA -> factor (n + 1) <= factor n.
Proof.
  intros Hn. destruct (q64_pow_spec n ltac:(lia)) as (_ & Hf & _ & H1).
  destruct (q64_pow_spec (n + 1) ltac:(lia)) as (_ & _ & H2 & _).
  pose proof (factor_lower n ltac:(lia)) as Hl.
  rewrite !Z.pow_add_r, !Z.pow_1_r in H2 by lia.
  assert (0 < Q64_ONE ^ n) by (apply Z.pow_pos_nonneg; [done|lia]).
  assert (H3 : factor (n + 1) * Q64_ONE <= DECAY_FACTOR_Q64 * (factor n + n)).
  { apply (Z.mul_le_mono_pos_r _ _ (Q64_ONE ^ n)); [done|].
    transitivity (DECAY_FACTOR_Q64 * (Q64_ONE * DECAY_FACTOR_Q64 ^ n)); [nia|].
    rewrite <- Z.mul_assoc. by apply Z.mul_le_mono_nonneg_l. }
  change HALF_LIFE_QUANTA with 4380 in Hn. change Q64_ONE with 18446744073709551616 in *.
  unfold DECAY_FACTOR_Q64, HALF_LIFE_END_FACTOR_Q64 in *. lia.
Qed.
Lemma factor_mono n m : 0 <= n <= m -> m <= HALF_LIFE_QUANTA -> factor m <= factor n.
Proof.
  intros [Hn Hnm]. revert m Hnm. apply (Z.right_induction (fun m => m <= HALF_LIFE_QUANTA -> factor m <= factor n)).
  - solve_proper.
  - done.
  - intros m Hnm IH Hm. rewrite <- Z.add_1_r in *. etrans; [apply factor_step; lia|apply IH; lia].
Qed.

(** *** The curve *)

Lemma normalization_pos : 0 < normalization.
Proof. done. Qed.
Lemma factor_range q : 0 <= q <= HALF_LIFE_QUANTA -> HALF_LIFE_END_FACTOR_Q64 <= factor q <= Q64_ONE.
Proof.
  intros Hq. split; [rewrite <- factor_end; apply factor_mono; lia|].
  destruct (q64_pow_spec q ltac:(lia)) as (_ & ? & _). lia.
Qed.

Section within_half_life.
Variable b : Z.
Hypothesis Hb : 0 <= b <= MAX_SUPPLY_ATOMS.

Lemma issued_mono q q' : 0 <= q <= q' -> q' <= HALF_LIFE_QUANTA -> issued b q <= issued b q'.
Proof.
  intros Hq Hq'. unfold issued. apply Z.div_le_mono; [done|].
  pose proof (factor_mono q q' Hq Hq'). nia.
Qed.
Lemma issued_start : issued b 0 = 0.
Proof. unfold issued. replace (Q64_ONE - factor 0) with 0 by by_compute. by rewrite Z.mul_0_r. Qed.
Lemma issued_end : issued b HALF_LIFE_QUANTA = b.
Proof. unfold issued. rewrite factor_end. by apply Z.div_mul. Qed.
Lemma issued_range q : 0 <= q <= HALF_LIFE_QUANTA -> 0 <= issued b q <= b.
Proof.
  intros Hq. pose proof issued_start. pose proof issued_end.
  pose proof (issued_mono 0 q ltac:(lia) ltac:(lia)).
  pose proof (issued_mono q HALF_LIFE_QUANTA ltac:(lia) ltac:(lia)). lia.
Qed.
Lemma issuance_within_Ok q :
  0 <= q <= HALF_LIFE_QUANTA -> issuance_within_half_life_at_quantum b q = Ok (issued b q).
Proof.
  intros Hq. pose proof (issued_range q Hq) as Hi. pose proof (factor_range q Hq) as Hf.
  destruct (q64_pow_spec q ltac:(lia)) as (E & _).
  unfold issuance_within_half_life_at_quantum. rewrite (proj2 (Z.ltb_ge _ _)) by lia. rewrite E.
  unfold checked_sub. rewrite (proj2 (Z.leb_le _ _)) by lia.
  change (HALF_LIFE_END_FACTOR_Q64 <=? Q64_ONE) with true. cbn [or_overflow ok_or].
  unfold checked_mul. rewrite (proj2 (Z.leb_le _ _)).
  2: { unfold u_max, MAX_SUPPLY_ATOMS, HALF_LIFE_END_FACTOR_Q64 in *.
       change Q64_ONE with 18446744073709551616 in *. nia. }
  cbn [or_overflow ok_or]. fold normalization. fold (issued b q).
  apply ok_or_Ok, try_into_Some. split; [done|]. unfold in_u, u_max, MAX_SUPPLY_ATOMS in *. lia.
Qed.
End within_half_life.

Lemma budget_range k : 0 <= k < TERMINAL_HALF_LIVES -> 0 <= budget k <= remaining k.
Proof.
  intros Hk. unfold budget. destruct (remaining_table k ltac:(lia)) as (_ & ? & ?).
  destruct (remaining_table (k + 1) ltac:(lia)) as (_ & _ & ?). lia.
Qed.
Lemma remaining_mono k k' : 0 <= k <= k' -> k' <= TERMINAL_HALF_LIVES -> remaining k' <= remaining k.
Proof.
  intros [Hk Hkk]. revert k' Hkk.
  apply (Z.right_induction (fun k' => k' <= TERMINAL_HALF_LIVES -> remaining k' <= remaining k)).
  - solve_proper.
  - done.
  - intros m Hm IH Hlt. rewrite <- Z.add_1_r in *.
    destruct (remaining_table m ltac:(lia)) as (_ & ? & _). lia.
Qed.
Lemma remaining_ends : remaining 0 = MAX_SUPPLY_ATOMS /\ remaining TERMINAL_HALF_LIVES = 0.
Proof. split; by_compute. Qed.

(** The position of a time inside the schedule. *)
Lemma quantum_range t :
  0 <= t mod HALF_LIFE_NS / EMISSION_QUANTUM_NS < HALF_LIFE_QUANTA /\
  0 <= t mod HALF_LIFE_NS mod EMISSION_QUANTUM_NS < EMISSION_QUANTUM_NS.
Proof.
  pose proof (Z.mod_pos_bound t HALF_LIFE_NS ltac:(done)).
  split; [|by apply Z.mod_pos_bound]. split; [apply Z.div_pos; [lia|done]|].
  apply Z.div_lt_upper_bound; [done|].
  change (EMISSION_QUANTUM_NS * HALF_LIFE_QUANTA) with HALF_LIFE_NS. lia.
Qed.

(** The linear part stays between the two ends of its quantum. *)
Lemma interpolation d w : 0 <= d -> 0 <= w < EMISSION_QUANTUM_NS -> 0 <= d * w / EMISSION_QUANTUM_NS <= d.
Proof.
  intros Hd Hw. split; [apply Z.div_pos; [nia|done]|]. apply Z.div_le_upper_bound; [done|]. nia.
Qed.

(** The value of the curve lies between the values at the ends of its quantum. *)
Lemma curve_between t :
  0 <= t -> t / HALF_LIFE_NS < TERMINAL_HALF_LIVES ->
  let k := t / HALF_LIFE_NS in
  let q := t mod HALF_LIFE_NS / EMISSION_QUANTUM_NS in
  MAX_SUPPLY_ATOMS - remaining k + issued (budget k) q <= curve t
    <= MAX_SUPPLY_ATOMS - remaining k + issued (budget k) (q + 1).
Proof.
  intros Ht Hk k q. destruct (quantum_range t) as [Hq Hw]. unfold curve. fold k.
  assert (Hk0 : 0 <= k) by (apply Z.div_pos; [done|done]).
  rewrite (proj2 (Z.leb_gt _ _)) by exact Hk. fold q.
  destruct (budget_range k ltac:(lia)) as [Hb0 Hb1].
  destruct (remaining_table k ltac:(lia)) as (_ & _ & Hr).
  pose proof (issued_mono (budget k) ltac:(lia) q (q + 1) ltac:(lia) ltac:(lia)).
  pose proof (interpolation (issued (budget k) (q + 1) - issued (budget k) q) _ ltac:(lia) Hw). lia.
Qed.
Lemma curve_half_life t :
  0 <= t -> t / HALF_LIFE_NS < TERMINAL_HALF_LIVES ->
  MAX_SUPPLY_ATOMS - remaining (t / HALF_LIFE_NS) <= curve t
    <= MAX_SUPPLY_ATOMS - remaining (t / HALF_LIFE_NS + 1).
Proof.
  intros Ht Hk. destruct (quantum_range t) as [Hq Hw]. destruct (curve_between t Ht Hk) as [H1 H2].
  set (k := t / HALF_LIFE_NS) in *. assert (Hk0 : 0 <= k) by (apply Z.div_pos; [done|done]).
  destruct (budget_range k ltac:(lia)) as [Hb0 Hb1].
  destruct (remaining_table k ltac:(lia)) as (_ & _ & Hr).
  pose proof (issued_range (budget k) ltac:(lia) (t mod HALF_LIFE_NS / EMISSION_QUANTUM_NS) ltac:(lia)).
  pose proof (issued_range (budget k) ltac:(lia) (t mod HALF_LIFE_NS / EMISSION_QUANTUM_NS + 1) ltac:(lia)).
  unfold budget in *. lia.
Qed.
Lemma curve_range t : 0 <= t -> 0 <= curve t <= MAX_SUPPLY_ATOMS.
Proof.
  intros Ht. destruct (Z.lt_ge_cases (t / HALF_LIFE_NS) TERMINAL_HALF_LIVES) as [Hk|Hk].
  - assert (0 <= t / HALF_LIFE_NS) by (apply Z.div_pos; [done|done]).
    pose proof (curve_half_life t Ht Hk).
    destruct (remaining_table (t / HALF_LIFE_NS) ltac:(lia)) as (_ & _ & ?).
    destruct (remaining_table (t / HALF_LIFE_NS + 1) ltac:(lia)) as (_ & _ & ?). lia.
  - unfold curve. rewrite (proj2 (Z.leb_le _ _)) by done. done.
Qed.

Lemma div_mod_same a n q r : 0 < n -> q = a / n -> r = a mod n -> a = n * q + r.
Proof. intros ? -> ->. apply Z.div_mod. lia. Qed.

(** Two times in the same half-life. *)
Lemma curve_mono_same t t' :
  0 <= t <= t' -> t / HALF_LIFE_NS = t' / HALF_LIFE_NS -> t' / HALF_LIFE_NS < TERMINAL_HALF_LIVES ->
  curve t <= curve t'.
Proof.
  intros Ht Hk Hlt. set (k := t' / HALF_LIFE_NS) in *.
  assert (Hk0 : 0 <= k) by (apply Z.div_pos; [lia|done]).
  destruct (budget_range k ltac:(lia)) as [Hb0 Hb1].
  destruct (remaining_table k ltac:(lia)) as (_ & _ & Hr).
  destruct (quantum_range t) as [Hq Hw]. destruct (quantum_range t') as [Hq' Hw'].
  pose proof (curve_between t ltac:(lia) ltac:(lia)) as [_ Hup].
  pose proof (curve_between t' ltac:(lia) Hlt) as [Hlow _]. rewrite Hk in Hup. fold k in Hlow.
  assert (Hmod : t mod HALF_LIFE_NS <= t' mod HALF_LIFE_NS)
    by (rewrite (Z.mod_eq t), (Z.mod_eq t'), Hk by done; fold k; lia).
  pose proof (Z.div_le_mono _ _ EMISSION_QUANTUM_NS ltac:(done) Hmod) as Hqq.
  destruct (decide (t mod HALF_LIFE_NS / EMISSION_QUANTUM_NS = t' mod HALF_LIFE_NS / EMISSION_QUANTUM_NS))
    as [E|E].
  - unfold curve. rewrite Hk. fold k. rewrite (proj2 (Z.leb_gt _ _)) by exact Hlt. rewrite E.
    apply Z.add_le_mono_l. apply Z.div_le_mono; [done|].
    pose proof (issued_mono (budget k) ltac:(lia) (t' mod HALF_LIFE_NS / EMISSION_QUANTUM_NS)
      (t' mod HALF_LIFE_NS / EMISSION_QUANTUM_NS + 1) ltac:(lia) ltac:(lia)).
    assert (t mod HALF_LIFE_NS mod EMISSION_QUANTUM_NS <= t' mod HALF_LIFE_NS mod EMISSION_QUANTUM_NS)
      by (rewrite (Z.mod_eq (t mod _)), (Z.mod_eq (t' mod _)), E by done; lia). nia.
  - pose proof (issued_mono (budget k) ltac:(lia) (t mod HALF_LIFE_NS / EMISSION_QUANTUM_NS + 1)
      (t' mod HALF_LIFE_NS / EMISSION_QUANTUM_NS) ltac:(lia) ltac:(lia)). lia.
Qed.
Lemma curve_mono t t' : 0 <= t <= t' -> curve t <= curve t'.
Proof.
  intros Ht. pose proof (Z.div_le_mono t t' HALF_LIFE_NS ltac:(done) ltac:(lia)) as Hk.
  destruct (Z.lt_ge_cases (t' / HALF_LIFE_NS) TERMINAL_HALF_LIVES) as [Hlt|Hge].
  - destruct (decide (t / HALF_LIFE_NS = t' / HALF_LIFE_NS)) as [E|E]; [by apply curve_mono_same|].
    assert (0 <= t / HALF_LIFE_NS) by (apply Z.div_pos; [lia|done]).
    pose proof (curve_half_life t ltac:(lia) ltac:(lia)).
    pose proof (curve_half_life t' ltac:(lia) Hlt).
    pose proof (remaining_mono (t / HALF_LIFE_NS + 1) (t' / HALF_LIFE_NS) ltac:(lia) ltac:(lia)). lia.
  - assert (E : curve t' = MAX_SUPPLY_ATOMS)
      by (unfold curve; rewrite (proj2 (Z.leb_le _ _)) by done; done).
    rewrite E. apply curve_range. lia.
Qed.

(** Checked operations that do not overflow. *)
Lemma add_Ok w a b : a + b <= u_max w -> or_overflow (checked_add w a b) = Ok (a + b).
Proof. intros. by apply ok_or_Ok, checked_add_Some. Qed.
Lemma mul_Ok w a b : a * b <= u_max w -> or_overflow (checked_mul w a b) = Ok (a * b).
Proof. intros. by apply ok_or_Ok, checked_mul_Some. Qed.
Lemma sub_Ok a b : b <= a -> or_overflow (checked_sub a b) = Ok (a - b).
Proof. intros. by apply ok_or_Ok, checked_sub_Some. Qed.
Lemma into_Ok w a : 0 <= a <= u_max w -> or_overflow (try_into w a) = Ok a.
Proof. intros. by apply ok_or_Ok, try_into_Some. Qed.

Lemma target_issuance_Ok t : 0 <= t -> target_issuance_atoms t = Ok (curve t).
Proof.
  intros Ht. unfold target_issuance_atoms, curve.
  destruct (Z.leb_spec TERMINAL_HALF_LIVES (t / HALF_LIFE_NS)) as [|Hk]; [done|].
  set (k := t / HALF_LIFE_NS) in *. assert (Hk0 : 0 <= k) by (apply Z.div_pos; [done|done]).
  assert (Hk' : k < 57) by exact Hk. destruct (quantum_range t) as [Hq Hw].
  set (q := t mod HALF_LIFE_NS / EMISSION_QUANTUM_NS) in *. assert (Hq' : q < 4380) by apply Hq.
  set (w := t mod HALF_LIFE_NS mod EMISSION_QUANTUM_NS) in *.
  destruct (budget_range k ltac:(lia)) as [Hb0 Hb1].
  destruct (remaining_table k ltac:(lia)) as (Er & Hr1 & Hr).
  destruct (remaining_table (k + 1) ltac:(lia)) as (Er1 & _ & _).
  pose proof (issued_mono (budget k) ltac:(lia) q (q + 1) ltac:(lia) ltac:(lia)).
  pose proof (issued_range (budget k) ltac:(lia) q ltac:(lia)) as Hi.
  pose proof (issued_range (budget k) ltac:(lia) (q + 1) ltac:(lia)) as Hi1.
  pose proof (interpolation (issued (budget k) (q + 1) - issued (budget k) q) w ltac:(lia) Hw) as Hp.
  rewrite into_Ok by (unfold u_max; lia). rewrite Er, Er1, !sub_Ok by lia. fold (budget k).
  rewrite into_Ok by (unfold u_max; lia). rewrite !issuance_within_Ok, sub_Ok by lia.
  assert (Hmax : MAX_SUPPLY_ATOMS < 2 ^ 57 /\ EMISSION_QUANTUM_NS < 2 ^ 57) by done.
  rewrite mul_Ok by (unfold u_max; nia). rewrite into_Ok by (unfold u_max; lia).
  rewrite add_Ok by (unfold u_max; lia). apply add_Ok. unfold u_max, budget in *. lia.
Qed.

(** *** Economic time *)

(** A valid cadence starts at [a] with positive intervals and increasing
    activation scores. *)
Fixpoint cadence_from (a : Z) (segments : list MonetaryCadenceSegment) : Prop :=
  match segments with
  | [] => True
  | s :: rest => seg_activation_score s = a /\ 0 < seg_target_interval_ns s <= u64_max /\
      match rest with
      | [] => True
      | s' :: _ => a < seg_activation_score s' /\ cadence_from (seg_activation_score s') rest
      end
  end.
Definition segment_typed (s : MonetaryCadenceSegment) : Prop :=
  in_u 64 (seg_activation_score s) /\ in_u 64 (seg_target_interval_ns s).
#[global] Instance segment_typed_dec s : Decision (segment_typed s).
Proof. unfold segment_typed. apply _. Defined.

Lemma check_pairs_cadence s segments :
  Forall segment_typed (s :: segments) -> seg_target_interval_ns s <> 0 ->
  check_cadence_pairs (s :: segments) = Ok () -> cadence_from (seg_activation_score s) (s :: segments).
Proof.
  revert s. induction segments as [|s' segments IH]; intros s Ht Hi Hp;
    apply Forall_cons in Ht as [[_ Hs] Ht]; unfold in_u in Hs.
  { cbn. split_and!; try done; lia. }
  cbn in Hp. inv_ok. bool_props. split; [done|]. split; [lia|]. split; [lia|]. by apply IH.
Qed.
Lemma validate_cadence_Ok segments :
  Forall segment_typed segments -> validate_cadence_segments segments = Ok () ->
  segments <> [] /\ cadence_from 0 segments.
Proof.
  destruct segments as [|s segments]; [done|]. cbn [validate_cadence_segments]. intros Ht Hv.
  inv_ok. bool_props. split; [done|]. rewrite <- Hif. by apply check_pairs_cadence.
Qed.

(** The exact economic time of a score. *)
Fixpoint cadence_time (score : Z) (segments : list MonetaryCadenceSegment) : Z :=
  match segments with
  | [] => 0
  | s :: rest =>
      let fin := match rest with next :: _ => Z.min score (seg_activation_score next) | [] => score end in
      Z.max 0 (fin - seg_activation_score s) * seg_target_interval_ns s + cadence_time score rest
  end.

Lemma cadence_time_nonneg score a segments :
  cadence_from a segments -> 0 <= cadence_time score segments.
Proof.
  revert a. induction segments as [|s rest IH]; intros a Hc; [done|].
  cbn [cadence_time]. destruct Hc as (_ & Hi & Hrest).
  assert (0 <= cadence_time score rest) by (destruct rest; [done|]; destruct Hrest; by eapply IH). nia.
Qed.
(** Segments that have not started contribute nothing. *)
Lemma cadence_time_early score a segments :
  score <= a -> cadence_from a segments -> cadence_time score segments = 0.
Proof.
  revert a. induction segments as [|s rest IH]; intros a Ha Hc; [done|].
  cbn [cadence_time]. destruct Hc as (-> & Hi & Hrest). destruct rest as [|s' rest'].
  - rewrite Z.max_l by lia. done.
  - destruct Hrest as [Hlt Hc']. rewrite (IH (seg_activation_score s') ltac:(lia) Hc'), Z.min_l, Z.max_l by lia. done.
Qed.
(** The time after activation score [a] is at most the score steps left, at the
    longest interval. *)
Lemma cadence_time_bound score a segments :
  a <= score -> cadence_from a segments -> cadence_time score segments <= (score - a) * u64_max.
Proof.
  revert a. induction segments as [|s rest IH]; intros a Ha Hc; [cbn; unfold u_max; nia|].
  cbn [cadence_time]. destruct Hc as (-> & Hi & Hrest). destruct rest as [|s' rest'].
  - cbn. nia.
  - destruct Hrest as [Hlt Hc']. destruct (Z.le_gt_cases (seg_activation_score s') score) as [Hle|Hgt].
    + specialize (IH _ Hle Hc'). rewrite Z.min_r by lia. nia.
    + rewrite Z.min_l by lia. rewrite (cadence_time_early score (seg_activation_score s') _ ltac:(lia) Hc'). nia.
Qed.

Lemma economic_time_loop_Ok score acc a segments :
  0 <= acc -> score <= u64_max -> 0 <= a -> acc + cadence_time score segments <= u128_max ->
  cadence_from a segments ->
  economic_time_loop score acc segments = Ok (acc + cadence_time score segments).
Proof.
  revert acc a. induction segments as [|s rest IH]; intros acc a Hacc Hs Ha Hmax Hc.
  { cbn. f_equal. lia. }
  pose proof (cadence_time_early score a (s :: rest)) as Hearly.
  pose proof Hc as (Ea & Hi & Hrest). cbn [economic_time_loop].
  destruct (Z.leb_spec score (seg_activation_score s)) as [Hle|Hgt].
  { rewrite Hearly by (lia || done). f_equal. lia. }
  assert (Hnn : 0 <= cadence_time score rest).
  { destruct rest; [done|]. destruct Hrest. by eapply cadence_time_nonneg. }
  cbn [cadence_time] in *. destruct rest as [|s' rest'].
  - rewrite Z.min_id, (proj2 (Z.leb_gt _ _)) by lia. rewrite Z.max_r in * by lia. cbn in Hmax.
    rewrite mul_Ok, add_Ok by (try nia; lia). rewrite Z.eqb_refl. cbn. f_equal. lia.
  - destruct Hrest as [Hlt Hc']. rewrite Z.max_r in * by lia.
    rewrite (proj2 (Z.leb_gt _ _)) by lia. rewrite mul_Ok, add_Ok by nia.
    destruct (Z.eqb_spec (Z.min score (seg_activation_score s')) score) as [E|E].
    + rewrite (cadence_time_early score (seg_activation_score s') (s' :: rest') ltac:(lia) Hc'). f_equal. lia.
    + rewrite (IH _ (seg_activation_score s')); [f_equal; lia|nia|done|lia|lia|done].
Qed.

Section cadence.
Variable segments : list MonetaryCadenceSegment.
Hypothesis Htyped : Forall segment_typed segments.
Hypothesis Hvalid : validate_cadence_segments segments = Ok ().

Lemma economic_time_Ok score :
  in_u 64 score -> economic_time_ns_for_score score segments = Ok (cadence_time score segments).
Proof.
  intros [H0 H1]. destruct (validate_cadence_Ok _ Htyped Hvalid) as [_ Hc].
  unfold economic_time_ns_for_score. rewrite Hvalid.
  rewrite (economic_time_loop_Ok score 0 0); [done|done|done|done| |done].
  pose proof (cadence_time_bound score 0 segments H0 Hc). unfold u_max in *. nia.
Qed.
Lemma cadence_time_mono score score' :
  score <= score' -> cadence_time score segments <= cadence_time score' segments.
Proof.
  intros Hs. destruct (validate_cadence_Ok _ Htyped Hvalid) as [_ Hc].
  clear Htyped Hvalid. revert Hc. generalize 0 as a.
  induction segments as [|s rest IH]; intros a Hc; [done|]. cbn [cadence_time].
  destruct Hc as (_ & Hi & Hrest).
  assert (cadence_time score rest <= cadence_time score' rest)
    by (destruct rest; [done|]; destruct Hrest; by eapply IH).
  apply Z.add_le_mono; [|done]. apply Z.mul_le_mono_nonneg_r; [lia|]. destruct rest; lia.
Qed.
Lemma cadence_time_0 score : 0 <= score -> 0 <= cadence_time score segments.
Proof.
  intros. destruct (validate_cadence_Ok _ Htyped Hvalid) as [_ Hc]. by eapply cadence_time_nonneg.
Qed.

(** The scheduled supply of a score. *)
Definition supply (score : Z) : Z := curve (cadence_time score segments).

Lemma total_supply_Ok score :
  in_u 64 score -> total_supply_atoms_for_score score segments = Ok (supply score).
Proof.
  intros Hs. unfold total_supply_atoms_for_score. rewrite economic_time_Ok by done.
  apply target_issuance_Ok, cadence_time_0, Hs.
Qed.
Lemma supply_mono score score' : 0 <= score <= score' -> supply score <= supply score'.
Proof.
  intros Hs. apply curve_mono. split; [apply cadence_time_0; lia|apply cadence_time_mono; lia].
Qed.
Lemma supply_genesis : supply 0 = 0.
Proof.
  unfold supply. destruct (validate_cadence_Ok _ Htyped Hvalid) as [_ Hc].
  rewrite (cadence_time_early 0 0) by done. by_compute.
Qed.
Lemma subsidy_Ok score :
  in_u 64 score ->
  subsidy_atoms_for_score score segments = Ok (if score =? 0 then 0 else supply score - supply (score - 1)).
Proof.
  intros Hs. unfold subsidy_atoms_for_score. destruct (Z.eqb_spec score 0); [done|].
  unfold in_u in Hs. rewrite !total_supply_Ok by (unfold in_u; lia).
  apply sub_Ok, supply_mono. lia.
Qed.
End cadence.

(** The emission curve is defined at every economic time, starts at zero,
    never decreases, never exceeds the maximum supply, reaches it exactly after 57
    half-lives (year 171), and at the [k]-th half-life boundary has issued all but
    the rounded-up [k]-fold half of the maximum supply.  No arithmetic step
    overflows. *)
Lemma target_issuance_curve t t' k :
  0 <= t <= t' -> 0 <= k < TERMINAL_HALF_LIVES ->
  exists v v', target_issuance_atoms t = Ok v /\ target_issuance_atoms t' = Ok v' /\
    0 <= v <= v' /\ v' <= MAX_SUPPLY_ATOMS /\
    target_issuance_atoms 0 = Ok 0 /\
    (TERMINAL_ECONOMIC_YEAR * ECONOMIC_YEAR_NS <= t' -> v' = MAX_SUPPLY_ATOMS) /\
    target_issuance_atoms (k * HALF_LIFE_NS) =
      Ok (MAX_SUPPLY_ATOMS - ceil_div_u128 MAX_SUPPLY_ATOMS (2 ^ k)).
Proof.
  intros Ht Hk. exists (curve t), (curve t'). rewrite !target_issuance_Ok by lia.
  pose proof (curve_range t ltac:(lia)). pose proof (curve_range t' ltac:(lia)).
  pose proof (curve_mono t t' Ht). split_and!; [done|done|lia|lia|lia|by_compute| |].
  - intros Hy. unfold curve. rewrite (proj2 (Z.leb_le _ _)); [done|].
    apply Z.div_le_lower_bound; [done|]. exact Hy.
  - rewrite target_issuance_Ok by (apply Z.mul_nonneg_nonneg; [lia|done]).
    unfold curve. rewrite Z.div_mul, Z.mod_mul by done. rewrite (proj2 (Z.leb_gt _ _)) by lia.
    change (0 / EMISSION_QUANTUM_NS) with 0. change (0 mod EMISSION_QUANTUM_NS) with 0.
    rewrite issued_start, Z.mul_0_r, Z.div_0_l, !Z.add_0_r by done. do 2 f_equal.
    revert k Hk. apply (seqZ_forall (fun k => remaining k = ceil_div_u128 MAX_SUPPLY_ATOMS (2 ^ k)) 57).
    by_decide.
Qed.

(** The running sum of the subsidies of the scores [1 .. n], as the monetary
    audit and the reward settlement accumulate it. *)
Definition add_subsidy (segments : list MonetaryCadenceSegment) (acc score : Z) : monetary Z :=
  let? subsidy := subsidy_atoms_for_score score segments in
  or_overflow (checked_add 64 acc subsidy).

Lemma add_subsidy_Ok segments score :
  Forall segment_typed segments -> validate_cadence_segments segments = Ok () ->
  in_u 64 score -> 0 < score ->
  add_subsidy segments (supply segments (score - 1)) score = Ok (supply segments score).
Proof.
  intros Ht Hv Hs Hp. unfold add_subsidy. rewrite subsidy_Ok by done.
  rewrite (proj2 (Z.eqb_neq _ _)) by lia.
  pose proof (curve_range (cadence_time score segments) (cadence_time_0 _ Ht Hv score ltac:(lia))) as Hc.
  fold (supply segments score) in Hc. rewrite add_Ok; [f_equal; lia|].
  unfold u_max, MAX_SUPPLY_ATOMS in *. lia.
Qed.
Lemma subsidies_sum segments n :
  Forall segment_typed segments -> validate_cadence_segments segments = Ok () ->
  in_u 64 n -> try_fold (add_subsidy segments) 0 (seqZ 1 n) = Ok (supply segments n).
Proof.
  intros Ht Hv [H0 H1]. revert n H0 H1.
  apply (natlike_ind (fun n => n <= u64_max -> try_fold (add_subsidy segments) 0 (seqZ 1 n) = Ok (supply segments n))).
  - intros _. cbn. by rewrite supply_genesis.
  - intros n Hn IH Hmax. rewrite <- Z.add_1_r in *. rewrite seqZ_app, try_fold_app, IH by lia.
    change (seqZ (1 + n) 1) with [1 + n]. cbn [try_fold].
    pose proof (add_subsidy_Ok segments (n + 1) Ht Hv ltac:(unfold in_u; lia) ltac:(lia)) as E.
    replace (n + 1 - 1) with n in E by lia. rewrite (Z.add_comm 1 n), E. done.
Qed.

(** C35: for every valid cadence schedule, the subsidies of the scores [1] to [n]
    add up, without overflow, to exactly the scheduled supply at score [n], which
    never decreases with the score and never exceeds the maximum supply; the
    issuance authorized for a range of scores is the difference of the scheduled
    supplies. *)
Theorem subsidies_sum_to_supply segments m n :
  Forall segment_typed segments -> validate_cadence_segments segments = Ok () ->
  in_u 64 n -> 0 <= m <= n ->
  exists sm sn, total_supply_atoms_for_score m segments = Ok sm /\
    total_supply_atoms_for_score n segments = Ok sn /\
    try_fold (add_subsidy segments) 0 (seqZ 1 n) = Ok sn /\
    authorized_issuance_atoms m n segments = Ok (sn - sm) /\
    0 <= sm <= sn /\ sn <= MAX_SUPPLY_ATOMS.
Proof.
  intros Ht Hv Hn Hm. exists (supply segments m), (supply segments n).
  assert (Hm' : in_u 64 m) by (unfold in_u in *; lia).
  rewrite subsidies_sum by done. unfold authorized_issuance_atoms.
  rewrite !total_supply_Ok by done. rewrite (proj2 (Z.ltb_ge _ _)) by lia.
  pose proof (supply_mono segments Ht Hv m n Hm).
  rewrite sub_Ok by lia. split_and!; try done.
  - apply curve_range, cadence_time_0; [done..|lia].
  - apply curve_range, cadence_time_0; [done..|lia].
Qed.

(** ** Witnesses *)

Definition two_step_cadence : list MonetaryCadenceSegment :=
  [mkMonetaryCadenceSegment 0 500000000; mkMonetaryCadenceSegment 4 250000000].

Lemma target_issuance_curve_witness :
  exists v, target_issuance_atoms (200 * ECONOMIC_YEAR_NS) = Ok v /\ v = MAX_SUPPLY_ATOMS.
Proof.
  destruct (target_issuance_curve (3 * ECONOMIC_YEAR_NS) (200 * ECONOMIC_YEAR_NS) 5)
    as (v & v' & _ & E & _ & _ & _ & Hend & _); [by_decide|by_decide|].
  exists v'. split; [exact E|]. apply Hend. by_decide.
Defined.
Lemma subsidies_sum_to_supply_witness :
  exists s, total_supply_atoms_for_score 6 two_step_cadence = Ok s /\
    try_fold (add_subsidy two_step_cadence) 0 (seqZ 1 6) = Ok s.
Proof.
  destruct (subsidies_sum_to_supply two_step_cadence 2 6) as (sm & sn & _ & E & F & _);
    [by_decide|by_compute|by_decide|by_decide|].
  exists sn. split; [exact E|exact F].
Defined.
