(* ===== verification/Denomination.v ===== *)
(** * PDG amounts ([denomination_v3.rs])

    Decimal amounts of coins as integer atoms: the parser accepts exactly the
    plain decimals with at most eight fractional digits whose value fits [u64],
    and reads back what the formatter prints. *)

From S2P Require Import Prelude Encoding Text Monetary.

Definition PDG_DECIMALS_V3 : Z := 8.

Inductive DenominationV3Error := Empty | InvalidSyntax | TooManyDecimalPlaces | AmountOverflow.
#[global] Instance DenominationV3Error_eq_dec : EqDecision DenominationV3Error.
Proof. solve_decision. Defined.

Record PdgAmountV3 := mkPdgAmountV3 { pdg_atoms : Z; pdg_pdg : text }.

Definition format_pdg_atoms_v3 (atoms : Z) : text :=
  let whole := atoms / ATOMS_PER_COIN in
  let fraction := atoms mod ATOMS_PER_COIN in
  print_decimal whole ++ lit "." ++ pad_zeros 8 (print_decimal fraction).

Definition DOT : Z := 46.
Definition starts_with (c : Z) (s : text) : bool := match s with d :: _ => d =? c | [] => false end.
Definition contains (c : Z) (s : text) : bool := existsb (Z.eqb c) s.
Definition all_digits (s : text) : bool := forallb is_ascii_digit s.

(** [10u64.checked_pow(n)]. *)
Definition checked_pow10 (n : Z) : option Z := if 10 ^ n <=? u64_max then Some (10 ^ n) else None.

(** The atoms of the fractional part. *)
Definition parse_fraction (fraction : text) : result DenominationV3Error Z :=
  if bool_decide (fraction = []) || negb (all_digits fraction) then Err InvalidSyntax
  else if PDG_DECIMALS_V3 <? text_len fraction then Err TooManyDecimalPlaces
  else
    let? raw := ok_or (parse_uint 64 fraction) AmountOverflow in
    let? padding := ok_or (try_into 32 (PDG_DECIMALS_V3 - text_len fraction)) AmountOverflow in
    let? scale := ok_or (checked_pow10 padding) AmountOverflow in
    ok_or (checked_mul 64 raw scale) AmountOverflow.

(** The body of the parser once the amount is split at its dot. *)
Definition parse_parts (whole : text) (parts : list text) : result DenominationV3Error Z :=
  if bool_decide (2 <= length parts)%nat || bool_decide (whole = []) || negb (all_digits whole)
  then Err InvalidSyntax
  else
    let? whole_value := ok_or (parse_uint 64 whole) AmountOverflow in
    let? whole_atoms := ok_or (checked_mul 64 whole_value ATOMS_PER_COIN) AmountOverflow in
    let? fraction_atoms := match head parts with
                           | None => Ok 0
                           | Some fraction => parse_fraction fraction
                           end in
    ok_or (checked_add 64 whole_atoms fraction_atoms) AmountOverflow.

Definition parse_pdg_decimal_v3 (value : text) : result DenominationV3Error Z :=
  if bool_decide (value = []) then Err Empty
  else if bool_decide (trim value <> value) || starts_with 43 value || starts_with 45 value
       || contains 101 value || contains 69 value
  then Err InvalidSyntax
  else
    match split_on DOT value with
    | [] => Err InvalidSyntax
    | whole :: parts => parse_parts whole parts
    end.

Definition from_atoms (atoms : Z) : PdgAmountV3 := mkPdgAmountV3 atoms (format_pdg_atoms_v3 atoms).
Definition parse (value : text) : result DenominationV3Error PdgAmountV3 :=
  let? atoms := parse_pdg_decimal_v3 value in Ok (from_atoms atoms).

Example parse_examples :
  parse_pdg_decimal_v3 (lit "1.5") = Ok 150000000 /\ parse_pdg_decimal_v3 (lit "1.00000001") = Ok 100000001
  /\ parse_pdg_decimal_v3 (lit "1.") = Err InvalidSyntax /\ parse_pdg_decimal_v3 (lit "1e3") = Err InvalidSyntax
  /\ parse_pdg_decimal_v3 (lit "0.123456789") = Err TooManyDecimalPlaces
  /\ format_pdg_atoms_v3 100000001 = lit "1.00000001".
Proof. split_and!; by_compute. Qed.

(** ** The amounts the parser accepts *)

(** A plain decimal: digits, optionally a dot and one to eight more digits. *)
Inductive plain_decimal : text -> Z -> Prop :=
| plain_whole w :
    digits w -> w <> [] -> plain_decimal w (dec_value w * ATOMS_PER_COIN)
| plain_fraction w f :
    digits w -> w <> [] -> digits f -> f <> [] -> (length f <= 8)%nat ->
    plain_decimal (w ++ DOT :: f)
      (dec_value w * ATOMS_PER_COIN + dec_value f * 10 ^ (8 - Z.of_nat (length f))).

Lemma all_digits_iff s : all_digits s = true <-> digits s.
Proof. unfold all_digits. rewrite forallb_forall, Forall_forall. by setoid_rewrite list_elem_of_In. Qed.
Lemma digits_text_len s : digits s -> text_len s = Z.of_nat (length s).
Proof.
  induction 1 as [|c s Hc _ IH]; [done|]. unfold is_ascii_digit in Hc. bool_props.
  cbn [text_len foldr length]. fold (text_len s). rewrite IH. unfold utf8_len.
  rewrite (proj2 (Z.ltb_lt _ _)) by lia. lia.
Qed.

Lemma parse_fraction_digits f :
  digits f -> f <> [] -> (length f <= 8)%nat ->
  parse_fraction f = Ok (dec_value f * 10 ^ (8 - Z.of_nat (length f))).
Proof.
  intros Hf Hne Hl. unfold parse_fraction, PDG_DECIMALS_V3.
  rewrite bool_decide_eq_false_2, (proj2 (all_digits_iff f)), digits_text_len by done.
  cbn [negb orb]. rewrite (proj2 (Z.ltb_ge _ _)) by lia. rewrite parse_uint_digits by done.
  pose proof (dec_value_bound f Hf) as Hb.
  assert (10 ^ Z.of_nat (length f) * 10 ^ (8 - Z.of_nat (length f)) = 10 ^ 8)
    by (rewrite <- Z.pow_add_r by lia; f_equal; lia).
  assert (0 < 10 ^ (8 - Z.of_nat (length f))) by (apply Z.pow_pos_nonneg; lia).
  assert (0 < 10 ^ Z.of_nat (length f)) by (apply Z.pow_pos_nonneg; lia).
  rewrite (proj2 (Z.leb_le _ _)) by (unfold u_max; nia). cbn [ok_or].
  unfold try_into. rewrite !(proj2 (Z.leb_le _ _)) by (unfold u_max; lia). cbn [andb ok_or].
  unfold checked_pow10. rewrite (proj2 (Z.leb_le _ _)) by (unfold u_max; nia). cbn [ok_or].
  apply ok_or_Ok, checked_mul_Some. split; [done|]. unfold u_max. nia.
Qed.
Lemma parse_fraction_Ok f a :
  parse_fraction f = Ok a ->
  digits f /\ f <> [] /\ (length f <= 8)%nat /\ a = dec_value f * 10 ^ (8 - Z.of_nat (length f)).
Proof.
  intros Hp. pose proof Hp as Hp'. unfold parse_fraction in Hp.
  destruct (bool_decide (f = []) || negb (all_digits f)) eqn:Hc; [done|].
  apply orb_false_iff in Hc as [Hc1 Hc2]. bool_props. apply all_digits_iff in Hc2.
  destruct (Z.ltb_spec PDG_DECIMALS_V3 (text_len f)) as [|Hl]; [done|].
  rewrite digits_text_len in Hl by done. unfold PDG_DECIMALS_V3 in Hl.
  assert (Hl' : (length f <= 8)%nat) by lia. split_and!; [done..|].
  rewrite parse_fraction_digits in Hp' by done. by simplify_eq.
Qed.

Lemma trim_start_id s : Forall (fun c => is_whitespace c = false) s -> trim_start s = s.
Proof. destruct 1 as [|c s Hc _]; [done|]. cbn. by rewrite Hc. Qed.
Lemma trim_id s : Forall (fun c => is_whitespace c = false) s -> trim s = s.
Proof.
  intros Hs. unfold trim. rewrite (trim_start_id s), trim_start_id, reverse_involutive; [done| |done].
  by apply Forall_reverse.
Qed.
Definition plain_char (c : Z) : bool := is_ascii_digit c || (c =? DOT).
Lemma plain_char_ok c :
  plain_char c = true -> is_whitespace c = false /\ c <> 43 /\ c <> 45 /\ c <> 101 /\ c <> 69.
Proof.
  unfold plain_char, is_ascii_digit, is_whitespace, DOT. intros Hc.
  assert (Hr : 46 <= c <= 57) by lia. split; [|lia]. repeat (apply orb_false_intro); lia.
Qed.
Lemma plain_decimal_chars s a : plain_decimal s a -> Forall (fun c => plain_char c = true) s /\ s <> [].
Proof.
  assert (Hd : forall w, digits w -> Forall (fun c => plain_char c = true) w).
  { intros w Hw. eapply Forall_impl; [exact Hw|]. intros c Hc. unfold plain_char. by rewrite Hc. }
  destruct 1 as [w Hw Hne|w f Hw Hne Hf Hnf Hl]; [by auto|]. split; [|by destruct w].
  apply Forall_app. split; [by auto|]. constructor; [done|]. by auto.
Qed.

(** The syntax guards pass on plain characters. *)
Lemma guards_pass s :
  Forall (fun c => plain_char c = true) s ->
  bool_decide (trim s <> s) || starts_with 43 s || starts_with 45 s || contains 101 s || contains 69 s = false.
Proof.
  intros Hs.
  assert (Hw : Forall (fun c => is_whitespace c = false) s)
    by (eapply Forall_impl; [exact Hs|]; intros c Hc; by apply plain_char_ok in Hc as [? _]).
  rewrite trim_id, bool_decide_eq_false_2 by (done || tauto).
  assert (Hc : forall c, c = 101 \/ c = 69 -> contains c s = false).
  { intros c Hc. apply not_true_is_false. unfold contains. rewrite existsb_exists.
    intros (x & Hx%list_elem_of_In & E%Z.eqb_eq). rewrite Forall_forall in Hs.
    apply Hs, plain_char_ok in Hx. lia. }
  assert (Hs' : forall c, c = 43 \/ c = 45 -> starts_with c s = false).
  { intros c Hc'. destruct Hs as [|d s Hd _]; [done|]. cbn. apply Z.eqb_neq.
    apply plain_char_ok in Hd. lia. }
  rewrite !Hc, !Hs' by auto. done.
Qed.

Lemma digits_no_dot w : digits w -> DOT ∉ w.
Proof.
  intros Hw Hin. rewrite Forall_forall in Hw. apply Hw in Hin. done.
Qed.

Lemma parse_parts_Ok w parts a :
  parse_parts w parts = Ok a <->
  digits w /\ w <> [] /\ (length parts < 2)%nat /\ a <= u64_max /\
  exists fa, match head parts with None => Ok 0 | Some f => parse_fraction f end = Ok fa /\ 0 <= fa /\
    a = dec_value w * ATOMS_PER_COIN + fa.
Proof.
  unfold parse_parts. split.
  - destruct (bool_decide (2 <= length parts)%nat) eqn:H1; [done|].
    destruct (bool_decide (w = [])) eqn:H2; [done|]. destruct (all_digits w) eqn:H3; [|done].
    cbn [orb negb]. bool_props. apply all_digits_iff in H3. intros Hp.
    rewrite parse_uint_digits in Hp by done. inv_ok; simplify_eq;
      (split_and!; [done|done|lia|done|]; eexists; (split; [done|]); split; [|done]); [|done].
    match goal with H : parse_fraction _ = Ok _ |- _ => apply parse_fraction_Ok in H as (Hd & _ & Hl & ->) end.
    pose proof (dec_value_bound _ Hd). apply Z.mul_nonneg_nonneg; [lia|]. apply Z.pow_nonneg. lia.
  - intros (Hw & Hne & Hl & Ha & fa & Hf & Hfa & ->). pose proof (dec_value_bound w Hw).
    rewrite !bool_decide_eq_false_2, (proj2 (all_digits_iff w)) by (done || lia). cbn [orb negb].
    unfold ATOMS_PER_COIN in *. rewrite parse_uint_digits, (proj2 (Z.leb_le _ _)) by (done || lia).
    cbn [ok_or]. unfold checked_mul. rewrite (proj2 (Z.leb_le _ _)) by lia. cbn [ok_or]. rewrite Hf.
    by apply ok_or_Ok, checked_add_Some.
Qed.

Lemma plain_decimal_split s a :
  a <= u64_max -> plain_decimal s a <->
  exists w parts, split_on DOT s = w :: parts /\ parse_parts w parts = Ok a.
Proof.
  intros Ha. split.
  - destruct 1 as [w Hw Hnw|w f Hw Hnw Hf Hnf Hl].
    + exists w, []. unfold split_on. rewrite split_on_from_none by by apply digits_no_dot.
      split; [done|]. apply parse_parts_Ok. split_and!; [done..|cbn; lia|done|].
      exists 0. split_and!; [done..|lia].
    + exists w, [f]. unfold split_on. rewrite split_on_from_cons by by apply digits_no_dot.
      unfold split_on. rewrite split_on_from_none by by apply digits_no_dot.
      split; [done|]. apply parse_parts_Ok. split_and!; [done..|cbn; lia|done|].
      eexists. split; [by apply parse_fraction_digits|]. split; [|done].
      pose proof (dec_value_bound _ Hf). apply Z.mul_nonneg_nonneg; [lia|]. apply Z.pow_nonneg. lia.
  - intros (w & parts & Hs & (Hw & Hne & Hl & _ & fa & Hf & _ & ->)%parse_parts_Ok).
    destruct parts as [|f [|]]; cbn in Hl, Hf; [| |lia].
    + simplify_eq. apply split_on_from_one in Hs as [-> _]. rewrite Z.add_0_r. by constructor.
    + apply split_on_two in Hs as (-> & _ & _). apply parse_fraction_Ok in Hf as (? & ? & ? & ->).
      by constructor.
Qed.

Lemma parse_plain s a : plain_decimal s a -> a <= u64_max -> parse_pdg_decimal_v3 s = Ok a.
Proof.
  intros Hp Ha. destruct (plain_decimal_chars _ _ Hp) as [Hc Hne].
  apply plain_decimal_split in Hp as (w & parts & Hs & Hp); [|done].
  unfold parse_pdg_decimal_v3. rewrite bool_decide_eq_false_2, guards_pass, Hs by done. exact Hp.
Qed.

(** The amount parser accepts exactly the plain decimals (digits, optionally
    followed by a dot and one to eight digits) whose value in atoms fits [u64],
    and returns that value: no rounding, no sign, exponent or white space. *)
Lemma parse_pdg_decimal_spec s a :
  parse_pdg_decimal_v3 s = Ok a <-> plain_decimal s a /\ a <= u64_max.
Proof.
  split.
  - unfold parse_pdg_decimal_v3. intros Hp. inv_ok. destruct (split_on DOT s) as [|w parts] eqn:Hs; [done|].
    pose proof Hp as (_ & _ & _ & Ha & _)%parse_parts_Ok.
    split; [|done]. apply plain_decimal_split; [done|]. by exists w, parts.
  - intros [Hp Ha]. by apply parse_plain.
Qed.

Lemma pad_zeros_digits n s : digits s -> digits (pad_zeros n s) /\ dec_value (pad_zeros n s) = dec_value s.
Proof.
  intros Hs. unfold pad_zeros. split; [apply Forall_app; split; [by apply Forall_replicate|done]|].
  unfold dec_value. rewrite dec_value_from_app. f_equal.
  induction (n - length s)%nat as [|k IH]; [done|]. exact IH.
Qed.

(** The formatter prints the plain decimal of the amount. *)
Lemma format_plain a : in_u 64 a -> plain_decimal (format_pdg_atoms_v3 a) a.
Proof.
  intros [H0 H1]. unfold format_pdg_atoms_v3.
  pose proof (Z.mod_pos_bound a ATOMS_PER_COIN ltac:(done)) as Hm.
  pose proof (Z.div_mod a ATOMS_PER_COIN ltac:(done)) as Hd.
  assert (Hq : 0 <= a / ATOMS_PER_COIN) by (apply Z.div_pos; [done|done]). unfold ATOMS_PER_COIN in *.
  destruct (print_decimal_spec (a / 100000000)) as (Dw & Nw & Vw); [unfold in_u; lia|].
  destruct (print_decimal_spec (a mod 100000000)) as (Df & Nf & Vf); [unfold in_u, u_max in *; lia|].
  destruct (pad_zeros_digits 8 _ Df) as [Dp Vp].
  assert (Hl : length (pad_zeros 8 (print_decimal (a mod 100000000))) = 8%nat).
  { unfold pad_zeros. rewrite length_app, length_replicate.
    pose proof (print_digits_length 20 (a mod 100000000) [] 8 ltac:(change (10 ^ Z.of_nat 8) with 100000000; lia)
      ltac:(lia)) as Hpl. fold (print_decimal (a mod 100000000)) in Hpl. simpl in Hpl. lia. }
  pose proof (plain_fraction _ _ Dw Nw Dp ltac:(by intros E; rewrite E in Hl) ltac:(lia)) as Hp.
  rewrite Hl, Vp, Vf, Vw in Hp. unfold ATOMS_PER_COIN in Hp.
  change (10 ^ (8 - Z.of_nat 8)) with 1 in Hp.
  replace (a / 100000000 * 100000000 + a mod 100000000 * 1) with a in Hp by lia. exact Hp.
Qed.

(** Parsing a formatted amount returns the amount, for every [u64] number of
    atoms. *)
Lemma pdg_roundtrip a : in_u 64 a -> parse (format_pdg_atoms_v3 a) = Ok (from_atoms a).
Proof.
  intros Ha. unfold parse. pose proof (format_plain a Ha) as Hp.
  assert (E : parse_pdg_decimal_v3 (format_pdg_atoms_v3 a) = Ok a).
  { destruct Ha as [_ Ha]. by apply parse_plain. }
  by rewrite E.
Qed.

Lemma pdg_roundtrip_witness :
  parse (format_pdg_atoms_v3 18446744073709551615) = Ok (from_atoms 18446744073709551615).
Proof. apply pdg_roundtrip. by_decide. Defined.
