(* ===== verification/OrderingV2Props.v ===== *)
(** * The v2 order is the greedy topological order *)

From S2P Require Import Prelude Encoding Crypto Types State Graph Selection OrderingV2.

(** The stored parents of a stored block. *)
Definition stored_parents (state : ChainState) (h : Hash) : gset Hash :=
  match d_blocks (cs_dag state) !! h with
  | Some b => list_to_set (h_parents (b_header b)) ∩ dom (d_blocks (cs_dag state))
  | None => ∅
  end.

(** ** Generic facts *)

(** A step before the last check: it neither panics nor reports a cycle. *)
Definition plain_error (e : option OrderingV2Error) : Prop :=
  match e with None | Some (TopologyCycle _) => False | Some _ => True end.
Definition plain {A} (r : ordering A) : Prop :=
  match r with Ok _ => True | Err e => plain_error e end.
Lemma try_fold_plain {A B} (f : B -> A -> ordering B) acc l :
  (forall b x, plain (f b x)) -> plain (try_fold f acc l).
Proof.
  intros Hf. revert acc. induction l as [|x l IH]; intros acc; cbn [try_fold]; [done|].
  specialize (Hf acc x). destruct (f acc x); [apply IH|done].
Qed.
Lemma bind_plain {A B} (c : ordering A) (k : A -> ordering B) :
  plain c -> (forall a, c = Ok a -> plain (k a)) -> plain (let? a := c in k a).
Proof. destruct c; auto. Qed.

(** A loop whose steps succeed or fail whatever the accumulator. *)
Lemma try_fold_is_ok {E A B} (f : B -> A -> result E B) (ok : A -> bool) acc l :
  (forall b x, is_ok (f b x) = ok x) -> is_ok (try_fold f acc l) = forallb ok l.
Proof.
  intros Hf. revert acc. induction l as [|x l IH]; intros acc; cbn [try_fold forallb]; [done|].
  specialize (Hf acc x). destruct (f acc x); simpl in Hf; rewrite <- Hf; [apply IH|done].
Qed.
Lemma forallb_perm {A} (f : A -> bool) l1 l2 : l1 ≡ₚ l2 -> forallb f l1 = forallb f l2.
Proof. induction 1; simpl; try congruence. by destruct (f x), (f y). Qed.

Lemma size_difference_0 (P X : gset Hash) : size (P ∖ X) = 0%nat <-> P ⊆ X.
Proof.
  rewrite size_empty_iff. split.
  - intros HE x Hx. destruct (decide (x ∈ X)); [done|]. exfalso.
    apply (not_elem_of_empty (C:=gset Hash) x). rewrite <- HE. by apply elem_of_difference.
  - intros Hs x. split; [|by intros ?%elem_of_empty]. intros [Hx Hn]%elem_of_difference. by destruct Hn; apply Hs.
Qed.
Lemma list_to_set_snoc (l : list Hash) h :
  list_to_set (l ++ [h]) =@{gset Hash} list_to_set l ∪ {[h]}.
Proof. apply set_eq. intros x. rewrite elem_of_union, !elem_of_list_to_set, elem_of_app. set_solver. Qed.
Lemma pop_ready_None r : pop_ready r = None <-> r = ∅.
Proof.
  unfold pop_ready. pose proof (fun x => isort_elem_of (cmp_le compare_ready) x (elements r)) as Hel.
  destruct (isort _ (elements r)) as [|k l] eqn:E; split; intros Hr; try done.
  - apply set_eq. intros x. rewrite <- elem_of_elements, <- Hel. set_solver.
  - subst. rewrite elements_empty in Hel. specialize (Hel k). set_solver.
Qed.
Lemma pop_ready_Some r k r' :
  pop_ready r = Some (k, r') ->
  k ∈ r /\ r' = r ∖ {[k]} /\ (forall x, x ∈ r -> cmp_le compare_ready k x).
Proof.
  unfold pop_ready. pose proof (fun x => isort_elem_of (cmp_le compare_ready) x (elements r)) as Hel.
  pose proof (isort_ssorted (cmp_le compare_ready) (elements r)) as Hs.
  destruct (isort _ (elements r)) as [|y l]; [done|]. intros [= -> <-].
  split; [|split; [done|]].
  - rewrite <- elem_of_elements, <- Hel. left.
  - intros x Hx. rewrite <- elem_of_elements, <- Hel in Hx.
    apply StronglySorted_inv in Hs as [_ Hall]. apply elem_of_cons in Hx as [->|Hx].
    + reflexivity.
    + by rewrite Forall_forall in Hall; apply Hall.
Qed.

(** ** The edge maps *)

Section edges.
Context (state : ChainState).
Let blocks := d_blocks (cs_dag state).

Lemma add_parents_Ok exempt hash ps parents e e' d :
  em_indegree e !! hash = Some d ->
  add_parents state exempt hash ps parents e = Ok e' ->
  let new : gset Hash := (list_to_set parents ∩ dom blocks) ∖ ps in
  em_indegree e' = <[hash := d + Z.of_nat (size new)]> (em_indegree e) /\
  (forall p c, c ∈ default ∅ (em_children e' !! p) <->
     c ∈ default ∅ (em_children e !! p) \/ (c = hash /\ p ∈ new)).
Proof.
  revert ps e d. induction parents as [|p parents IH]; intros ps e d Hd Ha; cbn [add_parents] in Ha.
  { simplify_eq. cbn zeta. replace ((list_to_set [] ∩ dom blocks) ∖ ps) with (∅ : gset Hash) by set_solver.
    rewrite size_empty, Z.add_0_r, insert_id by done. split; [done|]. set_solver. }
  destruct (bool_decide (p ∈ ps)) eqn:Hps; bool_props.
  { destruct (IH _ _ _ Hd Ha) as [Hi Hc].
    replace ((list_to_set (p :: parents) ∩ dom blocks) ∖ ps)
      with ((list_to_set parents ∩ dom blocks) ∖ ps) by set_solver. done. }
  destruct (bool_decide (d_blocks (cs_dag state) !! p = None)) eqn:Hpb; bool_props.
  { destruct exempt; [|done]. destruct (IH _ _ _ Hd Ha) as [Hi Hc].
    assert (Hnd : p ∉ dom blocks) by (by apply not_elem_of_dom).
    replace ((list_to_set (p :: parents) ∩ dom blocks) ∖ ps)
      with ((list_to_set parents ∩ dom blocks) ∖ ({[p]} ∪ ps)) by set_solver. done. }
  apply (IH _ _ (d + 1)) in Ha as [Hi Hc]; [|cbn; rewrite Hd; by rewrite lookup_insert_eq].
  assert (Hdom : p ∈ dom blocks).
  { apply elem_of_dom. destruct (blocks !! p) eqn:E; [by eexists|]. by destruct Hpb. }
  assert (Hnew : (list_to_set (p :: parents) ∩ dom blocks) ∖ ps =
    {[p]} ∪ (list_to_set parents ∩ dom blocks) ∖ ({[p]} ∪ ps)).
  { apply set_eq. intros x. destruct (decide (x = p)); set_solver. }
  cbn zeta. rewrite Hnew, size_union, size_singleton by set_solver. cbn in Hi, Hc. split.
  - rewrite Hi, Hd, insert_insert_eq. f_equal. cbn. lia.
  - intros q c. rewrite Hc. destruct (decide (q = p)) as [->|Hq].
    + rewrite lookup_insert_eq. simpl. set_solver.
    + rewrite lookup_insert_ne by done. set_solver.
Qed.

Lemma add_parents_is_ok exempt hash ps parents e e2 :
  is_ok (add_parents state exempt hash ps parents e) =
  is_ok (add_parents state exempt hash ps parents e2).
Proof.
  revert ps e e2. induction parents as [|p parents IH]; intros ps e e2; cbn [add_parents]; [done|].
  repeat case_match; auto.
Qed.
Lemma add_block_is_ok pruned floor e e2 p :
  is_ok (add_block state pruned floor e p) = is_ok (add_block state pruned floor e2 p).
Proof. apply add_parents_is_ok. Qed.
Lemma add_parents_plain exempt hash ps parents e :
  plain (add_parents state exempt hash ps parents e).
Proof.
  revert ps e. induction parents as [|p parents IH]; intros ps e; cbn [add_parents]; [done|].
  repeat case_match; auto; done.
Qed.

(** The processed blocks have their parent counts and edges. *)
Definition edges_of (processed : list Hash) (e : EdgeMaps) : Prop :=
  (forall h, em_indegree e !! h =
     if decide (h ∈ processed) then Some (Z.of_nat (size (stored_parents state h))) else None) /\
  (forall p c, c ∈ default ∅ (em_children e !! p) <-> c ∈ processed /\ p ∈ stored_parents state c).

Lemma add_block_edges pruned floor processed e h b e' :
  blocks !! h = Some b -> h ∉ processed -> edges_of processed e ->
  add_block state pruned floor e (h, b) = Ok e' -> edges_of (processed ++ [h]) e'.
Proof.
  intros Hb Hh [Hi Hc] Ha. unfold add_block in Ha. cbn in Ha.
  assert (Hsp : stored_parents state h = (list_to_set (h_parents (b_header b)) ∩ dom blocks) ∖ ∅).
  { unfold stored_parents. fold blocks. rewrite Hb. set_solver. }
  assert (Hn : em_indegree e !! h = None) by (rewrite Hi; by rewrite decide_False).
  rewrite Hn in Ha. apply (add_parents_Ok _ _ _ _ _ _ 0) in Ha as [Hi' Hc'];
    [|cbn; by rewrite lookup_insert_eq].
  cbn in Hi', Hc'. fold blocks in Hi', Hc'. rewrite <- Hsp in Hi', Hc'. split.
  - intros x. rewrite Hi'. destruct (decide (x = h)) as [->|Hx].
    + rewrite lookup_insert_eq, decide_True; [done|set_solver].
    + rewrite !lookup_insert_ne, Hi by done. repeat case_decide; set_solver.
  - intros p c. rewrite Hc', Hc. set_solver.
Qed.

Lemma edges_spec pruned floor l e :
  l ≡ₚ map_to_list blocks ->
  try_fold (add_block state pruned floor) (mkEdgeMaps ∅ ∅) l = Ok e -> edges_of (map fst l) e.
Proof.
  intros Hl Hf.
  assert (Hnd : NoDup (map fst l)).
  { rewrite Hl. apply NoDup_fst_map_to_list. }
  refine (try_fold_ind (add_block state pruned floor) (fun pre e => edges_of (map fst pre) e) _ l e _ _ Hf).
  { split; [intros h; cbn; by rewrite lookup_empty|].
    intros p c. cbn. rewrite lookup_empty. set_solver. }
  intros pre [h b] post e0 e1 -> Hpre Hadd. rewrite map_app. cbn.
  apply (add_block_edges pruned floor _ e0 h b); [| |done|done].
  - apply elem_of_map_to_list. rewrite <- Hl. set_solver.
  - rewrite map_app in Hnd. apply NoDup_app in Hnd as (_ & Hdisj & _). cbn in Hdisj.
    intros Hin. apply (Hdisj h Hin). set_solver.
Qed.
End edges.

(** ** The greedy order *)

Section greedy.
Context (state : ChainState) (priorities : gmap Hash (Z * OrderingClass)).
Let blocks := d_blocks (cs_dag state).

(** A block that may come next: stored, not placed, all stored parents placed. *)
Definition ready_after (placed : list Hash) (h : Hash) : Prop :=
  h ∈ dom blocks /\ h ∉ placed /\ stored_parents state h ⊆ list_to_set placed.

(** Every block of the list was ready when it was placed and had the least key
    of the ready blocks. *)
Definition greedy_order (l : list Hash) : Prop :=
  forall pre h post, l = pre ++ h :: post ->
    ready_after pre h /\
    exists k, ready_key h state priorities = Ok k /\
      forall c kc, ready_after pre c -> ready_key c state priorities = Ok kc ->
        cmp_le compare_ready k kc.

Lemma ready_key_hash h k : ready_key h state priorities = Ok k -> rk_hash k = h.
Proof.
  unfold ready_key, or_stop. intros Hk. destruct (d_blocks _ !! h), (d_blue_work _ !! h); try done.
  by destruct (priorities !! h) as [[]|]; simplify_eq/=.
Qed.
Lemma ready_key_plain h : plain (ready_key h state priorities).
Proof.
  unfold ready_key, or_stop. destruct (d_blocks _ !! h), (d_blue_work _ !! h); try done.
  by destruct (priorities !! h) as [[]|].
Qed.

Lemma greedy_order_snoc l h k :
  greedy_order l -> ready_after l h -> ready_key h state priorities = Ok k ->
  (forall c kc, ready_after l c -> ready_key c state priorities = Ok kc -> cmp_le compare_ready k kc) ->
  greedy_order (l ++ [h]).
Proof.
  intros Hg Hr Hk Hmin pre x post Heq. destruct post as [|y post _] using rev_ind.
  - apply app_inj_tail in Heq as [-> ->]. eauto.
  - rewrite app_comm_cons, app_assoc in Heq. apply app_inj_tail in Heq as [Heq _]. by apply (Hg pre x post).
Qed.
Lemma greedy_NoDup l : greedy_order l -> NoDup l /\ (forall h, h ∈ l -> h ∈ dom blocks).
Proof.
  induction l as [|h l IH] using rev_ind; intros Hg; [split; [constructor|set_solver]|].
  assert (Hl : greedy_order l).
  { intros pre x post ->. apply (Hg pre x (post ++ [h])). by rewrite <- app_assoc. }
  destruct (IH Hl) as [Hnd Hdom]. destruct (Hg l h [] eq_refl) as [(Hd & Hn & _) _].
  split; [|set_solver]. apply NoDup_app. split; [done|]. split; [set_solver|apply NoDup_singleton].
Qed.

Lemma greedy_closed l c : greedy_order l -> c ∈ l -> stored_parents state c ⊆ list_to_set l.
Proof.
  intros Hg (pre & post & ->)%list_elem_of_split. destruct (Hg pre c post eq_refl) as [(_ & _ & Hsub) _].
  etrans; [exact Hsub|]. rewrite list_to_set_app. apply union_subseteq_l.
Qed.

(** The order is unique. *)
Lemma greedy_prefix_unique l1 l2 :
  greedy_order l1 -> greedy_order l2 -> length l1 = length l2 -> l1 = l2.
Proof.
  revert l2. induction l1 as [|x l1 IH] using rev_ind; intros l2 H1 H2 Hlen.
  { by destruct l2. }
  destruct l2 as [|y l2 _] using rev_ind; [rewrite length_app in Hlen; simpl in Hlen; lia|].
  rewrite !length_app in Hlen. simpl in Hlen.
  assert (Hshrink : forall l z, greedy_order (l ++ [z]) -> greedy_order l).
  { intros l z Hg pre h post ->. apply (Hg pre h (post ++ [z])). by rewrite <- app_assoc. }
  assert (l1 = l2) as <- by (apply IH; [by eapply Hshrink..|lia]). f_equal. f_equal.
  destruct (H1 l1 x [] eq_refl) as (Rx & kx & Kx & Mx).
  destruct (H2 l1 y [] eq_refl) as (Ry & ky & Ky & My).
  assert (kx = ky) as E by (apply (anti_symm (cmp_le compare_ready)); [exact (Mx _ _ Ry Ky)|exact (My _ _ Rx Kx)]).
  rewrite <- (ready_key_hash _ _ Kx), <- (ready_key_hash _ _ Ky). by rewrite E.
Qed.

(** *** The loop invariant *)

Record loop_inv (indegree : gmap Hash Z) (ready : gset ReadyKey) (placed : list Hash) : Prop := {
  li_greedy : greedy_order placed;
  li_degree c : c ∈ dom blocks ->
    indegree !! c = Some (Z.of_nat (size (stored_parents state c ∖ list_to_set placed)));
  li_ready k : k ∈ ready <-> exists h, ready_after placed h /\ ready_key h state priorities = Ok k;
  li_keys h : ready_after placed h -> is_ok (ready_key h state priorities) = true;
}.

(** The block maps of the loop. *)
Context (children : gmap Hash (gset Hash)).
Hypothesis Hchildren : forall p c, c ∈ default ∅ (children !! p) <-> c ∈ dom blocks /\ p ∈ stored_parents state c.

Lemma remaining_parents_step (P : gset Hash) placed h :
  h ∈ P -> h ∉ placed ->
  size (P ∖ list_to_set placed) = S (size (P ∖ list_to_set (placed ++ [h]))).
Proof.
  intros HP Hn. rewrite list_to_set_snoc.
  replace (P ∖ list_to_set placed) with ({[h]} ∪ P ∖ (list_to_set placed ∪ {[h]})).
  - rewrite size_union, size_singleton by set_solver. lia.
  - apply set_eq. intros x. destruct (decide (x = h)) as [->|]; set_solver.
Qed.

(** The child loop: processed children lost the placed parent, and those without
    a remaining parent are ready. *)
Definition released (placed : list Hash) (h : Hash) (ready : gset ReadyKey) (processed : list Hash)
  (s : gmap Hash Z * gset ReadyKey) : Prop :=
  (forall c, c ∈ dom blocks -> s.1 !! c = Some (Z.of_nat (size
     (stored_parents state c ∖ list_to_set (if decide (c ∈ processed) then placed ++ [h] else placed))))) /\
  (forall k, k ∈ s.2 <-> k ∈ ready \/ exists c, c ∈ processed /\
     stored_parents state c ⊆ list_to_set (placed ++ [h]) /\ ready_key c state priorities = Ok k) /\
  (forall c, c ∈ processed -> stored_parents state c ⊆ list_to_set (placed ++ [h]) ->
     is_ok (ready_key c state priorities) = true).

Lemma release_child_step placed h ready processed c s s' :
  h ∉ placed -> c ∈ dom blocks -> h ∈ stored_parents state c -> c ∉ processed ->
  released placed h ready processed s -> release_child state priorities s c = Ok s' ->
  released placed h ready (processed ++ [c]) s'.
Proof.
  intros Hh Hc Hp Hn (HI & HR & HK) Hr. unfold release_child in Hr. rewrite (HI c Hc) in Hr.
  rewrite decide_False in Hr by done. cbn [ok_or] in Hr.
  pose proof (remaining_parents_step _ placed h Hp Hh) as Hsz. rewrite Hsz in Hr.
  replace (saturating_sub (Z.of_nat (S (size (stored_parents state c ∖ list_to_set (placed ++ [h]))))) 1)
    with (Z.of_nat (size (stored_parents state c ∖ list_to_set (placed ++ [h])))) in Hr
    by (unfold saturating_sub; lia).
  assert (HI' : forall d, d ∈ dom blocks ->
    <[c := Z.of_nat (size (stored_parents state c ∖ list_to_set (placed ++ [h])))]> s.1 !! d =
    Some (Z.of_nat (size (stored_parents state d ∖
      list_to_set (if decide (d ∈ processed ++ [c]) then placed ++ [h] else placed))))).
  { intros d Hd. destruct (decide (d = c)) as [->|Hdc].
    - rewrite lookup_insert_eq, decide_True by set_solver. done.
    - rewrite lookup_insert_ne, (HI d Hd) by done. do 3 f_equal.
      destruct (decide (d ∈ processed)); [rewrite decide_True by set_solver|rewrite decide_False by set_solver];
        done. }
  destruct (Z.eqb_spec (Z.of_nat (size (stored_parents state c ∖ list_to_set (placed ++ [h])))) 0) as [E|E].
  - assert (Hsub : stored_parents state c ⊆ list_to_set (placed ++ [h])).
    { apply size_difference_0. lia. }
    destruct (ready_key c state priorities) as [kc|] eqn:Hk; [|done]. injection Hr as <-.
    split; [exact HI'|]. split.
    2: { intros d [?| ->%list_elem_of_singleton]%elem_of_app ?; [by apply HK|by rewrite Hk]. }
    intros k. cbn. rewrite elem_of_union, elem_of_singleton, HR. split.
    + intros [->|[?|(d & ? & ? & ?)]]; [right; exists c; set_solver|by left|right; exists d; set_solver].
    + intros [?|(d & [?| ->%list_elem_of_singleton]%elem_of_app & ? & Hd)]; [by right; left|by right; right; eauto|].
      left. congruence.
  - injection Hr as <-. split; [exact HI'|]. split.
    2: { intros d [?| ->%list_elem_of_singleton]%elem_of_app Hsub; [by apply HK|].
         exfalso. apply size_difference_0 in Hsub. lia. }
    intros k. cbn. rewrite HR. split.
    + intros [?|(d & ? & ? & ?)]; [by left|right; exists d; set_solver].
    + intros [?|(d & [?| ->%list_elem_of_singleton]%elem_of_app & Hsub & Hd)]; [by left|by right; eauto|].
      exfalso. apply size_difference_0 in Hsub. lia.
Qed.

Lemma release_children placed h indegree ready s :
  h ∉ placed ->
  (forall c, c ∈ dom blocks ->
     indegree !! c = Some (Z.of_nat (size (stored_parents state c ∖ list_to_set placed)))) ->
  try_fold (release_child state priorities) (indegree, ready) (btree_iter (default ∅ (children !! h))) = Ok s ->
  released placed h ready (btree_iter (default ∅ (children !! h))) s.
Proof.
  intros Hh Hdeg. apply (try_fold_ind (release_child state priorities) (released placed h ready)).
  - split; [intros c Hc; rewrite decide_False by apply not_elem_of_nil; by apply Hdeg|].
    split; [|by intros c ?%elem_of_nil]. intros k. cbn. split; [by left|].
    intros [?|(c & ?%elem_of_nil & _)]; done.
  - intros pre c post s0 s1 Heq Hrel Hstep.
    assert (Hc : c ∈ btree_iter (default ∅ (children !! h))) by (rewrite Heq; set_solver).
    rewrite elem_of_btree_iter, Hchildren in Hc. destruct Hc as [Hc Hp].
    eapply release_child_step; [done|done|done| |done|done].
    pose proof (NoDup_btree_iter (default ∅ (children !! h))) as Hnd. rewrite Heq in Hnd.
    apply NoDup_app in Hnd as (_ & Hdisj & _). intros Hin. apply (Hdisj c Hin). set_solver.
Qed.
Lemma release_plain h indegree ready :
  (forall c, c ∈ dom blocks -> is_Some (indegree !! c)) ->
  plain (try_fold (release_child state priorities) (indegree, ready)
           (btree_iter (default ∅ (children !! h)))).
Proof.
  assert (Hall : forall c, c ∈ btree_iter (default ∅ (children !! h)) -> c ∈ dom blocks).
  { intros c. rewrite elem_of_btree_iter, Hchildren. tauto. }
  revert Hall indegree ready. generalize (btree_iter (default ∅ (children !! h))).
  induction l as [|c l IH]; intros Hall I R HI; cbn [try_fold]; [done|].
  unfold release_child at 1. cbn [fst snd]. destruct (HI c) as [d Hd]; [apply Hall; left|]. rewrite Hd.
  cbn [ok_or]. pose proof (ready_key_plain c).
  assert (Hins : forall v c', c' ∈ dom blocks -> is_Some (<[c := v]> I !! c')).
  { intros v c' Hc'. destruct (decide (c' = c)) as [->|]; [rewrite lookup_insert_eq; by eexists|].
    rewrite lookup_insert_ne by done. by apply HI. }
  destruct (_ =? 0); [destruct (ready_key c state priorities); [|done]|];
    (apply IH; [intros; apply Hall; by right|by apply Hins]).
Qed.

(** What may be ready after [h] is placed: what was ready before, and the
    children of [h] without other remaining parents. *)
Lemma ready_after_snoc placed h c :
  h ∉ placed ->
  ready_after (placed ++ [h]) c <->
  (ready_after placed c /\ c <> h) \/
  (c ∈ dom blocks /\ c ∉ placed ++ [h] /\ h ∈ stored_parents state c /\
   stored_parents state c ⊆ list_to_set (placed ++ [h])).
Proof.
  intros Hh. unfold ready_after. rewrite list_to_set_snoc. split.
  - intros (Hd & Hn & Hsub). destruct (decide (h ∈ stored_parents state c)) as [Hp|Hp]; [by right|].
    left. split; [|intros ->; apply Hn, elem_of_app; right; left].
    split_and!; [done|intros ?; apply Hn, elem_of_app; by left|].
    intros x Hx. specialize (Hsub x Hx). apply elem_of_union in Hsub as [?| ->%elem_of_singleton]; done.
  - intros [[(Hd & Hn & Hsub) Hne]|(Hd & Hn & Hp & Hsub)]; [|done].
    split_and!; [done| |etrans; [exact Hsub|apply union_subseteq_l]].
    intros [?|?%list_elem_of_singleton]%elem_of_app; done.
Qed.

Lemma loop_step indegree ready placed k ready' s :
  loop_inv indegree ready placed -> pop_ready ready = Some (k, ready') ->
  try_fold (release_child state priorities) (indegree, ready')
    (btree_iter (default ∅ (children !! rk_hash k))) = Ok s ->
  loop_inv s.1 s.2 (placed ++ [rk_hash k]) /\ ready_after placed (rk_hash k).
Proof.
  intros [Hg Hd Hr HK] (Hk & -> & Hmin)%pop_ready_Some Hf.
  apply Hr in Hk as (h & Hrh & Hkh). pose proof (ready_key_hash _ _ Hkh) as Hrk. rewrite Hrk in *.
  split; [|done]. assert (Hn : h ∉ placed) by apply Hrh.
  apply (release_children placed) in Hf as (HI & HR & HK'); [|done..].
  assert (HC : forall c, c ∈ btree_iter (default ∅ (children !! h)) <->
    c ∈ dom blocks /\ h ∈ stored_parents state c) by (intros c; by rewrite elem_of_btree_iter, Hchildren).
  (* a child of [h] is not placed yet *)
  assert (Hout : forall c, h ∈ stored_parents state c -> c ∉ placed ++ [h]).
  { intros c Hp [Hc|Hc%list_elem_of_singleton]%elem_of_app; apply Hn.
    - apply (elem_of_list_to_set (C:=gset Hash)). by apply (greedy_closed placed c).
    - subst c. apply (elem_of_list_to_set (C:=gset Hash)). destruct Hrh as (_ & _ & Hsub). by apply Hsub. }
  assert (Hrd : forall c, ready_after (placed ++ [h]) c <->
    (ready_after placed c /\ c <> h) \/ (c ∈ btree_iter (default ∅ (children !! h)) /\
       stored_parents state c ⊆ list_to_set (placed ++ [h]))).
  { intros c. rewrite ready_after_snoc by done. rewrite HC. split; [tauto|].
    intros [?|[[? ?] ?]]; [by left|right; auto]. }
  split.
  - apply (greedy_order_snoc _ _ k); [done|done|done|]. intros c kc Hc Hkc. apply Hmin, Hr. eauto.
  - intros c Hc. rewrite (HI c Hc). do 2 f_equal. case_decide as Hin; [done|].
    f_equal. rewrite list_to_set_snoc.
    apply set_eq. intros x. rewrite !elem_of_difference, elem_of_union, elem_of_singleton. split; [|tauto].
    intros [Hx Hnx]. split; [done|]. intros [?| ->]; [done|]. apply Hin, HC. done.
  - intros k'. rewrite HR, elem_of_difference, elem_of_singleton, Hr. split.
    + intros [[(c & Hc & Hkc) Hne]|(c & Hc & Hsub & Hkc)]; exists c; (split; [|done]); apply Hrd; [left|by right].
      split; [done|]. congruence.
    + intros (c & [[Hc Hne]|[Hc Hsub]]%Hrd & Hkc); [left|by right; eauto].
      split; [by eauto|]. intros ->. apply Hne. rewrite <- (ready_key_hash _ _ Hkc). done.
  - intros c [[Hc _]|[Hc Hsub]]%Hrd; [by apply HK|by apply HK'].
Qed.

(** The loop terminates within its fuel without panicking, and when it succeeds
    no ready block is left. *)
Lemma order_loop_spec fuel indegree ready placed :
  loop_inv indegree ready placed -> (size blocks < fuel + length placed)%nat ->
  match order_loop state priorities children fuel indegree ready placed with
  | None => False
  | Some (Err e) => plain_error e
  | Some (Ok l) => greedy_order l /\ forall h, ~ ready_after l h
  end.
Proof.
  revert indegree ready placed. induction fuel as [|fuel IH]; intros indegree ready placed Hinv Hf.
  { pose proof Hinv as [Hg _ _ _]. destruct (greedy_NoDup _ Hg) as [Hnd Hdom].
    assert (length placed <= size (dom blocks))%nat; [|rewrite size_dom in *; lia].
    rewrite <- (size_list_to_set (C:=gset Hash)) by done. apply subseteq_size.
    intros x Hx%elem_of_list_to_set. by apply Hdom. }
  cbn [order_loop]. destruct (pop_ready ready) as [[k ready']|] eqn:Hp.
  - destruct (try_fold _ _ _) as [[I R]|e] eqn:Hr.
    + destruct (loop_step _ _ _ _ _ _ Hinv Hp Hr) as [Hinv' _]. apply IH; [exact Hinv'|].
      rewrite length_app. simpl. lia.
    + change (plain (A:=gmap Hash Z * gset ReadyKey) (Err e)). rewrite <- Hr. apply release_plain.
      intros c Hc. by rewrite (li_degree _ _ _ Hinv c Hc).
  - destruct Hinv as [Hg _ Hr HK]. split; [done|]. intros h Hh.
    apply pop_ready_None in Hp. subst ready. pose proof (HK h Hh) as Hok.
    destruct (ready_key h state priorities) as [k|] eqn:Hk; [|done].
    apply (not_elem_of_empty (C:=gset ReadyKey) k). apply Hr. eauto.
Qed.
End greedy.

(** ** The whole derivation *)

Section derive.
Context `{Crypto} (state : ChainState).
Let blocks := d_blocks (cs_dag state).

Lemma place_selected_chain_plain index previous chain priorities :
  plain (place_selected_chain state index previous chain priorities).
Proof.
  revert index previous priorities. induction chain as [|h chain IH]; intros; cbn [place_selected_chain];
    [done|]. destruct (bool_decide _); [done|]. apply bind_plain; [by destruct (_ !! h)|]. intros op _.
  by destruct (bool_decide _).
Qed.
Lemma classify_anchors_plain selected index chain s :
  plain (classify_anchors state selected index chain s).
Proof.
  revert index s. induction chain as [|h chain IH]; intros; cbn [classify_anchors]; [done|].
  do 2 (apply bind_plain; [by destruct (_ !! h)|intros ? _]). apply bind_plain; [|auto].
  apply try_fold_plain. intros s0 [class hashes]. apply try_fold_plain. intros s1 x.
  unfold classify_hash. by repeat case_match.
Qed.
Lemma build_priorities_plain `{HashOrder} : plain (build_priorities state).
Proof.
  unfold build_priorities. destruct (bool_decide _); [done|].
  apply bind_plain; [apply place_selected_chain_plain|intros ? _].
  apply bind_plain; [apply classify_anchors_plain|intros ? _].
  apply bind_plain; [|done]. apply try_fold_plain. intros _ x. by destruct (bool_decide _).
Qed.

(** The keys of the blocks without stored parents. *)
Lemma initial_ready_keys priorities indegree ready :
  (forall h, ready_after state [] h <-> indegree !! h = Some 0) ->
  initial_ready state priorities indegree = Ok ready ->
  (forall k, k ∈ ready <-> exists h, h ∈ btree_keys_sorted indegree /\
     ready_after state [] h /\ ready_key h state priorities = Ok k) /\
  (forall h, h ∈ btree_keys_sorted indegree -> ready_after state [] h ->
     is_ok (ready_key h state priorities) = true).
Proof.
  intros Hready Hf. unfold initial_ready in Hf. revert Hf. apply (try_fold_ind _ (fun pre r => (forall k, k ∈ r <-> exists h, h ∈ pre /\
      ready_after state [] h /\ ready_key h state priorities = Ok k) /\
    (forall h, h ∈ pre -> ready_after state [] h -> is_ok (ready_key h state priorities) = true))).
  - split; [|by intros h ?%elem_of_nil]. intros k. split; [by intros ?%not_elem_of_empty|].
    by intros (h & ?%elem_of_nil & _).
  - intros pre h post r r' _ [HR HK] Hstep.
    destruct (bool_decide (indegree !! h = Some 0)) eqn:Hb; bool_props.
    + apply Hready in Hb. destruct (ready_key h state priorities) as [kh|] eqn:Hk; [|done].
      injection Hstep as <-. split.
      * intros k. rewrite elem_of_union, elem_of_singleton, HR. setoid_rewrite elem_of_app.
        setoid_rewrite list_elem_of_singleton. split.
        -- intros [->|(x & ? & ? & ?)]; eauto 10.
        -- intros (x & [?| ->] & ? & ?); [right; eauto|left; congruence].
      * intros x [?| ->%list_elem_of_singleton]%elem_of_app Hx; [by apply HK|by rewrite Hk].
    + injection Hstep as <-. split.
      * intros k. rewrite HR. setoid_rewrite elem_of_app. setoid_rewrite list_elem_of_singleton. split.
        -- intros (x & ? & ? & ?); eauto 10.
        -- intros (x & [?| ->] & Hx & ?); [eauto|]. by apply Hready in Hx.
      * intros x [?| ->%list_elem_of_singleton]%elem_of_app Hx; [by apply HK|]. by apply Hready in Hx.
Qed.
Lemma initial_ready_inv priorities indegree ready (processed : list Hash) :
  (forall h, h ∈ processed <-> h ∈ dom blocks) ->
  (forall h, indegree !! h = if decide (h ∈ processed)
     then Some (Z.of_nat (size (stored_parents state h))) else None) ->
  initial_ready state priorities indegree = Ok ready ->
  loop_inv state priorities indegree ready [].
Proof.
  intros Hproc Hdeg Hf.
  assert (Hready : forall h, ready_after state [] h <-> indegree !! h = Some 0).
  { intros h. unfold ready_after. fold blocks. rewrite Hdeg. rewrite <- Hproc.
    rewrite <- size_difference_0. replace (stored_parents state h ∖ list_to_set []) with (stored_parents state h)
      by (apply set_eq; set_solver). case_decide as Hin; [|naive_solver].
    split; [intros (_ & _ & ->); done|]. intros [= E]. split_and!; [done|apply not_elem_of_nil|lia]. }
  assert (Hdom : forall h, ready_after state [] h -> h ∈ btree_keys_sorted indegree).
  { intros h Hh%Hready. unfold btree_keys_sorted. rewrite elem_of_btree_iter. by eapply elem_of_dom_2. }
  destruct (initial_ready_keys _ _ _ Hready Hf) as [HR HK]. split.
  - intros pre h post Heq. by destruct pre.
  - intros c Hc. fold blocks in Hc. rewrite Hdeg, decide_True by by apply Hproc.
    do 3 f_equal. apply set_eq. set_solver.
  - intros k. rewrite HR. split; [intros (h & _ & ?); eauto|]. intros (h & Hh & ?). eauto 10.
  - intros h Hh. by apply HK, Hh; apply Hdom.
Qed.
Lemma initial_ready_plain priorities indegree : plain (initial_ready state priorities indegree).
Proof.
  apply try_fold_plain. intros r h. destruct (bool_decide _); [|done].
  apply bind_plain; [apply ready_key_plain|done].
Qed.

(** The result of the loop, given the edge maps. *)
Lemma derived_order `{HashOrder} priorities e :
  try_fold (add_block state (compact_pruned_checkpoint state) (retained_floor state))
    (mkEdgeMaps ∅ ∅) (map_iter blocks) = Ok e ->
  match (let? ready := initial_ready state priorities (em_indegree e) in
         default (Err None) (order_loop state priorities (em_children e) (order_fuel state)
                               (em_indegree e) ready [])) with
  | Ok l => greedy_order state priorities l /\ forall h, ~ ready_after state l h
  | Err err => plain_error err
  end.
Proof.
  intros He. apply edges_spec in He as [Hdeg Hch]; [|apply map_iter_perm].
  assert (Hproc : forall h, h ∈ map fst (map_iter blocks) <-> h ∈ dom blocks).
  { intros h. rewrite list_elem_of_fmap, elem_of_dom. split.
    - intros ([x b] & -> & Hx%elem_of_map_iter). by eexists.
    - intros [b Hb]. exists (h, b). split; [done|]. by apply elem_of_map_iter. }
  destruct (initial_ready state priorities (em_indegree e)) as [ready|err] eqn:Hr.
  2: { change (plain (A:=gset ReadyKey) (Err err)). rewrite <- Hr. apply initial_ready_plain. }
  pose proof (initial_ready_inv _ _ _ _ Hproc Hdeg Hr) as Hinv.
  pose proof (order_loop_spec state priorities (em_children e)) as Hloop.
  specialize (Hloop ltac:(intros p c; rewrite Hch, Hproc; done) (order_fuel state) _ _ _ Hinv).
  unfold order_fuel in *. specialize (Hloop ltac:(cbn; lia)).
  destruct (order_loop _ _ _ _ _ _ _) as [[l|err]|]; [done|done|done].
Qed.
End derive.

(** A topological order that prefers the least key. *)
Record ordered_by_rule (state : ChainState) (priorities : gmap Hash (Z * OrderingClass)) (l : list Hash)
  : Prop := {
  obr_greedy : greedy_order state priorities l;
  obr_all h : h ∈ l <-> h ∈ dom (d_blocks (cs_dag state));
}.

Lemma not_ready_parent state l h :
  h ∈ dom (d_blocks (cs_dag state)) -> h ∉ l -> ~ ready_after state l h ->
  exists p, p ∈ stored_parents state h /\ p ∈ dom (d_blocks (cs_dag state)) /\ p ∉ l.
Proof.
  intros Hd Hn Hr. destruct (decide (stored_parents state h ∖ list_to_set l ≡ ∅)) as [E|E].
  - exfalso. apply Hr. split_and!; [done|done|]. apply size_difference_0. by apply size_empty_iff.
  - apply set_choose in E as [p [Hp Hpl]%elem_of_difference]. exists p. split; [done|].
    rewrite elem_of_list_to_set in Hpl. split; [|done]. revert Hp. unfold stored_parents.
    destruct (d_blocks (cs_dag state) !! h); [|by intros ?%not_elem_of_empty].
    by intros [_ ?]%elem_of_intersection.
Qed.

(** As many blocks as are stored are all of them. *)
Lemma greedy_complete state priorities l :
  greedy_order state priorities l -> length l = size (d_blocks (cs_dag state)) ->
  ordered_by_rule state priorities l.
Proof.
  intros Hg Hlen. destruct (greedy_NoDup _ _ _ Hg) as [Hnd Hdom]. split; [done|]. intros h.
  split; [apply Hdom|]. intros Hh.
  apply (elem_of_list_to_set (C:=gset Hash)).
  rewrite (set_subseteq_size_eq (list_to_set l) (dom (d_blocks (cs_dag state)))); [done| |].
  - intros x Hx%elem_of_list_to_set. by apply Hdom.
  - rewrite size_dom, size_list_to_set by done. lia.
Qed.

(** The blocks left over when the loop stops early. *)
Lemma leftover_cycle `{HashOrder} state priorities l :
  greedy_order state priorities l -> (forall h, ~ ready_after state l h) ->
  length l <> size (d_blocks (cs_dag state)) ->
  let remaining := filter (fun h => h ∉ l) (map fst (map_iter (d_blocks (cs_dag state)))) in
  remaining <> [] /\ forall h, h ∈ remaining -> exists p, p ∈ remaining /\ p ∈ stored_parents state h.
Proof.
  intros Hg Hstuck Hlen remaining. destruct (greedy_NoDup _ _ _ Hg) as [Hnd Hdom].
  assert (Hrem : forall h, h ∈ remaining <-> h ∈ dom (d_blocks (cs_dag state)) /\ h ∉ l).
  { intros h. unfold remaining. rewrite list_elem_of_filter, list_elem_of_fmap, elem_of_dom. split.
    - intros [? ([x b] & -> & Hx%elem_of_map_iter)]. split; [by eexists|done].
    - intros [[b Hb] ?]. split; [done|]. exists (h, b). split; [done|]. by apply elem_of_map_iter. }
  split.
  - intros E. apply Hlen. apply Nat.le_antisymm.
    + rewrite <- size_dom, <- (size_list_to_set (C:=gset Hash) l) by done. apply subseteq_size.
      intros x Hx%elem_of_list_to_set. by apply Hdom.
    + rewrite <- size_dom, <- (size_list_to_set (C:=gset Hash) l) by done. apply subseteq_size.
      intros x Hx. apply elem_of_list_to_set. destruct (decide (x ∈ l)); [done|]. exfalso.
      apply (not_elem_of_nil x). rewrite <- E. by apply Hrem.
  - intros h [Hd Hn]%Hrem. destruct (not_ready_parent state l h Hd Hn (Hstuck h)) as (p & Hp & Hpd & Hpn).
    exists p. split; [by apply Hrem|done].
Qed.

Lemma derive_spec `{HashOrder, Crypto} state :
  match derive_ordered_dag_v2 state with
  | Ok od => exists priorities, build_priorities state = Ok priorities /\
      ordered_by_rule state priorities (od_blocks od) /\
      od = mkOrderedDagV2 GHOSTDAG_V1_ORDERING_VERSION (od_blocks od) (ordering_digest (od_blocks od))
  | Err (Some (TopologyCycle remaining)) =>
      remaining <> [] /\
      forall h, h ∈ remaining -> exists p, p ∈ remaining /\ p ∈ stored_parents state h
  | Err e => e <> None
  end.
Proof.
  assert (Hplain : forall e, plain_error e -> match e with
    | Some (TopologyCycle remaining) => remaining <> [] /\
        forall h, h ∈ remaining -> exists p, p ∈ remaining /\ p ∈ stored_parents state h
    | _ => e <> None end) by by intros [[]|].
  unfold derive_ordered_dag_v2. pose proof (build_priorities_plain state) as Hpp.
  destruct (build_priorities state) as [prios|e]; [|by apply Hplain in Hpp; destruct e as [[]|]].
  destruct (try_fold _ _ _) as [e|err] eqn:He.
  2: { assert (Hpe : plain (A:=EdgeMaps) (Err err)).
       { rewrite <- He. apply try_fold_plain. intros. apply add_parents_plain. }
       by apply Hplain in Hpe; destruct err as [[]|]. }
  pose proof (derived_order state prios e He) as Hord.
  destruct (initial_ready _ _ _) as [ready|err]; [|by apply Hplain in Hord; destruct err as [[]|]].
  destruct (default _ _) as [l|err]; [|by apply Hplain in Hord; destruct err as [[]|]].
  destruct Hord as [Hg Hstuck]. case_bool_decide as Hlen.
  - by apply (leftover_cycle _ prios).
  - exists prios. split; [done|]. split; [|done]. apply greedy_complete; [done|]. exact Hlen.
Qed.

(** *** When the order exists *)

Section available.
Context (state : ChainState) (priorities : gmap Hash (Z * OrderingClass)).
Let blocks := d_blocks (cs_dag state).
Hypothesis keys_ok : forall h, h ∈ dom blocks -> is_ok (ready_key h state priorities) = true.

Lemma add_parents_stored exempt hash ps parents e :
  (forall p, p ∈ parents -> is_Some (blocks !! p)) -> is_ok (add_parents state exempt hash ps parents e) = true.
Proof.
  revert ps e. induction parents as [|p parents IH]; intros ps e Hp; cbn [add_parents]; [done|].
  destruct (bool_decide _); [apply IH; intros; apply Hp; by right|].
  rewrite bool_decide_eq_false_2; [apply IH; intros; apply Hp; by right|].
  destruct (Hp p ltac:(left)) as [b Hb]. fold blocks. by rewrite Hb.
Qed.

Lemma release_children_ok l s :
  (forall c, c ∈ l -> c ∈ dom blocks) -> (forall c, c ∈ dom blocks -> is_Some (s.1 !! c)) ->
  match try_fold (release_child state priorities) s l with
  | Ok s' => forall c, c ∈ dom blocks -> is_Some (s'.1 !! c)
  | Err _ => False
  end.
Proof.
  revert s. induction l as [|c l IH]; intros [I R] Hl HI; cbn [try_fold]; [done|]. unfold release_child at 1. cbn.
  destruct (HI c (Hl c ltac:(left))) as [d Hd]. cbn in Hd. rewrite Hd. cbn.
  assert (HI' : forall x, x ∈ dom blocks -> is_Some (<[c := saturating_sub d 1]> I !! x)).
  { intros x Hx. destruct (decide (x = c)) as [->|]; [rewrite lookup_insert_eq; by eexists|].
    rewrite lookup_insert_ne by done. by apply HI. }
  destruct (_ =? 0); cbn; [|apply IH; [intros; apply Hl; by right|done]].
  specialize (keys_ok c (Hl c ltac:(left))). destruct (ready_key c state priorities); [|done].
  apply IH; [intros; apply Hl; by right|done].
Qed.

Lemma order_loop_ok children fuel indegree ready ordered :
  (forall p c, c ∈ default ∅ (children !! p) -> c ∈ dom blocks) ->
  (forall c, c ∈ dom blocks -> is_Some (indegree !! c)) ->
  match order_loop state priorities children fuel indegree ready ordered with
  | Some (Err _) => False
  | _ => True
  end.
Proof.
  intros Hc. revert indegree ready ordered. induction fuel as [|fuel IH]; intros I R l HI; cbn [order_loop]; [done|].
  destruct (pop_ready R) as [[k R']|]; [|done].
  pose proof (release_children_ok (btree_iter (default ∅ (children !! rk_hash k))) (I, R')) as Hr.
  destruct (try_fold _ _ _) as [[I' R'']|]; [apply IH|].
  - apply Hr; [intros c; rewrite elem_of_btree_iter; apply Hc|done].
  - apply Hr; [intros c; rewrite elem_of_btree_iter; apply Hc|done].
Qed.
Lemma initial_ready_ok indegree :
  (forall h, indegree !! h = Some 0 -> h ∈ dom blocks) -> is_ok (initial_ready state priorities indegree) = true.
Proof.
  intros Hd. unfold initial_ready. generalize (∅ : gset ReadyKey).
  induction (btree_keys_sorted indegree) as [|h l IH]; intros r; cbn [try_fold]; [done|].
  destruct (bool_decide (indegree !! h = Some 0)) eqn:E; bool_props; [|apply IH].
  specialize (keys_ok h (Hd h E)). destruct (ready_key h state priorities); [apply IH|done].
Qed.
End available.

(** With complete metadata over an acyclic graph the order exists. *)
Lemma derive_available `{HashOrder, Crypto} state priorities (rank : Hash -> nat) :
  build_priorities state = Ok priorities ->
  (forall h b, d_blocks (cs_dag state) !! h = Some b -> is_Some (d_blue_work (cs_dag state) !! h) /\
     is_Some (priorities !! h)) ->
  (forall h b p, d_blocks (cs_dag state) !! h = Some b -> p ∈ h_parents (b_header b) ->
     is_Some (d_blocks (cs_dag state) !! p) /\ (rank p < rank h)%nat) ->
  exists od, derive_ordered_dag_v2 state = Ok od.
Proof.
  intros Hb Hmeta Hpar. pose proof (derive_spec state) as Hs.
  assert (Hkeys : forall h, h ∈ dom (d_blocks (cs_dag state)) -> is_ok (ready_key h state priorities) = true).
  { intros h [b Hh]%elem_of_dom. destruct (Hmeta h b Hh) as [[w Hw] [[a cl] Hp]].
    unfold ready_key, or_stop. by rewrite Hh, Hw, Hp. }
  unfold derive_ordered_dag_v2 in *. rewrite Hb in *.
  assert (He : is_ok (try_fold (add_block state (compact_pruned_checkpoint state) (retained_floor state))
    (mkEdgeMaps ∅ ∅) (map_iter (d_blocks (cs_dag state)))) = true).
  { assert (Hl : forall p, p ∈ map_iter (d_blocks (cs_dag state)) -> d_blocks (cs_dag state) !! p.1 = Some p.2)
      by (intros [h b]; by rewrite elem_of_map_iter).
    clear Hs Hkeys Hb Hmeta. generalize (mkEdgeMaps ∅ ∅). induction (map_iter _) as [|[h b] l IH]; intros e; cbn [try_fold]; [done|].
    unfold add_block at 1. pose proof (add_parents_stored state
      (compact_pruned_checkpoint state && (h_height (b_header b) =? retained_floor state)) h ∅
      (h_parents (b_header b))) as Ha.
    cbn [fst snd]. match goal with |- context [add_parents _ _ _ _ _ ?e] => specialize (Ha e) end.
    destruct (add_parents _ _ _ _ _ _); [apply IH; intros; apply Hl; by right|].
    exfalso. apply diff_false_true, Ha. intros p Hp. apply (Hpar h b p); [|done]. exact (Hl (h, b) ltac:(left)). }
  destruct (try_fold (add_block _ _ _) _ _) as [e|] eqn:Hedges; [|done].
  apply edges_spec in Hedges as [Hdeg Hch]; [|apply map_iter_perm].
  assert (Hproc : forall h, h ∈ map fst (map_iter (d_blocks (cs_dag state))) <-> h ∈ dom (d_blocks (cs_dag state))).
  { intros h. rewrite list_elem_of_fmap, elem_of_dom. split.
    - intros ([x b] & -> & Hx%elem_of_map_iter). by eexists.
    - intros [b Hx]. exists (h, b). split; [done|]. by apply elem_of_map_iter. }
  pose proof (initial_ready_ok state priorities Hkeys (em_indegree e)) as Hir.
  destruct (initial_ready _ _ _) as [ready|].
  2: { exfalso. apply diff_false_true, Hir. intros h Hh. rewrite Hdeg in Hh. case_decide; [by apply Hproc|done]. }
  pose proof (order_loop_ok state priorities Hkeys (em_children e) (order_fuel state) (em_indegree e) ready []) as Hol.
  destruct (order_loop _ _ _ _ _ _ _) as [[l|err]|]; cbn in *.
  - case_bool_decide; [|eauto]. exfalso. destruct Hs as [Hne Hcyc]. revert Hcyc Hne.
    generalize (filter (fun h => h ∉ l) (map fst (map_iter (d_blocks (cs_dag state))))). intros rem Hcyc Hne.
    assert (Hno : forall n h, h ∈ rem -> (rank h < n)%nat -> False).
    { induction n as [|n IHn]; intros h Hh Hn; [lia|]. destruct (Hcyc h Hh) as (p & Hp & Hps).
      apply (IHn p Hp). unfold stored_parents in Hps.
      destruct (d_blocks (cs_dag state) !! h) as [b|] eqn:Eb; [|by apply not_elem_of_empty in Hps].
      apply elem_of_intersection in Hps as [Hps%elem_of_list_to_set _].
      destruct (Hpar h b p Eb Hps). lia. }
    destruct rem as [|h rem]; [done|]. by apply (Hno (S (rank h)) h ltac:(left)); lia.
  - exfalso. apply Hol; [intros p c; rewrite Hch, Hproc; naive_solver|].
    intros c Hc. rewrite Hdeg, decide_True by by apply Hproc. by eexists.
  - done.
Qed.

(** *** The order of the hash maps does not matter *)

Lemma foldl_min_init l x y : foldl Z.min (Z.min x y) l = Z.min x (foldl Z.min y l).
Proof. revert y. induction l as [|z l IH]; intros y; simpl; [done|]. by rewrite <- Z.min_assoc, IH. Qed.
Definition least_or_zero (l : list Z) : Z := match l with [] => 0 | x :: l => foldl Z.min x l end.
Lemma least_or_zero_perm l1 l2 : l1 ≡ₚ l2 -> least_or_zero l1 = least_or_zero l2.
Proof.
  assert (Hfold : forall z l l', l ≡ₚ l' -> foldl Z.min z l = foldl Z.min z l').
  { intros z l l' Hl. revert z. induction Hl as [| |x y l|]; intros z; simpl; [done|auto| |congruence].
    f_equal. lia. }
  induction 1 as [|x l l' Hl _|x y l|]; simpl; [done|auto| |congruence]. f_equal. lia.
Qed.
Lemma retained_floor_order (o1 o2 : HashOrder) state :
  retained_floor (H:=o1) state = retained_floor (H:=o2) state.
Proof.
  unfold retained_floor. apply least_or_zero_perm. apply Permutation_map.
  by rewrite (map_iter_perm (HashOrder:=o1)), (map_iter_perm (HashOrder:=o2)).
Qed.
Lemma try_fold_order (o1 o2 : HashOrder) {E B V} (m : gmap Hash V) (f : B -> Hash * V -> result E B) b ok :
  (forall b x, is_ok (f b x) = ok x) ->
  is_ok (try_fold f b (map_iter (HashOrder:=o1) m)) = is_ok (try_fold f b (map_iter (HashOrder:=o2) m)).
Proof.
  intros Hf. rewrite !(try_fold_is_ok f ok) by done. apply forallb_perm.
  by rewrite (map_iter_perm (HashOrder:=o1)), (map_iter_perm (HashOrder:=o2)).
Qed.
Lemma build_priorities_order (o1 o2 : HashOrder) state p :
  build_priorities (H:=o1) state = Ok p -> build_priorities (H:=o2) state = Ok p.
Proof.
  unfold build_priorities. destruct (bool_decide _); [done|].
  destruct (place_selected_chain _ _ _ _ _) as [p0|]; [|done].
  destruct (classify_anchors _ _ _ _ _) as [s|]; [|done].
  match goal with |- context [try_fold ?f tt (map_iter (HashOrder:=o1) ?m)] =>
    pose proof (try_fold_order o1 o2 m f tt (fun x => negb (bool_decide (cl_priorities s !! x.1 = None)))) as E
  end.
  destruct (try_fold _ tt (map_iter (HashOrder:=o1) _)) as [[]|]; [|done].
  destruct (try_fold _ tt (map_iter (HashOrder:=o2) _)) as [[]|]; [done|].
  discriminate E. intros _ x. by destruct (bool_decide _).
Qed.
Lemma edges_order (o1 o2 : HashOrder) state pruned floor e1 :
  try_fold (add_block state pruned floor) (mkEdgeMaps ∅ ∅)
    (map_iter (HashOrder:=o1) (d_blocks (cs_dag state))) = Ok e1 ->
  exists e2, try_fold (add_block state pruned floor) (mkEdgeMaps ∅ ∅)
    (map_iter (HashOrder:=o2) (d_blocks (cs_dag state))) = Ok e2 /\
    em_indegree e2 = em_indegree e1 /\
    forall p, default ∅ (em_children e2 !! p) = default ∅ (em_children e1 !! p).
Proof.
  intros H1.
  pose proof (try_fold_order o1 o2 (d_blocks (cs_dag state)) (add_block state pruned floor)
    (mkEdgeMaps ∅ ∅) (fun x => is_ok (add_block state pruned floor (mkEdgeMaps ∅ ∅) x))
    (fun b x => add_block_is_ok state pruned floor b _ x)) as E.
  rewrite H1 in E. destruct (try_fold _ _ (map_iter (HashOrder:=o2) _)) as [e2|] eqn:H2; [|done].
  exists e2. split; [done|].
  apply edges_spec in H1 as [I1 C1]; [|apply map_iter_perm].
  apply edges_spec in H2 as [I2 C2]; [|apply map_iter_perm].
  assert (Hk : forall h, h ∈ map fst (map_iter (HashOrder:=o2) (d_blocks (cs_dag state))) <->
                 h ∈ map fst (map_iter (HashOrder:=o1) (d_blocks (cs_dag state)))).
  { intros h. by rewrite (map_iter_perm (HashOrder:=o1)), (map_iter_perm (HashOrder:=o2)). }
  split.
  - apply map_eq. intros h. rewrite I1, I2. by apply decide_ext.
  - intros p. apply set_eq. intros c. by rewrite C1, C2, Hk.
Qed.
Lemma order_loop_children state priorities c1 c2 fuel indegree ready ordered :
  (forall p, default ∅ (c1 !! p) = default (∅ : gset Hash) (c2 !! p)) ->
  order_loop state priorities c1 fuel indegree ready ordered =
  order_loop state priorities c2 fuel indegree ready ordered.
Proof.
  intros Hc. revert indegree ready ordered. induction fuel as [|fuel IH]; intros; cbn [order_loop]; [done|].
  destruct (pop_ready ready) as [[k r]|]; [|done]. rewrite Hc. by destruct (try_fold _ _ _) as [[]|].
Qed.
Lemma derive_order (o1 o2 : HashOrder) `{Crypto} state od :
  derive_ordered_dag_v2 (H:=o1) state = Ok od -> derive_ordered_dag_v2 (H:=o2) state = Ok od.
Proof.
  unfold derive_ordered_dag_v2, compact_pruned_checkpoint. rewrite (retained_floor_order o2 o1).
  destruct (build_priorities (H:=o1) state) as [p|] eqn:Hp; [|done].
  rewrite (build_priorities_order o1 o2 state p Hp).
  destruct (try_fold _ _ (map_iter (HashOrder:=o1) _)) as [e1|] eqn:He; [|done].
  destruct (edges_order o1 o2 _ _ _ _ He) as (e2 & -> & -> & Hc).
  destruct (initial_ready _ _ _) as [r|]; [|done].
  rewrite (order_loop_children _ _ _ _ _ _ _ _ Hc).
  destruct (default _ _) as [l|]; [|done]. unfold stops. intros E. case_bool_decide; [discriminate E|exact E].
Qed.

(** C36: The v2 order of a DAG.  When [derive_ordered_dag_v2] succeeds, its list
    contains every stored block exactly once, each after all its stored parents,
    and each time the block with the least [ReadyKey] (selected-chain anchor, class,
    blue work, blue score, height, hash) of those whose parents are already placed;
    the result is the same for every iteration order of the block hash map.
    [TopologyCycle] lists blocks of which each has a stored parent in the list, so
    it is only reported for a graph with a cycle; the loop never runs out of fuel
    and the [expect] on a child's degree never fails. *)
Theorem derive_ordered_dag_v2_spec `{HashOrder, Crypto} state :
  match derive_ordered_dag_v2 state with
  | Ok od =>
      (exists priorities, build_priorities state = Ok priorities /\
         ordered_by_rule state priorities (od_blocks od)) /\
      NoDup (od_blocks od) /\
      od_digest od = ordering_digest (od_blocks od) /\
      forall o2 : HashOrder, derive_ordered_dag_v2 (H:=o2) state = Ok od
  | Err (Some (TopologyCycle remaining)) =>
      remaining <> [] /\
      forall h, h ∈ remaining -> exists p, p ∈ remaining /\ p ∈ stored_parents state h
  | Err e => e <> None
  end.
Proof.
  pose proof (derive_spec state) as Hs. destruct (derive_ordered_dag_v2 state) as [od|e] eqn:Hd; [|done].
  destruct Hs as (p & Hp & Hrule & Hod). split_and!; [eauto| |by rewrite Hod|].
  - by destruct (greedy_NoDup _ _ _ (obr_greedy _ _ _ Hrule)).
  - intros o2. exact (derive_order _ o2 state od Hd).
Qed.

(** A DAG with a red block: [g] under [a], [b] and [r], all under [m]. *)
Definition classified_diamond : ChainState :=
  blank_state <| cs_dag := (cs_dag blank_state)
    <| d_blocks := list_to_map ((fun '(h, ps, s) => (h, sample_block h ps s s)) <$>
         [("g", [], 0); ("a", ["g"], 1); ("b", ["g"], 1); ("r", ["g"], 1); ("m", ["r"; "b"; "a"], 2)]) |>
    <| d_genesis_hash := "g" |>
    <| d_selected_chain := ["g"; "a"; "m"] |>
    <| d_selected_parents := {[ "g" := None; "a" := Some "g"; "m" := Some "a" ]} |>
    <| d_merge_set_blues := {[ "g" := []; "a" := []; "m" := ["b"] ]} |>
    <| d_merge_set_reds := {[ "g" := []; "a" := []; "m" := ["r"] ]} |>
    <| d_blue_work := {[ "g" := 1; "a" := 3; "b" := 2; "r" := 9; "m" := 12 ]} |> |>.
Example classified_diamond_order :
  (od_blocks <$> match @derive_ordered_dag_v2 list_order model_crypto classified_diamond with
                 | Ok od => Some od | Err _ => None end) = Some ["g"; "a"; "b"; "r"; "m"].
Proof. by_compute. Qed.
