(* ===== verification/Reward.v ===== *)
(** * Reward claims and their settlement ([reward_settlement_v3.rs],
      [validation_v3.rs], [monetary_audit_v3.rs])

    A block claims its reward with an amountless first transaction; what the claim
    pays is derived from the position of the block in the ordered DAG (its monetary
    score) and the fees of its transactions, and is spendable once the position is
    final and mature.  The second half is the direct validation of one reward and
    the audit of the whole monetary state.

    [None] is a panic.  The message of [InvalidRewardClaim] is kept as the value it
    prints, in three constructors; so are the messages that print an ordering
    error. *)

From stdpp Require Import pretty.
From S2P Require Import Prelude Encoding Crypto Types State Tx Validation Text Monetary.
From S2P Require Import OrderingV2.

Definition REWARD_CLAIM_WIRE_TRANSACTION_VERSION_V3 : Z := TRANSACTION_VERSION_V2.
Definition REWARD_SETTLEMENT_SCHEMA_VERSION_V3 : Z := 1.
Definition REWARD_FINALITY_BINDING_SCHEMA_VERSION_V3 : Z := 1.
Definition REWARD_SETTLEMENT_OUTPOINT_DOMAIN_V3 : bytes :=
  str_bytes "PulseDAG:reward-settlement-outpoint:v3".
Definition REWARD_FINALITY_PREFIX_DOMAIN_V3 : bytes := str_bytes "PulseDAG:reward-finality-prefix:v3".

Inductive RewardSettlementV3Error :=
| RewardOrdering (e : OrderingV2Error)
| OrderedBlockMissing (hash : Hash)
| RewardEmptyOrderedDag
| RewardGenesisNotFirst (expected : Hash) (observed : option Hash)
| FinalityBeyondTip (score current_score : Z)
| FinalityBlockMismatch (score : Z) (expected observed : Hash)
| FinalityPrefixDigestMismatch
| EmptyFinalityPolicyVersion
| FinalityPolicyMismatch (expected observed : string)
| EmptyChainId
| MissingRewardClaim (block_hash : Hash)
| MultipleRewardClaims (block_hash : Hash)
| InvalidRewardClaim (reason : string)
| InvalidRewardClaimTx (e : PulseError)
| InvalidRewardClaimIn (block_hash : Hash) (e : RewardSettlementV3Error)
| RewardClaimTxidMismatch (expected observed : Hash)
| RewardOverflow
| SupplyInvariantMismatch (score expected observed : Z)
| RewardMonetary (e : MonetaryV3Error).

Abbreviation reward := (result (option RewardSettlementV3Error)).
Definition rejects {A} (e : RewardSettlementV3Error) : reward A := Err (Some e).
Definition or_reject {A} (o : option A) (e : RewardSettlementV3Error) : reward A := ok_or o (Some e).
Definition of_ordering {A} (r : ordering A) : reward A := map_err (option_map RewardOrdering) r.
Definition of_monetary {A} (r : monetary A) : reward A := map_err (fun e => Some (RewardMonetary e)) r.

Inductive RewardClaimStatusV3 := Provisional | FinalizedImmature | Spendable.
#[global] Instance RewardClaimStatusV3_eq_dec : EqDecision RewardClaimStatusV3.
Proof. solve_decision. Defined.

Record RewardFinalityBoundaryV3 := mkRewardFinalityBoundaryV3 {
  rfb_schema_version : Z;
  rfb_policy_version : string;
  rfb_finalized_through_score : Z;
  rfb_finalized_block_hash : Hash;
  rfb_ordered_prefix_digest : string;
}.
Record RewardClaimSettlementV3 := mkRewardClaimSettlementV3 {
  rc_block_hash : Hash;
  rc_block_height : Z;
  rc_monetary_score : Z;
  rc_claim_txid : Hash;
  rc_beneficiary : string;
  rc_settlement_outpoint : OutPoint;
  rc_subsidy_atoms : Z;
  rc_fees_atoms : Z;
  rc_settlement_amount_atoms : Z;
  rc_finality_protected : bool;
  rc_economic_maturity_reached : bool;
  rc_status : RewardClaimStatusV3;
}.
Record RewardSettlementSnapshotV3 := mkRewardSettlementSnapshotV3 {
  rs_schema_version : Z;
  rs_ordering_version : string;
  rs_ordered_dag_digest : string;
  rs_ordered_dag_tip : option Hash;
  rs_current_monetary_score : Z;
  rs_finality_boundary : option RewardFinalityBoundaryV3;
  rs_claims : list RewardClaimSettlementV3;
  rs_total_authorized_subsidy_atoms : Z;
  rs_scheduled_supply_atoms : Z;
  rs_total_pending_or_spendable_fees_atoms : Z;
  rs_total_spendable_reward_atoms : Z;
}.

Section reward.
Context `{HashOrder, Crypto}.

(** ** Claims *)

Definition validate_reward_claim_shape_v3 (tx : Transaction) (chain_id : string) : reward unit :=
  if bool_decide (chain_id = "") then rejects EmptyChainId else
  if negb (tx_version tx =? REWARD_CLAIM_WIRE_TRANSACTION_VERSION_V3) then
    rejects (InvalidRewardClaim ("transaction version must be "
      +:+ pretty REWARD_CLAIM_WIRE_TRANSACTION_VERSION_V3 +:+ ", got " +:+ pretty (tx_version tx))) else
  if negb (bool_decide (tx_inputs tx = [])) then
    rejects (InvalidRewardClaim "reward claim must have zero inputs") else
  match tx_outputs tx with
  | [output] =>
      if is_blank (out_address output) then
        rejects (InvalidRewardClaim "reward beneficiary must not be empty") else
      if negb (out_amount output =? 0) then
        rejects (InvalidRewardClaim "reward claim output amount must be zero; consensus derives the settled amount after finality")
      else if negb (tx_fee tx =? 0) then rejects (InvalidRewardClaim "reward claim fee must be zero")
      else Ok tt
  | _ => rejects (InvalidRewardClaim "reward claim must have exactly one beneficiary output")
  end.
Definition compute_reward_claim_txid_v3 (tx : Transaction) (chain_id : string) : reward Hash :=
  check validate_reward_claim_shape_v3 tx chain_id in
  map_err (option_map InvalidRewardClaimTx) (compute_txid_v2 tx chain_id).
Definition build_reward_claim_transaction_v3 (beneficiary : string) (nonce : Z) (chain_id : string)
  : reward Transaction :=
  let tx := mkTransaction "" REWARD_CLAIM_WIRE_TRANSACTION_VERSION_V3 []
              [mkTxOutput beneficiary 0] 0 nonce in
  let? txid := compute_reward_claim_txid_v3 tx chain_id in
  Ok (mkTransaction txid (tx_version tx) (tx_inputs tx) (tx_outputs tx) (tx_fee tx) (tx_nonce tx)).
Definition validate_reward_claim_transaction_v3 (tx : Transaction) (chain_id : string) : reward unit :=
  let? expected := compute_reward_claim_txid_v3 tx chain_id in
  if negb (bool_decide (tx_txid tx = expected))
  then rejects (RewardClaimTxidMismatch expected (tx_txid tx)) else Ok tt.

Definition settlement_outpoint_bytes (chain_id : string) (block_hash claim_txid : Hash) : option bytes :=
  emit [encode_len_prefixed_bytes REWARD_SETTLEMENT_OUTPOINT_DOMAIN_V3;
        encode_len_prefixed_str chain_id;
        encode_len_prefixed_str block_hash;
        encode_len_prefixed_str claim_txid].
Definition settlement_outpoint_v3 (chain_id : string) (block_hash claim_txid : Hash) : reward OutPoint :=
  let? bytes := ok_or (settlement_outpoint_bytes chain_id block_hash claim_txid) None in
  Ok (mkOutPoint (hex_encode (sha256 bytes)) 0).

(** ** The finality boundary *)

Definition validate_ordered_genesis (state : ChainState) (ordered : OrderedDagV2) : reward unit :=
  let observed := head (od_blocks ordered) in
  if bool_decide (observed <> Some (d_genesis_hash (cs_dag state)))
  then rejects (RewardGenesisNotFirst (d_genesis_hash (cs_dag state)) observed) else Ok tt.
(** [blocks.len().saturating_sub(1) as u64]. *)
Definition score_of_tip (blocks : list Hash) : Z := saturating_sub (Z.of_nat (length blocks)) 1.
Definition ordered_prefix_bytes (blocks : list Hash) (through_score : Z) : option bytes :=
  emit ([encode_len_prefixed_bytes REWARD_FINALITY_PREFIX_DOMAIN_V3;
         fixed 8 through_score; fixed 8 (through_score + 1)]
        ++ map encode_len_prefixed_str (take (Z.to_nat (through_score + 1)) blocks)).
Definition ordered_prefix_digest (blocks : list Hash) (through_score : Z) : reward string :=
  let? end_ := or_reject (checked_add 64 through_score 1) RewardOverflow in
  if Z.of_nat (length blocks) <? end_
  then rejects (FinalityBeyondTip through_score (score_of_tip blocks)) else
  let? bytes := ok_or (ordered_prefix_bytes blocks through_score) None in
  Ok (hex_encode (sha256 bytes)).

Definition bind_reward_finality_boundary_v3 (state : ChainState) (finalized_through_score : Z)
  (policy_version : string) : reward RewardFinalityBoundaryV3 :=
  if is_blank policy_version then rejects EmptyFinalityPolicyVersion else
  let? ordered := of_ordering (derive_ordered_dag_v2 state) in
  check validate_ordered_genesis state ordered in
  let current_score := score_of_tip (od_blocks ordered) in
  if current_score <? finalized_through_score
  then rejects (FinalityBeyondTip finalized_through_score current_score) else
  let? finalized_block_hash := ok_or (od_blocks ordered !! Z.to_nat finalized_through_score) None in
  let? digest := ordered_prefix_digest (od_blocks ordered) finalized_through_score in
  Ok (mkRewardFinalityBoundaryV3 REWARD_FINALITY_BINDING_SCHEMA_VERSION_V3 policy_version
        finalized_through_score finalized_block_hash digest).
Definition validate_reward_finality_boundary_v3 (state : ChainState)
  (boundary : RewardFinalityBoundaryV3) (expected_policy_version : string) : reward unit :=
  if negb (rfb_schema_version boundary =? REWARD_FINALITY_BINDING_SCHEMA_VERSION_V3) then
    rejects (InvalidRewardClaim ("unsupported reward finality binding schema "
      +:+ pretty (rfb_schema_version boundary))) else
  if is_blank (rfb_policy_version boundary) || is_blank expected_policy_version
  then rejects EmptyFinalityPolicyVersion else
  if negb (bool_decide (rfb_policy_version boundary = expected_policy_version))
  then rejects (FinalityPolicyMismatch expected_policy_version (rfb_policy_version boundary)) else
  let? ordered := of_ordering (derive_ordered_dag_v2 state) in
  check validate_ordered_genesis state ordered in
  let current_score := score_of_tip (od_blocks ordered) in
  let score := rfb_finalized_through_score boundary in
  if current_score <? score then rejects (FinalityBeyondTip score current_score) else
  let? observed := ok_or (od_blocks ordered !! Z.to_nat score) None in
  if negb (bool_decide (observed = rfb_finalized_block_hash boundary))
  then rejects (FinalityBlockMismatch score (rfb_finalized_block_hash boundary) observed) else
  let? digest := ordered_prefix_digest (od_blocks ordered) score in
  if negb (bool_decide (digest = rfb_ordered_prefix_digest boundary))
  then rejects FinalityPrefixDigestMismatch else Ok tt.

(** ** The settlement snapshot *)

Definition transaction_was_skipped_by_authoritative_v3_replay (state : ChainState)
  (block_hash txid : Hash) : bool :=
  let marker := " block=" +:+ block_hash +:+ " tx=" +:+ txid +:+ " skipped_conflict_atomic" in
  existsb (fun entry => str_contains entry marker) (d_ordered_dag_conflict_diagnostics (cs_dag state)).
Definition eligible_block_fees_atoms_v3 (state : ChainState) (block : Block) : reward Z :=
  try_fold (fun acc tx => or_reject (checked_add 64 acc (tx_fee tx)) RewardOverflow) 0
    (filter (fun tx => negb (transaction_was_skipped_by_authoritative_v3_replay state (b_hash block)
                               (tx_txid tx)))
       (drop 1 (b_transactions block))).

Definition claim_status (finality_protected maturity : bool) : RewardClaimStatusV3 :=
  match finality_protected, maturity with
  | false, _ => Provisional
  | true, false => FinalizedImmature
  | true, true => Spendable
  end.

(** The accumulators of the loop over the ordered blocks. *)
Record SettlementTotals := mkSettlementTotals {
  st_claims : list RewardClaimSettlementV3;
  st_subsidy : Z;
  st_fees : Z;
  st_spendable : Z;
}.
Definition settle_block (state : ChainState) (cadence_segments : list MonetaryCadenceSegment)
  (finalized_through : option Z) (current_monetary_score : Z) (s : SettlementTotals)
  (p : Z * Hash) : reward SettlementTotals :=
  let '(index, block_hash) := p in
  let? monetary_score := or_reject (try_into 64 index) RewardOverflow in
  let? block := or_reject (d_blocks (cs_dag state) !! block_hash) (OrderedBlockMissing block_hash) in
  let? claim := or_reject (head (b_transactions block)) (MissingRewardClaim block_hash) in
  check map_err (option_map (InvalidRewardClaimIn block_hash))
          (validate_reward_claim_transaction_v3 claim (cs_chain_id state)) in
  if existsb (fun tx => bool_decide (tx_inputs tx = [])) (drop 1 (b_transactions block))
  then rejects (MultipleRewardClaims block_hash) else
  let? subsidy_atoms := of_monetary (subsidy_atoms_for_score monetary_score cadence_segments) in
  let? fees_atoms := eligible_block_fees_atoms_v3 state block in
  let? settlement_amount_atoms := or_reject (checked_add 64 subsidy_atoms fees_atoms) RewardOverflow in
  let finality_protected :=
    match finalized_through with Some finalized_score => monetary_score <=? finalized_score | None => false end in
  let? maturity := of_monetary (economic_maturity_reached monetary_score current_monetary_score
                                  cadence_segments) in
  let status := claim_status finality_protected maturity in
  let? total_subsidy := or_reject (checked_add 64 (st_subsidy s) subsidy_atoms) RewardOverflow in
  let? total_fees := or_reject (checked_add 64 (st_fees s) fees_atoms) RewardOverflow in
  let? total_spendable :=
    if bool_decide (status = Spendable)
    then or_reject (checked_add 64 (st_spendable s) settlement_amount_atoms) RewardOverflow
    else Ok (st_spendable s) in
  let? beneficiary := ok_or (out_address <$> tx_outputs claim !! 0%nat) None in
  let? outpoint := settlement_outpoint_v3 (cs_chain_id state) block_hash (tx_txid claim) in
  Ok (mkSettlementTotals
        (st_claims s ++ [mkRewardClaimSettlementV3 block_hash (h_height (b_header block)) monetary_score
           (tx_txid claim) beneficiary outpoint subsidy_atoms fees_atoms settlement_amount_atoms
           finality_protected maturity status])
        total_subsidy total_fees total_spendable).
(** [blocks.iter().enumerate().skip(1)]. *)
Definition scored_blocks (blocks : list Hash) : list (Z * Hash) :=
  zip (seqZ 1 (Z.of_nat (length (drop 1 blocks)))) (drop 1 blocks).

Definition derive_reward_settlement_snapshot_v3 (state : ChainState)
  (cadence_segments : list MonetaryCadenceSegment) (expected_finality_policy_version : string)
  (finality_boundary : option RewardFinalityBoundaryV3) : reward RewardSettlementSnapshotV3 :=
  if bool_decide (cs_chain_id state = "") then rejects EmptyChainId else
  if is_blank expected_finality_policy_version then rejects EmptyFinalityPolicyVersion else
  let? ordered := of_ordering (derive_ordered_dag_v2 state) in
  if bool_decide (od_blocks ordered = []) then rejects RewardEmptyOrderedDag else
  check validate_ordered_genesis state ordered in
  check match finality_boundary with
        | Some boundary =>
            validate_reward_finality_boundary_v3 state boundary expected_finality_policy_version
        | None => Ok tt
        end in
  let finalized_through := rfb_finalized_through_score <$> finality_boundary in
  let current_monetary_score := score_of_tip (od_blocks ordered) in
  let? totals := try_fold (settle_block state cadence_segments finalized_through current_monetary_score)
                   (mkSettlementTotals [] 0 0 0) (scored_blocks (od_blocks ordered)) in
  let? scheduled := of_monetary (total_supply_atoms_for_score current_monetary_score cadence_segments) in
  if negb (st_subsidy totals =? scheduled)
  then rejects (SupplyInvariantMismatch current_monetary_score scheduled (st_subsidy totals)) else
  Ok (mkRewardSettlementSnapshotV3 REWARD_SETTLEMENT_SCHEMA_VERSION_V3 (od_ordering_version ordered)
        (od_digest ordered) (last (od_blocks ordered)) current_monetary_score finality_boundary
        (st_claims totals) (st_subsidy totals) scheduled (st_fees totals) (st_spendable totals)).

Definition materializable_reward_utxos_v3 (snapshot : RewardSettlementSnapshotV3) : list Utxo :=
  map (fun claim => mkUtxo (rc_settlement_outpoint claim) (rc_beneficiary claim)
                      (rc_settlement_amount_atoms claim) true (rc_block_height claim))
    (filter (fun claim => rc_status claim = Spendable) (rs_claims snapshot)).
End reward.

(** ** Direct validation of one reward ([validation_v3.rs]) *)

Record ValidatedMonetaryRewardV3 := mkValidatedMonetaryRewardV3 {
  vr_block_hash : Hash;
  vr_monetary_score : Z;
  vr_claim_txid : Hash;
  vr_beneficiary : string;
  vr_authorized_subsidy_atoms : Z;
  vr_eligible_fees_atoms : Z;
  vr_authorized_settlement_atoms : Z;
}.
Inductive MonetaryValidationV3Error :=
| RewardValidationOrdering (e : OrderingV2Error)
| UnknownBlock (hash : Hash)
| BlockNotOrdered (hash : Hash)
| GenesisRewardForbidden
| HiddenIssuancePath (block_hash txid : Hash)
| FeeOverflow
| ValidationReward (e : RewardSettlementV3Error)
| ValidationMonetary (e : MonetaryV3Error).
Abbreviation validated := (result (option MonetaryValidationV3Error)).
Definition of_reward {A} (r : reward A) : validated A := map_err (option_map ValidationReward) r.

Record MonetaryStateAuditV3 := mkMonetaryStateAuditV3 {
  ma_monetary_policy_fingerprint : string;
  ma_monetary_cadence_fingerprint : string;
  ma_ordered_dag_digest : string;
  ma_current_monetary_score : Z;
  ma_reward_claim_blocks : Z;
  ma_scheduled_supply_atoms : Z;
  ma_authorized_subsidy_atoms : Z;
  ma_eligible_fee_transfers_atoms : Z;
  ma_genesis_issuance_atoms : Z;
  ma_hidden_issuance_paths : Z;
}.
Inductive MonetaryStateAuditV3Error :=
| AuditOrdering (e : OrderingV2Error)
| AuditEmptyOrderedDag
| AuditGenesisNotFirst
| GenesisAllocationPresent
| AuditMissingBlock (hash : Hash)
| ScoreOverflow
| AuditArithmeticOverflow
| SupplyMismatch (score expected observed : Z)
| AuditValidation (e : MonetaryValidationV3Error)
| AuditMonetary (e : MonetaryV3Error).
Abbreviation audited := (result (option MonetaryStateAuditV3Error)).
Definition audit_monetary {A} (r : monetary A) : audited A := map_err (fun e => Some (AuditMonetary e)) r.

Section audit.
Context `{HashOrder, Crypto}.

Definition validate_monetary_reward_at_canonical_score_v3 (state : ChainState) (block : Block)
  (monetary_score : Z) (cadence_segments : list MonetaryCadenceSegment)
  : validated ValidatedMonetaryRewardV3 :=
  if monetary_score =? 0 then Err (Some GenesisRewardForbidden) else
  let? claim := ok_or (head (b_transactions block))
                  (Some (ValidationReward (MissingRewardClaim (b_hash block)))) in
  check of_reward (validate_reward_claim_transaction_v3 claim (cs_chain_id state)) in
  check try_fold (fun (_ : unit) tx =>
          if bool_decide (tx_inputs tx = [])
          then Err (Some (HiddenIssuancePath (b_hash block) (tx_txid tx))) else Ok tt)
          tt (drop 1 (b_transactions block)) in
  let? eligible_fees_atoms := of_reward (eligible_block_fees_atoms_v3 state block) in
  let? authorized_settlement_atoms :=
    map_err (fun e => Some (ValidationMonetary e))
      (max_coinbase_claim_atoms monetary_score eligible_fees_atoms cadence_segments) in
  let? authorized_subsidy_atoms :=
    ok_or (checked_sub authorized_settlement_atoms eligible_fees_atoms) (Some FeeOverflow) in
  let? beneficiary := ok_or (out_address <$> tx_outputs claim !! 0%nat) None in
  Ok (mkValidatedMonetaryRewardV3 (b_hash block) monetary_score (tx_txid claim) beneficiary
        authorized_subsidy_atoms eligible_fees_atoms authorized_settlement_atoms).

Definition validate_ordered_monetary_reward_v3 (state : ChainState) (block_hash : Hash)
  (cadence_segments : list MonetaryCadenceSegment) : validated ValidatedMonetaryRewardV3 :=
  let? block := ok_or (d_blocks (cs_dag state) !! block_hash) (Some (UnknownBlock block_hash)) in
  let? ordered := map_err (option_map RewardValidationOrdering) (derive_ordered_dag_v2 state) in
  let? position := ok_or (list_find (fun hash => hash = block_hash) (od_blocks ordered))
                     (Some (BlockNotOrdered block_hash)) in
  let? monetary_score := ok_or (try_into 64 (Z.of_nat position.1)) (Some FeeOverflow) in
  validate_monetary_reward_at_canonical_score_v3 state block monetary_score cadence_segments.

(** ** The audit ([monetary_audit_v3.rs]) *)

(** One position: the sums of subsidies and fees. *)
Definition audit_block (state : ChainState) (cadence_segments : list MonetaryCadenceSegment)
  (s : Z * Z) (p : Z * Hash) : audited (Z * Z) :=
  let '(position, block_hash) := p in
  let? score := ok_or (try_into 64 position) (Some ScoreOverflow) in
  let? block := ok_or (d_blocks (cs_dag state) !! block_hash) (Some (AuditMissingBlock block_hash)) in
  let? v := map_err (option_map AuditValidation)
              (validate_monetary_reward_at_canonical_score_v3 state block score cadence_segments) in
  let? subsidy := ok_or (checked_add 64 s.1 (vr_authorized_subsidy_atoms v)) (Some AuditArithmeticOverflow) in
  let? fees := ok_or (checked_add 64 s.2 (vr_eligible_fees_atoms v)) (Some AuditArithmeticOverflow) in
  Ok (subsidy, fees).
Definition audit_monetary_state_v3 (state : ChainState) (cadence_segments : list MonetaryCadenceSegment)
  : audited MonetaryStateAuditV3 :=
  let? ordered := map_err (option_map AuditOrdering) (derive_ordered_dag_v2 state) in
  let? first := ok_or (head (od_blocks ordered)) (Some AuditEmptyOrderedDag) in
  if negb (bool_decide (first = d_genesis_hash (cs_dag state))) then Err (Some AuditGenesisNotFirst) else
  let? genesis := ok_or (d_blocks (cs_dag state) !! first) (Some (AuditMissingBlock first)) in
  if negb (bool_decide (b_transactions genesis = [])) then Err (Some GenesisAllocationPresent) else
  let? sums := try_fold (audit_block state cadence_segments) (0, 0) (scored_blocks (od_blocks ordered)) in
  let? current_monetary_score := ok_or (try_into 64 (score_of_tip (od_blocks ordered))) (Some ScoreOverflow) in
  let? scheduled := audit_monetary (total_supply_atoms_for_score current_monetary_score cadence_segments) in
  if negb (sums.1 =? scheduled)
  then Err (Some (SupplyMismatch current_monetary_score scheduled sums.1)) else
  let? cadence := audit_monetary (monetary_cadence_fingerprint_v3 cadence_segments) in
  Ok (mkMonetaryStateAuditV3 monetary_policy_fingerprint_v3 cadence (od_digest ordered)
        current_monetary_score current_monetary_score scheduled sums.1 sums.2 GENESIS_ISSUANCE_ATOMS 0).
End audit.
