(* ===== verification/RewardProps.v ===== *)
(** * Reward settlement pays the scheduled supply, once per block

    The theorems about [Reward]: what a settlement snapshot contains, that the
    supply checks of the settlement and of the audit can never fail, that a
    settlement outpoint is never reused, and that a finality boundary fixes the
    ordered prefix. *)

From S2P Require Import Prelude Encoding Crypto Types State Tx Text Monetary OrderingV2.
From S2P Require Import OrderingV2Props Reward.

(** ** Scores *)

Lemma scored_blocks_cons g l : scored_blocks (g :: l) = zip (seqZ 1 (Z.of_nat (length l))) l.
Proof. done. Qed.
(** The position of an element of [scored_blocks]. *)
Lemma scored_blocks_prefix blocks pre i h post :
  scored_blocks blocks = pre ++ (i, h) :: post ->
  i = Z.of_nat (length pre) + 1 /\ blocks !! S (length pre) = Some h.
Proof.
  destruct blocks as [|g l]; [intros E; by destruct pre|]. rewrite scored_blocks_cons. intros E.
  assert (Hl : zip (seqZ 1 (Z.of_nat (length l))) l !! length pre = Some (i, h)).
  { rewrite E, lookup_app_r, Nat.sub_diag by done. done. }
  apply lookup_zip_with_Some in Hl as (x & y & [= <- <-] & Hx & Hy).
  apply lookup_seqZ in Hx as [-> _]. split; [lia|done].
Qed.
Lemma length_scored_blocks g l : length (scored_blocks (g :: l)) = length l.
Proof. rewrite scored_blocks_cons, length_zip_with, length_seqZ. lia. Qed.
Lemma scored_blocks_snd g l : map snd (scored_blocks (g :: l)) = l.
Proof. rewrite scored_blocks_cons. apply snd_zip. rewrite length_seqZ. lia. Qed.

(** A cadence for which some score has a supply is valid. *)
Lemma total_supply_valid score segments v :
  total_supply_atoms_for_score score segments = Ok v -> validate_cadence_segments segments = Ok ().
Proof.
  unfold total_supply_atoms_for_score, economic_time_ns_for_score.
  by destruct (validate_cadence_segments segments) as [[]|].
Qed.
Lemma subsidy_valid score segments v :
  0 < score -> subsidy_atoms_for_score score segments = Ok v -> validate_cadence_segments segments = Ok ().
Proof.
  unfold subsidy_atoms_for_score. intros Hs Hv. rewrite (proj2 (Z.eqb_neq _ _)) in Hv by lia.
  inv_ok. by eapply total_supply_valid.
Qed.

(** The subsidy of a score takes the supply of the score before to its own. *)
Lemma subsidy_step segments score v :
  Forall segment_typed segments -> in_u 64 score -> 0 < score ->
  subsidy_atoms_for_score score segments = Ok v ->
  validate_cadence_segments segments = Ok () /\ supply segments (score - 1) + v = supply segments score.
Proof.
  intros Ht Hs Hp Hv. pose proof (subsidy_valid _ _ _ Hp Hv) as Hval. split; [done|].
  rewrite subsidy_Ok in Hv by done. rewrite (proj2 (Z.eqb_neq _ _)) in Hv by lia. injection Hv as <-. lia.
Qed.

(** ** One settled claim *)

Section settlement.
Context `{HashOrder, Crypto}.
Variables (state : ChainState) (segments : list MonetaryCadenceSegment).
Variables (finalized : option Z) (current : Z).

(** What a claim of the snapshot records about the block at its score. *)
Record settled_claim (score : Z) (hash : Hash) (c : RewardClaimSettlementV3) : Prop := {
  sc_score : rc_monetary_score c = score;
  sc_hash : rc_block_hash c = hash;
  sc_subsidy : subsidy_atoms_for_score score segments = Ok (rc_subsidy_atoms c);
  sc_amount : rc_settlement_amount_atoms c = rc_subsidy_atoms c + rc_fees_atoms c;
  sc_final : rc_finality_protected c = true <-> exists f, finalized = Some f /\ score <= f;
  sc_mature : economic_maturity_reached score current segments = Ok (rc_economic_maturity_reached c);
  sc_status : rc_status c = Spendable <->
    rc_finality_protected c = true /\ rc_economic_maturity_reached c = true;
  sc_block : exists block claim txs output,
    d_blocks (cs_dag state) !! hash = Some block /\ b_transactions block = claim :: txs /\
    validate_reward_claim_transaction_v3 claim (cs_chain_id state) = Ok tt /\
    tx_outputs claim = [output] /\
    Forall (fun tx => tx_inputs tx <> []) txs /\
    eligible_block_fees_atoms_v3 state block = Ok (rc_fees_atoms c) /\
    rc_claim_txid c = tx_txid claim /\ rc_beneficiary c = out_address output /\
    rc_block_height c = h_height (b_header block) /\
    settlement_outpoint_v3 (cs_chain_id state) hash (tx_txid claim) = Ok (rc_settlement_outpoint c);
}.

Lemma claim_one_output tx chain_id :
  validate_reward_claim_transaction_v3 tx chain_id = Ok tt -> exists output, tx_outputs tx = [output].
Proof.
  unfold validate_reward_claim_transaction_v3, compute_reward_claim_txid_v3,
    validate_reward_claim_shape_v3. intros. repeat (case_match; try done). eauto.
Qed.
Lemma no_hidden_claim txs :
  existsb (fun tx => bool_decide (tx_inputs tx = [])) txs = false -> Forall (fun tx => tx_inputs tx <> []) txs.
Proof.
  induction txs as [|tx txs IH]; cbn; [constructor|].
  rewrite orb_false_iff, bool_decide_eq_false. intros [? ?]. constructor; auto.
Qed.

(** A step appends the claim of its block and adds it to the totals. *)
Lemma settle_block_spec s i h s' :
  settle_block state segments finalized current s (i, h) = Ok s' ->
  exists c, in_u 64 i /\ settled_claim i h c /\ st_claims s' = st_claims s ++ [c] /\
    st_subsidy s' = st_subsidy s + rc_subsidy_atoms c /\
    st_fees s' = st_fees s + rc_fees_atoms c /\
    st_spendable s' = st_spendable s +
      (if decide (rc_status c = Spendable) then rc_settlement_amount_atoms c else 0).
Proof.
  unfold settle_block, or_reject, of_monetary, rejects. intros Hs. inv_ok.
  all: repeat match goal with
    | Hm : map_err _ _ = Ok _ |- _ => apply map_err_Ok in Hm
    end.
  all: destruct (b_transactions a0) as [|claim txs] eqn:Htx; [done|]; cbn in Hok1; injection Hok1 as ->;
    destruct a2, (claim_one_output _ _ Hok2) as [output Hout]; rewrite Hout in Hok10; cbn in Hok10;
    injection Hok10 as <-; eexists; (split_and!; [done| |reflexivity|done|done|]).
  all: try by bool_props; case_decide as Hst; cbn [rc_status] in Hst; try congruence; cbn; lia.
  all: (split; cbn; try done; [| |eauto 15 using no_hidden_claim]).
  all: try by (destruct finalized as [f|]; [rewrite Z.leb_le; naive_solver|naive_solver]).
  all: by destruct finalized as [f|], a6; try destruct (i <=? f); cbn; split; naive_solver.
Qed.

(** The totals of the loop over the ordered blocks. *)
Definition spendable_total (claims : list RewardClaimSettlementV3) : Z :=
  sum_Z (map rc_settlement_amount_atoms (filter (fun c => rc_status c = Spendable) claims)).
Lemma settle_loop blocks s :
  Forall segment_typed segments ->
  try_fold (settle_block state segments finalized current) (mkSettlementTotals [] 0 0 0)
    (scored_blocks blocks) = Ok s ->
  Forall2 (fun p c => settled_claim p.1 p.2 c) (scored_blocks blocks) (st_claims s) /\
  st_subsidy s = sum_Z (map rc_subsidy_atoms (st_claims s)) /\
  st_fees s = sum_Z (map rc_fees_atoms (st_claims s)) /\
  st_spendable s = spendable_total (st_claims s) /\
  (scored_blocks blocks <> [] -> in_u 64 (Z.of_nat (length (scored_blocks blocks)))) /\
  (validate_cadence_segments segments = Ok () ->
     st_subsidy s = supply segments (Z.of_nat (length (scored_blocks blocks)))).
Proof.
  intros Ht.
  apply (try_fold_ind _ (fun pre s =>
    Forall2 (fun p c => settled_claim p.1 p.2 c) pre (st_claims s) /\
    st_subsidy s = sum_Z (map rc_subsidy_atoms (st_claims s)) /\
    st_fees s = sum_Z (map rc_fees_atoms (st_claims s)) /\
    st_spendable s = spendable_total (st_claims s) /\
    (pre <> [] -> in_u 64 (Z.of_nat (length pre))) /\
    (validate_cadence_segments segments = Ok () -> st_subsidy s = supply segments (Z.of_nat (length pre))))).
  { split_and!; try done. intros Hv. symmetry. by apply supply_genesis. }
  intros pre [i h] post s0 s1 Hl (HF & Hs & Hf & Hsp & _ & Hsup) Hstep.
  destruct (scored_blocks_prefix _ _ _ _ _ Hl) as [-> _].
  destruct (settle_block_spec _ _ _ _ Hstep) as (c & Hi & Hc & -> & -> & -> & ->).
  destruct (subsidy_step segments _ _ Ht Hi ltac:(lia) (sc_subsidy _ _ _ Hc)) as [Hv Hsum].
  rewrite !map_app, !sum_Z_app, length_app. cbn [map sum_Z foldr length].
  replace (Z.of_nat (length pre + 1)) with (Z.of_nat (length pre) + 1) by lia.
  split_and!; [|lia|lia| |done|].
  - apply Forall2_app; [done|]. by constructor.
  - unfold spendable_total. rewrite filter_app, map_app, sum_Z_app, Hsp. f_equal.
    rewrite filter_cons, filter_nil. case_decide; cbn; lia.
  - intros _. rewrite (Hsup Hv), <- Hsum. do 2 f_equal. lia.
Qed.
End settlement.

(** ** The snapshot *)

(** Not the error of the supply check. *)
Definition supply_clean {A} (r : reward A) : Prop :=
  match r with Err (Some (SupplyInvariantMismatch _ _ _)) => False | _ => True end.
Lemma try_fold_supply_clean {A B} (f : B -> A -> reward B) b l :
  (forall b x, supply_clean (f b x)) -> supply_clean (try_fold f b l).
Proof.
  intros Hf. revert b. induction l as [|x l IH]; intros b; cbn [try_fold]; [done|].
  specialize (Hf b x). destruct (f b x); [apply IH|done].
Qed.
Lemma bind_supply_clean {A B} (c : reward A) (k : A -> reward B) :
  supply_clean c -> (forall a, supply_clean (k a)) -> supply_clean (let? a := c in k a).
Proof. destruct c; auto. Qed.
Lemma check_supply_clean {A B} (c : reward A) (k : reward B) :
  supply_clean c -> supply_clean k -> supply_clean (check c in k).
Proof. destruct c; auto. Qed.
Lemma or_reject_supply_clean {A} (o : option A) e :
  match e with SupplyInvariantMismatch _ _ _ => False | _ => True end -> supply_clean (or_reject o e).
Proof. by destruct o, e. Qed.
Lemma panic_supply_clean {A} (o : option A) : supply_clean (ok_or o None).
Proof. by destruct o. Qed.
Lemma of_ordering_supply_clean {A} (r : ordering A) : supply_clean (of_ordering r).
Proof. by destruct r as [|[]]. Qed.
Lemma of_monetary_supply_clean {A} (r : monetary A) : supply_clean (of_monetary r).
Proof. by destruct r. Qed.
Lemma map_err_supply_clean {A} h (r : reward A) :
  supply_clean (map_err (option_map (InvalidRewardClaimIn h)) r).
Proof. by destruct r as [|[]]. Qed.
#[local] Hint Resolve or_reject_supply_clean panic_supply_clean of_ordering_supply_clean
  of_monetary_supply_clean map_err_supply_clean : supply.
(** Walk through a chain of [let?], [check] and conditionals. *)
Ltac supply_walk :=
  repeat first
    [ exact I
    | solve [auto with supply]
    | apply check_supply_clean
    | apply bind_supply_clean; [|intros ?]
    | match goal with |- supply_clean (if ?c then _ else _) => destruct c end ].

Section snapshot.
Context `{HashOrder, Crypto}.

Lemma settlement_outpoint_supply_clean c h t : supply_clean (settlement_outpoint_v3 c h t).
Proof. unfold settlement_outpoint_v3. supply_walk. Qed.
Lemma eligible_fees_supply_clean state block : supply_clean (eligible_block_fees_atoms_v3 state block).
Proof. apply try_fold_supply_clean. intros. supply_walk. Qed.
Lemma prefix_digest_supply_clean blocks score : supply_clean (ordered_prefix_digest blocks score).
Proof. unfold ordered_prefix_digest. supply_walk. Qed.
Lemma settle_block_supply_clean state segments finalized current s p :
  supply_clean (settle_block state segments finalized current s p).
Proof.
  destruct p as [i h]. unfold settle_block. pose proof eligible_fees_supply_clean.
  pose proof settlement_outpoint_supply_clean. supply_walk.
Qed.
Lemma validate_boundary_supply_clean state boundary policy :
  supply_clean (validate_reward_finality_boundary_v3 state boundary policy).
Proof.
  unfold validate_reward_finality_boundary_v3, validate_ordered_genesis.
  pose proof prefix_digest_supply_clean. supply_walk.
Qed.

(** What a snapshot says about the ordered DAG. *)
Record snapshot_ok (state : ChainState) (segments : list MonetaryCadenceSegment)
  (boundary : option RewardFinalityBoundaryV3) (od : OrderedDagV2) (snap : RewardSettlementSnapshotV3)
  : Prop := {
  so_ordered : derive_ordered_dag_v2 state = Ok od;
  so_genesis : head (od_blocks od) = Some (d_genesis_hash (cs_dag state));
  so_score : rs_current_monetary_score snap = Z.of_nat (length (od_blocks od)) - 1;
  so_claims : Forall2 (fun p c => settled_claim state segments (rfb_finalized_through_score <$> boundary)
                (rs_current_monetary_score snap) p.1 p.2 c) (scored_blocks (od_blocks od)) (rs_claims snap);
  so_subsidy : rs_total_authorized_subsidy_atoms snap = sum_Z (map rc_subsidy_atoms (rs_claims snap));
  so_supply : rs_total_authorized_subsidy_atoms snap = rs_scheduled_supply_atoms snap;
  so_scheduled : total_supply_atoms_for_score (rs_current_monetary_score snap) segments =
                 Ok (rs_scheduled_supply_atoms snap);
  so_max : 0 <= rs_scheduled_supply_atoms snap <= MAX_SUPPLY_ATOMS;
  so_fees : rs_total_pending_or_spendable_fees_atoms snap = sum_Z (map rc_fees_atoms (rs_claims snap));
  so_paid : sum_Z (map utxo_amount (materializable_reward_utxos_v3 snap)) =
            rs_total_spendable_reward_atoms snap;
}.

Lemma length_scored blocks : blocks <> [] ->
  Z.of_nat (length (scored_blocks blocks)) = score_of_tip blocks /\
  score_of_tip blocks = Z.of_nat (length blocks) - 1.
Proof.
  destruct blocks as [|g l]; [done|]. intros _. rewrite length_scored_blocks.
  unfold score_of_tip, saturating_sub. cbn [length]. lia.
Qed.
Lemma genesis_first state od :
  validate_ordered_genesis state od = Ok tt -> head (od_blocks od) = Some (d_genesis_hash (cs_dag state)).
Proof. unfold validate_ordered_genesis. intros. inv_ok. bool_props. by apply dec_stable. Qed.

(** The supply check after the loop always passes. *)
Lemma loop_supply state segments finalized current blocks s scheduled :
  Forall segment_typed segments -> blocks <> [] ->
  try_fold (settle_block state segments finalized current) (mkSettlementTotals [] 0 0 0)
    (scored_blocks blocks) = Ok s ->
  total_supply_atoms_for_score (score_of_tip blocks) segments = Ok scheduled ->
  st_subsidy s = scheduled /\ 0 <= scheduled <= MAX_SUPPLY_ATOMS.
Proof.
  intros Ht Hne Hl Hs. pose proof (total_supply_valid _ _ _ Hs) as Hv.
  destruct (settle_loop _ _ _ _ _ _ Ht Hl) as (_ & _ & _ & _ & Hu & Hsup).
  destruct (length_scored blocks Hne) as [Hlen Htip]. rewrite Hlen in *.
  assert (Hin : in_u 64 (score_of_tip blocks)).
  { destruct (scored_blocks blocks) eqn:E; [|by apply Hu]. cbn in Hlen. rewrite <- Hlen. done. }
  rewrite total_supply_Ok in Hs by done. injection Hs as <-. split; [by apply Hsup|].
  apply curve_range, cadence_time_0; [done..|apply Hin].
Qed.

Lemma snapshot_supply_clean state segments policy boundary :
  Forall segment_typed segments ->
  supply_clean (derive_reward_settlement_snapshot_v3 state segments policy boundary).
Proof.
  intros Ht. unfold derive_reward_settlement_snapshot_v3.
  destruct (bool_decide (cs_chain_id state = "")); [done|]. destruct (is_blank policy); [done|].
  apply bind_supply_clean; [auto with supply|]. intros od. case_bool_decide as Hne; [done|].
  apply check_supply_clean; [unfold validate_ordered_genesis; supply_walk|].
  apply check_supply_clean; [destruct boundary; [apply validate_boundary_supply_clean|done]|].
  destruct (try_fold _ _ _) as [totals|e] eqn:Hl.
  2: { change (supply_clean (A:=SettlementTotals) (Err e)). rewrite <- Hl.
       apply try_fold_supply_clean. intros. apply settle_block_supply_clean. }
  destruct (total_supply_atoms_for_score _ _) as [scheduled|] eqn:Hs; [|done]. cbn [of_monetary map_err].
  destruct (loop_supply _ _ _ _ _ _ _ Ht Hne Hl Hs) as [-> _]. by rewrite Z.eqb_refl.
Qed.
Lemma snapshot_spec state segments policy boundary :
  Forall segment_typed segments ->
  match derive_reward_settlement_snapshot_v3 state segments policy boundary with
  | Ok snap => exists od, snapshot_ok state segments boundary od snap
  | Err e => supply_clean (A:=unit) (Err e)
  end.
Proof.
  intros Ht.
  destruct (derive_reward_settlement_snapshot_v3 state segments policy boundary) as [snap|e] eqn:Hd.
  - unfold derive_reward_settlement_snapshot_v3, rejects, of_ordering, of_monetary in Hd.
    set (checked := match boundary with Some b => _ | None => _ end) in Hd. clearbody checked. inv_ok.
    repeat match goal with Hm : map_err _ _ = Ok _ |- _ => apply map_err_Ok in Hm end. bool_props.
    destruct a0, (length_scored _ Hif1) as [Hlen Htip].
    destruct (loop_supply _ _ _ _ _ _ _ Ht Hif1 Hok2 Hok3) as [Hsub Hmax].
    destruct (settle_loop _ _ _ _ _ _ Ht Hok2) as (HF & HS & Hfee & Hsp & _ & _).
    exists a. split; cbn [rs_current_monetary_score rs_claims rs_total_authorized_subsidy_atoms
      rs_scheduled_supply_atoms rs_total_pending_or_spendable_fees_atoms rs_total_spendable_reward_atoms];
      try done; [by apply genesis_first|].
    rewrite Hsp. unfold materializable_reward_utxos_v3, spendable_total. by rewrite map_map.
  - pose proof (snapshot_supply_clean state segments policy boundary Ht) as Hc. by rewrite Hd in Hc.
Qed.

(** *** Settlement outpoints *)

Definition claim_message (chain_id : string) (c : RewardClaimSettlementV3) : option bytes :=
  settlement_outpoint_bytes chain_id (rc_block_hash c) (rc_claim_txid c).
Lemma settlement_outpoint_inj `{!CryptoLaws} c1 c2 h1 h2 t1 t2 b1 b2 o :
  settlement_outpoint_bytes c1 h1 t1 = Some b1 -> settlement_outpoint_bytes c2 h2 t2 = Some b2 ->
  collision_free [b1; b2] ->
  settlement_outpoint_v3 c1 h1 t1 = Ok o -> settlement_outpoint_v3 c2 h2 t2 = Ok o ->
  c1 = c2 /\ h1 = h2 /\ t1 = t2.
Proof.
  unfold settlement_outpoint_v3. intros Hb1 Hb2 Hcf. rewrite Hb1, Hb2. cbn.
  intros [= <-] [= Heq%(inj hex_encode)]. apply Hcf in Heq; [|set_solver..]. subst b2.
  assert (Heq : b1 ++ [] = b1 ++ []) by done. revert Hb1 Hb2 Heq. generalize b1 at 1 3 as b0.
  unfold settlement_outpoint_bytes. intros b0 Hb1 Hb2 Heq.
  peel (fun _ : bytes => True) encode_len_prefixed_bytes.
  do 3 peel (fun _ : string => True) encode_len_prefixed_str. done.
Qed.
Lemma NoDup_map_via {A B C} (f : A -> B) (g : A -> C) l :
  (forall x y, x ∈ l -> y ∈ l -> f x = f y -> g x = g y) -> NoDup (map g l) -> NoDup (map f l).
Proof.
  induction l as [|x l IH]; intros Hinj Hnd; [constructor|]. cbn in *.
  apply NoDup_cons in Hnd as [Hx Hnd]. apply NoDup_cons. split.
  - intros (y & Hy & Hin)%list_elem_of_fmap. apply Hx. apply list_elem_of_fmap.
    exists y. split; [|done]. apply Hinj; [left|by right|done].
  - apply IH; [|done]. intros a b Ha Hb. apply Hinj; by right.
Qed.

(** The blocks of the claims are the ordered blocks after genesis. *)
Lemma claim_hashes state segments boundary od snap :
  snapshot_ok state segments boundary od snap ->
  map rc_block_hash (rs_claims snap) = drop 1 (od_blocks od) /\ NoDup (map rc_block_hash (rs_claims snap)).
Proof.
  intros Hs. pose proof (so_claims _ _ _ _ _ Hs) as HF.
  assert (E : map rc_block_hash (rs_claims snap) = drop 1 (od_blocks od)).
  { transitivity (map snd (scored_blocks (od_blocks od))).
    - clear Hs. induction HF as [|[i h] c l1 l2 Hc HF IH]; [done|]. cbn. f_equal; [|done].
      apply (sc_hash _ _ _ _ _ _ _ Hc).
    - pose proof (so_genesis _ _ _ _ _ Hs) as Hg. destruct (od_blocks od); [done|].
      apply scored_blocks_snd. }
  split; [done|]. rewrite E. apply sublist_NoDup with (od_blocks od); [|apply sublist_drop].
  pose proof (derive_spec state) as Hd. rewrite (so_ordered _ _ _ _ _ Hs) in Hd.
  destruct Hd as (pr & _ & Hrule & _). by destruct (greedy_NoDup _ _ _ (obr_greedy _ _ _ Hrule)).
Qed.
Lemma claim_message_outpoint state segments boundary od snap c :
  snapshot_ok state segments boundary od snap -> c ∈ rs_claims snap ->
  exists b, claim_message (cs_chain_id state) c = Some b /\
    settlement_outpoint_v3 (cs_chain_id state) (rc_block_hash c) (rc_claim_txid c) = Ok (rc_settlement_outpoint c).
Proof.
  intros Hs (i & Hi)%list_elem_of_lookup.
  destruct (Forall2_lookup_r _ _ _ _ _ (so_claims _ _ _ _ _ Hs) Hi) as ([score h] & _ & Hc).
  destruct (sc_block _ _ _ _ _ _ _ Hc) as (blk & cl & txs & o & _ & _ & _ & _ & _ & _ & Et & _ & _ & Ho).
  pose proof (sc_hash _ _ _ _ _ _ _ Hc) as Eh. cbn in Ho, Eh. rewrite <- Et, <- Eh in Ho. unfold claim_message.
  unfold settlement_outpoint_v3 in Ho |- *. destruct (settlement_outpoint_bytes _ _ _) as [b|]; [|done]. eauto.
Qed.
Lemma outpoints_unique `{!CryptoLaws} state segments boundary od snap :
  snapshot_ok state segments boundary od snap ->
  collision_free (omap (claim_message (cs_chain_id state)) (rs_claims snap)) ->
  NoDup (map rc_settlement_outpoint (rs_claims snap)).
Proof.
  intros Hs Hcf. apply NoDup_map_via with rc_block_hash; [|by eapply claim_hashes].
  intros x y Hx Hy Exy.
  destruct (claim_message_outpoint _ _ _ _ _ _ Hs Hx) as (bx & Mx & Ox).
  destruct (claim_message_outpoint _ _ _ _ _ _ Hs Hy) as (bo & My & Oy).
  rewrite <- Exy in Oy.
  apply (settlement_outpoint_inj _ _ _ _ _ _ _ _ _ Mx My) in Oy; [tauto| |done].
  eapply collision_free_mono; [|exact Hcf].
  assert (Hin : forall c b, c ∈ rs_claims snap -> claim_message (cs_chain_id state) c = Some b ->
    b ∈ omap (claim_message (cs_chain_id state)) (rs_claims snap)) by (intros; apply list_elem_of_omap; eauto).
  intros b [->|[->|[]%elem_of_nil]%elem_of_cons]%elem_of_cons; eauto.
Qed.
Lemma utxos_sublist snap :
  map utxo_outpoint (materializable_reward_utxos_v3 snap) `sublist_of`
  map rc_settlement_outpoint (rs_claims snap).
Proof.
  unfold materializable_reward_utxos_v3. rewrite map_map. cbn.
  change (map rc_settlement_outpoint (filter (fun c => rc_status c = Spendable) (rs_claims snap))
    `sublist_of` map rc_settlement_outpoint (rs_claims snap)).
  apply fmap_sublist, sublist_filter.
Qed.
End snapshot.

(** ** Finality boundaries *)

Section boundary.
Context `{HashOrder, Crypto}.

Lemma bind_validate state score policy b :
  bind_reward_finality_boundary_v3 state score policy = Ok b ->
  validate_reward_finality_boundary_v3 state b policy = Ok tt /\ rfb_finalized_through_score b = score.
Proof.
  unfold bind_reward_finality_boundary_v3, rejects. intros Hb. inv_ok. split; [|done].
  unfold validate_reward_finality_boundary_v3. cbn [rfb_schema_version rfb_policy_version
    rfb_finalized_through_score rfb_finalized_block_hash rfb_ordered_prefix_digest].
  rewrite Z.eqb_refl, Hif, !bool_decide_eq_true_2 by done. cbn.
  rewrite Hok, Hok0, Hif0. cbn [ok_or]. rewrite Hok1. cbn. by rewrite Hok2, !bool_decide_eq_true_2.
Qed.

(** A validated boundary has the digest of the ordered prefix. *)
Lemma validate_boundary_prefix state b policy :
  0 <= rfb_finalized_through_score b ->
  validate_reward_finality_boundary_v3 state b policy = Ok tt ->
  exists od m, derive_ordered_dag_v2 state = Ok od /\
    rfb_policy_version b = policy /\
    rfb_finalized_through_score b < Z.of_nat (length (od_blocks od)) /\
    od_blocks od !! Z.to_nat (rfb_finalized_through_score b) = Some (rfb_finalized_block_hash b) /\
    ordered_prefix_bytes (od_blocks od) (rfb_finalized_through_score b) = Some m /\
    rfb_ordered_prefix_digest b = hex_encode (sha256 m) /\
    in_u 64 (rfb_finalized_through_score b + 1).
Proof.
  unfold validate_reward_finality_boundary_v3, ordered_prefix_digest, rejects, or_reject, of_ordering.
  intros Hpos Hv. inv_ok. bool_props.
  repeat match goal with Hm : map_err _ _ = Ok _ |- _ => apply map_err_Ok in Hm end.
  eexists _, _. split_and!; try done; [lia|by subst|unfold in_u; lia].
Qed.

Lemma prefix_bytes_inj l1 l2 score m :
  in_u 64 score -> in_u 64 (score + 1) ->
  score < Z.of_nat (length l1) -> score < Z.of_nat (length l2) ->
  ordered_prefix_bytes l1 score = Some m -> ordered_prefix_bytes l2 score = Some m ->
  take (Z.to_nat (score + 1)) l1 = take (Z.to_nat (score + 1)) l2.
Proof.
  intros Hs Hs1 L1 L2 Hb1 Hb2.
  assert (Heq : m ++ [] = m ++ []) by done. revert Hb1 Hb2 Heq. generalize m at 1 3 as m0.
  unfold ordered_prefix_bytes. cbn [app]. intros m0 Hb1 Hb2 Heq.
  assert (Hd : forall x, in_u 64 x -> 0 <= x < 256 ^ Z.of_nat 8).
  { intros x Hx. unfold in_u, u_max in Hx. change (256 ^ Z.of_nat 8) with (2 ^ 64). lia. }
  peel (fun _ : bytes => True) encode_len_prefixed_bytes.
  do 2 peel (fun x => 0 <= x < 256 ^ Z.of_nat 8) (fixed 8).
  eapply (emit_map_delimited (fun _ : string => True) encode_len_prefixed_str); eauto using Forall_true.
  unfold in_u in *. rewrite !length_take. lia.
Qed.
End boundary.

(** ** The audit follows the settlement *)

Section audit.
Context `{HashOrder, Crypto}.
Variables (state : ChainState) (segments : list MonetaryCadenceSegment).
Hypothesis Htyped : Forall segment_typed segments.

Lemma maturity_Ok score current :
  validate_cadence_segments segments = Ok () -> in_u 64 score -> in_u 64 current ->
  exists m, economic_maturity_reached score current segments = Ok m.
Proof.
  intros Hv Hs Hc. unfold economic_maturity_reached. destruct (current <? score); [eauto|].
  rewrite !economic_time_Ok by done. eauto.
Qed.
Lemma no_inputless_exists h txs u :
  try_fold (fun (_ : unit) tx => if bool_decide (tx_inputs tx = [])
     then Err (Some (HiddenIssuancePath h (tx_txid tx))) else Ok tt) tt txs = Ok u ->
  existsb (fun tx => bool_decide (tx_inputs tx = [])) txs = false.
Proof.
  induction txs as [|tx txs IH]; cbn; [done|]. by destruct (bool_decide (tx_inputs tx = [])).
Qed.

(** What the direct validation of a reward establishes. *)
Lemma validated_reward_spec block score v :
  0 < score -> in_u 64 score ->
  validate_monetary_reward_at_canonical_score_v3 state block score segments = Ok v ->
  exists claim txs output, b_transactions block = claim :: txs /\ tx_outputs claim = [output] /\
    validate_reward_claim_transaction_v3 claim (cs_chain_id state) = Ok tt /\
    existsb (fun tx => bool_decide (tx_inputs tx = [])) txs = false /\
    subsidy_atoms_for_score score segments = Ok (vr_authorized_subsidy_atoms v) /\
    eligible_block_fees_atoms_v3 state block = Ok (vr_eligible_fees_atoms v) /\
    vr_authorized_subsidy_atoms v + vr_eligible_fees_atoms v <= u64_max /\
    vr_authorized_settlement_atoms v = vr_authorized_subsidy_atoms v + vr_eligible_fees_atoms v /\
    vr_monetary_score v = score /\ vr_claim_txid v = tx_txid claim /\
    vr_beneficiary v = out_address output /\ vr_block_hash v = b_hash block.
Proof.
  intros Hp Hs. unfold validate_monetary_reward_at_canonical_score_v3, max_coinbase_claim_atoms,
    or_overflow, of_reward.
  destruct (b_transactions block) as [|claim txs] eqn:Htx; [by destruct (score =? 0)|].
  destruct (score =? 0); [done|]. cbn [head ok_or]. change (drop 1 (claim :: txs)) with txs.
  intros Hv. inv_ok.
  repeat match goal with Hm : map_err _ _ = Ok _ |- _ => apply map_err_Ok in Hm end. inv_ok.
  destruct a, (claim_one_output _ _ Hok) as [output Hout]. rewrite Hout in Hok4.
  cbn in Hok4. injection Hok4 as <-. exists claim, txs, output. cbn.
  split_and!; try done; [by eapply no_inputless_exists|f_equal; lia|lia|lia].
Qed.

Lemma audit_block_spec s i h s' :
  0 < i -> audit_block state segments s (i, h) = Ok s' ->
  exists block v, in_u 64 i /\ d_blocks (cs_dag state) !! h = Some block /\
    validate_monetary_reward_at_canonical_score_v3 state block i segments = Ok v /\
    s' = (s.1 + vr_authorized_subsidy_atoms v, s.2 + vr_eligible_fees_atoms v) /\
    s.1 + vr_authorized_subsidy_atoms v <= u64_max /\ s.2 + vr_eligible_fees_atoms v <= u64_max.
Proof.
  intros Hi. unfold audit_block. intros. inv_ok.
  repeat match goal with Hm : map_err _ _ = Ok _ |- _ => apply map_err_Ok in Hm end.
  eexists _, _. split_and!; done.
Qed.
(** Without a finality boundary, settling a block the audit accepts succeeds with
    the same totals, unless an outpoint name is too long to encode. *)
Lemma audit_block_settles current s i h sums' :
  0 < i -> in_u 64 current ->
  audit_block state segments (st_subsidy s, st_fees s) (i, h) = Ok sums' ->
  match settle_block state segments None current s (i, h) with
  | Ok s' => (st_subsidy s', st_fees s') = sums' /\ st_spendable s' = st_spendable s
  | Err e => e = None
  end.
Proof.
  intros Hi Hc Ha. destruct (audit_block_spec _ _ _ _ Hi Ha) as (block & v & Hu & Hb & Hv & -> & L1 & L2).
  destruct (validated_reward_spec _ _ _ Hi Hu Hv)
    as (claim & txs & output & Htx & Hout & Hclaim & Hin & Hsub & Hfee & L3 & _).
  destruct (subsidy_step _ _ _ Htyped Hu Hi Hsub) as [Hval _].
  destruct (maturity_Ok i current Hval Hu Hc) as [m Hm].
  cbn in L1, L2. unfold settle_block, or_reject.
  rewrite (proj2 (try_into_Some 64 i i)) by done. cbn [ok_or]. rewrite Hb. cbn [ok_or].
  rewrite Htx. cbn [head ok_or]. rewrite Hclaim. cbn [map_err]. change (drop 1 (claim :: txs)) with txs.
  rewrite Hin, Hsub, Hfee. cbn [of_monetary map_err].
  rewrite (proj2 (checked_add_Some 64 _ _ _)) by (split; [done|lia]). cbn [ok_or]. rewrite Hm. cbn [of_monetary map_err].
  rewrite (proj2 (checked_add_Some 64 (st_subsidy s) _ _)) by (split; [done|lia]). cbn [ok_or].
  rewrite (proj2 (checked_add_Some 64 (st_fees s) _ _)) by (split; [done|lia]). cbn [ok_or].
  rewrite bool_decide_eq_false_2 by done. rewrite Hout. cbn.
  unfold settlement_outpoint_v3. by destruct (settlement_outpoint_bytes _ _ _).
Qed.
Lemma audit_loop_settles current l s sums' :
  Forall (fun p => 0 < p.1) l -> in_u 64 current ->
  try_fold (audit_block state segments) (st_subsidy s, st_fees s) l = Ok sums' ->
  match try_fold (settle_block state segments None current) s l with
  | Ok s' => (st_subsidy s', st_fees s') = sums' /\ st_spendable s' = st_spendable s
  | Err e => e = None
  end.
Proof.
  intros Hl Hc. revert s. induction Hl as [|[i h] l Hi Hl IH]; intros s; cbn [try_fold]; [by intros [= <-]|].
  destruct (audit_block state segments (st_subsidy s, st_fees s) (i, h)) as [sums|] eqn:Ha; [|done].
  intros Hr. pose proof (audit_block_settles current s i h sums Hi Hc Ha) as Hs.
  destruct (settle_block _ _ _ _ _ _) as [s1|]; [|done]. destruct Hs as [<- Hsp]. rewrite <- Hsp. by apply IH.
Qed.
(** The sums of the audit are the scheduled supply. *)
Lemma audit_loop_supply blocks sums :
  try_fold (audit_block state segments) (0, 0) (scored_blocks blocks) = Ok sums ->
  (scored_blocks blocks <> [] -> in_u 64 (Z.of_nat (length (scored_blocks blocks)))) /\
  (validate_cadence_segments segments = Ok () ->
     sums.1 = supply segments (Z.of_nat (length (scored_blocks blocks)))).
Proof.
  apply (try_fold_ind _ (fun pre s => (pre <> [] -> in_u 64 (Z.of_nat (length pre))) /\
    (validate_cadence_segments segments = Ok () -> s.1 = supply segments (Z.of_nat (length pre))))).
  { split; [done|]. intros Hv. symmetry. by apply supply_genesis. }
  intros pre [i h] post s0 s1 Hl [_ Hsup] Hstep.
  destruct (scored_blocks_prefix _ _ _ _ _ Hl) as [-> _].
  assert (Hpos : 0 < Z.of_nat (length pre) + 1) by lia.
  destruct (audit_block_spec _ _ _ _ Hpos Hstep) as (block & v & Hu & _ & Hv & -> & _ & _).
  destruct (validated_reward_spec _ _ _ Hpos Hu Hv) as (_ & _ & _ & _ & _ & _ & _ & Hsub & _).
  destruct (subsidy_step _ _ _ Htyped Hu Hpos Hsub) as [Hval Hsum].
  rewrite length_app. cbn [length]. replace (Z.of_nat (length pre + 1)) with (Z.of_nat (length pre) + 1) by lia.
  split; [done|]. intros _. cbn [fst]. rewrite (Hsup Hval), <- Hsum. do 2 f_equal. lia.
Qed.

Lemma scored_positive blocks : Forall (fun p : Z * Hash => 0 < p.1) (scored_blocks blocks).
Proof.
  apply Forall_forall. intros [i h] (pre & post & E)%list_elem_of_split.
  destruct (scored_blocks_prefix _ _ _ _ _ E) as [-> _]. cbn. lia.
Qed.

(** The audit succeeds with totals the settlement agrees with. *)
Lemma audit_settles a policy :
  audit_monetary_state_v3 state segments = Ok a ->
  cs_chain_id state <> "" -> is_blank policy = false ->
  match derive_reward_settlement_snapshot_v3 state segments policy None with
  | Ok snap =>
      rs_total_authorized_subsidy_atoms snap = ma_authorized_subsidy_atoms a /\
      rs_total_pending_or_spendable_fees_atoms snap = ma_eligible_fee_transfers_atoms a /\
      rs_scheduled_supply_atoms snap = ma_scheduled_supply_atoms a /\
      rs_current_monetary_score snap = ma_current_monetary_score a /\
      rs_ordered_dag_digest snap = ma_ordered_dag_digest a /\
      rs_total_spendable_reward_atoms snap = 0
  | Err e => e = None
  end.
Proof.
  unfold audit_monetary_state_v3, audit_monetary. intros Ha Hchain Hpol. inv_ok. bool_props.
  repeat match goal with Hm : map_err _ _ = Ok _ |- _ => apply map_err_Ok in Hm end.
  unfold derive_reward_settlement_snapshot_v3. rewrite bool_decide_eq_false_2, Hpol, Hok by done.
  cbn [of_ordering map_err]. rewrite bool_decide_eq_false_2 by (intros E; by rewrite E in Hok0).
  unfold validate_ordered_genesis. rewrite bool_decide_eq_false_2 by (rewrite Hok0, Hif; auto).
  cbn [fmap option_fmap option_map].
  pose proof (audit_loop_settles (score_of_tip (od_blocks a0)) _ (mkSettlementTotals [] 0 0 0) _
    (scored_positive _) ltac:(done) Hok2) as Hset.
  destruct (try_fold (settle_block _ _ _ _) _ _) as [s|e]; [|done]. destruct Hset as [<- Hsp].
  rewrite Hok4. cbn in Hif1 |- *. by rewrite Hif1, Z.eqb_refl.
Qed.

(** The supply check of the audit never fails. *)
Lemma audit_block_errors s p e :
  audit_block state segments s p = Err (Some e) ->
  match e with SupplyMismatch _ _ _ => False | _ => True end.
Proof.
  destruct p as [i h]. unfold audit_block.
  destruct (try_into 64 i); cbn; [|by intros [= <-]]. destruct (d_blocks _ !! h); cbn; [|by intros [= <-]].
  destruct (validate_monetary_reward_at_canonical_score_v3 _ _ _ _) as [v|[|]]; cbn; [|by intros [= <-]|done].
  do 2 (destruct (checked_add _ _ _); cbn; [|by intros [= <-]]). done.
Qed.
Lemma audit_loop_errors l s e :
  try_fold (audit_block state segments) s l = Err (Some e) ->
  match e with SupplyMismatch _ _ _ => False | _ => True end.
Proof.
  revert s. induction l as [|p l IH]; intros s; cbn [try_fold]; [done|].
  destruct (audit_block state segments s p) eqn:E; [apply IH|]. intros [= ->]. by eapply audit_block_errors.
Qed.
Lemma audit_supply :
  match audit_monetary_state_v3 state segments with
  | Ok a => ma_authorized_subsidy_atoms a = ma_scheduled_supply_atoms a /\
      total_supply_atoms_for_score (ma_current_monetary_score a) segments = Ok (ma_scheduled_supply_atoms a) /\
      0 <= ma_scheduled_supply_atoms a <= MAX_SUPPLY_ATOMS
  | Err (Some (SupplyMismatch _ _ _)) => False
  | Err _ => True
  end.
Proof.
  unfold audit_monetary_state_v3.
  destruct (derive_ordered_dag_v2 state) as [od|[]]; cbn [map_err option_map]; [|done..].
  destruct (od_blocks od) as [|g l] eqn:Eod; cbn [head ok_or]; [done|].
  destruct (bool_decide _); cbn [negb]; [|done]. destruct (d_blocks _ !! g); cbn [ok_or]; [|done].
  destruct (bool_decide _); cbn [negb]; [|done].
  destruct (try_fold _ _ _) as [sums|[e|]] eqn:Hl; [|by apply audit_loop_errors in Hl; destruct e|done].
  destruct (try_into 64 _) as [score|] eqn:Hsc; cbn [ok_or]; [|done]. apply try_into_Some in Hsc as [-> Hin].
  destruct (total_supply_atoms_for_score _ _) as [scheduled|] eqn:Hs; cbn [audit_monetary map_err]; [|done].
  pose proof (total_supply_valid _ _ _ Hs) as Hv. destruct (audit_loop_supply _ _ Hl) as [_ Hsup].
  destruct (length_scored (g :: l) ltac:(done)) as [Hlen _]. rewrite Hlen in Hsup.
  pose proof Hs as Hs'. rewrite total_supply_Ok in Hs' by done. injection Hs' as Es.
  rewrite (Hsup Hv), Es, Z.eqb_refl. cbn [negb].
  destruct (monetary_cadence_fingerprint_v3 segments); cbn; [|done].
  split_and!; [done|done|..]; rewrite <- Es; apply curve_range, cadence_time_0; done || apply Hin.
Qed.
End audit.

(** ** The properties *)

(** C29: the settlement snapshot.  For any cadence of 64-bit segments, the check
    of the subsidies against the scheduled supply never fails.  When a snapshot is
    produced, it has exactly one claim per ordered block after genesis, in order,
    at its monetary score: the subsidy is the one of that score, the amount is
    subsidy plus eligible fees, the beneficiary and the id are those of the one
    amountless claim of the block, and the claim is spendable exactly when the score
    is finalized and mature.  The subsidies add up to the scheduled supply, which
    is at most the maximum supply, and the UTXOs to materialize pay exactly the
    spendable total. *)
Theorem reward_settlement_spec `{HashOrder, Crypto} state segments policy boundary :
  Forall segment_typed segments ->
  match derive_reward_settlement_snapshot_v3 state segments policy boundary with
  | Ok snap => exists od, snapshot_ok state segments boundary od snap
  | Err (Some (SupplyInvariantMismatch _ _ _)) => False
  | Err _ => True
  end.
Proof.
  intros Ht. pose proof (snapshot_spec state segments policy boundary Ht) as Hs.
  destruct (derive_reward_settlement_snapshot_v3 _ _ _ _) as [|[[]|]]; done.
Qed.

(** No reward is paid twice.  Unless SHA-256 collides on the settlement
    messages of the claims, the claims of a snapshot have distinct settlement
    outpoints, so the materialized UTXOs do too. *)
Lemma reward_outpoints_unique `{HashOrder, Crypto, !CryptoLaws} state segments policy boundary snap :
  Forall segment_typed segments ->
  derive_reward_settlement_snapshot_v3 state segments policy boundary = Ok snap ->
  collision_free (omap (claim_message (cs_chain_id state)) (rs_claims snap)) ->
  NoDup (map utxo_outpoint (materializable_reward_utxos_v3 snap)).
Proof.
  intros Ht Hd Hcf. pose proof (snapshot_spec state segments policy boundary Ht) as Hs.
  rewrite Hd in Hs. destruct Hs as [od Hs]. eapply sublist_NoDup; [|apply utxos_sublist].
  by eapply outpoints_unique.
Qed.

(** A finality boundary fixes the ordered prefix.  A bound boundary validates
    against the state it was bound to; and two states against which one boundary
    validates have the same ordered blocks up to the finalized score, the last of
    them being the finalized block, unless SHA-256 collides on the two prefixes. *)
Lemma reward_finality_boundary_binding `{HashOrder, Crypto, !CryptoLaws} s1 s2 score policy b :
  0 <= score -> bind_reward_finality_boundary_v3 s1 score policy = Ok b ->
  validate_reward_finality_boundary_v3 s1 b policy = Ok tt /\
  (validate_reward_finality_boundary_v3 s2 b policy = Ok tt ->
   exists od1 od2 m1 m2, derive_ordered_dag_v2 s1 = Ok od1 /\ derive_ordered_dag_v2 s2 = Ok od2 /\
     ordered_prefix_bytes (od_blocks od1) score = Some m1 /\
     ordered_prefix_bytes (od_blocks od2) score = Some m2 /\
     (collision_free [m1; m2] ->
      take (Z.to_nat (score + 1)) (od_blocks od1) = take (Z.to_nat (score + 1)) (od_blocks od2) /\
      od_blocks od2 !! Z.to_nat score = Some (rfb_finalized_block_hash b))).
Proof.
  intros Hpos Hb. destruct (bind_validate _ _ _ _ Hb) as [Hv1 Esc]. split; [done|]. intros Hv2.
  destruct (validate_boundary_prefix s1 b policy) as (od1 & m1 & D1 & _ & L1 & _ & M1 & G1 & U); [lia|done|].
  destruct (validate_boundary_prefix s2 b policy) as (od2 & m2 & D2 & _ & L2 & F2 & M2 & G2 & _); [lia|done|].
  rewrite Esc in *. exists od1, od2, m1, m2. split_and!; try done. intros Hcf. split; [|done].
  rewrite G1 in G2. apply (inj hex_encode) in G2. apply Hcf in G2; [|set_solver..]. subst m2.
  by apply (prefix_bytes_inj _ _ score m1); [unfold in_u in *; lia|..].
Qed.

(** The monetary audit.  For any cadence of 64-bit segments its supply check
    never fails: when it succeeds, the authorized subsidies are the scheduled supply
    of the current score, at most the maximum supply; and the settlement snapshot
    without a finality boundary then succeeds with the same totals and pays nothing
    yet (it can only panic, on a name too long to encode). *)
Lemma audit_monetary_state_spec `{HashOrder, Crypto} state segments policy :
  Forall segment_typed segments ->
  match audit_monetary_state_v3 state segments with
  | Ok a =>
      ma_authorized_subsidy_atoms a = ma_scheduled_supply_atoms a /\
      total_supply_atoms_for_score (ma_current_monetary_score a) segments = Ok (ma_scheduled_supply_atoms a) /\
      0 <= ma_scheduled_supply_atoms a <= MAX_SUPPLY_ATOMS /\
      (cs_chain_id state <> "" -> is_blank policy = false ->
       match derive_reward_settlement_snapshot_v3 state segments policy None with
       | Ok snap =>
           rs_total_authorized_subsidy_atoms snap = ma_authorized_subsidy_atoms a /\
           rs_total_pending_or_spendable_fees_atoms snap = ma_eligible_fee_transfers_atoms a /\
           rs_scheduled_supply_atoms snap = ma_scheduled_supply_atoms a /\
           rs_current_monetary_score snap = ma_current_monetary_score a /\
           rs_ordered_dag_digest snap = ma_ordered_dag_digest a /\
           rs_total_spendable_reward_atoms snap = 0
       | Err e => e = None
       end)
  | Err (Some (SupplyMismatch _ _ _)) => False
  | Err _ => True
  end.
Proof.
  intros Ht. pose proof (audit_supply state segments Ht) as Hs.
  destruct (audit_monetary_state_v3 state segments) as [a|] eqn:Ha; [|done].
  destruct Hs as (E & T & M). split_and!; try done; [apply M..|]. intros. by apply audit_settles.
Qed.

(** ** Witnesses *)

(** Genesis and two blocks with reward claims; the second pays a fee. *)
Definition claim_tx (nonce : Z) : Transaction :=
  match @build_reward_claim_transaction_v3 model_crypto "miner" nonce "test" with
  | Ok tx => tx | Err _ => mkTransaction "" 0 [] [] 0 0
  end.
Definition fee_tx : Transaction :=
  mkTransaction "t" 2 [mkTxInput (mkOutPoint "o" 0) "" ""] [mkTxOutput "x" 5] 7 1.
Definition rewarded_block (hash parent : Hash) (height : Z) (txs : list Transaction) : Block :=
  mkBlock hash (mkBlockHeader 1 [parent] height 1 0 "" "" height height) txs.
Definition rewarded_state : ChainState :=
  blank_state <| cs_dag := (cs_dag blank_state)
    <| d_blocks := {[ "g" := mkBlock "g" (mkBlockHeader 1 [] 0 1 0 "" "" 0 0) [];
                      "a" := rewarded_block "a" "g" 1 [claim_tx 1];
                      "b" := rewarded_block "b" "a" 2 [claim_tx 2; fee_tx] ]} |>
    <| d_genesis_hash := "g" |>
    <| d_selected_chain := ["g"; "a"; "b"] |>
    <| d_selected_parents := {[ "g" := None; "a" := Some "g"; "b" := Some "a" ]} |>
    <| d_merge_set_blues := {[ "g" := []; "a" := []; "b" := [] ]} |>
    <| d_merge_set_reds := {[ "g" := []; "a" := []; "b" := [] ]} |>
    <| d_blue_work := {[ "g" := 1; "a" := 2; "b" := 3 ]} |> |>.
(** One hour per score, so that a claim is mature one score later. *)
Definition hourly_cadence : list MonetaryCadenceSegment := [mkMonetaryCadenceSegment 0 COINBASE_MATURITY_NS].
Abbreviation snapshot_at b :=
  (@derive_reward_settlement_snapshot_v3 list_order model_crypto rewarded_state hourly_cadence "p" b).
Abbreviation boundary_at score :=
  (@bind_reward_finality_boundary_v3 list_order model_crypto rewarded_state score "p").

(** Only the finalized and mature claim of [a] is spendable. *)
Example rewarded_snapshot :
  (fun s => (map rc_status (rs_claims s), map rc_fees_atoms (rs_claims s),
             map utxo_height (materializable_reward_utxos_v3 s))) <$>
  result_ok (snapshot_at (result_ok (boundary_at 1))) = Some ([Spendable; Provisional], [0; 7], [1]).
Proof. by_compute. Qed.

Lemma reward_settlement_spec_witness :
  exists snap od, snapshot_at None = Ok snap /\
    @snapshot_ok list_order model_crypto rewarded_state hourly_cadence None od snap.
Proof.
  pose proof (@reward_settlement_spec list_order model_crypto rewarded_state hourly_cadence "p" None
    ltac:(by_decide)) as Hs.
  destruct (snapshot_at None) as [snap|e] eqn:E; [destruct Hs as [od Hod]; eauto|].
  exfalso. assert (Hok : is_ok (snapshot_at None) = true) by by_compute. by rewrite E in Hok.
Defined.
Lemma reward_outpoints_unique_witness :
  exists snap, snapshot_at (result_ok (boundary_at 1)) = Ok snap /\
    NoDup (map utxo_outpoint (materializable_reward_utxos_v3 snap)).
Proof.
  destruct (snapshot_at (result_ok (boundary_at 1))) as [snap|e] eqn:E.
  2: { exfalso. assert (Hok : is_ok (snapshot_at (result_ok (boundary_at 1))) = true) by by_compute.
       by rewrite E in Hok. }
  exists snap. split; [done|].
  apply (@reward_outpoints_unique list_order model_crypto model_crypto_laws rewarded_state hourly_cadence
    "p" (result_ok (boundary_at 1)) snap); [by_decide|exact E|].
  assert (Hcf : match result_ok (snapshot_at (result_ok (boundary_at 1))) with
    | Some s => bool_decide (@collision_free model_crypto (omap (claim_message "test") (rs_claims s)))
    | None => false end = true) by by_compute.
  rewrite E in Hcf. by apply bool_decide_eq_true in Hcf.
Defined.
Lemma reward_finality_boundary_binding_witness :
  exists b, boundary_at 1 = Ok b /\
    @validate_reward_finality_boundary_v3 list_order model_crypto rewarded_state b "p" = Ok tt /\
    exists od1 od2 : OrderedDagV2, take 2 (od_blocks od1) = take 2 (od_blocks od2) /\
      od_blocks od2 !! 1%nat = Some (rfb_finalized_block_hash b).
Proof.
  destruct (boundary_at 1) as [b|e] eqn:E.
  2: { exfalso. assert (Hok : is_ok (boundary_at 1) = true) by by_compute. by rewrite E in Hok. }
  exists b. split; [done|].
  destruct (@reward_finality_boundary_binding list_order model_crypto model_crypto_laws
    rewarded_state rewarded_state 1 "p" b ltac:(by_decide) E) as [Hv Hbind].
  split; [exact Hv|]. destruct (Hbind Hv) as (od1 & od2 & m1 & m2 & D1 & D2 & M1 & M2 & Hcf).
  exists od1, od2. apply Hcf. rewrite D1 in D2. injection D2 as <-. rewrite M1 in M2. injection M2 as <-.
  by intros x y [->|[->|[]%elem_of_nil]%elem_of_cons]%elem_of_cons
    [->|[->|[]%elem_of_nil]%elem_of_cons]%elem_of_cons.
Defined.
Lemma audit_monetary_state_spec_witness :
  exists a, @audit_monetary_state_v3 list_order model_crypto rewarded_state hourly_cadence = Ok a /\
    ma_authorized_subsidy_atoms a = ma_scheduled_supply_atoms a /\
    ma_eligible_fee_transfers_atoms a = 7.
Proof.
  pose proof (@audit_monetary_state_spec list_order model_crypto rewarded_state hourly_cadence "p"
    ltac:(by_decide)) as Hs.
  assert (Hok : ma_eligible_fee_transfers_atoms <$>
    result_ok (@audit_monetary_state_v3 list_order model_crypto rewarded_state hourly_cadence) = Some 7)
    by by_compute.
  destruct (@audit_monetary_state_v3 list_order model_crypto rewarded_state hourly_cadence) as [a|e];
    [|discriminate Hok].
  destruct Hs as [Heq _]. injection Hok as Hfee. exists a. split; [reflexivity|]. split; assumption.
Defined.
