(* ===== verification/Headers.v ===== *)
(** * Chain-bound headers, versions 2 and 3 ([header_v2.rs], [header_v3.rs])

    The canonical bytes of a header with its chain id, with or without the nonce,
    and the block hash over them.  The theorem: a hash fixes the version, the chain
    id and every field of the header. *)

From stdpp Require Import pretty.
From S2P Require Import Prelude Encoding Crypto Types State SelectionV2.

Definition BLOCK_HEADER_VERSION_V1 : Z := 1.
Definition BLOCK_HEADER_VERSION_V2 : Z := 2.
Definition BLOCK_HEADER_VERSION_V3 : Z := 3.
Definition BLOCK_HEADER_V2_DOMAIN : bytes := str_bytes "PulseDAG:block-header:v2".
Definition BLOCK_HEADER_V3_DOMAIN : bytes := str_bytes "PulseDAG:block-header:v3:nanoseconds".
Definition V3_MAX_CHAIN_ID_BYTES : Z := 128.
Definition V3_HEX_HASH_BYTES : Z := 64.
Definition V3_MAX_CANONICAL_HEADER_BYTES : Z := 8192.
Definition MAX_DORMANT_V3_HEADER_SHAPE_PARENTS : Z := 64.

(** [l.windows(2).any(f)]. *)
Fixpoint windows2_any {A} (f : A -> A -> bool) (l : list A) : bool :=
  match l with
  | a :: (b :: _) as rest => f a b || windows2_any f rest
  | _ => false
  end.

(** ** Version 2 *)

Definition canonicalize_block_parents_v2 (parents : list Hash) : outcome (list Hash) :=
  if GHOSTDAG_V1_MAX_PARENTS <? Z.of_nat (length parents) then
    fails (InvalidBlock ("header v2 parent count " +:+ pretty (length parents)
      +:+ " exceeds maximum " +:+ pretty GHOSTDAG_V1_MAX_PARENTS))
  else if existsb (fun p => bool_decide (p = "")) parents then
    fails (InvalidBlock "header v2 parent hash must not be empty")
  else
    let canonical := isort String.le parents in
    if windows2_any (fun a b => bool_decide (a = b)) canonical
    then fails (InvalidBlock "header v2 parent hashes must be unique")
    else Ok canonical.

Definition validate_block_header_v2_shape (header : BlockHeader) (chain_id : string) : outcome unit :=
  if negb (h_version header =? BLOCK_HEADER_VERSION_V2) then
    fails (InvalidBlock ("block header v2 serialization requires version "
      +:+ pretty BLOCK_HEADER_VERSION_V2 +:+ ", got " +:+ pretty (h_version header)))
  else if bool_decide (chain_id = "") then fails ChainIdMismatch else
  let? canonical_parents := canonicalize_block_parents_v2 (h_parents header) in
  if (0 <? h_height header) && bool_decide (canonical_parents = []) then
    fails (InvalidBlock "non-genesis header v2 requires at least one parent")
  else if negb (bool_decide (canonical_parents = h_parents header)) then
    fails (InvalidBlock "header v2 parent vector is not in canonical ascending order")
  else Ok tt.

Definition header_v2_fields (header : BlockHeader) (chain_id : string) (include_nonce : bool)
  : list (option bytes) :=
  [encode_len_prefixed_bytes BLOCK_HEADER_V2_DOMAIN; encode_len_prefixed_str chain_id;
   fixed 4 (h_version header); encode_string_vec (h_parents header);
   fixed 8 (h_timestamp header); fixed 4 (h_difficulty header)]
  ++ (if include_nonce then [fixed 8 (h_nonce header)] else [])
  ++ [encode_len_prefixed_str (h_merkle_root header); encode_len_prefixed_str (h_state_root header);
      fixed 8 (h_blue_score header); fixed 8 (h_height header)].
Definition canonical_block_header_material_v2 (header : BlockHeader) (chain_id : string)
  (include_nonce : bool) : outcome bytes :=
  check validate_block_header_v2_shape header chain_id in
  expect (emit (header_v2_fields header chain_id include_nonce)).
Definition canonical_block_header_bytes_v2 (header : BlockHeader) (chain_id : string) : outcome bytes :=
  canonical_block_header_material_v2 header chain_id true.
Definition canonical_mining_preimage_bytes_v2 (header : BlockHeader) (chain_id : string) : outcome bytes :=
  canonical_block_header_material_v2 header chain_id false.
Definition compute_block_hash_v2 `{Crypto} (header : BlockHeader) (chain_id : string) : outcome Hash :=
  let? b := canonical_block_header_bytes_v2 header chain_id in
  Ok (hex_encode (sha256 b)).

(** ** Version 3 *)

Record BlockHeaderV3 := mkBlockHeaderV3 {
  h3_version : Z;
  h3_parents : list Hash;
  h3_timestamp_ns : Z;
  h3_difficulty : Z;
  h3_nonce : Z;
  h3_merkle_root : Hash;
  h3_state_root : Hash;
  h3_blue_score : Z;
  h3_height : Z;
}.
#[global] Instance BlockHeaderV3_eq_dec : EqDecision BlockHeaderV3.
Proof. solve_decision. Defined.

Definition is_lower_hexdigit (b : Byte.byte) : bool :=
  let x := Z_of_byte b in ((48 <=? x) && (x <=? 57)) || ((97 <=? x) && (x <=? 102)).
Definition is_ascii_graphic (b : Byte.byte) : bool :=
  let x := Z_of_byte b in (33 <=? x) && (x <=? 126).
Definition canonical_v3_hash (value : Hash) : bool :=
  (Z.of_nat (length (str_bytes value)) =? V3_HEX_HASH_BYTES) && forallb is_lower_hexdigit (str_bytes value).

Definition validate_block_header_v3_shape (header : BlockHeaderV3) (chain_id : string)
  : result PulseError unit :=
  if negb (h3_version header =? BLOCK_HEADER_VERSION_V3) then
    Err (InvalidBlock ("header v3 requires version " +:+ pretty BLOCK_HEADER_VERSION_V3
      +:+ ", got " +:+ pretty (h3_version header))) else
  if bool_decide (chain_id = "") || (V3_MAX_CHAIN_ID_BYTES <? Z.of_nat (length (str_bytes chain_id)))
     || negb (forallb is_ascii_graphic (str_bytes chain_id)) then Err ChainIdMismatch else
  if h3_timestamp_ns header =? 0 then
    Err (InvalidBlock "header v3 Unix nanoseconds must be positive") else
  if MAX_DORMANT_V3_HEADER_SHAPE_PARENTS <? Z.of_nat (length (h3_parents header)) then
    Err (InvalidBlock ("header v3 parents " +:+ pretty (length (h3_parents header))
      +:+ " exceed the limit " +:+ pretty MAX_DORMANT_V3_HEADER_SHAPE_PARENTS)) else
  if (h3_height header =? 0) && negb (bool_decide (h3_parents header = [])) then
    Err (InvalidBlock "header v3 genesis height must not reference parents") else
  if (0 <? h3_height header) && bool_decide (h3_parents header = []) then
    Err (InvalidBlock "header v3 non-genesis block requires a parent") else
  if existsb (fun h => negb (canonical_v3_hash h)) (h3_parents header) then
    Err (InvalidBlock "header v3 parents require 64 lowercase hex digits") else
  if negb (canonical_v3_hash (h3_merkle_root header)) || negb (canonical_v3_hash (h3_state_root header)) then
    Err (InvalidBlock "header v3 commitment roots require 64 lowercase hex digits") else
  if windows2_any (fun a b => bool_decide (String.le b a)) (h3_parents header) then
    Err (InvalidBlock "header v3 parents must be unique and canonically ordered")
  else Ok tt.

(** [encode_len_prefixed] is fallible in version 3. *)
Definition or_too_long {A} (o : option A) : result PulseError A :=
  ok_or o (InvalidBlock "v3 header canonical field exceeds u32::MAX").
Definition header_v3_fields (header : BlockHeaderV3) (chain_id : string) (include_nonce : bool)
  : list (option bytes) :=
  [encode_len_prefixed_bytes BLOCK_HEADER_V3_DOMAIN; encode_len_prefixed_str chain_id;
   fixed 4 (h3_version header); fixed 4 (Z.of_nat (length (h3_parents header)) mod 2 ^ 32)]
  ++ map encode_len_prefixed_str (h3_parents header)
  ++ [fixed 8 (h3_timestamp_ns header); fixed 4 (h3_difficulty header)]
  ++ (if include_nonce then [fixed 8 (h3_nonce header)] else [])
  ++ [encode_len_prefixed_str (h3_merkle_root header); encode_len_prefixed_str (h3_state_root header);
      fixed 8 (h3_blue_score header); fixed 8 (h3_height header)].
Definition canonical_header_material_v3 (header : BlockHeaderV3) (chain_id : string)
  (include_nonce : bool) : result PulseError bytes :=
  check validate_block_header_v3_shape header chain_id in
  let? out := or_too_long (emit (header_v3_fields header chain_id include_nonce)) in
  if V3_MAX_CANONICAL_HEADER_BYTES <? Z.of_nat (length out)
  then Err (InvalidBlock "header v3 canonical bytes exceed the fixed limit") else Ok out.
Definition canonical_block_header_bytes_v3 (header : BlockHeaderV3) (chain_id : string)
  : result PulseError bytes := canonical_header_material_v3 header chain_id true.
Definition canonical_mining_preimage_bytes_v3 (header : BlockHeaderV3) (chain_id : string)
  : result PulseError bytes := canonical_header_material_v3 header chain_id false.
Definition compute_block_hash_v3 `{Crypto} (header : BlockHeaderV3) (chain_id : string)
  : result PulseError Hash :=
  let? b := canonical_block_header_bytes_v3 header chain_id in
  Ok (hex_encode (sha256 b)).

(** ** Binding *)

(** Headers that agree on everything the material covers. *)
Definition without_nonce (h : BlockHeader) : BlockHeader :=
  mkBlockHeader (h_version h) (h_parents h) (h_timestamp h) (h_difficulty h) 0 (h_merkle_root h)
    (h_state_root h) (h_blue_score h) (h_height h).
Definition without_nonce3 (h : BlockHeaderV3) : BlockHeaderV3 :=
  mkBlockHeaderV3 (h3_version h) (h3_parents h) (h3_timestamp_ns h) (h3_difficulty h) 0
    (h3_merkle_root h) (h3_state_root h) (h3_blue_score h) (h3_height h).
Definition header3_typed (h : BlockHeaderV3) : Prop :=
  in_u 32 (h3_version h) /\ in_u 64 (h3_timestamp_ns h) /\ in_u 32 (h3_difficulty h) /\
  in_u 64 (h3_nonce h) /\ in_u 64 (h3_blue_score h) /\ in_u 64 (h3_height h).
#[global] Instance header3_typed_dec h : Decision (header3_typed h).
Proof. unfold header3_typed. apply _. Defined.
#[global] Typeclasses Opaque header3_typed.

Ltac peel_header :=
  repeat first
    [ peel (fun _ : string => True) encode_len_prefixed_str
    | peel (fun _ : bytes => True) encode_len_prefixed_bytes
    | peel (fun x => 0 <= x < 256 ^ Z.of_nat 4) (fixed 4)
    | peel (fun x => 0 <= x < 256 ^ Z.of_nat 8) (fixed 8)
    | peel (Forall (fun _ : string => True)) encode_string_vec ].

Lemma header_v2_fields_inj h1 h2 c1 c2 n m :
  header_typed h1 -> header_typed h2 ->
  emit (header_v2_fields h1 c1 n) = Some m -> emit (header_v2_fields h2 c2 n) = Some m ->
  c1 = c2 /\ without_nonce h1 = without_nonce h2 /\ (n = true -> h1 = h2).
Proof.
  intros (?&?&?&?&?&?) (?&?&?&?&?&?) Hx Hy. assert (Heq : m ++ [] = m ++ []) by done.
  revert Hx Hy Heq. generalize m at 1 3 as m0. unfold header_v2_fields. intros m0 Hx Hy Heq.
  destruct n; cbn [app] in Hx, Hy; peel_header;
    (split; [done|]; destruct h1, h2; simpl in *; simplify_eq; done).
Qed.
Lemma header_v3_fields_alt h c n :
  Z.of_nat (length (h3_parents h)) <= MAX_DORMANT_V3_HEADER_SHAPE_PARENTS ->
  emit (header_v3_fields h c n) =
  emit ([encode_len_prefixed_bytes BLOCK_HEADER_V3_DOMAIN; encode_len_prefixed_str c;
         fixed 4 (h3_version h)] ++ encode_string_vec (h3_parents h) ::
        ([fixed 8 (h3_timestamp_ns h); fixed 4 (h3_difficulty h)]
         ++ (if n then [fixed 8 (h3_nonce h)] else [])
         ++ [encode_len_prefixed_str (h3_merkle_root h); encode_len_prefixed_str (h3_state_root h);
             fixed 8 (h3_blue_score h); fixed 8 (h3_height h)])).
Proof.
  intros Hl. unfold encode_string_vec, encode_vec. unfold MAX_DORMANT_V3_HEADER_SHAPE_PARENTS in Hl.
  rewrite (proj2 (Z.leb_le _ _)) by (unfold u_max; lia).
  rewrite <- emit_nest. unfold header_v3_fields. by rewrite Z.mod_small by lia.
Qed.
Lemma header_v3_shape_parents h c :
  validate_block_header_v3_shape h c = Ok tt ->
  Z.of_nat (length (h3_parents h)) <= MAX_DORMANT_V3_HEADER_SHAPE_PARENTS.
Proof. unfold validate_block_header_v3_shape. intros. inv_ok. by bool_props. Qed.
Lemma header_v3_material_inj h1 h2 c1 c2 n m :
  header3_typed h1 -> header3_typed h2 ->
  canonical_header_material_v3 h1 c1 n = Ok m -> canonical_header_material_v3 h2 c2 n = Ok m ->
  c1 = c2 /\ without_nonce3 h1 = without_nonce3 h2 /\ (n = true -> h1 = h2).
Proof.
  unfold canonical_header_material_v3, or_too_long. intros (?&?&?&?&?&?) (?&?&?&?&?&?) Hx Hy.
  inv_ok. repeat match goal with u : unit |- _ => destruct u end.
  repeat match goal with
    | Hs : validate_block_header_v3_shape _ _ = Ok _ |- _ => apply header_v3_shape_parents in Hs
    | He : emit (header_v3_fields _ _ _) = Some _ |- _ => rewrite header_v3_fields_alt in He by done
    end.
  assert (Heq : m ++ [] = m ++ []) by done. revert Hok2 Hok0 Heq. generalize m at 1 3 as m0.
  intros m0 Hx Hy Heq. destruct n; cbn [app] in Hx, Hy; peel_header;
    (split; [done|]; destruct h1, h2; simpl in *; simplify_eq; done).
Qed.
Lemma header_domains_differ h2 c2 h3 c3 n2 n3 m :
  emit (header_v2_fields h2 c2 n2) = Some m -> emit (header_v3_fields h3 c3 n3) = Some m -> False.
Proof.
  intros Hx Hy. assert (Heq : m ++ [] = m ++ []) by done.
  revert Hx Hy Heq. generalize m at 1 3 as m0. unfold header_v2_fields, header_v3_fields.
  cbn [app]. intros m0 Hx Hy Heq.
  peel (fun _ : bytes => True) encode_len_prefixed_bytes. discriminate Hfield.
Qed.

(** A header of either version. *)
Inductive chain_header := HeaderV2 (h : BlockHeader) | HeaderV3 (h : BlockHeaderV3).
Definition chain_header_typed (x : chain_header) : Prop :=
  match x with HeaderV2 h => header_typed h | HeaderV3 h => header3_typed h end.
Definition chain_header_bytes (x : chain_header) (chain_id : string) : option bytes :=
  match x with
  | HeaderV2 h => result_ok (canonical_block_header_bytes_v2 h chain_id)
  | HeaderV3 h => result_ok (canonical_block_header_bytes_v3 h chain_id)
  end.
Definition chain_header_hash `{Crypto} (x : chain_header) (chain_id : string) : option Hash :=
  match x with
  | HeaderV2 h => result_ok (compute_block_hash_v2 h chain_id)
  | HeaderV3 h => result_ok (compute_block_hash_v3 h chain_id)
  end.
Lemma header_v2_bytes_fields h c n m :
  canonical_block_header_material_v2 h c n = Ok m -> emit (header_v2_fields h c n) = Some m.
Proof. unfold canonical_block_header_material_v2, expect. intros. by inv_ok. Qed.
Lemma header_v3_bytes_fields h c n m :
  canonical_header_material_v3 h c n = Ok m -> emit (header_v3_fields h c n) = Some m.
Proof. unfold canonical_header_material_v3, or_too_long. intros. by inv_ok. Qed.
Lemma chain_header_bytes_inj x y c d m :
  chain_header_typed x -> chain_header_typed y ->
  chain_header_bytes x c = Some m -> chain_header_bytes y d = Some m -> x = y /\ c = d.
Proof.
  destruct x as [h|h], y as [k|k]; cbn; rewrite !result_ok_Some; intros Th Tk Hx Hy.
  - apply header_v2_bytes_fields in Hx, Hy.
    destruct (header_v2_fields_inj _ _ _ _ _ _ Th Tk Hx Hy) as (-> & _ & E). by rewrite E.
  - apply header_v2_bytes_fields in Hx. apply header_v3_bytes_fields in Hy.
    by destruct (header_domains_differ _ _ _ _ _ _ _ Hx Hy).
  - apply header_v3_bytes_fields in Hx. apply header_v2_bytes_fields in Hy.
    by destruct (header_domains_differ _ _ _ _ _ _ _ Hy Hx).
  - destruct (header_v3_material_inj _ _ _ _ _ _ Th Tk Hx Hy) as (-> & _ & E). by rewrite E.
Qed.
Lemma chain_header_hash_bytes `{Crypto} x c m :
  chain_header_bytes x c = Some m -> chain_header_hash x c = Some (hex_encode (sha256 m)).
Proof.
  destruct x; cbn; unfold compute_block_hash_v2, compute_block_hash_v3; rewrite result_ok_Some; by intros ->.
Qed.

(** Chain-bound block hashes.  Unless the two serialized headers collide under
    SHA-256, equal hashes of version-2 or version-3 headers mean the same version,
    the same chain id and the same header: a block cannot be replayed on another
    chain, and a version-2 hash is never a version-3 hash. *)
Lemma chain_header_hash_binding `{Crypto, !CryptoLaws} x y c d b1 b2 :
  chain_header_typed x -> chain_header_typed y ->
  chain_header_bytes x c = Some b1 -> chain_header_bytes y d = Some b2 -> collision_free [b1; b2] ->
  chain_header_hash x c = chain_header_hash y d -> x = y /\ c = d.
Proof.
  intros Tx Ty Hx Hy Hcf. rewrite (chain_header_hash_bytes _ _ _ Hx), (chain_header_hash_bytes _ _ _ Hy).
  intros [= Heq%(inj hex_encode)]. apply Hcf in Heq; [|set_solver..]. subst b2.
  by eapply chain_header_bytes_inj.
Qed.

Definition sample_v3_header (nonce : Z) : BlockHeaderV3 :=
  let root := "0000000000000000000000000000000000000000000000000000000000000000" in
  mkBlockHeaderV3 3 [] 5 0x207fffff nonce root root 0 0.
Lemma chain_header_hash_binding_witness :
  @chain_header_hash model_crypto (HeaderV3 (sample_v3_header 1)) "main" <>
  @chain_header_hash model_crypto (HeaderV3 (sample_v3_header 1)) "test".
Proof.
  intros Heq.
  destruct (@chain_header_hash_binding model_crypto model_crypto_laws
    (HeaderV3 (sample_v3_header 1)) (HeaderV3 (sample_v3_header 1)) "main" "test"
    (default [] (chain_header_bytes (HeaderV3 (sample_v3_header 1)) "main"))
    (default [] (chain_header_bytes (HeaderV3 (sample_v3_header 1)) "test")))
    as [_ Hc]; [by_decide|by_decide|by_compute|by_compute|by_decide|exact Heq|]. discriminate Hc.
Defined.
