(* ===== verification/Protocol.v ===== *)
(** * Protocol activation identity ([protocol.rs])

    Which chain, genesis, versions, consensus mode and ordering a state, block or
    snapshot belongs to, with its canonical bytes and fingerprint. *)

From S2P Require Import Prelude Encoding Crypto Types State Tx Ordering Headers.

Definition PROTOCOL_ACTIVATION_IDENTITY_FINGERPRINT_DOMAIN : bytes :=
  str_bytes "PulseDAG:protocol-activation-identity:v1".

(** The constructors carry a prefix: [ConsensusMode] has two of the names. *)
Inductive ProtocolConsensusMode := PLegacy | PGhostdagDev | PGhostdagV1.
#[global] Instance ProtocolConsensusMode_eq_dec : EqDecision ProtocolConsensusMode.
Proof. solve_decision. Defined.
Definition ProtocolConsensusMode_as_str (m : ProtocolConsensusMode) : string :=
  match m with PLegacy => "legacy" | PGhostdagDev => "ghostdag_dev" | PGhostdagV1 => "ghostdag_v1" end.
Definition is_release_activated (m : ProtocolConsensusMode) : bool :=
  match m with PGhostdagV1 => true | _ => false end.
Definition ProtocolConsensusMode_from (m : ConsensusMode) : ProtocolConsensusMode :=
  match m with Legacy => PLegacy | GhostdagDev => PGhostdagDev end.

Record ProtocolActivationIdentity := mkProtocolActivationIdentity {
  pi_chain_id : string;
  pi_genesis_hash : string;
  pi_transaction_protocol_version : Z;
  pi_block_header_protocol_version : Z;
  pi_consensus_mode : ProtocolConsensusMode;
  pi_dag_ordering_version : string;
}.
#[global] Instance ProtocolActivationIdentity_eq_dec : EqDecision ProtocolActivationIdentity.
Proof. solve_decision. Defined.

Definition legacy_from_state (state : ChainState) : ProtocolActivationIdentity :=
  mkProtocolActivationIdentity (cs_chain_id state) (d_genesis_hash (cs_dag state)) TRANSACTION_VERSION_V1
    BLOCK_HEADER_VERSION_V1 (ProtocolConsensusMode_from (d_consensus_mode (cs_dag state)))
    (d_ordering_version (cs_dag state)).
Definition activated_v2 (chain_id genesis_hash dag_ordering_version : string) : ProtocolActivationIdentity :=
  mkProtocolActivationIdentity chain_id genesis_hash TRANSACTION_VERSION_V2 BLOCK_HEADER_VERSION_V2
    PGhostdagV1 dag_ordering_version.
Definition legacy_default_for_chain (chain_id genesis_hash : string) : ProtocolActivationIdentity :=
  mkProtocolActivationIdentity chain_id genesis_hash TRANSACTION_VERSION_V1 BLOCK_HEADER_VERSION_V1
    PLegacy DAG_ORDERING_VERSION.

Definition protocol_identity_validate (i : ProtocolActivationIdentity) : result string unit :=
  if bool_decide (pi_chain_id i = "") then Err "protocol identity chain_id must not be empty" else
  if bool_decide (pi_genesis_hash i = "") then Err "protocol identity genesis_hash must not be empty" else
  if pi_transaction_protocol_version i =? 0 then Err "transaction protocol version must be non-zero" else
  if pi_block_header_protocol_version i =? 0 then Err "block-header protocol version must be non-zero" else
  if bool_decide (pi_dag_ordering_version i = "") then Err "DAG ordering version must not be empty" else
  Ok tt.

Definition protocol_identity_fields (i : ProtocolActivationIdentity) : list (option bytes) :=
  [encode_len_prefixed_bytes PROTOCOL_ACTIVATION_IDENTITY_FINGERPRINT_DOMAIN;
   encode_len_prefixed_str (pi_chain_id i);
   encode_len_prefixed_str (pi_genesis_hash i);
   fixed 4 (pi_transaction_protocol_version i);
   fixed 4 (pi_block_header_protocol_version i);
   encode_len_prefixed_str (ProtocolConsensusMode_as_str (pi_consensus_mode i));
   encode_len_prefixed_str (pi_dag_ordering_version i)].
(** [Err None] is the panic of a field longer than [u32::MAX]. *)
Definition canonical_fingerprint_bytes (i : ProtocolActivationIdentity) : result (option string) bytes :=
  check map_err Some (protocol_identity_validate i) in
  ok_or (emit (protocol_identity_fields i)) None.
Definition protocol_identity_fingerprint `{Crypto} (i : ProtocolActivationIdentity)
  : result (option string) string :=
  let? b := canonical_fingerprint_bytes i in
  Ok (hex_encode (sha256 b)).
