(* ===== verification/AcceptanceV2.v ===== *)
(** * Activated-v2 genesis, metadata commit and finality
      ([genesis_v2.rs], [acceptance_v2.rs], [finality_v2.rs])

    The clean-chain genesis, the commit of a block's GHOSTDAG v1 metadata, and the
    finality boundary.  A failed commit leaves the state as it was: the code works
    on a copy. *)

From stdpp Require Import pretty.
From S2P Require Import Prelude Encoding Crypto Types Merkle State Tx Graph Selection Retarget Ghostdag.
From S2P Require Import Ordering OrderingV2 SelectionV2 GhostdagV1 Mining Genesis Apply Headers Protocol.

(** ** Genesis *)

Section genesis_v2.
Context `{HashOrder, Crypto}.

Definition genesis_transaction_v2 (chain_id : string) : outcome Transaction :=
  if bool_decide (chain_id = "") then fails ChainIdMismatch else
  let tx := mkTransaction "" TRANSACTION_VERSION_V2 [] [mkTxOutput GENESIS_TREASURY GENESIS_SUPPLY] 0 0 in
  let? txid := compute_txid_v2 tx chain_id in
  Ok (tx <| tx_txid := txid |>).
Definition genesis_utxo_state_v2 (tx : Transaction) : UtxoState :=
  let outpoint := mkOutPoint (tx_txid tx) 0 in
  mkUtxoState {[ outpoint := mkUtxo outpoint GENESIS_TREASURY GENESIS_SUPPLY false 0 ]}
    {[ GENESIS_TREASURY := [outpoint] ]}.
Definition genesis_block_v2 (chain_id : string) : outcome Block :=
  let? tx := genesis_transaction_v2 chain_id in
  let? state_root := compute_state_root (genesis_utxo_state_v2 tx) in
  let? merkle_root := expect (compute_merkle_root [tx]) in
  let header := mkBlockHeader BLOCK_HEADER_VERSION_V2 [] 0 CONSENSUS_POW_LIMIT_BITS 0
                  merkle_root state_root 0 0 in
  let? hash := compute_block_hash_v2 header chain_id in
  Ok (mkBlock hash header [tx]).
Definition init_chain_state_v2 (chain_id : string) : outcome ChainState :=
  let? genesis := genesis_block_v2 chain_id in
  let? tx := expect (b_transactions genesis !! 0%nat) in
  let utxo := genesis_utxo_state_v2 tx in
  let? state_root := compute_state_root utxo in
  let genesis_hash := b_hash genesis in
  let? state := init_chain_state chain_id in
  Ok (state
    <| cs_dag ::= fun dag => dag
       <| d_blocks := {[ genesis_hash := genesis ]} |>
       <| d_tips := {[ genesis_hash ]} |>
       <| d_children := ∅ |>
       <| d_genesis_hash := genesis_hash |>
       <| d_best_height := 0 |>
       <| d_consensus_mode := Legacy |>
       <| d_selected_parents := {[ genesis_hash := None ]} |>
       <| d_selected_chain := [genesis_hash] |>
       <| d_selected_parent_policy := GhostdagInspired |>
       <| d_merge_set_k := DEFAULT_MERGE_SET_K |>
       <| d_merge_set_blues := {[ genesis_hash := [] ]} |>
       <| d_merge_set_reds := {[ genesis_hash := [] ]} |>
       <| d_blue_work := {[ genesis_hash := 0 ]} |>
       <| d_merge_set_diagnostics := ∅ |>
       <| d_ordered_dag := [genesis_hash] |>
       <| d_ordering_version := GHOSTDAG_V1_ORDERING_VERSION |>
       <| d_ordered_dag_rebuild_total := 0 |>
       <| d_ordered_dag_rebuild_failed_total := 0 |>
       <| d_ordered_dag_state_root := Some state_root |>
       <| d_ordered_dag_tip := Some genesis_hash |>
       <| d_ordered_dag_conflict_diagnostics := [] |> |>
    <| cs_utxo := utxo |>
    <| cs_mempool := Mempool_default |>).
End genesis_v2.

(** ** Metadata commit *)

(** An error is an [InvalidBlock] whose message prints the one it wraps. *)
Inductive AcceptanceV2Error :=
| AcceptPulse (e : PulseError)
| ClassificationFailed (e : GhostdagV1Error)
| SelectedTipFailed (e : SelectionV2Error)
| SelectedChainFailed (e : SelectionV2Error).
Abbreviation accepts := (result (option AcceptanceV2Error)).
Definition of_outcome {A} (r : outcome A) : accepts A := map_err (option_map AcceptPulse) r.
Definition rejects_block {A} (message : string) : accepts A := Err (Some (AcceptPulse (InvalidBlock message))).

Record ActivatedV2MetadataCommit := mkActivatedV2MetadataCommit {
  ac_classification : GhostdagV1Classification;
  ac_selected_tip : option Hash;
  ac_selected_chain : list Hash;
}.

Definition invalid_activation_identity (message : string) : PulseError :=
  InvalidBlock ("invalid activated-v2 metadata identity: " +:+ message).
Definition verify_activated_v2_metadata_identity (state : ChainState) (identity : ProtocolActivationIdentity)
  : result PulseError unit :=
  check map_err invalid_activation_identity (protocol_identity_validate identity) in
  if negb (bool_decide (pi_chain_id identity = cs_chain_id state)) then Err ChainIdMismatch else
  if negb (bool_decide (pi_genesis_hash identity = d_genesis_hash (cs_dag state)))
  then Err (invalid_activation_identity "genesis hash does not match chain state") else
  if negb (pi_transaction_protocol_version identity =? TRANSACTION_VERSION_V2)
     || negb (pi_block_header_protocol_version identity =? BLOCK_HEADER_VERSION_V2)
     || negb (bool_decide (pi_consensus_mode identity = PGhostdagV1))
     || negb (bool_decide (pi_dag_ordering_version identity = GHOSTDAG_V1_ORDERING_VERSION))
  then Err (invalid_activation_identity
              "identity is not the frozen ghostdag_v1 transaction/header/ordering tuple")
  else Ok tt.

Definition verify_activated_v2_genesis_metadata (state : ChainState) : result PulseError unit :=
  let genesis := d_genesis_hash (cs_dag state) in
  if negb (bool_decide (default [] (d_merge_set_blues (cs_dag state) !! genesis) = []))
  then Err (InvalidBlock "activated-v2 genesis merge-set blue metadata must be empty") else
  if negb (bool_decide (default [] (d_merge_set_reds (cs_dag state) !! genesis) = []))
  then Err (InvalidBlock "activated-v2 genesis merge-set red metadata must be empty")
  else Ok tt.

(** [entry(k).or_default()]. *)
Definition or_default (k : Hash) (m : gmap Hash (list Hash)) : gmap Hash (list Hash) :=
  match m !! k with Some _ => m | None => <[k := []]> m end.

Section acceptance_v2.
Context `{HashOrder, Crypto}.

Definition validate_metadata_candidate (block : Block) (state : ChainState)
  (identity : ProtocolActivationIdentity) : accepts GhostdagV1Classification :=
  if bool_decide (is_Some (d_blocks (cs_dag state) !! b_hash block))
  then Err (Some (AcceptPulse BlockAlreadyExists)) else
  check of_outcome (validate_block_header_v2_shape (b_header block) (pi_chain_id identity)) in
  if bool_decide (h_parents (b_header block) = [])
  then rejects_block "activated-v2 metadata candidate cannot introduce a parentless root after genesis" else
  let? computed_hash := of_outcome (compute_block_hash_v2 (b_header block) (pi_chain_id identity)) in
  if negb (bool_decide (computed_hash = b_hash block))
  then rejects_block ("activated-v2 block hash mismatch: supplied " +:+ b_hash block
         +:+ ", computed " +:+ computed_hash) else
  let? expected_height := try_fold (fun expected_height parent =>
      let? parent_block := ok_or (d_blocks (cs_dag state) !! parent)
                             (Some (AcceptPulse (InvalidBlock ("missing parent " +:+ parent)))) in
      Ok (Z.max expected_height (saturating_add 64 (h_height (b_header parent_block)) 1)))
    0 (h_parents (b_header block)) in
  if negb (h_height (b_header block) =? expected_height)
  then rejects_block ("activated-v2 invalid height " +:+ pretty (h_height (b_header block))
         +:+ ", expected " +:+ pretty expected_height) else
  let? classification := map_err (option_map ClassificationFailed) (classify_merge_set_v1 block state) in
  if negb (h_blue_score (b_header block) =? gc_blue_score classification)
  then rejects_block ("activated-v2 blue score mismatch: header " +:+ pretty (h_blue_score (b_header block))
         +:+ ", derived " +:+ pretty (gc_blue_score classification))
  else Ok classification.

(** The writes to the working copy before the selected tip is recomputed. *)
Definition insert_v2_metadata (block : Block) (classification : GhostdagV1Classification) (dag : DagState)
  : DagState :=
  let hash := b_hash block in
  let dag := dag <| d_merge_set_blues ::= or_default (d_genesis_hash dag) |>
                 <| d_merge_set_reds ::= or_default (d_genesis_hash dag) |> in
  let dag := foldl (push_child hash) dag (h_parents (b_header block)) in
  dag <| d_tips ::= fun tips => {[hash]} ∪ tips |>
      <| d_best_height ::= fun best => Z.max best (h_height (b_header block)) |>
      <| d_selected_parents ::= <[hash := gc_selected_parent classification]> |>
      <| d_merge_set_blues ::= <[hash := gc_blues classification]> |>
      <| d_merge_set_reds ::= <[hash := gc_reds classification]> |>
      <| d_blue_work ::= <[hash := gc_blue_work classification]> |>
      <| d_merge_set_k := GHOSTDAG_V1_K |>
      <| d_blocks ::= <[hash := block]> |>.

Definition commit_ghostdag_v1_metadata_for_activated_v2 (block : Block) (state : ChainState)
  (identity : ProtocolActivationIdentity) : accepts (ActivatedV2MetadataCommit * ChainState) :=
  check of_outcome (lift (verify_activated_v2_metadata_identity state identity)) in
  check of_outcome (lift (verify_activated_v2_genesis_metadata state)) in
  let? classification := validate_metadata_candidate block state identity in
  let working := state <| cs_dag ::= insert_v2_metadata block classification |> in
  let? selected_tip :=
    map_err (fun e => Some (SelectedTipFailed e)) (calculate_selected_tip_v1 working) in
  let? rebuilt := ok_or (rebuild_selected_chain_v1 working selected_tip) None in
  let? selected_chain := map_err (fun e => Some (SelectedChainFailed e)) rebuilt in
  let working := working <| cs_dag ::= fun dag => dag <| d_selected_chain := selected_chain |> |> in
  Ok (mkActivatedV2MetadataCommit classification selected_tip selected_chain, working).
End acceptance_v2.

(** ** Finality *)

Definition GHOSTDAG_V1_FINALITY_POLICY_VERSION : string := "ghostdag-v1-no-prune-before-task30-v1".

(** The detail of an ordering error is the error it prints. *)
Inductive FinalityV2Error :=
| FinalityOrdering (e : OrderingV2Error)
| MissingGenesisBlock (hash : Hash)
| SelectedChainDoesNotStartAtGenesis (expected : Hash) (observed : option Hash).

Record FinalityBoundaryV1 := mkFinalityBoundaryV1 {
  fb_policy_version : string;
  fb_protocol_identity : ProtocolActivationIdentity;
  fb_boundary_hash : Hash;
  fb_boundary_height : Z;
  fb_selected_tip : option Hash;
  fb_ordered_dag_digest : string;
  fb_pruning_enabled : bool;
  fb_prunable_blocks : list Hash;
  fb_required_context_blocks : list Hash;
  fb_reason : string;
}.

Definition derive_finality_boundary_v1 `{HashOrder, Crypto} (state : ChainState)
  : result (option FinalityV2Error) FinalityBoundaryV1 :=
  let genesis_hash := d_genesis_hash (cs_dag state) in
  let? genesis := ok_or (d_blocks (cs_dag state) !! genesis_hash) (Some (MissingGenesisBlock genesis_hash)) in
  if negb (bool_decide (head (d_selected_chain (cs_dag state)) = Some genesis_hash))
  then Err (Some (SelectedChainDoesNotStartAtGenesis genesis_hash (head (d_selected_chain (cs_dag state))))) else
  let? ordered := map_err (option_map FinalityOrdering) (derive_ordered_dag_v2 state) in
  Ok (mkFinalityBoundaryV1 GHOSTDAG_V1_FINALITY_POLICY_VERSION
        (activated_v2 (cs_chain_id state) (d_genesis_hash (cs_dag state)) GHOSTDAG_V1_ORDERING_VERSION)
        (d_genesis_hash (cs_dag state)) (h_height (b_header genesis)) (last (d_selected_chain (cs_dag state)))
        (od_digest ordered) false []
        (isort String.le (map fst (map_iter (d_blocks (cs_dag state)))))
        "historical pruning is disabled until Task 30 validates and freezes a stronger v2.4 finality/checkpoint policy").
