(* ===== verification/TxV3.v ===== *)
(** * Hybrid post-quantum transactions ([pqc.rs], [tx_v3.rs])

    The envelopes that carry an Ed25519 and an ML-DSA-65 component, and the
    canonical bytes, signing message and id of a version-3 transaction. *)

From stdpp Require Import pretty.
From S2P Require Import Prelude Encoding Crypto Types Merkle State Tx.
From Stdlib Require Strings.String.

(** ** Envelopes *)

(** [s.split(c)] on the bytes of [s]; [cur] is the current piece, reversed. *)
Fixpoint split_bytes_from (sep : Byte.byte) (cur l : bytes) : list bytes :=
  match l with
  | [] => [reverse cur]
  | c :: l' => if bool_decide (c = sep) then reverse cur :: split_bytes_from sep [] l'
               else split_bytes_from sep (c :: cur) l'
  end.
Definition split_str (sep : Byte.byte) (s : string) : list string :=
  map String.string_of_list_byte (split_bytes_from sep [] (str_bytes s)).

Definition PQC_ENVELOPE_VERSION_V1 : string := "pqc1".
Definition ED25519_PUBLIC_KEY_BYTES : Z := 32.
Definition ED25519_SIGNATURE_BYTES : Z := 64.
Definition ML_DSA_65_PUBLIC_KEY_BYTES : Z := 1952.
Definition ML_DSA_65_SIGNATURE_BYTES : Z := 3309.
Definition PQ_ADDRESS_DOMAIN_V1 : string := "PulseDAG:pq-address:v1".

Record HybridPublicKeyV1 := mkHybridPublicKeyV1 { hk_ed25519 : bytes; hk_ml_dsa_65 : bytes }.
Record HybridSignatureV1 := mkHybridSignatureV1 { hs_ed25519 : bytes; hs_ml_dsa_65 : bytes }.

Definition invalid_pqc_field (field reason : string) : PulseError :=
  InvalidTransaction ("invalid post-quantum " +:+ field +:+ ": " +:+ reason).

(** [parts.next()] four times. *)
Definition split_envelope (field envelope : string) : result PulseError (string * string) :=
  match split_str Byte.x3a envelope with
  | [] => Err (invalid_pqc_field field "missing version")
  | [_] => Err (invalid_pqc_field field "missing Ed25519 component")
  | [_; _] => Err (invalid_pqc_field field "missing ML-DSA-65 component")
  | [version; classical; post_quantum] =>
      if negb (bool_decide (version = PQC_ENVELOPE_VERSION_V1))
      then Err (invalid_pqc_field field "unsupported envelope version")
      else Ok (classical, post_quantum)
  | _ => Err (invalid_pqc_field field "unexpected extra component")
  end.

Section pqc.
Context `{Crypto}.

Definition decode_canonical_hex (field encoded : string) (expected_bytes : Z) : result PulseError bytes :=
  if negb (Z.of_nat (length (str_bytes encoded)) =? saturating_mul 64 expected_bytes 2)
  then Err (invalid_pqc_field field "unexpected encoded length") else
  if negb (forallb is_lower_hex (str_bytes encoded))
  then Err (invalid_pqc_field field "must use canonical lowercase hexadecimal") else
  ok_or (hex_decode encoded) (invalid_pqc_field field "invalid hexadecimal").

Definition encode_hybrid_public_key_v1 (ed25519 ml_dsa_65 : bytes) : result PulseError string :=
  if negb (Z.of_nat (length ed25519) =? ED25519_PUBLIC_KEY_BYTES)
  then Err (invalid_pqc_field "public key" "invalid Ed25519 public-key length") else
  if negb (Z.of_nat (length ml_dsa_65) =? ML_DSA_65_PUBLIC_KEY_BYTES)
  then Err (invalid_pqc_field "public key" "invalid ML-DSA-65 public-key length") else
  Ok (PQC_ENVELOPE_VERSION_V1 +:+ ":" +:+ hex_encode ed25519 +:+ ":" +:+ hex_encode ml_dsa_65).
Definition decode_hybrid_public_key_v1 (envelope : string) : result PulseError HybridPublicKeyV1 :=
  let? (ed25519, ml_dsa_65) := split_envelope "public key" envelope in
  let? ed25519 := decode_canonical_hex "Ed25519 public key" ed25519 ED25519_PUBLIC_KEY_BYTES in
  let? ml_dsa_65 := decode_canonical_hex "ML-DSA-65 public key" ml_dsa_65 ML_DSA_65_PUBLIC_KEY_BYTES in
  Ok (mkHybridPublicKeyV1 ed25519 ml_dsa_65).
Definition encode_hybrid_signature_v1 (ed25519 ml_dsa_65 : bytes) : result PulseError string :=
  if negb (Z.of_nat (length ed25519) =? ED25519_SIGNATURE_BYTES)
  then Err (invalid_pqc_field "signature" "invalid Ed25519 signature length") else
  if negb (Z.of_nat (length ml_dsa_65) =? ML_DSA_65_SIGNATURE_BYTES)
  then Err (invalid_pqc_field "signature" "invalid ML-DSA-65 signature length") else
  Ok (PQC_ENVELOPE_VERSION_V1 +:+ ":" +:+ hex_encode ed25519 +:+ ":" +:+ hex_encode ml_dsa_65).
Definition decode_hybrid_signature_v1 (envelope : string) : result PulseError HybridSignatureV1 :=
  let? (ed25519, ml_dsa_65) := split_envelope "signature" envelope in
  let? ed25519 := decode_canonical_hex "Ed25519 signature" ed25519 ED25519_SIGNATURE_BYTES in
  let? ml_dsa_65 := decode_canonical_hex "ML-DSA-65 signature" ml_dsa_65 ML_DSA_65_SIGNATURE_BYTES in
  Ok (mkHybridSignatureV1 ed25519 ml_dsa_65).

(** [sha3_256] is [Sha3_256::digest] of the crate [sha3]; the two lengths are
    fixed by the decoder. *)
Definition address_from_hybrid_public_key_v1 (sha3_256 : bytes -> bytes) (envelope : string)
  : result PulseError Address :=
  let? keys := decode_hybrid_public_key_v1 envelope in
  Ok ("pulseq1" +:+ hex_encode (sha3_256
    (str_bytes PQ_ADDRESS_DOMAIN_V1
     ++ le_bytes 4 (Z.of_nat (length (hk_ed25519 keys))) ++ hk_ed25519 keys
     ++ le_bytes 4 (Z.of_nat (length (hk_ml_dsa_65 keys))) ++ hk_ml_dsa_65 keys))).

(** ** Transactions *)

Definition TRANSACTION_VERSION_V3 : Z := 3.
Definition UNSIGNED_TX_V3_DOMAIN : string := "PulseDAG:unsigned-tx:v3:pqc1".
Definition TX_V3_DOMAIN : string := "PulseDAG:tx:v3:pqc1".

Definition validate_v3_domain (tx : Transaction) (chain_id : string) : result PulseError unit :=
  if negb (tx_version tx =? TRANSACTION_VERSION_V3) then
    Err (InvalidTransaction ("transaction/signing v3 requires version "
           +:+ pretty TRANSACTION_VERSION_V3 +:+ ", got " +:+ pretty (tx_version tx)))
  else if bool_decide (chain_id = "") then Err ChainIdMismatch
  else Ok tt.
Definition validate_v3_public_key_envelopes (tx : Transaction) : result PulseError unit :=
  try_fold (fun (_ : unit) input =>
    check decode_hybrid_public_key_v1 (in_public_key input) in Ok tt) tt (tx_inputs tx).
Definition validate_v3_signature_envelopes (tx : Transaction) : result PulseError unit :=
  try_fold (fun (_ : unit) input =>
    check decode_hybrid_signature_v1 (in_signature input) in Ok tt) tt (tx_inputs tx).

Definition canonical_unsigned_transaction_bytes_v3 (tx : Transaction) (chain_id : string) : outcome bytes :=
  check lift (validate_v3_domain tx chain_id) in
  check lift (validate_v3_public_key_envelopes tx) in
  expect (emit [encode_len_prefixed_bytes (str_bytes UNSIGNED_TX_V3_DOMAIN);
                encode_len_prefixed_str chain_id;
                fixed 4 (tx_version tx);
                encode_vec unsigned_tx_input_bytes (tx_inputs tx);
                encode_vec canonical_tx_output_bytes (tx_outputs tx);
                fixed 8 (tx_fee tx);
                fixed 8 (tx_nonce tx)]).
Definition canonical_transaction_bytes_v3 (tx : Transaction) (chain_id : string) : outcome bytes :=
  check lift (validate_v3_domain tx chain_id) in
  check lift (validate_v3_public_key_envelopes tx) in
  check lift (validate_v3_signature_envelopes tx) in
  expect (emit [encode_len_prefixed_bytes (str_bytes TX_V3_DOMAIN);
                encode_len_prefixed_str chain_id;
                fixed 4 (tx_version tx);
                encode_vec canonical_tx_input_bytes (tx_inputs tx);
                encode_vec canonical_tx_output_bytes (tx_outputs tx);
                fixed 8 (tx_fee tx);
                fixed 8 (tx_nonce tx)]).
Definition signing_message_v3 (tx : Transaction) (chain_id : string) : outcome bytes :=
  canonical_unsigned_transaction_bytes_v3 tx chain_id.
Definition compute_txid_v3 (tx : Transaction) (chain_id : string) : outcome Hash :=
  let? b := canonical_transaction_bytes_v3 tx chain_id in Ok (hex_encode (sha256 b)).
End pqc.

(** ** Envelopes round-trip *)

Lemma split_bytes_piece sep cur piece rest :
  sep ∉ piece ->
  split_bytes_from sep cur (piece ++ sep :: rest) = (reverse cur ++ piece) :: split_bytes_from sep [] rest.
Proof.
  revert cur. induction piece as [|c piece IH]; intros cur Hn; cbn.
  - rewrite bool_decide_eq_true_2 by done. by rewrite app_nil_r.
  - rewrite bool_decide_eq_false_2 by set_solver. rewrite IH by set_solver. by rewrite reverse_cons, <- app_assoc.
Qed.
Lemma split_bytes_last sep cur piece :
  sep ∉ piece -> split_bytes_from sep cur piece = [reverse cur ++ piece].
Proof.
  revert cur. induction piece as [|c piece IH]; intros cur Hn; cbn; [by rewrite app_nil_r|].
  rewrite bool_decide_eq_false_2 by set_solver. rewrite IH by set_solver. by rewrite reverse_cons, <- app_assoc.
Qed.

Section pqc_roundtrip.
Context `{CryptoLaws}.

Lemma hex_no_colon b : Byte.x3a ∉ str_bytes (hex_encode b).
Proof.
  pose proof (hex_encode_lower b) as Hl. rewrite forallb_forall in Hl.
  intros Hin%list_elem_of_In. by apply Hl in Hin.
Qed.

Lemma str_bytes_append s t : str_bytes (s +:+ t) = str_bytes s ++ str_bytes t.
Proof.
  unfold str_bytes, String.list_byte_of_string. induction s as [|c s IH]; [done|].
  change (String.String c s +:+ t) with (String.String c (s +:+ t)). cbn [String.list_ascii_of_string map app]. by rewrite IH.
Qed.
Lemma string_of_str_bytes s : String.string_of_list_byte (str_bytes s) = s.
Proof. apply String.string_of_list_byte_of_string. Qed.

Lemma split_envelope_encoded field a b :
  split_envelope field (PQC_ENVELOPE_VERSION_V1 +:+ ":" +:+ hex_encode a +:+ ":" +:+ hex_encode b)
  = Ok (hex_encode a, hex_encode b).
Proof.
  unfold split_envelope, split_str. rewrite !str_bytes_append.
  change (str_bytes ":") with [Byte.x3a]. cbn [app].
  rewrite (split_bytes_piece Byte.x3a [] (str_bytes PQC_ENVELOPE_VERSION_V1)) by (by_decide).
  rewrite split_bytes_piece by apply hex_no_colon. rewrite split_bytes_last by apply hex_no_colon.
  cbn [map]. rewrite !app_nil_l, !string_of_str_bytes. cbn [reverse].
  by rewrite bool_decide_eq_true_2 by done.
Qed.
Lemma decode_canonical_hex_encoded field b n :
  Z.of_nat (length b) = n -> 2 * n <= u64_max -> decode_canonical_hex field (hex_encode b) n = Ok b.
Proof.
  intros <- Hn. unfold decode_canonical_hex. rewrite hex_encode_length, hex_encode_lower, hex_decode_encode.
  unfold saturating_mul. by rewrite (proj2 (Z.eqb_eq _ _)) by lia.
Qed.

(** A hybrid key or signature envelope decodes to the components it was made of. *)
Lemma hybrid_public_key_roundtrip a b envelope :
  encode_hybrid_public_key_v1 a b = Ok envelope ->
  decode_hybrid_public_key_v1 envelope = Ok (mkHybridPublicKeyV1 a b).
Proof.
  unfold encode_hybrid_public_key_v1, decode_hybrid_public_key_v1. intros He. inv_ok. bool_props.
  rewrite split_envelope_encoded. by rewrite !decode_canonical_hex_encoded.
Qed.
Lemma hybrid_signature_roundtrip a b envelope :
  encode_hybrid_signature_v1 a b = Ok envelope ->
  decode_hybrid_signature_v1 envelope = Ok (mkHybridSignatureV1 a b).
Proof.
  unfold encode_hybrid_signature_v1, decode_hybrid_signature_v1. intros He. inv_ok. bool_props.
  rewrite split_envelope_encoded. by rewrite !decode_canonical_hex_encoded.
Qed.
End pqc_roundtrip.

(** ** Version-3 ids bind the transaction and the chain *)

Section v3_binding.
Context `{Crypto}.

Lemma v3_bytes_Ok tx chain_id b :
  canonical_transaction_bytes_v3 tx chain_id = Ok b ->
  tx_version tx = TRANSACTION_VERSION_V3 /\ chain_id <> "" /\
  validate_v3_public_key_envelopes tx = Ok tt /\ validate_v3_signature_envelopes tx = Ok tt /\
  emit [encode_len_prefixed_bytes (str_bytes TX_V3_DOMAIN); encode_len_prefixed_str chain_id;
        fixed 4 (tx_version tx); encode_vec canonical_tx_input_bytes (tx_inputs tx);
        encode_vec canonical_tx_output_bytes (tx_outputs tx); fixed 8 (tx_fee tx);
        fixed 8 (tx_nonce tx)] = Some b.
Proof.
  unfold canonical_transaction_bytes_v3, validate_v3_domain. intros Hb.
  destruct (Z.eqb_spec (tx_version tx) TRANSACTION_VERSION_V3); cbn [negb] in Hb; [|done].
  destruct (bool_decide_reflect (chain_id = "")); [done|]. cbn [lift map_err] in Hb.
  destruct (validate_v3_public_key_envelopes tx) as [[]|]; [|done].
  destruct (validate_v3_signature_envelopes tx) as [[]|]; [|done]. cbn [lift map_err] in Hb.
  apply ok_or_Ok in Hb. by split_and!.
Qed.
Lemma canonical_transaction_bytes_v3_inj tx1 tx2 c1 c2 b :
  tx_typed tx1 -> tx_typed tx2 ->
  canonical_transaction_bytes_v3 tx1 c1 = Ok b -> canonical_transaction_bytes_v3 tx2 c2 = Ok b ->
  tx_body tx1 = tx_body tx2 /\ c1 = c2.
Proof.
  intros Ht1 Ht2 (_ & _ & _ & _ & H1)%v3_bytes_Ok (_ & _ & _ & _ & H2)%v3_bytes_Ok.
  assert (Heq : b ++ [] = b ++ []) by done. revert H1 H2 Heq.
  generalize b at 1 3 as b1. intros b1 H1 H2 Heq.
  peel (fun _ : bytes => True) encode_len_prefixed_bytes.
  peel (fun _ : string => True) encode_len_prefixed_str.
  split; [by eapply tx_fields_inj|done].
Qed.
End v3_binding.
