(* ===== verification/MempoolV3.v ===== *)
(** * Mempool policy, version 3 ([mempool_v3.rs])

    The fee policy and its fingerprint, canonical transaction sizes, fee rates, and
    the fee estimate of the current mempool.

    [Err None] is a panic of a serializer. *)

From stdpp Require Import pretty.
From S2P Require Import Prelude Encoding Crypto Types Merkle State Tx TxV3.

Definition MEMPOOL_POLICY_V3_VERSION : Z := 1.
Definition MEMPOOL_FEE_ESTIMATE_V3_VERSION : Z := 1.
Definition MEMPOOL_POLICY_V3_FINGERPRINT_DOMAIN : string := "PulseDAG:mempool-policy:v3".
Definition FEE_RATE_SCALE_BYTES_V3 : Z := 1000.
Definition FEE_ESTIMATE_PRESSURE_SCALE_BPS_V3 : Z := 10000.
Definition MEMPOOL_POLICY_V3_COMPAT_MIN_RELAY_FEE_RATE : Z := 0.
Definition MEMPOOL_POLICY_V3_COMPAT_MAX_TRANSACTION_FEE : Z := u64_max.
Definition MEMPOOL_POLICY_V3_COMPAT_MAX_TRANSACTIONS : Z := 4096.
Definition MEMPOOL_POLICY_V3_PRODUCTION_MIN_RELAY_FEE_RATE : Z := 1.
Definition MEMPOOL_POLICY_V3_PRODUCTION_MAX_TRANSACTION_FEE : Z := 100000000.
Definition MEMPOOL_POLICY_V3_PRODUCTION_MAX_TRANSACTIONS : Z := MEMPOOL_POLICY_V3_COMPAT_MAX_TRANSACTIONS.

Record MempoolPolicyV3 := mkMempoolPolicyV3 {
  pol_version : Z;
  pol_min_relay_fee_rate_per_kb : Z;
  pol_max_transaction_fee : Z;
  pol_max_transactions : Z;
  pol_replacement_enabled : bool;
}.
Definition compatibility_default : MempoolPolicyV3 :=
  mkMempoolPolicyV3 MEMPOOL_POLICY_V3_VERSION MEMPOOL_POLICY_V3_COMPAT_MIN_RELAY_FEE_RATE
    MEMPOOL_POLICY_V3_COMPAT_MAX_TRANSACTION_FEE MEMPOOL_POLICY_V3_COMPAT_MAX_TRANSACTIONS false.
Definition policy_production_default : MempoolPolicyV3 :=
  mkMempoolPolicyV3 MEMPOOL_POLICY_V3_VERSION MEMPOOL_POLICY_V3_PRODUCTION_MIN_RELAY_FEE_RATE
    MEMPOOL_POLICY_V3_PRODUCTION_MAX_TRANSACTION_FEE MEMPOOL_POLICY_V3_PRODUCTION_MAX_TRANSACTIONS false.

Record FeeRateV3 := mkFeeRateV3 {
  fr_fee : Z;
  fr_canonical_size_bytes : Z;
  fr_fee_per_kb : Z;
}.
Record MempoolFeeEstimateV3 := mkMempoolFeeEstimateV3 {
  fe_version : Z;
  fe_policy_fingerprint : string;
  fe_min_relay_fee_rate_per_kb : Z;
  fe_economy_fee_rate_per_kb : Z;
  fe_standard_fee_rate_per_kb : Z;
  fe_priority_fee_rate_per_kb : Z;
  fe_observed_min_fee_rate_per_kb : option Z;
  fe_observed_max_fee_rate_per_kb : option Z;
  fe_mempool_transactions : Z;
  fe_effective_max_transactions : Z;
  fe_pressure_bps : Z;
}.

Inductive MempoolPolicyRejectionV3 :=
| BelowMinimumRelayFeeRate
| AboveMaximumTransactionFee
| CapacityBackpressure
| ReplacementNotAuthorized
| PolicyIdentityMismatch.
Definition MempoolPolicyRejectionV3_as_code (r : MempoolPolicyRejectionV3) : string :=
  match r with
  | BelowMinimumRelayFeeRate => "MEMPOOL_V3_BELOW_MIN_RELAY_FEE_RATE"
  | AboveMaximumTransactionFee => "MEMPOOL_V3_ABOVE_MAX_TRANSACTION_FEE"
  | CapacityBackpressure => "MEMPOOL_V3_CAPACITY_BACKPRESSURE"
  | ReplacementNotAuthorized => "MEMPOOL_V3_REPLACEMENT_NOT_AUTHORIZED"
  | PolicyIdentityMismatch => "MEMPOOL_V3_POLICY_IDENTITY_MISMATCH"
  end.
Inductive MempoolPolicyAssessmentErrorV3 :=
| PolicyError (r : MempoolPolicyRejectionV3)
| CanonicalTransaction (e : PulseError)
| CanonicalSizeOverflow.
Abbreviation assessment := (result (option MempoolPolicyAssessmentErrorV3)).
Definition rejects_policy {A} (r : MempoolPolicyRejectionV3) : assessment A := Err (Some (PolicyError r)).

(** [values.collect::<Result<Vec<_>, _>>()]. *)
Definition collect_results {E A B} (f : A -> result E B) (l : list A) : result E (list B) :=
  try_fold (fun acc x => let? y := f x in Ok (acc ++ [y])) [] l.

Definition nearest_rank_fee_rate_v3 (sorted_fee_rates : list Z) (numerator denominator : Z) : option Z :=
  match sorted_fee_rates with
  | [] => Some 0
  | _ =>
      let count := Z.of_nat (length sorted_fee_rates) in
      let rank := saturating_add 128 (saturating_mul 128 count numerator) (saturating_sub denominator 1)
                  / denominator in
      let index := Z.min (saturating_sub rank 1) (saturating_sub count 1) in
      sorted_fee_rates !! Z.to_nat index
  end.
Definition fee_estimate_pressure_bps_v3 (used capacity : Z) : Z :=
  if capacity =? 0 then (if used =? 0 then 0 else FEE_ESTIMATE_PRESSURE_SCALE_BPS_V3) else
  let scaled := saturating_mul 128 used FEE_ESTIMATE_PRESSURE_SCALE_BPS_V3 / capacity in
  default FEE_ESTIMATE_PRESSURE_SCALE_BPS_V3 (try_into 64 (Z.min scaled FEE_ESTIMATE_PRESSURE_SCALE_BPS_V3)).
Definition admission_order_key_v3 (first_seen : option Z) (txid : string) : Z * string :=
  (default u64_max first_seen, txid).

Section mempool_v3.
Context `{HashOrder, Crypto}.

Definition policy_fingerprint (p : MempoolPolicyV3) : string :=
  hex_encode (sha256 (str_bytes MEMPOOL_POLICY_V3_FINGERPRINT_DOMAIN
    ++ le_bytes 4 (pol_version p) ++ le_bytes 8 (pol_min_relay_fee_rate_per_kb p)
    ++ le_bytes 8 (pol_max_transaction_fee p) ++ le_bytes 8 (pol_max_transactions p)
    ++ [if pol_replacement_enabled p then Byte.x01 else Byte.x00])).
Definition validate_identity (p : MempoolPolicyV3) (expected_fingerprint : string)
  : result MempoolPolicyRejectionV3 unit :=
  if negb (pol_version p =? MEMPOOL_POLICY_V3_VERSION)
     || negb (bool_decide (policy_fingerprint p = expected_fingerprint))
  then Err PolicyIdentityMismatch else Ok tt.

Definition canonical_transaction_size_for_mempool_v3 (tx : Transaction) (chain_id : string) : assessment Z :=
  let? bytes := map_err (option_map CanonicalTransaction)
    (if tx_version tx =? TRANSACTION_VERSION_V1 then expect (canonical_transaction_bytes tx)
     else if tx_version tx =? TRANSACTION_VERSION_V2 then canonical_transaction_bytes_v2 tx chain_id
     else if tx_version tx =? TRANSACTION_VERSION_V3 then canonical_transaction_bytes_v3 tx chain_id
     else fails (InvalidTransaction
            ("mempool v3 canonical-size policy does not support transaction version "
             +:+ pretty (tx_version tx)))) in
  ok_or (try_into 64 (Z.of_nat (length bytes))) (Some CanonicalSizeOverflow).

(** The product fits [u128]; the division panics on zero. *)
Definition fee_rate_v3 (tx : Transaction) (chain_id : string) : assessment FeeRateV3 :=
  let? canonical_size_bytes := canonical_transaction_size_for_mempool_v3 tx chain_id in
  if canonical_size_bytes =? 0 then Err None else
  let scaled_fee := tx_fee tx * FEE_RATE_SCALE_BYTES_V3 in
  Ok (mkFeeRateV3 (tx_fee tx) canonical_size_bytes (scaled_fee / canonical_size_bytes)).

Definition assess_transaction (p : MempoolPolicyV3) (tx : Transaction) (chain_id : string)
  (current_transactions : Z) (conflicts_with_mempool : bool) : assessment FeeRateV3 :=
  if negb (pol_version p =? MEMPOOL_POLICY_V3_VERSION) then rejects_policy PolicyIdentityMismatch else
  if pol_max_transactions p <=? current_transactions then rejects_policy CapacityBackpressure else
  if pol_max_transaction_fee p <? tx_fee tx then rejects_policy AboveMaximumTransactionFee else
  if conflicts_with_mempool then rejects_policy ReplacementNotAuthorized else
  let? fee_rate := fee_rate_v3 tx chain_id in
  if fr_fee_per_kb fee_rate <? pol_min_relay_fee_rate_per_kb p then rejects_policy BelowMinimumRelayFeeRate
  else Ok fee_rate.

Definition quantile_or_floor (fee_rates : list Z) (relay_floor numerator denominator : Z) : assessment Z :=
  match fee_rates with
  | [] => Ok relay_floor
  | _ => let? q := ok_or (nearest_rank_fee_rate_v3 fee_rates numerator denominator) None in
         Ok (Z.max q relay_floor)
  end.
Definition estimate_mempool_fee_rates_v3 (state : ChainState) (policy : MempoolPolicyV3)
  : assessment MempoolFeeEstimateV3 :=
  if negb (pol_version policy =? MEMPOOL_POLICY_V3_VERSION) then rejects_policy PolicyIdentityMismatch else
  let? fee_rates := collect_results (fun p : Hash * Transaction =>
      let? rate := fee_rate_v3 p.2 (cs_chain_id state) in Ok (fr_fee_per_kb rate))
    (map_iter (mp_transactions (cs_mempool state))) in
  let fee_rates := isort Z.le fee_rates in
  let relay_floor := pol_min_relay_fee_rate_per_kb policy in
  let mempool_transactions :=
    default u64_max (try_into 64 (Z.of_nat (size (mp_transactions (cs_mempool state))))) in
  let live_max_transactions := default u64_max (try_into 64 (mp_max_transactions (cs_mempool state))) in
  let effective_max_transactions := Z.min (pol_max_transactions policy) live_max_transactions in
  let? economy := quantile_or_floor fee_rates relay_floor 1 4 in
  let? standard := quantile_or_floor fee_rates relay_floor 1 2 in
  let? priority := quantile_or_floor fee_rates relay_floor 9 10 in
  Ok (mkMempoolFeeEstimateV3 MEMPOOL_FEE_ESTIMATE_V3_VERSION (policy_fingerprint policy) relay_floor
        economy standard priority (head fee_rates) (last fee_rates) mempool_transactions
        effective_max_transactions
        (fee_estimate_pressure_bps_v3 mempool_transactions effective_max_transactions)).
End mempool_v3.

(** ** Fee estimates *)

(** [⌈count * numerator / denominator⌉ - 1]. *)
Definition rank_index (count : nat) (numerator denominator : Z) : nat :=
  Z.to_nat ((Z.of_nat count * numerator + denominator - 1) / denominator - 1).

Lemma rank_index_lt count numerator denominator :
  (0 < count)%nat -> 0 < numerator <= denominator -> (rank_index count numerator denominator < count)%nat.
Proof.
  intros Hc Hn. unfold rank_index.
  assert ((Z.of_nat count * numerator + denominator - 1) / denominator < Z.of_nat count + 1); [|lia].
  apply Z.div_lt_upper_bound; nia.
Qed.
Lemma rank_index_mono count n1 d1 n2 d2 :
  0 < d1 -> 0 < d2 -> 0 < n1 -> n1 * d2 <= n2 * d1 ->
  (rank_index count n1 d1 <= rank_index count n2 d2)%nat.
Proof.
  intros H1 H2 Hn1 Hle. unfold rank_index.
  enough ((Z.of_nat count * n1 + d1 - 1) / d1 <= (Z.of_nat count * n2 + d2 - 1) / d2) by lia.
  set (q := (Z.of_nat count * n2 + d2 - 1) / d2).
  assert (Hq : Z.of_nat count * n2 <= q * d2).
  { unfold q. pose proof (Z.div_mod (Z.of_nat count * n2 + d2 - 1) d2 ltac:(lia)).
    pose proof (Z.mod_pos_bound (Z.of_nat count * n2 + d2 - 1) d2 ltac:(lia)). lia. }
  assert (Z.of_nat count * n1 <= q * d1) by nia.
  cut ((Z.of_nat count * n1 + d1 - 1) / d1 < q + 1); [lia|]. apply Z.div_lt_upper_bound; lia.
Qed.

Lemma nearest_rank_lookup l numerator denominator :
  l <> [] -> 0 < numerator <= denominator -> denominator <= 100 -> Z.of_nat (length l) <= u64_max ->
  nearest_rank_fee_rate_v3 l numerator denominator = l !! rank_index (length l) numerator denominator.
Proof.
  intros Hl Hn Hd Hlen. unfold nearest_rank_fee_rate_v3. destruct l as [|x l]; [done|]. clear Hl.
  set (n := length (x :: l)) in *. assert (Hn0 : (0 < n)%nat) by (unfold n; cbn; lia).
  assert (Hm : saturating_mul 128 (Z.of_nat n) numerator = Z.of_nat n * numerator).
  { unfold saturating_mul, u_max in *. apply Z.min_l.
    transitivity ((2 ^ 64) * 100); [|lia]. apply Z.mul_le_mono_nonneg; lia. }
  assert (Ha : saturating_add 128 (Z.of_nat n * numerator) (saturating_sub denominator 1)
               = Z.of_nat n * numerator + denominator - 1).
  { unfold saturating_add, saturating_sub, u_max in *. rewrite Z.max_l by lia.
    rewrite Z.min_l; [lia|]. assert (Z.of_nat n * numerator <= (2 ^ 64) * 100); [|lia].
    apply Z.mul_le_mono_nonneg; lia. }
  rewrite Hm, Ha. f_equal. pose proof (rank_index_lt n numerator denominator Hn0 Hn) as Hlt.
  unfold rank_index in *. set (q := (Z.of_nat n * numerator + denominator - 1) / denominator) in *.
  assert (1 <= q) by (unfold q; apply Z.div_le_lower_bound; nia).
  unfold saturating_sub. lia.
Qed.

Lemma ssorted_lookup (l : list Z) i j x y :
  StronglySorted Z.le l -> (i <= j)%nat -> l !! i = Some x -> l !! j = Some y -> x <= y.
Proof.
  intros Hs. revert i j. induction Hs as [|z l Hs IH Hall]; intros i j Hij Hi Hj; [done|].
  destruct j as [|j]; [assert (i = 0%nat) as -> by lia; cbn in *; simplify_eq; lia|].
  destruct i as [|i]; cbn in *; [|by apply (IH i j); [lia|..]].
  simplify_eq. rewrite Forall_forall in Hall. apply Hall. by eapply list_elem_of_lookup_2.
Qed.

Section estimate.
Context `{HashOrder, Crypto}.

Lemma canonical_size_pos tx chain_id n : canonical_transaction_size_for_mempool_v3 tx chain_id = Ok n -> 0 < n.
Proof.
  unfold canonical_transaction_size_for_mempool_v3. intros Hs.
  destruct (map_err _ _) as [b|] eqn:Hb; [|done]. apply map_err_Ok in Hb. apply ok_or_Ok, try_into_Some in Hs as [-> _].
  enough (b <> []) by (destruct b; [done|cbn; lia]). intros ->.
  assert (Hpre : forall d l, emit (encode_len_prefixed_bytes (str_bytes d) :: l) = Some [] -> False).
  { intros d l He. cbn [emit] in He. unfold encode_len_prefixed_bytes in He.
    destruct (_ <=? _) in He; [|done]. destruct (emit l); [|done]. by injection He as He. }
  destruct (_ =? TRANSACTION_VERSION_V1); [|destruct (_ =? TRANSACTION_VERSION_V2);
    [|destruct (_ =? TRANSACTION_VERSION_V3)]].
  - apply ok_or_Ok in Hb. by apply (Hpre _ _ Hb).
  - apply v2_Ok in Hb as (_ & _ & Hb). by apply (Hpre _ _ Hb).
  - apply v3_bytes_Ok in Hb as (_ & _ & _ & _ & Hb). by apply (Hpre _ _ Hb).
  - done.
Qed.

Lemma collect_results_Ok {E A B} (f : A -> result E B) l r :
  collect_results f l = Ok r <-> Forall2 (fun x y => f x = Ok y) l r.
Proof.
  unfold collect_results.
  cut (forall acc, try_fold (fun acc x => let? y := f x in Ok (acc ++ [y])) acc l = Ok r <->
    exists r', r = acc ++ r' /\ Forall2 (fun x y => f x = Ok y) l r').
  { intros Hc. rewrite (Hc []). cbn. naive_solver. }
  induction l as [|x l IH]; intros acc; cbn.
  - split; [intros [= <-]; exists []; by rewrite app_nil_r|]. intros (r' & -> & Hr%Forall2_nil_inv_l). subst.
    by rewrite app_nil_r.
  - destruct (f x) as [y|e] eqn:Hf.
    + rewrite IH. split.
      * intros (r' & -> & Hr). exists (y :: r'). rewrite <- app_assoc. by split; [|constructor].
      * intros (r' & -> & Hr). inversion Hr as [|? y' ? r'' Hy Hr']; subst. exists r''.
        rewrite Hf in Hy. injection Hy as ->. by rewrite <- app_assoc.
    + split; [done|]. intros (r' & -> & Hr). inversion Hr; subst. congruence.
Qed.

(** What the estimate of a mempool says. *)
Record fee_estimate_ok (state : ChainState) (policy : MempoolPolicyV3) (rates : list Z)
  (e : MempoolFeeEstimateV3) : Prop := {
  fo_sorted : StronglySorted Z.le rates;
  fo_rates : exists rs, Forall2 (fun (p : Hash * Transaction) r => exists n,
      canonical_transaction_size_for_mempool_v3 p.2 (cs_chain_id state) = Ok n /\
      r = tx_fee p.2 * 1000 / n) (map_to_list (mp_transactions (cs_mempool state))) rs /\ rates ≡ₚ rs;
  fo_empty : rates = [] -> fe_economy_fee_rate_per_kb e = pol_min_relay_fee_rate_per_kb policy /\
    fe_priority_fee_rate_per_kb e = pol_min_relay_fee_rate_per_kb policy;
  fo_economy : rates <> [] -> exists q, rates !! rank_index (length rates) 1 4 = Some q /\
    fe_economy_fee_rate_per_kb e = Z.max q (pol_min_relay_fee_rate_per_kb policy);
  fo_standard : rates <> [] -> exists q, rates !! rank_index (length rates) 1 2 = Some q /\
    fe_standard_fee_rate_per_kb e = Z.max q (pol_min_relay_fee_rate_per_kb policy);
  fo_priority : rates <> [] -> exists q, rates !! rank_index (length rates) 9 10 = Some q /\
    fe_priority_fee_rate_per_kb e = Z.max q (pol_min_relay_fee_rate_per_kb policy);
  fo_monotone : pol_min_relay_fee_rate_per_kb policy <= fe_economy_fee_rate_per_kb e /\
    fe_economy_fee_rate_per_kb e <= fe_standard_fee_rate_per_kb e <= fe_priority_fee_rate_per_kb e;
  fo_observed : fe_observed_min_fee_rate_per_kb e = head rates /\ fe_observed_max_fee_rate_per_kb e = last rates;
  fo_pressure : 0 <= fe_pressure_bps e <= 10000;
}.

Lemma fee_rate_Ok tx chain_id r :
  fee_rate_v3 tx chain_id = Ok r <->
  exists n, canonical_transaction_size_for_mempool_v3 tx chain_id = Ok n /\
    r = mkFeeRateV3 (tx_fee tx) n (tx_fee tx * 1000 / n).
Proof.
  unfold fee_rate_v3. destruct (canonical_transaction_size_for_mempool_v3 tx chain_id) as [n|] eqn:Hn; [|naive_solver].
  apply canonical_size_pos in Hn. rewrite (proj2 (Z.eqb_neq _ _)) by lia. cbv zeta. unfold FEE_RATE_SCALE_BYTES_V3.
  naive_solver.
Qed.

Lemma pressure_bps_range used capacity :
  0 <= used -> 0 <= capacity -> 0 <= fee_estimate_pressure_bps_v3 used capacity <= 10000.
Proof.
  intros Hu Hc. unfold fee_estimate_pressure_bps_v3, FEE_ESTIMATE_PRESSURE_SCALE_BPS_V3.
  destruct (Z.eqb_spec capacity 0); [destruct (used =? 0); lia|].
  assert (0 <= saturating_mul 128 used 10000 / capacity).
  { apply Z.div_pos; [|lia]. unfold saturating_mul, u_max. lia. }
  unfold try_into. case_match; cbn; lia.
Qed.

Lemma quantile_Ok rates floor numerator denominator v :
  rates <> [] -> 0 < numerator <= denominator -> denominator <= 100 -> Z.of_nat (length rates) <= u64_max ->
  quantile_or_floor rates floor numerator denominator = Ok v ->
  exists q, rates !! rank_index (length rates) numerator denominator = Some q /\ v = Z.max q floor.
Proof.
  intros Hne Hn Hd Hl. unfold quantile_or_floor. rewrite nearest_rank_lookup by done.
  destruct rates; [done|]. destruct (_ !! _) eqn:E; cbn; [|done]. intros [= <-]. eauto.
Qed.

(** The estimate reads the sorted fee rates of the mempool at the nearest ranks of
    the quartile, the median and the ninth decile, never below the relay floor. *)
Lemma estimate_spec state policy e :
  0 <= pol_max_transactions policy -> 0 <= mp_max_transactions (cs_mempool state) ->
  Z.of_nat (size (mp_transactions (cs_mempool state))) <= u64_max ->
  estimate_mempool_fee_rates_v3 state policy = Ok e -> exists rates, fee_estimate_ok state policy rates e.
Proof.
  intros Hpol Hmax Hsize. unfold estimate_mempool_fee_rates_v3. destruct (negb _); [done|].
  destruct (collect_results _ _) as [rs|] eqn:Hrs; [|done]. apply collect_results_Ok in Hrs.
  set (rates := isort Z.le rs). set (floor := pol_min_relay_fee_rate_per_kb policy). cbv zeta. intros He.
  destruct (quantile_or_floor rates floor 1 4) as [q1|] eqn:H1; [|done].
  destruct (quantile_or_floor rates floor 1 2) as [q2|] eqn:H2; [|done].
  destruct (quantile_or_floor rates floor 9 10) as [q3|] eqn:H3; [|done]. injection He as <-.
  assert (Hlen : length rates = size (mp_transactions (cs_mempool state))).
  { unfold rates. rewrite isort_perm, <- (Forall2_length _ _ _ Hrs), map_iter_perm. apply length_map_to_list. }
  assert (Hss : StronglySorted Z.le rates) by (apply isort_ssorted; apply _).
  exists rates. split; cbn; try done.
  - destruct (Permutation_Forall2 (map_iter_perm _) Hrs) as (rs' & Hp & Hrs').
    exists rs'. split; [|unfold rates; by rewrite isort_perm, Hp].
    eapply Forall2_impl; [exact Hrs'|]. intros [k tx] r Hr. cbn in *.
    destruct (fee_rate_v3 tx (cs_chain_id state)) as [f|] eqn:Hf; [|done].
    apply fee_rate_Ok in Hf as (n & Hn & ->). cbn in Hr. injection Hr as <-. eauto.
  - intros E. rewrite E in H1, H3. cbn in H1, H3. by simplify_eq.
  - intros Hne. by apply quantile_Ok in H1; [|done|lia|lia|lia].
  - intros Hne. by apply quantile_Ok in H2; [|done|lia|lia|lia].
  - intros Hne. by apply quantile_Ok in H3; [|done|lia|lia|lia].
  - destruct (decide (rates = [])) as [E|Hne].
    { rewrite E in H1, H2, H3. cbn in H1, H2, H3. simplify_eq. unfold floor. lia. }
    apply quantile_Ok in H1 as (v1 & L1 & ->); [|done|lia|lia|lia].
    apply quantile_Ok in H2 as (v2 & L2 & ->); [|done|lia|lia|lia].
    apply quantile_Ok in H3 as (v3 & L3 & ->); [|done|lia|lia|lia].
    assert (v1 <= v2) by (eapply ssorted_lookup; [exact Hss| |exact L1|exact L2]; apply rank_index_mono; lia).
    assert (v2 <= v3) by (eapply ssorted_lookup; [exact Hss| |exact L2|exact L3]; apply rank_index_mono; lia).
    fold floor. lia.
  - apply pressure_bps_range.
    + unfold try_into. case_match; cbn; unfold u_max; lia.
    + apply Z.min_glb; [done|]. unfold try_into. case_match; cbn; unfold u_max; lia.
Qed.
End estimate.
