(* ===== verification/MempoolResource.v ===== *)
(** * Mempool resources ([mempool_resource_v1.rs], the end of [apply.rs])

    The production resource policy, the normalization of the mempool that follows
    every committed block (expiry, oversized transactions, capacity evictions,
    orphans), and the preparation and application of a block.

    The size of the JSON message that carries a transaction is computed by the
    crate [serde_json]; it is the class [CarrierJson], [None] when the
    serialization fails. *)

From stdpp Require Import pretty.
From S2P Require Import Prelude Encoding Crypto Types Merkle State Tx TxV3 Graph Pow.
From S2P Require Import Selection Retarget Ghostdag Ordering Mining Genesis Apply.
From S2P Require Import Validation Mempool Commit MempoolV3.
From Stdlib Require Strings.String.

Class CarrierJson := carrier_json_len : string -> Transaction -> option Z.

Definition MEMPOOL_RESOURCE_POLICY_V1_VERSION : Z := 1.
Definition MEMPOOL_RESOURCE_EXPIRY_BOUNDARY_V1 : Z := 1.
Definition MEMPOOL_RESOURCE_MAX_TRANSACTIONS_V1 : Z := 4096.
Definition MEMPOOL_RESOURCE_MAX_SPENT_OUTPOINTS_V1 : Z := 8192.
Definition MEMPOOL_RESOURCE_MAX_ORPHANS_V1 : Z := 512.
Definition MEMPOOL_RESOURCE_MAX_TRANSACTION_BYTES_V1 : Z := 64 * 1024.
Definition MEMPOOL_RESOURCE_MAX_TRANSACTION_MESSAGE_BYTES_V1 : Z := 64 * 1024.
Definition MEMPOOL_RESOURCE_LIVE_MAX_AGE_BLOCKS_V1 : Z := 1440.
Definition MEMPOOL_RESOURCE_ORPHAN_MAX_AGE_BLOCKS_V1 : Z := 1440.
Definition MEMPOOL_RESOURCE_POLICY_V1_FINGERPRINT_DOMAIN : string := "PulseDAG:mempool-resource-policy:v1".

Record MempoolResourcePolicyV1 := mkMempoolResourcePolicyV1 {
  rp_version : Z;
  rp_max_transactions : Z;
  rp_max_spent_outpoints : Z;
  rp_max_orphans : Z;
  rp_max_transaction_bytes : Z;
  rp_live_max_age_blocks : Z;
  rp_orphan_max_age_blocks : Z;
  rp_expiry_boundary_version : Z;
}.
Definition resource_production_default : MempoolResourcePolicyV1 :=
  mkMempoolResourcePolicyV1 MEMPOOL_RESOURCE_POLICY_V1_VERSION MEMPOOL_RESOURCE_MAX_TRANSACTIONS_V1
    MEMPOOL_RESOURCE_MAX_SPENT_OUTPOINTS_V1 MEMPOOL_RESOURCE_MAX_ORPHANS_V1
    MEMPOOL_RESOURCE_MAX_TRANSACTION_BYTES_V1 MEMPOOL_RESOURCE_LIVE_MAX_AGE_BLOCKS_V1
    MEMPOOL_RESOURCE_ORPHAN_MAX_AGE_BLOCKS_V1 MEMPOOL_RESOURCE_EXPIRY_BOUNDARY_V1.
Definition resource_fingerprint `{Crypto} (p : MempoolResourcePolicyV1) : string :=
  hex_encode (sha256 (str_bytes MEMPOOL_RESOURCE_POLICY_V1_FINGERPRINT_DOMAIN
    ++ le_bytes 4 (rp_version p) ++ le_bytes 8 (rp_max_transactions p)
    ++ le_bytes 8 (rp_max_spent_outpoints p) ++ le_bytes 8 (rp_max_orphans p)
    ++ le_bytes 8 (rp_max_transaction_bytes p) ++ le_bytes 8 (rp_live_max_age_blocks p)
    ++ le_bytes 8 (rp_orphan_max_age_blocks p) ++ le_bytes 4 (rp_expiry_boundary_version p))).

(** ** Rejection reasons *)

Inductive MempoolResourceRejectionV1 := TransactionTooLarge.
Definition MempoolResourceRejectionV1_as_code (r : MempoolResourceRejectionV1) : string :=
  match r with TransactionTooLarge => "MEMPOOL_RESOURCE_V1_TRANSACTION_TOO_LARGE" end.
Definition RESOURCE_REASON_SEPARATOR_V1 : string := ": ".
(** [s.split_once(sep)]: around the first occurrence of a non-empty separator. *)
Fixpoint split_once_from (sep cur l : bytes) : option (bytes * bytes) :=
  if bool_decide (take (length sep) l = sep) then Some (reverse cur, drop (length sep) l)
  else match l with
       | [] => None
       | c :: l' => split_once_from sep (c :: cur) l'
       end.
Definition split_once (sep s : string) : option (string * string) :=
  (fun p => (String.string_of_list_byte p.1, String.string_of_list_byte p.2))
    <$> split_once_from (str_bytes sep) [] (str_bytes s).
Definition mempool_resource_rejection_reason_v1 (rejection : MempoolResourceRejectionV1) (detail : string) : string :=
  MempoolResourceRejectionV1_as_code rejection +:+ RESOURCE_REASON_SEPARATOR_V1 +:+ detail.
Definition mempool_resource_rejection_code_from_reason_v1 (reason : string) : option string :=
  let code := match split_once RESOURCE_REASON_SEPARATOR_V1 reason with
              | Some (code, _) => code
              | None => reason
              end in
  if bool_decide (code = "MEMPOOL_RESOURCE_V1_TRANSACTION_TOO_LARGE") then Some code else None.
Definition mempool_resource_rejection_detail_v1 (reason : string) : string :=
  match split_once RESOURCE_REASON_SEPARATOR_V1 reason with
  | Some (_, detail) => detail
  | None => reason
  end.

(** ** Normalization *)

Record MempoolResourceNormalizationV1 := mkMempoolResourceNormalizationV1 {
  rn_seeded_live_admission_heights : Z;
  rn_seeded_orphan_admission_heights : Z;
  rn_expired_live_txids : list Hash;
  rn_expired_orphan_txids : list Hash;
  rn_removed_live_txids : list Hash;
  rn_removed_orphan_txids : list Hash;
}.
#[global] Instance eta_MempoolResourceNormalizationV1 : Eta MempoolResourceNormalizationV1 := fun r =>
  mkMempoolResourceNormalizationV1 (rn_seeded_live_admission_heights r) (rn_seeded_orphan_admission_heights r)
    (rn_expired_live_txids r) (rn_expired_orphan_txids r) (rn_removed_live_txids r) (rn_removed_orphan_txids r).

Definition apply_production_mempool_resource_caps_v1 (mp : Mempool) : Mempool :=
  let policy := resource_production_default in
  mp <| mp_max_transactions := rp_max_transactions policy |>
     <| mp_max_spent_outpoints := rp_max_spent_outpoints policy |>
     <| mp_max_orphans := rp_max_orphans policy |>.

(** One seeding loop over the sorted ids: the heights and how many were vacant. *)
Definition seed_heights (current_height : Z) (s : gmap Hash Z * Z) (txid : Hash) : gmap Hash Z * Z :=
  match s.1 !! txid with
  | Some _ => s
  | None => (<[txid := current_height]> s.1, saturating_add 64 s.2 1)
  end.

(** [a.fee.cmp(&b.fee).then_with(|| b.txid.cmp(&a.txid))]. *)
Definition compare_victims (a b : Transaction) : comparison :=
  then_with (tx_fee a ?= tx_fee b) (String.compare (tx_txid b) (tx_txid a)).

Definition logical_expired (current_height admission_height max_age_blocks : Z) : bool :=
  match checked_add 64 admission_height max_age_blocks with
  | Some deadline => deadline <=? current_height
  | None => false
  end.

(** The loops that remove one orphan at a time; the flag is whether it was there. *)
Definition remove_orphan (mp : Mempool) (txid : Hash) : bool * Mempool :=
  let removed := bool_decide (is_Some (mp_orphan_transactions mp !! txid)) in
  let mp := mp <| mp_orphan_transactions ::= delete txid |>
               <| mp_orphan_missing_outpoints ::= delete txid |>
               <| mp_orphan_received_order ::= delete txid |>
               <| mp_orphan_admission_height ::= delete txid |> in
  (removed,
   if removed
   then mp <| mp_counters ::= fun c => c
               <| mc_orphan_dropped_total := saturating_add 64 (mc_orphan_dropped_total c) 1 |>
               <| mc_orphan_pruned_total := saturating_add 64 (mc_orphan_pruned_total c) 1 |> |>
   else mp).
Definition remove_orphans (mp : Mempool) (txids : list Hash) : list Hash * Mempool :=
  foldl (fun s txid => let '(removed, mp) := remove_orphan s.2 txid in
           (if removed then s.1 ++ [txid] else s.1, mp)) ([], mp) txids.

(** [min_by]: the first of the minimal elements. *)
Definition min_by {A} (cmp : A -> A -> comparison) (l : list A) : option A :=
  match l with
  | [] => None
  | x :: l' => Some (foldl (fun m y => if bool_decide (cmp m y = Gt) then y else m) x l')
  end.

Section resource.
Context `{HashOrder, Crypto, CarrierJson}.

Definition canonical_transaction_size_for_resource_v1 (tx : Transaction) (chain_id : string) : assessment Z :=
  canonical_transaction_size_for_mempool_v3 tx chain_id.
Definition transaction_message_size_for_resource_v1 (tx : Transaction) (chain_id : string) : option Z :=
  match carrier_json_len chain_id tx with
  | Some n => try_into 64 n
  | None => None
  end.
(** A panic of the serializer is [None]. *)
Definition transaction_fits_production_resource_v1 (tx : Transaction) (chain_id : string)
  (policy : MempoolResourcePolicyV1) : option bool :=
  match canonical_transaction_size_for_resource_v1 tx chain_id with
  | Err None => None
  | Err (Some _) => Some false
  | Ok size =>
      if negb (size <=? rp_max_transaction_bytes policy) then Some false
      else Some (match transaction_message_size_for_resource_v1 tx chain_id with
                 | Some size => size <=? MEMPOOL_RESOURCE_MAX_TRANSACTION_MESSAGE_BYTES_V1
                 | None => false
                 end)
  end.

Definition live_children (state : ChainState) : gmap Hash (gset Hash) :=
  let txs := mp_transactions (cs_mempool state) in
  foldl (fun children p => foldl (add_child txs p.2) children (tx_inputs p.2)) ∅ (map_iter txs).

(** The worklist, and fuel for it: one unit per root and per child entry. *)
Definition kids (children : gmap Hash (gset Hash)) (txid : Hash) : list Hash :=
  match children !! txid with Some k => btree_iter k | None => [] end.
Definition package_fuel (children : gmap Hash (gset Hash)) (roots : list Hash) : nat :=
  S (length roots + edge_count (kids children) (dom children)).
Definition package_from_roots (state : ChainState) (roots : list Hash) : option (gset Hash) :=
  let children := live_children state in
  bfs (kids children) (package_fuel children roots) roots ∅.

Definition remove_live (s : list Hash * Mempool) (txid : Hash) : list Hash * Mempool :=
  match mp_transactions s.2 !! txid with
  | Some _ =>
      (s.1 ++ [txid],
       s.2 <| mp_transactions ::= delete txid |>
           <| mp_first_seen ::= delete txid |>
           <| mp_admission_height ::= delete txid |>)
  | None => s
  end.
Definition remove_live_package (state : ChainState) (roots : list Hash) : option (list Hash * ChainState) :=
  match package_from_roots state roots with
  | None => None
  | Some package =>
      let '(removed, mp) := foldl remove_live ([], cs_mempool state) (btree_iter package) in
      let mp := match removed with [] => mp | _ => rebuild_spent_outpoints mp end in
      Some (removed, state <| cs_mempool := mp |>)
  end.
Definition lowest_live_resource_victim (state : ChainState) : option Hash :=
  tx_txid <$> min_by compare_victims (map snd (map_iter (mp_transactions (cs_mempool state)))).

Definition count_evicted (n : nat) (mp : Mempool) : Mempool :=
  mp <| mp_counters ::= fun c =>
    c <| mc_evicted_total := saturating_add 64 (mc_evicted_total c) (Z.of_nat n) |> |>.
Definition over_capacity (mp : Mempool) : bool :=
  (mp_max_transactions mp <? Z.of_nat (size (mp_transactions mp)))
  || (mp_max_spent_outpoints mp <? Z.of_nat (size (mp_spent_outpoints mp))).
(** The eviction loop; [None] is running out of fuel. *)
Fixpoint evict_loop (fuel : nat) (state : ChainState) (out : list Hash) : option (list Hash * ChainState) :=
  match fuel with
  | O => None
  | S fuel' =>
      if negb (over_capacity (cs_mempool state)) then Some (out, state) else
      match lowest_live_resource_victim state with
      | None => Some (out, state)
      | Some victim =>
          match remove_live_package state [victim] with
          | None => None
          | Some ([], state) => Some (out, state)
          | Some (removed, state) =>
              evict_loop fuel' (state <| cs_mempool ::= count_evicted (length removed) |>) (out ++ removed)
          end
      end
  end.

(** [Some] of the ids that do not fit, in the order of the list. *)
Definition oversized (chain_id : string) (txs : gmap Hash Transaction) (txids : list Hash) : option (list Hash) :=
  foldr (fun txid acc =>
    match acc with
    | None => None
    | Some l =>
        match txs !! txid with
        | None => Some l
        | Some tx =>
            match transaction_fits_production_resource_v1 tx chain_id resource_production_default with
            | None => None
            | Some fits => Some (if fits then l else txid :: l)
            end
        end
    end) (Some []) txids.

Definition sorted_ids {V} (m : gmap Hash V) : list Hash := isort String.le (map fst (map_iter m)).
Definition deterministic_orphan_victims (mp : Mempool) : list Hash :=
  map tx_txid (isort (cmp_le compare_victims) (map snd (map_iter (mp_orphan_transactions mp)))).

Definition orphan_expired (mp : Mempool) (current_height : Z) (txid : Hash) : bool :=
  match mp_orphan_admission_height mp !! txid with
  | Some height => logical_expired current_height height (rp_orphan_max_age_blocks resource_production_default)
  | None => false
  end.
(** The orphan part: expired, then oversized, then overflowing orphans. *)
Definition normalize_orphans (chain_id : string) (current_height : Z) (mp : Mempool)
  : option (list Hash * list Hash * Mempool) :=
  let expired := orphan_expired mp current_height in
  let orphans := sorted_ids (mp_orphan_transactions mp) in
  let expired_orphans := filter (fun txid => expired txid = true) orphans in
  match oversized chain_id (mp_orphan_transactions mp) (filter (fun txid => expired txid = false) orphans) with
  | None => None
  | Some invalid_or_oversized_orphans =>
      let '(removed1, mp) := remove_orphans mp expired_orphans in
      let '(removed2, mp) := remove_orphans mp invalid_or_oversized_orphans in
      let overflow := (size (mp_orphan_transactions mp) - Z.to_nat (mp_max_orphans mp))%nat in
      let '(removed3, mp) := remove_orphans mp (take overflow (deterministic_orphan_victims mp)) in
      Some (removed1, removed1 ++ removed2 ++ removed3, mp)
  end.

(** The five [retain] calls. *)
Definition retain_known (mp : Mempool) : Mempool :=
  let live_set := dom (mp_transactions mp) in
  let orphan_set := dom (mp_orphan_transactions mp) in
  mp <| mp_first_seen ::= filter (fun p => p.1 ∈ live_set) |>
     <| mp_admission_height ::= filter (fun p => p.1 ∈ live_set) |>
     <| mp_orphan_missing_outpoints ::= filter (fun p => p.1 ∈ orphan_set) |>
     <| mp_orphan_received_order ::= filter (fun p => p.1 ∈ orphan_set) |>
     <| mp_orphan_admission_height ::= filter (fun p => p.1 ∈ orphan_set) |>.
(** [v.sort(); v.dedup()]. *)
Definition sort_dedup (l : list Hash) : list Hash := dedup (isort String.le l).

(** [None] is running out of fuel or a panic of a serializer. *)
Definition normalize_production_mempool_resources_v1 (state : ChainState)
  : option (MempoolResourceNormalizationV1 * ChainState) :=
  let policy := resource_production_default in
  let current_height := mempool_logical_clock state in
  let state := state <| cs_mempool ::= apply_production_mempool_resource_caps_v1 |> in
  let mp := cs_mempool state in
  let '(heights, seeded_live) :=
    foldl (seed_heights current_height) (mp_admission_height mp, 0) (sorted_ids (mp_transactions mp)) in
  let '(orphan_heights, seeded_orphans) :=
    foldl (seed_heights current_height) (mp_orphan_admission_height mp, 0)
      (sorted_ids (mp_orphan_transactions mp)) in
  let state := state <| cs_mempool ::= fun mp => mp <| mp_admission_height := heights |>
                          <| mp_orphan_admission_height := orphan_heights |> |> in
  match prune_expired_mempool state current_height (rp_live_max_age_blocks policy) with
  | None => None
  | Some (expiry, state) =>
      match oversized (cs_chain_id state) (mp_transactions (cs_mempool state))
              (sorted_ids (mp_transactions (cs_mempool state))) with
      | None => None
      | Some oversized_roots =>
          match remove_live_package state oversized_roots with
          | None => None
          | Some (removed_oversized, state) =>
              let state := match removed_oversized with
                           | [] => state
                           | _ => state <| cs_mempool ::= count_evicted (length removed_oversized) |>
                           end in
              let state := state <| cs_mempool ::= rebuild_spent_outpoints |> in
              match evict_loop (S (size (mp_transactions (cs_mempool state)))) state [] with
              | None => None
              | Some (evicted, state) =>
                  match normalize_orphans (cs_chain_id state) current_height (cs_mempool state) with
                  | None => None
                  | Some (expired_orphans, removed_orphans, mp) =>
                      Some (mkMempoolResourceNormalizationV1 seeded_live seeded_orphans
                              (sort_dedup (me_expired_txids expiry)) (sort_dedup expired_orphans)
                              (sort_dedup (me_expired_txids expiry ++ removed_oversized ++ evicted))
                              (sort_dedup removed_orphans),
                            state <| cs_mempool := retain_known mp |>)
                  end
              end
          end
      end
  end.

Definition production_mempool_resource_invariants_v1 (state : ChainState) : option bool :=
  let policy := resource_production_default in
  let mp := cs_mempool state in
  if negb (mp_max_transactions mp =? rp_max_transactions policy)
     || negb (mp_max_spent_outpoints mp =? rp_max_spent_outpoints policy)
     || negb (mp_max_orphans mp =? rp_max_orphans policy)
     || (rp_max_transactions policy <? Z.of_nat (size (mp_transactions mp)))
     || (rp_max_spent_outpoints policy <? Z.of_nat (size (mp_spent_outpoints mp)))
     || (rp_max_orphans policy <? Z.of_nat (size (mp_orphan_transactions mp)))
  then Some false else
  match oversized (cs_chain_id state) (mp_transactions mp) (map fst (map_iter (mp_transactions mp))) with
  | None => None
  | Some (_ :: _) => Some false
  | Some [] =>
      let live := dom (mp_transactions mp) in
      let orphans := dom (mp_orphan_transactions mp) in
      Some (bool_decide (dom (mp_first_seen mp) ⊆ live)
            && bool_decide (dom (mp_admission_height mp) ⊆ live)
            && bool_decide (dom (mp_orphan_missing_outpoints mp) ⊆ orphans)
            && bool_decide (dom (mp_orphan_received_order mp) ⊆ orphans)
            && bool_decide (dom (mp_orphan_admission_height mp) ⊆ orphans))
  end.
End resource.

Section apply_block.
Context `{HashOrder, Crypto, CarrierJson, Kaspa}.

Definition prepare_block_state (env : string -> option string) (now : Z) (block : Block) (state : ChainState)
  : outcome ChainState :=
  check validate_block env now block state in
  match commit_block_to_state block state with
  | (Err e, _) => Err e
  | (Ok _, working) =>
      match normalize_production_mempool_resources_v1 working with
      | None => Err None
      | Some (_, working) => Ok working
      end
  end.
(** The state is replaced only when the preparation succeeds. *)
Definition apply_block (env : string -> option string) (now : Z) (block : Block) (state : ChainState)
  : outcome unit * ChainState :=
  match prepare_block_state env now block state with
  | Ok working => (Ok tt, working)
  | Err e => (Err e, state)
  end.
End apply_block.
