(* ===== verification/MempoolResourceProps.v ===== *)
(** * The mempool after normalization ([mempool_resource_v1.rs])

    Normalization terminates, only removes transactions, never leaves a child
    without its mempool parent, and establishes the resource invariants that the
    code asserts at its end. *)

From S2P Require Import Prelude Encoding Crypto Types Merkle State Tx TxV3 Graph Pow.
From S2P Require Import Selection Retarget Ghostdag Ordering Mining Genesis Apply ApplyProps.
From S2P Require Import Validation ValidationProps Mempool MempoolProps Commit MempoolV3 MempoolResource.

(** ** Pools *)

(** Every transaction is stored under its own id. *)
Definition keyed (txs : gmap Hash Transaction) : Prop := map_Forall (fun id tx => tx_txid tx = id) txs.
(** The reserved outpoints are the inputs of the live transactions. *)
Definition spent_exact (mp : Mempool) : Prop :=
  forall o, o ∈ mp_spent_outpoints mp <->
    exists id tx i, mp_transactions mp !! id = Some tx /\ i ∈ tx_inputs tx /\ in_previous_output i = o.
(** No transaction lost a parent that was in the pool. *)
Definition family_closed (txs txs' : gmap Hash Transaction) : Prop :=
  forall id tx i, txs' !! id = Some tx -> i ∈ tx_inputs tx ->
    is_Some (txs !! op_txid (in_previous_output i)) -> is_Some (txs' !! op_txid (in_previous_output i)).

(** [mp'] is [mp] without the live transactions [removed]. *)
Record pruned (mp mp' : Mempool) (removed : list Hash) : Prop := {
  pr_txs : mp_transactions mp' = filter (fun p => p.1 ∉ removed) (mp_transactions mp);
  pr_removed : forall id, id ∈ removed -> is_Some (mp_transactions mp !! id);
  pr_family : family_closed (mp_transactions mp) (mp_transactions mp');
  pr_orphans : mp_orphan_transactions mp' = mp_orphan_transactions mp;
  pr_caps : mp_max_transactions mp' = mp_max_transactions mp /\
    mp_max_spent_outpoints mp' = mp_max_spent_outpoints mp /\ mp_max_orphans mp' = mp_max_orphans mp;
}.

Lemma filter_keyed txs (P : Hash * Transaction -> Prop) `{!forall p, Decision (P p)} :
  keyed txs -> keyed (filter P txs).
Proof. intros Hk id tx [Htx _]%map_lookup_filter_Some. by apply Hk. Qed.
Lemma pruned_keyed mp mp' removed : pruned mp mp' removed -> keyed (mp_transactions mp) -> keyed (mp_transactions mp').
Proof. intros Hp Hk. rewrite (pr_txs _ _ _ Hp). by apply filter_keyed. Qed.

Lemma pruned_subseteq mp mp' removed : pruned mp mp' removed -> mp_transactions mp' ⊆ mp_transactions mp.
Proof. intros Hp. rewrite (pr_txs _ _ _ Hp). apply map_filter_subseteq. Qed.

Lemma pruned_trans mp1 mp2 mp3 r1 r2 :
  pruned mp1 mp2 r1 -> pruned mp2 mp3 r2 -> pruned mp1 mp3 (r1 ++ r2).
Proof.
  intros P1 P2. split.
  - rewrite (pr_txs _ _ _ P2), (pr_txs _ _ _ P1). rewrite map_filter_filter.
    apply map_filter_ext. intros id tx _. cbn. rewrite not_elem_of_app. naive_solver.
  - intros id [Hid|Hid]%elem_of_app; [by apply P1|]. apply (pr_removed _ _ _ P2) in Hid as [tx Htx].
    exists tx. eapply lookup_weaken; [exact Htx|by eapply pruned_subseteq].
  - intros id tx i Htx Hi Hp. apply (pr_family _ _ _ P2 id tx i Htx Hi).
    apply (pr_family _ _ _ P1 id tx i); [|done|done].
    eapply lookup_weaken; [exact Htx|by eapply pruned_subseteq].
  - rewrite (pr_orphans _ _ _ P2). apply P1.
  - destruct (pr_caps _ _ _ P1) as (? & ? & ?), (pr_caps _ _ _ P2) as (? & ? & ?). split_and!; congruence.
Qed.
(** Bookkeeping of the live and orphan transactions does not matter. *)
Lemma pruned_same mp1 mp2 mp3 r :
  pruned mp1 mp2 r -> mp_transactions mp3 = mp_transactions mp2 ->
  mp_orphan_transactions mp3 = mp_orphan_transactions mp2 ->
  mp_max_transactions mp3 = mp_max_transactions mp2 ->
  mp_max_spent_outpoints mp3 = mp_max_spent_outpoints mp2 -> mp_max_orphans mp3 = mp_max_orphans mp2 ->
  pruned mp1 mp3 r.
Proof.
  intros [P1 P2 P3 P4 P5] E1 E2 E3 E4 E5. split; [by rewrite E1|done|by rewrite E1|by rewrite E2|by rewrite E3, E4, E5].
Qed.
Lemma pruned_nil mp mp' : 
  mp_transactions mp' = mp_transactions mp -> mp_orphan_transactions mp' = mp_orphan_transactions mp ->
  mp_max_transactions mp' = mp_max_transactions mp -> mp_max_spent_outpoints mp' = mp_max_spent_outpoints mp ->
  mp_max_orphans mp' = mp_max_orphans mp -> pruned mp mp' [].
Proof.
  intros E1 E2 E3 E4 E5. split; [|set_solver| |done|done].
  - rewrite E1. symmetry. apply map_filter_id. intros ? ? _. apply not_elem_of_nil.
  - unfold family_closed. rewrite E1. by intros.
Qed.

Lemma filter_ext_in {A} (P Q : A -> Prop) `{!forall x, Decision (P x), !forall x, Decision (Q x)} (l : list A) :
  (forall x, x ∈ l -> P x <-> Q x) -> filter P l = filter Q l.
Proof.
  induction l as [|x l IH]; intros Hpq; [done|]. rewrite !filter_cons, IH by (intros; apply Hpq; by right).
  destruct (Hpq x) as [? ?]; [by left|]. repeat case_decide; naive_solver.
Qed.

(** Only the mempool changes. *)
Lemma mempool_frame_trans s1 s2 s3 :
  s2 = s1 <| cs_mempool := cs_mempool s2 |> -> s3 = s2 <| cs_mempool := cs_mempool s3 |> ->
  s3 = s1 <| cs_mempool := cs_mempool s3 |>.
Proof. generalize (cs_mempool s2) (cs_mempool s3). by intros mp2 mp3 -> ->. Qed.
Lemma mempool_frame_chain s1 s2 : s2 = s1 <| cs_mempool := cs_mempool s2 |> -> cs_chain_id s2 = cs_chain_id s1.
Proof. by intros ->. Qed.

(** ** Packages *)

Section packages.
Context `{HashOrder, Crypto}.

Lemma live_children_kids s p c :
  c ∈ kids (live_children s) p <-> mempool_child s p c.
Proof.
  unfold kids. change (live_children s) with (mempool_children s).
  pose proof (mempool_children_spec s p c) as Hs. destruct (mempool_children s !! p); cbn in Hs.
  - by rewrite elem_of_btree_iter, Hs.
  - rewrite elem_of_nil. rewrite elem_of_empty in Hs. by rewrite Hs.
Qed.

Lemma package_spec s roots :
  exists package, package_from_roots s roots = Some package /\
    forall t, t ∈ package <-> exists r, r ∈ roots /\ rtc (mempool_child s) r t.
Proof.
  unfold package_from_roots.
  destruct (bfs_fuel_enough (kids (live_children s)) (dom (live_children s))
    (package_fuel (live_children s) roots) roots ∅) as [package Hp].
  - intros k Hk%not_elem_of_dom. unfold kids. by rewrite Hk.
  - unfold package_fuel. rewrite difference_empty_L. lia.
  - exists package. split; [done|]. intros t. rewrite (bfs_reach _ _ _ _ Hp).
    assert (Hr : forall r, reach (kids (live_children s)) r t <-> rtc (mempool_child s) r t).
    { intros r. split; apply rtc_subrel; intros x y; unfold edge; apply live_children_kids. }
    setoid_rewrite Hr. done.
Qed.

Lemma remove_live_fold ids acc mp :
  NoDup ids ->
  let s := foldl remove_live (acc, mp) ids in
  s.1 = acc ++ filter (fun id => is_Some (mp_transactions mp !! id)) ids /\
  mp_transactions s.2 = filter (fun p => p.1 ∉ ids) (mp_transactions mp) /\
  mp_orphan_transactions s.2 = mp_orphan_transactions mp /\
  mp_spent_outpoints s.2 = mp_spent_outpoints mp /\
  mp_max_transactions s.2 = mp_max_transactions mp /\
  mp_max_spent_outpoints s.2 = mp_max_spent_outpoints mp /\ mp_max_orphans s.2 = mp_max_orphans mp.
Proof.
  revert acc mp. induction ids as [|x ids IH]; intros acc mp Hnd; cbn [foldl].
  { cbn. rewrite app_nil_r. split_and!; try done. symmetry. apply map_filter_id. intros ? ? _. apply not_elem_of_nil. }
  apply NoDup_cons in Hnd as [Hx Hnd]. cbv zeta.
  destruct (mp_transactions mp !! x) as [tx|] eqn:Htx.
  - assert (E : remove_live (acc, mp) x = (acc ++ [x], mp <| mp_transactions ::= delete x |>
      <| mp_first_seen ::= delete x |> <| mp_admission_height ::= delete x |>))
      by (unfold remove_live; cbn [fst snd]; by rewrite Htx).
    rewrite !E. destruct (IH (acc ++ [x]) (mp <| mp_transactions ::= delete x |> <| mp_first_seen ::= delete x |>
      <| mp_admission_height ::= delete x |>) Hnd) as (I1 & I2 & I3 & I4 & I5 & I6 & I7).
    split_and!; try done.
    + rewrite I1, <- app_assoc. f_equal. rewrite filter_cons, decide_True by (by eexists). cbn. f_equal.
      apply filter_ext_in. intros y Hy. rewrite lookup_delete_ne; [done|]. intros ->; done.
    + rewrite I2. cbn. apply map_eq. intros id. apply option_eq. intros t.
      rewrite !map_lookup_filter_Some, lookup_delete_Some, not_elem_of_cons. cbn. naive_solver.
  - assert (E : remove_live (acc, mp) x = (acc, mp)) by (unfold remove_live; cbn [fst snd]; by rewrite Htx).
    rewrite !E. destruct (IH acc mp Hnd) as (I1 & I2 & I3 & I4 & I5 & I6 & I7). split_and!; try done.
    + rewrite I1, filter_cons, decide_False; [done|]. rewrite Htx. by intros [].
    + rewrite I2. apply map_filter_ext. intros id t Ht. cbn. rewrite not_elem_of_cons. naive_solver congruence.
Qed.

(** Removing the packages of [roots]. *)
Record package_removed (s s' : ChainState) (roots removed : list Hash) : Prop := {
  pk_frame : s' = s <| cs_mempool := cs_mempool s' |>;
  pk_pruned : pruned (cs_mempool s) (cs_mempool s') removed;
  pk_roots : forall r, r ∈ roots -> mp_transactions (cs_mempool s') !! r = None;
  pk_some : forall r, r ∈ roots -> is_Some (mp_transactions (cs_mempool s) !! r) -> removed <> [];
  pk_spent : spent_exact (cs_mempool s) -> spent_exact (cs_mempool s');
  pk_nodup : NoDup removed;
  pk_none : roots = [] -> removed = [];
}.
Lemma remove_live_package_spec s roots :
  keyed (mp_transactions (cs_mempool s)) ->
  exists removed s', remove_live_package s roots = Some (removed, s') /\ package_removed s s' roots removed.
Proof.
  intros Hk. unfold remove_live_package. destruct (package_spec s roots) as (package & -> & Hp).
  destruct (remove_live_fold (btree_iter package) [] (cs_mempool s) (NoDup_btree_iter package))
    as (I1 & I2 & I3 & I4 & I5 & I6 & I7).
  destruct (foldl remove_live ([], cs_mempool s) (btree_iter package)) as [removed mp]. cbn [fst snd app] in *.
  do 2 eexists. split; [reflexivity|].
  set (mp' := match removed with [] => mp | _ => rebuild_spent_outpoints mp end). cbn.
  assert (Hrem : forall id, id ∈ removed <-> id ∈ package /\ is_Some (mp_transactions (cs_mempool s) !! id)).
  { intros id. rewrite I1, list_elem_of_filter, elem_of_btree_iter. naive_solver. }
  assert (Htxs : mp_transactions mp' = filter (fun p => p.1 ∉ removed) (mp_transactions (cs_mempool s))).
  { transitivity (mp_transactions mp); [unfold mp'; by destruct removed|]. rewrite I2. apply map_filter_ext.
    intros id tx Htx. cbn. rewrite Hrem, elem_of_btree_iter. naive_solver. }
  assert (Hfr : mp_orphan_transactions mp' = mp_orphan_transactions (cs_mempool s) /\
    mp_max_transactions mp' = mp_max_transactions (cs_mempool s) /\
    mp_max_spent_outpoints mp' = mp_max_spent_outpoints (cs_mempool s) /\
    mp_max_orphans mp' = mp_max_orphans (cs_mempool s)) by (unfold mp'; by destruct removed).
  destruct Hfr as (F1 & F2 & F3 & F4). split; cbn.
  - by destruct s.
  - split; try done; [intros id [_ ?]%Hrem; done|].
    intros id tx i Htx Hi [ptx Hptx]. rewrite Htxs in Htx |- *.
    apply map_lookup_filter_Some in Htx as [Htx Hnot]. exists ptx. apply map_lookup_filter_Some. split; [done|].
    cbn in *. rewrite Hrem in Hnot |- *. intros [Hin _]. apply Hnot. split; [|by eexists].
    apply Hp in Hin as (r & Hr & Hrt). apply Hp. exists r. split; [done|]. eapply rtc_r; [exact Hrt|].
    split; [by eexists|]. exists id, tx. split; [done|]. split; [by rewrite (Hk id tx Htx)|]. eauto.
  - intros r Hr. rewrite Htxs. apply map_lookup_filter_None. right. intros tx Htx. cbn. rewrite Hrem.
    intros Hn. apply Hn. split; [|by eexists]. apply Hp. exists r. split; [done|apply rtc_refl].
  - intros r Hr Hs ->. apply (not_elem_of_nil r). apply Hrem. split; [|done]. apply Hp. exists r. split; [done|apply rtc_refl].
  - intros Hsp o. unfold mp'. destruct removed as [|x removed].
    + rewrite I4. assert (Hsame : mp_transactions mp = mp_transactions (cs_mempool s)).
      { rewrite <- (map_filter_id (fun p => p.1 ∉ []) (mp_transactions (cs_mempool s))) at 1;
          [exact Htxs|intros ? ? _; apply not_elem_of_nil]. }
      rewrite Hsame. apply Hsp.
    + by rewrite rebuild_spent_spec.
  - rewrite I1. apply NoDup_filter, NoDup_btree_iter.
  - intros ->. apply elem_of_nil_inv. intros id [(r & Hr & _)%Hp _]%Hrem. by apply not_elem_of_nil in Hr.
Qed.

(** ** The eviction loop *)

Lemma min_by_elem {A} (cmp : A -> A -> comparison) l x : min_by cmp l = Some x -> x ∈ l.
Proof.
  destruct l as [|y l]; [done|]. cbn. intros [= <-]. revert y. induction l as [|z l IH]; intros y; cbn [foldl]; [by left|].
  set (m := if bool_decide (cmp y z = Gt) then z else y). specialize (IH m).
  assert (m = z \/ m = y) as [E|E] by (unfold m; case_bool_decide; auto); rewrite E in IH |- *; set_solver.
Qed.
Lemma victim_spec s :
  keyed (mp_transactions (cs_mempool s)) -> mp_transactions (cs_mempool s) <> ∅ ->
  exists v, lowest_live_resource_victim s = Some v /\ is_Some (mp_transactions (cs_mempool s) !! v).
Proof.
  intros Hk Hne. unfold lowest_live_resource_victim.
  destruct (min_by compare_victims _) as [tx|] eqn:Hm.
  - apply min_by_elem, map_iter_values in Hm as (id & Hid). exists (tx_txid tx). split; [done|].
    rewrite (Hk id tx Hid). by eexists.
  - exfalso. apply Hne. unfold min_by in Hm. destruct (map snd (map_iter _)) eqn:E; [|done].
    apply map_to_list_empty_iff, Permutation_nil_r. rewrite <- map_iter_perm. by destruct (map_iter _).
Qed.

Lemma over_capacity_nonempty mp :
  spent_exact mp -> 0 <= mp_max_transactions mp -> 0 <= mp_max_spent_outpoints mp ->
  over_capacity mp = true -> mp_transactions mp <> ∅.
Proof.
  intros Hsp H1 H2 Ho E. unfold over_capacity in Ho. apply orb_true_iff in Ho as [Ho|Ho]; apply Z.ltb_lt in Ho.
  - rewrite E, map_size_empty in Ho. lia.
  - assert (mp_spent_outpoints mp = ∅) as Es.
    { apply set_eq. intros o. rewrite (Hsp o), E. setoid_rewrite lookup_empty. set_solver. }
    rewrite Es, size_empty in Ho. lia.
Qed.

Lemma filter_size_lt (m : gmap Hash Transaction) (removed : list Hash) x :
  is_Some (m !! x) -> x ∈ removed -> (size (filter (fun p => p.1 ∉ removed) m) < size m)%nat.
Proof.
  intros Hx Hin. apply map_subset_size. split; [apply map_filter_subseteq|].
  intros Hsub. destruct Hx as [v Hv]. eapply lookup_weaken in Hsub; [|exact Hv].
  by apply map_lookup_filter_Some in Hsub as [_ ?].
Qed.

Record evicted_ok (s s' : ChainState) (removed : list Hash) : Prop := {
  ev_frame : s' = s <| cs_mempool := cs_mempool s' |>;
  ev_pruned : pruned (cs_mempool s) (cs_mempool s') removed;
  ev_fits : over_capacity (cs_mempool s') = false;
  ev_spent : spent_exact (cs_mempool s');
  ev_none : over_capacity (cs_mempool s) = false -> removed = [];
}.
Lemma evict_loop_spec fuel s out :
  keyed (mp_transactions (cs_mempool s)) -> spent_exact (cs_mempool s) ->
  0 <= mp_max_transactions (cs_mempool s) -> 0 <= mp_max_spent_outpoints (cs_mempool s) ->
  (size (mp_transactions (cs_mempool s)) < fuel)%nat ->
  exists removed s', evict_loop fuel s out = Some (out ++ removed, s') /\ evicted_ok s s' removed.
Proof.
  revert s out. induction fuel as [|fuel IH]; intros s out Hk Hsp H1 H2 Hf; [lia|]. cbn [evict_loop].
  destruct (over_capacity (cs_mempool s)) eqn:Ho; cbn [negb].
  2: { exists [], s. rewrite app_nil_r. split; [done|]. split; [by destruct s|by apply pruned_nil|done|done|done]. }
  destruct (victim_spec s Hk (over_capacity_nonempty _ Hsp H1 H2 Ho)) as (v & -> & Hv).
  destruct (remove_live_package_spec s [v] Hk) as (removed & s1 & -> & Hp).
  destruct removed as [|x removed].
  { exfalso. apply (pk_some _ _ _ _ Hp v); [set_solver|done|done]. }
  pose proof (pk_pruned _ _ _ _ Hp) as Hpr.
  set (s2 := s1 <| cs_mempool ::= count_evicted (length (x :: removed)) |>).
  destruct (pr_caps _ _ _ Hpr) as (C1 & C2 & C3).
  destruct (IH s2 (out ++ x :: removed)) as (r2 & s' & -> & He).
  - exact (pruned_keyed _ _ _ Hpr Hk).
  - exact (pk_spent _ _ _ _ Hp Hsp).
  - change (0 <= mp_max_transactions (cs_mempool s1)). lia.
  - change (0 <= mp_max_spent_outpoints (cs_mempool s1)). lia.
  - change (size (mp_transactions (cs_mempool s1)) < fuel)%nat. rewrite (pr_txs _ _ _ Hpr).
    pose proof (filter_size_lt (mp_transactions (cs_mempool s)) (x :: removed) x) as Hlt.
    assert (size (filter (fun p => p.1 ∉ x :: removed) (mp_transactions (cs_mempool s))) < size (mp_transactions (cs_mempool s)))%nat;
      [|lia]. apply Hlt; [|by left]. apply (pr_removed _ _ _ Hpr). by left.
  - exists ((x :: removed) ++ r2), s'. rewrite <- app_assoc. split; [done|]. split.
    + rewrite (ev_frame _ _ _ He). unfold s2. rewrite (pk_frame _ _ _ _ Hp). by destruct s.
    + eapply pruned_trans; [|exact (ev_pruned _ _ _ He)]. by eapply pruned_same; [exact Hpr|..].
    + apply He.
    + apply He.
    + by rewrite Ho.
Qed.
End packages.

(** ** Sizes and orphans *)

Section orphans.
Context `{HashOrder, Crypto, CarrierJson}.

Abbreviation fits chain_id tx :=
  (transaction_fits_production_resource_v1 tx chain_id resource_production_default).

Lemma oversized_spec chain_id txs l :
  (forall id tx, txs !! id = Some tx -> fits chain_id tx <> None) ->
  exists r, oversized chain_id txs l = Some r /\
    (forall id, id ∈ r <-> id ∈ l /\ exists tx, txs !! id = Some tx /\ fits chain_id tx = Some false) /\
    (NoDup l -> NoDup r).
Proof.
  intros Hf. induction l as [|id l (r & Hr & Hin & Hnd)].
  { exists []. split; [done|]. split; [set_solver|done]. }
  unfold oversized in *. cbn [foldr]. rewrite Hr. destruct (txs !! id) as [tx|] eqn:Htx.
  - specialize (Hf id tx Htx). destruct (fits chain_id tx) as [[]|] eqn:E; [| |done].
    + exists r. split; [done|]. split; [|intros [_ ?]%NoDup_cons; auto].
      intros x. rewrite Hin, elem_of_cons. naive_solver congruence.
    + exists (id :: r). split; [done|]. split.
      * intros x. rewrite !elem_of_cons, Hin. naive_solver congruence.
      * intros [Hx ?]%NoDup_cons. constructor; [|auto]. rewrite Hin. naive_solver.
  - exists r. split; [done|]. split; [|intros [_ ?]%NoDup_cons; auto].
    intros x. rewrite Hin, elem_of_cons. naive_solver congruence.
Qed.

(** [mp'] is [mp] without the orphans [removed]. *)
Record orphans_pruned (mp mp' : Mempool) (removed : list Hash) : Prop := {
  op_orphans : mp_orphan_transactions mp' = filter (fun p => p.1 ∉ removed) (mp_orphan_transactions mp);
  op_removed : forall id, id ∈ removed -> is_Some (mp_orphan_transactions mp !! id);
  op_nodup : NoDup removed;
  op_heights : forall id h, mp_orphan_admission_height mp' !! id = Some h ->
    mp_orphan_admission_height mp !! id = Some h;
  op_live : mp_transactions mp' = mp_transactions mp /\ mp_spent_outpoints mp' = mp_spent_outpoints mp /\
    mp_max_transactions mp' = mp_max_transactions mp /\
    mp_max_spent_outpoints mp' = mp_max_spent_outpoints mp /\ mp_max_orphans mp' = mp_max_orphans mp;
}.
Lemma orphans_pruned_trans mp1 mp2 mp3 r1 r2 :
  orphans_pruned mp1 mp2 r1 -> orphans_pruned mp2 mp3 r2 -> orphans_pruned mp1 mp3 (r1 ++ r2).
Proof.
  intros P1 P2. assert (Hnew : forall id, id ∈ r2 -> is_Some (mp_orphan_transactions mp1 !! id) /\ id ∉ r1).
  { intros id Hid. apply (op_removed _ _ _ P2) in Hid as [tx Htx]. rewrite (op_orphans _ _ _ P1) in Htx.
    apply map_lookup_filter_Some in Htx as [Htx Hn]. split; [by eexists|done]. }
  split.
  - rewrite (op_orphans _ _ _ P2), (op_orphans _ _ _ P1), map_filter_filter.
    apply map_filter_ext. intros id tx _. cbn. rewrite not_elem_of_app. naive_solver.
  - intros id [Hid|Hid]%elem_of_app; [by apply P1|by apply Hnew].
  - apply NoDup_app. split; [apply P1|]. split; [|apply P2]. intros id Hid Hid2. by apply (Hnew id Hid2).
  - intros id h Hh. by apply (op_heights _ _ _ P1), (op_heights _ _ _ P2).
  - destruct (op_live _ _ _ P1) as (? & ? & ? & ? & ?), (op_live _ _ _ P2) as (? & ? & ? & ? & ?).
    split_and!; congruence.
Qed.

Lemma remove_orphans_spec mp l :
  NoDup l -> (forall id, id ∈ l -> is_Some (mp_orphan_transactions mp !! id)) ->
  exists mp', remove_orphans mp l = (l, mp') /\ orphans_pruned mp mp' l.
Proof.
  intros Hnd Hin. unfold remove_orphans.
  cut (forall acc, exists mp', foldl (fun s txid => let '(removed, mp) := remove_orphan s.2 txid in
           (if removed : bool then s.1 ++ [txid] else s.1, mp)) (acc, mp) l = (acc ++ l, mp') /\
         orphans_pruned mp mp' l); [intros Hc; exact (Hc [])|].
  revert mp Hin. induction Hnd as [|x l Hx Hnd IH]; intros mp Hin acc; cbn [foldl].
  { exists mp. rewrite app_nil_r. split; [done|]. split; try done; try constructor; try by intros ? ?%not_elem_of_nil.
    symmetry. apply map_filter_id. intros ? ? _. apply not_elem_of_nil. }
  cbn [fst snd]. destruct (remove_orphan mp x) as [b mp1] eqn:E. unfold remove_orphan in E.
  rewrite (bool_decide_eq_true_2 (is_Some _)) in E by (apply Hin; by left). injection E as <- <-.
  match goal with |- context [foldl ?f (_, ?m) l] => set (mp1 := m) end.
  destruct (IH mp1) with (acc := acc ++ [x]) as (mp' & Hf & Hp).
  { intros id Hid. cbn. rewrite lookup_delete_ne; [apply Hin; by right|]. intros ->; done. }
  exists mp'. split; [etransitivity; [exact Hf|]; by rewrite <- app_assoc|].
  apply (orphans_pruned_trans mp mp1 mp' [x] l); [|done]. split; try done.
  - cbn. apply map_eq. intros id. apply option_eq. intros t.
    rewrite lookup_delete_Some, map_lookup_filter_Some. cbn. rewrite list_elem_of_singleton. naive_solver.
  - intros id ->%list_elem_of_singleton. apply Hin. by left.
  - apply NoDup_singleton.
  - intros id h. cbn. rewrite lookup_delete_Some. by intros [_ ?].
Qed.

Lemma filter_size_sub {V} (m : gmap Hash V) (l : list Hash) :
  NoDup l -> (forall id, id ∈ l -> is_Some (m !! id)) ->
  size (filter (fun p => p.1 ∉ l) m) = (size m - length l)%nat.
Proof.
  intros Hnd Hin. rewrite <- !size_dom.
  assert (Hd : dom (filter (fun p => p.1 ∉ l) m) = dom m ∖ list_to_set l).
  { apply set_eq. intros k. rewrite elem_of_difference, elem_of_list_to_set, !elem_of_dom. split.
    - intros [v [Hv Hn]%map_lookup_filter_Some]. split; [by eexists|done].
    - intros [[v Hv] Hn]. exists v. by apply map_lookup_filter_Some. }
  rewrite Hd, size_difference, size_list_to_set by (done || (intros k; rewrite elem_of_list_to_set, elem_of_dom; auto)).
  done.
Qed.

Lemma NoDup_sorted_ids {V} (m : gmap Hash V) : NoDup (sorted_ids m).
Proof. unfold sorted_ids. rewrite isort_perm. apply NoDup_map_iter_keys. Qed.
Lemma elem_of_sorted_ids {V} (m : gmap Hash V) id : id ∈ sorted_ids m <-> is_Some (m !! id).
Proof.
  unfold sorted_ids. rewrite isort_perm, list_elem_of_fmap. split.
  - intros ([k v] & -> & Hin%elem_of_map_iter). by eexists.
  - intros [v Hv]. exists (id, v). by rewrite elem_of_map_iter.
Qed.

Lemma victims_spec mp :
  keyed (mp_orphan_transactions mp) ->
  NoDup (deterministic_orphan_victims mp) /\
  (forall id, id ∈ deterministic_orphan_victims mp <-> is_Some (mp_orphan_transactions mp !! id)) /\
  length (deterministic_orphan_victims mp) = size (mp_orphan_transactions mp).
Proof.
  intros Hk. unfold deterministic_orphan_victims.
  assert (Hp : map tx_txid (isort (cmp_le compare_victims) (map snd (map_iter (mp_orphan_transactions mp))))
    ≡ₚ map fst (map_iter (mp_orphan_transactions mp))).
  { rewrite isort_perm, map_map.
    assert (E : map (fun x : Hash * Transaction => tx_txid x.2) (map_iter (mp_orphan_transactions mp)) =
      map fst (map_iter (mp_orphan_transactions mp))).
    { apply map_ext_in. intros [id tx] Hin%list_elem_of_In%elem_of_map_iter. by apply (Hk id). }
    by rewrite E. }
  split; [rewrite Hp; apply NoDup_map_iter_keys|]. split.
  - intros id. rewrite Hp. rewrite <- elem_of_sorted_ids. unfold sorted_ids. by rewrite isort_perm.
  - rewrite Hp, length_map, map_iter_perm. apply length_map_to_list.
Qed.

Lemma normalize_orphans_spec chain_id height mp :
  keyed (mp_orphan_transactions mp) ->
  (forall id tx, mp_orphan_transactions mp !! id = Some tx -> fits chain_id tx <> None) ->
  0 <= mp_max_orphans mp ->
  exists expired removed mp', normalize_orphans chain_id height mp = Some (expired, removed, mp') /\
    orphans_pruned mp mp' removed /\
    Z.of_nat (size (mp_orphan_transactions mp')) <= mp_max_orphans mp /\
    (forall id, id ∈ expired <-> is_Some (mp_orphan_transactions mp !! id) /\ orphan_expired mp height id = true) /\
    (forall id tx, mp_orphan_transactions mp' !! id = Some tx ->
       fits chain_id tx = Some true /\ orphan_expired mp height id = false).
Proof.
  intros Hk Hf Hm. unfold normalize_orphans. cbv zeta.
  set (ids := sorted_ids (mp_orphan_transactions mp)).
  set (expired := filter (fun txid => orphan_expired mp height txid = true) ids).
  destruct (oversized_spec chain_id (mp_orphan_transactions mp)
    (filter (fun txid => orphan_expired mp height txid = false) ids) Hf) as (big & Hbig & Hbin & Hbnd).
  rewrite Hbig.
  destruct (remove_orphans_spec mp expired) as (mp1 & E1 & P1).
  { apply NoDup_filter, NoDup_sorted_ids. }
  { intros id [_ Hid]%list_elem_of_filter. by apply elem_of_sorted_ids. }
  fold expired. rewrite E1.
  destruct (remove_orphans_spec mp1 big) as (mp2 & E2 & P2).
  { apply Hbnd, NoDup_filter, NoDup_sorted_ids. }
  { intros id [Hid (tx & Htx & _)]%Hbin. exists tx. rewrite (op_orphans _ _ _ P1). apply map_lookup_filter_Some.
    split; [done|]. cbn. unfold expired. rewrite !list_elem_of_filter in *. intros [? _]. destruct Hid. congruence. }
  rewrite E2.
  pose proof (orphans_pruned_trans _ _ _ _ _ P1 P2) as P12.
  assert (Hk2 : keyed (mp_orphan_transactions mp2)) by (rewrite (op_orphans _ _ _ P12); by apply filter_keyed).
  destruct (victims_spec mp2 Hk2) as (Vnd & Vin & Vlen).
  assert (Hmax : mp_max_orphans mp2 = mp_max_orphans mp) by (apply (op_live _ _ _ P12)).
  set (overflow := (size (mp_orphan_transactions mp2) - Z.to_nat (mp_max_orphans mp2))%nat).
  destruct (remove_orphans_spec mp2 (take overflow (deterministic_orphan_victims mp2))) as (mp3 & E3 & P3).
  { eapply sublist_NoDup; [exact Vnd|apply sublist_take]. }
  { intros id (i & Hi & _)%elem_of_take. apply Vin. by eapply list_elem_of_lookup_2. }
  rewrite E3. do 3 eexists. split; [reflexivity|].
  pose proof (orphans_pruned_trans _ _ _ _ _ P12 P3) as P. rewrite <- app_assoc in P.
  assert (Hexp : forall id, id ∈ expired <-> is_Some (mp_orphan_transactions mp !! id) /\ orphan_expired mp height id = true).
  { intros id. unfold expired, ids. rewrite list_elem_of_filter, elem_of_sorted_ids. naive_solver. }
  split; [done|]. split; [|split; [done|]].
  - rewrite (op_orphans _ _ _ P3), filter_size_sub, length_take, Vlen.
    + unfold overflow. lia.
    + eapply sublist_NoDup; [exact Vnd|apply sublist_take].
    + intros id (i & Hi & _)%elem_of_take. apply Vin. by eapply list_elem_of_lookup_2.
  - intros id tx Htx. rewrite (op_orphans _ _ _ P) in Htx. apply map_lookup_filter_Some in Htx as [Htx Hn]. cbn in Hn.
    rewrite !not_elem_of_app in Hn. destruct Hn as (N1 & N2 & _). rewrite Hexp in N1.
    assert (Hne : orphan_expired mp height id = false).
    { destruct (orphan_expired mp height id); [|done]. exfalso. apply N1. split; [by eexists|done]. }
    split; [|done]. specialize (Hf id tx Htx). destruct (fits chain_id tx) as [[]|] eqn:E; [done| |done].
    exfalso. apply N2, Hbin. split; [|by exists tx]. apply list_elem_of_filter. split; [done|].
    apply elem_of_sorted_ids. by eexists.
Qed.
End orphans.

(** ** Normalization *)

Section normalize.
Context `{HashOrder, Crypto, CarrierJson}.

Abbreviation fits chain_id tx :=
  (transaction_fits_production_resource_v1 tx chain_id resource_production_default).

Lemma seed_heights_lookup height l m n id a :
  m !! id = Some a -> (foldl (seed_heights height) (m, n) l).1 !! id = Some a.
Proof.
  revert m n. induction l as [|x l IH]; intros m n Hm; cbn [foldl]; [done|].
  unfold seed_heights at 2. cbn [fst snd]. destruct (m !! x) as [b|] eqn:Hx; [by apply IH|].
  apply IH. rewrite lookup_insert_ne; [done|]. congruence.
Qed.

Lemma seed_heights_new height l m n id a :
  m !! id = None -> (foldl (seed_heights height) (m, n) l).1 !! id = Some a -> a = height.
Proof.
  intros Hm. cut (forall b, m !! id = Some b -> b = height); [|congruence]. clear Hm.
  revert m n. induction l as [|x l IH]; intros m n Hm; cbn [foldl]; [apply Hm|].
  unfold seed_heights at 2. cbn [fst snd]. destruct (m !! x) as [b|] eqn:Hx; [by apply IH|].
  apply IH. intros c [[<- <-]|[_ Hc]]%lookup_insert_Some; [done|by apply Hm].
Qed.

Lemma remove_expired_frame expired mp :
  let mp' := remove_expired expired mp in
  mp_orphan_transactions mp' = mp_orphan_transactions mp /\ mp_max_transactions mp' = mp_max_transactions mp /\
  mp_max_spent_outpoints mp' = mp_max_spent_outpoints mp /\ mp_max_orphans mp' = mp_max_orphans mp /\
  mp_orphan_admission_height mp' = mp_orphan_admission_height mp.
Proof.
  unfold remove_expired. cbn. generalize (btree_iter expired). intros l. revert mp.
  induction l as [|x l IH]; intros mp; cbn [foldl]; [done|].
  match goal with |- context [foldl _ ?m l] => exact (IH m) end.
Qed.

(** The first step as a pruning. *)
Lemma expiry_pruned s height age :
  0 <= age -> height <= u64_max -> keyed (mp_transactions (cs_mempool s)) ->
  exists r s', prune_expired_mempool s height age = Some (r, s') /\
    s' = s <| cs_mempool := cs_mempool s' |> /\
    pruned (cs_mempool s) (cs_mempool s') (me_expired_txids r) /\
    mp_orphan_admission_height (cs_mempool s') = mp_orphan_admission_height (cs_mempool s) /\
    (forall id a, is_Some (mp_transactions (cs_mempool s) !! id) ->
       mp_admission_height (cs_mempool s) !! id = Some a -> a + age <= height -> id ∈ me_expired_txids r) /\
    ((forall id a, is_Some (mp_transactions (cs_mempool s) !! id) ->
        mp_admission_height (cs_mempool s) !! id = Some a -> height < a + age) -> me_expired_txids r = []).
Proof.
  intros Hage Hh Hk. destruct (prune_expired_spec s height age Hage Hh)
    as (r & s' & Hr & Hex & Htxs & _ & Hfam & _ & _ & _ & _ & _ & expired & ->).
  exists r. eexists. split; [exact Hr|]. split; [by destruct s|].
  destruct (remove_expired_frame expired (cs_mempool s)) as (F1 & F2 & F3 & F4 & F5).
  split; [split|split; [done|split]].
  - exact Htxs.
  - intros id Hid. apply Hex in Hid as (root & a & Hroot & _ & _ & Hrt).
    clear -Hk Hroot Hrt. induction Hrt as [x|x y z (_ & id & tx & Hid & -> & _) _ IH]; [done|].
    apply IH. rewrite (Hk id tx Hid). by eexists.
  - intros id tx i Htx Hi Hp. apply (Hfam id tx i); [|done|done|done].
    apply (Hk id). rewrite Htxs in Htx. by apply map_lookup_filter_Some in Htx as [? _].
  - done.
  - done.
  - intros id a Hid Ha Hle. apply Hex. exists id, a. split_and!; [done|done|done|apply rtc_refl].
  - intros Hfresh. apply elem_of_nil_inv. intros id (root & a & Hroot & Ha & Hle & _)%Hex.
    specialize (Hfresh root a Hroot Ha). lia.
Qed.

(** What normalization guarantees. *)
Record normalized (s s' : ChainState) (out : MempoolResourceNormalizationV1) : Prop := {
  nz_frame : s' = s <| cs_mempool := cs_mempool s' |>;
  nz_invariants : production_mempool_resource_invariants_v1 s' = Some true;
  nz_live : mp_transactions (cs_mempool s') =
    filter (fun p => p.1 ∉ rn_removed_live_txids out) (mp_transactions (cs_mempool s));
  nz_family : family_closed (mp_transactions (cs_mempool s)) (mp_transactions (cs_mempool s'));
  nz_spent : spent_exact (cs_mempool s');
  nz_fresh : forall id a, is_Some (mp_transactions (cs_mempool s') !! id) ->
    mp_admission_height (cs_mempool s) !! id = Some a ->
    d_best_height (cs_dag s) < a + MEMPOOL_RESOURCE_LIVE_MAX_AGE_BLOCKS_V1;
  nz_needed : (forall id tx, mp_transactions (cs_mempool s) !! id = Some tx -> fits (cs_chain_id s) tx = Some true /\
      forall a, mp_admission_height (cs_mempool s) !! id = Some a ->
        d_best_height (cs_dag s) < a + MEMPOOL_RESOURCE_LIVE_MAX_AGE_BLOCKS_V1) ->
    spent_exact (cs_mempool s) ->
    Z.of_nat (size (mp_transactions (cs_mempool s))) <= MEMPOOL_RESOURCE_MAX_TRANSACTIONS_V1 ->
    Z.of_nat (size (mp_spent_outpoints (cs_mempool s))) <= MEMPOOL_RESOURCE_MAX_SPENT_OUTPOINTS_V1 ->
    rn_removed_live_txids out = [];
  nz_orphans : mp_orphan_transactions (cs_mempool s') =
    filter (fun p => p.1 ∉ rn_removed_orphan_txids out) (mp_orphan_transactions (cs_mempool s));
  nz_orphans_fit : forall id tx, mp_orphan_transactions (cs_mempool s') !! id = Some tx ->
    fits (cs_chain_id s) tx = Some true;
}.

Lemma elem_of_sort_dedup l id : id ∈ sort_dedup l <-> id ∈ l.
Proof. unfold sort_dedup. by rewrite elem_of_dedup, isort_elem_of. Qed.
Lemma filter_sort_dedup {V} (m : gmap Hash V) l :
  filter (fun p => p.1 ∉ sort_dedup l) m = filter (fun p => p.1 ∉ l) m.
Proof. apply map_filter_ext. intros id v _. cbn. by rewrite elem_of_sort_dedup. Qed.

(** The invariants once the pieces are known. *)
Lemma invariants_true chain_id s mp :
  mp_max_transactions mp = MEMPOOL_RESOURCE_MAX_TRANSACTIONS_V1 ->
  mp_max_spent_outpoints mp = MEMPOOL_RESOURCE_MAX_SPENT_OUTPOINTS_V1 ->
  mp_max_orphans mp = MEMPOOL_RESOURCE_MAX_ORPHANS_V1 ->
  over_capacity mp = false ->
  Z.of_nat (size (mp_orphan_transactions mp)) <= MEMPOOL_RESOURCE_MAX_ORPHANS_V1 ->
  (forall id tx, mp_transactions mp !! id = Some tx -> fits chain_id tx = Some true) ->
  cs_chain_id s = chain_id ->
  production_mempool_resource_invariants_v1 (s <| cs_mempool := retain_known mp |>) = Some true.
Proof.
  intros C1 C2 C3 Ho Hs Hfit Hc. unfold production_mempool_resource_invariants_v1, over_capacity in *.
  unfold retain_known. cbn. rewrite C1, C2 in *. rewrite C3, !Z.eqb_refl, Hc. cbn.
  apply orb_false_iff in Ho as [-> ->]. cbn. rewrite (proj2 (Z.ltb_ge _ _)) by done.
  destruct (oversized_spec chain_id (mp_transactions mp) (map fst (map_iter (mp_transactions mp)))) as (r & -> & Hr & _).
  { intros id tx Htx. by rewrite (Hfit id tx Htx). }
  assert (r = []) as ->.
  { apply elem_of_nil_inv. intros id [_ (tx & Htx & E)]%Hr. rewrite (Hfit id tx Htx) in E. done. }
  f_equal. repeat (apply andb_true_iff; split); apply bool_decide_eq_true_2; intros x [v Hv]%elem_of_dom;
    by apply map_lookup_filter_Some in Hv as [_ Hv].
Qed.

(** After expiry and the removal of oversized transactions. *)
Lemma normalize_live s :
  keyed (mp_transactions (cs_mempool s)) ->
  (forall id tx, mp_transactions (cs_mempool s) !! id = Some tx -> fits (cs_chain_id s) tx <> None) ->
  exists roots removed s', oversized (cs_chain_id s) (mp_transactions (cs_mempool s))
      (sorted_ids (mp_transactions (cs_mempool s))) = Some roots /\
    remove_live_package s roots = Some (removed, s') /\ package_removed s s' roots removed /\
    (forall id tx, mp_transactions (cs_mempool s') !! id = Some tx -> fits (cs_chain_id s) tx = Some true) /\
    ((forall id tx, mp_transactions (cs_mempool s) !! id = Some tx -> fits (cs_chain_id s) tx = Some true) ->
     removed = []).
Proof.
  intros Hk Hf. destruct (oversized_spec (cs_chain_id s) (mp_transactions (cs_mempool s))
    (sorted_ids (mp_transactions (cs_mempool s))) Hf) as (roots & Hr & Hin & _).
  destruct (remove_live_package_spec s roots Hk) as (removed & s' & Hs & Hp).
  exists roots, removed, s'. split_and!; try done.
  - intros id tx Htx. pose proof (lookup_weaken _ _ _ _ Htx (pruned_subseteq _ _ _ (pk_pruned _ _ _ _ Hp))) as Htx0.
    specialize (Hf id tx Htx0). destruct (fits (cs_chain_id s) tx) as [[]|] eqn:E; [done| |done].
    rewrite (pk_roots _ _ _ _ Hp id) in Htx; [done|]. apply Hin. split; [|by exists tx].
    apply elem_of_sorted_ids. by eexists.
  - intros Hall. apply (pk_none _ _ _ _ Hp). apply elem_of_nil_inv.
    intros id [_ (tx & Htx & E)]%Hin. rewrite (Hall id tx Htx) in E. done.
Qed.

Lemma spent_exact_size mp mp' :
  mp_transactions mp' = mp_transactions mp -> spent_exact mp -> spent_exact mp' ->
  mp_spent_outpoints mp' = mp_spent_outpoints mp.
Proof. intros E H1' H2'. apply set_eq. intros o. by rewrite (H1' o), (H2' o), E. Qed.

Lemma normalize_spec s :
  keyed (mp_transactions (cs_mempool s)) -> keyed (mp_orphan_transactions (cs_mempool s)) ->
  d_best_height (cs_dag s) <= u64_max ->
  (forall id tx, mp_transactions (cs_mempool s) !! id = Some tx \/ mp_orphan_transactions (cs_mempool s) !! id = Some tx ->
     fits (cs_chain_id s) tx <> None) ->
  exists out s', normalize_production_mempool_resources_v1 s = Some (out, s') /\ normalized s s' out.
Proof.
  intros Hk Hko Hh Hf. unfold normalize_production_mempool_resources_v1, mempool_logical_clock.
  set (h := d_best_height (cs_dag s)) in *. cbv zeta.
  set (s0 := s <| cs_mempool ::= apply_production_mempool_resource_caps_v1 |>).
  destruct (foldl (seed_heights h) (mp_admission_height (cs_mempool s0), 0) _) as [heights seeded1] eqn:E1.
  destruct (foldl (seed_heights h) (mp_orphan_admission_height (cs_mempool s0), 0) _) as [oheights seeded2] eqn:E2.
  set (s1 := s0 <| cs_mempool ::= _ |>).
  assert (Hcap : mp_max_transactions (cs_mempool s1) = MEMPOOL_RESOURCE_MAX_TRANSACTIONS_V1 /\
    mp_max_spent_outpoints (cs_mempool s1) = MEMPOOL_RESOURCE_MAX_SPENT_OUTPOINTS_V1 /\
    mp_max_orphans (cs_mempool s1) = MEMPOOL_RESOURCE_MAX_ORPHANS_V1) by done.
  destruct Hcap as (Q1 & Q2 & Q3).
  assert (Hheights : forall id a, mp_admission_height (cs_mempool s) !! id = Some a -> heights !! id = Some a).
  { intros id a Ha. pose proof (seed_heights_lookup h (sorted_ids (mp_transactions (cs_mempool s0)))
      (mp_admission_height (cs_mempool s0)) 0 id a Ha) as Hl. by rewrite E1 in Hl. }
  assert (Hseeded : forall id a, mp_admission_height (cs_mempool s) !! id = None -> heights !! id = Some a -> a = h).
  { intros id a Hn Ha. apply (seed_heights_new h (sorted_ids (mp_transactions (cs_mempool s0)))
      (mp_admission_height (cs_mempool s0)) 0 id a Hn). by rewrite E1. }
  change (rp_live_max_age_blocks resource_production_default) with 1440.
  destruct (expiry_pruned s1 h 1440) as (r & s2 & -> & F2 & P2 & _ & Hold & Hnone2); [lia|done|exact Hk|].
  pose proof (pruned_keyed _ _ _ P2 Hk) as Hk2.
  pose proof (mempool_frame_chain _ _ F2) as Hchain. change (cs_chain_id s1) with (cs_chain_id s) in Hchain.
  destruct (normalize_live s2 Hk2) as (roots & big & s3 & -> & -> & P3 & Hfit3 & Hnone3).
  { intros id tx Htx. rewrite Hchain. apply (Hf id). left. exact (lookup_weaken _ _ _ _ Htx (pruned_subseteq _ _ _ P2)). }
  set (s4 := match big with [] => s3 | _ => s3 <| cs_mempool ::= count_evicted (length big) |> end <| cs_mempool ::= rebuild_spent_outpoints |>).
  pose proof (pk_pruned _ _ _ _ P3) as P3'.
  assert (P4 : pruned (cs_mempool s1) (cs_mempool s4) (me_expired_txids r ++ big)).
  { eapply pruned_same; [exact (pruned_trans _ _ _ _ _ P2 P3')|unfold s4; by destruct big..]. }
  assert (Hk4 : keyed (mp_transactions (cs_mempool s4))) by exact (pruned_keyed _ _ _ P4 Hk).
  assert (Hsp4 : spent_exact (cs_mempool s4)).
  { intros o. unfold s4. destruct big; exact (rebuild_spent_spec _ o). }
  destruct (pr_caps _ _ _ P4) as (C1 & C2 & C3).
  destruct (evict_loop_spec (S (size (mp_transactions (cs_mempool s4)))) s4 [] Hk4 Hsp4) as (ev & s5 & -> & Hev);
    [by rewrite C1, Q1|by rewrite C2, Q2|lia|]. cbn [app].
  pose proof (pruned_trans _ _ _ _ _ P4 (ev_pruned _ _ _ Hev)) as P5. rewrite <- app_assoc in P5.
  destruct (pr_caps _ _ _ P5) as (D1 & D2 & D3). rewrite Q1 in D1. rewrite Q2 in D2. rewrite Q3 in D3.
  assert (F5 : s5 = s <| cs_mempool := cs_mempool s5 |>).
  { eapply mempool_frame_trans, (ev_frame _ _ _ Hev). apply (mempool_frame_trans _ s3); [|unfold s4; by destruct big].
    eapply mempool_frame_trans, (pk_frame _ _ _ _ P3). eapply mempool_frame_trans, F2. done. }
  pose proof (mempool_frame_chain _ _ F5) as Hch5.
  assert (Ho5 : mp_orphan_transactions (cs_mempool s5) = mp_orphan_transactions (cs_mempool s)) by apply P5.
  destruct (normalize_orphans_spec (cs_chain_id s5) h (cs_mempool s5)) as (eo & ro & mp6 & -> & P6 & Hsz & _ & Hfit6).
  { by rewrite Ho5. }
  { rewrite Ho5, Hch5. intros id tx Htx. apply (Hf id). by right. }
  { by rewrite D3. }
  destruct (op_live _ _ _ P6) as (G1 & G2 & G3 & G4 & G5).
  do 2 eexists. split; [reflexivity|]. split; cbn.
  - apply (mempool_frame_trans _ s5); [exact F5|done].
  - refine (invariants_true (cs_chain_id s) s5 mp6 _ _ _ _ _ _ Hch5).
    + by rewrite G3, D1.
    + by rewrite G4, D2.
    + by rewrite G5, D3.
    + unfold over_capacity. rewrite G1, G2, G3, G4. apply Hev.
    + by rewrite D3 in Hsz.
    + rewrite G1. intros id tx Htx. rewrite <- Hchain. apply (Hfit3 id).
      pose proof (lookup_weaken _ _ _ _ Htx (pruned_subseteq _ _ _ (ev_pruned _ _ _ Hev))) as Htx4.
      rewrite <- Htx4. unfold s4. by destruct big.
  - rewrite G1, filter_sort_dedup. apply (pr_txs _ _ _ P5).
  - rewrite G1. apply (pr_family _ _ _ P5).
  - intros o. change (o ∈ mp_spent_outpoints mp6 <-> exists id tx i, mp_transactions mp6 !! id = Some tx /\
      i ∈ tx_inputs tx /\ in_previous_output i = o). rewrite G1, G2. apply (ev_spent _ _ _ Hev).
  - rewrite G1. intros id a [tx Htx] Ha. destruct (Z.lt_ge_cases h (a + 1440)) as [Hlt|Hge]; [exact Hlt|exfalso].
    rewrite (pr_txs _ _ _ P5) in Htx. apply map_lookup_filter_Some in Htx as [Htx Hn]. cbn in Hn.
    apply Hn, elem_of_app. left. apply (Hold id a); [by eexists|by apply Hheights|done].
  - intros Hall Hsp Hs1 Hs2.
    assert (Er : me_expired_txids r = []).
    { apply Hnone2. intros id a [tx Htx] Ha. change (heights !! id = Some a) in Ha.
      destruct (mp_admission_height (cs_mempool s) !! id) as [b|] eqn:Hb.
      - rewrite (Hheights id b Hb) in Ha. injection Ha as <-. by apply (Hall id tx).
      - apply (Hseeded id) in Ha; [subst a; lia|done]. }
    assert (T2 : mp_transactions (cs_mempool s2) = mp_transactions (cs_mempool s)).
    { rewrite (pr_txs _ _ _ P2), Er. apply map_filter_id. intros ? ? _. apply not_elem_of_nil. }
    assert (big = []) as Eb.
    { apply Hnone3. rewrite T2, Hchain. intros id tx Htx. by apply (Hall id tx). }
    assert (T4 : mp_transactions (cs_mempool s4) = mp_transactions (cs_mempool s)).
    { rewrite (pr_txs _ _ _ P4), Er, Eb. apply map_filter_id. intros ? ? _. apply not_elem_of_nil. }
    assert (Ee : ev = []).
    { apply (ev_none _ _ _ Hev). unfold over_capacity. rewrite C1, C2, Q1, Q2, T4.
      rewrite (spent_exact_size (cs_mempool s) (cs_mempool s4) T4 Hsp Hsp4).
      apply orb_false_iff. split; by apply Z.ltb_ge. }
    by rewrite Er, Eb, Ee.
  - rewrite filter_sort_dedup. rewrite <- Ho5. apply (op_orphans _ _ _ P6).
  - intros id tx Htx. rewrite <- Hch5. by apply (Hfit6 id).
Qed.
End normalize.

(** ** Theorem *)


(** ** Witness *)

(** Every message is 100 bytes. *)
Definition model_carrier : CarrierJson := fun _ _ => Some 100.
Definition sample_orphan_state : ChainState :=
  sample_pool_state <| cs_mempool ::= fun mp =>
    mp <| mp_orphan_transactions := {[ "bb" := sample_spend ]} |> |>.

