(* ===== verification/ApplyBlockProps.v ===== *)
(** * Applying a block ([prepare_block_state], [apply_block] of [apply.rs])

    The composition of validation, commit, reconciliation and normalization: a
    valid block is applied, the node stays reachable, and its mempool is again
    within the production resources, free of double spends and closed under the
    parents it depends on. *)

From S2P Require Import Prelude Encoding Crypto Types Merkle State Tx TxV3 Graph Pow.
From S2P Require Import Selection Retarget Ghostdag Ordering Mining Genesis Apply ApplyProps.
From S2P Require Import Validation ValidationProps DagInvariant Mempool MempoolProps Commit CommitProps.
From S2P Require Import MempoolV3 MempoolResource MempoolResourceProps.

(** ** Reconciliation keeps the orphans *)

Definition same_orphans (s s' : ChainState) : Prop :=
  cs_chain_id s' = cs_chain_id s /\
  mp_orphan_transactions (cs_mempool s') = mp_orphan_transactions (cs_mempool s).

Lemma same_orphans_trans s1 s2 s3 : same_orphans s1 s2 -> same_orphans s2 s3 -> same_orphans s1 s3.
Proof. unfold same_orphans. intuition congruence. Qed.

Lemma mark_spent_orphans inputs s : same_orphans s (mark_spent inputs s).2.
Proof.
  revert s. induction inputs as [|i inputs IH]; intros s; simpl; [done|]. case_decide; [done|].
  eapply same_orphans_trans; [|apply IH]. done.
Qed.

Lemma simulate_accept_orphans tx s : same_orphans s (simulate_mempool_accept tx s).2.
Proof.
  unfold simulate_mempool_accept. pose proof (mark_spent_orphans (tx_inputs tx) s) as Hm.
  destruct (mark_spent _ s) as [[|] s1]; simpl in *; [|done]. eapply same_orphans_trans; [exact Hm|].
  unfold assign_first_seen. by destruct (_ !! _).
Qed.

Section reconcile.
Context `{Crypto, HashOrder}.

Lemma reconcile_tx_orphans pass tx pass' :
  reconcile_tx pass tx = Ok pass' -> same_orphans (rp_working pass) (rp_working pass').
Proof.
  unfold reconcile_tx. destruct (validate_transaction _ _) as [|[[]|]]; try (by intros [= <-]).
  pose proof (simulate_accept_orphans tx (rp_working pass)) as Hs.
  destruct (simulate_mempool_accept _ _) as [[|] s1]; by intros [= <-].
Qed.

Lemma reconcile_loop_orphans fuel w pending removed kept w' removed' kept' :
  reconcile_loop fuel w pending removed kept = Ok (w', removed', kept') -> same_orphans w w'.
Proof.
  revert w pending removed kept. induction fuel as [|fuel IH]; intros w pending removed kept; [done|].
  simpl. destruct pending as [|tx pending]; [by intros [= -> _ _]|]. generalize (tx :: pending) as txs. intros txs.
  destruct (try_fold _ _ txs) as [pass|] eqn:Hf; [|done].
  apply (try_fold_ind _ (fun _ p => same_orphans w (rp_working p))) in Hf; simpl; [|done|].
  - simpl. destruct (rp_progressed pass); [|by intros [= <- _ _]].
    intros Hr%IH. by eapply same_orphans_trans.
  - intros pre t post p p' _ Hp Hs%reconcile_tx_orphans. by eapply same_orphans_trans.
Qed.

Lemma reconcile_orphans s r s' : reconcile_mempool s = Ok (r, s') -> same_orphans s s'.
Proof.
  unfold reconcile_mempool. case_decide; [by intros [= _ <-]|].
  destruct (reconcile_loop _ _ _ _ _) as [[[w removed] kept]|] eqn:Hl; [|done].
  apply reconcile_loop_orphans in Hl as [Hc Ho]. simpl. intros [= _ <-]. split; [done|exact Ho].
Qed.
End reconcile.

(** ** Applying a validated block *)

(** The mempool of a node between two blocks. *)
Record pool_ok (s : ChainState) : Prop := {
  po_parents : forall id tx i, mp_transactions (cs_mempool s) !! id = Some tx -> i ∈ tx_inputs tx ->
    is_Some (tx_output_amount s (in_previous_output i));
  po_conflicts : forall id1 tx1 id2 tx2 i1 i2,
    mp_transactions (cs_mempool s) !! id1 = Some tx1 -> mp_transactions (cs_mempool s) !! id2 = Some tx2 ->
    i1 ∈ tx_inputs tx1 -> i2 ∈ tx_inputs tx2 -> in_previous_output i1 = in_previous_output i2 -> id1 = id2;
  po_spent : spent_exact (cs_mempool s);
}.

Lemma elem_of_all_spent K o : o ∈ all_spent K <-> exists tx, tx ∈ K /\ o ∈ spent_outpoints (tx_inputs tx).
Proof.
  unfold all_spent. rewrite list_elem_of_In, in_concat. setoid_rewrite in_map_iff.
  setoid_rewrite list_elem_of_In. naive_solver.
Qed.

Lemma all_spent_unique K tx1 tx2 o :
  NoDup (all_spent K) -> tx1 ∈ K -> tx2 ∈ K ->
  o ∈ spent_outpoints (tx_inputs tx1) -> o ∈ spent_outpoints (tx_inputs tx2) -> tx1 = tx2.
Proof.
  induction K as [|tx K IH]; [by intros _ ?%elem_of_nil|].
  change (all_spent (tx :: K)) with (spent_outpoints (tx_inputs tx) ++ all_spent K).
  rewrite NoDup_app. intros (_ & Hd & Hnd) [->|H1]%elem_of_cons [->|H2]%elem_of_cons Ho1 Ho2; [done| | |by apply IH].
  - destruct (Hd o Ho1). apply elem_of_all_spent. by exists tx2.
  - destruct (Hd o Ho2). apply elem_of_all_spent. by exists tx1.
Qed.

Section apply_block_props.
Context `{Crypto, !CryptoLaws, HashOrder, CarrierJson, Kaspa}.

Abbreviation fits chain_id tx :=
  (transaction_fits_production_resource_v1 tx chain_id resource_production_default).

Lemma holds_normalized u K s s' out : holds u K s -> normalized s s' out -> pool_ok s'.
Proof.
  intros Hh Hn. pose proof (nz_frame _ _ _ Hn) as Hfr.
  assert (Hsub : mp_transactions (cs_mempool s') ⊆ mp_transactions (cs_mempool s)).
  { rewrite (nz_live _ _ _ Hn). apply map_filter_subseteq. }
  assert (HinK : forall id tx, mp_transactions (cs_mempool s') !! id = Some tx -> tx ∈ K /\ tx_txid tx = id).
  { intros id tx Htx. apply (ho_txs _ _ _ Hh). by eapply lookup_weaken. }
  split.
  - intros id tx i Htx Hi. destruct (HinK id tx Htx) as [HK _].
    pose proof (ho_available _ _ _ Hh tx i HK Hi) as Ha. unfold tx_output_amount in *.
    assert (Hu : cs_utxo s' = cs_utxo s) by (by rewrite Hfr).
    rewrite Hu. destruct (u_utxos (cs_utxo s) !! _); [done|].
    destruct (mp_transactions (cs_mempool s) !! op_txid (in_previous_output i)) as [p|] eqn:Hp; [|done].
    destruct (nz_family _ _ _ Hn id tx i Htx Hi) as [p' Hp']; [by eexists|].
    assert (p' = p) as -> by (pose proof (lookup_weaken _ _ _ _ Hp' Hsub); congruence). by rewrite Hp'.
  - intros id1 tx1 id2 tx2 i1 i2 H1' H2' Hi1 Hi2 Heq.
    destruct (HinK _ _ H1') as [HK1 <-], (HinK _ _ H2') as [HK2 <-]. f_equal.
    apply (all_spent_unique K _ _ (in_previous_output i1) (ho_single _ _ _ Hh)); try done.
    + apply list_elem_of_fmap. by exists i1.
    + rewrite Heq. apply list_elem_of_fmap. by exists i2.
  - apply Hn.
Qed.

Lemma commit_legacy_chain block s s' :
  is_Some (d_blocks (cs_dag s) !! d_genesis_hash (cs_dag s)) ->
  commit_legacy block s = (Ok tt, s') -> cs_chain_id s' = cs_chain_id s.
Proof.
  intros [gb Hg]. unfold commit_legacy. rewrite bool_decide_eq_false_2 by congruence. cbv zeta.
  destruct (accept_genesis_hash block s) as (_ & _ & _ & <-).
  generalize (accept_block_to_dag_metadata block s) as s1. intros s1.
  destruct (rebuild_legacy_state _) as [rebuilt|]; [|done]. unfold record_state_root.
  destruct (compute_state_root _) as [|[|]]; by intros [= <-].
Qed.

(** What committing does to the mempool, in legacy mode. *)
Lemma commit_pool env now block s :
  legacy_reachable s -> validate_block env now block s = Ok tt ->
  Forall tx_typed (b_transactions block) -> h_height (b_header block) < u64_max -> mempool_entries_ok s ->
  exists s' K, commit_block_to_state block s = (Ok tt, s') /\
    d_blocks (cs_dag s') !! b_hash block = Some (accepted_header block s) /\
    d_best_height (cs_dag s') = Z.max (d_best_height (cs_dag s)) (h_height (b_header block)) /\
    same_orphans s s' /\ holds (cs_utxo s') K s' /\
    (forall tx, tx ∈ K -> mp_transactions (cs_mempool s) !! tx_txid tx = Some tx).
Proof.
  intros Hs Hv Hty Hmax Hmp. destruct (reachable_legacy_ok s Hs) as (g & u0 & Hl).
  destruct (commit_legacy_ok _ _ _ _ _ _ Hl Hv Hty Hmax) as (s1 & Hc & Hl1 & Hsame & Hm1).
  assert (Hchain : cs_chain_id s1 = cs_chain_id s) by (eapply commit_legacy_chain, Hc;
    destruct (hi_genesis _ _ _ (lo_history _ _ _ Hl)) as [Hg ->]; exact Hg).
  unfold commit_block_to_state.
  rewrite decide_False, Hc by (rewrite (hi_mode _ _ _ (lo_history _ _ _ Hl)); done).
  destruct (reconcile_mempool_facts s1) as (r & s' & K & Hr & Hu & Hd & _ & _ & HK & Hh).
  { destruct (legacy_live _ _ _ Hl1) as (tip & b & _ & _ & Hok). apply Hok. }
  { unfold mempool_entries_ok. by rewrite Hm1. }
  rewrite Hr. exists s', K. split; [done|]. destruct (reconcile_orphans _ _ _ Hr) as [Hch Ho].
  destruct Hsame as (Hb & _ & _ & _ & Hbest & _). destruct (accept_fields block s) as (Hb1 & _ & Hb2 & _).
  rewrite Hd, Hb, Hbest, Hb1, Hb2, Hu. split; [apply lookup_insert_eq|]. split; [apply Z.max_comm|].
  split; [split; congruence|]. split; [done|]. intros tx Htx. rewrite <- Hm1. by apply HK.
Qed.

(** C9: in legacy mode a block that validates against a reachable state is
    applied: [apply_block] returns [Ok], the block is stored, the new state is
    reachable again, and its mempool holds only transactions it held before, is
    within the production resources (the invariants the code asserts are true),
    spends no output twice, has every spent output available in the ledger or
    in the mempool, and reserves exactly the outputs it spends. *)
Theorem apply_validated_block env now block s :
  legacy_reachable s -> validate_block env now block s = Ok tt ->
  Forall tx_typed (b_transactions block) -> h_height (b_header block) < u64_max ->
  d_best_height (cs_dag s) <= u64_max -> mempool_entries_ok s ->
  keyed (mp_orphan_transactions (cs_mempool s)) ->
  (forall id tx, mp_transactions (cs_mempool s) !! id = Some tx \/ mp_orphan_transactions (cs_mempool s) !! id = Some tx ->
     fits (cs_chain_id s) tx <> None) ->
  exists s', apply_block env now block s = (Ok tt, s') /\ legacy_reachable s' /\
    d_blocks (cs_dag s') !! b_hash block = Some (accepted_header block s) /\
    mp_transactions (cs_mempool s') ⊆ mp_transactions (cs_mempool s) /\
    production_mempool_resource_invariants_v1 s' = Some true /\ pool_ok s'.
Proof.
  intros Hs Hv Hty Hmax Hbest Hmp Hko Hf.
  destruct (commit_pool env now block s Hs Hv Hty Hmax Hmp) as (s1 & K & Hc & Hb & Hbest1 & [Hch Ho] & Hh & HK).
  assert (Hin : forall id tx, mp_transactions (cs_mempool s1) !! id = Some tx ->
    tx_txid tx = id /\ mp_transactions (cs_mempool s) !! id = Some tx).
  { intros id tx [Htx <-]%(ho_txs _ _ _ Hh). split; [done|by apply HK]. }
  destruct (normalize_spec s1) as (out & s' & Hn & Hz).
  { intros id tx Htx. by apply Hin in Htx as [? _]. }
  { by rewrite Ho. }
  { rewrite Hbest1. lia. }
  { rewrite Hch, Ho. intros id tx [Htx|Htx]; apply (Hf id); [left; by apply Hin|by right]. }
  pose proof (nz_frame _ _ _ Hz) as Hfr. exists s'. unfold apply_block, prepare_block_state.
  rewrite Hv, Hc, Hn. split; [done|]. split.
  { rewrite Hfr. apply reach_mempool. exact (reach_commit env now block s s1 Hs Hv Hty Hmax Hc). }
  split; [by rewrite Hfr|]. split.
  { apply map_subseteq_spec. intros id tx. rewrite (nz_live _ _ _ Hz). intros [Htx _]%map_lookup_filter_Some.
    by apply Hin. }
  split; [apply Hz|by eapply holds_normalized].
Qed.
End apply_block_props.

(** ** Witness *)

Lemma apply_validated_block_witness :
  exists s', @apply_block list_order model_crypto model_carrier model_kaspa no_env 200 first_block genesis_state
      = (Ok tt, s') /\
    @production_mempool_resource_invariants_v1 list_order model_crypto model_carrier s' = Some true.
Proof.
  assert (Hmp : mp_transactions (cs_mempool genesis_state) = ∅) by by_compute.
  assert (Hor : mp_orphan_transactions (cs_mempool genesis_state) = ∅) by by_compute.
  destruct (@apply_validated_block model_crypto model_crypto_laws list_order model_carrier model_kaspa no_env 200
    first_block genesis_state (reach_init "main" _ genesis_state_init) first_block_valid)
    as (s' & Ha & _ & _ & _ & Hi & _).
  - by_decide.
  - by_decide.
  - by_decide.
  - unfold mempool_entries_ok. rewrite Hmp. apply map_Forall_empty.
  - rewrite Hor. apply map_Forall_empty.
  - rewrite Hmp, Hor. intros id tx [Htx|Htx]; by rewrite lookup_empty in Htx.
  - exists s'. split; [exact Ha|exact Hi].
Defined.
