(* ===== verification/Accept.v ===== *)
(** * Accepting blocks ([accept.rs], the messages of [errors.rs])

    The classification of validation errors, the direct and the atomic
    acceptance of a block, and the serialized mutation of the chain state.

    The callbacks that persist and broadcast are parameters over a world [W];
    whether the coordinator's lock is poisoned is an argument, and each reading
    of the clock is one. *)

From stdpp Require Import pretty.
From S2P Require Import Prelude Encoding Crypto Types Merkle State Tx TxV3 Graph Pow.
From S2P Require Import Selection Retarget Ghostdag Ordering Mining Genesis Apply.
From S2P Require Import Validation Mempool Commit MempoolV3 MempoolResource.

(** ** Messages *)

(** [l.join(sep)]. *)
Fixpoint join (sep : string) (l : list string) : string :=
  match l with
  | [] => ""
  | [s] => s
  | s :: l' => s +:+ sep +:+ join sep l'
  end.
(** [haystack.contains(needle)]. *)
Fixpoint contains_from (needle haystack : bytes) : bool :=
  if bool_decide (take (length needle) haystack = needle) then true
  else match haystack with
       | [] => false
       | _ :: haystack' => contains_from needle haystack'
       end.
Definition contains_str (haystack needle : string) : bool :=
  contains_from (str_bytes needle) (str_bytes haystack).
Definition show_bool (b : bool) : string := if b then "true" else "false".

Definition InvalidStateRootClassification_as_str (c : InvalidStateRootClassification) : string :=
  match c with
  | StaleTemplate => "stale_template"
  | TrueInvalid => "true_invalid"
  | UnknownContext => "unknown_context"
  | ParentStateContextUnavailableClass => "parent_state_context_unavailable"
  end.
Definition InvalidStateRoot_to_string (d : InvalidStateRootDiagnostics) : string :=
  "invalid state root: supplied " +:+ isr_supplied_state_root d +:+ ", computed "
  +:+ isr_computed_state_root d +:+ "; classification="
  +:+ InvalidStateRootClassification_as_str (isr_classification d) +:+ "; block_hash=" +:+ isr_block_hash d
  +:+ "; height=" +:+ pretty (isr_height d) +:+ "; parents=" +:+ join "," (isr_parent_hashes d)
  +:+ "; tx_count=" +:+ pretty (isr_tx_count d) +:+ "; coinbase_miner="
  +:+ default "<none>" (isr_coinbase_miner_address d) +:+ "; selected_tip="
  +:+ default "<none>" (isr_selected_tip d) +:+ "; current_tips=" +:+ join "," (isr_current_tips d)
  +:+ "; stale_template=" +:+ show_bool (isr_stale_template d) +:+ "; unknown_context="
  +:+ show_bool (isr_unknown_context d).
Definition PulseError_to_string (e : PulseError) : string :=
  match e with
  | InvalidSignature => "invalid signature"
  | InsufficientFunds => "insufficient funds"
  | UtxoNotFound => "utxo not found"
  | DoubleSpend => "double spend"
  | TxAlreadyExists => "transaction already exists"
  | BlockAlreadyExists => "block already exists"
  | InvalidBlock s => "invalid block: " +:+ s
  | InvalidTransaction s => "invalid transaction: " +:+ s
  | InvalidTxid => "invalid txid"
  | ParentStateContextUnavailable block_hash parent_hash =>
      "parent state context unavailable for block " +:+ block_hash +:+ " parent " +:+ parent_hash
  | InvalidStateRoot d => InvalidStateRoot_to_string d
  | MissingCoinbase => "missing coinbase transaction"
  | MultipleCoinbase => "multiple coinbase transactions"
  | CoinbaseNotFirst => "coinbase transaction is not first"
  | ExcessiveCoinbaseReward => "excessive coinbase reward"
  | DuplicateUtxoOutpoint s => "duplicate UTXO outpoint: " +:+ s
  | RewardOverflow => "reward overflow"
  | DuplicateOutpoint s => "duplicate UTXO outpoint: " +:+ s
  | NonDeterministicState s => "non-deterministic state: " +:+ s
  | ChainIdMismatch => "chain id mismatch"
  | StorageError s => "storage error: " +:+ s
  | P2pDisabled => "p2p disabled"
  | NotFound s => "not found: " +:+ s
  | Internal s => "internal error: " +:+ s
  end.

(** ** Results *)

Inductive AcceptSource := Rpc | P2p | LocalMining.
Definition AcceptSource_as_str (s : AcceptSource) : string :=
  match s with Rpc => "rpc" | P2p => "p2p" | LocalMining => "local_mining" end.

Inductive BlockAcceptanceResult :=
| Accepted
| Duplicate
| InvalidPow
| MissingParent
| InvalidTransactionResult
| Malformed
| Rejected (reason : string).
#[global] Instance BlockAcceptanceResult_eq : EqDecision BlockAcceptanceResult.
Proof. solve_decision. Defined.
Definition is_accepted (r : BlockAcceptanceResult) : bool :=
  match r with Accepted => true | _ => false end.

Definition classify_block_validation_error (err : PulseError) : BlockAcceptanceResult :=
  match err with
  | BlockAlreadyExists => Duplicate
  | InvalidBlock msg =>
      if contains_str msg "consensus difficulty" || contains_str msg "proof of work" then InvalidPow
      else if contains_str msg "missing parent" then MissingParent
      else Malformed
  | InvalidTransaction _ | InvalidTxid | InvalidSignature | DoubleSpend | InsufficientFunds
  | UtxoNotFound => InvalidTransactionResult
  | InvalidStateRoot _ => Rejected (PulseError_to_string err)
  | MissingCoinbase | MultipleCoinbase | CoinbaseNotFirst | ExcessiveCoinbaseReward
  | DuplicateUtxoOutpoint _ | RewardOverflow => Malformed
  | other => Rejected (PulseError_to_string other)
  end.

Record AtomicBlockAcceptance := mkAtomicBlockAcceptance {
  aba_result : BlockAcceptanceResult;
  aba_persisted : bool;
  aba_committed : bool;
  aba_broadcast : bool;
}.
Definition rejected_acceptance (result : BlockAcceptanceResult) : AtomicBlockAcceptance :=
  mkAtomicBlockAcceptance result false false false.

Record ChainStateMutationOutcome (T : Type) := mkChainStateMutationOutcome {
  cmo_result : T;
  cmo_generation : Z;
}.
Arguments mkChainStateMutationOutcome {T}.
Arguments cmo_result {T}.
Arguments cmo_generation {T}.

(** ** Publishing a prepared state *)

(** The generation and source of the mutation, and the counters that survive
    from the current state; the last accepted block is set by the caller. *)
Definition stamp (state working : ChainState) (next_generation : Z) (source : string)
  (last_hash : option Hash) (last_source : option string) : ChainState :=
  working
    <| cs_chain_state_generation := next_generation |>
    <| cs_chain_state_mutation_generation := next_generation |>
    <| cs_chain_state_mutation_source := Some source |>
    <| cs_chain_state_mutation_conflict_total := cs_chain_state_mutation_conflict_total state |>
    <| cs_chain_state_reprepare_total := cs_chain_state_reprepare_total state |>
    <| cs_accepted_hash_lost_from_memory_total := cs_accepted_hash_lost_from_memory_total state |>
    <| cs_accepted_hash_terminalization_prevented_total := cs_accepted_hash_terminalization_prevented_total state |>
    <| cs_accepted_storage_repair_total := cs_accepted_storage_repair_total state |>
    <| cs_last_lost_accepted_hash := cs_last_lost_accepted_hash state |>
    <| cs_last_lost_accepted_height := cs_last_lost_accepted_height state |>
    <| cs_accepted_commit_generation_conflict_total := cs_accepted_commit_generation_conflict_total state |>
    <| cs_accepted_commit_reprepare_total := cs_accepted_commit_reprepare_total state |>
    <| cs_accepted_commit_serialized_total := cs_accepted_commit_serialized_total state |>
    <| cs_accepted_commit_publish_mismatch_total := cs_accepted_commit_publish_mismatch_total state |>
    <| cs_accepted_commit_last_hash := last_hash |>
    <| cs_accepted_commit_last_source := last_source |>.

Definition count_conflict (state : ChainState) : ChainState :=
  state <| cs_chain_state_mutation_conflict_total ::= fun n => saturating_add 64 n 1 |>
        <| cs_chain_state_reprepare_total ::= fun n => saturating_add 64 n 1 |>.

Section mutate.
Context {W T : Type}.
Variable prepare : W -> ChainState -> outcome (ChainState * T) * W.
Variable persist : W -> ChainState -> result PulseError unit * W.

(** The loop; one unit of fuel per turn. *)
Fixpoint mutate_loop (fuel : nat) (source : string) (base_generation : Z) (working : ChainState) (res : T)
  (state : ChainState) (w : W) : option (outcome (ChainStateMutationOutcome T) * ChainState * W) :=
  match fuel with
  | O => None
  | S fuel' =>
      if negb (cs_chain_state_generation state =? base_generation) then
        let state := count_conflict state in
        match prepare w state with
        | (Err e, w) => Some (Err e, state, w)
        | (Ok (working, res), w) =>
            mutate_loop fuel' source (cs_chain_state_generation state) working res state w
        end
      else
        let next_generation := saturating_add 64 base_generation 1 in
        let working := stamp state working next_generation source
          (cs_accepted_commit_last_hash state) (cs_accepted_commit_last_source state) in
        match persist w working with
        | (Err e, w) => Some (Err (Some e), state, w)
        | (Ok _, w) => Some (Ok (mkChainStateMutationOutcome res next_generation), working, w)
        end
  end.
Definition mutate_chain_state_serialized (poisoned : bool) (source : string) (state : ChainState) (w : W)
  : option (outcome (ChainStateMutationOutcome T) * ChainState * W) :=
  let base_generation := cs_chain_state_generation state in
  match prepare w state with
  | (Err e, w) => Some (Err e, state, w)
  | (Ok (working, res), w) =>
      if poisoned then Some (fails (Internal "chain state mutation coordinator poisoned"), state, w)
      else mutate_loop 2 source base_generation working res state w
  end.
End mutate.

(** ** Accepting a block *)

Section accept.
Context `{HashOrder, Crypto, CarrierJson, Kaspa}.

(** [enforce_pow] holds for every source. *)
Definition enforce_pow (source : AcceptSource) : bool :=
  match source with Rpc | P2p | LocalMining => true end.

(** [None] is a panic; the two clock readings are those of the two validations. *)
Definition accept_block_with_result (env : string -> option string) (now1 now2 : Z) (block : Block)
  (source : AcceptSource) (state : ChainState) : option BlockAcceptanceResult * ChainState :=
  match pow_validation_result (b_header block) with
  | None => (None, state)
  | Some pow =>
      if enforce_pow source && negb (pv_accepted pow) then (Some InvalidPow, state) else
      match validate_block env now1 block state with
      | Err None => (None, state)
      | Err (Some err) => (Some (classify_block_validation_error err), state)
      | Ok _ =>
          match apply_block env now2 block state with
          | (Err None, state) => (None, state)
          | (Err (Some err), state) => (Some (classify_block_validation_error err), state)
          | (Ok _, state) => (Some Accepted, state)
          end
      end
  end.

Definition accept_block (env : string -> option string) (now1 now2 : Z) (block : Block)
  (source : AcceptSource) (state : ChainState) : outcome unit * ChainState :=
  let '(r, state) := accept_block_with_result env now1 now2 block source state in
  (match r with
   | None => Err None
   | Some Accepted => Ok tt
   | Some Duplicate => fails BlockAlreadyExists
   | Some MissingParent => fails (InvalidBlock "missing parent")
   | Some InvalidPow => fails (InvalidBlock ("pow rejected by current " +:+ selected_pow_name +:+ " policy"))
   | Some InvalidTransactionResult => fails (InvalidBlock "invalid transaction in block")
   | Some Malformed => fails (InvalidBlock "malformed block")
   | Some (Rejected reason) => fails (InvalidBlock reason)
   end, state).

Section atomic.
Context {W : Type}.
Variable persist : W -> Block -> ChainState -> result PulseError unit * W.
Variable broadcast : W -> Block -> result PulseError unit * W.

Definition publish_mismatch (block : Block) (next_generation : Z) (state : ChainState) : bool :=
  negb (bool_decide (cs_accepted_commit_last_hash state = Some (b_hash block)))
  || negb (cs_chain_state_generation state =? next_generation).

Fixpoint accept_loop (fuel : nat) (env : string -> option string) (now : nat -> Z) (attempt : nat) (block : Block)
  (source : AcceptSource) (base_generation : Z) (working state : ChainState) (w : W)
  : option (outcome AtomicBlockAcceptance * ChainState * W) :=
  match fuel with
  | O => None
  | S fuel' =>
      if negb (cs_chain_state_generation state =? base_generation) then
        let state := count_conflict
          (state <| cs_accepted_commit_generation_conflict_total ::= fun n => saturating_add 64 n 1 |>
                 <| cs_accepted_commit_reprepare_total ::= fun n => saturating_add 64 n 1 |>) in
        match prepare_block_state env (now (S attempt)) block state with
        | Err None => Some (Err None, state, w)
        | Err (Some err) => Some (Ok (rejected_acceptance (classify_block_validation_error err)), state, w)
        | Ok working =>
            accept_loop fuel' env now (S attempt) block source (cs_chain_state_generation state) working state w
        end
      else
        let next_generation := saturating_add 64 base_generation 1 in
        let working := stamp state working next_generation (AcceptSource_as_str source)
          (Some (b_hash block)) (Some (AcceptSource_as_str source)) in
        match persist w block working with
        | (Err e, w) => Some (Err (Some e), state, w)
        | (Ok _, w) =>
            let state := working in
            if publish_mismatch block next_generation state then
              let state := state <| cs_accepted_commit_publish_mismatch_total ::= fun n => saturating_add 64 n 1 |> in
              Some (fails (Internal ("accepted commit publish mismatch hash=" +:+ b_hash block
                      +:+ " generation=" +:+ pretty next_generation)), state, w)
            else
              match broadcast w block with
              | (Err e, w) => Some (Err (Some e), state, w)
              | (Ok _, w) => Some (Ok (mkAtomicBlockAcceptance Accepted true true true), state, w)
              end
        end
  end.

Definition accept_block_atomically (env : string -> option string) (now : nat -> Z) (poisoned : bool)
  (block : Block) (source : AcceptSource) (state : ChainState) (w : W)
  : option (outcome AtomicBlockAcceptance * ChainState * W) :=
  match pow_validation_result (b_header block) with
  | None => Some (Err None, state, w)
  | Some pow =>
      if enforce_pow source && negb (pv_accepted pow)
      then Some (Ok (rejected_acceptance InvalidPow), state, w) else
      let base_generation := cs_chain_state_generation state in
      match prepare_block_state env (now 0%nat) block state with
      | Err None => Some (Err None, state, w)
      | Err (Some err) => Some (Ok (rejected_acceptance (classify_block_validation_error err)), state, w)
      | Ok working =>
          if poisoned then Some (fails (Internal "accepted state commit coordinator poisoned"), state, w) else
          let state := state <| cs_accepted_commit_serialized_total ::= fun n => saturating_add 64 n 1 |>
                             <| cs_chain_state_mutation_source := Some (AcceptSource_as_str source) |> in
          accept_loop 2 env now 0 block source base_generation working state w
      end
  end.
End atomic.
End accept.
