(* ===== verification/Orphans.v ===== *)
(** * Orphan blocks ([orphans.rs])

    The pool of blocks whose parents are unknown, its two missing-parent
    indexes, expiry and eviction, the terminal states of parents nobody could
    deliver, and the adoption of the orphans that became ready.

    Readings of the clock are arguments; in the adoption loop they are functions
    of the number of the attempt. *)

From stdpp Require Import pretty.
From S2P Require Import Prelude Encoding Crypto Types Merkle State Tx TxV3 Graph Pow.
From S2P Require Import Selection Retarget Ghostdag Ordering Mining Genesis Apply.
From S2P Require Import Validation Mempool Commit MempoolV3 MempoolResource Accept Text.
From Stdlib Require Strings.String.

Definition DEFAULT_ORPHAN_MAX_COUNT : Z := 512.
Definition DEFAULT_ORPHAN_MAX_AGE_MS : Z := 15 * 60 * 1000.
Definition DEFAULT_ORPHAN_RECOVERY_EVICT_LIMIT : Z := 32.
Definition DEFAULT_TERMINAL_MISSING_PARENT_HISTORY_LIMIT : Z := 256.

Record OrphanQueueResult := mkOrphanQueueResult {
  oq_queued : bool;
  oq_evicted : Z;
}.
Record OrphanAdoptionResult := mkOrphanAdoptionResult {
  oa_accepted : Z;
  oa_rejected : Z;
  oa_retried : Z;
  oa_accepted_hashes : list Hash;
  oa_failure_reasons : gmap string Z;
}.
#[global] Instance eta_OrphanAdoptionResult : Eta OrphanAdoptionResult := fun r =>
  mkOrphanAdoptionResult (oa_accepted r) (oa_rejected r) (oa_retried r) (oa_accepted_hashes r)
    (oa_failure_reasons r).
Record OrphanBacklogClassification := mkOrphanBacklogClassification {
  ob_retryable_ready : Z;
  ob_waiting_missing_parent : Z;
  ob_stale_missing_parent_entries : Z;
  ob_unindexed_missing_parent_entries : Z;
}.
#[global] Instance eta_OrphanBacklogClassification : Eta OrphanBacklogClassification := fun r =>
  mkOrphanBacklogClassification (ob_retryable_ready r) (ob_waiting_missing_parent r)
    (ob_stale_missing_parent_entries r) (ob_unindexed_missing_parent_entries r).
Record MissingParentTerminalResult := mkMissingParentTerminalResult {
  mt_transitioned : bool;
  mt_evicted_orphans : Z;
  mt_waiting_orphans : Z;
}.
Record ResidualMissingParentTerminalResult := mkResidualMissingParentTerminalResult {
  rt_transitioned_parents : Z;
  rt_evicted_orphans : Z;
  rt_waiting_orphans : Z;
}.
Definition ResidualMissingParentTerminalResult_default := mkResidualMissingParentTerminalResult 0 0 0.

(** [usize] lengths and increments. *)
Definition zlen {A} (l : list A) : Z := Z.of_nat (length l).
Definition incr (n : Z) : Z := saturating_add 64 n 1.

(** ** Failure reasons *)

Definition is_ascii_alphanumeric (c : Z) : bool :=
  is_ascii_digit c || ((65 <=? c) && (c <=? 90)) || ((97 <=? c) && (c <=? 122)).
Definition to_ascii_lowercase (c : Z) : Z := if (65 <=? c) && (c <=? 90) then c + 32 else c.
Fixpoint join_text (sep : Z) (l : list text) : text :=
  match l with
  | [] => []
  | [s] => s
  | s :: l' => s ++ sep :: join_text sep l'
  end.
(** Non-ASCII characters become underscores, so the reason is ASCII. *)
Definition ascii_string (s : text) : string := String.string_of_list_byte (map byte_of_Z s).
Definition reprocess_failure_reason (r : BlockAcceptanceResult) : string :=
  match r with
  | MissingParent => "missing_parent"
  | Duplicate => "duplicate"
  | InvalidPow => "invalid_pow"
  | InvalidTransactionResult => "invalid_transaction"
  | Malformed => "malformed"
  | Rejected message =>
      let normalized := map to_ascii_lowercase (trim (utf8_chars (str_bytes message))) in
      if bool_decide (normalized = []) then "rejected"
      else ascii_string (join_text 95 (filter (fun part => part <> [])
             (split_on 95 (map (fun ch => if is_ascii_alphanumeric ch then ch else 95) normalized))))
  | Accepted => "accepted"
  end.
Definition record_reprocess_failure (failure_reasons : gmap string Z) (r : BlockAcceptanceResult) : gmap string Z :=
  let reason := reprocess_failure_reason r in
  <[reason := default 0 (failure_reasons !! reason) + 1]> failure_reasons.

(** ** Missing parents *)

Definition in_dag (state : ChainState) (h : Hash) : bool := bool_decide (is_Some (d_blocks (cs_dag state) !! h)).
(** A [BTreeSet] collected from a list, iterated. *)
Definition sorted_set (l : list Hash) : list Hash := btree_iter (list_to_set l : gset Hash).
Definition missing_block_parents (block : Block) (state : ChainState) : list Hash :=
  sorted_set (filter (fun parent => in_dag state parent = false) (h_parents (b_header block))).
Definition normalize_missing_parents (missing_parents : list Hash) : list Hash := sorted_set missing_parents.

(** [if let Some(waiting) = index.get_mut(parent)]: remove the orphan, and the
    entry when it becomes empty. *)
Definition unindex_parent (orphan_hash : Hash) (index : gmap Hash (gset Hash)) (parent : Hash)
  : gmap Hash (gset Hash) :=
  match index !! parent with
  | None => index
  | Some waiting =>
      let waiting := waiting ∖ {[orphan_hash]} in
      if bool_decide (waiting = ∅) then delete parent index else <[parent := waiting]> index
  end.
Definition unindex_orphan_missing_parents (state : ChainState) (orphan_hash : Hash) : ChainState :=
  match cs_orphan_missing_parents state !! orphan_hash with
  | None => state
  | Some existing =>
      state <| cs_orphan_parent_index ::= fun index => foldl (unindex_parent orphan_hash) index existing |>
  end.

Definition is_terminal_state (s : MissingParentState) : bool :=
  match s with
  | Exhausted _ | ExhaustedResidual | TerminalEvicted | Quarantined => true
  | _ => false
  end.
Definition suppress_terminal_missing_parent_retry (state : ChainState) (parent : Hash) : bool :=
  match cs_terminal_missing_parents state !! parent with
  | Some entry => is_terminal_state (mpt_state entry)
  | None => false
  end.
Definition index_parent (orphan_hash : Hash) (index : gmap Hash (gset Hash)) (parent : Hash)
  : gmap Hash (gset Hash) :=
  <[parent := {[orphan_hash]} ∪ default ∅ (index !! parent)]> index.
Definition index_orphan_missing_parents (state : ChainState) (orphan_hash : Hash) (missing_parents : list Hash)
  : ChainState :=
  let state := unindex_orphan_missing_parents state orphan_hash in
  let missing_parents := normalize_missing_parents missing_parents in
  let active := filter (fun parent => suppress_terminal_missing_parent_retry state parent = false) missing_parents in
  state <| cs_orphan_parent_index ::= fun index => foldl (index_parent orphan_hash) index active |>
        <| cs_orphan_missing_parents ::= <[orphan_hash := active]> |>.

Definition remove_queued_orphan (state : ChainState) (orphan_hash : Hash) : option Block * ChainState :=
  let block := cs_orphan_blocks state !! orphan_hash in
  let state := state <| cs_orphan_blocks ::= delete orphan_hash |> in
  let state := unindex_orphan_missing_parents state orphan_hash in
  (block, state <| cs_orphan_missing_parents ::= delete orphan_hash |>
                <| cs_orphan_received_at_ms ::= delete orphan_hash |>).
(** The loops that remove a list of orphans and count those that were queued. *)
Definition remove_counted (s : Z * ChainState) (hash : Hash) : Z * ChainState :=
  let '(block, state) := remove_queued_orphan s.2 hash in
  (match block with Some _ => incr s.1 | None => s.1 end, state).
Definition remove_queued_orphans (state : ChainState) (hashes : list Hash) : Z * ChainState :=
  foldl remove_counted (0, state) hashes.

Definition orphan_children_waiting_for_parent (state : ChainState) (parent : Hash) : list Hash :=
  match cs_orphan_parent_index state !! parent with
  | Some children => btree_iter children
  | None => []
  end.

(** ** Roots to fetch *)

(** The stack of the code with its top first; [None] is running out of fuel. *)
Fixpoint roots_loop (state : ChainState) (fuel : nat) (stack : list Hash) (visited roots : gset Hash)
  : option (gset Hash) :=
  match fuel with
  | O => None
  | S fuel' =>
      match stack with
      | [] => Some roots
      | parent :: stack' =>
          if in_dag state parent || bool_decide (parent ∈ visited) then roots_loop state fuel' stack' visited roots
          else
            let visited := {[parent]} ∪ visited in
            match cs_orphan_blocks state !! parent with
            | Some queued_parent =>
                roots_loop state fuel'
                  (filter (fun ancestor => in_dag state ancestor = false) (h_parents (b_header queued_parent)) ++ stack')
                  visited roots
            | None => roots_loop state fuel' stack' visited ({[parent]} ∪ roots)
            end
      end
  end.
(** The ancestors the search pushes for a hash, and fuel for it: one unit per
    stack entry and per pushed ancestor. *)
Definition unresolved_parents (state : ChainState) (h : Hash) : list Hash :=
  if in_dag state h then [] else
  match cs_orphan_blocks state !! h with
  | Some b => rev (filter (fun ancestor => in_dag state ancestor = false) (h_parents (b_header b)))
  | None => []
  end.
Definition roots_fuel (state : ChainState) (orphan : Block) : nat :=
  S (length (h_parents (b_header orphan)) + edge_count (unresolved_parents state) (dom (cs_orphan_blocks state))).
Definition orphan_missing_roots (state : ChainState) (orphan_hash : Hash) : option (list Hash) :=
  match cs_orphan_blocks state !! orphan_hash with
  | None => Some []
  | Some orphan =>
      btree_iter <$> roots_loop state (roots_fuel state orphan)
        (rev (isort String.le (h_parents (b_header orphan)))) ∅ ∅
  end.

Section orphans.
Context `{HashOrder}.

(** ** Backlog *)

Definition classify_orphan (state : ChainState) (c : OrphanBacklogClassification) (p : Hash * Block)
  : OrphanBacklogClassification :=
  let '(hash, block) := p in
  let actual_missing := missing_block_parents block state in
  let recorded_missing := default [] (cs_orphan_missing_parents state !! hash) in
  let c := if bool_decide (actual_missing = []) then c <| ob_retryable_ready ::= incr |>
           else c <| ob_waiting_missing_parent ::= incr |> in
  let c := if bool_decide (normalize_missing_parents recorded_missing <> actual_missing)
           then c <| ob_stale_missing_parent_entries ::= incr |> else c in
  foldl (fun c parent =>
    if bool_decide (hash ∈ default ∅ (cs_orphan_parent_index state !! parent)) then c
    else c <| ob_unindexed_missing_parent_entries ::= incr |>) c actual_missing.
Definition classify_orphan_backlog (state : ChainState) : OrphanBacklogClassification :=
  foldl (classify_orphan state) (mkOrphanBacklogClassification 0 0 0 0) (map_iter (cs_orphan_blocks state)).

Definition reindex_orphan (state : ChainState) (orphan_hash : Hash) : ChainState :=
  match cs_orphan_blocks state !! orphan_hash with
  | None => state
  | Some block => index_orphan_missing_parents state orphan_hash (missing_block_parents block state)
  end.
Definition rebuild_orphan_parent_index (state : ChainState) : OrphanBacklogClassification * ChainState :=
  let state := state <| cs_orphan_missing_parents := ∅ |> <| cs_orphan_parent_index := ∅ |> in
  let orphan_hashes := sorted_ids (cs_orphan_blocks state) in
  let state := foldl reindex_orphan state orphan_hashes in
  (classify_orphan_backlog state, state).
Definition revalidate_orphan_backlog (state : ChainState) : OrphanBacklogClassification * ChainState :=
  rebuild_orphan_parent_index state.

(** ** Expiry and eviction *)

(** [left_ts.cmp(right_ts).then_with(|| left_hash.cmp(right_hash))]. *)
Definition compare_oldest (a b : Hash * Z) : comparison :=
  then_with (a.2 ?= b.2) (String.compare a.1 b.1).
Definition oldest_first (l : list (Hash * Z)) : list (Hash * Z) := isort (cmp_le compare_oldest) l.
Definition stale_orphans (state : ChainState) (now max_age_ms : Z) : list (Hash * Z) :=
  filter (fun p => max_age_ms <? saturating_sub now p.2 = true) (map_iter (cs_orphan_received_at_ms state)).

Definition evict_stale_orphans_bounded (state : ChainState) (now_ms max_age_ms limit : Z) : Z * ChainState :=
  if limit =? 0 then (0, state)
  else remove_queued_orphans state
         (map fst (take (Z.to_nat limit) (oldest_first (stale_orphans state now_ms max_age_ms)))).

Definition prune_orphans (state : ChainState) (now max_count max_age_ms : Z) : Z * ChainState :=
  let '(removed, state) := remove_queued_orphans state (map fst (stale_orphans state now max_age_ms)) in
  let count := Z.of_nat (size (cs_orphan_blocks state)) in
  if max_count <? count then
    let oldest := oldest_first (map_iter (cs_orphan_received_at_ms state)) in
    let overflow := Z.to_nat (saturating_sub count max_count) in
    let '(removed', state) := remove_queued_orphans state (map fst (take overflow oldest)) in
    (removed + removed', state)
  else (removed, state).

Definition active_missing_parent_count (state : ChainState) : Z := Z.of_nat (size (cs_orphan_parent_index state)).
(** [None] when a search for roots runs out of fuel. *)
Definition pending_missing_parent_count (state : ChainState) : option Z :=
  let indexed := active_missing_parent_count state in
  if 0 <? indexed then Some indexed else
  let recorded : gset Hash := list_to_set (concat (map snd (map_iter (cs_orphan_missing_parents state)))) in
  if bool_decide (0 < Z.of_nat (size recorded)) then Some (Z.of_nat (size recorded)) else
  let collect (hash : Hash) (acc : option (gset Hash)) : option (gset Hash) :=
    match acc, orphan_missing_roots state hash with
    | Some acc, Some roots => Some (list_to_set roots ∪ acc)
    | _, _ => None
    end in
  match foldr collect (Some ∅) (map fst (map_iter (cs_orphan_blocks state))) with
  | Some roots => Some (Z.of_nat (size roots))
  | None => None
  end.

(** The pool with the new orphan, before it is pruned. *)
Definition enqueue_orphan (state : ChainState) (now1 : Z) (block : Block) (missing_parents : list Hash) : ChainState :=
  let state := state <| cs_terminal_missing_parents ::= fun m => foldl (fun m parent => delete parent m) m missing_parents |> in
  let state := state <| cs_orphan_blocks ::= <[b_hash block := block]> |> in
  let state := index_orphan_missing_parents state (b_hash block) missing_parents in
  state <| cs_orphan_received_at_ms ::= <[b_hash block := now1]> |>.
Definition queue_orphan_block_bounded (state : ChainState) (now1 now2 : Z) (block : Block)
  (missing_parents : list Hash) (max_count max_age_ms : Z) : OrphanQueueResult * ChainState :=
  let hash := b_hash block in
  if bool_decide (is_Some (cs_orphan_blocks state !! hash)) then (mkOrphanQueueResult false 0, state) else
  let state := enqueue_orphan state now1 block missing_parents in
  let '(evicted, state) := prune_orphans state now2 max_count max_age_ms in
  (mkOrphanQueueResult (bool_decide (is_Some (cs_orphan_blocks state !! hash))) evicted, state).
Definition queue_orphan_block (state : ChainState) (now1 now2 : Z) (block : Block) (missing_parents : list Hash)
  : bool * ChainState :=
  let '(r, state) := queue_orphan_block_bounded state now1 now2 block missing_parents
                       DEFAULT_ORPHAN_MAX_COUNT DEFAULT_ORPHAN_MAX_AGE_MS in
  (oq_queued r, state).

(** ** Terminal missing parents *)

Definition terminal_missing_parent_is_active_blocker (state : ChainState) (parent : Hash)
  (entry : MissingParentTerminalEntry) : bool :=
  bool_decide (is_Some (cs_orphan_parent_index state !! parent))
  || existsb (fun orphan => bool_decide (is_Some (cs_orphan_blocks state !! orphan))) (mpt_waiting_orphans entry).
Definition active_terminal_entries (state : ChainState) : list (Hash * MissingParentTerminalEntry) :=
  filter (fun p => terminal_missing_parent_is_active_blocker state p.1 p.2 = true)
    (map_iter (cs_terminal_missing_parents state)).
Definition terminal_missing_parent_active_blocking_count (state : ChainState) : Z :=
  zlen (active_terminal_entries state).
Definition terminal_missing_parent_historical_count (state : ChainState) : Z :=
  saturating_sub (Z.of_nat (size (cs_terminal_missing_parents state)))
    (terminal_missing_parent_active_blocking_count state).
Definition terminal_missing_parent_reason (entry : MissingParentTerminalEntry) : string :=
  match mpt_state entry with
  | Requestable => "requestable"
  | Pending peer => "pending:" +:+ peer
  | Retryable peer => "retryable:" +:+ peer
  | Backoff until_ms => "backoff_until_ms:" +:+ pretty until_ms
  | Exhausted peers => "exhausted_peers:" +:+ join "," peers
  | ExhaustedResidual => "exhausted_residual"
  | Peerless => "peerless"
  | TerminalEvicted => "terminal_evicted"
  | Quarantined => "quarantined"
  | Resolved => "resolved"
  end.
Definition terminal_missing_parent_active_blocking_details (state : ChainState) : list (Hash * string * list Hash) :=
  isort (cmp_le (fun a b => String.compare a.1.1 b.1.1))
    (map (fun p => (p.1, terminal_missing_parent_reason p.2, mpt_waiting_orphans p.2)) (active_terminal_entries state)).
Definition prune_historical_terminal_missing_parents (state : ChainState) (keep : Z) : Z * ChainState :=
  let historical := map (fun p => (p.1, mpt_transitioned_at_ms p.2))
    (filter (fun p => terminal_missing_parent_is_active_blocker state p.1 p.2 = false)
       (map_iter (cs_terminal_missing_parents state))) in
  if zlen historical <=? keep then (0, state) else
  let prune_count := saturating_sub (zlen historical) keep in
  (prune_count,
   state <| cs_terminal_missing_parents ::= fun m =>
     foldl (fun m p => delete p.1 m) m (take (Z.to_nat prune_count) (oldest_first historical)) |>).
Definition terminal_missing_parent_count (state : ChainState) : Z :=
  Z.of_nat (size (cs_terminal_missing_parents state)).
Definition quarantined_missing_parent_count (state : ChainState) : Z :=
  zlen (filter (fun p => match mpt_state p.2 with Quarantined => true | _ => false end = true)
          (map_iter (cs_terminal_missing_parents state))).

Definition terminal_entry (st : MissingParentState) (now_ms : Z) (waiting : list Hash)
  : MissingParentTerminalEntry :=
  mkMissingParentTerminalEntry st now_ms waiting 0 (now_ms / 1000) None 0 None false.

Definition terminally_exhaust_missing_parent (state : ChainState) (parent : Hash) (exhausted_peers : list string)
  (now_ms : Z) (evict_dependents : bool) : MissingParentTerminalResult * ChainState :=
  if in_dag state parent then
    (mkMissingParentTerminalResult true 0 0,
     state <| cs_terminal_missing_parents ::= <[parent := terminal_entry Resolved now_ms []]> |>) else
  let waiting := orphan_children_waiting_for_parent state parent in
  let already_terminal := suppress_terminal_missing_parent_retry state parent in
  let selected_segment_required :=
    match cs_terminal_missing_parents state !! parent with
    | Some entry => mpt_selected_segment_required entry
    | None => false
    end in
  if selected_segment_required then (mkMissingParentTerminalResult false 0 (zlen waiting), state) else
  if already_terminal then (mkMissingParentTerminalResult false 0 (zlen waiting), state) else
  let '(evicted, state) := if evict_dependents then remove_queued_orphans state waiting else (0, state) in
  (mkMissingParentTerminalResult true evicted (zlen waiting),
   state <| cs_orphan_parent_index ::= delete parent |>
         <| cs_terminal_missing_parents ::=
              <[parent := terminal_entry (if evict_dependents then TerminalEvicted else Exhausted exhausted_peers)
                            now_ms waiting]> |>).

Definition mark_selected_segment_required_parent (state : ChainState) (parent : Hash) (now_ms : Z) : ChainState :=
  let entry := match cs_terminal_missing_parents state !! parent with
               | Some entry => entry
               | None => mkMissingParentTerminalEntry Quarantined now_ms
                           (orphan_children_waiting_for_parent state parent) 0 (now_ms / 1000) None 0
                           (Some "selected_segment_required") true
               end in
  let entry := entry <| mpt_selected_segment_required := true |>
                     <| mpt_reopened_total ::= fun n => saturating_add 64 n 1 |>
                     <| mpt_reopen_reason := Some "selected_segment_required" |> in
  state <| cs_terminal_missing_parents ::= <[parent := entry]> |>.

(** [iter().min()]. *)
Definition least (l : list Z) : option Z :=
  match l with [] => None | x :: l' => Some (foldl Z.min x l') end.
(** When the oldest orphan waiting for a parent was received. *)
Definition oldest_received (state : ChainState) (waiting : gset Hash) : option Z :=
  least (omap (fun orphan => cs_orphan_received_at_ms state !! orphan) (btree_iter waiting)).
Definition residual_parent (state : ChainState) (now_ms ttl_ms : Z) (p : Hash * gset Hash) : option (Hash * Z) :=
  if in_dag state p.1 then None else
  match oldest_received state p.2 with
  | None => None
  | Some oldest => if ttl_ms <? saturating_sub now_ms oldest then Some (p.1, oldest) else None
  end.
Definition residual_parents (state : ChainState) (now_ms ttl_ms : Z) : list (Hash * Z) :=
  omap (residual_parent state now_ms ttl_ms) (map_iter (cs_orphan_parent_index state)).
(** One turn of the loop over the residual parents. *)
Definition terminalize_parent (now_ms : Z) (s : ResidualMissingParentTerminalResult * ChainState) (parent : Hash)
  : ResidualMissingParentTerminalResult * ChainState :=
  let '(res, state) := s in
  if in_dag state parent then
    (res, state <| cs_orphan_parent_index ::= delete parent |>
                <| cs_accepted_hash_terminalization_prevented_total ::= fun n => saturating_add 64 n 1 |>)
  else
    let '(t, state) := terminally_exhaust_missing_parent state parent ["residual_waiting_ttl"] now_ms true in
    if mt_transitioned t then
      (mkResidualMissingParentTerminalResult (incr (rt_transitioned_parents res))
         (saturating_add 64 (rt_evicted_orphans res) (mt_evicted_orphans t))
         (saturating_add 64 (rt_waiting_orphans res) (mt_waiting_orphans t)),
       state <| cs_terminal_missing_parents ::= alter (fun entry => entry <| mpt_state := Quarantined |>) parent |>)
    else (res, state).
Definition terminalize_residual_waiting_missing_parents (state : ChainState) (now_ms ttl_ms limit : Z)
  : ResidualMissingParentTerminalResult * ChainState :=
  if limit =? 0 then (ResidualMissingParentTerminalResult_default, state) else
  foldl (terminalize_parent now_ms) (ResidualMissingParentTerminalResult_default, state)
    (map fst (take (Z.to_nat limit) (oldest_first (residual_parents state now_ms ttl_ms)))).

(** The storage lookup is a callback over a world [W]. *)
Fixpoint guard_parents {W} (accepted_storage_contains : W -> Hash -> result PulseError (option Z) * W)
  (parents : list Hash) (state : ChainState) (w : W) : result PulseError unit * ChainState * W :=
  match parents with
  | [] => (Ok tt, state, w)
  | parent :: parents' =>
      if in_dag state parent then
        guard_parents accepted_storage_contains parents'
          (state <| cs_orphan_parent_index ::= delete parent |>
                 <| cs_terminal_missing_parents ::= delete parent |>
                 <| cs_accepted_hash_terminalization_prevented_total ::= fun n => saturating_add 64 n 1 |>) w
      else
        match accepted_storage_contains w parent with
        | (Err e, w) => (Err e, state, w)
        | (Ok (Some height), w) =>
            (Err (Internal ("accepted_state_memory_loss hash=" +:+ parent +:+ " height=" +:+ pretty height)),
             state <| cs_accepted_hash_lost_from_memory_total ::= fun n => saturating_add 64 n 1 |>
                   <| cs_last_lost_accepted_hash := Some parent |>
                   <| cs_last_lost_accepted_height := Some height |>, w)
        | (Ok None, w) => guard_parents accepted_storage_contains parents' state w
        end
  end.
Definition terminalize_residual_waiting_missing_parents_guarded {W}
  (accepted_storage_contains : W -> Hash -> result PulseError (option Z) * W)
  (state : ChainState) (now_ms ttl_ms limit : Z) (w : W)
  : result PulseError ResidualMissingParentTerminalResult * ChainState * W :=
  match guard_parents accepted_storage_contains (map fst (map_iter (cs_orphan_parent_index state))) state w with
  | (Err e, state, w) => (Err e, state, w)
  | (Ok _, state, w) =>
      let '(res, state) := terminalize_residual_waiting_missing_parents state now_ms ttl_ms limit in
      (Ok res, state, w)
  end.
End orphans.

(** ** Adoption *)

(** Clock readings of the [n]-th attempt: those of the two validations, and the
    milliseconds read afterwards. *)
Record AdoptClock := mkAdoptClock {
  ac_validate1 : nat -> Z;
  ac_validate2 : nat -> Z;
  ac_ms1 : nat -> Z;
  ac_ms2 : nat -> Z;
}.

(** Why the adoption has no result: a panic of the validation, or no fuel. *)
Inductive AdoptFailure := AcceptPanicked | OutOfFuel.

Section adopt.
Context `{HashOrder, Crypto, CarrierJson, Kaspa}.
Variable env : string -> option string.
Variable clock : AdoptClock.
Variable source : AcceptSource.

(** The first inner loop: ready candidates, reindexing the others. *)
Definition sift_candidate (s : list Hash * ChainState) (hash : Hash) : list Hash * ChainState :=
  let '(ready, state) := s in
  match cs_orphan_blocks state !! hash with
  | None => (ready, state)
  | Some block =>
      let missing := missing_block_parents block state in
      if bool_decide (missing = []) then (ready ++ [hash], state)
      else (ready, index_orphan_missing_parents state hash missing)
  end.
Definition sift_candidates (candidates : list Hash) (state : ChainState) : list Hash * ChainState :=
  foldl sift_candidate ([], state) (sort_dedup candidates).

Record Adoption := mkAdoption {
  ad_result : OrphanAdoptionResult;
  ad_candidates : list Hash;
  ad_state : ChainState;
}.
#[global] Instance eta_Adoption : Eta Adoption := fun r =>
  mkAdoption (ad_result r) (ad_candidates r) (ad_state r).

Definition resolved_entry (attempt : nat) : MissingParentTerminalEntry :=
  mkMissingParentTerminalEntry Resolved (ac_ms1 clock attempt) [] 0 (ac_ms2 clock attempt / 1000) None 0 None false.

(** One ready orphan. *)
Definition adopt_orphan (a : Adoption) (hash : Hash) : result AdoptFailure Adoption :=
  let '(removed, state) := remove_queued_orphan (ad_state a) hash in
  match removed with
  | None => Ok (a <| ad_state := state |>)
  | Some block =>
      let attempt := Z.to_nat (oa_retried (ad_result a)) in
      let res := ad_result a in
      let res := res <| oa_retried ::= Z.add 1 |> in
      let '(r, state) := accept_block_with_result env (ac_validate1 clock attempt) (ac_validate2 clock attempt)
                           block source state in
      match r with
      | None => Err AcceptPanicked
      | Some Accepted =>
          let state := state <| cs_terminal_missing_parents ::= <[hash := resolved_entry attempt]> |> in
          Ok (mkAdoption (res <| oa_accepted ::= Z.add 1 |>
                                        <| oa_accepted_hashes ::= fun l => l ++ [hash] |>)
                  (ad_candidates a ++ orphan_children_waiting_for_parent state hash) state)
      | Some MissingParent =>
          let state := (queue_orphan_block_bounded state (ac_ms1 clock attempt) (ac_ms2 clock attempt) block
            (missing_block_parents block state) DEFAULT_ORPHAN_MAX_COUNT DEFAULT_ORPHAN_MAX_AGE_MS).2 in
          Ok (mkAdoption (res <| oa_failure_reasons ::= fun m => record_reprocess_failure m MissingParent |>)
                  (ad_candidates a) state)
      | Some r =>
          Ok (mkAdoption (res <| oa_rejected ::= Z.add 1 |>
                                        <| oa_failure_reasons ::= fun m => record_reprocess_failure m r |>)
                  (ad_candidates a) state)
      end
  end.
Fixpoint adopt_all (ready : list Hash) (a : Adoption) : result AdoptFailure Adoption :=
  match ready with
  | [] => Ok a
  | hash :: ready' =>
      let? a := adopt_orphan a hash in
      adopt_all ready' a
  end.
(** The outer loop, with one unit of fuel per turn. *)
Fixpoint adopt_loop (fuel : nat) (a : Adoption) : result AdoptFailure Adoption :=
  match fuel with
  | O => Err OutOfFuel
  | S fuel' =>
      let '(ready, state) := sift_candidates (ad_candidates a) (ad_state a) in
      match ready with
      | [] => Ok (mkAdoption (ad_result a) [] state)
      | _ =>
          let? a := adopt_all ready (mkAdoption (ad_result a) [] state) in
          adopt_loop fuel' a
      end
  end.
Definition adopt_ready_orphans_with_result (arrived_parent : option Hash) (state : ChainState)
  : result AdoptFailure (OrphanAdoptionResult * ChainState) :=
  let candidates := match arrived_parent with
                    | Some parent => orphan_children_waiting_for_parent state parent
                    | None => map fst (map_iter (cs_orphan_blocks state))
                    end in
  let? a := adopt_loop (S (S (size (cs_orphan_blocks state))))
              (mkAdoption (mkOrphanAdoptionResult 0 0 0 [] ∅) candidates state) in
  Ok (ad_result a, ad_state a).
Definition adopt_ready_orphans (state : ChainState) : result AdoptFailure (Z * ChainState) :=
  let? r := adopt_ready_orphans_with_result None state in
  Ok (oa_accepted r.1, r.2).
End adopt.
