(* ===== verification/OrphansProps.v ===== *)
(** * The orphan pool is consistent and bounded ([orphans.rs])

    The two missing-parent indexes and the receive times agree with the pool
    after every operation, the pool respects its capacity, the search for roots
    returns the unknown frontier, and a rebuild makes the indexes exact. *)

From S2P Require Import Prelude Encoding Crypto Types Merkle State Tx TxV3 Graph Pow.
From S2P Require Import Selection Retarget Ghostdag Ordering OrderingV2Props Mining Genesis Apply.
From S2P Require Import Validation Mempool Commit MempoolV3 MempoolResource Accept Orphans.

(** ** The indexes *)

(** Orphan [o] is recorded as waiting for parent [p]. *)
Definition waits (s : ChainState) (p o : Hash) : Prop := o ∈ default ∅ (cs_orphan_parent_index s !! p).
Definition waits_in (index : gmap Hash (gset Hash)) (p o : Hash) : Prop := o ∈ default ∅ (index !! p).
Definition no_empty (index : gmap Hash (gset Hash)) : Prop := map_Forall (fun _ w => w <> ∅) index.

(** Every indexed wait is one of the orphan's missing parents. *)
Record index_ok (s : ChainState) : Prop := {
  io_waits : forall p o, waits s p o -> exists l, cs_orphan_missing_parents s !! o = Some l /\ p ∈ l;
  io_no_empty : no_empty (cs_orphan_parent_index s);
}.
Record orphans_ok (s : ChainState) : Prop := {
  oo_keyed : map_Forall (fun h b => b_hash b = h) (cs_orphan_blocks s);
  oo_missing : dom (cs_orphan_missing_parents s) = dom (cs_orphan_blocks s);
  oo_received : dom (cs_orphan_received_at_ms s) = dom (cs_orphan_blocks s);
  oo_index : index_ok s;
}.

(** Everything but the orphan fields is the same. *)
Definition orphan_frame (s s' : ChainState) : Prop :=
  cs_dag s' = cs_dag s /\ cs_utxo s' = cs_utxo s /\ cs_mempool s' = cs_mempool s /\ cs_chain_id s' = cs_chain_id s.
Lemma orphan_frame_trans s1 s2 s3 : orphan_frame s1 s2 -> orphan_frame s2 s3 -> orphan_frame s1 s3.
Proof. unfold orphan_frame. intuition congruence. Qed.

Lemma unindex_parent_spec o index p :
  no_empty index ->
  (forall q x, waits_in (unindex_parent o index p) q x <-> waits_in index q x /\ ~ (x = o /\ q = p)) /\
  no_empty (unindex_parent o index p).
Proof.
  intros Hne. unfold unindex_parent, waits_in. destruct (index !! p) as [w|] eqn:Hw.
  2: { split; [|done]. intros q x. split; [|tauto]. intros Hx. split; [done|]. intros [-> ->]. by rewrite Hw in Hx. }
  case_bool_decide as He.
  - split; [|by apply map_Forall_delete]. intros q x. destruct (decide (q = p)) as [->|Hq].
    + rewrite lookup_delete_eq, Hw. simpl. set_solver.
    + rewrite lookup_delete_ne by done. tauto.
  - split; [|by apply map_Forall_insert_2]. intros q x. destruct (decide (q = p)) as [->|Hq].
    + rewrite lookup_insert_eq, Hw. simpl. set_solver.
    + rewrite lookup_insert_ne by done. tauto.
Qed.

Lemma unindex_fold_spec o l index :
  no_empty index ->
  (forall q x, waits_in (foldl (unindex_parent o) index l) q x <-> waits_in index q x /\ ~ (x = o /\ q ∈ l)) /\
  no_empty (foldl (unindex_parent o) index l).
Proof.
  revert index. induction l as [|p l IH]; intros index Hne; simpl.
  { split; [|done]. intros q x. rewrite elem_of_nil. tauto. }
  destruct (unindex_parent_spec o index p Hne) as [Hs Hne']. destruct (IH _ Hne') as [Hs' Hne'']. split; [|done].
  intros q x. rewrite Hs', Hs, elem_of_cons. tauto.
Qed.

Lemma index_fold_spec o l index :
  no_empty index ->
  (forall q x, waits_in (foldl (index_parent o) index l) q x <-> waits_in index q x \/ (x = o /\ q ∈ l)) /\
  no_empty (foldl (index_parent o) index l).
Proof.
  revert index. induction l as [|p l IH]; intros index Hne; simpl.
  { split; [|done]. intros q x. rewrite elem_of_nil. tauto. }
  destruct (IH (index_parent o index p)) as [Hs' Hne'].
  { apply map_Forall_insert_2; [|done]. set_solver. }
  split; [|done]. intros q x. rewrite Hs', elem_of_cons. unfold waits_in, index_parent.
  destruct (decide (q = p)) as [->|Hq].
  - rewrite lookup_insert_eq. simpl. set_solver.
  - rewrite lookup_insert_ne by done. tauto.
Qed.

Lemma unindex_spec s o :
  index_ok s ->
  let s' := unindex_orphan_missing_parents s o in
  (forall p x, waits s' p x <-> waits s p x /\ x <> o) /\ no_empty (cs_orphan_parent_index s') /\
  cs_orphan_missing_parents s' = cs_orphan_missing_parents s /\ cs_orphan_blocks s' = cs_orphan_blocks s /\
  cs_orphan_received_at_ms s' = cs_orphan_received_at_ms s /\
  cs_terminal_missing_parents s' = cs_terminal_missing_parents s /\ orphan_frame s s'.
Proof.
  intros Hok. unfold unindex_orphan_missing_parents. destruct (cs_orphan_missing_parents s !! o) as [l|] eqn:Hl; simpl.
  - destruct (unindex_fold_spec o l (cs_orphan_parent_index s) (io_no_empty _ Hok)) as [Hs Hne].
    split_and!; try done. intros p x. specialize (Hs p x). unfold waits, waits_in in *. simpl. rewrite Hs.
    split; [|tauto]. intros [Hx Hn]. split; [done|]. intros ->. apply Hn. split; [done|].
    destruct (io_waits _ Hok p o Hx) as (l' & Hl' & Hp). congruence.
  - split_and!; try done; [|apply Hok]. intros p x. split; [|tauto]. intros Hx. split; [done|]. intros ->.
    destruct (io_waits _ Hok p o Hx) as (l' & Hl' & Hp). congruence.
Qed.

Lemma index_orphan_spec s o l :
  index_ok s ->
  let s' := index_orphan_missing_parents s o l in
  let active p := p ∈ l /\ suppress_terminal_missing_parent_retry s p = false in
  (forall p x, waits s' p x <-> (waits s p x /\ x <> o) \/ (x = o /\ active p)) /\
  (exists l', cs_orphan_missing_parents s' = <[o := l']> (cs_orphan_missing_parents s) /\ forall p, p ∈ l' <-> active p) /\
  index_ok s' /\ cs_orphan_blocks s' = cs_orphan_blocks s /\
  cs_orphan_received_at_ms s' = cs_orphan_received_at_ms s /\
  cs_terminal_missing_parents s' = cs_terminal_missing_parents s /\ orphan_frame s s'.
Proof.
  intros Hok s' active. unfold s', index_orphan_missing_parents. cbv zeta.
  destruct (unindex_spec s o Hok) as (Hw & Hne & Hm & Hb & Hr & Ht & Hf). revert Hw Hne Hm Hb Hr Ht Hf.
  generalize (unindex_orphan_missing_parents s o) as s1. intros s1 Hw Hne Hm Hb Hr Ht Hf.
  set (l' := filter _ (normalize_missing_parents l)).
  assert (Hl' : forall p, p ∈ l' <-> active p).
  { intros p. unfold l', normalize_missing_parents, sorted_set, active, suppress_terminal_missing_parent_retry.
    rewrite list_elem_of_filter, elem_of_btree_iter, elem_of_list_to_set, Ht. tauto. }
  destruct (index_fold_spec o l' (cs_orphan_parent_index s1) Hne) as [Hs Hne'].
  assert (Hws : forall p x, waits_in (foldl (index_parent o) (cs_orphan_parent_index s1) l') p x <->
    (waits s p x /\ x <> o) \/ (x = o /\ active p)).
  { intros p x. rewrite Hs, Hl', <- Hw. done. }
  split; [exact Hws|]. split; [exists l'; simpl; by rewrite Hm|]. simpl. split; [|by split_and!].
  split; [|exact Hne']. intros p x Hx. apply Hws in Hx as [[Hx Hne1]|[-> Hx]]; simpl; rewrite Hm.
  - destruct (io_waits _ Hok p x Hx) as (lx & Hlx & Hp). exists lx. by rewrite lookup_insert_ne.
  - exists l'. by rewrite lookup_insert_eq, Hl'.
Qed.

Lemma remove_queued_spec s o :
  index_ok s ->
  let s' := (remove_queued_orphan s o).2 in
  (remove_queued_orphan s o).1 = cs_orphan_blocks s !! o /\
  cs_orphan_blocks s' = delete o (cs_orphan_blocks s) /\
  cs_orphan_missing_parents s' = delete o (cs_orphan_missing_parents s) /\
  cs_orphan_received_at_ms s' = delete o (cs_orphan_received_at_ms s) /\
  (forall p x, waits s' p x <-> waits s p x /\ x <> o) /\ index_ok s' /\
  cs_terminal_missing_parents s' = cs_terminal_missing_parents s /\ orphan_frame s s'.
Proof.
  intros Hok. cbv zeta. unfold remove_queued_orphan. cbv zeta. cbn [fst snd].
  destruct (unindex_spec (s <| cs_orphan_blocks ::= delete o |>) o) as (Hw & Hne & Hm & Hb & Hr & Ht & Hf); [by destruct Hok|].
  set (s1 := unindex_orphan_missing_parents _ _) in *. clearbody s1.
  simpl in *. rewrite Hm, Hb, Hr. split_and!; try done.
  split; [|exact Hne]. intros p x Hx. simpl. apply Hw in Hx as [Hx Hxo].
  destruct (io_waits _ Hok p x Hx) as (lx & Hlx & Hp). exists lx. by rewrite lookup_delete_ne.
Qed.

(** [s'] is [s] without the orphans [gone]. *)
Record orphans_removed (s s' : ChainState) (gone : list Hash) : Prop := {
  or_blocks : forall h b, cs_orphan_blocks s' !! h = Some b <-> cs_orphan_blocks s !! h = Some b /\ h ∉ gone;
  or_received : forall h t, cs_orphan_received_at_ms s' !! h = Some t <-> cs_orphan_received_at_ms s !! h = Some t /\ h ∉ gone;
  or_waits : forall p x, waits s' p x <-> waits s p x /\ x ∉ gone;
  or_ok : orphans_ok s';
  or_terminal : cs_terminal_missing_parents s' = cs_terminal_missing_parents s;
  or_frame : orphan_frame s s';
}.

Lemma remove_queued_ok s o : orphans_ok s -> orphans_removed s (remove_queued_orphan s o).2 [o].
Proof.
  intros Hok. destruct (remove_queued_spec s o (oo_index _ Hok)) as (_ & Hb & Hm & Hr & Hw & Hi & Ht & Hf).
  split; [..|exact Ht|exact Hf].
  - intros h b. rewrite Hb, lookup_delete_Some, list_elem_of_singleton. naive_solver.
  - intros h t. rewrite Hr, lookup_delete_Some, list_elem_of_singleton. naive_solver.
  - intros p x. by rewrite Hw, list_elem_of_singleton.
  - split; [..|exact Hi].
    + rewrite Hb. apply map_Forall_delete, Hok.
    + by rewrite Hm, Hb, !dom_delete_L, (oo_missing _ Hok).
    + by rewrite Hr, Hb, !dom_delete_L, (oo_received _ Hok).
Qed.

Lemma orphans_removed_trans s1 s2 s3 g1 g2 :
  orphans_removed s1 s2 g1 -> orphans_removed s2 s3 g2 -> orphans_removed s1 s3 (g1 ++ g2).
Proof.
  intros R1 R2. split; [..|apply R2| |].
  - intros h b. rewrite (or_blocks _ _ _ R2), (or_blocks _ _ _ R1), not_elem_of_app. tauto.
  - intros h t. rewrite (or_received _ _ _ R2), (or_received _ _ _ R1), not_elem_of_app. tauto.
  - intros p x. rewrite (or_waits _ _ _ R2), (or_waits _ _ _ R1), not_elem_of_app. tauto.
  - by rewrite (or_terminal _ _ _ R2), (or_terminal _ _ _ R1).
  - eapply orphan_frame_trans; [apply R1|apply R2].
Qed.
Lemma orphans_removed_none s : orphans_ok s -> orphans_removed s s [].
Proof. intros Hok. split; try done; intros; split; try tauto; intros; (split; [done|apply not_elem_of_nil]). Qed.

Lemma remove_queued_orphans_spec s l :
  orphans_ok s -> Z.of_nat (length l) <= u64_max ->
  exists n s', remove_queued_orphans s l = (n, s') /\ orphans_removed s s' l /\
    0 <= n <= Z.of_nat (length l) /\
    Z.of_nat (size (cs_orphan_blocks s)) = Z.of_nat (size (cs_orphan_blocks s')) + n.
Proof.
  intros Hok. unfold remove_queued_orphans. induction l as [|h l IH] using rev_ind.
  { intros _. exists 0, s. split; [done|]. split; [by apply orphans_removed_none|simpl; lia]. }
  rewrite length_app. cbn [length]. intros Hlen. destruct IH as (n & s1 & Hf & Hr & Hn & Hsz); [lia|].
  rewrite foldl_app, Hf. cbn [foldl]. unfold remove_counted. cbn [fst snd]. pose proof (remove_queued_ok s1 h (or_ok _ _ _ Hr)) as Hr1.
  destruct (remove_queued_spec s1 h (oo_index _ (or_ok _ _ _ Hr))) as (Hb & Hd & _).
  destruct (remove_queued_orphan s1 h) as [b s2]. cbn [fst snd] in *. eexists _, s2. split; [reflexivity|]. split.
  { by apply (orphans_removed_trans s s1). }
  rewrite Hd. subst b. unfold incr, saturating_add. destruct (cs_orphan_blocks s1 !! h) as [b|] eqn:Hb1.
  - rewrite map_size_delete, Hb1. simpl. assert (Hne : size (cs_orphan_blocks s1) <> 0%nat).
    { intros He%map_size_empty_inv. by rewrite He, lookup_empty in Hb1. }
    lia.
  - rewrite delete_id by done. lia.
Qed.

Section prune.
Context `{HashOrder}.

Lemma elem_of_stale s now age h t :
  (h, t) ∈ stale_orphans s now age <-> cs_orphan_received_at_ms s !! h = Some t /\ age < Z.max (now - t) 0.
Proof.
  unfold stale_orphans, saturating_sub. rewrite list_elem_of_filter, elem_of_map_iter. simpl. rewrite Z.ltb_lt. tauto.
Qed.

(** The pool after pruning. *)
Record prune_ok (s s' : ChainState) (gone : list Hash) (now max_count max_age_ms : Z) : Prop := {
  pk_removed : orphans_removed s s' gone;
  pk_bound : Z.of_nat (size (cs_orphan_blocks s')) <= max_count;
  pk_fresh : forall h t, cs_orphan_received_at_ms s' !! h = Some t -> Z.max (now - t) 0 <= max_age_ms;
  pk_oldest : forall h t k u, h ∈ gone -> cs_orphan_received_at_ms s !! h = Some t -> Z.max (now - t) 0 <= max_age_ms ->
    cs_orphan_received_at_ms s' !! k = Some u -> compare_oldest (h, t) (k, u) <> Gt;
  pk_needed : Z.of_nat (size (cs_orphan_blocks s)) <= max_count ->
    forall h t, h ∈ gone -> cs_orphan_received_at_ms s !! h = Some t -> max_age_ms < Z.max (now - t) 0;
}.

#[local] Instance compare_oldest_pre : CmpPre compare_oldest.
Proof. unfold compare_oldest. solve_cmp_pre. Qed.

(** The first entries are the oldest. *)
Lemma oldest_first_take n l a b :
  NoDup l -> a ∈ take n (oldest_first l) -> b ∈ l -> b ∉ take n (oldest_first l) -> compare_oldest a b <> Gt.
Proof.
  intros Hnd Ha Hb Hnb. pose proof (isort_ssorted (cmp_le compare_oldest) l) as Hs.
  rewrite <- (take_drop n (isort (cmp_le compare_oldest) l)) in Hs.
  assert (Hd : b ∈ drop n (oldest_first l)).
  { rewrite <- (isort_elem_of (cmp_le compare_oldest)), <- (take_drop n (isort (cmp_le compare_oldest) l)),
      elem_of_app in Hb. by destruct Hb as [Hb|Hb]. }
  change (cmp_le compare_oldest a b). revert Hs Ha Hd. unfold oldest_first.
  generalize (take n (isort (cmp_le compare_oldest) l)) as t, (drop n (isort (cmp_le compare_oldest) l)) as d.
  intros t d Hs Ha Hd. induction t as [|x t IH]; [by apply elem_of_nil in Ha|].
  apply StronglySorted_inv in Hs as [Hs Hx]. apply elem_of_cons in Ha as [->|Ha]; [|by apply IH].
  rewrite Forall_forall in Hx. apply Hx. apply elem_of_app. by right.
Qed.

Lemma orphans_removed_dom s s' l :
  orphans_removed s s' l -> dom (cs_orphan_blocks s') = dom (cs_orphan_blocks s) ∖ list_to_set l.
Proof.
  intros R. apply set_eq. intros h. rewrite elem_of_difference, elem_of_list_to_set, !elem_of_dom. split.
  - intros [b Hb]. apply (or_blocks _ _ _ R) in Hb as [Hb Hn]. split; [by eexists|done].
  - intros [[b Hb] Hn]. exists b. by apply (or_blocks _ _ _ R).
Qed.

Lemma received_size s : orphans_ok s -> size (cs_orphan_received_at_ms s) = size (cs_orphan_blocks s).
Proof. intros Hok. by rewrite <- !size_dom, (oo_received _ Hok). Qed.

(** The capacity step: the oldest orphans make room. *)
Lemma overflow_spec s max_count :
  orphans_ok s -> 0 <= max_count < Z.of_nat (size (cs_orphan_blocks s)) ->
  Z.of_nat (size (cs_orphan_blocks s)) <= u64_max ->
  let gone := take (Z.to_nat (saturating_sub (Z.of_nat (size (cs_orphan_blocks s))) max_count))
    (oldest_first (map_iter (cs_orphan_received_at_ms s))) in
  exists n s', remove_queued_orphans s (map fst gone) = (n, s') /\
    orphans_removed s s' (map fst gone) /\ Z.of_nat (size (cs_orphan_blocks s')) = max_count /\
    (forall h t k u, (h, t) ∈ gone -> cs_orphan_received_at_ms s' !! k = Some u -> compare_oldest (h, t) (k, u) <> Gt).
Proof.
  intros Hok Hc Hmax gone. set (all := map_iter (cs_orphan_received_at_ms s)) in *.
  assert (Hnd : NoDup (map fst (oldest_first all))).
  { unfold oldest_first. rewrite isort_perm. apply NoDup_map_iter_keys. }
  assert (Hlen : length (oldest_first all) = size (cs_orphan_blocks s)).
  { unfold oldest_first. rewrite isort_perm. unfold all. rewrite map_iter_perm, length_map_to_list. by apply received_size. }
  assert (Hg : length (map fst gone) = Z.to_nat (saturating_sub (Z.of_nat (size (cs_orphan_blocks s))) max_count)).
  { unfold gone. rewrite length_map, length_take, Hlen. unfold saturating_sub. lia. }
  assert (Hgnd : NoDup (map fst gone)).
  { unfold gone. rewrite <- (take_drop (Z.to_nat (saturating_sub (Z.of_nat (size (cs_orphan_blocks s))) max_count))
      (oldest_first all)), map_app, NoDup_app in Hnd. apply Hnd. }
  destruct (remove_queued_orphans_spec s (map fst gone) Hok) as (n & s' & Hr & Hrm & _); [rewrite Hg; unfold saturating_sub; lia|].
  exists n, s'. split; [done|]. split; [done|]. split.
  - rewrite <- size_dom, (orphans_removed_dom _ _ _ Hrm), size_difference, size_dom, size_list_to_set; [|done|].
    2: { intros h. rewrite elem_of_list_to_set, <- (oo_received _ Hok), elem_of_dom, list_elem_of_fmap.
         intros ([h' t] & -> & Hin%subseteq_take). exists t. unfold oldest_first, all in Hin. by rewrite isort_elem_of, elem_of_map_iter in Hin. }
    rewrite Hg. unfold saturating_sub. lia.
  - intros h t k u Hin Hk. apply (or_received _ _ _ Hrm) in Hk as [Hk Hnk].
    refine (oldest_first_take _ all _ _ _ Hin (proj2 (elem_of_map_iter _ k u) Hk) _).
    { apply NoDup_fmap_1 in Hnd. unfold oldest_first in Hnd. by rewrite isort_nodup in Hnd. }
    intros Hin'. apply Hnk, list_elem_of_fmap. by exists (k, u).
Qed.

Lemma stale_keys s now age h : h ∈ map fst (stale_orphans s now age) <->
  exists t, cs_orphan_received_at_ms s !! h = Some t /\ age < Z.max (now - t) 0.
Proof.
  rewrite list_elem_of_fmap. split.
  - intros ([h' t] & -> & Hin%elem_of_stale). by exists t.
  - intros (t & Ht). exists (h, t). by rewrite elem_of_stale.
Qed.
Lemma stale_length s now age : (length (stale_orphans s now age) <= size (cs_orphan_received_at_ms s))%nat.
Proof.
  unfold stale_orphans. etransitivity; [apply length_filter|].
  by rewrite map_iter_perm, length_map_to_list.
Qed.

Lemma prune_orphans_spec s now max_count max_age_ms :
  orphans_ok s -> 0 <= max_count -> Z.of_nat (size (cs_orphan_blocks s)) <= u64_max ->
  exists n s' gone, prune_orphans s now max_count max_age_ms = (n, s') /\
    prune_ok s s' gone now max_count max_age_ms.
Proof.
  intros Hok Hc Hmax. unfold prune_orphans.
  destruct (remove_queued_orphans_spec s (map fst (stale_orphans s now max_age_ms)) Hok) as (n & s1 & -> & R1 & Hcnt & Hsz).
  { rewrite length_map. pose proof (stale_length s now max_age_ms). pose proof (received_size s Hok). lia. }
  cbv zeta. assert (Hfresh : forall h t, cs_orphan_received_at_ms s1 !! h = Some t -> Z.max (now - t) 0 <= max_age_ms).
  { intros h t Ht. apply (or_received _ _ _ R1) in Ht as [Ht Hn]. apply Z.nlt_ge. intros Hlt.
    apply Hn, stale_keys. by exists t. }
  destruct (Z.ltb_spec max_count (Z.of_nat (size (cs_orphan_blocks s1)))) as [Hlt|Hge].
  - destruct (overflow_spec s1 max_count (or_ok _ _ _ R1)) as (m & s2 & -> & R2 & Hs2 & Hold); [lia|lia|].
    do 2 eexists. exists (map fst (stale_orphans s now max_age_ms) ++
      map fst (take (Z.to_nat (saturating_sub (Z.of_nat (size (cs_orphan_blocks s1))) max_count))
        (oldest_first (map_iter (cs_orphan_received_at_ms s1))))).
    split; [reflexivity|]. split.
    + by apply (orphans_removed_trans s s1).
    + lia.
    + intros h t Ht. apply (Hfresh h). by apply (or_received _ _ _ R2) in Ht as [Ht _].
    + intros h t k u [Hg|Hg]%elem_of_app Ht Hfr Hk.
      { apply stale_keys in Hg as (t' & Ht' & Hst). assert (t' = t) as -> by congruence. lia. }
      apply list_elem_of_fmap in Hg as ([h' t'] & -> & Hin). simpl in *.
      assert (Ht' : cs_orphan_received_at_ms s1 !! h' = Some t').
      { apply subseteq_take in Hin. unfold oldest_first in Hin. by rewrite isort_elem_of, elem_of_map_iter in Hin. }
      apply (or_received _ _ _ R1) in Ht' as [Ht' _]. assert (t' = t) as -> by congruence. by apply Hold.
    + lia.
  - do 2 eexists. exists (map fst (stale_orphans s now max_age_ms)). split; [reflexivity|]. split; [done|lia|done|..].
    + intros h t k u (t' & Ht' & Hst)%stale_keys Ht Hfr _. assert (t' = t) as -> by congruence. lia.
    + intros _ h t (t' & Ht' & Hst)%stale_keys Ht. by assert (t' = t) as -> by congruence.
Qed.
End prune.

(** ** Queueing *)

Lemma delete_fold {V} (l : list Hash) (m : gmap Hash V) p :
  foldl (fun m parent => delete parent m) m l !! p = if bool_decide (p ∈ l) then None else m !! p.
Proof.
  revert m. induction l as [|x l IH]; intros m; cbn [foldl]; [done|]. rewrite IH.
  destruct (decide (p = x)) as [->|Hne].
  - rewrite (bool_decide_eq_true_2 (x ∈ x :: l)) by left. rewrite lookup_delete_eq. by case_bool_decide.
  - rewrite lookup_delete_ne by done. do 2 case_bool_decide; set_solver.
Qed.

Record enqueued (s s' : ChainState) (now : Z) (block : Block) (missing : list Hash) : Prop := {
  en_blocks : cs_orphan_blocks s' = <[b_hash block := block]> (cs_orphan_blocks s);
  en_received : cs_orphan_received_at_ms s' = <[b_hash block := now]> (cs_orphan_received_at_ms s);
  en_waits : forall p x, waits s' p x <-> (waits s p x /\ x <> b_hash block) \/ (x = b_hash block /\ p ∈ missing);
  en_terminal : forall p, cs_terminal_missing_parents s' !! p =
    if bool_decide (p ∈ missing) then None else cs_terminal_missing_parents s !! p;
  en_ok : orphans_ok s';
  en_frame : orphan_frame s s';
}.
Lemma enqueue_orphan_spec s now block missing :
  orphans_ok s -> enqueued s (enqueue_orphan s now block missing) now block missing.
Proof.
  intros Hok. unfold enqueue_orphan. cbv zeta.
  set (s1 := s <| cs_terminal_missing_parents ::= _ |> <| cs_orphan_blocks ::= _ |>).
  destruct (index_orphan_spec s1 (b_hash block) missing) as (Hw & (l & Hm & Hl) & Hi & Hb & Hr & Ht & Hf); [by destruct Hok as [_ _ _ []]|].
  assert (Hsup : forall p, p ∈ missing -> suppress_terminal_missing_parent_retry s1 p = false).
  { intros p Hp. unfold suppress_terminal_missing_parent_retry, s1. cbn -[foldl]. by rewrite delete_fold, bool_decide_eq_true_2. }
  set (s2 := index_orphan_missing_parents s1 (b_hash block) missing) in *. clearbody s2.
  split; cbn -[foldl].
  - exact Hb.
  - by rewrite Hr.
  - intros p x. specialize (Hw p x). unfold waits in *. cbn. rewrite Hw. change (cs_orphan_parent_index s1) with (cs_orphan_parent_index s).
    specialize (Hsup p). naive_solver.
  - intros p. rewrite Ht. unfold s1. cbn -[foldl]. apply delete_fold.
  - split; cbn -[foldl].
    + rewrite Hb. apply map_Forall_insert_2; [done|apply Hok].
    + rewrite Hm, Hb. unfold s1. cbn -[foldl]. by rewrite !dom_insert_L, (oo_missing _ Hok).
    + rewrite Hr, Hb. unfold s1. cbn -[foldl]. by rewrite !dom_insert_L, (oo_received _ Hok).
    + by destruct Hi.
  - exact Hf.
Qed.

Section queue.
Context `{HashOrder}.

Record queue_ok (s s' : ChainState) (r : OrphanQueueResult) (now1 now2 : Z) (block : Block) (missing : list Hash)
  (max_count max_age_ms : Z) : Prop := {
  qk_ok : orphans_ok s';
  qk_frame : orphan_frame s s';
  qk_bound : Z.of_nat (size (cs_orphan_blocks s')) <= max_count;
  qk_queued : oq_queued r = true <-> cs_orphan_blocks s' !! b_hash block = Some block;
  qk_pool : forall h b, cs_orphan_blocks s' !! h = Some b ->
    (h = b_hash block /\ b = block) \/ cs_orphan_blocks s !! h = Some b;
  qk_waits : forall p x, waits s' p x <-> is_Some (cs_orphan_blocks s' !! x) /\
    ((x = b_hash block /\ p ∈ missing) \/ (x <> b_hash block /\ waits s p x));
  qk_fresh : forall h t, cs_orphan_received_at_ms s' !! h = Some t -> Z.max (now2 - t) 0 <= max_age_ms;
  qk_oldest : forall h t k u, <[b_hash block := now1]> (cs_orphan_received_at_ms s) !! h = Some t ->
    cs_orphan_blocks s' !! h = None -> Z.max (now2 - t) 0 <= max_age_ms ->
    cs_orphan_received_at_ms s' !! k = Some u -> compare_oldest (h, t) (k, u) <> Gt;
  qk_keeps : Z.of_nat (size (cs_orphan_blocks s)) < max_count ->
    forall h t, <[b_hash block := now1]> (cs_orphan_received_at_ms s) !! h = Some t ->
      Z.max (now2 - t) 0 <= max_age_ms -> is_Some (cs_orphan_blocks s' !! h);
  qk_retry : forall p, p ∈ missing -> suppress_terminal_missing_parent_retry s' p = false;
}.

Lemma queue_spec s now1 now2 block missing max_count max_age_ms :
  orphans_ok s -> cs_orphan_blocks s !! b_hash block = None -> 0 <= max_count ->
  Z.of_nat (size (cs_orphan_blocks s)) < u64_max ->
  exists r s', queue_orphan_block_bounded s now1 now2 block missing max_count max_age_ms = (r, s') /\
    queue_ok s s' r now1 now2 block missing max_count max_age_ms.
Proof.
  intros Hok Hnew Hc Hmax. unfold queue_orphan_block_bounded. cbv zeta. rewrite bool_decide_eq_false_2.
  2: { rewrite Hnew. by intros [? ?]. }
  pose proof (enqueue_orphan_spec s now1 block missing Hok) as He.
  set (s1 := enqueue_orphan s now1 block missing) in *. clearbody s1.
  assert (Hsz : size (cs_orphan_blocks s1) = S (size (cs_orphan_blocks s))).
  { rewrite (en_blocks _ _ _ _ _ He), map_size_insert, Hnew. done. }
  destruct (prune_orphans_spec s1 now2 max_count max_age_ms (en_ok _ _ _ _ _ He) Hc) as (n & s' & gone & -> & Hp); [lia|].
  pose proof (pk_removed _ _ _ _ _ _ Hp) as R. do 2 eexists. split; [reflexivity|].
  assert (Hin : forall h, is_Some (cs_orphan_blocks s' !! h) <-> is_Some (cs_orphan_blocks s1 !! h) /\ h ∉ gone).
  { intros h. unfold is_Some. setoid_rewrite (or_blocks _ _ _ R). naive_solver. }
  assert (Hgone : forall h t, cs_orphan_received_at_ms s1 !! h = Some t -> h ∉ gone -> is_Some (cs_orphan_blocks s' !! h)).
  { intros h t Ht Hn. apply Hin. split; [|done]. apply elem_of_dom. rewrite <- (oo_received _ (en_ok _ _ _ _ _ He)).
    apply elem_of_dom. by exists t. }
  split.
  - apply R.
  - eapply orphan_frame_trans; [apply He|apply R].
  - apply Hp.
  - cbn. rewrite bool_decide_eq_true. split; [|by eexists]. intros [b Hb]. rewrite Hb.
    apply (or_blocks _ _ _ R) in Hb as [Hb _]. rewrite (en_blocks _ _ _ _ _ He), lookup_insert_eq in Hb. congruence.
  - intros h b Hb. apply (or_blocks _ _ _ R) in Hb as [Hb _]. rewrite (en_blocks _ _ _ _ _ He) in Hb.
    apply lookup_insert_Some in Hb. naive_solver.
  - intros p x. rewrite (or_waits _ _ _ R), (en_waits _ _ _ _ _ He), Hin, (en_blocks _ _ _ _ _ He). split.
    + intros [[[Hx Hne]|[-> Hp']] Hn]; (split; [split; [|done]|]); try (by right); try (by left).
      * rewrite lookup_insert_ne by done. apply elem_of_dom. rewrite <- (oo_missing _ Hok). apply elem_of_dom.
        destruct (io_waits _ (oo_index _ Hok) p x Hx) as (l & Hl & _). by exists l.
      * rewrite lookup_insert_eq. by eexists.
    + naive_solver.
  - apply Hp.
  - intros h t k u Ht Hn Hfr Hk. rewrite <- (en_received _ _ _ _ _ He) in Ht.
    apply (pk_oldest _ _ _ _ _ _ Hp h t k u); try done. destruct (decide (h ∈ gone)); [done|].
    destruct (Hgone h t Ht) as [b Hb]; [done|congruence].
  - intros Hlt h t Ht Hfr. rewrite <- (en_received _ _ _ _ _ He) in Ht. apply (Hgone h t Ht). intros Hg.
    apply (pk_needed _ _ _ _ _ _ Hp) with (t:=t) in Hg; [lia|lia|done].
  - intros p Hpm. unfold suppress_terminal_missing_parent_retry. rewrite (or_terminal _ _ _ R), (en_terminal _ _ _ _ _ He).
    by rewrite bool_decide_eq_true_2.
Qed.
End queue.

(** ** Roots *)

Section roots.
Variable s : ChainState.

(** A hash the node knows nothing about. *)
Definition unknown (h : Hash) : Prop := in_dag s h = false /\ cs_orphan_blocks s !! h = None.
#[local] Instance unknown_dec h : Decision (unknown h).
Proof. unfold unknown. apply _. Defined.

Lemma filter_in (P : Hash -> Prop) `{!forall h, Decision (P h)} p (X : gset Hash) :
  P p -> filter P ({[p]} ∪ X) = {[p]} ∪ filter P X.
Proof.
  intros Hp. apply set_eq. intros h. rewrite elem_of_union, !elem_of_filter, elem_of_union, elem_of_singleton. naive_solver.
Qed.
Lemma filter_out (P : Hash -> Prop) `{!forall h, Decision (P h)} p (X : gset Hash) :
  ~ P p -> filter P ({[p]} ∪ X) = filter P X.
Proof.
  intros Hp. apply set_eq. intros h. rewrite !elem_of_filter, elem_of_union, elem_of_singleton. naive_solver.
Qed.

Lemma filter_nothing (P : Hash -> Prop) `{!forall h, Decision (P h)} : filter P (∅ : gset Hash) = ∅.
Proof. apply set_eq. intros h. rewrite elem_of_filter. set_solver. Qed.

Lemma roots_loop_dfs fuel stack (seen : gset Hash) :
  roots_loop s fuel stack (filter (fun h => in_dag s h = false) seen) (filter unknown seen) =
  (fun r => filter unknown r.2) <$> dfs (unresolved_parents s) (fun _ => false) fuel stack seen.
Proof.
  revert stack seen. induction fuel as [|fuel IH]; intros stack seen; [done|]. cbn [roots_loop dfs].
  destruct stack as [|p stack]; [done|]. destruct (in_dag s p) eqn:Hp; cbn [orb].
  - case_decide as Hs; [apply IH|]. unfold unresolved_parents at 2. rewrite Hp. cbn [rev app].
    rewrite <- IH, (filter_out (fun h => in_dag s h = false)), (filter_out unknown); [done|..].
    + intros [Hp' _]. congruence.
    + congruence.
  - case_decide as Hs.
    { rewrite bool_decide_eq_true_2 by (by apply elem_of_filter). apply IH. }
    rewrite bool_decide_eq_false_2 by (rewrite elem_of_filter; tauto).
    unfold unresolved_parents at 2. rewrite Hp. rewrite <- IH, filter_in by done.
    destruct (cs_orphan_blocks s !! p) as [b|] eqn:Hb.
    + by rewrite rev_involutive, (filter_out unknown) by (unfold unknown; rewrite Hb; by intros [_ ?]).
    + by rewrite (filter_in unknown).
Qed.

(** A parent of a queued block that is not stored. *)
Definition blocked_on (h p : Hash) : Prop :=
  exists b, cs_orphan_blocks s !! h = Some b /\ p ∈ h_parents (b_header b) /\ in_dag s p = false.
Lemma unresolved_parents_spec h p : p ∈ unresolved_parents s h <-> in_dag s h = false /\ blocked_on h p.
Proof.
  unfold unresolved_parents, blocked_on. destruct (in_dag s h); [rewrite elem_of_nil; naive_solver|].
  destruct (cs_orphan_blocks s !! h) as [b|]; [|rewrite elem_of_nil; naive_solver].
  rewrite list_elem_of_In, <- in_rev, <- list_elem_of_In, list_elem_of_filter. naive_solver.
Qed.
Lemma unresolved_reach a b :
  in_dag s a = false -> reach (unresolved_parents s) a b <-> rtc blocked_on a b.
Proof.
  intros Ha. split; intros Hr.
  - clear Ha. induction Hr as [|x y z Hxy _ IH]; [apply rtc_refl|]. apply unresolved_parents_spec in Hxy as [_ Hxy].
    by eapply rtc_l.
  - induction Hr as [|x y z Hxy _ IH]; [apply rtc_refl|]. destruct Hxy as (bx & ? & ? & Hy).
    eapply rtc_l; [|by apply IH]. apply unresolved_parents_spec. split; [done|]. by exists bx.
Qed.

Lemma orphan_missing_roots_spec h b :
  cs_orphan_blocks s !! h = Some b ->
  exists roots, orphan_missing_roots s h = Some roots /\ NoDup roots /\
    forall r, r ∈ roots <-> rtc blocked_on h r /\ unknown r.
Proof.
  intros Hb. unfold orphan_missing_roots. rewrite Hb.
  set (stack := rev (isort String.le (h_parents (b_header b)))).
  pose proof (roots_loop_dfs (roots_fuel s b) stack ∅) as Hl. rewrite !filter_nothing in Hl. rewrite Hl.
  assert (Hstack : forall p, p ∈ stack <-> p ∈ h_parents (b_header b)).
  { intros p. unfold stack. by rewrite list_elem_of_In, <- in_rev, <- list_elem_of_In, isort_elem_of. }
  destruct (dfs_fuel_enough (unresolved_parents s) (fun _ => false) (dom (cs_orphan_blocks s)) (roots_fuel s b) stack ∅)
    as [[found seen] Hd].
  - intros k Hk%not_elem_of_dom. unfold unresolved_parents. rewrite Hk. by destruct (in_dag s k).
  - unfold roots_fuel, stack. rewrite length_rev, isort_perm, difference_empty_L. lia.
  - rewrite Hd. eexists. split; [reflexivity|]. split; [apply NoDup_btree_iter|].
    assert (found = false) as -> by (by eapply dfs_no_stop).
    destruct (dfs_sound _ _ _ _ _ _ _ Hd) as (_ & Hr & _ & Hf). destruct (Hf eq_refl) as (Hin & _ & Hcl).
    intros r. cbn. rewrite elem_of_btree_iter, elem_of_filter. split.
    + intros [Hu Hrs]. split; [|done]. destruct (Hr r Hrs) as [?|(p & Hp%Hstack & Hpr)]; [set_solver|].
      destruct (in_dag s p) eqn:Hpd.
      * exfalso. destruct Hu as [Hu _]. inversion Hpr as [|? y ? Hy]; subst; [congruence|].
        apply unresolved_parents_spec in Hy as [? _]. congruence.
      * eapply rtc_l; [by exists b|]. by apply unresolved_reach.
    + intros [Hrt Hu]. split; [done|]. inversion Hrt as [|? y ? Hy Hyr]; subst; [destruct Hu; congruence|].
      destruct Hy as (b' & Hb' & Hy & Hyd). assert (b' = b) as -> by congruence.
      eapply (closed_reach (unresolved_parents s)); [|apply Hin, Hstack, Hy|by apply unresolved_reach].
      apply Hcl. set_solver.
Qed.
End roots.

(** ** Rebuilding the indexes *)

(** Orphan [o] needs [p], and may ask for it. *)
Definition needs (s : ChainState) (o p : Hash) : Prop :=
  blocked_on s o p /\ suppress_terminal_missing_parent_retry s p = false.
Definition ready (s : ChainState) (b : Block) : Prop := forall p, p ∈ h_parents (b_header b) -> in_dag s p = true.

Lemma elem_of_missing_parents s b p :
  p ∈ missing_block_parents b s <-> p ∈ h_parents (b_header b) /\ in_dag s p = false.
Proof.
  unfold missing_block_parents, sorted_set. rewrite elem_of_btree_iter, elem_of_list_to_set, list_elem_of_filter. tauto.
Qed.
Lemma missing_parents_nil s b : missing_block_parents b s = [] <-> ready s b.
Proof.
  unfold ready. split.
  - intros Hm p Hp. destruct (in_dag s p) eqn:Hd; [done|]. exfalso. apply (not_elem_of_nil p).
    rewrite <- Hm. by apply elem_of_missing_parents.
  - intros Hr. apply elem_of_nil_inv. intros p [Hp Hd]%elem_of_missing_parents. rewrite Hr in Hd; [done|done].
Qed.

(** The indexes hold exactly the waits of the orphans in [done]. *)
Record reindexed (s s' : ChainState) (visited : list Hash) : Prop := {
  rx_index : index_ok s';
  rx_waits : forall p o, waits s' p o <-> o ∈ visited /\ needs s o p;
  rx_missing : forall o, is_Some (cs_orphan_missing_parents s' !! o) <-> o ∈ visited /\ is_Some (cs_orphan_blocks s !! o);
  rx_list : forall o l, cs_orphan_missing_parents s' !! o = Some l -> forall p, p ∈ l <-> needs s o p;
  rx_blocks : cs_orphan_blocks s' = cs_orphan_blocks s;
  rx_received : cs_orphan_received_at_ms s' = cs_orphan_received_at_ms s;
  rx_terminal : cs_terminal_missing_parents s' = cs_terminal_missing_parents s;
  rx_frame : orphan_frame s s';
}.

Lemma reindex_step s s' visited o :
  o ∉ visited -> reindexed s s' visited -> reindexed s (reindex_orphan s' o) (visited ++ [o]).
Proof.
  intros Ho Hx. unfold reindex_orphan. rewrite (rx_blocks _ _ _ Hx).
  assert (Hd : forall h, in_dag s' h = in_dag s h).
  { intros h. unfold in_dag. by rewrite (proj1 (rx_frame _ _ _ Hx)). }
  assert (Hsup : forall h, suppress_terminal_missing_parent_retry s' h = suppress_terminal_missing_parent_retry s h).
  { intros h. unfold suppress_terminal_missing_parent_retry. by rewrite (rx_terminal _ _ _ Hx). }
  destruct (cs_orphan_blocks s !! o) as [b|] eqn:Hb.
  2: { split; try apply Hx.
       - intros p x. rewrite (rx_waits _ _ _ Hx), elem_of_app, list_elem_of_singleton. unfold needs, blocked_on. naive_solver.
       - intros x. rewrite (rx_missing _ _ _ Hx), elem_of_app, list_elem_of_singleton. split; [tauto|].
         intros [[?| ->] Hs]; [done|]. rewrite Hb in Hs. by destruct Hs. }
  assert (Hneeds : forall p, p ∈ missing_block_parents b s' /\ suppress_terminal_missing_parent_retry s' p = false <-> needs s o p).
  { intros p. rewrite elem_of_missing_parents, Hd, Hsup. unfold needs, blocked_on. rewrite Hb. naive_solver. }
  destruct (index_orphan_spec s' o (missing_block_parents b s') (rx_index _ _ _ Hx))
    as (Hw & (l & Hm & Hl) & Hi & Hb' & Hr & Ht & Hf).
  split; [exact Hi|..].
  - intros p x. rewrite Hw, Hneeds, (rx_waits _ _ _ Hx), elem_of_app, list_elem_of_singleton.
    destruct (decide (x = o)) as [->|Hne]; naive_solver.
  - intros x. rewrite Hm, elem_of_app, list_elem_of_singleton. destruct (decide (x = o)) as [->|Hne].
    + rewrite lookup_insert_eq, Hb. split; [|by eexists]. intros _. split; [by right|by eexists].
    + rewrite lookup_insert_ne by done. rewrite (rx_missing _ _ _ Hx). naive_solver.
  - intros x lx. rewrite Hm. destruct (decide (x = o)) as [->|Hne].
    + rewrite lookup_insert_eq. intros [= <-] p. by rewrite Hl, Hneeds.
    + rewrite lookup_insert_ne by done. apply (rx_list _ _ _ Hx).
  - by rewrite Hb', (rx_blocks _ _ _ Hx).
  - by rewrite Hr, (rx_received _ _ _ Hx).
  - by rewrite Ht, (rx_terminal _ _ _ Hx).
  - eapply orphan_frame_trans; [apply Hx|exact Hf].
Qed.

Lemma reindex_fold s s' visited l :
  NoDup (visited ++ l) -> reindexed s s' visited -> reindexed s (foldl reindex_orphan s' l) (visited ++ l).
Proof.
  revert s' visited. induction l as [|o l IH]; intros s' visited Hnd Hx; cbn [foldl].
  { by rewrite app_nil_r. }
  assert (Ho : o ∉ visited).
  { apply NoDup_app in Hnd as (_ & Hd & _). intros Hin. by apply (Hd o Hin); left. }
  change (o :: l) with ([o] ++ l) in Hnd |- *. rewrite (assoc_L (++)) in Hnd |- *. by apply IH, reindex_step.
Qed.

Section rebuild.
Context `{HashOrder}.

Lemma classify_orphan_fields s c p :
  let c' := classify_orphan s c p in
  ob_retryable_ready c' = (if bool_decide (missing_block_parents p.2 s = []) then incr (ob_retryable_ready c) else ob_retryable_ready c) /\
  ob_waiting_missing_parent c' = (if bool_decide (missing_block_parents p.2 s = []) then ob_waiting_missing_parent c else incr (ob_waiting_missing_parent c)) /\
  (normalize_missing_parents (default [] (cs_orphan_missing_parents s !! p.1)) = missing_block_parents p.2 s ->
   (forall q, q ∈ missing_block_parents p.2 s -> waits s q p.1) ->
   ob_stale_missing_parent_entries c' = ob_stale_missing_parent_entries c /\
   ob_unindexed_missing_parent_entries c' = ob_unindexed_missing_parent_entries c).
Proof.
  destruct p as [h b]. cbv zeta. unfold classify_orphan. cbn [fst snd]. cbv zeta.
  set (m := missing_block_parents b s). set (c1 := if bool_decide (m = []) then _ else _).
  set (c2 := if bool_decide (_ <> m) then _ else c1).
  assert (Hc2 : ob_retryable_ready c2 = ob_retryable_ready c1 /\ ob_waiting_missing_parent c2 = ob_waiting_missing_parent c1 /\
    (normalize_missing_parents (default [] (cs_orphan_missing_parents s !! h)) = m -> c2 = c1)).
  { unfold c2. case_bool_decide; split_and!; try done. }
  clearbody c2. destruct Hc2 as (H1' & H2' & H3').
  assert (Hfold : forall l c0, let c' := foldl (fun c parent =>
      if bool_decide (h ∈ default ∅ (cs_orphan_parent_index s !! parent)) then c
      else c <| ob_unindexed_missing_parent_entries ::= incr |>) c0 l in
    ob_retryable_ready c' = ob_retryable_ready c0 /\ ob_waiting_missing_parent c' = ob_waiting_missing_parent c0 /\
    ob_stale_missing_parent_entries c' = ob_stale_missing_parent_entries c0 /\
    ((forall q, q ∈ l -> waits s q h) ->
     ob_unindexed_missing_parent_entries c' = ob_unindexed_missing_parent_entries c0)).
  { induction l as [|q l IH]; intros c0; [done|]. cbn [foldl].
    destruct (IH (if bool_decide (h ∈ default ∅ (cs_orphan_parent_index s !! q)) then c0
      else c0 <| ob_unindexed_missing_parent_entries ::= incr |>)) as (E1 & E2 & E3 & E4).
    cbv zeta. rewrite E1, E2, E3. split_and!; [by case_bool_decide..|]. intros Hq. rewrite E4.
    - rewrite bool_decide_eq_true_2; [done|]. apply Hq. left.
    - intros q' Hq'. apply Hq. by right. }
  destruct (Hfold m c2) as (E1 & E2 & E3 & E4). cbv zeta in E1, E2, E3, E4. rewrite E1, E2, H1', H2'.
  split; [unfold c1; by case_bool_decide|]. split; [unfold c1; by case_bool_decide|].
  intros Hn Hq. rewrite E3, E4 by done. rewrite H3' by done. unfold c1. by case_bool_decide.
Qed.

Lemma classify_fold s l c :
  ob_retryable_ready c + ob_waiting_missing_parent c + Z.of_nat (length l) <= u64_max ->
  0 <= ob_retryable_ready c -> 0 <= ob_waiting_missing_parent c ->
  let c' := foldl (classify_orphan s) c l in
  ob_retryable_ready c' = ob_retryable_ready c + Z.of_nat (length (filter (fun p => missing_block_parents p.2 s = []) l)) /\
  ob_retryable_ready c' + ob_waiting_missing_parent c' =
    ob_retryable_ready c + ob_waiting_missing_parent c + Z.of_nat (length l) /\
  ((forall h b, (h, b) ∈ l ->
     normalize_missing_parents (default [] (cs_orphan_missing_parents s !! h)) = missing_block_parents b s /\
     forall q, q ∈ missing_block_parents b s -> waits s q h) ->
   ob_stale_missing_parent_entries c' = ob_stale_missing_parent_entries c /\
   ob_unindexed_missing_parent_entries c' = ob_unindexed_missing_parent_entries c).
Proof.
  revert c. induction l as [|[h b] l IH]; intros c Hc H1' H2'; cbn [foldl].
  { cbn. split_and!; [lia|lia|done]. }
  destruct (classify_orphan_fields s c (h, b)) as (E1 & E2 & E3). cbn [fst snd] in *. cbn [length] in Hc.
  rewrite filter_cons. cbn [snd]. destruct (IH (classify_orphan s c (h, b))) as (F1 & F2 & F3).
  - rewrite E1, E2. unfold incr, saturating_add. case_bool_decide; lia.
  - rewrite E1. unfold incr, saturating_add. case_bool_decide; lia.
  - rewrite E2. unfold incr, saturating_add. case_bool_decide; lia.
  - cbv zeta in *. rewrite F2, F1, E1, E2. unfold incr, saturating_add. split; [|split].
    + case_bool_decide; case_decide; try done; cbn [length]; lia.
    + case_bool_decide; cbn [length]; lia.
    + intros Hall. destruct F3 as [-> ->]; [intros h' b' Hin; apply Hall; by right|].
      destruct (Hall h b) as [? ?]; [left|]. by apply E3.
Qed.

(** What a rebuild guarantees, whatever the indexes were before. *)
Record rebuilt_ok (s s' : ChainState) (c : OrphanBacklogClassification) : Prop := {
  rb_ok : orphans_ok s';
  rb_waits : forall p o, waits s' p o <-> needs s o p;
  rb_missing : forall o l, cs_orphan_missing_parents s' !! o = Some l -> forall p, p ∈ l <-> needs s o p;
  rb_blocks : cs_orphan_blocks s' = cs_orphan_blocks s;
  rb_terminal : cs_terminal_missing_parents s' = cs_terminal_missing_parents s;
  rb_frame : orphan_frame s s';
  rb_ready : ob_retryable_ready c =
    Z.of_nat (length (filter (fun p => missing_block_parents p.2 s = []) (map_iter (cs_orphan_blocks s))));
  rb_total : ob_retryable_ready c + ob_waiting_missing_parent c = Z.of_nat (size (cs_orphan_blocks s));
  rb_clean : (forall o p, blocked_on s o p -> suppress_terminal_missing_parent_retry s p = false) ->
    ob_stale_missing_parent_entries c = 0 /\ ob_unindexed_missing_parent_entries c = 0;
}.

Lemma sorted_set_ext l1 l2 : (forall x, x ∈ l1 <-> x ∈ l2) -> sorted_set l1 = sorted_set l2.
Proof. intros Hx. unfold sorted_set. f_equal. apply set_eq. intros x. rewrite !elem_of_list_to_set. apply Hx. Qed.

Lemma sorted_set_idem l : sorted_set (sorted_set l) = sorted_set l.
Proof. apply sorted_set_ext. intros x. unfold sorted_set. by rewrite elem_of_btree_iter, elem_of_list_to_set. Qed.

Lemma rebuild_orphan_spec s :
  map_Forall (fun h b => b_hash b = h) (cs_orphan_blocks s) ->
  dom (cs_orphan_received_at_ms s) = dom (cs_orphan_blocks s) ->
  Z.of_nat (size (cs_orphan_blocks s)) <= u64_max ->
  exists c s', rebuild_orphan_parent_index s = (c, s') /\ rebuilt_ok s s' c.
Proof.
  intros Hk Hr Hsz. unfold rebuild_orphan_parent_index. cbv zeta.
  set (s0 := s <| cs_orphan_missing_parents := ∅ |> <| cs_orphan_parent_index := ∅ |>).
  assert (H0' : reindexed s s0 []).
  { split; try done.
    - intros p o. unfold waits, s0. cbn. rewrite lookup_empty. set_solver.
    - intros o. unfold s0. cbn. rewrite lookup_empty. split; [by intros [? ?]|]. by intros [?%elem_of_nil _]. }
  change (cs_orphan_blocks s0) with (cs_orphan_blocks s).
  set (ids := sorted_ids (cs_orphan_blocks s)).
  assert (Hids : forall o, o ∈ ids <-> is_Some (cs_orphan_blocks s !! o)).
  { intros o. unfold ids, sorted_ids. rewrite isort_elem_of, list_elem_of_fmap. split.
    - intros ([h b] & -> & Hin%elem_of_map_iter). by eexists.
    - intros [b Hb]. exists (o, b). by rewrite elem_of_map_iter. }
  assert (Hx : reindexed s (foldl reindex_orphan s0 ids) ids).
  { apply (reindex_fold s s0 [] ids); [|done]. cbn [app]. unfold ids, sorted_ids. rewrite isort_nodup. apply NoDup_map_iter_keys. }
  set (s' := foldl reindex_orphan s0 ids) in *. clearbody s'. clear s0 H0'.
  assert (Hd : forall b, missing_block_parents b s' = missing_block_parents b s).
  { intros b. unfold missing_block_parents, in_dag. by rewrite (proj1 (rx_frame _ _ _ Hx)). }
  assert (Hw : forall p o, waits s' p o <-> needs s o p).
  { intros p o. rewrite (rx_waits _ _ _ Hx), Hids. split; [tauto|]. intros Hn. split; [|done].
    destruct Hn as [(b & Hb & _) _]. by eexists. }
  destruct (classify_fold s' (map_iter (cs_orphan_blocks s')) (mkOrphanBacklogClassification 0 0 0 0)) as (C1 & C2 & C3).
  { cbn. rewrite (rx_blocks _ _ _ Hx), map_iter_perm, length_map_to_list. lia. }
  { done. } { done. }
  do 2 eexists. split; [reflexivity|]. split; try apply Hx.
  - split; try apply Hx.
    + by rewrite (rx_blocks _ _ _ Hx).
    + apply set_eq. intros o. rewrite !elem_of_dom, (rx_missing _ _ _ Hx), (rx_blocks _ _ _ Hx), Hids. tauto.
    + by rewrite (rx_received _ _ _ Hx), (rx_blocks _ _ _ Hx).
  - exact Hw.
  - unfold classify_orphan_backlog. rewrite C1, (rx_blocks _ _ _ Hx). cbn [ob_retryable_ready]. rewrite Z.add_0_l.
    do 2 f_equal. apply list_filter_iff. intros [h b]. cbn. by rewrite Hd.
  - unfold classify_orphan_backlog. rewrite C2, (rx_blocks _ _ _ Hx), map_iter_perm, length_map_to_list. cbn. lia.
  - intros Hclean. unfold classify_orphan_backlog. apply C3. intros h b Hin%elem_of_map_iter.
    rewrite (rx_blocks _ _ _ Hx) in Hin.
    assert (Hn : forall p, p ∈ missing_block_parents b s' <-> needs s h p).
    { intros p. rewrite Hd, elem_of_missing_parents. unfold needs. split.
      - intros Hp. assert (Hb : blocked_on s h p) by (by exists b). split; [done|]. by eapply Hclean.
      - intros [(b' & Hb' & Hp) _]. assert (b' = b) as -> by congruence. done. }
    split; [|intros q Hq; by apply Hw, Hn].
    destruct (proj2 (rx_missing _ _ _ Hx h)) as [l Hl]; [split; [apply Hids; by exists b|by exists b]|].
    rewrite Hl. cbn [default]. unfold normalize_missing_parents.
    transitivity (sorted_set (missing_block_parents b s')).
    + apply sorted_set_ext. intros p. cbn. by rewrite (rx_list _ _ _ Hx h l Hl p), Hn.
    + unfold missing_block_parents. apply sorted_set_idem.
Qed.
End rebuild.
