(* ===== verification/AdoptionProps.v ===== *)
(** * Adopting orphans ([adopt_ready_orphans_with_result] of [orphans.rs])

    The adoption loop terminates, keeps the pool consistent, stores exactly the
    blocks it reports as accepted, and leaves no orphan behind whose parents are
    all stored. *)

From S2P Require Import Prelude Encoding Crypto Types Merkle State Tx TxV3 Graph Pow.
From S2P Require Import Selection Retarget Ghostdag Ordering Mining Genesis Apply ApplyProps.
From S2P Require Import Validation ValidationProps DagInvariant Mempool MempoolProps Commit CommitProps.
From S2P Require Import MempoolV3 MempoolResource MempoolResourceProps Accept Orphans OrphansProps.

(** ** What accepting a block leaves alone *)

(** The orphan fields are the same. *)
Definition same_pool (s s' : ChainState) : Prop :=
  cs_orphan_blocks s' = cs_orphan_blocks s /\ cs_orphan_missing_parents s' = cs_orphan_missing_parents s /\
  cs_orphan_parent_index s' = cs_orphan_parent_index s /\ cs_orphan_received_at_ms s' = cs_orphan_received_at_ms s /\
  cs_terminal_missing_parents s' = cs_terminal_missing_parents s.
Lemma same_pool_trans s1 s2 s3 : same_pool s1 s2 -> same_pool s2 s3 -> same_pool s1 s3.
Proof. unfold same_pool. intuition congruence. Qed.
Lemma mempool_frame_pool s s' : s' = s <| cs_mempool := cs_mempool s' |> -> same_pool s s'.
Proof. intros ->. done. Qed.

Lemma same_pool_ok s s' : same_pool s s' -> orphans_ok s -> orphans_ok s'.
Proof.
  intros (Hb & Hm & Hi & Hr & _) [K M R [W N]]. split; rewrite ?Hb, ?Hm, ?Hr; try done.
  split; [|by rewrite Hi]. intros p o. unfold waits. rewrite Hi, Hm. apply W.
Qed.
Lemma same_pool_waits s s' p o : same_pool s s' -> waits s' p o <-> waits s p o.
Proof. intros (_ & _ & Hi & _). unfold waits. by rewrite Hi. Qed.

Section accept_frame.
Context `{HashOrder, Crypto, !CryptoLaws, CarrierJson, Kaspa}.

Lemma remove_live_package_frame s roots removed s' :
  remove_live_package s roots = Some (removed, s') -> s' = s <| cs_mempool := cs_mempool s' |>.
Proof.
  unfold remove_live_package. destruct (package_from_roots s roots); [|done].
  destruct (foldl remove_live _ _) as [r mp]. by intros [= _ <-].
Qed.

Lemma evict_loop_frame fuel s out out' s' :
  evict_loop fuel s out = Some (out', s') -> s' = s <| cs_mempool := cs_mempool s' |>.
Proof.
  revert s out. induction fuel as [|fuel IH]; intros s out; [done|]. cbn [evict_loop].
  destruct (negb _); [intros [= _ <-]; by destruct s|].
  destruct (lowest_live_resource_victim s); [|intros [= _ <-]; by destruct s].
  destruct (remove_live_package s _) as [[[|x r] s1]|] eqn:Hr; [..|done]; apply remove_live_package_frame in Hr.
  - by intros [= _ <-].
  - intros He%IH. eapply mempool_frame_trans; [exact Hr|]. eapply mempool_frame_trans; [|exact He]. done.
Qed.

Lemma normalize_frame s out s' :
  normalize_production_mempool_resources_v1 s = Some (out, s') -> s' = s <| cs_mempool := cs_mempool s' |>.
Proof.
  unfold normalize_production_mempool_resources_v1. cbv zeta.
  destruct (foldl (seed_heights _) (mp_admission_height _, 0) _) as [heights n1].
  destruct (foldl (seed_heights _) (mp_orphan_admission_height _, 0) _) as [oheights n2].
  set (s1 := _ <| cs_mempool ::= _ |>). assert (F1 : s1 = s <| cs_mempool := cs_mempool s1 |>) by done. clearbody s1.
  unfold prune_expired_mempool. cbv zeta. destruct (expire_loop _ _ _ _) as [expired|]; [|done].
  set (s2 := s1 <| cs_mempool ::= _ |>). assert (F2 : s2 = s <| cs_mempool := cs_mempool s2 |>).
  { eapply mempool_frame_trans; [exact F1|done]. }
  clearbody s2. destruct (oversized _ _ _); [|done].
  destruct (remove_live_package s2 _) as [[r3 s3]|] eqn:E3; [|done]. apply remove_live_package_frame in E3.
  destruct (evict_loop _ _ _) as [[e5 s5]|] eqn:E5; [|done]. apply evict_loop_frame in E5.
  destruct (normalize_orphans _ _ _) as [[[? ?] mp]|]; [|done]. intros [= _ <-].
  apply (mempool_frame_trans _ s5); [|done]. eapply mempool_frame_trans; [|exact E5].
  apply (mempool_frame_trans _ s3); [by apply (mempool_frame_trans _ s2)|]. by destruct r3.
Qed.

Lemma apply_transaction_pool tx s height : same_pool s (apply_transaction tx s height).2.
Proof.
  unfold apply_transaction. destruct (collect_created _ _ _ _ _); [|done].
  destruct (if is_coinbase tx then _ else _) as [spent u]. destruct (negb spent); [done|].
  destruct (insert_outputs _ _ _ _) as [[|] u']; done.
Qed.
Lemma apply_transactions_live_pool txs s height : same_pool s (apply_transactions_live txs s height).2.
Proof.
  revert s. induction txs as [|tx txs IH]; intros s; [done|]. cbn [apply_transactions_live].
  pose proof (apply_transaction_pool tx s height) as Hp.
  destruct (apply_transaction tx s height) as [[|] s1]; cbn [fst snd] in *; [|done].
  by eapply same_pool_trans.
Qed.

Lemma record_state_root_pool s r s' : record_state_root s = (r, s') -> same_pool s s'.
Proof. unfold record_state_root. destruct (compute_state_root _) as [|[|]]; by intros [= _ <-]. Qed.

Lemma commit_pool_same block s s' : commit_block_to_state block s = (Ok tt, s') -> same_pool s s'.
Proof.
  unfold commit_block_to_state. intros Hc.
  destruct (if decide _ then _ else _) as [[[]|] s1] eqn:Hb; [|done].
  destruct (reconcile_mempool s1) as [[r s2]|] eqn:Hr; [|done]. injection Hc as <-.
  assert (H1' : same_pool s s1).
  { clear Hr. case_decide.
    - unfold commit_ghostdag in Hb. cbv zeta in Hb.
      assert (Hs : same_pool s (accept_block_to_dag_metadata block s)) by done.
      revert Hs Hb. generalize (accept_block_to_dag_metadata block s). intros sa Hs.
      destruct (rebuild_state_from_ordered_dag _) as [|[|]]; [|done..]. intros [= <-]. exact Hs.
    - unfold commit_legacy in Hb. cbv zeta in Hb.
      assert (Hs : same_pool s (record_legacy_order (refresh_selected_chain (accept_block_to_dag_metadata block s)))) by done.
      revert Hs Hb. generalize (record_legacy_order (refresh_selected_chain (accept_block_to_dag_metadata block s))).
      intros sa Hs. case_bool_decide.
      + unfold commit_legacy_compact_snapshot_state. case_decide.
        { intros Hrs%record_state_root_pool. by eapply same_pool_trans. }
        destruct (negb _); [done|].
        pose proof (apply_transactions_live_pool (b_transactions block) sa (h_height (b_header block))) as Ha.
        destruct (apply_transactions_live _ _ _) as [[[]|] sb]; [|done]. cbn [fst snd] in *.
        destruct (compute_state_root _); [|done]. destruct (negb _); [done|]. intros [= <-].
        eapply same_pool_trans; [exact Hs|]. eapply same_pool_trans; [exact Ha|done].
      + destruct (rebuild_legacy_state sa); [|done]. intros Hrs%record_state_root_pool.
        eapply same_pool_trans; [exact Hs|]. by eapply same_pool_trans; [|exact Hrs]. }
  eapply same_pool_trans; [exact H1'|].
  unfold reconcile_mempool in Hr. case_decide; [by injection Hr as _ <-|].
  destruct (reconcile_loop _ _ _ _ _) as [[[? ?] ?]|]; [|done]. by injection Hr as _ <-.
Qed.

Lemma classify_not_accepted err : classify_block_validation_error err <> Accepted.
Proof. destruct err; cbn; repeat case_match; done. Qed.

Lemma apply_block_Ok env now block s s' :
  apply_block env now block s = (Ok tt, s') -> index_consistent (cs_utxo s) ->
  index_consistent (cs_utxo s') /\ same_pool s s' /\
  d_blocks (cs_dag s') = <[b_hash block := accepted_header block s]> (d_blocks (cs_dag s)).
Proof.
  unfold apply_block, prepare_block_state. intros Ha Hi.
  destruct (validate_block env now block s) as [[]|]; [|done].
  destruct (commit_block_to_state block s) as [[[]|] s1] eqn:Hc; [|done].
  destruct (normalize_production_mempool_resources_v1 s1) as [[out s2]|] eqn:Hn; [|done]. injection Ha as <-.
  apply normalize_frame in Hn. pose proof (commit_pool_same _ _ _ Hc) as Hp.
  apply commit_block_Ok in Hc as [(Hb & _) Hi']; [|done]. destruct (accept_fields block s) as (Hb1 & _).
  split; [by rewrite Hn|]. split; [eapply same_pool_trans; [exact Hp|by apply mempool_frame_pool]|].
  by rewrite Hn, <- Hb1.
Qed.
Lemma apply_block_Err env now block s e s' : apply_block env now block s = (Err e, s') -> s' = s.
Proof. unfold apply_block. destruct (prepare_block_state _ _ _ _); by intros [= _ <-]. Qed.

(** The frame of an acceptance: a refusal changes nothing; an accepted block is
    new, and is added to the stored blocks. *)
Lemma accept_block_frame env now1 now2 block source s r s' :
  accept_block_with_result env now1 now2 block source s = (Some r, s') -> index_consistent (cs_utxo s) ->
  index_consistent (cs_utxo s') /\ same_pool s s' /\
  (r <> Accepted -> s' = s) /\
  (r = Accepted -> d_blocks (cs_dag s) !! b_hash block = None /\
     d_blocks (cs_dag s') = <[b_hash block := accepted_header block s]> (d_blocks (cs_dag s))).
Proof.
  unfold accept_block_with_result. intros Ha Hi. destruct (pow_validation_result _) as [pow|]; [|done].
  destruct (enforce_pow source && negb (pv_accepted pow)); [by injection Ha as <- <-|].
  destruct (validate_block env now1 block s) as [[]|[err|]] eqn:Hv; [| |done].
  2: { injection Ha as <- <-. pose proof (classify_not_accepted err). by split_and!. }
  destruct (apply_block env now2 block s) as [[[]|[err|]] s1] eqn:Hb; [| |done]; injection Ha as <- <-.
  - destruct (apply_block_Ok _ _ _ _ _ Hb Hi) as (Hi' & Hp & Hd). split_and!; try done. intros _.
    split; [|done]. apply validate_block_Ok in Hv. apply Hv.
  - apply apply_block_Err in Hb as ->. pose proof (classify_not_accepted err). by split_and!.
Qed.
End accept_frame.

(** ** Sifting the candidates *)

Definition queued_blocked (s : ChainState) (h : Hash) : Prop :=
  exists b, cs_orphan_blocks s !! h = Some b /\ missing_block_parents b s <> [].
Definition queued_ready (s : ChainState) (h : Hash) : Prop :=
  exists b, cs_orphan_blocks s !! h = Some b /\ missing_block_parents b s = [].

Record sifted (s s' : ChainState) (rl visited : list Hash) : Prop := {
  si_ok : orphans_ok s';
  si_blocks : cs_orphan_blocks s' = cs_orphan_blocks s;
  si_terminal : cs_terminal_missing_parents s' = cs_terminal_missing_parents s;
  si_frame : orphan_frame s s';
  si_ready : forall h, h ∈ rl <-> h ∈ visited /\ queued_ready s h;
  si_nodup : NoDup rl;
  si_sifted : forall h, h ∈ visited -> queued_blocked s h -> forall p, waits s' p h <-> needs s h p;
  si_others : forall h, h ∉ visited -> forall p, waits s' p h <-> waits s p h;
}.

Lemma sift_step s s' rl visited h :
  h ∉ visited -> sifted s s' rl visited ->
  let r := sift_candidate (rl, s') h in sifted s r.2 r.1 (visited ++ [h]).
Proof.
  intros Hh Hs. unfold sift_candidate. cbv zeta. rewrite (si_blocks _ _ _ _ Hs).
  assert (Hd : forall b, missing_block_parents b s' = missing_block_parents b s).
  { intros b. unfold missing_block_parents, in_dag. by rewrite (proj1 (si_frame _ _ _ _ Hs)). }
  destruct (cs_orphan_blocks s !! h) as [b|] eqn:Hb.
  2: { cbn [fst snd]. split; try apply Hs.
       - intros x. rewrite (si_ready _ _ _ _ Hs), elem_of_app, list_elem_of_singleton. unfold queued_ready. naive_solver.
       - intros x [Hx| ->%list_elem_of_singleton]%elem_of_app Hq; [by apply Hs|]. destruct Hq as (b & Hb' & _). congruence.
       - intros x [Hx _]%not_elem_of_app. by apply Hs. }
  rewrite Hd. case_bool_decide as Hm; cbn [fst snd].
  - split; try apply Hs.
    + intros x. rewrite !elem_of_app, !list_elem_of_singleton, (si_ready _ _ _ _ Hs). unfold queued_ready. naive_solver.
    + apply NoDup_app. split; [apply Hs|]. split; [|apply NoDup_singleton].
      intros x Hx ->%list_elem_of_singleton. by apply (si_ready _ _ _ _ Hs) in Hx as [? _].
    + intros x [Hx| ->%list_elem_of_singleton]%elem_of_app Hq; [by apply Hs|]. destruct Hq as (b' & Hb' & Hq). congruence.
    + intros x [Hx _]%not_elem_of_app. by apply Hs.
  - destruct (index_orphan_spec s' h (missing_block_parents b s) (oo_index _ (si_ok _ _ _ _ Hs)))
      as (Hw & (l & Hl & _) & Hi & Hb' & Hr & Ht & Hf).
    set (s2 := index_orphan_missing_parents s' h (missing_block_parents b s)) in *. clearbody s2.
    assert (Hneed : forall p, p ∈ missing_block_parents b s /\ suppress_terminal_missing_parent_retry s' p = false <-> needs s h p).
    { intros p. rewrite elem_of_missing_parents. unfold needs, blocked_on, suppress_terminal_missing_parent_retry.
      rewrite (si_terminal _ _ _ _ Hs), Hb. naive_solver. }
    split.
    + split; [..|exact Hi].
      * rewrite Hb'. apply Hs.
      * rewrite Hl, Hb', dom_insert_L, (oo_missing _ (si_ok _ _ _ _ Hs)), (si_blocks _ _ _ _ Hs).
        apply set_eq. intros x. rewrite elem_of_union, elem_of_singleton, elem_of_dom. split; [|by right].
        intros [->|?]; [by exists b|done].
      * rewrite Hr, Hb'. apply Hs.
    + rewrite Hb'. apply Hs.
    + rewrite Ht. apply Hs.
    + eapply orphan_frame_trans; [apply Hs|exact Hf].
    + intros x. rewrite elem_of_app, list_elem_of_singleton, (si_ready _ _ _ _ Hs). unfold queued_ready. naive_solver.
    + apply Hs.
    + intros x Hx Hq p. rewrite Hw, Hneed. apply elem_of_app in Hx as [Hx| ->%list_elem_of_singleton]; [|naive_solver].
      rewrite (si_sifted _ _ _ _ Hs x Hx Hq). assert (x <> h) by (by intros ->). tauto.
    + intros x [Hx Hne]%not_elem_of_app p. rewrite list_elem_of_singleton in Hne. rewrite Hw, (si_others _ _ _ _ Hs x Hx). tauto.
Qed.

Lemma sift_fold s s' rl visited l :
  NoDup (visited ++ l) -> sifted s s' rl visited ->
  let r := foldl sift_candidate (rl, s') l in sifted s r.2 r.1 (visited ++ l).
Proof.
  revert s' rl visited. induction l as [|h l IH]; intros s' rl visited Hnd Hs; cbn [foldl].
  { by rewrite app_nil_r. }
  assert (Hh : h ∉ visited).
  { apply NoDup_app in Hnd as (_ & Hd & _). intros Hin. by apply (Hd h Hin); left. }
  pose proof (sift_step s s' rl visited h Hh Hs) as Hs'. cbv zeta in Hs'.
  destruct (sift_candidate (rl, s') h) as [rl1 s1]. cbn [fst snd] in Hs'.
  change (h :: l) with ([h] ++ l) in Hnd |- *. rewrite (assoc_L (++)) in Hnd |- *. by apply IH.
Qed.

Lemma NoDup_sort_dedup l : NoDup (sort_dedup l).
Proof.
  unfold sort_dedup. pose proof (isort_ssorted String.le l) as Hs. induction (isort String.le l) as [|x t IH]; [constructor|].
  apply StronglySorted_inv in Hs as [Hs Hx]. destruct t as [|y t]; [apply NoDup_singleton|].
  change (dedup (x :: y :: t)) with (if decide (x = y) then dedup (y :: t) else x :: dedup (y :: t)).
  case_decide as Hxy; [by apply IH|]. apply NoDup_cons. split; [|by apply IH]. rewrite elem_of_dedup.
  intros [->|Hin]%elem_of_cons; [done|]. apply Hxy. apply StronglySorted_inv in Hs as [_ Hy].
  rewrite Forall_forall in Hx, Hy. apply (anti_symm String.le); [apply Hx; left|by apply Hy].
Qed.

Lemma sift_spec s candidates rl s' :
  orphans_ok s -> sift_candidates candidates s = (rl, s') ->
  exists visited, (forall h, h ∈ visited <-> h ∈ candidates) /\ sifted s s' rl visited.
Proof.
  intros Hok Hs. exists (sort_dedup candidates). split.
  { intros h. unfold sort_dedup. by rewrite elem_of_dedup, isort_elem_of. }
  unfold sift_candidates in Hs. pose proof (sift_fold s s [] [] (sort_dedup candidates)) as Hf. cbv zeta in Hf.
  rewrite Hs in Hf. cbn [fst snd app] in Hf. apply Hf; [apply NoDup_sort_dedup|].
  split; try done; [| |by intros h Hh%elem_of_nil].
  - intros h. rewrite elem_of_nil. split; [done|]. by intros [? _].
  - constructor.
Qed.

(** ** One orphan *)

Section adoption.
Context `{HashOrder, Crypto, !CryptoLaws, CarrierJson, Kaspa}.
Variables (env : string -> option string) (clock : AdoptClock) (source : AcceptSource).

Record adopt_inv (s0 : ChainState) (a : Adoption) : Prop := {
  ai_ok : orphans_ok (ad_state a);
  ai_utxo : index_consistent (cs_utxo (ad_state a));
  ai_pool : cs_orphan_blocks (ad_state a) ⊆ cs_orphan_blocks s0;
  ai_dag : forall h, in_dag (ad_state a) h = true <-> in_dag s0 h = true \/ h ∈ oa_accepted_hashes (ad_result a);
  ai_nodup : NoDup (oa_accepted_hashes (ad_result a));
  ai_accepted : forall h, h ∈ oa_accepted_hashes (ad_result a) ->
    is_Some (cs_orphan_blocks s0 !! h) /\ cs_orphan_blocks (ad_state a) !! h = None /\ in_dag s0 h = false;
  ai_count : oa_accepted (ad_result a) = Z.of_nat (length (oa_accepted_hashes (ad_result a)));
}.

(** What one attempt does. *)
Inductive attempt (h : Hash) (a a' : Adoption) : Prop :=
| attempt_gone : cs_orphan_blocks (ad_state a) !! h = None ->
    ad_result a' = ad_result a -> ad_candidates a' = ad_candidates a ->
    orphans_removed (ad_state a) (ad_state a') [h] -> attempt h a a'
| attempt_accepted s1 : orphans_removed (ad_state a) s1 [h] ->
    same_pool s1 ((ad_state a') <| cs_terminal_missing_parents := cs_terminal_missing_parents s1 |>) ->
    is_Some (cs_orphan_blocks (ad_state a) !! h) -> in_dag (ad_state a) h = false ->
    (forall x, in_dag (ad_state a') x = true <-> x = h \/ in_dag (ad_state a) x = true) ->
    index_consistent (cs_utxo (ad_state a')) ->
    (forall p, suppress_terminal_missing_parent_retry (ad_state a') p = true ->
       suppress_terminal_missing_parent_retry (ad_state a) p = true) ->
    oa_accepted (ad_result a') = 1 + oa_accepted (ad_result a) ->
    oa_accepted_hashes (ad_result a') = oa_accepted_hashes (ad_result a) ++ [h] ->
    oa_failure_reasons (ad_result a') = oa_failure_reasons (ad_result a) ->
    ad_candidates a' = ad_candidates a ++ orphan_children_waiting_for_parent (ad_state a') h -> attempt h a a'
| attempt_rejected : orphans_removed (ad_state a) (ad_state a') [h] ->
    is_Some (cs_orphan_blocks (ad_state a) !! h) ->
    oa_accepted (ad_result a') = oa_accepted (ad_result a) ->
    oa_accepted_hashes (ad_result a') = oa_accepted_hashes (ad_result a) ->
    dom (oa_failure_reasons (ad_result a)) ⊆ dom (oa_failure_reasons (ad_result a')) ->
    ad_candidates a' = ad_candidates a -> attempt h a a'
| attempt_requeued b s1 r now1 now2 : orphans_removed (ad_state a) s1 [h] ->
    cs_orphan_blocks (ad_state a) !! h = Some b -> b_hash b = h ->
    queue_ok s1 (ad_state a') r now1 now2 b (missing_block_parents b s1) DEFAULT_ORPHAN_MAX_COUNT DEFAULT_ORPHAN_MAX_AGE_MS ->
    oa_accepted (ad_result a') = oa_accepted (ad_result a) ->
    oa_accepted_hashes (ad_result a') = oa_accepted_hashes (ad_result a) ->
    oa_failure_reasons (ad_result a') = record_reprocess_failure (oa_failure_reasons (ad_result a)) MissingParent ->
    ad_candidates a' = ad_candidates a -> attempt h a a'.

Lemma in_dag_insert s s' h b :
  d_blocks (cs_dag s') = <[h := b]> (d_blocks (cs_dag s)) ->
  forall x, in_dag s' x = true <-> x = h \/ in_dag s x = true.
Proof.
  intros Hd x. unfold in_dag. rewrite Hd, !bool_decide_eq_true, lookup_insert_is_Some. destruct (decide (h = x)); naive_solver.
Qed.

Lemma adopt_orphan_attempt a h a' :
  orphans_ok (ad_state a) -> index_consistent (cs_utxo (ad_state a)) ->
  Z.of_nat (size (cs_orphan_blocks (ad_state a))) <= u64_max ->
  adopt_orphan env clock source a h = Ok a' -> attempt h a a'.
Proof.
  intros Hok Hi Hsz. unfold adopt_orphan.
  pose proof (remove_queued_ok (ad_state a) h Hok) as R.
  destruct (remove_queued_spec (ad_state a) h (oo_index _ Hok)) as (Hb & Hbl & _).
  destruct (remove_queued_orphan (ad_state a) h) as [removed s1]. cbn [fst snd] in *.
  destruct removed as [b|]; [|intros [= <-]; by apply attempt_gone].
  symmetry in Hb. pose proof (oo_keyed _ Hok h b Hb) as Hkey. cbv zeta.
  set (n := Z.to_nat (oa_retried (ad_result a))).
  destruct (accept_block_with_result _ _ _ b source s1) as [[r|] s2] eqn:Ha; [|done].
  destruct (or_frame _ _ _ R) as (Hdag & Hutxo & _).
  destruct (accept_block_frame _ _ _ _ _ _ _ _ Ha) as (Hi2 & Hp & Hno & Hyes); [by rewrite Hutxo|].
  assert (Hrej : r <> Accepted -> r <> MissingParent ->
    attempt h a (mkAdoption ((ad_result a) <| oa_retried ::= Z.add 1 |> <| oa_rejected ::= Z.add 1 |>
      <| oa_failure_reasons ::= fun m => record_reprocess_failure m r |>) (ad_candidates a) s2)).
  { intros Hr _. rewrite (Hno Hr). apply attempt_rejected; try done. cbn. unfold record_reprocess_failure.
    rewrite dom_insert_L. set_solver. }
  destruct r; [|by intros [= <-]; apply Hrej|by intros [= <-]; apply Hrej| |by intros [= <-]; apply Hrej..].
  - intros [= <-]. destruct (Hyes eq_refl) as [Hnew Hd].
    apply (attempt_accepted _ _ _ s1); cbn; try done.
    + destruct Hp as (P1 & P2 & P3 & P4 & _). by unfold same_pool.
    + unfold in_dag. rewrite <- Hdag, <- Hkey, Hnew. by rewrite bool_decide_eq_false_2 by (by intros [? ?]).
    + intros x. rewrite <- Hkey. pose proof (in_dag_insert _ _ _ _ Hd x) as Hx. unfold in_dag in *. cbn. by rewrite Hx, Hdag.
    + intros p. unfold suppress_terminal_missing_parent_retry. cbn.
      destruct Hp as (_ & _ & _ & _ & ->). rewrite (or_terminal _ _ _ R).
      destruct (decide (p = h)) as [->|Hne]; [by rewrite lookup_insert_eq|by rewrite lookup_insert_ne].
  - intros [= <-]. rewrite (Hno ltac:(done)) in *.
    destruct (queue_spec s1 (ac_ms1 clock n) (ac_ms2 clock n) b (missing_block_parents b s1) DEFAULT_ORPHAN_MAX_COUNT
      DEFAULT_ORPHAN_MAX_AGE_MS (or_ok _ _ _ R)) as (r & s3 & Hq & Hqk).
    { rewrite Hkey, Hbl. apply lookup_delete_eq. }
    { done. }
    { rewrite Hbl, map_size_delete, Hb. assert (size (cs_orphan_blocks (ad_state a)) <> 0%nat); [|simpl; lia].
      intros He%map_size_empty_inv. by rewrite He, lookup_empty in Hb. }
    rewrite Hq. by apply (attempt_requeued _ _ _ b s1 r (ac_ms1 clock n) (ac_ms2 clock n)).
Qed.

Lemma removed_lookup s s' h : orphans_removed s s' [h] -> cs_orphan_blocks s' = delete h (cs_orphan_blocks s).
Proof.
  intros R. apply map_eq_iff. intros x. apply option_eq. intros b.
  rewrite (or_blocks _ _ _ R), lookup_delete_Some, list_elem_of_singleton. naive_solver.
Qed.
Lemma removed_dag s s' g h : orphans_removed s s' g -> in_dag s' h = in_dag s h.
Proof. intros R. unfold in_dag. by rewrite (proj1 (or_frame _ _ _ R)). Qed.
Lemma same_pool_terminal s s' t :
  same_pool s (s' <| cs_terminal_missing_parents := t |>) -> orphans_ok s -> orphans_ok s'.
Proof. intros Hp Hok%(same_pool_ok _ _ Hp). by destruct Hok as [? ? ? []]. Qed.

Lemma size_delete_lt {V} (m : gmap Hash V) h : is_Some (m !! h) -> (size (delete h m) < size m)%nat.
Proof.
  intros [v Hv]. rewrite map_size_delete, Hv. assert (size m <> 0%nat); [|simpl; lia].
  intros He%map_size_empty_inv. by rewrite He, lookup_empty in Hv.
Qed.

Lemma attempt_inv s0 h a a' :
  adopt_inv s0 a -> attempt h a a' ->
  adopt_inv s0 a' /\ dom (cs_orphan_blocks (ad_state a')) ⊆ dom (cs_orphan_blocks (ad_state a)) /\
  (ad_candidates a' = ad_candidates a \/
   (size (cs_orphan_blocks (ad_state a')) < size (cs_orphan_blocks (ad_state a)))%nat).
Proof.
  intros Hi [Hn Er Ec R|s1 R Hp Hq Hnew Hd Hu Hsup Ea El Ef Ec|R Hq Ea El Ef Ec|b s1 r n1 n2 R Hq Hk Hok Ea El Ef Ec].
  - pose proof (removed_lookup _ _ _ R) as Hb. rewrite delete_id in Hb by done. rewrite Hb. split; [|by auto].
    split; rewrite ?Hb, ?Er; try apply Hi; [apply R|by rewrite (proj1 (proj2 (or_frame _ _ _ R))); apply Hi|].
    intros x. rewrite (removed_dag _ _ _ _ R). apply Hi.
  - pose proof (removed_lookup _ _ _ R) as Hb. assert (Hb' : cs_orphan_blocks (ad_state a') = delete h (cs_orphan_blocks (ad_state a))).
    { rewrite <- Hb. apply Hp. }
    rewrite Hb', dom_delete_L. split; [|split; [set_solver|right; by apply size_delete_lt]].
    assert (Hna : h ∉ oa_accepted_hashes (ad_result a)).
    { intros Hin. assert (in_dag (ad_state a) h = true) by (apply (ai_dag _ _ Hi); by right). congruence. }
    split; rewrite ?El, ?Ea; try done.
    + eapply same_pool_terminal; [exact Hp|apply R].
    + rewrite Hb'. etransitivity; [apply delete_subseteq|apply Hi].
    + intros x. rewrite Hd, (ai_dag _ _ Hi), elem_of_app, list_elem_of_singleton. tauto.
    + apply NoDup_app. split; [apply Hi|]. split; [|apply NoDup_singleton]. by intros x Hx ->%list_elem_of_singleton.
    + intros x. rewrite Hb'. intros [Hx| ->%list_elem_of_singleton]%elem_of_app.
      * destruct (ai_accepted _ _ Hi x Hx) as (H1' & H2' & H3'). split_and!; [done| |done]. by apply lookup_delete_None; right.
      * split_and!; [|apply lookup_delete_eq|].
        { destruct Hq as [b Hq]. exists b. eapply lookup_weaken; [exact Hq|apply Hi]. }
        destruct (in_dag s0 h) eqn:Hx; [|done]. assert (in_dag (ad_state a) h = true) by (apply (ai_dag _ _ Hi); by left). congruence.
    + rewrite (ai_count _ _ Hi), length_app. cbn. lia.
  - pose proof (removed_lookup _ _ _ R) as Hb. rewrite Hb, dom_delete_L. split; [|split; [set_solver|by left]].
    split; rewrite ?Ea, ?El; try apply Hi; [apply R|by rewrite (proj1 (proj2 (or_frame _ _ _ R))); apply Hi| | |].
    + rewrite Hb. etransitivity; [apply delete_subseteq|apply Hi].
    + intros x. rewrite (removed_dag _ _ _ _ R). apply Hi.
    + intros x Hx. destruct (ai_accepted _ _ Hi x Hx) as (H1' & H2' & H3'). split_and!; [done| |done]. rewrite Hb.
      by apply lookup_delete_None; right.
  - pose proof (removed_lookup _ _ _ R) as Hb.
    assert (Hsub : cs_orphan_blocks (ad_state a') ⊆ cs_orphan_blocks (ad_state a)).
    { apply map_subseteq_spec. intros x c Hx. apply (qk_pool _ _ _ _ _ _ _ _ _ Hok) in Hx as [[-> ->]|Hx]; [by rewrite Hk|].
      rewrite Hb in Hx. by apply lookup_delete_Some in Hx as [_ ?]. }
    destruct (qk_frame _ _ _ _ _ _ _ _ _ Hok) as (Hd & Hu & _).
    split; [|split; [by apply subseteq_dom|by left]].
    split; rewrite ?Ea, ?El; try apply Hi; [apply Hok| | | |].
    + rewrite Hu, (proj1 (proj2 (or_frame _ _ _ R))). apply Hi.
    + etransitivity; [exact Hsub|apply Hi].
    + intros x. unfold in_dag. rewrite Hd. change (in_dag s1 x = true <-> in_dag s0 x = true \/ x ∈ oa_accepted_hashes (ad_result a)).
      rewrite (removed_dag _ _ _ _ R). apply Hi.
    + intros x Hx. destruct (ai_accepted _ _ Hi x Hx) as (H1' & H2' & H3'). split_and!; [done| |done].
      destruct (cs_orphan_blocks (ad_state a') !! x) as [c|] eqn:Hc; [|done].
      pose proof (lookup_weaken _ _ _ _ Hc Hsub). congruence.
Qed.

(** ** Nothing ready is forgotten *)

(** Orphan [h] waits for a parent, and is indexed under every parent it misses. *)
Definition indexed (s : ChainState) (h : Hash) : Prop :=
  (exists p, blocked_on s h p) /\ forall p, blocked_on s h p -> waits s p h.
Definition covered (todo : list Hash) (a : Adoption) : Prop :=
  forall x, is_Some (cs_orphan_blocks (ad_state a) !! x) -> x ∈ todo \/ x ∈ ad_candidates a \/ indexed (ad_state a) x.
Definition no_terminal (s : ChainState) : Prop := forall p, suppress_terminal_missing_parent_retry s p = false.
Definition no_requeue (a : Adoption) : Prop := oa_failure_reasons (ad_result a) !! "missing_parent" = None.

Lemma indexed_same s s' h :
  (forall x, in_dag s' x = in_dag s x) -> cs_orphan_blocks s' !! h = cs_orphan_blocks s !! h ->
  (forall p, waits s p h -> waits s' p h) -> indexed s h -> indexed s' h.
Proof.
  intros Hd Hb Hw [(p & b & Hp) Hall]. split.
  - exists p, b. by rewrite Hd, Hb.
  - intros q (c & Hq). rewrite Hd, Hb in Hq. apply Hw, Hall. by exists c.
Qed.

Lemma removed_indexed s s' h x : orphans_removed s s' [h] -> x <> h -> indexed s x -> indexed s' x.
Proof.
  intros R Hne. apply indexed_same.
  - intros y. by eapply removed_dag.
  - rewrite (removed_lookup _ _ _ R), lookup_delete_ne; done.
  - intros p Hp. apply (or_waits _ _ _ R). by rewrite list_elem_of_singleton.
Qed.

Lemma attempt_covered h todo a a' :
  covered (h :: todo) a -> attempt h a a' -> no_requeue a' -> covered todo a'.
Proof.
  intros Hc [Hn Er Ec R|s1 R Hp Hq Hnew Hd Hu Hsup Ea El Ef Ec|R Hq Ea El Ef Ec|b s1 r n1 n2 R Hq Hk Hok Ea El Ef Ec] Hr x Hx.
  - rewrite (removed_lookup _ _ _ R) in Hx. apply lookup_delete_is_Some in Hx as [Hne Hx].
    destruct (Hc x Hx) as [[->|?]%elem_of_cons|[?|Hi]]; [done|by left|right; left; by rewrite Ec|].
    right; right. by eapply removed_indexed.
  - assert (Hb : cs_orphan_blocks (ad_state a') = delete h (cs_orphan_blocks (ad_state a))).
    { rewrite <- (removed_lookup _ _ _ R). apply Hp. }
    rewrite Hb in Hx. apply lookup_delete_is_Some in Hx as [Hne Hx].
    destruct (Hc x Hx) as [[->|?]%elem_of_cons|[?|[(p & bx & Hbx & Hpx & Hpd) Hall]]]; [done|by left|..].
    { right; left. rewrite Ec. apply elem_of_app. by left. }
    assert (Hw : forall p, waits (ad_state a') p x <-> waits (ad_state a) p x).
    { intros q. change (waits (ad_state a') q x) with (waits ((ad_state a') <| cs_terminal_missing_parents := cs_terminal_missing_parents s1 |>) q x).
      rewrite (same_pool_waits _ _ _ _ Hp), (or_waits _ _ _ R), list_elem_of_singleton. naive_solver. }
    destruct (decide (h ∈ h_parents (b_header bx))) as [Hin|Hout].
    + right; left. rewrite Ec. apply elem_of_app. right. unfold orphan_children_waiting_for_parent.
      assert (Hwx : waits (ad_state a') h x) by (apply Hw, Hall; by exists bx). unfold waits in Hwx.
      destruct (cs_orphan_parent_index (ad_state a') !! h) as [w|]; [by apply elem_of_btree_iter|by apply not_elem_of_empty in Hwx].
    + right; right. split.
      * exists p, bx. split; [by rewrite Hb, lookup_delete_ne|]. split; [done|].
        destruct (in_dag (ad_state a') p) eqn:Hpd'; [|done]. apply Hd in Hpd' as [->|]; [done|congruence].
      * intros q (c & Hcx & Hqx & Hqd). rewrite Hb, lookup_delete_ne in Hcx by done. apply Hw, Hall. exists c. split_and!; [done..|].
        destruct (in_dag (ad_state a) q) eqn:Hq'; [|done]. assert (in_dag (ad_state a') q = true) by (apply Hd; by right). congruence.
  - rewrite (removed_lookup _ _ _ R) in Hx. apply lookup_delete_is_Some in Hx as [Hne Hx].
    destruct (Hc x Hx) as [[->|?]%elem_of_cons|[?|Hi]]; [done|by left|right; left; by rewrite Ec|].
    right; right. by eapply removed_indexed.
  - exfalso. unfold no_requeue in Hr. rewrite Ef in Hr. unfold record_reprocess_failure in Hr.
    change (reprocess_failure_reason MissingParent) with "missing_parent" in Hr. cbv zeta in Hr. by rewrite lookup_insert_eq in Hr.
Qed.

Lemma attempt_terminal h a a' : attempt h a a' -> no_terminal (ad_state a) -> no_requeue a' -> no_terminal (ad_state a').
Proof.
  intros [Hn Er Ec R|s1 R Hp Hq Hnew Hd Hu Hsup Ea El Ef Ec|R Hq Ea El Ef Ec|b s1 r n1 n2 R Hq Hk Hok Ea El Ef Ec] Ht Hr p.
  - unfold suppress_terminal_missing_parent_retry. rewrite (or_terminal _ _ _ R). apply Ht.
  - destruct (suppress_terminal_missing_parent_retry (ad_state a') p) eqn:E; [|done]. apply Hsup in E. by rewrite Ht in E.
  - unfold suppress_terminal_missing_parent_retry. rewrite (or_terminal _ _ _ R). apply Ht.
  - exfalso. unfold no_requeue in Hr. rewrite Ef in Hr. unfold record_reprocess_failure in Hr.
    change (reprocess_failure_reason MissingParent) with "missing_parent" in Hr. cbv zeta in Hr. by rewrite lookup_insert_eq in Hr.
Qed.
Lemma attempt_requeue h a a' : attempt h a a' -> no_requeue a' -> no_requeue a.
Proof.
  unfold no_requeue. rewrite <- !not_elem_of_dom.
  intros [Hn Er Ec R|s1 R Hp Hq Hnew Hd Hu Hsup Ea El Ef Ec|R Hq Ea El Ef Ec|b s1 r n1 n2 R Hq Hk Hok Ea El Ef Ec].
  - by rewrite Er.
  - by rewrite Ef.
  - set_solver.
  - rewrite Ef. unfold record_reprocess_failure. cbv zeta. rewrite dom_insert_L. set_solver.
Qed.

(** ** The loops *)

Lemma adopt_orphan_fuel a h : adopt_orphan env clock source a h <> Err OutOfFuel.
Proof.
  unfold adopt_orphan. destruct (remove_queued_orphan _ _) as [[b|] s1]; [|done]. cbv zeta.
  destruct (accept_block_with_result _ _ _ _ _ _) as [[[]|] s2]; done.
Qed.
Lemma adopt_all_fuel rl a : adopt_all env clock source rl a <> Err OutOfFuel.
Proof.
  revert a. induction rl as [|h rl IH]; intros a; cbn [adopt_all]; [done|].
  pose proof (adopt_orphan_fuel a h) as Hf. destruct (adopt_orphan _ _ _ a h) as [a'|e]; [apply IH|exact Hf].
Qed.

(** From [a] to [a'], invariants kept and coverage carried over. *)
Record progress (s0 : ChainState) (todo : list Hash) (a a' : Adoption) : Prop := {
  pg_inv : adopt_inv s0 a';
  pg_size : (size (cs_orphan_blocks (ad_state a')) <= size (cs_orphan_blocks (ad_state a)))%nat;
  pg_clean : no_requeue a' -> no_requeue a;
  pg_covered : no_requeue a' -> no_terminal (ad_state a) -> covered todo a -> no_terminal (ad_state a') /\ covered [] a';
}.

Lemma adopt_all_spec s0 rl a a' :
  Z.of_nat (size (cs_orphan_blocks s0)) <= u64_max -> adopt_inv s0 a ->
  adopt_all env clock source rl a = Ok a' ->
  progress s0 rl a a' /\ (ad_candidates a' = ad_candidates a \/
    (size (cs_orphan_blocks (ad_state a')) < size (cs_orphan_blocks (ad_state a)))%nat).
Proof.
  intros Hmax. revert a. induction rl as [|h rl IH]; intros a Hi; cbn [adopt_all].
  { intros [= <-]. split; [by split|by left]. }
  destruct (adopt_orphan env clock source a h) as [a1|] eqn:Ha; [|done]. intros Hall.
  apply adopt_orphan_attempt in Ha; [|apply Hi|apply Hi|].
  2: { pose proof (map_subseteq_size _ _ (ai_pool _ _ Hi)). lia. }
  destruct (attempt_inv s0 h a a1 Hi Ha) as (Hi1 & Hd1 & Hc1). apply subseteq_size in Hd1. rewrite !size_dom in Hd1.
  destruct (IH a1 Hi1 Hall) as [P Hc]. split.
  - split; [apply P|pose proof (pg_size _ _ _ _ P); lia| |].
    + intros Hr. eapply attempt_requeue; [exact Ha|by apply P].
    + intros Hr Ht Hcov. assert (Hr1 : no_requeue a1) by (by apply P).
      apply (pg_covered _ _ _ _ P Hr); [by eapply attempt_terminal|by eapply attempt_covered].
  - destruct Hc as [Hc|Hc]; [|right; lia]. destruct Hc1 as [Hc1|Hc1]; [left; congruence|right].
    pose proof (pg_size _ _ _ _ P). lia.
Qed.

Lemma sift_progress s0 a rl s1 :
  adopt_inv s0 a -> sift_candidates (ad_candidates a) (ad_state a) = (rl, s1) ->
  let a1 := mkAdoption (ad_result a) [] s1 in
  adopt_inv s0 a1 /\ cs_orphan_blocks s1 = cs_orphan_blocks (ad_state a) /\
  (no_terminal (ad_state a) -> covered [] a -> no_terminal s1 /\ covered rl a1) /\
  (ad_candidates a = [] -> rl = []).
Proof.
  intros Hi Hs a1. destruct (sift_spec _ _ _ _ (ai_ok _ _ Hi) Hs) as (visited & Hv & S).
  destruct (si_frame _ _ _ _ S) as (Hd & Hu & _).
  assert (Hdag : forall h, in_dag s1 h = in_dag (ad_state a) h) by (intros h; unfold in_dag; by rewrite Hd).
  split_and!.
  - split; cbn; rewrite ?(si_blocks _ _ _ _ S), ?Hu; try apply Hi; [apply S|].
    intros h. rewrite Hdag. apply Hi.
  - apply S.
  - intros Ht Hc. split.
    { intros p. unfold suppress_terminal_missing_parent_retry. rewrite (si_terminal _ _ _ _ S). apply Ht. }
    intros x. cbn. rewrite (si_blocks _ _ _ _ S). intros Hx. destruct (Hc x Hx) as [?%elem_of_nil|[Hx'|Hx']]; [done|..].
    + destruct Hx as [b Hb]. destruct (decide (missing_block_parents b (ad_state a) = [])) as [Hm|Hm].
      * left. apply (si_ready _ _ _ _ S). split; [by apply Hv|by exists b].
      * right; right. assert (Hw : forall p, waits s1 p x <-> needs (ad_state a) x p).
        { apply (si_sifted _ _ _ _ S); [by apply Hv|by exists b]. }
        assert (Hbl : forall p, blocked_on s1 x p <-> p ∈ missing_block_parents b (ad_state a)).
        { intros p. unfold blocked_on. rewrite (si_blocks _ _ _ _ S), Hb, elem_of_missing_parents, Hdag. naive_solver. }
        split.
        { destruct (missing_block_parents b (ad_state a)) as [|p l]; [done|]. exists p. apply Hbl. left. }
        intros p Hp%Hbl%elem_of_missing_parents. apply Hw. split; [by exists b|apply Ht].
    + destruct (decide (x ∈ visited)) as [Hin|Hout].
      * destruct Hx as [b Hb]. destruct (decide (missing_block_parents b (ad_state a) = [])) as [Hm|Hm].
        { left. apply (si_ready _ _ _ _ S). split; [done|by exists b]. }
        right; right. destruct Hx' as [(p & Hp) Hall]. split.
        { exists p. destruct Hp as (c & Hc' & Hp). exists c. by rewrite (si_blocks _ _ _ _ S), Hdag. }
        intros q (c & Hc' & Hq). rewrite (si_blocks _ _ _ _ S), Hdag in *.
        apply (si_sifted _ _ _ _ S); [done|by exists b|]. split; [by exists c|apply Ht].
      * right; right. revert Hx'. apply indexed_same; [done|by rewrite (si_blocks _ _ _ _ S)|].
        intros p Hp. by apply (si_others _ _ _ _ S).
  - intros Hn. apply elem_of_nil_inv. intros h [Hh _]%(si_ready _ _ _ _ S). apply Hv in Hh. rewrite Hn in Hh. by apply elem_of_nil in Hh.
Qed.

Lemma adopt_loop_spec s0 fuel a :
  Z.of_nat (size (cs_orphan_blocks s0)) <= u64_max -> adopt_inv s0 a ->
  ((if bool_decide (ad_candidates a = []) then 1 else 2 + size (cs_orphan_blocks (ad_state a))) <= fuel)%nat ->
  adopt_loop env clock source fuel a <> Err OutOfFuel /\
  forall a', adopt_loop env clock source fuel a = Ok a' -> adopt_inv s0 a' /\ ad_candidates a' = [] /\
    (no_requeue a' -> no_requeue a) /\
    (no_requeue a' -> no_terminal (ad_state a) -> covered [] a -> no_terminal (ad_state a') /\ covered [] a').
Proof.
  intros Hmax. revert a. induction fuel as [|fuel IH]; intros a Hi Hfuel; [case_bool_decide; lia|]. cbn [adopt_loop].
  destruct (sift_candidates (ad_candidates a) (ad_state a)) as [rl s1] eqn:Hs.
  destruct (sift_progress s0 a rl s1 Hi Hs) as (Hi1 & Hb & Hcov & Hnil).
  destruct rl as [|h rl]; [split; [done|]; intros a' [= <-]; split_and!; try done; auto|].
  assert (Hne : ad_candidates a <> []) by (intros Hn; by apply Hnil in Hn). rewrite bool_decide_eq_false_2 in Hfuel by done.
  generalize dependent (h :: rl). clear h rl. intros rl Hs Hcov Hnil.
  destruct (adopt_all env clock source rl (mkAdoption (ad_result a) [] s1)) as [a2|e] eqn:Ha.
  2: { split; [|done]. pose proof (adopt_all_fuel rl (mkAdoption (ad_result a) [] s1)). congruence. }
  destruct (adopt_all_spec s0 rl _ _ Hmax Hi1 Ha) as [P Hsz]. cbn [ad_candidates ad_state] in *. rewrite Hb in Hsz.
  destruct (IH a2 (pg_inv _ _ _ _ P)) as [Hf Hok].
  { case_bool_decide as Hc2; [lia|]. destruct Hsz; [done|lia]. }
  split; [exact Hf|]. intros a' Ha'. destruct (Hok a' Ha') as (I1 & I2 & I3 & I4). split_and!; [done|done| |].
  - intros Hr. apply (pg_clean _ _ _ _ P). by apply I3.
  - intros Hr Ht Hc. destruct (Hcov Ht Hc) as [Ht1 Hc1].
    destruct (pg_covered _ _ _ _ P) as [Ht2 Hc2]; [by apply I3|done|done|]. by apply I4.
Qed.
End adoption.

(** ** The other operations *)

Lemma unindexed_parent_ok s p : orphans_ok s -> orphans_ok (s <| cs_orphan_parent_index ::= delete p |>).
Proof.
  intros [K M R [W N]]. split; try done. split; cbn; [|by apply map_Forall_delete].
  intros q o. unfold waits. cbn. destruct (decide (q = p)) as [->|Hne].
  - rewrite lookup_delete_eq. cbn. set_solver.
  - rewrite lookup_delete_ne by done. apply W.
Qed.
(** The terminal entries and the counters do not matter. *)
Definition same_orphan_pool (s s' : ChainState) : Prop :=
  same_pool s (s' <| cs_terminal_missing_parents := cs_terminal_missing_parents s |>) /\ orphan_frame s s'.
Lemma same_orphan_pool_ok s s' : same_orphan_pool s s' -> orphans_ok s -> orphans_ok s'.
Proof. intros [Hp _]. by apply (same_pool_terminal _ _ _ Hp). Qed.

(** A pool that stays consistent and does not grow. *)
Definition shrinks (s s' : ChainState) : Prop :=
  orphans_ok s' /\ cs_orphan_blocks s' ⊆ cs_orphan_blocks s /\ orphan_frame s s'.
Lemma shrinks_trans s1 s2 s3 : shrinks s1 s2 -> shrinks s2 s3 -> shrinks s1 s3.
Proof.
  intros (_ & S1 & F1) (O2 & S2 & F2). split; [done|]. split; [by transitivity (cs_orphan_blocks s2)|by eapply orphan_frame_trans].
Qed.
Lemma removed_shrinks s s' g : orphans_removed s s' g -> shrinks s s'.
Proof.
  intros R. split; [apply R|]. split; [|apply R]. apply map_subseteq_spec. intros h b Hb. by apply (or_blocks _ _ _ R) in Hb as [? _].
Qed.
Lemma same_shrinks s s' : orphans_ok s -> same_orphan_pool s s' -> shrinks s s'.
Proof.
  intros Hok Hs. split; [by eapply same_orphan_pool_ok|]. destruct Hs as [(Hb & _) Hf]. cbn in Hb. by rewrite Hb.
Qed.

Lemma waiting_length s p : orphans_ok s ->
  (length (orphan_children_waiting_for_parent s p) <= size (cs_orphan_blocks s))%nat.
Proof.
  intros Hok. unfold orphan_children_waiting_for_parent. destruct (cs_orphan_parent_index s !! p) as [w|] eqn:Hw; [|simpl; lia].
  rewrite length_btree_iter, <- size_dom. apply subseteq_size. intros o Ho. rewrite <- (oo_missing _ Hok). apply elem_of_dom.
  destruct (io_waits _ (oo_index _ Hok) p o) as (l & Hl & _); [unfold waits; by rewrite Hw|by exists l].
Qed.

Section terminal.
Context `{HashOrder}.

Lemma exhaust_shrinks s p peers now evict :
  orphans_ok s -> Z.of_nat (size (cs_orphan_blocks s)) <= u64_max ->
  shrinks s (terminally_exhaust_missing_parent s p peers now evict).2.
Proof.
  intros Hok Hsz. unfold terminally_exhaust_missing_parent. cbv zeta.
  destruct (in_dag s p); [by apply same_shrinks|]. destruct (match _ !! p with Some entry => _ | None => _ end); [by apply same_shrinks|].
  destruct (suppress_terminal_missing_parent_retry s p); [by apply same_shrinks|].
  assert (Hr : exists n s1, (if evict then remove_queued_orphans s (orphan_children_waiting_for_parent s p) else (0, s)) = (n, s1) /\ shrinks s s1).
  { destruct evict; [|exists 0, s; split; [done|by apply same_shrinks]].
    destruct (remove_queued_orphans_spec s (orphan_children_waiting_for_parent s p) Hok) as (n & s1 & -> & R & _).
    { pose proof (waiting_length s p Hok). lia. }
    exists n, s1. split; [done|by eapply removed_shrinks]. }
  destruct Hr as (n & s1 & -> & Hs). cbn [fst snd]. eapply shrinks_trans; [exact Hs|].
  destruct (unindexed_parent_ok s1 p) as [K M R [W N]]; [apply Hs|]. by split; [split|].
Qed.

Lemma terminalize_parent_shrinks now res s p :
  orphans_ok s -> Z.of_nat (size (cs_orphan_blocks s)) <= u64_max ->
  shrinks s (terminalize_parent now (res, s) p).2.
Proof.
  intros Hok Hsz. unfold terminalize_parent. destruct (in_dag s p).
  { cbn [snd]. destruct (unindexed_parent_ok s p Hok) as [K M R [W N]]. by split; [split|]. }
  pose proof (exhaust_shrinks s p ["residual_waiting_ttl"] now true Hok Hsz) as He.
  destruct (terminally_exhaust_missing_parent _ _ _ _ _) as [t s1]. cbn [snd] in He.
  destruct (mt_transitioned t); [|exact He]. cbn [snd]. eapply shrinks_trans; [exact He|]. by apply same_shrinks; [apply He|].
Qed.

Lemma terminalize_fold_shrinks now l res s :
  orphans_ok s -> Z.of_nat (size (cs_orphan_blocks s)) <= u64_max ->
  shrinks s (foldl (terminalize_parent now) (res, s) l).2.
Proof.
  revert res s. induction l as [|p l IH]; intros res s Hok Hsz; cbn [foldl]; [by apply same_shrinks|].
  pose proof (terminalize_parent_shrinks now res s p Hok Hsz) as Hp.
  destruct (terminalize_parent now (res, s) p) as [res1 s1]. cbn [snd] in Hp.
  eapply shrinks_trans; [exact Hp|]. apply IH; [apply Hp|].
  destruct Hp as (_ & Hsub & _). apply map_subseteq_size in Hsub. lia.
Qed.
Lemma terminalize_shrinks s now ttl limit :
  orphans_ok s -> Z.of_nat (size (cs_orphan_blocks s)) <= u64_max ->
  shrinks s (terminalize_residual_waiting_missing_parents s now ttl limit).2.
Proof.
  intros Hok Hsz. unfold terminalize_residual_waiting_missing_parents. destruct (limit =? 0); [by apply same_shrinks|].
  by apply terminalize_fold_shrinks.
Qed.

Lemma guard_parents_shrinks {W} (f : W -> Hash -> result PulseError (option Z) * W) l s w :
  orphans_ok s -> shrinks s (guard_parents f l s w).1.2.
Proof.
  revert s w. induction l as [|p l IH]; intros s w Hok; cbn [guard_parents]; [by apply same_shrinks|].
  destruct (in_dag s p).
  { assert (Hs : shrinks s (s <| cs_orphan_parent_index ::= delete p |> <| cs_terminal_missing_parents ::= delete p |>
      <| cs_accepted_hash_terminalization_prevented_total ::= fun n => saturating_add 64 n 1 |>)).
    { destruct (unindexed_parent_ok s p Hok) as [K M R [Wt N]]. by split; [split|]. }
    eapply shrinks_trans; [exact Hs|]. by apply IH, Hs. }
  destruct (f w p) as [[[h|]|e] w1]; cbn [fst snd]; [by apply same_shrinks|by apply IH|by apply same_shrinks].
Qed.
End terminal.

(** ** Theorems *)

Section theorems.
Context `{HashOrder, Crypto, !CryptoLaws, CarrierJson, Kaspa}.

(** Everything that touches the orphan pool, and accepting blocks. *)
Inductive orphan_op (s : ChainState) : ChainState -> Prop :=
| op_accept env now1 now2 block source r s' :
    accept_block_with_result env now1 now2 block source s = (Some r, s') -> orphan_op s s'
| op_adopt env clock source arrived r s' :
    adopt_ready_orphans_with_result env clock source arrived s = Ok (r, s') -> orphan_op s s'
| op_queue now1 now2 block missing max_count max_age_ms : 0 <= max_count < u64_max ->
    orphan_op s (queue_orphan_block_bounded s now1 now2 block missing max_count max_age_ms).2
| op_prune now max_count max_age_ms : 0 <= max_count -> orphan_op s (prune_orphans s now max_count max_age_ms).2
| op_evict now max_age_ms limit : orphan_op s (evict_stale_orphans_bounded s now max_age_ms limit).2
| op_rebuild : orphan_op s (rebuild_orphan_parent_index s).2
| op_exhaust parent peers now evict : orphan_op s (terminally_exhaust_missing_parent s parent peers now evict).2
| op_mark parent now : orphan_op s (mark_selected_segment_required_parent s parent now)
| op_terminalize now ttl limit : orphan_op s (terminalize_residual_waiting_missing_parents s now ttl limit).2
| op_guarded W (lookup_storage : W -> Hash -> result PulseError (option Z) * W) now ttl limit w :
    orphan_op s (terminalize_residual_waiting_missing_parents_guarded lookup_storage s now ttl limit w).1.2
| op_history keep : orphan_op s (prune_historical_terminal_missing_parents s keep).2.

Record pool_inv (s : ChainState) : Prop := {
  pi_ok : orphans_ok s;
  pi_size : Z.of_nat (size (cs_orphan_blocks s)) < u64_max;
  pi_utxo : index_consistent (cs_utxo s);
}.
Lemma shrinks_inv s s' : pool_inv s -> shrinks s s' -> pool_inv s'.
Proof.
  intros [Ho Hs Hu] (Ho' & Hsub & Hf). apply map_subseteq_size in Hsub. split; [done|lia|]. by rewrite (proj1 (proj2 Hf)).
Qed.

Lemma adopt_result_spec env clock source arrived s :
  pool_inv s ->
  adopt_ready_orphans_with_result env clock source arrived s <> Err OutOfFuel /\
  forall r s', adopt_ready_orphans_with_result env clock source arrived s = Ok (r, s') ->
    adopt_inv s (mkAdoption r [] s') /\
    (arrived = None -> no_terminal s -> no_requeue (mkAdoption r [] s') -> covered [] (mkAdoption r [] s')).
Proof.
  intros [Hok Hsz Hu]. unfold adopt_ready_orphans_with_result. cbv zeta.
  set (cands := match arrived with Some parent => _ | None => _ end).
  set (a0 := mkAdoption (mkOrphanAdoptionResult 0 0 0 [] ∅) cands s).
  assert (Hi : adopt_inv s a0).
  { split; cbn; try done; [|by constructor|by intros h Hh%elem_of_nil]. intros h. rewrite elem_of_nil. tauto. }
  destruct (adopt_loop_spec env clock source s (S (S (size (cs_orphan_blocks s)))) a0) as [Hf Hok'];
    [lia|done|case_bool_decide; cbn; lia|].
  destruct (adopt_loop env clock source _ a0) as [a|e] eqn:Ha; cbn.
  2: { split; [congruence|done]. }
  split; [done|]. intros r s' [= <- <-]. destruct (Hok' a eq_refl) as (I1 & I2 & I3 & I4).
  destruct a as [r c s']. cbn in I2. subst c. split; [done|]. intros -> Ht Hr.
  destruct I4 as [_ Hc]; [done|done| |done]. intros x Hx. right; left. cbn. apply list_elem_of_fmap.
  destruct Hx as [b Hb]. exists (x, b). by rewrite elem_of_map_iter.
Qed.

Lemma orphan_op_inv s s' : pool_inv s -> orphan_op s s' -> pool_inv s'.
Proof.
  intros Hi Hop. pose proof Hi as [Hok Hsz Hu]. destruct Hop.
  - destruct (accept_block_frame _ _ _ _ _ _ _ _ H4 Hu) as (Hu' & Hp & _). split; [by eapply same_pool_ok| |done].
    by rewrite (proj1 Hp).
  - destruct (adopt_result_spec env clock source arrived s Hi) as [_ Ha]. apply Ha in H4 as [Ha' _].
    split; [apply Ha'| |apply Ha']. pose proof (map_subseteq_size _ _ (ai_pool _ _ Ha')) as Hs. cbn in Hs. lia.
  - destruct (cs_orphan_blocks s !! b_hash block) as [b|] eqn:Hb.
    { unfold queue_orphan_block_bounded. cbv zeta. by rewrite bool_decide_eq_true_2 by (by exists b). }
    destruct (queue_spec s now1 now2 block missing max_count max_age_ms Hok Hb) as (r & s' & -> & Hq); [lia|lia|].
    split; [apply Hq|pose proof (qk_bound _ _ _ _ _ _ _ _ _ Hq); cbn; lia|].
    cbn. by rewrite (proj1 (proj2 (qk_frame _ _ _ _ _ _ _ _ _ Hq))).
  - destruct (prune_orphans_spec s now max_count max_age_ms Hok) as (n & s' & gone & -> & Hp); [done|lia|].
    eapply shrinks_inv; [done|]. eapply removed_shrinks, Hp.
  - unfold evict_stale_orphans_bounded. destruct (limit =? 0); [done|].
    destruct (remove_queued_orphans_spec s (map fst (take (Z.to_nat limit) (oldest_first (stale_orphans s now max_age_ms)))) Hok)
      as (n & s' & -> & R & _); [|eapply shrinks_inv; [done|]; by eapply removed_shrinks].
    rewrite length_map, length_take. unfold oldest_first. rewrite isort_perm.
    pose proof (stale_length s now max_age_ms). pose proof (received_size s Hok). lia.
  - destruct (rebuild_orphan_spec s (oo_keyed _ Hok) (oo_received _ Hok)) as (c & s' & -> & Hr); [lia|].
    split; [apply Hr|cbn; by rewrite (rb_blocks _ _ _ Hr)|cbn; by rewrite (proj1 (proj2 (rb_frame _ _ _ Hr)))].
  - eapply shrinks_inv; [done|]. apply exhaust_shrinks; [done|lia].
  - eapply shrinks_inv; [done|]. by apply same_shrinks.
  - eapply shrinks_inv; [done|]. apply terminalize_shrinks; [done|lia].
  - unfold terminalize_residual_waiting_missing_parents_guarded.
    pose proof (guard_parents_shrinks lookup_storage (map fst (map_iter (cs_orphan_parent_index s))) s w Hok) as Hg.
    destruct (guard_parents _ _ _ _) as [[[[]|e] s1] w1]; cbn [fst snd] in Hg; [|by eapply shrinks_inv].
    pose proof (shrinks_inv _ _ Hi Hg) as [Ho1 Hs1 _].
    pose proof (terminalize_shrinks s1 now ttl limit Ho1 ltac:(lia)) as Ht.
    destruct (terminalize_residual_waiting_missing_parents _ _ _ _) as [res s2]. cbn [fst snd] in *.
    eapply shrinks_inv; [exact Hi|]. by eapply shrinks_trans.
  - eapply shrinks_inv; [done|]. unfold prune_historical_terminal_missing_parents. cbv zeta.
    destruct (_ <=? keep); by apply same_shrinks.
Qed.

Lemma init_pool_inv chain_id s : init_chain_state chain_id = Ok s -> pool_inv s.
Proof.
  intros Hs. pose proof (init_index _ _ Hs) as Hu. unfold init_chain_state in Hs.
  destruct genesis_block as [g|]; [|done]. cbn in Hs. destruct (expect _) as [tx|]; [|done]. cbn in Hs. injection Hs as <-.
  split; [|cbn; rewrite map_size_empty; done|done].
  by split.
Qed.


(** A new orphan is queued with every missing parent indexed and no longer
    treated as terminal; the pool then holds at most [max_count] orphans and
    none older than [max_age_ms]; only too old orphans and, when the pool was
    full, the oldest ones leave it; nothing else of the chain state changes. *)
Lemma queue_orphan_bounded s now1 now2 block missing max_count max_age_ms :
  orphans_ok s -> cs_orphan_blocks s !! b_hash block = None -> 0 <= max_count ->
  Z.of_nat (size (cs_orphan_blocks s)) < u64_max ->
  exists r s', queue_orphan_block_bounded s now1 now2 block missing max_count max_age_ms = (r, s') /\
    queue_ok s s' r now1 now2 block missing max_count max_age_ms.
Proof. apply queue_spec. Qed.

(** The search for the roots of an orphan terminates and returns exactly
    the hashes that are neither stored nor queued and that the orphan depends
    on through queued blocks only. *)
Lemma orphan_roots_exact s h b :
  cs_orphan_blocks s !! h = Some b ->
  exists roots, orphan_missing_roots s h = Some roots /\ NoDup roots /\
    forall r, r ∈ roots <-> rtc (blocked_on s) h r /\ unknown s r.
Proof. apply orphan_missing_roots_spec. Qed.

(** Whatever the indexes held, a rebuild makes them exact: an orphan waits
    for exactly its missing parents that are not terminal.  The returned counts
    add up to the pool, the ready orphans are counted exactly, and no entry is
    stale or unindexed when no missing parent is terminal. *)
Lemma rebuild_orphan_index_exact s :
  map_Forall (fun h b => b_hash b = h) (cs_orphan_blocks s) ->
  dom (cs_orphan_received_at_ms s) = dom (cs_orphan_blocks s) ->
  Z.of_nat (size (cs_orphan_blocks s)) <= u64_max ->
  exists c s', rebuild_orphan_parent_index s = (c, s') /\ rebuilt_ok s s' c.
Proof. apply rebuild_orphan_spec. Qed.

(** C12: the adoption loop terminates.  The blocks it reports were queued, are
    now stored and are no longer queued, each once, and nothing else was added
    to the DAG or to the pool.  When the whole pool is retried, no parent is
    terminal and no block was put back, every orphan left waits for a parent
    that is not stored, and is indexed under it. *)
Theorem adopt_ready_orphans_complete env clock source arrived s :
  orphans_ok s -> Z.of_nat (size (cs_orphan_blocks s)) < u64_max -> index_consistent (cs_utxo s) ->
  adopt_ready_orphans_with_result env clock source arrived s <> Err OutOfFuel /\
  forall r s', adopt_ready_orphans_with_result env clock source arrived s = Ok (r, s') ->
    orphans_ok s' /\ cs_orphan_blocks s' ⊆ cs_orphan_blocks s /\
    NoDup (oa_accepted_hashes r) /\ oa_accepted r = Z.of_nat (length (oa_accepted_hashes r)) /\
    (forall h, in_dag s' h = true <-> in_dag s h = true \/ h ∈ oa_accepted_hashes r) /\
    (forall h, h ∈ oa_accepted_hashes r ->
       is_Some (cs_orphan_blocks s !! h) /\ cs_orphan_blocks s' !! h = None /\ in_dag s h = false) /\
    (arrived = None -> (forall p, suppress_terminal_missing_parent_retry s p = false) ->
     oa_failure_reasons r !! "missing_parent" = None ->
     forall h b, cs_orphan_blocks s' !! h = Some b ->
       exists p, p ∈ h_parents (b_header b) /\ in_dag s' p = false /\ waits s' p h).
Proof.
  intros Hok Hsz Hu. destruct (adopt_result_spec env clock source arrived s) as [Hf Ha]; [done|].
  split; [exact Hf|]. intros r s' Hr. destruct (Ha r s' Hr) as [[I1 I2 I3 I4 I5 I6 I7] Hc]. cbn in *.
  split_and!; try done. intros Har Ht Hq h b Hb. destruct (Hc Har Ht Hq h) as [?%elem_of_nil|[?%elem_of_nil|Hi]]; [by eexists|done..|].
  destruct Hi as [(p & Hp) Hall]. exists p. pose proof Hp as (b' & Hb' & Hin & Hd). cbn in *.
  assert (b' = b) as -> by congruence. split_and!; [done..|by apply Hall].
Qed.
End theorems.

(** ** Witnesses *)

(** The initial state with the first block queued, and one with a block that
    misses a parent. *)
Definition waiting_block : Block :=
  first_block <| b_hash := "bb" |> <| b_header ::= fun h => h <| h_parents := ["aa"] |> |>.
Definition queued_state : ChainState := enqueue_orphan genesis_state 5 first_block [].
Definition two_orphans : ChainState := enqueue_orphan queued_state 7 waiting_block ["aa"].
Definition model_clock : AdoptClock := mkAdoptClock (fun _ => 200) (fun _ => 200) (fun _ => 9) (fun _ => 9).

Lemma genesis_pool_ok : orphans_ok genesis_state.
Proof. apply (@init_pool_inv list_order model_crypto "main" _ genesis_state_init). Qed.
Lemma two_orphans_ok : orphans_ok two_orphans.
Proof. apply enqueue_orphan_spec, enqueue_orphan_spec, genesis_pool_ok. Qed.


Lemma queue_orphan_bounded_witness :
  exists r s', @queue_orphan_block_bounded list_order queued_state 7 8 waiting_block ["aa"] 512 1000 = (r, s') /\
    queue_ok queued_state s' r 7 8 waiting_block ["aa"] 512 1000.
Proof.
  apply (@queue_orphan_bounded list_order queued_state 7 8 waiting_block ["aa"] 512 1000).
  - apply enqueue_orphan_spec, genesis_pool_ok.
  - by_compute.
  - lia.
  - by_decide.
Defined.

Lemma orphan_roots_exact_witness :
  exists roots, orphan_missing_roots two_orphans "bb" = Some roots /\ NoDup roots.
Proof.
  destruct (orphan_roots_exact two_orphans "bb" waiting_block) as (roots & Hr & Hnd & _).
  - by_compute.
  - exists roots. split; [exact Hr|exact Hnd].
Defined.

Lemma rebuild_orphan_index_exact_witness :
  exists c s', @rebuild_orphan_parent_index list_order two_orphans = (c, s') /\ rebuilt_ok two_orphans s' c.
Proof.
  apply (@rebuild_orphan_index_exact list_order two_orphans).
  - apply two_orphans_ok.
  - apply two_orphans_ok.
  - by_decide.
Defined.

Lemma adopt_ready_orphans_complete_witness :
  exists r s', @adopt_ready_orphans_with_result list_order model_crypto model_carrier model_kaspa no_env model_clock Rpc
      None two_orphans = Ok (r, s') /\
    oa_accepted_hashes r = [b_hash first_block] /\ in_dag s' (b_hash first_block) = true.
Proof.
  destruct (@adopt_ready_orphans_complete list_order model_crypto model_crypto_laws model_carrier model_kaspa no_env
    model_clock Rpc None two_orphans) as [_ Ha].
  - apply two_orphans_ok.
  - by_decide.
  - exact (@init_index model_crypto list_order "main" _ genesis_state_init).
  - assert (Hr : (fun r => oa_accepted_hashes r.1) <$> result_ok (@adopt_ready_orphans_with_result list_order model_crypto
      model_carrier model_kaspa no_env model_clock Rpc None two_orphans) = Some [b_hash first_block]) by by_compute.
    destruct (adopt_ready_orphans_with_result no_env model_clock Rpc None two_orphans) as [[r s']|e]; [|discriminate Hr].
    injection Hr as Hr. exists r, s'. split; [reflexivity|]. split; [exact Hr|].
    destruct (Ha r s' eq_refl) as (_ & _ & _ & _ & Hd & _). apply Hd. right. rewrite Hr. apply list_elem_of_here.
Defined.
