(* ===== verification/AcceptProps.v ===== *)
(** * Atomic acceptance ([accept.rs])

    A block is persisted exactly as it is published, before it is published; a
    failure before that leaves the ledger alone; the generation check never
    fails while the state is exclusively borrowed. *)

From S2P Require Import Prelude Encoding Crypto Types Merkle State Tx TxV3 Graph Pow.
From S2P Require Import Selection Retarget Ghostdag Ordering Mining Genesis Apply ApplyProps.
From S2P Require Import Validation ValidationProps DagInvariant Mempool MempoolProps Commit CommitProps.
From S2P Require Import MempoolV3 MempoolResource MempoolResourceProps Accept Orphans OrphansProps AdoptionProps.

(** Two states that differ in the mutation bookkeeping only. *)
Definition same_ledger (s s' : ChainState) : Prop :=
  orphan_frame s s' /\ same_pool s s' /\ cs_contracts s' = cs_contracts s.
(** Bookkeeping a failed attempt may change. *)
Definition attempted (s s' : ChainState) : Prop :=
  same_ledger s s' /\ cs_chain_state_generation s' = cs_chain_state_generation s /\
  cs_accepted_commit_last_hash s' = cs_accepted_commit_last_hash s.

Lemma stamp_ledger state working generation source last_hash last_source :
  same_ledger working (stamp state working generation source last_hash last_source).
Proof. done. Qed.

Section mutate.
Context {W T : Type}.
Variable prepare : W -> ChainState -> outcome (ChainState * T) * W.
Variable persist : W -> ChainState -> result PulseError unit * W.

(** What a serialized mutation does. *)
Inductive mutation (source : string) (s : ChainState) (w : W)
  : outcome (ChainStateMutationOutcome T) -> ChainState -> W -> Prop :=
| mutation_prepare_failed e w' : prepare w s = (Err e, w') -> mutation source s w (Err e) s w'
| mutation_poisoned working t w' : prepare w s = (Ok (working, t), w') ->
    mutation source s w (fails (Internal "chain state mutation coordinator poisoned")) s w'
| mutation_not_persisted working t w1 published e w' : prepare w s = (Ok (working, t), w1) ->
    same_ledger working published -> persist w1 published = (Err e, w') -> mutation source s w (Err (Some e)) s w'
| mutation_published working t w1 s' w' : prepare w s = (Ok (working, t), w1) ->
    same_ledger working s' -> persist w1 s' = (Ok tt, w') ->
    cs_chain_state_generation s' = saturating_add 64 (cs_chain_state_generation s) 1 ->
    cs_chain_state_mutation_source s' = Some source ->
    mutation source s w (Ok (mkChainStateMutationOutcome t (cs_chain_state_generation s'))) s' w'.

Lemma mutate_spec poisoned source s w :
  exists r s' w', mutate_chain_state_serialized prepare persist poisoned source s w = Some (r, s', w') /\
    mutation source s w r s' w'.
Proof.
  unfold mutate_chain_state_serialized. cbv zeta.
  destruct (prepare w s) as [[[working t]|e] w1] eqn:Hp; [|do 3 eexists; split; [reflexivity|by apply mutation_prepare_failed]].
  destruct poisoned; [do 3 eexists; split; [reflexivity|by eapply mutation_poisoned]|].
  cbn [mutate_loop]. rewrite Z.eqb_refl. cbn [negb].
  match goal with |- context [persist w1 ?p] => set (published := p) end.
  destruct (persist w1 published) as [[[]|e] w2] eqn:Hs; do 3 eexists; (split; [reflexivity|]).
  - change (saturating_add 64 (cs_chain_state_generation s) 1) with (cs_chain_state_generation published).
    by apply (mutation_published _ _ _ working t w1).
  - by apply (mutation_not_persisted _ _ _ working t w1 published).
Qed.
End mutate.

Section atomic.
Context `{HashOrder, Crypto, !CryptoLaws, CarrierJson, Kaspa}.
Context {W : Type}.
Variable persist : W -> Block -> ChainState -> result PulseError unit * W.
Variable broadcast : W -> Block -> result PulseError unit * W.

(** What an atomic acceptance does. *)
Inductive acceptance (env : string -> option string) (now : Z) (block : Block) (source : AcceptSource)
  (s : ChainState) (w : W) : outcome AtomicBlockAcceptance -> ChainState -> W -> Prop :=
| acceptance_panic : acceptance env now block source s w (Err None) s w
| acceptance_rejected r : r <> Accepted -> acceptance env now block source s w (Ok (rejected_acceptance r)) s w
| acceptance_poisoned :
    acceptance env now block source s w (fails (Internal "accepted state commit coordinator poisoned")) s w
| acceptance_not_persisted working published s' e w' :
    prepare_block_state env now block s = Ok working -> same_ledger working published ->
    persist w block published = (Err e, w') -> attempted s s' -> acceptance env now block source s w (Err (Some e)) s' w'
| acceptance_published working s' w1 w' r :
    (exists pow, pow_validation_result (b_header block) = Some pow /\ pv_accepted pow = true) ->
    prepare_block_state env now block s = Ok working -> same_ledger working s' ->
    persist w block s' = (Ok tt, w1) -> broadcast w1 block = (r, w') ->
    cs_chain_state_generation s' = saturating_add 64 (cs_chain_state_generation s) 1 ->
    cs_accepted_commit_last_hash s' = Some (b_hash block) ->
    cs_accepted_commit_last_source s' = Some (AcceptSource_as_str source) ->
    acceptance env now block source s w
      (match r with Ok _ => Ok (mkAtomicBlockAcceptance Accepted true true true) | Err e => Err (Some e) end) s' w'.

Lemma accept_atomic_spec env now poisoned block source s w :
  exists r s' w', accept_block_atomically persist broadcast env now poisoned block source s w = Some (r, s', w') /\
    acceptance env (now 0%nat) block source s w r s' w'.
Proof.
  unfold accept_block_atomically. cbv zeta.
  destruct (pow_validation_result (b_header block)) as [pow|] eqn:Hpow; [|do 3 eexists; split; [reflexivity|constructor]].
  destruct (enforce_pow source && negb (pv_accepted pow)) eqn:Hacc; [do 3 eexists; split; [reflexivity|by constructor]|].
  destruct (prepare_block_state env (now 0%nat) block s) as [working|[err|]] eqn:Hp.
  2: { do 3 eexists. split; [reflexivity|]. constructor. apply classify_not_accepted. }
  2: { do 3 eexists. split; [reflexivity|constructor]. }
  destruct poisoned; [do 3 eexists; split; [reflexivity|constructor]|].
  cbn [accept_loop]. match goal with |- context [negb ?b] => replace b with true by (symmetry; exact (Z.eqb_refl _)) end.
  cbn [negb]. match goal with |- context [persist w block ?p] => set (published := p) end.
  destruct (persist w block published) as [[[]|e] w1] eqn:Hs.
  - assert (Hm : publish_mismatch block (saturating_add 64 (cs_chain_state_generation s) 1) published = false).
    { unfold publish_mismatch, published. cbn. by rewrite bool_decide_eq_true_2, Z.eqb_refl. }
    rewrite Hm. assert (Hok : pv_accepted pow = true).
    { destruct source; cbn in Hacc; by destruct (pv_accepted pow). }
    destruct (broadcast w1 block) as [[[]|e] w2] eqn:Hbr; do 3 eexists; (split; [reflexivity|]).
    + refine (acceptance_published _ _ _ _ _ _ working published w1 w2 (Ok tt) _ Hp _ Hs Hbr _ _ _); [by exists pow|done..].
    + refine (acceptance_published _ _ _ _ _ _ working published w1 w2 (Err e) _ Hp _ Hs Hbr _ _ _); [by exists pow|done..].
  - do 3 eexists. split; [reflexivity|]. by apply (acceptance_not_persisted _ _ _ _ _ _ working published).
Qed.
End atomic.

(** ** Theorems *)

(** C10: an atomic acceptance always finishes, without preparing the block a
    second time.  It either leaves the chain state and the storage alone, or the
    storage refused the prepared state and only bookkeeping changed, or the
    state it publishes is, byte for byte, the one the storage accepted: the
    prepared state with the next generation and this block as the last one.
    Only then is the block broadcast; a failing broadcast does not undo the
    publication.  A committed block is stored and the orphan pool untouched. *)
Theorem accept_block_atomic `{HashOrder, Crypto, !CryptoLaws, CarrierJson, Kaspa} {W}
  (persist : W -> Block -> ChainState -> result PulseError unit * W)
  (broadcast : W -> Block -> result PulseError unit * W) env now poisoned block source s w :
  index_consistent (cs_utxo s) ->
  exists r s' w', accept_block_atomically persist broadcast env now poisoned block source s w = Some (r, s', w') /\
    acceptance persist broadcast env (now 0%nat) block source s w r s' w' /\
    (forall acc, r = Ok acc ->
       if aba_committed acc then aba_result acc = Accepted /\ same_pool s s' /\
         d_blocks (cs_dag s') = <[b_hash block := accepted_header block s]> (d_blocks (cs_dag s))
       else aba_result acc <> Accepted /\ s' = s /\ w' = w).
Proof.
  intros Hi. destruct (accept_atomic_spec persist broadcast env now poisoned block source s w) as (r & s' & w' & Ha & Hc).
  exists r, s', w'. split; [done|]. split; [done|]. intros acc ->.
  inversion Hc as [|r Hr| | |working s2 w1 w2 r Hpow Hp Hl Hs Hb]; subst; [by cbn|].
  destruct r as [[]|]; [|done]. match goal with E : Ok _ = Ok acc |- _ => injection E as <- end. cbn. split; [done|].
  assert (Hap : apply_block env (now 0%nat) block s = (Ok tt, working)) by (unfold apply_block; by rewrite Hp).
  destruct (apply_block_Ok _ _ _ _ _ Hap Hi) as (_ & Hsp & Hd). destruct Hl as ((Hdag & _) & Hp' & _).
  split; [by eapply same_pool_trans|]. by rewrite Hdag.
Qed.

(** ** Witnesses *)

(** A storage that counts its writes, and a network that always succeeds. *)
Definition model_persist (w : nat) (_ : Block) (_ : ChainState) : result PulseError unit * nat := (Ok tt, S w).
Definition model_broadcast (w : nat) (_ : Block) : result PulseError unit * nat := (Ok tt, w).

Lemma accept_block_atomic_witness :
  exists r s' w', @accept_block_atomically list_order model_crypto model_carrier model_kaspa nat model_persist
      model_broadcast no_env (fun _ => 200) false first_block Rpc genesis_state 0%nat = Some (r, s', w') /\
    @acceptance list_order model_crypto model_carrier model_kaspa nat model_persist model_broadcast no_env 200
      first_block Rpc genesis_state 0%nat r s' w'.
Proof.
  destruct (@accept_block_atomic list_order model_crypto model_crypto_laws model_carrier model_kaspa nat model_persist
    model_broadcast no_env (fun _ => 200) false first_block Rpc genesis_state 0%nat) as (r & s' & w' & Ha & Hc & _).
  - exact (@init_index model_crypto list_order "main" _ genesis_state_init).
  - exists r, s', w'. split; [exact Ha|exact Hc].
Defined.

(** ** A block with a text for its hash *)

Lemma contains_from_spec needle l : contains_from needle l = true <-> exists pre post, l = pre ++ needle ++ post.
Proof.
  revert l. induction l as [|c l IH]; cbn [contains_from]; case_bool_decide as Ht.
  - split; [|done]. intros _. exists [], []. rewrite <- Ht, take_nil. done.
  - split; [done|]. intros (pre & post & E). symmetry in E.
    apply app_eq_nil in E as [_ [-> _]%app_eq_nil]. by destruct Ht.
  - split; [|done]. intros _. exists [], (drop (length needle) (c :: l)). rewrite <- Ht at 1. symmetry. apply take_drop.
  - rewrite IH. split.
    + intros (pre & post & ->). by exists (c :: pre), post.
    + intros ([|c' pre] & post & E).
      * destruct Ht. cbn in E. rewrite E. by rewrite take_app_length.
      * injection E as -> ->. by exists pre, post.
Qed.
Lemma contains_str_app a s b needle : contains_str s needle = true -> contains_str (a +:+ s +:+ b) needle = true.
Proof.
  unfold contains_str. rewrite !contains_from_spec, !str_bytes_append. intros (pre & post & ->).
  exists (str_bytes a ++ pre), (post ++ str_bytes b). by rewrite <- !app_assoc.
Qed.

(** A valid block under another name is refused for its hash, with both names in
    the message. *)
Definition mismatch_message (supplied computed : Hash) : string :=
  "block hash mismatch: supplied " +:+ supplied +:+ ", computed " +:+ computed.
Lemma validate_redeclared `{HashOrder, Crypto, Kaspa} env now block x s :
  validate_block env now block s = Ok tt -> d_blocks (cs_dag s) !! x = None -> x <> b_hash block ->
  validate_block env now (block <| b_hash := x |>) s = fails (InvalidBlock (mismatch_message x (b_hash block))).
Proof.
  destruct block as [hash header txs]. cbn [b_hash]. intros Hv Hx Hne.
  change ((mkBlock hash header txs) <| b_hash := x |>) with (mkBlock x header txs).
  unfold validate_block in *. cbn [b_hash b_header b_transactions] in *. cbv zeta in *.
  rewrite bool_decide_eq_false_2 by (rewrite Hx; by intros [? ?]).
  apply guard_Ok in Hv as [_ Hv]. do 3 (apply guard_Ok in Hv as [-> Hv]).
  apply lift_bind_Ok in Hv as ([[seen height] newest] & -> & Hv). cbn [lift map_err].
  apply guard_Ok in Hv as [-> Hv].
  apply lift_bind_Ok in Hv as (sp & Hsp & Hv). apply ok_or_Ok in Hsp.
  change (selected_parent_for_state_validation (mkBlock x header txs) s)
    with (selected_parent_for_state_validation (mkBlock hash header txs) s). rewrite Hsp. cbn [ok_or lift map_err].
  apply expect_bind_Ok in Hv as (expd & -> & Hv). cbn [expect ok_or].
  apply lift_bind_Ok in Hv as (bits & ->%ok_or_Ok & Hv). cbn [ok_or lift map_err].
  apply guard_Ok in Hv as [-> Hv]. apply expect_bind_Ok in Hv as (pow & -> & Hv). cbn [expect ok_or].
  apply lift_bind_Ok in Hv as ([] & -> & Hv). cbn [lift map_err]. apply guard_Ok in Hv as [-> Hv].
  change (validate_coinbase_position (mkBlock x header txs)) with (validate_coinbase_position (mkBlock hash header txs)).
  apply lift_bind_Ok in Hv as ([] & -> & Hv). cbn [lift map_err].
  apply expect_bind_Ok in Hv as (h & -> & Hv). cbn [expect ok_or].
  apply guard_Ok in Hv as [Hh _]. bool_props. subst h. by rewrite bool_decide_eq_false_2 by congruence.
Qed.
Lemma valid_block_facts `{HashOrder, Crypto, !CryptoLaws, Kaspa} env now block s :
  validate_block env now block s = Ok tt ->
  missing_block_parents block s = [] /\
  exists pow, pow_validation_result (b_header block) = Some pow /\ pv_accepted pow = true.
Proof.
  intros Hv%validate_block_Ok. split.
  - unfold missing_block_parents. apply elem_of_nil_inv. intros p.
    unfold sorted_set. rewrite elem_of_btree_iter, elem_of_list_to_set. intros Hp.
    apply list_elem_of_filter in Hp as [Hd Hp]. pose proof (ba_parents_older _ _ _ _ Hv) as Hall.
    rewrite Forall_forall in Hall. destruct (Hall p Hp) as (b & Hb & _). unfold in_dag in Hd. by rewrite Hb in Hd.
  - destruct (validate_pow_header_cases (b_header block)) as (r & Hr & Hm).
    rewrite (proj2 Hm (ba_pow _ _ _ _ Hv)) in Hr. unfold validate_pow_header in Hr.
    destruct (pow_validation_result (b_header block)) as [pow|]; [|done]. exists pow. split; [done|].
    by destruct (pv_accepted pow).
Qed.

(** C38: take any block that validates and declare another, unused hash for it.
    All its parents are stored and its work is valid, and it is refused for its
    hash with the state unchanged; but how the refusal is reported depends on the
    text of the declared hash, which the message quotes and the classification
    searches: a text with the words "missing parent" (and no words of the work
    classification in the message) makes it [MissingParent], and only a text
    without such words [Malformed]. *)
Theorem missing_parent_by_text `{HashOrder, Crypto, !CryptoLaws, CarrierJson, Kaspa} env now1 now2 block x source s :
  validate_block env now1 block s = Ok tt -> d_blocks (cs_dag s) !! x = None -> x <> b_hash block ->
  let redeclared := block <| b_hash := x |> in
  let message := mismatch_message x (b_hash block) in
  missing_block_parents redeclared s = [] /\
  accept_block_with_result env now1 now2 redeclared source s =
    (Some (classify_block_validation_error (InvalidBlock message)), s) /\
  (contains_str message "consensus difficulty" = false -> contains_str message "proof of work" = false ->
   (contains_str x "missing parent" = true ->
    accept_block_with_result env now1 now2 redeclared source s = (Some MissingParent, s)) /\
   (contains_str message "missing parent" = false ->
    accept_block_with_result env now1 now2 redeclared source s = (Some Malformed, s))).
Proof.
  intros Hv Hx Hne redeclared message. destruct (valid_block_facts _ _ _ _ Hv) as [Hm (pow & Hpow & Hacc)].
  assert (Ha : accept_block_with_result env now1 now2 redeclared source s =
    (Some (classify_block_validation_error (InvalidBlock message)), s)).
  { unfold accept_block_with_result. change (b_header redeclared) with (b_header block). rewrite Hpow, Hacc.
    rewrite andb_false_r. unfold redeclared. by rewrite (validate_redeclared _ _ _ _ _ Hv Hx Hne). }
  split; [exact Hm|]. split; [exact Ha|]. rewrite Ha. cbn [classify_block_validation_error].
  intros -> ->. cbn [orb]. split; [|by intros ->]. intros Hc.
  unfold message, mismatch_message. by rewrite contains_str_app.
Qed.
(** The first block under the name "missing parent", and under "00". *)
Lemma missing_parent_by_text_witness :
  (@accept_block_with_result list_order model_crypto model_carrier model_kaspa no_env 200 200
     (first_block <| b_hash := "missing parent" |>) P2p genesis_state).1 = Some MissingParent /\
  (@accept_block_with_result list_order model_crypto model_carrier model_kaspa no_env 200 200
     (first_block <| b_hash := "00" |>) P2p genesis_state).1 = Some Malformed.
Proof.
  split.
  - destruct (@missing_parent_by_text list_order model_crypto model_crypto_laws model_carrier model_kaspa no_env 200 200
      first_block "missing parent" P2p genesis_state first_block_valid) as (_ & _ & Hc); [by_compute|by_decide|].
    rewrite (proj1 (Hc ltac:(by_compute) ltac:(by_compute))); by_compute.
  - destruct (@missing_parent_by_text list_order model_crypto model_crypto_laws model_carrier model_kaspa no_env 200 200
      first_block "00" P2p genesis_state first_block_valid) as (_ & _ & Hc); [by_compute|by_decide|].
    rewrite (proj2 (Hc ltac:(by_compute) ltac:(by_compute))); by_compute.
Defined.
