(* ===== verification/GenesisV3.v ===== *)
(** * Version-3 block envelopes and genesis ([block_envelope_v3.rs], [genesis_v3.rs])

    The stateless checks of a version-3 block, the zero-allocation genesis of both
    header formats and the initial state.  [debug_assert!] is not modelled. *)

From stdpp Require Import pretty.
From S2P Require Import Prelude Encoding Crypto Types Merkle State Tx Retarget Ghostdag Genesis.
From S2P Require Import Monetary OrderingV2 Reward Headers.

(** ** Envelopes *)

Record BlockEnvelopeV3 := mkBlockEnvelopeV3 {
  be_chain_id : string;
  be_hash : Hash;
  be_header : BlockHeaderV3;
  be_transactions : list Transaction;
}.

Section envelope.
Context `{HashOrder, Crypto}.

(** One transaction: version, id, and no repetition among [seen_txids]. *)
Definition check_envelope_tx (expected_chain_id : string) (seen_txids : gset Hash) (tx : Transaction)
  : outcome (gset Hash) :=
  if negb (tx_version tx =? TRANSACTION_VERSION_V2) then
    fails (InvalidBlock ("v3 envelope requires transaction protocol v2, got " +:+ pretty (tx_version tx)))
  else
  let? txid := compute_txid_v2 tx expected_chain_id in
  if negb (bool_decide (tx_txid tx = txid)) then
    fails (InvalidBlock "v3 envelope transaction has invalid chain-bound v2 txid")
  else if bool_decide (tx_txid tx ∈ seen_txids) then
    fails (InvalidBlock "v3 envelope contains duplicate transaction IDs")
  else Ok ({[tx_txid tx]} ∪ seen_txids).
Definition validate_block_envelope_v3 (candidate : BlockEnvelopeV3) (expected_chain_id : string)
  : outcome unit :=
  if negb (bool_decide (be_chain_id candidate = expected_chain_id)) then fails ChainIdMismatch else
  let? expected_hash := lift (compute_block_hash_v3 (be_header candidate) expected_chain_id) in
  if negb (bool_decide (be_hash candidate = expected_hash)) then
    fails (InvalidBlock "v3 envelope hash does not match chain-bound v3 header")
  else if (h3_height (be_header candidate) =? 0) && negb (bool_decide (be_transactions candidate = [])) then
    fails (InvalidBlock "v3 zero-allocation genesis cannot contain transactions")
  else
  check try_fold (check_envelope_tx expected_chain_id) ∅ (be_transactions candidate) in
  let? root := expect (compute_merkle_root (be_transactions candidate)) in
  if negb (bool_decide (h3_merkle_root (be_header candidate) = root)) then
    fails (InvalidBlock "v3 envelope transaction Merkle root mismatch")
  else Ok tt.

(** The message of a rejected claim is kept as the error it prints. *)
Inductive body_error := BodyPulse (e : PulseError) | BodyClaim (e : RewardSettlementV3Error).
Definition validate_dormant_native_v3_monetary_body_preflight (candidate : BlockEnvelopeV3)
  (expected_chain_id : string) : result (option body_error) unit :=
  check map_err (option_map BodyPulse) (validate_block_envelope_v3 candidate expected_chain_id) in
  if h3_height (be_header candidate) =? 0 then Ok tt else
  let? claim := ok_or (head (be_transactions candidate))
                  (Some (BodyPulse (InvalidBlock "native-v3 monetary block lacks its reward claim"))) in
  check map_err (option_map BodyClaim) (validate_reward_claim_transaction_v3 claim expected_chain_id) in
  match list_find (fun tx => tx_inputs tx = []) (drop 1 (be_transactions candidate)) with
  | Some (_, hidden) =>
      Err (Some (BodyPulse (InvalidBlock ("native-v3 block has additional inputless transaction "
        +:+ tx_txid hidden))))
  | None => Ok tt
  end.

Definition build_block_envelope_v3 (chain_id : string) (header : BlockHeaderV3)
  (transactions : list Transaction) : outcome BlockEnvelopeV3 :=
  let? hash := lift (compute_block_hash_v3 header chain_id) in
  let candidate := mkBlockEnvelopeV3 chain_id hash header transactions in
  check validate_block_envelope_v3 candidate chain_id in
  Ok candidate.

(** ** Genesis *)

Definition genesis_block_v3 (chain_id : string) (frozen_timestamp : Z) : outcome Block :=
  if bool_decide (chain_id = "") then fails ChainIdMismatch else
  if frozen_timestamp =? 0 then
    fails (InvalidBlock "v3 genesis timestamp must be explicitly frozen and non-zero") else
  let? state_root := compute_state_root UtxoState_default in
  let? merkle_root := expect (compute_merkle_root []) in
  let header := mkBlockHeader BLOCK_HEADER_VERSION_V2 [] frozen_timestamp CONSENSUS_POW_LIMIT_BITS 0
                  merkle_root state_root 0 0 in
  let? hash := compute_block_hash_v2 header chain_id in
  Ok (mkBlock hash header []).
Definition dormant_native_genesis_envelope_v3_ns (chain_id : string) (frozen_timestamp_ns : Z)
  : outcome BlockEnvelopeV3 :=
  if negb (GENESIS_ISSUANCE_ATOMS =? 0) then
    fails (InvalidBlock "native v3 genesis must never allocate spendable issuance") else
  if frozen_timestamp_ns =? 0 then
    fails (InvalidBlock "native v3 genesis requires a frozen nonzero nanosecond timestamp") else
  let? state_root := compute_state_root UtxoState_default in
  let? merkle_root := expect (compute_merkle_root []) in
  build_block_envelope_v3 chain_id
    (mkBlockHeaderV3 BLOCK_HEADER_VERSION_V3 [] frozen_timestamp_ns CONSENSUS_POW_LIMIT_BITS 0
       merkle_root state_root 0 0) [].
Definition verify_dormant_native_genesis_freeze_v3_ns (restored : BlockEnvelopeV3)
  (frozen_chain_id : string) (frozen_timestamp_ns : Z) (frozen_genesis_hash : Hash) : outcome unit :=
  let? canonical := dormant_native_genesis_envelope_v3_ns frozen_chain_id frozen_timestamp_ns in
  if negb (bool_decide (be_hash canonical = frozen_genesis_hash)) then
    fails (InvalidBlock "frozen native v3 genesis hash does not match independently derived identity") else
  check validate_block_envelope_v3 restored frozen_chain_id in
  if negb (bool_decide (be_hash restored = frozen_genesis_hash))
     || negb (bool_decide (be_header restored = be_header canonical))
     || negb (bool_decide (be_transactions restored = [])) then
    fails (InvalidBlock "restored native v3 genesis differs from frozen network identity")
  else Ok tt.

Definition init_chain_state_v3 (chain_id : string) (frozen_timestamp : Z) : outcome ChainState :=
  let? genesis := genesis_block_v3 chain_id frozen_timestamp in
  let? state_root := compute_state_root UtxoState_default in
  let genesis_hash := b_hash genesis in
  let? state := init_chain_state chain_id in
  Ok (state
    <| cs_dag ::= fun dag => dag
       <| d_blocks := {[ genesis_hash := genesis ]} |>
       <| d_tips := {[ genesis_hash ]} |>
       <| d_children := ∅ |>
       <| d_genesis_hash := genesis_hash |>
       <| d_best_height := 0 |>
       <| d_consensus_mode := Legacy |>
       <| d_selected_parents := {[ genesis_hash := None ]} |>
       <| d_selected_chain := [genesis_hash] |>
       <| d_selected_parent_policy := GhostdagInspired |>
       <| d_merge_set_k := DEFAULT_MERGE_SET_K |>
       <| d_merge_set_blues := {[ genesis_hash := [] ]} |>
       <| d_merge_set_reds := {[ genesis_hash := [] ]} |>
       <| d_blue_work := {[ genesis_hash := 0 ]} |>
       <| d_merge_set_diagnostics := ∅ |>
       <| d_ordered_dag := [genesis_hash] |>
       <| d_ordering_version := GHOSTDAG_V1_ORDERING_VERSION |>
       <| d_ordered_dag_rebuild_total := 0 |>
       <| d_ordered_dag_rebuild_failed_total := 0 |>
       <| d_ordered_dag_state_root := Some state_root |>
       <| d_ordered_dag_tip := Some genesis_hash |>
       <| d_ordered_dag_conflict_diagnostics := [] |> |>
    <| cs_utxo := UtxoState_default |>
    <| cs_mempool := Mempool_default |>).
End envelope.

Section genesis_v3_facts.
Context `{HashOrder, Crypto}.

(** The initial state holds no value. *)
Lemma init_chain_state_v3_utxo chain_id t s :
  init_chain_state_v3 chain_id t = Ok s ->
  cs_utxo s = UtxoState_default /\ cs_chain_id s = chain_id /\ cs_mempool s = Mempool_default.
Proof.
  unfold init_chain_state_v3. intros Hs. inv_ok. cbn. split; [done|]. split; [|done].
  unfold init_chain_state in Hok1. by inv_ok.
Qed.
(** An accepted genesis envelope is the frozen one. *)
Lemma genesis_freeze_exact restored chain_id t h :
  verify_dormant_native_genesis_freeze_v3_ns restored chain_id t h = Ok tt ->
  be_hash restored = h /\ be_chain_id restored = chain_id /\ be_transactions restored = [] /\
  dormant_native_genesis_envelope_v3_ns chain_id t = Ok restored.
Proof.
  unfold verify_dormant_native_genesis_freeze_v3_ns. intros Hv. inv_ok. bool_props.
  assert (Hc : be_chain_id a = chain_id /\ be_transactions a = []).
  { unfold dormant_native_genesis_envelope_v3_ns, build_block_envelope_v3 in Hok. by inv_ok. }
  assert (Hr : be_chain_id restored = chain_id).
  { unfold validate_block_envelope_v3 in Hok0. inv_ok. by bool_props. }
  destruct Hc as [Hc1 Hc2]. split_and!; [congruence..|]. f_equal. destruct a, restored; cbn in *. congruence.
Qed.
End genesis_v3_facts.
