(* ===== verification/ReplayV3.v ===== *)
(** * Authoritative replay, version 3 ([state_replay_v3.rs], [validation_v2.rs],
      [live_reward_settlement_v3.rs])

    The unspent outputs of a version-3 chain are rebuilt from the ordered DAG: each
    block's transfers are authenticated, required to conserve value and applied
    atomically or skipped, and rewards enter the set when their score is mature.

    [None] is a panic or exhausted fuel.  An [InvalidReplay] is the error
    [NonDeterministicState] whose message prints the reason. *)

From stdpp Require Import pretty.
From S2P Require Import Prelude Encoding Crypto Types Merkle State Tx Graph Selection Ghostdag.
From S2P Require Import Mining Genesis Apply Validation Text Monetary OrderingV2 Reward Headers.
From S2P Require Import GenesisV3.

Definition REWARD_FINALITY_POLICY_VERSION_V3 : string := "pulsedag-reward-finality-v3.0.0-mature-prefix-v1".

Inductive ReplayReason :=
| FullReplayNeedsGenesis
| GenesisNotTransactionless
| OrderedDagUnavailable (e : OrderingV2Error)
| OrderNotFromGenesis
| PrefixTooLong
| GenesisIdentityMismatch (expected rebuilt : Hash)
| ReplayMonetary (e : MonetaryV3Error)
| OrderedScoreExceedsU64
| OrderedBlockAbsent (hash : Hash)
| NoRewardClaim (hash : Hash)
| RewardClaimRejected (hash : Hash) (e : RewardSettlementV3Error)
| AdditionalInputless (hash : Hash)
| BeneficiaryLost
| NoProvenance (ordered_pos : Z) (hash txid : Hash) (outpoint : OutPoint)
| InvalidSignedTransfer (ordered_pos : Z) (hash txid : Hash) (e : PulseError)
| SignedInputVanished
| SignedInputOverflow
| SignedOutputOverflow
| SignedFeeOverflow
| Nonconservation (ordered_pos : Z) (hash txid : Hash)
| MalformedImmature (ordered_pos : Z) (hash txid : Hash)
| ImmatureTxidFailed (e : PulseError)
| ImmatureTxidInvalid (ordered_pos : Z) (hash txid : Hash)
| ImmatureSignature (ordered_pos : Z) (hash txid : Hash) (e : PulseError)
| AcceptedInputMissing
| InPlaceFailed (txid : Hash) (e : PulseError)
| EligibleFeeOverflow
| SkippedIndexOverflow
| ConflictingProvenance
| ReferenceOverflow
| ReferenceUnderflow
| MissingRewardScore (score : Z)
| GenesisReward
| NoBeneficiary (hash : Hash)
| RewardAmountOverflow
| CandidateNotTip (candidate : Hash) (tip : option Hash)
| CandidateMissing.
Inductive ReplayError := InvalidReplay (r : ReplayReason) | ReplayPulse (e : PulseError).
Abbreviation replay := (result (option ReplayError)).
Definition invalid_replay {A} (r : ReplayReason) : replay A := Err (Some (InvalidReplay r)).
Definition or_invalid {A} (o : option A) (r : ReplayReason) : replay A := ok_or o (Some (InvalidReplay r)).
Definition of_pulse {A} (r : outcome A) : replay A := map_err (option_map ReplayPulse) r.
Definition replay_monetary {A} (r : monetary A) : replay A :=
  map_err (fun e => Some (InvalidReplay (ReplayMonetary e))) r.

(** ** Mature prefix *)

(** [None] is running out of fuel. *)
Fixpoint mature_search (segments : list MonetaryCadenceSegment) (current_score : Z) (fuel : nat)
  (low high : Z) : option (replay Z) :=
  match fuel with
  | O => None
  | S fuel' =>
      if low <? high then
        let mid := low + ((high - low) / 2 + (if (high - low) mod 2 =? 0 then 0 else 1)) in
        match replay_monetary (economic_maturity_reached mid current_score segments) with
        | Ok true => mature_search segments current_score fuel' mid high
        | Ok false => mature_search segments current_score fuel' low (mid - 1)
        | Err e => Some (Err e)
        end
      else Some (Ok low)
  end.
(** The interval of the search halves, and starts below [2 ^ 64]. *)
Definition mature_fuel : nat := 66.
Definition mature_reward_prefix_score_v3 (current_score : Z) (segments : list MonetaryCadenceSegment)
  : replay Z :=
  if current_score =? 0 then Ok 0 else
  let? first := replay_monetary (economic_maturity_reached 1 current_score segments) in
  if negb first then Ok 0 else
  default (Err None) (mature_search segments current_score mature_fuel 1 current_score).

Definition insert_reward_utxo (utxo : UtxoState) (reward : Utxo) : result PulseError UtxoState :=
  let outpoint := utxo_outpoint reward in
  match u_utxos utxo !! outpoint with
  | Some _ => Err (DuplicateUtxoOutpoint (outpoint_label outpoint))
  | None =>
      Ok (mkUtxoState (<[outpoint := reward]> (u_utxos utxo))
            (<[utxo_address reward :=
                 default [] (u_address_index utxo !! utxo_address reward) ++ [outpoint]]>
               (u_address_index utxo)))
  end.

(** ** Transactions, version 2 *)

Section validation_v2.
Context `{Crypto}.

Definition validate_transaction_v2 (tx : Transaction) (state : ChainState) (chain_id : string)
  : outcome unit :=
  if bool_decide (tx_outputs tx = []) then fails (InvalidTransaction "no outputs") else
  if bool_decide (tx_inputs tx = []) then fails (InvalidTransaction "no inputs") else
  if existsb (fun o => out_amount o =? 0) (tx_outputs tx)
  then fails (InvalidTransaction "zero-value output") else
  check lift (all_distinct (InvalidTransaction "duplicate input")
                (map in_previous_output (tx_inputs tx))) in
  let? txid := compute_txid_v2 tx chain_id in
  if negb (bool_decide (txid = tx_txid tx)) then fails InvalidTxid else
  if transaction_is_confirmed (tx_txid tx) state then fails TxAlreadyExists else
  let? total_input := lift (try_fold (fun acc input =>
    let? input_amount := ok_or (tx_output_amount state (in_previous_output input)) UtxoNotFound in
    if bool_decide (in_previous_output input ∈ mp_spent_outpoints (cs_mempool state))
    then Err DoubleSpend
    else ok_or (checked_add 64 acc input_amount) (InvalidTransaction "input overflow"))
    0 (tx_inputs tx)) in
  let? total_output := lift (try_fold (fun acc output =>
    ok_or (checked_add 64 acc (out_amount output)) (InvalidTransaction "output overflow"))
    0 (tx_outputs tx)) in
  let? required := lift (ok_or (checked_add 64 total_output (tx_fee tx))
                               (InvalidTransaction "output overflow")) in
  if total_input <? required then fails InsufficientFunds else
  verify_transaction_signatures_v2 tx state chain_id.
End validation_v2.

(** ** Replay *)

Record ReplayPrefixV3 := mkReplayPrefixV3 {
  rp_rebuilt : ChainState;
  rp_validated_reward_claims : Z;
  rp_applied_transactions : Z;
  rp_skipped_conflicting_transactions : Z;
  rp_materialized_rewards : Z;
  rp_mature_reward_prefix_score : Z;
  rp_conflict_diagnostics : list string;
  rp_eligible_fees_by_score : list Z;
  rp_next_reward_score : Z;
  rp_repeated_input_references : gmap OutPoint Z;
  rp_spent_by_accepted_transfer : gmap OutPoint Utxo;
  rp_validated_reward_outpoints : gmap OutPoint Utxo;
  rp_skipped_signed_outputs : gmap OutPoint (Utxo * bool);
}.
#[global] Instance eta_ReplayPrefixV3 : Eta ReplayPrefixV3 := fun r =>
  mkReplayPrefixV3 (rp_rebuilt r) (rp_validated_reward_claims r) (rp_applied_transactions r) (rp_skipped_conflicting_transactions r) (rp_materialized_rewards r) (rp_mature_reward_prefix_score r) (rp_conflict_diagnostics r) (rp_eligible_fees_by_score r) (rp_next_reward_score r) (rp_repeated_input_references r) (rp_spent_by_accepted_transfer r) (rp_validated_reward_outpoints r) (rp_skipped_signed_outputs r).

Section replay.
Context `{HashOrder, Crypto}.

Definition validate_v3_replay_source (state : ChainState) : replay (Block * OrderedDagV2) :=
  let? genesis := or_invalid (d_blocks (cs_dag state) !! d_genesis_hash (cs_dag state))
                    FullReplayNeedsGenesis in
  if negb (bool_decide (b_transactions genesis = [])) then invalid_replay GenesisNotTransactionless else
  let? ordered_dag := map_err (option_map (fun e => InvalidReplay (OrderedDagUnavailable e)))
                        (derive_ordered_dag_v2 state) in
  if bool_decide (head (od_blocks ordered_dag) <> Some (d_genesis_hash (cs_dag state)))
  then invalid_replay OrderNotFromGenesis
  else Ok (genesis, ordered_dag).

(** *** Authentication of a transfer *)

Definition sum_u128 {A} (amount : A -> replay Z) (overflow : ReplayReason) (l : list A) : replay Z :=
  try_fold (fun sum x => let? a := amount x in or_invalid (checked_add 128 sum a) overflow) 0 l.
Definition validate_signed_replay_spend (tx : Transaction) (input_state : ChainState)
  (chain_id : string) (ordered_pos : Z) (block_hash : Hash) : replay unit :=
  check map_err (option_map (fun e => InvalidReplay (InvalidSignedTransfer ordered_pos block_hash (tx_txid tx) e)))
          (validate_transaction_v2 tx input_state chain_id) in
  let? inputs := sum_u128 (fun input =>
      let? coin := or_invalid (u_utxos (cs_utxo input_state) !! in_previous_output input)
                     SignedInputVanished in
      Ok (utxo_amount coin)) SignedInputOverflow (tx_inputs tx) in
  let? outputs := sum_u128 (fun output => Ok (out_amount output)) SignedOutputOverflow (tx_outputs tx) in
  let? outputs_plus_fee := or_invalid (checked_add 128 outputs (tx_fee tx)) SignedFeeOverflow in
  if negb (inputs =? outputs_plus_fee)
  then invalid_replay (Nonconservation ordered_pos block_hash (tx_txid tx)) else Ok tt.

(** The transactions whose inputs the scans visit: those after the claim of every
    block but genesis among the first [end_exclusive]. *)
Definition scan_transactions {B} (state : ChainState) (f : B -> Transaction -> replay B)
  (b : B) (hash : Hash) : replay B :=
  if bool_decide (hash = d_genesis_hash (cs_dag state)) then Ok b else
  let? block := or_invalid (d_blocks (cs_dag state) !! hash) (OrderedBlockAbsent hash) in
  try_fold f b (drop 1 (b_transactions block)).

(** [seen_once] and [repeated]. *)
Definition count_input (s : gset OutPoint * gmap OutPoint Z) (input : TxInput)
  : replay (gset OutPoint * gmap OutPoint Z) :=
  let outpoint := in_previous_output input in
  match s.2 !! outpoint with
  | Some count =>
      let? count := or_invalid (checked_add 64 count 1) ReferenceOverflow in
      Ok (s.1, <[outpoint := count]> s.2)
  | None =>
      if bool_decide (outpoint ∈ s.1) then Ok (s.1, <[outpoint := 2]> s.2)
      else Ok ({[outpoint]} ∪ s.1, s.2)
  end.
Definition repeated_replay_input_counts_v3 (state : ChainState) (ordered_dag : OrderedDagV2)
  (end_exclusive : nat) : replay (gmap OutPoint Z) :=
  let? s := try_fold (scan_transactions state (fun s tx => try_fold count_input s (tx_inputs tx)))
              (∅, ∅) (take end_exclusive (od_blocks ordered_dag)) in
  Ok s.2.
Definition referenced_replay_inputs (state : ChainState) (ordered_dag : OrderedDagV2)
  (end_exclusive : nat) : replay (gset OutPoint) :=
  try_fold (scan_transactions state (fun s tx =>
              Ok (list_to_set (map in_previous_output (tx_inputs tx)) ∪ s)))
    ∅ (take end_exclusive (od_blocks ordered_dag)).

(** The historical view of a transfer with missing inputs: the authenticated coin
    of each, and whether one of them has an unknown value. *)
Definition historical_input (s : ReplayPrefixV3) (h : UtxoState * bool) (input : TxInput)
  : UtxoState * bool :=
  let outpoint := in_previous_output input in
  match u_utxos h.1 !! outpoint with
  | Some _ => h
  | None =>
      let found :=
        match rp_spent_by_accepted_transfer s !! outpoint with
        | Some coin => Some (coin, h.2)
        | None =>
            match rp_validated_reward_outpoints s !! outpoint with
            | Some coin => Some (coin, true)
            | None =>
                match rp_skipped_signed_outputs s !! outpoint with
                | Some (coin, unknown_value) => Some (coin, h.2 || unknown_value)
                | None => None
                end
            end
        end in
      match found with
      | Some (coin, immature) =>
          (mkUtxoState (<[outpoint := coin]> (u_utxos h.1))
             (<[utxo_address coin := default [] (u_address_index h.1 !! utxo_address coin) ++ [outpoint]]>
                (u_address_index h.1)), immature)
      | None => h
      end
  end.
Definition has_provenance (s : ReplayPrefixV3) (outpoint : OutPoint) : bool :=
  bool_decide (is_Some (u_utxos (cs_utxo (rp_rebuilt s)) !! outpoint))
  || bool_decide (is_Some (rp_spent_by_accepted_transfer s !! outpoint))
  || bool_decide (is_Some (rp_validated_reward_outpoints s !! outpoint))
  || bool_decide (is_Some (rp_skipped_signed_outputs s !! outpoint)).
Definition all_inputs_available (s : ReplayPrefixV3) (tx : Transaction) : bool :=
  negb (bool_decide (tx_inputs tx = []))
  && forallb (fun input => bool_decide (is_Some (u_utxos (cs_utxo (rp_rebuilt s)) !! in_previous_output input)))
       (tx_inputs tx).

(** [has_immature_reward] of an authenticated transfer. *)
Definition authenticate_transfer (chain_id : string) (ordered_pos : Z) (hash : Hash) (s : ReplayPrefixV3)
  (tx : Transaction) : replay bool :=
  if all_inputs_available s tx then
    check validate_signed_replay_spend tx (rp_rebuilt s) chain_id ordered_pos hash in Ok false
  else
  check try_fold (fun (_ : unit) input =>
          if has_provenance s (in_previous_output input) then Ok tt
          else invalid_replay (NoProvenance ordered_pos hash (tx_txid tx) (in_previous_output input)))
          tt (tx_inputs tx) in
  let '(utxo, has_immature_reward) :=
    foldl (historical_input s) (cs_utxo (rp_rebuilt s), false) (tx_inputs tx) in
  let historical := (rp_rebuilt s) <| cs_utxo := utxo |> in
  if has_immature_reward then
    if bool_decide (tx_outputs tx = []) || existsb (fun o => out_amount o =? 0) (tx_outputs tx)
       || negb (bool_decide (size (list_to_set (map in_previous_output (tx_inputs tx)) : gset OutPoint)
                             = length (tx_inputs tx)))
    then invalid_replay (MalformedImmature ordered_pos hash (tx_txid tx)) else
    let? expected_txid := map_err (option_map (fun e => InvalidReplay (ImmatureTxidFailed e)))
                            (compute_txid_v2 tx chain_id) in
    if negb (bool_decide (expected_txid = tx_txid tx))
    then invalid_replay (ImmatureTxidInvalid ordered_pos hash (tx_txid tx)) else
    check map_err (option_map (fun e => InvalidReplay (ImmatureSignature ordered_pos hash (tx_txid tx) e)))
            (verify_transaction_signatures_v2 tx historical chain_id) in
    Ok true
  else
    check validate_signed_replay_spend tx historical chain_id ordered_pos hash in Ok false.

(** *** Application of a transfer *)

Definition in_place_safe (s : ReplayPrefixV3) (tx : Transaction) : bool :=
  all_inputs_available s tx
  && (Z.of_nat (length (tx_outputs tx)) <=? u32_max)
  && forallb (fun index => bool_decide (u_utxos (cs_utxo (rp_rebuilt s)) !! created_outpoint tx index = None))
       (seq 0 (length (tx_outputs tx))).
(** The coins of the repeated inputs, before they are consumed. *)
Definition archived_inputs (s : ReplayPrefixV3) (tx : Transaction) : replay (list (OutPoint * Utxo)) :=
  try_fold (fun acc input =>
      let? coin := or_invalid (u_utxos (cs_utxo (rp_rebuilt s)) !! in_previous_output input)
                     AcceptedInputMissing in
      Ok (acc ++ [(in_previous_output input, coin)])) []
    (filter (fun input => is_Some (rp_repeated_input_references s !! in_previous_output input)) (tx_inputs tx)).
(** [None] when the transfer is skipped. *)
Definition try_transfer (s : ReplayPrefixV3) (tx : Transaction) (height : Z) : replay (option ChainState) :=
  match apply_transaction tx (rp_rebuilt s) height with
  | (Ok _, rebuilt) => Ok (Some rebuilt)
  | (Err e, _) =>
      if in_place_safe s tx then invalid_replay (InPlaceFailed (tx_txid tx) e)
      else match e with
           | UtxoNotFound | DuplicateUtxoOutpoint _ => Ok None
           | e => Err (Some (ReplayPulse e))
           end
  end.

Definition credit_transfer (ordered_pos : nat) (tx : Transaction) (archived : list (OutPoint * Utxo))
  (rebuilt : ChainState) (s : ReplayPrefixV3) : replay ReplayPrefixV3 :=
  let? fees := ok_or (rp_eligible_fees_by_score s !! ordered_pos) None in
  let? fees := or_invalid (checked_add 64 fees (tx_fee tx)) EligibleFeeOverflow in
  Ok (s <| rp_rebuilt := rebuilt |>
        <| rp_spent_by_accepted_transfer ::= fun m => foldl (fun m p => <[p.1 := p.2]> m) m archived |>
        <| rp_eligible_fees_by_score ::= fun l => <[ordered_pos := fees]> l |>
        <| rp_applied_transactions ::= fun n => saturating_add 64 n 1 |>).

(** One output of a skipped transfer. *)
Definition record_skipped_output (s : ReplayPrefixV3) (referenced_inputs : gset OutPoint) (tx : Transaction)
  (height : Z) (has_immature_reward : bool) (skipped : gmap OutPoint (Utxo * bool))
  (p : nat * TxOutput) : replay (gmap OutPoint (Utxo * bool)) :=
  let '(index, output) := p in
  let? index := or_invalid (try_into 32 (Z.of_nat index)) SkippedIndexOverflow in
  let outpoint := mkOutPoint (tx_txid tx) index in
  if negb (bool_decide (outpoint ∈ referenced_inputs))
     || bool_decide (is_Some (u_utxos (cs_utxo (rp_rebuilt s)) !! outpoint))
     || bool_decide (is_Some (rp_spent_by_accepted_transfer s !! outpoint))
  then Ok skipped else
  let provenance := mkUtxo outpoint (out_address output) (out_amount output) false height in
  match skipped !! outpoint with
  | Some (existing, unknown) =>
      if negb (bool_decide (utxo_address existing = utxo_address provenance))
         || negb (utxo_amount existing =? utxo_amount provenance)
         || negb (Bool.eqb (utxo_coinbase existing) (utxo_coinbase provenance))
      then invalid_replay ConflictingProvenance
      else Ok (<[outpoint := (existing, unknown || has_immature_reward)]> skipped)
  | None => Ok (<[outpoint := (provenance, has_immature_reward)]> skipped)
  end.
Definition skip_transfer (ordered_pos : nat) (referenced_inputs : gset OutPoint) (block : Block)
  (tx : Transaction) (has_immature_reward : bool) (s : ReplayPrefixV3) : replay ReplayPrefixV3 :=
  let? skipped :=
    if all_inputs_available s tx then Ok (rp_skipped_signed_outputs s)
    else try_fold (record_skipped_output s referenced_inputs tx (h_height (b_header block)) has_immature_reward)
           (rp_skipped_signed_outputs s) (imap pair (tx_outputs tx)) in
  Ok (s <| rp_skipped_signed_outputs := skipped |>
        <| rp_skipped_conflicting_transactions ::= fun n => saturating_add 64 n 1 |>
        <| rp_conflict_diagnostics ::= fun l => l ++ ["ordered_pos=" +:+ pretty ordered_pos +:+ " block="
             +:+ b_hash block +:+ " tx=" +:+ tx_txid tx +:+ " skipped_conflict_atomic"] |>).

(** Drop the historical coin of an input after its last reference. *)
Definition release_reference (s : ReplayPrefixV3) (input : TxInput) : replay ReplayPrefixV3 :=
  let outpoint := in_previous_output input in
  match rp_repeated_input_references s !! outpoint with
  | None => Ok s
  | Some remaining =>
      let? remaining := or_invalid (checked_sub remaining 1) ReferenceUnderflow in
      if remaining =? 0
      then Ok (s <| rp_repeated_input_references ::= delete outpoint |>
                 <| rp_spent_by_accepted_transfer ::= delete outpoint |>)
      else Ok (s <| rp_repeated_input_references ::= <[outpoint := remaining]> |>)
  end.

Definition replay_transfer (chain_id : string) (ordered_pos : nat) (hash : Hash)
  (referenced_inputs : gset OutPoint) (block : Block) (s : ReplayPrefixV3) (tx : Transaction)
  : replay ReplayPrefixV3 :=
  let? has_immature_reward := authenticate_transfer chain_id (Z.of_nat ordered_pos) hash s tx in
  let? archived := if in_place_safe s tx then archived_inputs s tx else Ok [] in
  let? applied := try_transfer s tx (h_height (b_header block)) in
  let? s := match applied with
            | Some rebuilt => credit_transfer ordered_pos tx archived rebuilt s
            | None => skip_transfer ordered_pos referenced_inputs block tx has_immature_reward s
            end in
  try_fold release_reference s (tx_inputs tx).

(** *** Rewards *)

Definition materialize_reward_at_score (rebuilt source : ChainState) (ordered : OrderedDagV2)
  (reward_score eligible_fees_atoms : Z) (segments : list MonetaryCadenceSegment)
  : replay (OutPoint * ChainState) :=
  let? block_hash := or_invalid (od_blocks ordered !! Z.to_nat reward_score) (MissingRewardScore reward_score) in
  if bool_decide (block_hash = d_genesis_hash (cs_dag source)) then invalid_replay GenesisReward else
  let? block := or_invalid (d_blocks (cs_dag source) !! block_hash) (OrderedBlockAbsent block_hash) in
  let? claim := or_invalid (head (b_transactions block)) (NoRewardClaim block_hash) in
  check map_err (option_map (fun e => InvalidReplay (RewardClaimRejected block_hash e)))
          (validate_reward_claim_transaction_v3 claim (cs_chain_id source)) in
  if existsb (fun tx => bool_decide (tx_inputs tx = [])) (drop 1 (b_transactions block))
  then invalid_replay (AdditionalInputless block_hash) else
  let? output := or_invalid (head (tx_outputs claim)) (NoBeneficiary block_hash) in
  let? subsidy_atoms := replay_monetary (subsidy_atoms_for_score reward_score segments) in
  let? amount := or_invalid (checked_add 64 subsidy_atoms eligible_fees_atoms) RewardAmountOverflow in
  let? outpoint := map_err (fun _ => None)
                     (settlement_outpoint_v3 (cs_chain_id source) block_hash (tx_txid claim)) in
  let? utxo := map_err (fun e => Some (ReplayPulse e))
                 (insert_reward_utxo (cs_utxo rebuilt)
                    (mkUtxo outpoint (out_address output) amount true (h_height (b_header block)))) in
  Ok (outpoint, rebuilt <| cs_utxo := utxo |>).

(** [while next_reward_score <= mature_reward_prefix_score]; [None] is running out
    of fuel. *)
Fixpoint materialize_loop (state : ChainState) (segments : list MonetaryCadenceSegment)
  (ordered : OrderedDagV2) (fuel : nat) (s : ReplayPrefixV3) : option (replay ReplayPrefixV3) :=
  match fuel with
  | O => None
  | S fuel' =>
      if rp_next_reward_score s <=? rp_mature_reward_prefix_score s then
        match (let? fees := ok_or (rp_eligible_fees_by_score s !! Z.to_nat (rp_next_reward_score s)) None in
               materialize_reward_at_score (rp_rebuilt s) state ordered (rp_next_reward_score s) fees segments)
        with
        | Ok (matured_outpoint, rebuilt) =>
            materialize_loop state segments ordered fuel'
              (s <| rp_rebuilt := rebuilt |>
                 <| rp_validated_reward_outpoints ::= delete matured_outpoint |>
                 <| rp_materialized_rewards ::= fun n => saturating_add 64 n 1 |>
                 <| rp_next_reward_score ::= fun n => saturating_add 64 n 1 |>)
        | Err e => Some (Err e)
        end
      else Some (Ok s)
  end.
(** Every round materializes another ordered block. *)
Definition materialize_fuel (ordered : OrderedDagV2) : nat := S (S (length (od_blocks ordered))).

(** *** One block, and the prefix *)

Definition replay_block (state : ChainState) (segments : list MonetaryCadenceSegment)
  (ordered : OrderedDagV2) (referenced_inputs : gset OutPoint) (s : ReplayPrefixV3) (p : nat * Hash)
  : replay ReplayPrefixV3 :=
  let '(ordered_pos, hash) := p in
  if bool_decide (hash = d_genesis_hash (cs_dag state)) then Ok s else
  let? current_score := or_invalid (try_into 64 (Z.of_nat ordered_pos)) OrderedScoreExceedsU64 in
  let? block := or_invalid (d_blocks (cs_dag state) !! hash) (OrderedBlockAbsent hash) in
  let? claim := or_invalid (head (b_transactions block)) (NoRewardClaim hash) in
  check map_err (option_map (fun e => InvalidReplay (RewardClaimRejected hash e)))
          (validate_reward_claim_transaction_v3 claim (cs_chain_id state)) in
  if existsb (fun tx => bool_decide (tx_inputs tx = [])) (drop 1 (b_transactions block))
  then invalid_replay (AdditionalInputless hash) else
  let? reward_outpoint := map_err (fun _ => None)
                            (settlement_outpoint_v3 (cs_chain_id state) hash (tx_txid claim)) in
  let? output := or_invalid (head (tx_outputs claim)) BeneficiaryLost in
  let s := s <| rp_validated_reward_claims ::= fun n => saturating_add 64 n 1 |>
             <| rp_validated_reward_outpoints ::= <[reward_outpoint :=
                  mkUtxo reward_outpoint (out_address output) 0 true (h_height (b_header block))]> |> in
  let? s := try_fold (replay_transfer (cs_chain_id state) ordered_pos hash referenced_inputs block) s
              (drop 1 (b_transactions block)) in
  let? mature := mature_reward_prefix_score_v3 current_score segments in
  default (Err None)
    (materialize_loop state segments ordered (materialize_fuel ordered)
       (s <| rp_mature_reward_prefix_score := mature |>)).

Definition initial_prefix (rebuilt : ChainState) (blocks : nat) (repeated : gmap OutPoint Z)
  : ReplayPrefixV3 :=
  mkReplayPrefixV3 rebuilt 0 0 0 0 0 [] (replicate blocks 0) 1 repeated ∅ ∅ ∅.
Definition replay_authoritative_prefix_v3 (state : ChainState) (segments : list MonetaryCadenceSegment)
  (genesis_timestamp : Z) (ordered_dag : OrderedDagV2) (end_exclusive : nat) : replay ReplayPrefixV3 :=
  if (length (od_blocks ordered_dag) <? end_exclusive)%nat then invalid_replay PrefixTooLong else
  let? rebuilt := of_pulse (init_chain_state_v3 (cs_chain_id state) genesis_timestamp) in
  if negb (bool_decide (d_genesis_hash (cs_dag rebuilt) = d_genesis_hash (cs_dag state)))
  then invalid_replay (GenesisIdentityMismatch (d_genesis_hash (cs_dag state)) (d_genesis_hash (cs_dag rebuilt)))
  else
  let rebuilt := rebuilt <| cs_dag ::= fun dag => dag
                    <| d_consensus_mode := d_consensus_mode (cs_dag state) |>
                    <| d_selected_parent_policy := d_selected_parent_policy (cs_dag state) |> |> in
  let? repeated := repeated_replay_input_counts_v3 state ordered_dag end_exclusive in
  let? referenced_inputs := referenced_replay_inputs state ordered_dag end_exclusive in
  try_fold (replay_block state segments ordered_dag referenced_inputs)
    (initial_prefix rebuilt (length (od_blocks ordered_dag)) repeated)
    (take end_exclusive (imap pair (od_blocks ordered_dag))).

(** ** Entry points *)

Record StateReplayV3Diagnostics := mkStateReplayV3Diagnostics {
  rd_validated_reward_claims : Z;
  rd_applied_transactions : Z;
  rd_skipped_conflicting_transactions : Z;
  rd_materialized_rewards : Z;
  rd_mature_reward_prefix_score : Z;
  rd_conflict_diagnostics : list string;
  rd_state_root : string;
  rd_ordered_dag_tip : option Hash;
  rd_ordered_dag_digest : string;
}.
Record StateReplayV3 := mkStateReplayV3 {
  sr_utxo : UtxoState;
  sr_ordered_dag : OrderedDagV2;
  sr_eligible_fees_by_score : list Z;
  sr_diagnostics : StateReplayV3Diagnostics;
}.

Definition rebuild_authoritative_state_v3 (state : ChainState) (segments : list MonetaryCadenceSegment)
  : replay StateReplayV3 :=
  let? (genesis, ordered_dag) := validate_v3_replay_source state in
  let? r := replay_authoritative_prefix_v3 state segments (h_timestamp (b_header genesis)) ordered_dag
              (length (od_blocks ordered_dag)) in
  let? state_root := of_pulse (compute_state_root (cs_utxo (rp_rebuilt r))) in
  Ok (mkStateReplayV3 (cs_utxo (rp_rebuilt r)) ordered_dag (rp_eligible_fees_by_score r)
        (mkStateReplayV3Diagnostics (rp_validated_reward_claims r) (rp_applied_transactions r)
           (rp_skipped_conflicting_transactions r) (rp_materialized_rewards r)
           (rp_mature_reward_prefix_score r) (rp_conflict_diagnostics r) state_root
           (last (od_blocks ordered_dag)) (od_digest ordered_dag))).

Definition materialize_authoritative_pre_candidate_state_v3 (context : ChainState) (candidate_hash : Hash)
  (segments : list MonetaryCadenceSegment) : replay ChainState :=
  let? (genesis, ordered_dag) := validate_v3_replay_source context in
  if bool_decide (last (od_blocks ordered_dag) <> Some candidate_hash)
  then invalid_replay (CandidateNotTip candidate_hash (last (od_blocks ordered_dag))) else
  let? candidate := or_invalid (list_find (fun hash => hash = candidate_hash) (od_blocks ordered_dag))
                      CandidateMissing in
  let candidate_pos := candidate.1 in
  let? r := replay_authoritative_prefix_v3 context segments (h_timestamp (b_header genesis)) ordered_dag
              candidate_pos in
  let utxo := cs_utxo (rp_rebuilt r) in
  let? state_root := of_pulse (compute_state_root utxo) in
  Ok (context
    <| cs_utxo := utxo |>
    <| cs_dag ::= fun dag => dag
       <| d_ordered_dag := take candidate_pos (od_blocks ordered_dag) |>
       <| d_ordering_version := od_ordering_version ordered_dag |>
       <| d_ordered_dag_tip := match candidate_pos with
                               | S index => od_blocks ordered_dag !! index
                               | O => None
                               end |>
       <| d_ordered_dag_state_root := Some state_root |>
       <| d_ordered_dag_conflict_diagnostics := rp_conflict_diagnostics r |> |>
    <| cs_mempool ::= fun mp => mp
       <| mp_transactions := ∅ |> <| mp_spent_outpoints := ∅ |>
       <| mp_first_seen := ∅ |> <| mp_admission_height := ∅ |> |>).

Definition materialize_authoritative_state_v3 (state : ChainState)
  (segments : list MonetaryCadenceSegment) : replay ChainState :=
  let? r := rebuild_authoritative_state_v3 state segments in
  Ok (state
    <| cs_utxo := sr_utxo r |>
    <| cs_dag ::= fun dag => dag
       <| d_ordered_dag := od_blocks (sr_ordered_dag r) |>
       <| d_ordering_version := od_ordering_version (sr_ordered_dag r) |>
       <| d_ordered_dag_tip := rd_ordered_dag_tip (sr_diagnostics r) |>
       <| d_ordered_dag_state_root := Some (rd_state_root (sr_diagnostics r)) |>
       <| d_ordered_dag_conflict_diagnostics := rd_conflict_diagnostics (sr_diagnostics r) |> |>).

Definition nondeterministic {A} (what : string) : replay A :=
  Err (Some (ReplayPulse (NonDeterministicState what))).
Definition verify_authoritative_state_snapshot_v3 (state : ChainState)
  (segments : list MonetaryCadenceSegment) : replay StateReplayV3Diagnostics :=
  let? r := rebuild_authoritative_state_v3 state segments in
  let d := sr_diagnostics r in
  let? observed_state_root := of_pulse (compute_state_root (cs_utxo state)) in
  if negb (bool_decide (d_ordering_version (cs_dag state) = od_ordering_version (sr_ordered_dag r))) then
    nondeterministic "v3 snapshot ordering version does not match authoritative monetary replay" else
  if negb (bool_decide (d_ordered_dag (cs_dag state) = od_blocks (sr_ordered_dag r))) then
    nondeterministic "v3 snapshot ordered DAG does not match authoritative monetary replay" else
  if negb (bool_decide (d_ordered_dag_tip (cs_dag state) = rd_ordered_dag_tip d)) then
    nondeterministic "v3 snapshot ordered DAG tip does not match authoritative monetary replay" else
  if negb (bool_decide (d_ordered_dag_state_root (cs_dag state) = Some (rd_state_root d))) then
    nondeterministic "v3 snapshot recorded state root does not match authoritative monetary replay" else
  if negb (bool_decide (observed_state_root = rd_state_root d)) then
    nondeterministic "v3 snapshot UTXO root does not match authoritative monetary replay" else
  if negb (bool_decide (d_ordered_dag_conflict_diagnostics (cs_dag state) = rd_conflict_diagnostics d)) then
    nondeterministic "v3 snapshot conflict diagnostics do not match authoritative monetary replay"
  else Ok d.

(** ** Live settlement *)

(** [InvalidBlock] with the printed error. *)
Inductive LiveError :=
| UnsupportedPolicy (policy : string)
| LiveOrdering (e : OrderingV2Error)
| LiveScoreOverflow
| LiveReplay (e : ReplayError)
| LiveBinding (e : RewardSettlementV3Error)
| LiveSettlement (e : RewardSettlementV3Error).
Abbreviation live := (result (option LiveError)).

Definition derive_live_reward_finality_boundary_v3 (state : ChainState)
  (segments : list MonetaryCadenceSegment) (expected_finality_policy_version : string)
  : live RewardFinalityBoundaryV3 :=
  if negb (bool_decide (expected_finality_policy_version = REWARD_FINALITY_POLICY_VERSION_V3))
  then Err (Some (UnsupportedPolicy expected_finality_policy_version)) else
  let? ordered := map_err (option_map LiveOrdering) (derive_ordered_dag_v2 state) in
  let? current_score := ok_or (try_into 64 (score_of_tip (od_blocks ordered))) (Some LiveScoreOverflow) in
  let? finalized_through_score :=
    map_err (option_map LiveReplay) (mature_reward_prefix_score_v3 current_score segments) in
  map_err (option_map LiveBinding)
    (bind_reward_finality_boundary_v3 state finalized_through_score expected_finality_policy_version).
Definition validate_live_reward_settlement_v3 (state : ChainState)
  (segments : list MonetaryCadenceSegment) (expected_finality_policy_version : string)
  : live RewardSettlementSnapshotV3 :=
  if negb (bool_decide (expected_finality_policy_version = REWARD_FINALITY_POLICY_VERSION_V3))
  then Err (Some (UnsupportedPolicy expected_finality_policy_version)) else
  check map_err (option_map LiveReplay) (verify_authoritative_state_snapshot_v3 state segments) in
  let? boundary := derive_live_reward_finality_boundary_v3 state segments expected_finality_policy_version in
  map_err (option_map LiveSettlement)
    (derive_reward_settlement_snapshot_v3 state segments expected_finality_policy_version (Some boundary)).
End replay.
