(* ===== verification/ReplayV3Props.v ===== *)
(** * The version-3 replay conserves the scheduled supply

    The binary search for the mature prefix is exact; and in every state of the
    replay the unspent outputs plus the fees not yet paid out are the scheduled
    supply of the rewards materialized so far. *)

From S2P Require Import Prelude Encoding Crypto Types Merkle State Tx Graph Selection Ghostdag.
From S2P Require Import Mining Genesis Apply ApplyProps Validation ValidationProps Text Monetary.
From S2P Require Import OrderingV2 OrderingV2Props Reward RewardProps Headers GenesisV3 ReplayV3.

(** ** The mature prefix *)

Section mature.
Variables (segments : list MonetaryCadenceSegment) (current : Z).
Hypothesis Htyped : Forall segment_typed segments.
Hypothesis Hvalid : validate_cadence_segments segments = Ok ().
Hypothesis Hcurrent : in_u 64 current.

Definition matured (score : Z) : bool :=
  if current <? score then false
  else COINBASE_MATURITY_NS <=? saturating_sub (cadence_time current segments) (cadence_time score segments).
Lemma maturity_matured score :
  in_u 64 score -> economic_maturity_reached score current segments = Ok (matured score).
Proof.
  intros Hs. unfold economic_maturity_reached, matured. destruct (current <? score); [done|].
  by rewrite !economic_time_Ok.
Qed.
Lemma matured_mono s s' : s <= s' -> matured s' = true -> matured s = true.
Proof.
  unfold matured. intros Hs. destruct (Z.ltb_spec current s'); [done|].
  rewrite (proj2 (Z.ltb_ge _ _)) by lia. rewrite !Z.leb_le. unfold saturating_sub.
  pose proof (cadence_time_mono segments Htyped Hvalid s s' Hs). lia.
Qed.

Lemma mature_search_spec fuel low high :
  1 <= low <= high -> high <= current -> high - low < 2 ^ Z.of_nat (fuel - 1) -> (0 < fuel)%nat ->
  matured low = true -> (forall s, high < s -> matured s = false) ->
  exists m, mature_search segments current fuel low high = Some (Ok m) /\ low <= m <= high /\
    matured m = true /\ forall s, m < s -> matured s = false.
Proof.
  revert low high. induction fuel as [|fuel IH]; intros low high Hlow Hhigh Hgap Hf Hl Hh; [lia|].
  cbn [mature_search]. destruct (Z.ltb_spec low high) as [Hlt|Hge].
  2: { exists low. split_and!; try done; try lia. intros s Hs. apply Hh. lia. }
  set (mid := low + ((high - low) / 2 + (if (high - low) mod 2 =? 0 then 0 else 1))).
  assert (Hmid : low < mid <= high /\ 2 * (high - mid) <= high - low /\ 2 * (mid - 1 - low) <= high - low).
  { subst mid. pose proof (Z.div_mod (high - low) 2 ltac:(lia)).
    pose proof (Z.mod_pos_bound (high - low) 2 ltac:(lia)).
    destruct (Z.eqb_spec ((high - low) mod 2) 0); lia. }
  clearbody mid. unfold in_u in Hcurrent.
  rewrite maturity_matured by (unfold in_u; lia). cbn [replay_monetary map_err].
  assert (Hfuel : (0 < fuel)%nat).
  { destruct fuel; [|lia]. cbn in Hgap. lia. }
  assert (Hpow : 2 ^ Z.of_nat (S fuel - 1) = 2 * 2 ^ Z.of_nat (fuel - 1)).
  { rewrite <- Z.pow_succ_r by lia. f_equal. lia. }
  destruct (matured mid) eqn:Em.
  - destruct (IH mid high) as (m & -> & Hm & Hmm); [lia..|done|done|]. exists m. split; [done|]. split; [lia|done].
  - destruct (IH low (mid - 1)) as (m & -> & Hm & Hmm); [lia..|done| |].
    { intros s Hs. destruct (matured s) eqn:Es; [|done]. assert (mid <= s) by lia.
      rewrite (matured_mono mid s) in Em; done. }
    exists m. split; [done|]. split; [lia|done].
Qed.

(** The greatest mature score. *)
Lemma mature_prefix_spec :
  exists m, mature_reward_prefix_score_v3 current segments = Ok m /\ 0 <= m <= current /\
    forall s, 1 <= s <= current -> economic_maturity_reached s current segments = Ok (s <=? m).
Proof.
  unfold mature_reward_prefix_score_v3. unfold in_u in Hcurrent.
  destruct (Z.eqb_spec current 0); [exists 0; split_and!; try done; lia|].
  rewrite maturity_matured by (unfold in_u, u_max; lia). cbn [replay_monetary map_err].
  destruct (matured 1) eqn:E1; cbn [negb].
  - destruct (mature_search_spec mature_fuel 1 current) as (m & -> & Hm & Hmm & Hmax);
      [lia|lia| |unfold mature_fuel; lia|done| |].
    + unfold mature_fuel, u_max in *. change (2 ^ Z.of_nat (66 - 1)) with (2 ^ 65). lia.
    + intros s Hs. unfold matured. by rewrite (proj2 (Z.ltb_lt _ _)).
    + exists m. cbn. split_and!; [done|lia|lia|]. intros s Hs. rewrite maturity_matured by (unfold in_u; lia).
      f_equal. destruct (Z.leb_spec s m); [by apply (matured_mono s m)|by apply Hmax].
  - exists 0. split_and!; [done|lia|lia|]. intros s Hs. rewrite maturity_matured by (unfold in_u; lia). f_equal.
    rewrite (proj2 (Z.leb_gt _ _)) by lia. destruct (matured s) eqn:Es; [|done].
    rewrite (matured_mono 1 s) in E1; [done|lia|done].
Qed.
End mature.

(** ** Sums *)

Lemma sum_u128_Ok {A} (amount : A -> replay Z) (value : A -> Z) overflow l v :
  (forall x a, amount x = Ok a -> a = value x) ->
  sum_u128 amount overflow l = Ok v -> v = sum_Z (map value l).
Proof.
  intros Ha. apply (try_fold_ind _ (fun pre s => s = sum_Z (map value pre))); [done|].
  intros pre x post s s' _ -> Hs. rewrite map_app, sum_Z_app. cbn.
  destruct (amount x) as [a|] eqn:E; [|done]. unfold or_invalid in Hs. inv_ok. rewrite (Ha _ _ E). lia.
Qed.
Lemma sum_drop_insert (l : list Z) k i x v :
  (k <= i)%nat -> l !! i = Some x -> sum_Z (drop k (<[i := v]> l)) = sum_Z (drop k l) - x + v.
Proof.
  revert k i. induction l as [|y l IH]; intros k i Hk Hi; [done|].
  destruct i as [|i]; cbn in Hi.
  - destruct k; [|lia]. injection Hi as ->. cbn. lia.
  - change (<[S i := v]> (y :: l)) with (y :: <[i := v]> l). destruct k as [|k]; cbn [drop].
    + specialize (IH 0%nat i ltac:(lia) Hi). rewrite !drop_0 in IH. cbn [sum_Z foldr].
      fold (sum_Z (<[i := v]> l)) (sum_Z l). lia.
    + by apply IH; [lia|].
Qed.
Lemma sum_drop_lookup (l : list Z) k x :
  l !! k = Some x -> sum_Z (drop k l) = x + sum_Z (drop (S k) l).
Proof. intros Hk. by rewrite (drop_S _ _ _ Hk). Qed.

(** ** One transfer *)

Section transfer.
Context `{HashOrder, Crypto}.

Lemma signed_spend_conserves tx s chain_id pos h :
  validate_signed_replay_spend tx s chain_id pos h = Ok tt ->
  input_value (u_utxos (cs_utxo s)) (tx_inputs tx) = output_value (tx_outputs tx) + tx_fee tx.
Proof.
  unfold validate_signed_replay_spend. intros Hv. destruct (map_err _ _); [|done].
  destruct (sum_u128 _ _ (tx_inputs tx)) as [i|] eqn:Hi; [|done].
  destruct (sum_u128 _ _ (tx_outputs tx)) as [o|] eqn:Ho; [|done].
  unfold or_invalid in Hv. inv_ok. bool_props.
  apply (sum_u128_Ok _ (fun input => amount_at (u_utxos (cs_utxo s)) (in_previous_output input))) in Hi.
  2: { intros x w Hx. unfold or_invalid in Hx. unfold amount_at. destruct (_ !! _); cbn in Hx; [|done].
       by injection Hx. }
  apply (sum_u128_Ok _ out_amount) in Ho; [|by intros x w [= <-]].
  unfold input_value, output_value, spent_outpoints. rewrite map_map. lia.
Qed.

Lemma inputs_available s tx :
  tx_inputs tx <> [] ->
  Forall (fun o => is_Some (u_utxos (cs_utxo (rp_rebuilt s)) !! o)) (spent_outpoints (tx_inputs tx)) ->
  all_inputs_available s tx = true.
Proof.
  intros Hne Hall. unfold all_inputs_available. rewrite bool_decide_eq_false_2 by done. cbn.
  apply forallb_forall. intros i Hi%list_elem_of_In. apply bool_decide_eq_true.
  rewrite Forall_forall in Hall. apply Hall. by apply list_elem_of_fmap_2.
Qed.

(** A transfer that is applied was authenticated with all its inputs, and takes
    exactly its fee out of the unspent outputs. *)
Lemma applied_transfer chain_id pos h s tx height immature rebuilt :
  tx_inputs tx <> [] ->
  authenticate_transfer chain_id pos h s tx = Ok immature ->
  try_transfer s tx height = Ok (Some rebuilt) ->
  (index_consistent (cs_utxo (rp_rebuilt s)) -> index_consistent (cs_utxo rebuilt)) /\
  total_amount (u_utxos (cs_utxo rebuilt)) = total_amount (u_utxos (cs_utxo (rp_rebuilt s))) - tx_fee tx.
Proof.
  intros Hne Ha Ht. unfold try_transfer in Ht.
  destruct (apply_transaction tx (rp_rebuilt s) height) as [[u|e] s'] eqn:Hap.
  2: { destruct (in_place_safe s tx); [done|]. by destruct e. }
  injection Ht as ->. destruct (apply_transaction_spec _ _ _ _ _ Hap) as (Hc & _ & Happ & _).
  split; [done|]. assert (Hcon : consumed tx = tx_inputs tx).
  { unfold consumed. destruct (is_coinbase tx) eqn:Ecb; [|done]. apply is_coinbase_spec in Ecb. naive_solver. }
  destruct Happ as [Hpres _ _ _ _ Hval]. rewrite Hcon in *.
  unfold authenticate_transfer in Ha. rewrite (inputs_available s tx Hne Hpres) in Ha.
  destruct (validate_signed_replay_spend _ _ _ _ _) as [[]|] eqn:Hv; [|done].
  apply signed_spend_conserves in Hv. lia.
Qed.

(** The conserved quantity: the unspent outputs and the fees of the scores from
    [next] on are the supply of the scores before. *)
Record conserved (segments : list MonetaryCadenceSegment) (n : nat) (s : ReplayPrefixV3) : Prop := {
  cv_index : index_consistent (cs_utxo (rp_rebuilt s));
  cv_next : 1 <= rp_next_reward_score s;
  cv_fees : length (rp_eligible_fees_by_score s) = n;
  cv_fees_pos : Forall (fun f => 0 <= f) (rp_eligible_fees_by_score s);
  cv_value : total_amount (u_utxos (cs_utxo (rp_rebuilt s))) +
    sum_Z (drop (Z.to_nat (rp_next_reward_score s)) (rp_eligible_fees_by_score s)) =
    supply segments (rp_next_reward_score s - 1);
}.
(** Two states that agree on what the quantity depends on. *)
Definition same_value (s s' : ReplayPrefixV3) : Prop :=
  rp_rebuilt s' = rp_rebuilt s /\ rp_next_reward_score s' = rp_next_reward_score s /\
  rp_eligible_fees_by_score s' = rp_eligible_fees_by_score s.
#[global] Instance same_value_trans : Transitive same_value.
Proof. intros a b c (?&?&?) (?&?&?). unfold same_value. split_and!; congruence. Qed.
Lemma conserved_same segments n s s' : same_value s s' -> conserved segments n s -> conserved segments n s'.
Proof. intros (E1 & E2 & E3) []. split; rewrite ?E1, ?E2, ?E3; done. Qed.

Lemma skip_transfer_same pos refs block tx immature s s' :
  skip_transfer pos refs block tx immature s = Ok s' -> same_value s s'.
Proof. unfold skip_transfer. intros Hs. destruct (if all_inputs_available s tx then _ else _); inv_ok. done. Qed.
Lemma release_references_same inputs s s' :
  try_fold release_reference s inputs = Ok s' -> same_value s s'.
Proof.
  apply (try_fold_ind _ (fun _ s' => same_value s s')); [done|].
  intros pre i post s1 s2 _ Hs1 Hr. etrans; [exact Hs1|].
  unfold release_reference, or_invalid in Hr. destruct (_ !! _); inv_ok; done.
Qed.

Lemma replay_transfer_conserved segments n chain_id pos h refs block s tx s' :
  tx_inputs tx <> [] -> 0 <= tx_fee tx -> rp_next_reward_score s <= Z.of_nat pos ->
  conserved segments n s -> replay_transfer chain_id pos h refs block s tx = Ok s' ->
  conserved segments n s' /\ rp_next_reward_score s' = rp_next_reward_score s.
Proof.
  intros Hne Hfee Hpos Hcv Hr. unfold replay_transfer in Hr.
  destruct (authenticate_transfer _ _ _ _ _) as [immature|] eqn:Ha; [|done].
  destruct (if in_place_safe s tx then _ else _) as [archived|]; [|done].
  destruct (try_transfer s tx _) as [[rebuilt|]|] eqn:Ht; [| |done].
  2: { destruct (skip_transfer _ _ _ _ _ _) as [s1|] eqn:Hs; [|done].
       assert (Hsame : same_value s s') by (etrans; [by eapply skip_transfer_same|by eapply release_references_same]).
       split; [by eapply conserved_same|apply Hsame]. }
  destruct (credit_transfer _ _ _ _ _) as [s1|] eqn:Hc; [|done].
  apply release_references_same in Hr. assert (Hn : rp_next_reward_score s1 = rp_next_reward_score s /\
    conserved segments n s1).
  2: { destruct Hn as [Hn Hcv1]. split; [exact (conserved_same _ _ _ _ Hr Hcv1)|].
       destruct Hr as (_ & -> & _). exact Hn. }
  destruct (applied_transfer _ _ _ _ _ _ _ _ Hne Ha Ht) as [Hidx Htot].
  unfold credit_transfer, or_invalid in Hc. inv_ok. split; [done|]. destruct Hcv as [Ci Cn Cl Cp Cv].
  split; cbn [rp_rebuilt rp_next_reward_score rp_eligible_fees_by_score].
  - by apply Hidx.
  - done.
  - by rewrite length_insert.
  - apply Forall_insert; [done|]. rewrite Forall_lookup in Cp. specialize (Cp _ _ Hok). lia.
  - rewrite (sum_drop_insert _ _ _ a) by (done || lia). lia.
Qed.

(** ** Rewards *)

Lemma materialize_reward_value rebuilt source ordered score fees segments o rebuilt' :
  materialize_reward_at_score rebuilt source ordered score fees segments = Ok (o, rebuilt') ->
  exists subsidy, subsidy_atoms_for_score score segments = Ok subsidy /\
    (index_consistent (cs_utxo rebuilt) -> index_consistent (cs_utxo rebuilt')) /\
    total_amount (u_utxos (cs_utxo rebuilt')) = total_amount (u_utxos (cs_utxo rebuilt)) + subsidy + fees.
Proof.
  unfold materialize_reward_at_score, or_invalid, replay_monetary. intros Hm. inv_ok.
  repeat match goal with Hx : map_err _ _ = Ok _ |- _ => apply map_err_Ok in Hx end.
  unfold insert_reward_utxo in *. cbn [utxo_outpoint utxo_address] in *.
  match goal with Hx : match u_utxos _ !! o with _ => _ end = Ok _ |- _ =>
    destruct (u_utxos (cs_utxo rebuilt) !! o) eqn:Ho; [done|injection Hx as <-] end.
  eexists. split; [done|]. cbn. split.
  - intros Hc. by apply (insert_utxo_consistent (cs_utxo rebuilt)
      (mkUtxo o _ _ true _)).
  - rewrite total_amount_insert by done. cbn. lia.
Qed.

Section rewards.
Variables (state : ChainState) (segments : list MonetaryCadenceSegment) (ordered : OrderedDagV2).
Hypothesis Htyped : Forall segment_typed segments.
Hypothesis Hvalid : validate_cadence_segments segments = Ok ().
Let n := length (od_blocks ordered).

Lemma materialize_loop_conserved fuel s s' :
  rp_mature_reward_prefix_score s < u64_max -> conserved segments n s ->
  materialize_loop state segments ordered fuel s = Some (Ok s') ->
  conserved segments n s' /\
  rp_mature_reward_prefix_score s' = rp_mature_reward_prefix_score s /\
  rp_next_reward_score s' = Z.max (rp_next_reward_score s) (rp_mature_reward_prefix_score s + 1).
Proof.
  revert s. induction fuel as [|fuel IH]; intros s Hm Hcv Hl; [done|]. cbn [materialize_loop] in Hl.
  destruct (Z.leb_spec (rp_next_reward_score s) (rp_mature_reward_prefix_score s)) as [Hle|Hgt].
  2: { injection Hl as <-. split_and!; [done|done|lia]. }
  destruct (rp_eligible_fees_by_score s !! Z.to_nat (rp_next_reward_score s)) as [fees|] eqn:Hf; [|done].
  cbn [ok_or] in Hl.
  destruct (materialize_reward_at_score _ _ _ _ _ _) as [[o rebuilt]|] eqn:Hr; [|done].
  destruct (materialize_reward_value _ _ _ _ _ _ _ _ Hr) as (subsidy & Hsub & Hidx & Htot).
  destruct Hcv as [Ci Cn Cl Cp Cv].
  assert (Hin : in_u 64 (rp_next_reward_score s)) by (unfold in_u; lia).
  destruct (subsidy_step _ _ _ Htyped Hin ltac:(lia) Hsub) as [_ Hstep].
  assert (Esat : saturating_add 64 (rp_next_reward_score s) 1 = rp_next_reward_score s + 1)
    by (unfold saturating_add; lia).
  match type of Hl with materialize_loop _ _ _ _ ?x = _ => set (s1 := x) in Hl end.
  assert (N1 : rp_next_reward_score s1 = rp_next_reward_score s + 1) by exact Esat.
  assert (M1 : rp_mature_reward_prefix_score s1 = rp_mature_reward_prefix_score s) by done.
  assert (F1 : rp_eligible_fees_by_score s1 = rp_eligible_fees_by_score s) by done.
  assert (R1 : rp_rebuilt s1 = rebuilt) by done. clearbody s1.
  apply IH in Hl; [|lia|].
  - rewrite M1, N1 in Hl. destruct Hl as (H1' & H2' & H3'). split_and!; [done|done|lia].
  - split; rewrite ?N1, ?F1, ?R1; [by apply Hidx|lia|done|done|].
    rewrite (sum_drop_lookup _ _ _ Hf) in Cv.
    replace (Z.to_nat (rp_next_reward_score s + 1)) with (S (Z.to_nat (rp_next_reward_score s))) by lia.
    replace (rp_next_reward_score s + 1 - 1) with (rp_next_reward_score s) by lia. lia.
Qed.
(** The fuel of the loop is enough. *)
Lemma materialize_loop_fuel fuel s :
  0 <= rp_next_reward_score s -> rp_mature_reward_prefix_score s < u64_max ->
  rp_mature_reward_prefix_score s + 1 - rp_next_reward_score s < Z.of_nat fuel -> (0 < fuel)%nat ->
  materialize_loop state segments ordered fuel s <> None.
Proof.
  revert s. induction fuel as [|fuel IH]; intros s Hn Hm Hf Hpos; [lia|]. cbn [materialize_loop].
  destruct (Z.leb_spec (rp_next_reward_score s) (rp_mature_reward_prefix_score s)); [|done].
  destruct (let? fees := _ in _) as [[o rebuilt]|]; [|done].
  assert (Esat : saturating_add 64 (rp_next_reward_score s) 1 = rp_next_reward_score s + 1)
    by (unfold saturating_add; lia).
  match goal with |- materialize_loop _ _ _ _ ?x <> _ => set (s1 := x) end.
  assert (N1 : rp_next_reward_score s1 = rp_next_reward_score s + 1) by exact Esat.
  assert (M1 : rp_mature_reward_prefix_score s1 = rp_mature_reward_prefix_score s) by done.
  clearbody s1. apply IH; lia.
Qed.

(** ** Blocks *)

(** Fees are [u64] values. *)
Definition fees_typed : Prop :=
  map_Forall (fun _ b => Forall (fun tx => 0 <= tx_fee tx) (b_transactions b)) (d_blocks (cs_dag state)).
Hypothesis Hfees : fees_typed.

Lemma transfers_conserved chain_id pos h refs block s s' txs :
  Forall (fun tx => tx_inputs tx <> [] /\ 0 <= tx_fee tx) txs -> rp_next_reward_score s <= Z.of_nat pos ->
  conserved segments n s ->
  try_fold (replay_transfer chain_id pos h refs block) s txs = Ok s' ->
  conserved segments n s' /\ rp_next_reward_score s' = rp_next_reward_score s.
Proof.
  intros Htx Hpos Hcv. apply (try_fold_ind _ (fun _ s' => conserved segments n s' /\
    rp_next_reward_score s' = rp_next_reward_score s)); [done|].
  intros pre tx post s1 s2 Hl [Hc1 Hn1] Hr. rewrite Hl, Forall_app, Forall_cons in Htx.
  destruct Htx as (_ & [Hi Hf] & _).
  assert (Hle : rp_next_reward_score s1 <= Z.of_nat pos) by lia.
  destruct (replay_transfer_conserved segments n _ _ _ _ _ _ _ _ Hi Hf Hle Hc1 Hr) as [? ?].
  split; [done|congruence].
Qed.

Lemma mature_prefix_mono c c' m m' :
  in_u 64 c -> in_u 64 c' -> c <= c' -> mature_reward_prefix_score_v3 c segments = Ok m ->
  mature_reward_prefix_score_v3 c' segments = Ok m' -> m <= m'.
Proof.
  intros Hc Hc' Hle Hm Hm'.
  destruct (mature_prefix_spec segments c Htyped Hvalid Hc) as (x & Ex & Hx & Sx).
  destruct (mature_prefix_spec segments c' Htyped Hvalid Hc') as (y & Ey & Hy & Sy).
  rewrite Ex in Hm. injection Hm as <-. rewrite Ey in Hm'. injection Hm' as <-.
  destruct (Z.le_gt_cases x 0); [lia|]. specialize (Sx x ltac:(lia)). specialize (Sy x ltac:(lia)).
  unfold in_u in *. rewrite maturity_matured in Sx, Sy by (done || (unfold in_u; lia)).
  injection Sx as Sx. injection Sy as Sy. rewrite Z.leb_refl in Sx.
  destruct (Z.leb_spec x y); [done|]. exfalso. unfold matured in Sx, Sy.
  destruct (Z.ltb_spec c x); [done|]. rewrite (proj2 (Z.ltb_ge c' x)) in Sy by lia.
  apply Z.leb_le in Sx. apply Z.leb_gt in Sy. unfold saturating_sub in *.
  pose proof (cadence_time_mono segments Htyped Hvalid c c' Hle). lia.
Qed.

(** The invariant before position [pos] is replayed. *)
Record prefix_inv (pos : Z) (s : ReplayPrefixV3) : Prop := {
  pi_conserved : conserved segments n s;
  pi_next : rp_next_reward_score s = rp_mature_reward_prefix_score s + 1;
  pi_mature : mature_reward_prefix_score_v3 (Z.max 0 (pos - 1)) segments = Ok (rp_mature_reward_prefix_score s);
}.
Lemma mature_prefix_bound c m :
  in_u 64 c -> mature_reward_prefix_score_v3 c segments = Ok m -> 0 <= m <= c.
Proof.
  intros Hc Hm. destruct (mature_prefix_spec segments c Htyped Hvalid Hc) as (x & Ex & Hx & _).
  rewrite Ex in Hm. injection Hm as <-. done.
Qed.

Lemma replay_block_inv refs pos hash s s' :
  hash <> d_genesis_hash (cs_dag state) -> (1 <= pos)%nat -> Z.of_nat pos < u64_max ->
  prefix_inv (Z.of_nat pos) s ->
  replay_block state segments ordered refs s (pos, hash) = Ok s' -> prefix_inv (Z.of_nat pos + 1) s'.
Proof.
  intros Hg Hp Hmax [Hcv Hnext Hmat] Hr. unfold replay_block in Hr. rewrite bool_decide_eq_false_2 in Hr by done.
  assert (Hpos : in_u 64 (Z.of_nat pos)) by (unfold in_u; lia).
  assert (Hprev : in_u 64 (Z.max 0 (Z.of_nat pos - 1))) by (unfold in_u in *; lia).
  pose proof (mature_prefix_bound _ _ Hprev Hmat) as Hb.
  rewrite (proj2 (try_into_Some 64 _ _)) in Hr by done. cbn [or_invalid ok_or] in Hr.
  destruct (d_blocks (cs_dag state) !! hash) as [block|] eqn:Hblk; [|done]. cbn [or_invalid ok_or] in Hr.
  destruct (b_transactions block) as [|claim txs] eqn:Htx; [done|]. cbn [head or_invalid ok_or] in Hr.
  destruct (map_err _ (validate_reward_claim_transaction_v3 _ _)); [|done].
  change (drop 1 (claim :: txs)) with txs in Hr. destruct (existsb _ txs) eqn:Hex; [done|].
  destruct (map_err _ (settlement_outpoint_v3 _ _ _)) as [o|]; [|done].
  destruct (or_invalid (head (tx_outputs claim)) _) as [output|]; [|done].
  destruct (try_fold _ _ txs) as [s1|] eqn:Hf; [|done].
  apply transfers_conserved in Hf; [|..].
  - destruct Hf as [Hc1 Hn1].
    destruct (mature_reward_prefix_score_v3 (Z.of_nat pos) segments) as [m|] eqn:Hm; [|done].
    destruct (materialize_loop _ _ _ _ _) as [[s2|]|] eqn:Hl; [|done|done]. injection Hr as ->.
    pose proof (mature_prefix_bound _ _ Hpos Hm) as Hb'.
    apply materialize_loop_conserved in Hl; [|cbn; lia|].
    + destruct Hl as (Hc2 & Hm2 & Hn2). cbn in Hm2, Hn2.
      pose proof (mature_prefix_mono _ _ _ _ Hprev Hpos ltac:(lia) Hmat Hm). cbn in Hn1.
      split; [done|lia|]. replace (Z.max 0 (Z.of_nat pos + 1 - 1)) with (Z.of_nat pos) by lia. by rewrite Hm2.
    + by apply (conserved_same _ _ s1).
  - pose proof (Hfees hash block Hblk) as Hpos'. cbn in Hpos'. rewrite Htx, Forall_cons in Hpos'.
    apply no_hidden_claim in Hex. apply Forall_and. by destruct Hpos'.
  - cbn. lia.
  - by apply (conserved_same _ _ s).
Qed.

(** ** The prefix *)

Hypothesis Hnodup : NoDup (od_blocks ordered).
Hypothesis Hgenesis : head (od_blocks ordered) = Some (d_genesis_hash (cs_dag state)).
Hypothesis Hsize : Z.of_nat n <= u64_max.

Lemma sum_replicate_0 k j : sum_Z (drop k (replicate j 0)) = 0.
Proof. rewrite drop_replicate. by induction (j - k)%nat as [|x IH]. Qed.
Lemma empty_consistent : index_consistent UtxoState_default.
Proof. split; cbn; intros *; rewrite ?lookup_empty; done. Qed.

Lemma head_lookup0 (l : list Hash) : head l = l !! 0%nat.
Proof. by destruct l. Qed.
Lemma ordered_position pre i h post e :
  take e (imap pair (od_blocks ordered)) = pre ++ (i, h) :: post ->
  i = length pre /\ od_blocks ordered !! length pre = Some h.
Proof.
  intros E. assert (Hl : take e (imap pair (od_blocks ordered)) !! length pre = Some (i, h)).
  { rewrite E, lookup_app_r, Nat.sub_diag by done. done. }
  apply lookup_take_Some in Hl as [Hl _]. rewrite list_lookup_imap in Hl.
  destruct (od_blocks ordered !! length pre) as [x|]; [|done]. cbn in Hl. by injection Hl as <- <-.
Qed.
Lemma replay_blocks_inv refs e s0 s :
  prefix_inv 0 s0 -> (e <= n)%nat ->
  try_fold (replay_block state segments ordered refs) s0 (take e (imap pair (od_blocks ordered))) = Ok s ->
  prefix_inv (Z.of_nat e) s.
Proof.
  intros H0' He Hf.
  assert (Hlen : length (take e (imap pair (od_blocks ordered))) = e).
  { rewrite length_take, length_imap. fold n. lia. }
  rewrite <- Hlen. revert Hf.
  apply (try_fold_ind _ (fun pre s => prefix_inv (Z.of_nat (length pre)) s)); [done|].
  intros pre [i h] post s1 s2 Hl Hinv Hr. destruct (ordered_position _ _ _ _ _ Hl) as [-> Hh].
  assert (Hlt : (length pre < n)%nat) by (by apply lookup_lt_Some in Hh).
  rewrite length_app. cbn [length]. replace (Z.of_nat (length pre + 1)) with (Z.of_nat (length pre) + 1) by lia.
  destruct pre as [|p pre].
  - assert (h = d_genesis_hash (cs_dag state)) as ->.
    { rewrite head_lookup0 in Hgenesis. cbn in Hh. congruence. }
    unfold replay_block in Hr. rewrite bool_decide_eq_true_2 in Hr by done. injection Hr as <-.
    destruct Hinv as [? ? ?]. by split.
  - eapply replay_block_inv; [| | |done|exact Hr]; [|cbn; lia|lia].
    intros ->. assert (Hz : od_blocks ordered !! 0%nat = Some (d_genesis_hash (cs_dag state))).
    { by rewrite <- head_lookup0. }
    by pose proof (NoDup_lookup _ _ _ _ Hnodup Hh Hz).
Qed.
Lemma replay_prefix_inv ts e s :
  replay_authoritative_prefix_v3 state segments ts ordered e = Ok s -> prefix_inv (Z.of_nat e) s.
Proof.
  unfold replay_authoritative_prefix_v3, of_pulse. intros Hr.
  destruct (Nat.ltb_spec (length (od_blocks ordered)) e) as [|He]; [done|].
  destruct (init_chain_state_v3 _ _) as [rebuilt|] eqn:Hi; [|done]. cbn [map_err] in Hr.
  destruct (negb _); [done|].
  destruct (repeated_replay_input_counts_v3 _ _ _) as [rep|]; [|done].
  destruct (referenced_replay_inputs _ _ _) as [refs|]; [|done].
  eapply replay_blocks_inv; [|exact He|exact Hr]. clear Hr.
  apply init_chain_state_v3_utxo in Hi as (Hu & _ & _). split; [|done|done].
  split; cbn [initial_prefix rp_rebuilt rp_next_reward_score rp_eligible_fees_by_score cs_utxo].
  - cbn. rewrite Hu. apply empty_consistent.
  - done.
  - apply length_replicate.
  - by apply Forall_replicate.
  - assert (E : sum_Z (drop (Z.to_nat 1) (replicate (length (od_blocks ordered)) 0)) = 0)
      by apply sum_replicate_0.
    rewrite E. change (1 - 1) with 0. rewrite supply_genesis by done. cbn. by rewrite Hu.
Qed.
End rewards.
End transfer.

(** ** The properties *)

Section rebuilt.
Context `{HashOrder, Crypto}.

Lemma ordered_length state od :
  derive_ordered_dag_v2 state = Ok od ->
  NoDup (od_blocks od) /\ length (od_blocks od) = size (d_blocks (cs_dag state)).
Proof.
  intros Hd. pose proof (derive_spec state) as Hs. rewrite Hd in Hs. destruct Hs as (p & _ & Hrule & _).
  destruct (greedy_NoDup _ _ _ (obr_greedy _ _ _ Hrule)) as [Hnd _]. split; [done|].
  rewrite <- size_dom, <- (size_list_to_set (C:=gset Hash)) by done. f_equal. apply set_eq. intros h.
  rewrite elem_of_list_to_set. apply (obr_all _ _ _ Hrule).
Qed.
Lemma replay_source_Ok state g od :
  validate_v3_replay_source state = Ok (g, od) ->
  derive_ordered_dag_v2 state = Ok od /\ head (od_blocks od) = Some (d_genesis_hash (cs_dag state)).
Proof.
  unfold validate_v3_replay_source, or_invalid, invalid_replay. intros Hv. inv_ok.
  apply map_err_Ok in Hok0. bool_props. split; [done|]. by apply dec_stable.
Qed.

(** What a successful rebuild establishes. *)
Record rebuilt_ok (segments : list MonetaryCadenceSegment) (score m : Z) (u : UtxoState) (fees : list Z)
  : Prop := {
  rb_prefix : mature_reward_prefix_score_v3 score segments = Ok m;
  rb_mature : 0 <= m <= score;
  rb_exact s : 1 <= s <= score -> economic_maturity_reached s score segments = Ok (s <=? m);
  rb_supply : exists scheduled, total_supply_atoms_for_score m segments = Ok scheduled /\
    total_amount (u_utxos u) + sum_Z (drop (Z.to_nat (m + 1)) fees) = scheduled /\
    total_amount (u_utxos u) <= scheduled <= MAX_SUPPLY_ATOMS;
  rb_index : index_consistent u;
}.
Lemma sum_nonneg l : Forall (fun f => 0 <= f) l -> 0 <= sum_Z l.
Proof. induction 1; cbn; [done|]. unfold sum_Z in *. lia. Qed.
Lemma prefix_inv_rebuilt segments od s pos :
  Forall segment_typed segments -> validate_cadence_segments segments = Ok () -> in_u 64 (pos - 1) ->
  prefix_inv segments od pos s ->
  rebuilt_ok segments (pos - 1) (rp_mature_reward_prefix_score s) (cs_utxo (rp_rebuilt s))
    (rp_eligible_fees_by_score s).
Proof.
  intros Ht Hv Hu [[Ci Cn Cl Cp Cv] Hn Hm]. rewrite Z.max_r in Hm by apply Hu.
  destruct (mature_prefix_spec segments (pos - 1) Ht Hv Hu) as (x & Ex & Hx & Sx).
  rewrite Ex in Hm. injection Hm as ->. set (m := rp_mature_reward_prefix_score s) in *.
  split; [done|done|done| |done].
  rewrite Hn in Cv. replace (m + 1 - 1) with m in Cv by lia.
  assert (Hin : in_u 64 m) by (unfold in_u in *; lia).
  exists (supply segments m). rewrite total_supply_Ok by done. split; [done|]. split; [done|].
  pose proof (sum_nonneg _ (Forall_drop _ (Z.to_nat (m + 1)) _ Cp)).
  pose proof (curve_range _ (cadence_time_0 segments Ht Hv m ltac:(lia))) as Hc.
  fold (supply segments m) in Hc. lia.
Qed.

Lemma rebuild_spec state segments r :
  Forall segment_typed segments -> validate_cadence_segments segments = Ok () -> fees_typed state ->
  Z.of_nat (size (d_blocks (cs_dag state))) <= u64_max ->
  rebuild_authoritative_state_v3 state segments = Ok r ->
  derive_ordered_dag_v2 state = Ok (sr_ordered_dag r) /\
  rebuilt_ok segments (Z.of_nat (length (od_blocks (sr_ordered_dag r))) - 1)
    (rd_mature_reward_prefix_score (sr_diagnostics r)) (sr_utxo r) (sr_eligible_fees_by_score r) /\
  compute_state_root (sr_utxo r) = Ok (rd_state_root (sr_diagnostics r)).
Proof.
  intros Ht Hv Hf Hsz. unfold rebuild_authoritative_state_v3, of_pulse. intros Hr.
  destruct (validate_v3_replay_source state) as [[g od]|] eqn:Hs; [|done].
  destruct (replay_authoritative_prefix_v3 _ _ _ _ _) as [s|] eqn:Hp; [|done].
  destruct (compute_state_root _) as [root|] eqn:Hroot; [|done]. cbn in Hr. injection Hr as <-. cbn.
  destruct (replay_source_Ok _ _ _ Hs) as [Hd Hg]. destruct (ordered_length _ _ Hd) as [Hnd Hlen].
  split; [done|]. split; [|done].
  apply (prefix_inv_rebuilt segments od); [done|done| |].
  - destruct (od_blocks od); [done|]. cbn in *. unfold in_u. lia.
  - eapply replay_prefix_inv; [done|done|exact Hf|done|done|lia|exact Hp].
Qed.
End rebuilt.

(** C27: the replay conserves the scheduled supply.  When the version-3 state of a
    valid cadence is rebuilt, its mature prefix is the greatest mature score of the
    ordered tip; the unspent outputs and the eligible fees of the scores after it
    add up to exactly the scheduled supply of that score, so the circulating value
    never exceeds it or the maximum supply; and the address index is consistent. *)
Theorem replay_conserves_supply `{HashOrder, Crypto} state segments r :
  Forall segment_typed segments -> validate_cadence_segments segments = Ok () -> fees_typed state ->
  Z.of_nat (size (d_blocks (cs_dag state))) <= u64_max ->
  rebuild_authoritative_state_v3 state segments = Ok r ->
  rebuilt_ok segments (Z.of_nat (length (od_blocks (sr_ordered_dag r))) - 1)
    (rd_mature_reward_prefix_score (sr_diagnostics r)) (sr_utxo r) (sr_eligible_fees_by_score r).
Proof. intros. by eapply rebuild_spec. Qed.

(** The binary search for the mature prefix terminates within its fuel and is
    exact: it returns the greatest score up to the current one whose reward is
    mature, and every smaller score is mature too. *)
Lemma mature_reward_prefix_score_exact current segments :
  Forall segment_typed segments -> validate_cadence_segments segments = Ok () -> in_u 64 current ->
  exists m, mature_reward_prefix_score_v3 current segments = Ok m /\ 0 <= m <= current /\
    forall s, 1 <= s <= current -> economic_maturity_reached s current segments = Ok (s <=? m).
Proof. apply mature_prefix_spec. Qed.

Section live.
Context `{HashOrder, Crypto}.

Lemma verify_snapshot_Ok state segments d :
  verify_authoritative_state_snapshot_v3 state segments = Ok d ->
  exists r, rebuild_authoritative_state_v3 state segments = Ok r /\ sr_diagnostics r = d /\
    compute_state_root (cs_utxo state) = Ok (rd_state_root d) /\
    d_ordering_version (cs_dag state) = od_ordering_version (sr_ordered_dag r) /\
    d_ordered_dag (cs_dag state) = od_blocks (sr_ordered_dag r) /\
    d_ordered_dag_tip (cs_dag state) = rd_ordered_dag_tip d /\
    d_ordered_dag_state_root (cs_dag state) = Some (rd_state_root d) /\
    d_ordered_dag_conflict_diagnostics (cs_dag state) = rd_conflict_diagnostics d.
Proof.
  unfold verify_authoritative_state_snapshot_v3, nondeterministic, of_pulse.
  destruct (rebuild_authoritative_state_v3 state segments) as [r|] eqn:Hr; [|done].
  destruct (compute_state_root (cs_utxo state)) as [root|] eqn:Hroot; [|done]. cbn [map_err].
  intros. inv_ok. bool_props. exists r. split_and!; congruence.
Qed.

(** The claims of the live settlement that are spendable are those of the mature
    prefix. *)
Lemma live_settlement_claims state segments policy snap :
  Forall segment_typed segments -> validate_cadence_segments segments = Ok () ->
  validate_live_reward_settlement_v3 state segments policy = Ok snap ->
  exists m, mature_reward_prefix_score_v3 (rs_current_monetary_score snap) segments = Ok m /\
    (forall c, c ∈ rs_claims snap -> rc_status c = Spendable <-> rc_monetary_score c <= m) /\
    is_ok (verify_authoritative_state_snapshot_v3 state segments) = true /\
    exists od, derive_ordered_dag_v2 state = Ok od /\
      rs_current_monetary_score snap = Z.of_nat (length (od_blocks od)) - 1.
Proof.
  intros Ht Hv. unfold validate_live_reward_settlement_v3. destruct (negb _); [done|].
  destruct (verify_authoritative_state_snapshot_v3 state segments) as [d|]; [|done]. cbn [map_err].
  destruct (derive_live_reward_finality_boundary_v3 state segments policy) as [b|] eqn:Hb; [|done].
  unfold derive_live_reward_finality_boundary_v3 in Hb. inv_ok.
  repeat match goal with Hx : map_err _ _ = Ok _ |- _ => apply map_err_Ok in Hx end.
  intros Hs%map_err_Ok. pose proof (snapshot_spec state segments policy (Some b) Ht) as Hsnap.
  rewrite Hs in Hsnap. destruct Hsnap as [od Hso].
  pose proof (so_ordered _ _ _ _ _ Hso) as Hod. rewrite Hok in Hod. injection Hod as <-.
  destruct (bind_validate _ _ _ _ Hb) as [_ Hfin].
  assert (Hne : od_blocks a <> []) by (intros E; pose proof (so_genesis _ _ _ _ _ Hso) as Hg; by rewrite E in Hg).
  destruct (length_scored (od_blocks a) Hne) as [Hlen Htip].
  assert (Hcur : rs_current_monetary_score snap = score_of_tip (od_blocks a)).
  { rewrite Htip. apply (so_score _ _ _ _ _ Hso). }
  rewrite Hcur. exists a1. split; [done|]. split; [|split; [done|by exists a]]. intros c (j & Hj)%list_elem_of_lookup.
  destruct (Forall2_lookup_r _ _ _ _ _ (so_claims _ _ _ _ _ Hso) Hj) as ([score h] & Hp & Hc).
  destruct (mature_prefix_spec segments _ Ht Hv H2) as (m & Em & Hm & Sm). rewrite Em in Hok1. injection Hok1 as ->.
  apply list_elem_of_split_length in Hp as (pre & post & Hsplit & Hj').
  destruct (scored_blocks_prefix _ _ _ _ _ Hsplit) as [Hscore _].
  assert (Hrange : 1 <= score <= score_of_tip (od_blocks a)).
  { rewrite Hsplit, length_app in Hlen. cbn in Hlen. lia. }
  pose proof (sc_mature _ _ _ _ _ _ _ Hc) as Hmat. cbn in Hmat. rewrite Hcur, (Sm score Hrange) in Hmat.
  injection Hmat as Hmat. rewrite (sc_status _ _ _ _ _ _ _ Hc), (sc_final _ _ _ _ _ _ _ Hc), <- Hmat, Z.leb_le.
  rewrite (sc_score _ _ _ _ _ _ _ Hc). cbn. rewrite Hfin. split; [naive_solver|]. intros. split; [eauto|done].
Qed.
End live.

(** C28: a verified live state.  When [validate_live_reward_settlement_v3] accepts a
    state, everything it records is what the replay produces: ordering version,
    ordered DAG and its tip, conflict diagnostics and state root, which is also the
    root of its own unspent outputs; and exactly the claims up to the greatest
    mature score are spendable.  Unless SHA-256 collides on
    the two sets of unspent outputs they are equal, so the live outputs too are at
    most the scheduled supply of the mature prefix. *)
Theorem live_settlement_verified `{HashOrder, Crypto, !CryptoLaws} state segments policy snap :
  Forall segment_typed segments -> validate_cadence_segments segments = Ok () -> fees_typed state ->
  Z.of_nat (size (d_blocks (cs_dag state))) <= u64_max ->
  validate_live_reward_settlement_v3 state segments policy = Ok snap ->
  exists r m, rebuild_authoritative_state_v3 state segments = Ok r /\
    mature_reward_prefix_score_v3 (rs_current_monetary_score snap) segments = Ok m /\
    (forall c, c ∈ rs_claims snap -> rc_status c = Spendable <-> rc_monetary_score c <= m) /\
    d_ordering_version (cs_dag state) = od_ordering_version (sr_ordered_dag r) /\
    d_ordered_dag (cs_dag state) = od_blocks (sr_ordered_dag r) /\
    d_ordered_dag_tip (cs_dag state) = rd_ordered_dag_tip (sr_diagnostics r) /\
    d_ordered_dag_conflict_diagnostics (cs_dag state) = rd_conflict_diagnostics (sr_diagnostics r) /\
    d_ordered_dag_state_root (cs_dag state) = Some (rd_state_root (sr_diagnostics r)) /\
    compute_state_root (cs_utxo state) = Ok (rd_state_root (sr_diagnostics r)) /\
    compute_state_root (sr_utxo r) = Ok (rd_state_root (sr_diagnostics r)) /\
    forall b1 b2, utxos_typed (cs_utxo state) -> utxos_typed (sr_utxo r) ->
      Z.of_nat (size (u_utxos (cs_utxo state))) <= u64_max ->
      Z.of_nat (size (u_utxos (sr_utxo r))) <= u64_max ->
      utxo_state_root_bytes (cs_utxo state) = Some b1 -> utxo_state_root_bytes (sr_utxo r) = Some b2 ->
      collision_free [b1; b2] ->
      u_utxos (cs_utxo state) = u_utxos (sr_utxo r) /\
      exists scheduled, total_supply_atoms_for_score m segments = Ok scheduled /\
        total_amount (u_utxos (cs_utxo state)) <= scheduled.
Proof.
  intros Ht Hv Hf Hsz Hl. destruct (live_settlement_claims _ _ _ _ Ht Hv Hl) as (m & Hm & Hcl & Hver & od & Hod' & Hcur).
  destruct (verify_authoritative_state_snapshot_v3 state segments) as [d|] eqn:Hd; [|done].
  destruct (verify_snapshot_Ok _ _ _ Hd) as (r & Hr & <- & Hroot & Hver' & Hord & Htip & Hrec & Hdiag).
  destruct (rebuild_spec _ _ _ Ht Hv Hf Hsz Hr) as (Hod & Hrb & Hroot').
  exists r, m. split_and!; try done.
  intros b1 b2 T1 T2 S1 S2 B1 B2 Hcf.
  assert (E : u_utxos (cs_utxo state) = u_utxos (sr_utxo r)) by (by eapply same_root_same_utxos).
  split; [done|]. rewrite E. destruct (rb_supply _ _ _ _ _ Hrb) as (sch & Hsch & _ & Hle & _).
  rewrite Hod in Hod'. injection Hod' as <-. pose proof (rb_prefix _ _ _ _ _ Hrb) as Hpre.
  rewrite <- Hcur, Hm in Hpre. injection Hpre as ->. by exists sch.
Qed.

(** ** Witnesses *)

#[local] Existing Instance list_order | 0.
#[local] Existing Instance model_crypto | 0.

Definition owner_key : bytes := replicate 32 Byte.x01.
Definition owner_key_hex : string := hex_encode owner_key.
Definition owner : Address := address_from_public_key owner_key_hex.
Definition owner_claim (nonce : Z) : Transaction :=
  default (mkTransaction "" 0 [] [] 0 0)
    (result_ok (build_reward_claim_transaction_v3 owner nonce "test")).
Definition first_reward : Z := default 0 (result_ok (subsidy_atoms_for_score 1 hourly_cadence)).
Definition reward_of (block_hash : Hash) (claim : Transaction) : OutPoint :=
  default (mkOutPoint "" 0) (result_ok (settlement_outpoint_v3 "test" block_hash (tx_txid claim))).
(** A transfer of the first reward, with a fee of 7, signed by the owner. *)
Definition unsigned_transfer (signature : string) : Transaction :=
  mkTransaction "" 2 [mkTxInput (reward_of "a" (owner_claim 1)) owner_key_hex signature]
    [mkTxOutput "bob" (first_reward - 7)] 7 1.
Definition transfer_signature : string :=
  hex_encode (model_digest (owner_key ++
    default [] (result_ok (signing_message_v2 (unsigned_transfer "") "test"))) ++ owner_key).
Definition signed_transfer : Transaction :=
  let tx := unsigned_transfer transfer_signature in
  mkTransaction (default "" (result_ok (compute_txid_v2 tx "test"))) (tx_version tx) (tx_inputs tx)
    (tx_outputs tx) (tx_fee tx) (tx_nonce tx).

(** The transfer is in [c], where the reward of [a] is mature, and repeated in [d],
    where it is a conflict. *)
Definition v3_genesis : Block :=
  default (rewarded_block "" "" 0 []) (result_ok (genesis_block_v3 "test" 5)).
Definition v3_chain : ChainState :=
  let g := b_hash v3_genesis in
  blank_state <| cs_dag := (cs_dag blank_state)
    <| d_blocks := {[ g := v3_genesis;
                      "a" := rewarded_block "a" g 1 [owner_claim 1];
                      "b" := rewarded_block "b" "a" 2 [owner_claim 2];
                      "c" := rewarded_block "c" "b" 3 [owner_claim 3; signed_transfer];
                      "d" := rewarded_block "d" "c" 4 [owner_claim 4; signed_transfer] ]} |>
    <| d_genesis_hash := g |>
    <| d_selected_chain := [g; "a"; "b"; "c"; "d"] |>
    <| d_selected_parents := {[ g := None; "a" := Some g; "b" := Some "a"; "c" := Some "b"; "d" := Some "c" ]} |>
    <| d_merge_set_blues := {[ g := []; "a" := []; "b" := []; "c" := []; "d" := [] ]} |>
    <| d_merge_set_reds := {[ g := []; "a" := []; "b" := []; "c" := []; "d" := [] ]} |>
    <| d_blue_work := {[ g := 1; "a" := 2; "b" := 3; "c" := 4; "d" := 5 ]} |> |>.

(** The transfer is applied once and its fee is paid with the reward of [c]. *)
Example v3_chain_replay :
  (fun r => (rd_applied_transactions (sr_diagnostics r), rd_skipped_conflicting_transactions (sr_diagnostics r),
             rd_materialized_rewards (sr_diagnostics r), sr_eligible_fees_by_score r)) <$>
  result_ok (rebuild_authoritative_state_v3 v3_chain hourly_cadence) = Some (1, 1, 3, [0; 0; 0; 7; 0]).
Proof. by_compute. Qed.

Lemma replay_conserves_supply_witness :
  exists r, rebuild_authoritative_state_v3 v3_chain hourly_cadence = Ok r /\
    rebuilt_ok hourly_cadence (Z.of_nat (length (od_blocks (sr_ordered_dag r))) - 1)
      (rd_mature_reward_prefix_score (sr_diagnostics r)) (sr_utxo r) (sr_eligible_fees_by_score r).
Proof.
  assert (Hok : is_ok (rebuild_authoritative_state_v3 v3_chain hourly_cadence) = true) by by_compute.
  destruct (rebuild_authoritative_state_v3 v3_chain hourly_cadence) as [r|] eqn:Hr; [|discriminate Hok].
  exists r. split; [reflexivity|].
  apply (replay_conserves_supply v3_chain hourly_cadence r); [by_decide|by_compute| |by_decide|exact Hr].
  apply map_Forall_to_list. by_decide.
Defined.
Lemma mature_reward_prefix_score_exact_witness :
  exists m, mature_reward_prefix_score_v3 4 hourly_cadence = Ok m /\ m = 3.
Proof.
  destruct (mature_reward_prefix_score_exact 4 hourly_cadence) as (m & Hm & _ & _);
    [by_decide|by_compute|by_decide|].
  exists m. split; [exact Hm|].
  assert (E : mature_reward_prefix_score_v3 4 hourly_cadence = Ok 3) by by_compute. congruence.
Defined.

(** The same chain with its unspent outputs and order materialized. *)
Definition v3_live : ChainState :=
  default v3_chain (result_ok (materialize_authoritative_state_v3 v3_chain hourly_cadence)).
Lemma live_settlement_verified_witness :
  exists snap m, validate_live_reward_settlement_v3 v3_live hourly_cadence REWARD_FINALITY_POLICY_VERSION_V3
      = Ok snap /\
    forall c, c ∈ rs_claims snap -> rc_status c = Spendable <-> rc_monetary_score c <= m.
Proof.
  assert (Hok : is_ok (validate_live_reward_settlement_v3 v3_live hourly_cadence
    REWARD_FINALITY_POLICY_VERSION_V3) = true) by by_compute.
  destruct (validate_live_reward_settlement_v3 v3_live hourly_cadence REWARD_FINALITY_POLICY_VERSION_V3)
    as [snap|] eqn:Hl; [|discriminate Hok].
  destruct (@live_settlement_verified list_order model_crypto model_crypto_laws v3_live hourly_cadence
    REWARD_FINALITY_POLICY_VERSION_V3 snap)
    as (r & m & _ & _ & Hc & _); [by_decide|by_compute| |by_decide|exact Hl|].
  - apply map_Forall_to_list. by_decide.
  - exists snap, m. split; [reflexivity|exact Hc].
Defined.
