(* ===== verification/ReplayV2.v ===== *)
(** * Authoritative replay, version 2 ([state_replay_v2.rs])

    The unspent outputs of a version-2 chain are rebuilt from the ordered DAG.  A
    transaction that conflicts with an earlier one is skipped as a whole: the code
    applies it to a copy of the working state and keeps the copy only when it
    succeeds.  A snapshot is checked against that replay; one whose history was
    pruned is checked against the blocks it retains.

    [Err None] is a panic.  A [Snapshot2Reason] is the error
    [NonDeterministicState] whose message prints the reason, and
    [OrderUnavailable] the error [Internal] that prints the ordering error. *)

From stdpp Require Import pretty.
From S2P Require Import Prelude Encoding Crypto Types Merkle State Tx Graph Selection Ghostdag.
From S2P Require Import Ordering Mining Genesis Apply Text OrderingV2 Headers Protocol AcceptanceV2.
From S2P Require Import GenesisV3.

Inductive Snapshot2Reason :=
| ReplayGenesisMissing
| TransactionlessGenesisVersion (version : Z)
| ZeroAllocationGenesisMismatch (expected rebuilt : Hash)
| MixedTransactionVersions
| GenesisV2Mismatch (expected rebuilt : Hash)
| MixedGenesisVersions (header_version transaction_version : Z)
| CheckpointOrderingVersion (version : string)
| CheckpointMissingParent (block_hash : Hash) (height : Z) (parent : Hash) (retained_floor : Z)
| CheckpointOrderUnavailable (e : OrderingV2Error)
| CheckpointOrderedDag
| CheckpointOrderedDagTip
| CheckpointStateRoot
| DiagnosticWithoutBlock
| DiagnosticUnknownBlock (block_hash : text)
| SnapshotOrderingVersion (version : string)
| SnapshotOrderedDag
| SnapshotOrderedDagTip
| SnapshotRecordedRoot
| SnapshotUtxoRoot
| SnapshotDiagnostics.
Inductive Replay2Error :=
| Replay2Pulse (e : PulseError)
| OrderUnavailable (e : OrderingV2Error)
| OrderedBlockMissing (hash : Hash)
| InvalidSnapshot (r : Snapshot2Reason).
Abbreviation replay2 := (result (option Replay2Error)).
Definition invalid_snapshot {A} (r : Snapshot2Reason) : replay2 A := Err (Some (InvalidSnapshot r)).
Definition replay2_pulse {A} (r : outcome A) : replay2 A := map_err (option_map Replay2Pulse) r.

Record StateReplayV2Diagnostics := mkStateReplayV2Diagnostics {
  r2_applied_transactions : Z;
  r2_skipped_conflicting_transactions : Z;
  r2_conflict_diagnostics : list string;
  r2_state_root : string;
  r2_ordered_dag_tip : option Hash;
  r2_ordered_dag_digest : string;
}.
Record StateReplayV2 := mkStateReplayV2 {
  r2_utxo : UtxoState;
  r2_ordered_dag : OrderedDagV2;
  r2_diagnostics : StateReplayV2Diagnostics;
}.

(** ** Replay *)

(** The working state of the replay loop: [rebuilt] and the three counters. *)
Record Replay2State := mkReplay2State {
  rw_rebuilt : ChainState;
  rw_applied : Z;
  rw_skipped : Z;
  rw_diagnostics : list string;
}.

Definition replay2_transaction (ordered_pos : nat) (block : Block) (w : Replay2State) (tx : Transaction)
  : replay2 Replay2State :=
  match apply_transaction tx (rw_rebuilt w) (h_height (b_header block)) with
  | (Ok _, candidate) =>
      Ok (mkReplay2State candidate (saturating_add 64 (rw_applied w) 1) (rw_skipped w) (rw_diagnostics w))
  | (Err UtxoNotFound, _) | (Err (DuplicateUtxoOutpoint _), _) =>
      Ok (mkReplay2State (rw_rebuilt w) (rw_applied w) (saturating_add 64 (rw_skipped w) 1)
            (rw_diagnostics w ++
               ["ordered_pos=" +:+ pretty (Z.of_nat ordered_pos) +:+ " block=" +:+ b_hash block
                +:+ " tx=" +:+ tx_txid tx +:+ " skipped_conflict_atomic"]))
  | (Err e, _) => Err (Some (Replay2Pulse e))
  end.
Definition replay2_block (state : ChainState) (w : Replay2State) (p : nat * Hash) : replay2 Replay2State :=
  let '(ordered_pos, hash) := p in
  if bool_decide (hash = d_genesis_hash (cs_dag state)) then Ok w else
  let? block := ok_or (d_blocks (cs_dag state) !! hash) (Some (OrderedBlockMissing hash)) in
  try_fold (replay2_transaction ordered_pos block) w (b_transactions block).

Section replay_v2.
Context `{HashOrder, Crypto}.

Definition replay_base_state_for_genesis (state : ChainState) : replay2 ChainState :=
  let dag := cs_dag state in
  let? genesis := ok_or (d_blocks dag !! d_genesis_hash dag) (Some (InvalidSnapshot ReplayGenesisMissing)) in
  match b_transactions genesis with
  | [] =>
      if negb (h_version (b_header genesis) =? BLOCK_HEADER_VERSION_V2)
      then invalid_snapshot (TransactionlessGenesisVersion (h_version (b_header genesis))) else
      let? rebuilt := replay2_pulse (init_chain_state_v3 (cs_chain_id state) (h_timestamp (b_header genesis))) in
      if negb (bool_decide (d_genesis_hash (cs_dag rebuilt) = d_genesis_hash dag))
      then invalid_snapshot (ZeroAllocationGenesisMismatch (d_genesis_hash dag) (d_genesis_hash (cs_dag rebuilt)))
      else Ok rebuilt
  | first_tx :: _ =>
      if existsb (fun tx => negb (tx_version tx =? tx_version first_tx)) (b_transactions genesis)
      then invalid_snapshot MixedTransactionVersions else
      let header_version := h_version (b_header genesis) in
      if (header_version =? BLOCK_HEADER_VERSION_V1) && (tx_version first_tx =? TRANSACTION_VERSION_V1)
      then replay2_pulse (init_chain_state (cs_chain_id state))
      else if (header_version =? BLOCK_HEADER_VERSION_V2) && (tx_version first_tx =? TRANSACTION_VERSION_V2) then
        let? rebuilt := replay2_pulse (init_chain_state_v2 (cs_chain_id state)) in
        if negb (bool_decide (d_genesis_hash (cs_dag rebuilt) = d_genesis_hash dag))
        then invalid_snapshot (GenesisV2Mismatch (d_genesis_hash dag) (d_genesis_hash (cs_dag rebuilt)))
        else Ok rebuilt
      else invalid_snapshot (MixedGenesisVersions header_version (tx_version first_tx))
  end.

Definition rebuild_authoritative_state_v2 (state : ChainState) : replay2 StateReplayV2 :=
  let? ordered_dag := map_err (option_map OrderUnavailable) (derive_ordered_dag_v2 state) in
  let? rebuilt := replay_base_state_for_genesis state in
  let rebuilt := rebuilt <| cs_dag ::= fun dag => dag
                    <| d_consensus_mode := d_consensus_mode (cs_dag state) |>
                    <| d_selected_parent_policy := d_selected_parent_policy (cs_dag state) |> |> in
  let? w := try_fold (replay2_block state) (mkReplay2State rebuilt 0 0 [])
              (imap pair (od_blocks ordered_dag)) in
  let? state_root := replay2_pulse (compute_state_root (cs_utxo (rw_rebuilt w))) in
  Ok (mkStateReplayV2 (cs_utxo (rw_rebuilt w)) ordered_dag
        (mkStateReplayV2Diagnostics (rw_applied w) (rw_skipped w) (rw_diagnostics w) state_root
           (last (od_blocks ordered_dag)) (od_digest ordered_dag))).

(** ** Snapshots *)

Definition materialize_authoritative_state_v2 (state : ChainState) : replay2 ChainState :=
  let? r := rebuild_authoritative_state_v2 state in
  Ok (state
    <| cs_utxo := r2_utxo r |>
    <| cs_dag ::= fun dag => dag
       <| d_ordered_dag := od_blocks (r2_ordered_dag r) |>
       <| d_ordering_version := GHOSTDAG_V1_ORDERING_VERSION |>
       <| d_ordered_dag_tip := r2_ordered_dag_tip (r2_diagnostics r) |>
       <| d_ordered_dag_state_root := Some (r2_state_root (r2_diagnostics r)) |>
       <| d_ordered_dag_conflict_diagnostics := r2_conflict_diagnostics (r2_diagnostics r) |> |>).

(** [blocks.values().map(|b| b.header.height).min()]. *)
Definition compact_pruned_checkpoint_floor (state : ChainState) : option Z :=
  let blocks := d_blocks (cs_dag state) in
  if bool_decide (blocks = ∅) || bool_decide (is_Some (blocks !! d_genesis_hash (cs_dag state))) then None else
  match map (fun p : Hash * Block => h_height (b_header p.2)) (map_iter blocks) with
  | [] => None
  | h :: heights =>
      let retained_floor := foldl Z.min h heights in
      if 0 <? retained_floor then Some retained_floor else None
  end.

Definition conflict_diagnostic_block_hash (entry : string) : option text :=
  head (omap (strip_prefix (lit "block=")) (split_whitespace (utf8_chars (str_bytes entry)))).
(** [blocks.contains_key(h)] for a key given as text. *)
Definition contains_text_key (blocks : gmap Hash Block) (h : text) : bool :=
  existsb (fun p => bool_decide (utf8_chars (str_bytes p.1) = h)) (map_to_list blocks).

Definition check_retained_parents (state : ChainState) (retained_floor : Z) : replay2 unit :=
  let blocks := d_blocks (cs_dag state) in
  try_fold (fun (_ : unit) (p : Hash * Block) =>
      let block := p.2 in
      try_fold (fun (_ : unit) parent =>
          if bool_decide (is_Some (blocks !! parent)) then Ok tt
          else if negb (h_height (b_header block) =? retained_floor)
          then invalid_snapshot (CheckpointMissingParent (b_hash block) (h_height (b_header block)) parent retained_floor)
          else Ok tt) tt (h_parents (b_header block))) tt (map_iter blocks).
Definition check_diagnostics (state : ChainState) : replay2 unit :=
  try_fold (fun (_ : unit) entry =>
      match conflict_diagnostic_block_hash entry with
      | None => invalid_snapshot DiagnosticWithoutBlock
      | Some h => if contains_text_key (d_blocks (cs_dag state)) h then Ok tt
                  else invalid_snapshot (DiagnosticUnknownBlock h)
      end) tt (d_ordered_dag_conflict_diagnostics (cs_dag state)).

Definition verify_compact_pruned_authoritative_checkpoint_v2 (state : ChainState) (retained_floor : Z)
  : replay2 StateReplayV2Diagnostics :=
  let dag := cs_dag state in
  if negb (bool_decide (d_ordering_version dag = GHOSTDAG_V1_ORDERING_VERSION))
  then invalid_snapshot (CheckpointOrderingVersion (d_ordering_version dag)) else
  check check_retained_parents state retained_floor in
  let? ordered_dag := map_err (option_map (fun e => InvalidSnapshot (CheckpointOrderUnavailable e)))
                        (derive_ordered_dag_v2 state) in
  if negb (bool_decide (d_ordered_dag dag = od_blocks ordered_dag))
  then invalid_snapshot CheckpointOrderedDag else
  let ordered_dag_tip := last (od_blocks ordered_dag) in
  if negb (bool_decide (d_ordered_dag_tip dag = ordered_dag_tip))
  then invalid_snapshot CheckpointOrderedDagTip else
  let? observed_state_root := replay2_pulse (compute_state_root (cs_utxo state)) in
  if negb (bool_decide (d_ordered_dag_state_root dag = Some observed_state_root))
  then invalid_snapshot CheckpointStateRoot else
  check check_diagnostics state in
  Ok (mkStateReplayV2Diagnostics 0 (Z.of_nat (length (d_ordered_dag_conflict_diagnostics dag)))
        (d_ordered_dag_conflict_diagnostics dag) observed_state_root ordered_dag_tip (od_digest ordered_dag)).

Definition verify_authoritative_state_snapshot_v2 (state : ChainState) : replay2 StateReplayV2Diagnostics :=
  match compact_pruned_checkpoint_floor state with
  | Some retained_floor => verify_compact_pruned_authoritative_checkpoint_v2 state retained_floor
  | None =>
      let dag := cs_dag state in
      let? r := rebuild_authoritative_state_v2 state in
      let d := r2_diagnostics r in
      let? observed_state_root := replay2_pulse (compute_state_root (cs_utxo state)) in
      if negb (bool_decide (d_ordering_version dag = GHOSTDAG_V1_ORDERING_VERSION))
      then invalid_snapshot (SnapshotOrderingVersion (d_ordering_version dag)) else
      if negb (bool_decide (d_ordered_dag dag = od_blocks (r2_ordered_dag r)))
      then invalid_snapshot SnapshotOrderedDag else
      if negb (bool_decide (d_ordered_dag_tip dag = r2_ordered_dag_tip d))
      then invalid_snapshot SnapshotOrderedDagTip else
      if negb (bool_decide (d_ordered_dag_state_root dag = Some (r2_state_root d)))
      then invalid_snapshot SnapshotRecordedRoot else
      if negb (bool_decide (observed_state_root = r2_state_root d))
      then invalid_snapshot SnapshotUtxoRoot else
      if negb (bool_decide (d_ordered_dag_conflict_diagnostics dag = r2_conflict_diagnostics d))
      then invalid_snapshot SnapshotDiagnostics
      else Ok d
  end.
End replay_v2.
