(* ===== verification/AcceptanceV2Props.v ===== *)
(** * The activated-v2 metadata invariant

    What committing GHOSTDAG v1 metadata keeps true of a state that started from a
    clean genesis, and what it gives: the commit fails only in its checks, the
    classification of the selected chain partitions the past of the selected tip,
    and the v2 order exists exactly when that past is the whole DAG. *)

From S2P Require Import Prelude Encoding Crypto Types Merkle State Tx Graph Pow Selection Retarget.
From S2P Require Import Ghostdag Ordering OrderingV2 SelectionV2 GhostdagV1 GhostdagV1Props Mining Genesis Apply.
From S2P Require Import Validation ValidationProps DagInvariant Commit CommitProps Headers Protocol AcceptanceV2.
From S2P Require Import GenesisV3 OrderingV2Props.

(** ** The invariant *)

(** The blues and reds recorded for a block. *)
Definition merge_members (state : ChainState) (h : Hash) : list Hash :=
  default [] (d_merge_set_blues (cs_dag state) !! h) ++ default [] (d_merge_set_reds (cs_dag state) !! h).

(** The metadata of a block with selected parent [sp]. *)
Record block_metadata (state : ChainState) (h : Hash) (b : Block) (sp : Hash) : Prop := {
  bm_parent : d_selected_parents (cs_dag state) !! h = Some (Some sp);
  bm_among : sp ∈ h_parents (b_header b);
  bm_blues_some : is_Some (d_merge_set_blues (cs_dag state) !! h);
  bm_reds_some : is_Some (d_merge_set_reds (cs_dag state) !! h);
  bm_nodup : NoDup (merge_members state h);
  (** blues and reds are what the parents add to the past of the selected one *)
  bm_members : forall x, x ∈ merge_members state h <->
    (exists p, p ∈ h_parents (b_header b) /\ ancestor state p x) /\ ~ ancestor state sp x;
  (** work grows by one and one per blue *)
  bm_work : exists w wp, d_blue_work (cs_dag state) !! h = Some w /\ d_blue_work (cs_dag state) !! sp = Some wp /\
    w = Z.min (wp + 1 + Z.of_nat (length (default [] (d_merge_set_blues (cs_dag state) !! h)))) u128_max;
}.

(** The metadata but for the selected chain. *)
Record v2_metadata (state : ChainState) : Prop := {
  vo_keyed : keyed_blocks state;
  (** genesis has no parents and empty metadata *)
  vo_genesis : exists g, d_blocks (cs_dag state) !! d_genesis_hash (cs_dag state) = Some g /\
    h_parents (b_header g) = [] /\
    d_selected_parents (cs_dag state) !! d_genesis_hash (cs_dag state) = Some None /\
    d_merge_set_blues (cs_dag state) !! d_genesis_hash (cs_dag state) = Some [] /\
    d_merge_set_reds (cs_dag state) !! d_genesis_hash (cs_dag state) = Some [] /\
    is_Some (d_blue_work (cs_dag state) !! d_genesis_hash (cs_dag state));
  (** every other block has its metadata *)
  vo_metadata : forall h b, d_blocks (cs_dag state) !! h = Some b -> h <> d_genesis_hash (cs_dag state) ->
    exists sp, block_metadata state h b sp;
  (** parents are stored, and the graph is acyclic *)
  vo_rank : exists rank : Hash -> nat,
    (forall h, is_Some (d_blocks (cs_dag state) !! h) -> (rank h < size (d_blocks (cs_dag state)))%nat) /\
    forall h b p, d_blocks (cs_dag state) !! h = Some b -> p ∈ h_parents (b_header b) ->
      is_Some (d_blocks (cs_dag state) !! p) /\ (rank p < rank h)%nat;
  (** the tips are the stored blocks without children *)
  vo_tips : forall h, h ∈ d_tips (cs_dag state) <->
    is_Some (d_blocks (cs_dag state) !! h) /\
    forall h' b', d_blocks (cs_dag state) !! h' = Some b' -> h ∉ h_parents (b_header b');
}.
Record v2_ok (state : ChainState) : Prop := {
  vo_meta : v2_metadata state;
  (** the selected chain is the one of the tip with the greatest work *)
  vo_chain : exists tip, best_scored state (elements (d_tips (cs_dag state))) tip /\
    rebuild_selected_chain_v1 state (Some tip) = Some (Ok (d_selected_chain (cs_dag state)));
}.

(** ** Ancestors and new blocks *)

Definition parents_stored (state : ChainState) : Prop :=
  forall h b p, d_blocks (cs_dag state) !! h = Some b -> p ∈ h_parents (b_header b) ->
    is_Some (d_blocks (cs_dag state) !! p).

Lemma v2_parents_stored state : v2_metadata state -> parents_stored state.
Proof. intros Hok h b p Hb Hp. destruct (vo_rank _ Hok) as (rank & _ & Hr). by eapply Hr. Qed.

Lemma edge_parent state d p :
  edge (parents_of state) d p <->
  exists b, d_blocks (cs_dag state) !! d = Some b /\ p ∈ h_parents (b_header b).
Proof. unfold edge, parents_of. destruct (d_blocks (cs_dag state) !! d); set_solver. Qed.

Lemma ancestor_stored state h k :
  parents_stored state -> is_Some (d_blocks (cs_dag state) !! h) -> ancestor state h k ->
  is_Some (d_blocks (cs_dag state) !! k).
Proof.
  intros Hst Hh Hr. unfold ancestor, reach in Hr. induction Hr as [|x y z He Hr IH]; [done|].
  apply IH. apply edge_parent in He as (b & Hb & Hp). by eapply Hst.
Qed.

Lemma ancestor_inv state h b k :
  d_blocks (cs_dag state) !! h = Some b ->
  ancestor state h k <-> k = h \/ exists p, p ∈ h_parents (b_header b) /\ ancestor state p k.
Proof.
  intros Hb. split.
  - intros Hr. unfold ancestor, reach in Hr. inversion Hr as [|? y ? He Hr']; subst; [by left|right].
    apply edge_parent in He as (b' & Hb' & Hp). simplify_eq. by exists y.
  - intros [->|(p & Hp & Hk)]; [apply rtc_refl|by eapply ancestor_step].
Qed.

Lemma ancestor_rank state (rank : Hash -> nat) h k :
  (forall h b p, d_blocks (cs_dag state) !! h = Some b -> p ∈ h_parents (b_header b) ->
     is_Some (d_blocks (cs_dag state) !! p) /\ (rank p < rank h)%nat) ->
  ancestor state h k -> (rank k <= rank h)%nat.
Proof.
  intros Hrank Hr. unfold ancestor, reach in Hr. induction Hr as [|x y z He Hr IH]; [lia|].
  apply edge_parent in He as (b & Hb & Hp). destruct (Hrank x b y Hb Hp). lia.
Qed.

(** A new block does not change the past of the others. *)
Section insert.
Context (state state' : ChainState) (hash : Hash) (block : Block).
Hypothesis Hblocks : d_blocks (cs_dag state') = <[hash := block]> (d_blocks (cs_dag state)).
Hypothesis Hnew : d_blocks (cs_dag state) !! hash = None.
Hypothesis Hstored : parents_stored state.

Lemma ancestor_insert h k :
  is_Some (d_blocks (cs_dag state) !! h) -> ancestor state' h k <-> ancestor state h k.
Proof.
  intros Hh. unfold ancestor, reach. split; intros Hr; induction Hr as [|x y z He Hr IH]; try apply rtc_refl.
  - apply edge_parent in He as (b & Hb & Hp). rewrite Hblocks in Hb.
    assert (Hb' : d_blocks (cs_dag state) !! x = Some b).
    { rewrite lookup_insert_ne in Hb; [done|]. intros <-. rewrite Hnew in Hh. by destruct Hh. }
    eapply rtc_l; [apply edge_parent; eauto|]. apply IH. by eapply Hstored.
  - apply edge_parent in He as (b & Hb & Hp).
    eapply rtc_l; [apply edge_parent; exists b; split; [|exact Hp]|apply IH; by eapply Hstored].
    rewrite Hblocks, lookup_insert_ne; [done|]. intros <-. congruence.
Qed.

Lemma score_of_insert h :
  h <> hash -> d_blue_work (cs_dag state') !! h = d_blue_work (cs_dag state) !! h ->
  score_of state' h = score_of state h.
Proof. intros Hne Hw. unfold score_of. by rewrite Hblocks, lookup_insert_ne, Hw by done. Qed.
End insert.

(** ** Selected chains *)

(** The chain of selected parents of a block, genesis first. *)
Inductive selected_path (state : ChainState) : Hash -> list Hash -> Prop :=
| path_root h : d_selected_parents (cs_dag state) !! h = Some None -> selected_path state h [h]
| path_step h p l : d_selected_parents (cs_dag state) !! h = Some (Some p) -> selected_path state p l ->
    selected_path state h (l ++ [h]).

Lemma selected_path_exists state h :
  v2_metadata state -> is_Some (d_blocks (cs_dag state) !! h) -> exists l, selected_path state h l.
Proof.
  intros Hok. destruct (vo_rank _ Hok) as (rank & _ & Hrank).
  remember (rank h) as n eqn:Hn. revert h Hn. induction n as [n IH] using lt_wf_ind. intros h -> [b Hb].
  destruct (decide (h = d_genesis_hash (cs_dag state))) as [->|Hne].
  - destruct (vo_genesis _ Hok) as (g & _ & _ & Hg & _). exists [d_genesis_hash (cs_dag state)]. by constructor.
  - destruct (vo_metadata _ Hok h b Hb Hne) as (sp & Hm).
    destruct (Hrank h b sp Hb (bm_among _ _ _ _ Hm)) as [Hst Hlt].
    destruct (IH (rank sp) Hlt sp eq_refl Hst) as [l Hl]. exists (l ++ [h]).
    eapply path_step; [apply Hm|done].
Qed.

Lemma selected_path_last state h l : selected_path state h l -> last l = Some h.
Proof. intros [|]; [done|]. by rewrite last_snoc. Qed.

(** The strict walk follows the path. *)
Lemma chain_v1_loop_path state h l fuel seen acc :
  selected_path state h l -> (forall x, x ∈ l -> x ∉ seen /\ is_Some (d_blocks (cs_dag state) !! x)) ->
  NoDup l -> (length l < fuel)%nat ->
  chain_v1_loop state fuel (Some h) seen acc = Some (Ok (acc ++ reverse l)).
Proof.
  intros Hp. revert fuel seen acc. induction Hp as [h Hh|h p l Hh Hp IH]; intros fuel seen acc Hl Hnd Hf.
  - destruct fuel as [|[|fuel]]; [simpl in Hf; lia..|].
    destruct (Hl h ltac:(left)) as [Hs [b Hb]]. cbn [chain_v1_loop].
    rewrite bool_decide_eq_false_2 by done. rewrite bool_decide_eq_false_2 by congruence. by rewrite Hh.
  - rewrite length_app in Hf. simpl in Hf. destruct fuel as [|fuel]; [lia|].
    destruct (Hl h ltac:(set_solver)) as [Hs [b Hb]]. cbn [chain_v1_loop].
    rewrite bool_decide_eq_false_2 by done. rewrite bool_decide_eq_false_2 by congruence. rewrite Hh.
    apply NoDup_app in Hnd as (Hnd & Hdis & _). rewrite IH; [|  |done|lia].
    + by rewrite reverse_snoc, <- app_assoc.
    + intros x Hx. destruct (Hl x ltac:(set_solver)) as [Hxs ?]. split; [|done].
      specialize (Hdis x Hx). set_solver.
Qed.

(** *** The past of a path

    The path and the merge sets of its blocks are the past of its end, without
    overlap. *)
Record path_partition (state : ChainState) (h : Hash) (l : list Hash) : Prop := {
  pp_past : forall x, ancestor state h x <-> x ∈ l \/ exists a, a ∈ l /\ x ∈ merge_members state a;
  pp_nodup : NoDup l;
  pp_apart : forall a x, a ∈ l -> x ∈ merge_members state a -> x ∉ l;
  pp_disjoint : forall i j a b x, l !! i = Some a -> l !! j = Some b ->
    x ∈ merge_members state a -> x ∈ merge_members state b -> i = j;
}.

Lemma path_partition_ok state h l :
  v2_metadata state -> is_Some (d_blocks (cs_dag state) !! h) -> selected_path state h l ->
  path_partition state h l.
Proof.
  intros Hok Hst Hp. pose proof (v2_parents_stored _ Hok) as Hps.
  destruct (vo_rank _ Hok) as (rank & _ & Hrank). revert Hst.
  induction Hp as [h Hh|h p l Hh Hp IH]; intros [b Hb].
  - assert (h = d_genesis_hash (cs_dag state)) as ->.
    { destruct (decide (h = d_genesis_hash (cs_dag state))); [done|].
      destruct (vo_metadata _ Hok h b Hb) as (sp & Hm); [done|]. rewrite (bm_parent _ _ _ _ Hm) in Hh. done. }
    destruct (vo_genesis _ Hok) as (g & Hg & Hpar & _ & Hbl & Hrd & _).
    assert (Hmm : merge_members state (d_genesis_hash (cs_dag state)) = []).
    { unfold merge_members. by rewrite Hbl, Hrd. }
    split.
    + intros x. rewrite (ancestor_inv _ _ _ _ Hg), Hpar. setoid_rewrite list_elem_of_singleton. split.
      * intros [->|(p & Hp & _)]; [by left|by apply not_elem_of_nil in Hp].
      * intros [->|(a & -> & Hx)]; [by left|]. rewrite Hmm in Hx. by apply not_elem_of_nil in Hx.
    + apply NoDup_singleton.
    + intros a x ->%list_elem_of_singleton. rewrite Hmm. by intros ?%not_elem_of_nil.
    + intros [|i] [|j] a c x; try done; simpl; try (by destruct i); by destruct j.
  - assert (Hne : h <> d_genesis_hash (cs_dag state)).
    { intros ->. destruct (vo_genesis _ Hok) as (g & _ & _ & Hg & _). congruence. }
    destruct (vo_metadata _ Hok h b Hb Hne) as (sp & Hm).
    assert (sp = p) as -> by (pose proof (bm_parent _ _ _ _ Hm); congruence).
    destruct (Hrank h b p Hb (bm_among _ _ _ _ Hm)) as [Hpst Hlt].
    destruct (IH Hpst) as [Hpast Hnd Hap Hdis].
    assert (Hhn : ~ ancestor state p h).
    { intros Ha. pose proof (ancestor_rank state rank p h Hrank Ha). lia. }
    assert (Hmem : forall x, x ∈ merge_members state h -> x <> h /\ ~ ancestor state p x).
    { intros x [(q & Hq & Hqx) Hnp]%(bm_members _ _ _ _ Hm). split; [|done]. intros ->.
      destruct (Hrank h b q Hb Hq). pose proof (ancestor_rank state rank q h Hrank Hqx). lia. }
    split.
    + intros x. rewrite (ancestor_inv _ _ _ _ Hb). split.
      * intros [->|Hq]; [left; set_solver|].
        destruct (decide (x ∈ ancestors_inclusive p state)) as [Ha|Ha];
          rewrite elem_of_ancestors_inclusive in Ha.
        -- apply Hpast in Ha as [?|(a & ? & ?)]; [left|right; exists a]; set_solver.
        -- right. exists h. split; [set_solver|]. by apply (bm_members _ _ _ _ Hm).
      * intros [[Hx| ->%list_elem_of_singleton]%elem_of_app|(a & [Ha| ->%list_elem_of_singleton]%elem_of_app & Hx)].
        -- right. exists p. split; [apply Hm|]. apply Hpast. by left.
        -- by left.
        -- right. exists p. split; [apply Hm|]. apply Hpast. right. by exists a.
        -- right. apply (bm_members _ _ _ _ Hm) in Hx as [Hq _]. done.
    + apply NoDup_app. split; [done|]. split; [|apply NoDup_singleton].
      intros x Hx ->%list_elem_of_singleton. apply Hhn, Hpast. by left.
    + intros a x [Ha| ->%list_elem_of_singleton]%elem_of_app Hx [Hxl| ->%list_elem_of_singleton]%elem_of_app.
      * by apply (Hap a x).
      * apply Hhn, Hpast. right. by exists a.
      * apply Hmem in Hx as [_ Hx]. apply Hx, Hpast. by left.
      * by apply Hmem in Hx as [? _].
    + assert (Hold : forall i a x, (l ++ [h]) !! i = Some a -> x ∈ merge_members state a -> ~ ancestor state p x ->
        i = length l).
      { intros i a x Hi Hx Hn. destruct (decide (i < length l)%nat) as [Hil|Hil].
        - exfalso. rewrite lookup_app_l in Hi by lia. apply Hn, Hpast. right. exists a.
          split; [by eapply list_elem_of_lookup_2|done].
        - apply lookup_lt_Some in Hi. rewrite length_app in Hi. simpl in Hi. lia. }
      intros i j a c x Hi Hj Hxa Hxc. destruct (decide (x ∈ ancestors_inclusive p state)) as [Ha|Ha];
        rewrite elem_of_ancestors_inclusive in Ha.
      * assert (Hin : forall i a, (l ++ [h]) !! i = Some a -> x ∈ merge_members state a -> l !! i = Some a).
        { intros i0 a0 Hi0 Hx0. destruct (decide (i0 < length l)%nat); [by rewrite lookup_app_l in Hi0 by lia|].
          exfalso. rewrite lookup_app_r in Hi0 by lia. apply list_lookup_singleton_Some in Hi0 as [_ <-].
          by apply Hmem in Hx0 as [_ ?]. }
        eapply Hdis; eauto.
      * rewrite (Hold i a x), (Hold j c x); done.
Qed.

Lemma path_stored state h l :
  v2_metadata state -> is_Some (d_blocks (cs_dag state) !! h) -> selected_path state h l ->
  forall x, x ∈ l -> is_Some (d_blocks (cs_dag state) !! x).
Proof.
  intros Hok Hst Hp x Hx. eapply ancestor_stored; [by apply v2_parents_stored|exact Hst|].
  apply (pp_past _ _ _ (path_partition_ok _ _ _ Hok Hst Hp)). by left.
Qed.

Lemma rebuild_path state h l :
  v2_metadata state -> is_Some (d_blocks (cs_dag state) !! h) -> selected_path state h l ->
  rebuild_selected_chain_v1 state (Some h) = Some (Ok l).
Proof.
  intros Hok Hst Hp. pose proof (path_stored _ _ _ Hok Hst Hp) as Hall.
  pose proof (pp_nodup _ _ _ (path_partition_ok _ _ _ Hok Hst Hp)) as Hnd.
  unfold rebuild_selected_chain_v1. rewrite (chain_v1_loop_path state h l); [|done| |done|].
  - by rewrite app_nil_l, reverse_involutive.
  - intros x Hx. split; [set_solver|auto].
  - unfold chain_fuel. rewrite <- size_dom, <- (size_list_to_set (C:=gset Hash) l Hnd).
    assert (size (list_to_set l : gset Hash) <= size (dom (d_blocks (cs_dag state))))%nat; [|lia].
    apply subseteq_size. intros x. rewrite elem_of_list_to_set, elem_of_dom. auto.
Qed.

(** ** Priorities *)

(** Each hash of the chain is stored and recorded with the one before it. *)
Fixpoint linked (state : ChainState) (previous : option Hash) (l : list Hash) : Prop :=
  match l with
  | [] => True
  | h :: l' => is_Some (d_blocks (cs_dag state) !! h) /\
      d_selected_parents (cs_dag state) !! h = Some previous /\ linked state (Some h) l'
  end.
Lemma linked_snoc state previous l x :
  linked state previous l -> is_Some (d_blocks (cs_dag state) !! x) ->
  d_selected_parents (cs_dag state) !! x = Some (match last l with Some y => Some y | None => previous end) ->
  linked state previous (l ++ [x]).
Proof.
  revert previous. induction l as [|h l IH]; intros previous; [simpl; auto|].
  intros (Hh & Hsp & Hl) Hx Hsx. cbn [app linked]. split; [done|]. split; [done|]. apply IH; [done|done|].
  rewrite Hsx. f_equal. rewrite last_cons. by destruct (last l).
Qed.
Lemma selected_path_linked state h l :
  (forall x, x ∈ l -> is_Some (d_blocks (cs_dag state) !! x)) -> selected_path state h l -> linked state None l.
Proof.
  intros Hall Hp. induction Hp as [h Hh|h p l Hh Hp IH].
  - simpl. split; [apply Hall; left|done].
  - apply linked_snoc; [apply IH; set_solver|apply Hall; set_solver|].
    by rewrite (selected_path_last _ _ _ Hp).
Qed.

Lemma place_linked state index previous chain priorities :
  linked state previous chain ->
  exists p, place_selected_chain state index previous chain priorities = Ok p /\
    dom p = dom priorities ∪ list_to_set chain.
Proof.
  revert index previous priorities. induction chain as [|h chain IH]; intros index previous priorities.
  { intros _. exists priorities. split; [done|]. set_solver. }
  intros ([b Hb] & Hsp & Hl). cbn [place_selected_chain]. rewrite bool_decide_eq_false_2 by congruence.
  unfold or_stop. rewrite Hsp. cbn. rewrite bool_decide_eq_false_2 by naive_solver.
  destruct (IH (index + 1) (Some h) (<[h := (index, SelectedChain)]> priorities) Hl) as (p & Hp & Hd).
  exists p. split; [done|]. rewrite Hd, dom_insert_L. set_solver.
Qed.

(** One class of one anchor, none of whose hashes is classified or selected. *)
Lemma classify_class_ok state selected reds index anchor class l s :
  NoDup l -> (forall x, x ∈ l -> is_Some (d_blocks (cs_dag state) !! x) /\ x ∉ selected /\
    x ∉ dom (cl_classified_by s) /\ (class = Blue -> x ∉ reds)) ->
  exists s', classify_class state selected reds index anchor s (class, l) = Ok s' /\
    dom (cl_priorities s') = dom (cl_priorities s) ∪ list_to_set l /\
    dom (cl_classified_by s') = dom (cl_classified_by s) ∪ list_to_set l.
Proof.
  unfold classify_class. cbn [fst snd]. intros Hnd Hl.
  assert (Hseen : forall x, x ∈ l -> x ∉ (∅ : gset Hash)) by set_solver.
  revert Hnd Hl Hseen. generalize (cl_priorities s) (cl_classified_by s) (∅ : gset Hash). clear s.
  induction l as [|x l IH]; intros P C S Hnd Hl Hseen; cbn [try_fold].
  { eexists. split; [done|]. cbn. set_solver. }
  apply NoDup_cons in Hnd as [Hx Hnd]. destruct (Hl x ltac:(left)) as ([b Hb] & Hsel & Hcl & Hred).
  unfold classify_hash at 1. cbn.
  rewrite bool_decide_eq_false_2 by (apply Hseen; left).
  replace (bool_decide (class = Blue) && bool_decide (x ∈ reds)) with false.
  2: { destruct class; cbn; [|done..]. symmetry. apply bool_decide_eq_false_2. by apply Hred. }
  rewrite bool_decide_eq_false_2 by congruence. rewrite bool_decide_eq_false_2 by done.
  rewrite (not_elem_of_dom_1 _ _ Hcl).
  destruct (IH (<[x := (index, class)]> P) (<[x := anchor]> C) ({[x]} ∪ S)) as (s' & Hs & H1 & H2).
  - done.
  - intros y Hy. destruct (Hl y ltac:(by right)) as (? & ? & ? & ?). split_and!; try done.
    rewrite dom_insert_L. set_solver.
  - intros y Hy. specialize (Hseen y ltac:(by right)). set_solver.
  - exists s'. split; [done|]. rewrite H1, H2, !dom_insert_L. set_solver.
Qed.

Lemma merge_members_app state a bl rd :
  d_merge_set_blues (cs_dag state) !! a = Some bl -> d_merge_set_reds (cs_dag state) !! a = Some rd ->
  merge_members state a = bl ++ rd.
Proof. intros Hb Hr. unfold merge_members. by rewrite Hb, Hr. Qed.

(** The anchors of a chain whose merge sets are recorded, stored, apart from the
    chain and disjoint. *)
Lemma classify_anchors_ok state selected index chain s :
  (forall a, a ∈ chain -> is_Some (d_merge_set_blues (cs_dag state) !! a) /\
     is_Some (d_merge_set_reds (cs_dag state) !! a) /\ NoDup (merge_members state a)) ->
  (forall a x, a ∈ chain -> x ∈ merge_members state a ->
     is_Some (d_blocks (cs_dag state) !! x) /\ x ∉ selected /\ x ∉ dom (cl_classified_by s)) ->
  (forall i j a b x, chain !! i = Some a -> chain !! j = Some b ->
     x ∈ merge_members state a -> x ∈ merge_members state b -> i = j) ->
  exists s', classify_anchors state selected index chain s = Ok s' /\
    forall x, x ∈ dom (cl_priorities s') <->
      x ∈ dom (cl_priorities s) \/ exists a, a ∈ chain /\ x ∈ merge_members state a.
Proof.
  revert index s. induction chain as [|a chain IH]; intros index s Hrec Hmem Hdis; cbn [classify_anchors].
  { exists s. split; [done|]. set_solver. }
  destruct (Hrec a ltac:(left)) as ([bl Hbl] & [rd Hrd] & Hnd).
  pose proof (merge_members_app _ _ _ _ Hbl Hrd) as Hmm. rewrite Hmm in Hnd.
  apply NoDup_app in Hnd as (Hndb & Hbr & Hndr). unfold or_stop. rewrite Hbl, Hrd. cbn [ok_or try_fold].
  assert (Ha : forall x, x ∈ bl ++ rd -> is_Some (d_blocks (cs_dag state) !! x) /\ x ∉ selected /\
    x ∉ dom (cl_classified_by s)) by (intros x Hx; apply (Hmem a); [left|by rewrite Hmm]).
  destruct (classify_class_ok state selected (list_to_set rd) index a Blue bl s Hndb) as (s1 & -> & P1 & C1).
  { intros x Hx. destruct (Ha x ltac:(set_solver)) as (? & ? & ?). split_and!; try done.
    intros _. specialize (Hbr x Hx). set_solver. }
  destruct (classify_class_ok state selected (list_to_set rd) index a Red rd s1 Hndr) as (s2 & -> & P2 & C2).
  { intros x Hx. destruct (Ha x ltac:(set_solver)) as (? & ? & Hc). split_and!; try done.
    rewrite C1. intros [?|Hb%elem_of_list_to_set]%elem_of_union; [done|]. by apply (Hbr x Hb). }
  destruct (IH (index + 1) s2) as (s' & Hs & Hd).
  - intros b Hb. apply Hrec. by right.
  - intros b x Hb Hx. destruct (Hmem b x ltac:(by right) Hx) as (? & ? & Hc). split_and!; try done.
    rewrite C2, C1. apply list_elem_of_lookup in Hb as [j Hj].
    assert (Hn : x ∉ bl ++ rd).
    { intros Hx'. discriminate (Hdis 0%nat (S j) a b x eq_refl Hj ltac:(by rewrite Hmm) Hx). }
    set_solver.
  - intros i j b c x Hi Hj Hxb Hxc. injection (Hdis (S i) (S j) b c x Hi Hj Hxb Hxc). done.
  - exists s'. split; [done|]. intros x. rewrite Hd, P2, P1. setoid_rewrite elem_of_cons. split.
    + intros [[[?|?%elem_of_list_to_set]%elem_of_union|?%elem_of_list_to_set]%elem_of_union|(b & ? & ?)].
      * by left.
      * right. exists a. rewrite Hmm. set_solver.
      * right. exists a. rewrite Hmm. set_solver.
      * right. exists b. auto.
    + intros [?|(b & [->|?] & Hx)]; [set_solver| |right; eauto].
      rewrite Hmm in Hx. set_solver.
Qed.

(** ** The order of a v2 state *)

Section order.
Context `{HashOrder, Crypto} (state : ChainState).
Hypothesis Hok : v2_ok state.

(** The selected chain is the path of the selected tip. *)
Lemma v2_selected_path :
  exists tip, best_scored state (elements (d_tips (cs_dag state))) tip /\
    is_Some (d_blocks (cs_dag state) !! tip) /\ last (d_selected_chain (cs_dag state)) = Some tip /\
    selected_path state tip (d_selected_chain (cs_dag state)).
Proof.
  destruct Hok as [Hm (tip & Hbest & Hr)]. exists tip. split; [done|].
  assert (Hst : is_Some (d_blocks (cs_dag state) !! tip)).
  { destruct Hbest as [Hin _]. rewrite elem_of_elements in Hin. by apply (vo_tips _ Hm) in Hin as [? _]. }
  destruct (selected_path_exists _ _ Hm Hst) as [l Hl].
  rewrite (rebuild_path _ _ _ Hm Hst Hl) in Hr. injection Hr as <-.
  split; [done|]. split; [|done]. by eapply selected_path_last.
Qed.

(** The blocks of the past of the selected tip have a priority, and no others. *)
Lemma v2_build_priorities tip :
  last (d_selected_chain (cs_dag state)) = Some tip ->
  match build_priorities state with
  | Ok p => forall h, is_Some (d_blocks (cs_dag state) !! h) -> ancestor state tip h /\ is_Some (p !! h)
  | Err (Some (UnclassifiedBlock h)) => is_Some (d_blocks (cs_dag state) !! h) /\ ~ ancestor state tip h
  | Err _ => False
  end.
Proof.
  destruct v2_selected_path as (t & _ & Hst & Hlast & Hpath). intros Htip.
  assert (t = tip) as -> by congruence. clear Htip. pose proof (vo_meta _ Hok) as Hm.
  set (chain := d_selected_chain (cs_dag state)) in *.
  pose proof (path_stored _ _ _ Hm Hst Hpath) as Hall.
  destruct (path_partition_ok _ _ _ Hm Hst Hpath) as [Hpast Hnd Hap Hdis].
  unfold build_priorities. fold chain. rewrite size_list_to_set by done.
  rewrite bool_decide_eq_false_2 by naive_solver.
  destruct (place_linked state 0 None chain ∅) as (p & -> & Hp); [by eapply selected_path_linked|].
  destruct (classify_anchors_ok state (list_to_set chain) 0 chain (mkClassifyState p ∅ ∅)) as (s & -> & Hs).
  - intros a Ha. destruct (Hall a Ha) as [b Hb].
    destruct (decide (a = d_genesis_hash (cs_dag state))) as [->|Hne].
    + destruct (vo_genesis _ Hm) as (g & _ & _ & _ & Hbl & Hrd & _). unfold merge_members. rewrite Hbl, Hrd.
      split; [by eexists|]. split; [by eexists|constructor].
    + destruct (vo_metadata _ Hm a b Hb Hne) as (sp & Hmd). split_and!; apply Hmd.
  - intros a x Ha Hx. split_and!.
    + eapply ancestor_stored; [by apply v2_parents_stored|exact Hst|]. apply Hpast. right. by exists a.
    + rewrite elem_of_list_to_set. by apply (Hap a).
    + cbn. rewrite dom_empty_L. apply not_elem_of_empty.
  - exact Hdis.
  - cbn in Hs. rewrite Hp, dom_empty_L in Hs.
    assert (Hdom : forall x, x ∈ dom (cl_priorities s) <-> ancestor state tip x).
    { intros x. rewrite Hs, Hpast. rewrite elem_of_union, elem_of_list_to_set. set_solver. }
    clear Hs.
    set (f := fun _ _ => _).
    assert (Hscan : forall l, (forall q, q ∈ l -> d_blocks (cs_dag state) !! q.1 = Some q.2) ->
      match try_fold f () l with
      | Ok _ => forall q, q ∈ l -> is_Some (cl_priorities s !! q.1)
      | Err (Some (UnclassifiedBlock h)) => is_Some (d_blocks (cs_dag state) !! h) /\ cl_priorities s !! h = None
      | Err _ => False
      end).
    { clear -f. induction l as [|q l IH]; intros Hl; cbn [try_fold]; [set_solver|].
      unfold f at 1. destruct (bool_decide _) eqn:E; bool_props.
      { cbn. split; [|done]. eexists. apply Hl. left. }
      apply not_eq_None_Some in E. specialize (IH ltac:(intros; apply Hl; by right)).
      destruct (try_fold f () l) as [|]; [|done]. intros q' [->|?]%elem_of_cons; auto. }
    specialize (Hscan (map_iter (d_blocks (cs_dag state)))
      ltac:(intros [h b]; by rewrite elem_of_map_iter)).
    destruct (try_fold f () _) as [u|[e|]].
    + intros h [b Hb]. pose proof (Hscan (h, b) ltac:(by apply elem_of_map_iter)) as Hin.
      split; [|done]. by apply Hdom, elem_of_dom.
    + destruct e; try done. destruct Hscan as [? Hn]. split; [done|].
      rewrite <- Hdom. by apply not_elem_of_dom.
    + done.
Qed.

Lemma v2_order tip :
  last (d_selected_chain (cs_dag state)) = Some tip ->
  match derive_ordered_dag_v2 state with
  | Ok od => forall h, is_Some (d_blocks (cs_dag state) !! h) -> ancestor state tip h
  | Err (Some (UnclassifiedBlock h)) => is_Some (d_blocks (cs_dag state) !! h) /\ ~ ancestor state tip h
  | Err _ => False
  end.
Proof.
  intros Htip. pose proof (v2_build_priorities tip Htip) as Hp.
  destruct (build_priorities state) as [p|e] eqn:Hb.
  - pose proof (vo_meta _ Hok) as Hm. destruct (vo_rank _ Hm) as (rank & _ & Hrank).
    destruct (derive_available state p rank Hb) as [od ->]; [|done|].
    + intros h b Hh. split; [|by apply Hp; eexists].
      destruct (decide (h = d_genesis_hash (cs_dag state))) as [->|Hne].
      * destruct (vo_genesis _ Hm) as (g & _ & _ & _ & _ & _ & Hw). done.
      * destruct (vo_metadata _ Hm h b Hh Hne) as (sp & Hmd).
        destruct (bm_work _ _ _ _ Hmd) as (w & wp & Hw & _). by eexists.
    + intros h Hh. by apply Hp.
  - unfold derive_ordered_dag_v2. rewrite Hb. done.
Qed.
End order.

(** ** Committing a block *)

Section insert_metadata.
Context (state state' : ChainState) (block : Block) (c : GhostdagV1Classification) (sp : Hash).
Local Notation hash := (b_hash block).
Hypothesis Hok : v2_metadata state.
Hypothesis Hnew : d_blocks (cs_dag state) !! hash = None.
Hypothesis Hc : classified state GhostdagV1Limits_default block c.
Hypothesis Hnd : NoDup (gc_blues c ++ gc_reds c).
Hypothesis Hmem : forall h, h ∈ gc_blues c ++ gc_reds c <->
  (exists p, p ∈ h_parents (b_header block) /\ ancestor state p h) /\ ~ ancestor state sp h.
Hypothesis Hsp : gc_selected_parent c = Some sp.
Hypothesis Hblocks : d_blocks (cs_dag state') = <[hash := block]> (d_blocks (cs_dag state)).
Hypothesis Hgen : d_genesis_hash (cs_dag state') = d_genesis_hash (cs_dag state).
Hypothesis Hpar : d_selected_parents (cs_dag state') = <[hash := Some sp]> (d_selected_parents (cs_dag state)).
Hypothesis Hblue : d_merge_set_blues (cs_dag state') = <[hash := gc_blues c]> (d_merge_set_blues (cs_dag state)).
Hypothesis Hred : d_merge_set_reds (cs_dag state') = <[hash := gc_reds c]> (d_merge_set_reds (cs_dag state)).
Hypothesis Hwork : d_blue_work (cs_dag state') = <[hash := gc_blue_work c]> (d_blue_work (cs_dag state)).
Hypothesis Htips : forall h, h ∈ d_tips (cs_dag state') <->
  h = hash \/ (h ∈ d_tips (cs_dag state) /\ h ∉ h_parents (b_header block)).

Lemma stored_not_new h : is_Some (d_blocks (cs_dag state) !! h) -> h <> hash.
Proof. intros [b Hb] ->. congruence. Qed.
Lemma new_parents_stored p :
  p ∈ h_parents (b_header block) -> is_Some (d_blocks (cs_dag state) !! p).
Proof. intros Hp. apply (cv_stored _ _ _ _ Hc p p Hp). apply rtc_refl. Qed.
Lemma new_selected_parent : sp ∈ h_parents (b_header block).
Proof. pose proof (cv_selected _ _ _ _ Hc) as Hs. rewrite Hsp in Hs. apply Hs. Qed.
Lemma merge_members_insert h :
  merge_members state' h = if decide (h = hash) then gc_blues c ++ gc_reds c else merge_members state h.
Proof.
  unfold merge_members. rewrite Hblue, Hred. case_decide as E; [subst; by rewrite !lookup_insert_eq|].
  by rewrite !lookup_insert_ne by done.
Qed.

Lemma insert_block_metadata h b s :
  d_blocks (cs_dag state) !! h = Some b -> block_metadata state h b s -> block_metadata state' h b s.
Proof.
  intros Hb [M1 M2 M3 M4 M5 M6 (w & wp & M7 & M8 & M9)].
  assert (Hne : h <> hash) by (apply stored_not_new; by eexists).
  pose proof (v2_parents_stored _ Hok) as Hst.
  assert (Hs : is_Some (d_blocks (cs_dag state) !! s)) by (by eapply Hst).
  assert (Hsn : s <> hash) by (by apply stored_not_new).
  assert (Hmm : merge_members state' h = merge_members state h)
    by (rewrite merge_members_insert; by rewrite decide_False).
  split.
  - rewrite Hpar, lookup_insert_ne; done.
  - done.
  - rewrite Hblue, lookup_insert_ne; done.
  - rewrite Hred, lookup_insert_ne; done.
  - by rewrite Hmm.
  - intros x. rewrite Hmm, M6.
    rewrite (ancestor_insert state state' hash block Hblocks Hnew Hst s x Hs).
    split; intros [(p & Hp & Hx) Hn]; (split; [|done]); exists p; (split; [done|]).
    + apply (ancestor_insert state state' hash block Hblocks Hnew Hst); [by eapply Hst|done].
    + apply (ancestor_insert state state' hash block Hblocks Hnew Hst) in Hx; [done|by eapply Hst].
  - exists w, wp. rewrite Hwork, Hblue, !lookup_insert_ne by done. done.
Qed.

Lemma new_block_metadata : block_metadata state' hash block sp.
Proof.
  pose proof new_selected_parent as Hin. pose proof (v2_parents_stored _ Hok) as Hst.
  pose proof (new_parents_stored sp Hin) as Hs.
  assert (Hmm : merge_members state' hash = gc_blues c ++ gc_reds c)
    by (rewrite merge_members_insert; by rewrite decide_True).
  split.
  - rewrite Hpar. apply lookup_insert_eq.
  - done.
  - rewrite Hblue, lookup_insert_eq. by eexists.
  - rewrite Hred, lookup_insert_eq. by eexists.
  - by rewrite Hmm.
  - intros x. rewrite Hmm, Hmem.
    rewrite (ancestor_insert state state' hash block Hblocks Hnew Hst sp x Hs).
    split; intros [(p & Hp & Hx) Hn]; (split; [|done]); exists p; (split; [done|]).
    + apply (ancestor_insert state state' hash block Hblocks Hnew Hst); [by apply new_parents_stored|done].
    + apply (ancestor_insert state state' hash block Hblocks Hnew Hst) in Hx; [done|by apply new_parents_stored].
  - destruct (cv_score_work _ _ _ _ Hc) as (score & work & Hsw & _ & Hw). rewrite Hsp in Hsw.
    destruct Hsw as (b & _ & _ & Hwp). exists (gc_blue_work c), work.
    rewrite Hwork, Hblue, !lookup_insert_eq. split; [done|].
    rewrite lookup_insert_ne by (by apply not_eq_sym, stored_not_new). done.
Qed.

Lemma insert_v2_metadata_ok : v2_metadata state'.
Proof.
  pose proof (v2_parents_stored _ Hok) as Hst.
  assert (Hunused : forall h b, d_blocks (cs_dag state) !! h = Some b -> hash ∉ h_parents (b_header b)).
  { intros h b Hb Hin. by apply (stored_not_new hash (Hst h b hash Hb Hin)). }
  assert (Hself : hash ∉ h_parents (b_header block)).
  { intros Hin. by apply (stored_not_new hash (new_parents_stored hash Hin)). }
  destruct (vo_genesis _ Hok) as (g & Hg & Hgp & Hgs & Hgb & Hgr & Hgw).
  assert (Hgn : d_genesis_hash (cs_dag state) <> hash) by (apply stored_not_new; by eexists).
  split.
  - unfold keyed_blocks. rewrite Hblocks. apply map_Forall_insert_2; [done|apply Hok].
  - exists g. rewrite Hgen, Hblocks, Hpar, Hblue, Hred, Hwork, !lookup_insert_ne by done. done.
  - rewrite Hgen, Hblocks. intros h b [[<- <-]|[Hne Hb]]%lookup_insert_Some Hh.
    + exists sp. apply new_block_metadata.
    + destruct (vo_metadata _ Hok h b Hb Hh) as (s & Hm). exists s. by apply insert_block_metadata.
  - destruct (vo_rank _ Hok) as (rank & Hlt & Hrank).
    exists (fun h => if decide (h = hash) then size (d_blocks (cs_dag state)) else rank h).
    rewrite Hblocks, map_size_insert_None by done. split.
    + intros h Hh. case_decide as E; [lia|]. rewrite lookup_insert_ne in Hh by done.
      specialize (Hlt h Hh). lia.
    + intros h b p [[<- <-]|[Hne Hb]]%lookup_insert_Some Hp.
      * pose proof (new_parents_stored p Hp) as Hps. rewrite lookup_insert_ne by naive_solver.
        split; [done|]. rewrite decide_False by naive_solver. rewrite decide_True by done. by apply Hlt.
      * destruct (Hrank h b p Hb Hp) as [Hps Hpl]. pose proof (stored_not_new p Hps).
        rewrite lookup_insert_ne by done. split; [done|]. by rewrite !decide_False by naive_solver.
  - intros h. rewrite Htips, (vo_tips _ Hok), Hblocks. split.
    + intros [->|[[Hs Hno] Hnp]].
      * rewrite lookup_insert_eq. split; [by eexists|]. intros h' b' [[<- <-]|[_ Hb]]%lookup_insert_Some;
          [done|by apply (Hunused h')].
      * pose proof (stored_not_new h Hs). rewrite lookup_insert_ne by done. split; [done|].
        intros h' b' [[<- <-]|[_ Hb]]%lookup_insert_Some; [done|by apply (Hno h')].
    + intros [Hs Hno]. destruct (decide (h = hash)) as [->|Hne]; [by left|right].
      rewrite lookup_insert_ne in Hs by done. split; [split; [done|]|].
      * intros h' b' Hb. apply (Hno h'). rewrite lookup_insert_ne; [done|].
        apply not_eq_sym, stored_not_new. by eexists.
      * apply (Hno hash block). apply lookup_insert_eq.
Qed.
End insert_metadata.

Lemma push_children_frame hash parents dag :
  exists tips children,
    foldl (push_child hash) dag parents = dag <| d_tips := tips |> <| d_children := children |>.
Proof.
  revert dag. induction parents as [|p parents IH]; intros dag; cbn [foldl].
  { exists (d_tips dag), (d_children dag). by destruct dag. }
  destruct (IH (push_child hash dag p)) as (t & ch & ->). exists t, ch. by destruct dag.
Qed.

Lemma insert_v2_fields block c dag :
  is_Some (d_merge_set_blues dag !! d_genesis_hash dag) -> is_Some (d_merge_set_reds dag !! d_genesis_hash dag) ->
  let dag' := insert_v2_metadata block c dag in
  d_blocks dag' = <[b_hash block := block]> (d_blocks dag) /\
  d_genesis_hash dag' = d_genesis_hash dag /\
  d_selected_parents dag' = <[b_hash block := gc_selected_parent c]> (d_selected_parents dag) /\
  d_merge_set_blues dag' = <[b_hash block := gc_blues c]> (d_merge_set_blues dag) /\
  d_merge_set_reds dag' = <[b_hash block := gc_reds c]> (d_merge_set_reds dag) /\
  d_blue_work dag' = <[b_hash block := gc_blue_work c]> (d_blue_work dag) /\
  (forall h, h ∈ d_tips dag' <-> h = b_hash block \/ (h ∈ d_tips dag /\ h ∉ h_parents (b_header block))).
Proof.
  intros [bl Hbl] [rd Hrd]. cbv zeta. unfold insert_v2_metadata, or_default.
  set (dag1 := dag <| d_merge_set_blues ::= _ |> <| d_merge_set_reds ::= _ |>).
  assert (Hd1 : dag1 = dag) by (unfold dag1; cbn; rewrite Hbl, Hrd; by destruct dag). rewrite Hd1. clear dag1 Hd1.
  pose proof (push_children_spec (b_hash block) (h_parents (b_header block)) dag) as (_ & _ & _ & Ht & _).
  destruct (push_children_frame (b_hash block) (h_parents (b_header block)) dag) as (t & ch & E).
  rewrite E in Ht |- *. cbn in Ht |- *. split_and!; try done.
  intros h. rewrite elem_of_union, elem_of_singleton, Ht. done.
Qed.

Lemma selected_path_ext state state' h l :
  d_selected_parents (cs_dag state') = d_selected_parents (cs_dag state) ->
  selected_path state h l -> selected_path state' h l.
Proof.
  intros E Hp. induction Hp as [h Hh|h p l Hh Hp IH].
  - constructor. by rewrite E.
  - eapply path_step; [by rewrite E|done].
Qed.

Section commit.
Context `{HashOrder, Crypto}.

(** What the checks of a candidate establish. *)
Record v2_candidate (state : ChainState) (block : Block) (c : GhostdagV1Classification) : Prop := {
  vc_new : d_blocks (cs_dag state) !! b_hash block = None;
  vc_classified : classify_merge_set_v1 block state = Ok c;
  vc_parents : h_parents (b_header block) <> [];
  vc_score : h_blue_score (b_header block) = gc_blue_score c;
}.
Lemma validate_metadata_candidate_ok block state identity c :
  validate_metadata_candidate block state identity = Ok c ->
  v2_candidate state block c /\
  compute_block_hash_v2 (b_header block) (pi_chain_id identity) = Ok (b_hash block).
Proof.
  unfold validate_metadata_candidate, rejects_block. intros Hv. inv_ok. bool_props.
  assert (d_blocks (cs_dag state) !! b_hash block = None) by (by apply eq_None_not_Some).
  unfold of_outcome in *.
  repeat match goal with E : map_err _ _ = Ok _ |- _ => apply map_err_Ok in E end.
  split; [|congruence]. split; try done.
Qed.

Lemma default_limits_typed : limits_typed GhostdagV1Limits_default.
Proof. unfold limits_typed. by_decide. Qed.

(** The tips of a state with complete metadata have scores. *)
Lemma tips_scored state h :
  v2_metadata state -> is_Some (d_blocks (cs_dag state) !! h) -> is_Some (score_of state h).
Proof.
  intros Hm [b Hb]. unfold score_of. rewrite Hb.
  destruct (decide (h = d_genesis_hash (cs_dag state))) as [->|Hne].
  - destruct (vo_genesis _ Hm) as (g & _ & _ & _ & _ & _ & [w ->]). by eexists.
  - destruct (vo_metadata _ Hm h b Hb Hne) as (sp & Hmd).
    destruct (bm_work _ _ _ _ Hmd) as (w & wp & -> & _). by eexists.
Qed.

(** The selected tip and chain of a state with complete metadata. *)
Lemma select_v2 state :
  v2_metadata state -> (exists h, h ∈ d_tips (cs_dag state)) ->
  exists tip l, calculate_selected_tip_v1 state = Ok (Some tip) /\
    best_scored state (elements (d_tips (cs_dag state))) tip /\
    is_Some (d_blocks (cs_dag state) !! tip) /\ selected_path state tip l /\
    rebuild_selected_chain_v1 state (Some tip) = Some (Ok l).
Proof.
  intros Hm [h Hh]. destruct (calculate_selected_tip_v1_spec state) as (r & Hr & Hbest).
  { intros x Hx. apply tips_scored; [done|]. by apply (vo_tips _ Hm) in Hx as [? _]. }
  destruct r as [tip|]; [|rewrite Hbest in Hh; by apply not_elem_of_empty in Hh].
  assert (Hst : is_Some (d_blocks (cs_dag state) !! tip)).
  { destruct Hbest as [Hin _]. rewrite elem_of_elements in Hin. by apply (vo_tips _ Hm) in Hin as [? _]. }
  destruct (selected_path_exists _ _ Hm Hst) as [l Hl].
  exists tip, l. split_and!; try done. by apply rebuild_path.
Qed.

Lemma v2_candidate_metadata state state' block c :
  v2_metadata state -> v2_candidate state block c ->
  d_blocks (cs_dag state') = d_blocks (insert_v2_metadata block c (cs_dag state)) ->
  d_genesis_hash (cs_dag state') = d_genesis_hash (cs_dag state) ->
  d_selected_parents (cs_dag state') = d_selected_parents (insert_v2_metadata block c (cs_dag state)) ->
  d_merge_set_blues (cs_dag state') = d_merge_set_blues (insert_v2_metadata block c (cs_dag state)) ->
  d_merge_set_reds (cs_dag state') = d_merge_set_reds (insert_v2_metadata block c (cs_dag state)) ->
  d_blue_work (cs_dag state') = d_blue_work (insert_v2_metadata block c (cs_dag state)) ->
  d_tips (cs_dag state') = d_tips (insert_v2_metadata block c (cs_dag state)) ->
  v2_metadata state'.
Proof.
  intros Hm [Hnew Hcl Hne _] E1 E2 E3 E4 E5 E6 E7.
  destruct (vo_genesis _ Hm) as (g & _ & _ & _ & Hgb & Hgr & _).
  destruct (insert_v2_fields block c (cs_dag state)) as (F1 & _ & F3 & F4 & F5 & F6 & F7); [by eexists..|].
  pose proof (classify_total state GhostdagV1Limits_default block default_limits_typed) as Ht.
  unfold classify_merge_set_v1 in Hcl. rewrite Hcl in Ht.
  destruct (gc_selected_parent c) as [sp|] eqn:Hsp.
  2: { exfalso. pose proof (cv_selected _ _ _ _ Ht) as Hs. rewrite Hsp in Hs. done. }
  assert (Hperm : gc_blues c ++ gc_reds c ≡ₚ elements (merged state (Some sp) (h_parents (b_header block)))).
  { pose proof (cv_colouring _ _ _ _ Ht) as Hcol.
    apply color_fold_spec in Hcol as [Hp _]; [|by intros [] ? ? [=]]. simpl in Hp.
    by rewrite (cv_merge_set _ _ _ _ Ht), isort_perm, Hsp in Hp. }
  apply (insert_v2_metadata_ok state state' block c sp); try done; try congruence.
  - rewrite Hperm. apply NoDup_elements.
  - intros h. rewrite Hperm, elem_of_elements. apply elem_of_merged.
  - intros h. by rewrite E7, F7.
Qed.

Lemma commit_v2_spec state identity block :
  v2_ok state ->
  match commit_ghostdag_v1_metadata_for_activated_v2 block state identity with
  | Ok (r, state') =>
      v2_ok state' /\ v2_candidate state block (ac_classification r) /\
      d_blocks (cs_dag state') = <[b_hash block := block]> (d_blocks (cs_dag state)) /\
      ac_selected_chain r = d_selected_chain (cs_dag state') /\
      ac_selected_tip r = last (d_selected_chain (cs_dag state')) /\
      compute_block_hash_v2 (b_header block) (cs_chain_id state) = Ok (b_hash block)
  | Err e => verify_activated_v2_metadata_identity state identity <> Ok tt \/
      validate_metadata_candidate block state identity = Err e
  end.
Proof.
  intros Hok. pose proof (vo_meta _ Hok) as Hm. unfold commit_ghostdag_v1_metadata_for_activated_v2.
  destruct (verify_activated_v2_metadata_identity state identity) as [[]|e] eqn:Hid; [|by left]. cbn.
  assert (Hgm : verify_activated_v2_genesis_metadata state = Ok tt).
  { unfold verify_activated_v2_genesis_metadata.
    destruct (vo_genesis _ Hm) as (g & _ & _ & _ & -> & -> & _). done. }
  rewrite Hgm. cbn.
  destruct (validate_metadata_candidate block state identity) as [c|e] eqn:Hv; [|by right]. cbn.
  apply validate_metadata_candidate_ok in Hv as [Hcand Hhash].
  assert (Hchain : pi_chain_id identity = cs_chain_id state).
  { unfold verify_activated_v2_metadata_identity in Hid. inv_ok. by bool_props. }
  rewrite Hchain in Hhash.
  set (working := state <| cs_dag ::= insert_v2_metadata block c |>).
  destruct (vo_genesis _ Hm) as (g & _ & _ & _ & Hgb & Hgr & _).
  destruct (insert_v2_fields block c (cs_dag state)) as (F1 & F2 & _ & _ & _ & _ & F7); [by eexists..|].
  assert (Hwm : v2_metadata working) by (by apply (v2_candidate_metadata state working block c)).
  destruct (select_v2 working Hwm) as (tip & l & Htip & Hbest & Hst & Hpath & Hr).
  { exists (b_hash block). apply F7. by left. }
  unfold working in Htip, Hr. cbn in Htip, Hr. rewrite Htip. cbn. rewrite Hr. cbn.
  set (final := mkChainState _ _ _ _ _ _ _ _ _ _ _ _ _ _ _ _ _ _ _ _ _ _ _ _ _ _).
  assert (Hfm : v2_metadata final) by (by apply (v2_candidate_metadata state final block c)).
  assert (Hfp : selected_path final tip l) by (by apply (selected_path_ext working)).
  split_and!; try done.
  - split; [done|]. exists tip. split; [done|]. by apply (rebuild_path final tip l).
  - cbn. by rewrite (selected_path_last _ _ _ Hpath).
Qed.
End commit.

(** ** Reachable v2 states *)

(** Only the metadata fields matter. *)
Definition same_metadata (s s' : ChainState) : Prop :=
  d_blocks (cs_dag s') = d_blocks (cs_dag s) /\ d_tips (cs_dag s') = d_tips (cs_dag s) /\
  d_genesis_hash (cs_dag s') = d_genesis_hash (cs_dag s) /\
  d_selected_parents (cs_dag s') = d_selected_parents (cs_dag s) /\
  d_merge_set_blues (cs_dag s') = d_merge_set_blues (cs_dag s) /\
  d_merge_set_reds (cs_dag s') = d_merge_set_reds (cs_dag s) /\
  d_blue_work (cs_dag s') = d_blue_work (cs_dag s) /\
  d_selected_chain (cs_dag s') = d_selected_chain (cs_dag s) /\
  cs_chain_id s' = cs_chain_id s.

Lemma same_metadata_ok s s' : same_metadata s s' -> v2_ok s -> v2_ok s'.
Proof.
  intros (E1 & E2 & E3 & E4 & E5 & E6 & E7 & E8 & _) Hok.
  assert (Ha : forall h k, ancestor s' h k <-> ancestor s h k).
  { intros h k. unfold ancestor, reach, edge, parents_of. by rewrite E1. }
  assert (Hmm : forall h, merge_members s' h = merge_members s h) by (intros h; unfold merge_members; by rewrite E5, E6).
  assert (Hm : v2_metadata s').
  { destruct (vo_meta _ Hok) as [M1 M2 M3 M4 M5]. split.
    - unfold keyed_blocks. by rewrite E1.
    - by rewrite E1, E3, E4, E5, E6, E7.
    - rewrite E1, E3. intros h b Hb Hne. destruct (M3 h b Hb Hne) as (sp & [N1 N2 N3 N4 N5 N6 N7]). exists sp.
      split; [by rewrite E4|done|by rewrite E5|by rewrite E6|by rewrite Hmm| |by rewrite E5, E7].
      intros x. rewrite Hmm, N6, Ha. by setoid_rewrite Ha.
    - by rewrite E1.
    - by rewrite E1, E2. }
  split; [done|]. destruct (v2_selected_path s Hok) as (tip & Hbest & Hst & _ & Hp). exists tip. split.
  - unfold best_scored, score_of. by rewrite E1, E2, E7.
  - rewrite E8. apply rebuild_path; [done|by rewrite E1|]. by apply (selected_path_ext s).
Qed.

(** A genesis block alone. *)
Lemma clean_genesis_ok s g :
  d_blocks (cs_dag s) = {[ b_hash g := g ]} -> d_genesis_hash (cs_dag s) = b_hash g ->
  h_parents (b_header g) = [] -> d_tips (cs_dag s) = {[ b_hash g ]} ->
  d_selected_parents (cs_dag s) = {[ b_hash g := None ]} -> d_selected_chain (cs_dag s) = [b_hash g] ->
  d_merge_set_blues (cs_dag s) = {[ b_hash g := [] ]} -> d_merge_set_reds (cs_dag s) = {[ b_hash g := [] ]} ->
  d_blue_work (cs_dag s) = {[ b_hash g := 0 ]} -> v2_ok s.
Proof.
  intros Hb Hg Hp Ht Hsp Hch Hbl Hrd Hw.
  assert (Hm : v2_metadata s).
  { split.
    - unfold keyed_blocks. rewrite Hb. by apply map_Forall_singleton.
    - exists g. rewrite Hg, Hb, Hsp, Hbl, Hrd, Hw, !lookup_singleton_eq. done.
    - rewrite Hg, Hb. intros h b [<- <-]%lookup_singleton_Some. done.
    - exists (fun _ => 0%nat). rewrite Hb. split; [intros; rewrite map_size_singleton; lia|].
      intros h b p [<- <-]%lookup_singleton_Some. rewrite Hp. by intros ?%not_elem_of_nil.
    - intros h. rewrite Ht, Hb, elem_of_singleton. split.
      + intros ->. rewrite lookup_singleton_eq. split; [by eexists|].
        intros h' b' [<- <-]%lookup_singleton_Some. rewrite Hp. apply not_elem_of_nil.
      + intros [[b [<- _]%lookup_singleton_Some] _]. done. }
  split; [done|]. exists (b_hash g). rewrite Hch.
  assert (Hsc : is_Some (score_of s (b_hash g))) by (unfold score_of; rewrite Hb, Hw, !lookup_singleton_eq; by eexists).
  split.
  - rewrite Ht, elements_singleton. destruct Hsc as [sc Hsc]. split; [left|]. exists sc. split; [done|].
    intros h ->%list_elem_of_singleton. exists sc. split; [done|]. rewrite cmp_refl; [done|apply _].
  - apply rebuild_path; [done|rewrite Hb, lookup_singleton_eq; by eexists|]. constructor.
    by rewrite Hsp, lookup_singleton_eq.
Qed.

Section reachable.
Context `{HashOrder, Crypto}.

(** A v2 node: it starts from a version-2 or version-3 genesis, commits blocks with
    any identity, and changes everything but the metadata freely. *)
Inductive v2_reachable : ChainState -> Prop :=
| v2_init_v2 chain_id s : init_chain_state_v2 chain_id = Ok s -> v2_reachable s
| v2_init_v3 chain_id t s : init_chain_state_v3 chain_id t = Ok s -> v2_reachable s
| v2_other s s' : v2_reachable s -> same_metadata s s' -> v2_reachable s'
| v2_commit block identity r s s' : v2_reachable s ->
    commit_ghostdag_v1_metadata_for_activated_v2 block s identity = Ok (r, s') -> v2_reachable s'.

Lemma v2_reachable_ok s : v2_reachable s -> v2_ok s.
Proof.
  induction 1 as [chain_id s Hi|chain_id t s Hi|s s' _ IH Hs|block identity r s s' _ IH Hc].
  - unfold init_chain_state_v2 in Hi. inv_ok.
    assert (Hp : h_parents (b_header a) = []) by (unfold genesis_block_v2 in Hok; by inv_ok).
    by apply (clean_genesis_ok _ a).
  - unfold init_chain_state_v3 in Hi. inv_ok.
    assert (Hp : h_parents (b_header a) = []) by (unfold genesis_block_v3 in Hok; by inv_ok).
    by apply (clean_genesis_ok _ a).
  - by apply (same_metadata_ok s).
  - pose proof (commit_v2_spec s identity block IH) as Hspec. rewrite Hc in Hspec. by destruct Hspec.
Qed.
End reachable.

Lemma selected_path_head state h l :
  v2_metadata state -> is_Some (d_blocks (cs_dag state) !! h) -> selected_path state h l ->
  head l = Some (d_genesis_hash (cs_dag state)).
Proof.
  intros Hm Hst Hp. pose proof (v2_parents_stored _ Hm) as Hps. revert Hst.
  induction Hp as [h Hh|h p l Hh Hp IH]; intros [b Hb].
  - destruct (decide (h = d_genesis_hash (cs_dag state))) as [->|Hne]; [done|].
    destruct (vo_metadata _ Hm h b Hb Hne) as (sp & Hmd). pose proof (bm_parent _ _ _ _ Hmd). congruence.
  - assert (Hne : h <> d_genesis_hash (cs_dag state)).
    { intros ->. destruct (vo_genesis _ Hm) as (g & _ & _ & Hg & _). congruence. }
    destruct (vo_metadata _ Hm h b Hb Hne) as (sp & Hmd).
    assert (sp = p) as -> by (pose proof (bm_parent _ _ _ _ Hmd); congruence).
    assert (Hl : head l = Some (d_genesis_hash (cs_dag state))) by (apply IH; eapply Hps; [exact Hb|apply Hmd]).
    by destruct l.
Qed.

(** ** Theorems *)

(** C16: every state a v2 node reaches keeps its metadata complete: blocks are
    stored under their hash, over stored parents and without cycles; genesis is
    the only root; every other block has a selected parent among its parents,
    blues and reds that are exactly what its parents add to the past of that
    parent, and the work that follows; the tips are the blocks without children;
    and the selected chain is the chain of selected parents of the tip with the
    greatest work. *)
Theorem v2_reachable_invariant `{HashOrder, Crypto} s : v2_reachable s -> v2_ok s.
Proof. apply v2_reachable_ok. Qed.

(** C18: in a reachable state a metadata commit fails only in its checks of the
    identity and of the block: the selected tip and chain can always be recomputed
    after the block is inserted.  A successful commit stores exactly that block,
    whose hash binds the chain id and whose declared blue score is the derived
    one, and returns the new selected tip and chain. *)
Theorem v2_commit_complete `{HashOrder, Crypto} s identity block :
  v2_reachable s ->
  match commit_ghostdag_v1_metadata_for_activated_v2 block s identity with
  | Ok (r, s') =>
      v2_ok s' /\ v2_candidate s block (ac_classification r) /\
      d_blocks (cs_dag s') = <[b_hash block := block]> (d_blocks (cs_dag s)) /\
      ac_selected_chain r = d_selected_chain (cs_dag s') /\
      ac_selected_tip r = last (d_selected_chain (cs_dag s')) /\
      compute_block_hash_v2 (b_header block) (cs_chain_id s) = Ok (b_hash block)
  | Err e => verify_activated_v2_metadata_identity s identity <> Ok tt \/
      validate_metadata_candidate block s identity = Err e
  end.
Proof. intros Hs. by apply commit_v2_spec, v2_reachable_ok. Qed.

(** C17: in a reachable state the v2 order and the finality boundary exist exactly
    when every stored block is in the past of the selected tip.  Otherwise both
    report an unclassified block outside that past, and nothing else can go wrong:
    no missing metadata, no duplicate classification, no cycle. *)
Theorem v2_order_exact `{HashOrder, Crypto} s :
  v2_reachable s ->
  exists tip, last (d_selected_chain (cs_dag s)) = Some tip /\
    best_scored s (elements (d_tips (cs_dag s))) tip /\
    match derive_ordered_dag_v2 s with
    | Ok od => (forall h, is_Some (d_blocks (cs_dag s) !! h) -> ancestor s tip h) /\
        exists fb, derive_finality_boundary_v1 s = Ok fb /\ fb_prunable_blocks fb = [] /\
          fb_boundary_hash fb = d_genesis_hash (cs_dag s) /\ fb_selected_tip fb = Some tip /\
          fb_ordered_dag_digest fb = od_digest od
    | Err (Some (UnclassifiedBlock h)) =>
        is_Some (d_blocks (cs_dag s) !! h) /\ ~ ancestor s tip h /\
        derive_finality_boundary_v1 s = Err (Some (FinalityOrdering (UnclassifiedBlock h)))
    | Err _ => False
    end.
Proof.
  intros Hs%v2_reachable_ok. destruct (v2_selected_path s Hs) as (tip & Hbest & Hst & Hlast & Hpath).
  exists tip. split; [done|]. split; [done|].
  pose proof (v2_order s Hs tip Hlast) as Hord.
  destruct (vo_genesis _ (vo_meta _ Hs)) as (g & Hg & _).
  pose proof (selected_path_head _ _ _ (vo_meta _ Hs) Hst Hpath) as Hhead.
  unfold derive_finality_boundary_v1. rewrite Hg. cbn [ok_or]. rewrite bool_decide_eq_true_2 by done. cbn [negb].
  destruct (derive_ordered_dag_v2 s) as [od|[e|]]; [|destruct e; try done; by destruct Hord|done].
  split; [done|]. eexists. split; [done|]. done.
Qed.

(** ** Agreement with a live node *)

(** The blue score in a stored header is the blue work capped at its width. *)
Definition capped_score (s : ChainState) : Prop :=
  forall h b, d_blocks (cs_dag s) !! h = Some b ->
    exists w, d_blue_work (cs_dag s) !! h = Some w /\ 0 <= w /\ h_blue_score (b_header b) = Z.min w u64_max.

Lemma classify_capped block s k :
  capped_score s ->
  let m := classify_merge_set_with_k block s k in
  0 <= msc_blue_work m /\ msc_blue_score m = Z.min (msc_blue_work m) u64_max.
Proof.
  intros Hs. cbv zeta. unfold classify_merge_set_with_k.
  destruct (foldl _ _ _) as [blues reds]. cbn [msc_blue_work msc_blue_score].
  rewrite !saturating_add_twice by lia.
  assert (u64_max <= u128_max /\ 0 <= u64_max) as [Hu Hu0] by (unfold u_max; lia).
  destruct (calculate_selected_parent block s) as [sp|] eqn:E; [|lia].
  apply calculate_selected_parent_Some in E as (b & _ & Hb & _). rewrite Hb.
  destruct (Hs sp b Hb) as (w & -> & Hw & ->). lia.
Qed.

Lemma node_capped_score `{HashOrder, Crypto, !CryptoLaws, Kaspa} s : node_reachable s -> capped_score s.
Proof.
  induction 1 as [chain_id mode policy k s Hi|s mp _ IH|env now block s s' Hr IH Hv Hmax Hc].
  - unfold init_chain_state in Hi. inv_ok. intros h b. cbn. intros [<- <-]%lookup_singleton_Some.
    exists 0. rewrite lookup_singleton_eq. split; [done|]. split; [done|].
    unfold genesis_block in Hok. by inv_ok.
  - done.
  - apply node_dag_ok in Hr as [_ Hidx]. apply commit_block_Ok in Hc as [Hsame _]; [|done].
    destruct Hsame as (E1 & _ & _ & _ & _ & _ & _ & _ & E9 & _).
    unfold capped_score. rewrite E1, E9. unfold accept_block_to_dag_metadata. cbn.
    destruct (push_children_frame (b_hash block) (h_parents (b_header block)) (cs_dag s)) as (t & ch & ->). cbn.
    intros h b [[<- <-]|[Hne Hb]]%lookup_insert_Some.
    + rewrite lookup_insert_eq. cbn. destruct (classify_capped block s (d_merge_set_k (cs_dag s)) IH) as [? ?].
      eexists. split; [done|]. done.
    + rewrite lookup_insert_ne by done. by apply IH.
Qed.

(** C22: GHOSTDAG v1 agrees with the live node.  In every state a node reaches
    whose blue work has not outgrown the 64-bit score, and with the default k,
    whenever the bounded classification succeeds it has the selected parent, merge
    set, colouring, score and work of the classification the node computes. *)
Theorem ghostdag_v1_matches_live_node `{HashOrder, Crypto, !CryptoLaws, Kaspa} s block c :
  node_reachable s -> map_Forall (fun _ w => w <= u64_max) (d_blue_work (cs_dag s)) ->
  d_merge_set_k (cs_dag s) = GHOSTDAG_V1_K ->
  classify_merge_set_v1 block s = Ok c ->
  let m := classify_merge_set block s in
  msc_selected_parent m = gc_selected_parent c /\ msc_merge_set m = gc_merge_set c /\
  msc_blues m = gc_blues c /\ msc_reds m = gc_reds c /\
  msc_blue_score m = gc_blue_score c /\ msc_blue_work m = gc_blue_work c.
Proof.
  intros Hr Hsmall Hk Hc. unfold classify_merge_set. rewrite Hk.
  apply (ghostdag_v1_agrees block s GhostdagV1Limits_default c default_limits_typed); [|  |done].
  - by destruct (node_dag_ok s Hr) as [[? _ _ _ _ _] _].
  - intros h b Hb. destruct (node_capped_score s Hr h b Hb) as (w & Hw & _ & ->).
    rewrite Hw. f_equal. symmetry. apply Z.min_l. exact (Hsmall h w Hw).
Qed.

(** ** Witnesses

    A genesis, two blocks on it, and a block that merges them. *)

#[local] Existing Instance model_crypto.
#[local] Existing Instance model_crypto_laws.
#[local] Existing Instance model_kaspa.

Definition v2_genesis : ChainState := default blank_state (result_ok (init_chain_state_v2 "main")).
Definition v2_identity : ProtocolActivationIdentity :=
  activated_v2 "main" (d_genesis_hash (cs_dag v2_genesis)) GHOSTDAG_V1_ORDERING_VERSION.
Definition v2_sample (parents : list Hash) (nonce blue_score height : Z) : Block :=
  let header := mkBlockHeader 2 (isort String.le parents) 10 1 nonce "" "" blue_score height in
  mkBlock (default "" (result_ok (compute_block_hash_v2 header "main"))) header [].
Definition v2_next (s : ChainState) (block : Block) : ChainState :=
  default s (snd <$> result_ok (commit_ghostdag_v1_metadata_for_activated_v2 block s v2_identity)).

Definition v2_left : Block := Eval vm_compute in v2_sample [d_genesis_hash (cs_dag v2_genesis)] 1 1 1.
Definition v2_right : Block := Eval vm_compute in v2_sample [d_genesis_hash (cs_dag v2_genesis)] 2 1 1.
Definition v2_merge : Block := Eval vm_compute in v2_sample [b_hash v2_left; b_hash v2_right] 3 3 2.
Definition v2_forked : ChainState := v2_next (v2_next v2_genesis v2_left) v2_right.
Definition v2_merged : ChainState := v2_next v2_forked v2_merge.

Lemma v2_next_reachable s block :
  v2_reachable s -> is_ok (commit_ghostdag_v1_metadata_for_activated_v2 block s v2_identity) = true ->
  v2_reachable (v2_next s block).
Proof.
  intros Hs. unfold v2_next.
  destruct (commit_ghostdag_v1_metadata_for_activated_v2 block s v2_identity) as [[r s']|] eqn:E; [|done].
  intros _. by eapply v2_commit.
Qed.
Lemma v2_genesis_reachable : v2_reachable v2_genesis.
Proof.
  apply (v2_init_v2 "main"). unfold v2_genesis.
  assert (Hok : is_ok (init_chain_state_v2 "main") = true) by by_compute.
  by destruct (init_chain_state_v2 "main").
Qed.
Lemma v2_forked_reachable : v2_reachable v2_forked.
Proof.
  apply v2_next_reachable; [|by_compute]. apply v2_next_reachable; [apply v2_genesis_reachable|by_compute].
Qed.
Lemma v2_merged_reachable : v2_reachable v2_merged.
Proof.
  apply v2_next_reachable; [apply v2_forked_reachable|by_compute].
Qed.

Lemma v2_reachable_invariant_witness : v2_ok v2_merged.
Proof. apply (v2_reachable_invariant v2_merged). apply v2_merged_reachable. Defined.
Lemma v2_commit_complete_witness :
  match commit_ghostdag_v1_metadata_for_activated_v2 v2_merge v2_forked v2_identity with
  | Ok (r, s') => ac_selected_tip r = last (d_selected_chain (cs_dag s'))
  | Err _ => False
  end.
Proof.
  pose proof (v2_commit_complete v2_forked v2_identity v2_merge v2_forked_reachable) as Hc.
  assert (Hok : is_ok (commit_ghostdag_v1_metadata_for_activated_v2 v2_merge v2_forked v2_identity) = true)
    by by_compute.
  destruct (commit_ghostdag_v1_metadata_for_activated_v2 v2_merge v2_forked v2_identity) as [[r s']|]; [|done].
  apply Hc.
Defined.
(** The order exists once the two branches are merged, and not before. *)
Lemma v2_order_exact_witness :
  is_ok (derive_ordered_dag_v2 v2_merged) = true /\ is_ok (derive_ordered_dag_v2 v2_forked) = false /\
  exists tip, last (d_selected_chain (cs_dag v2_merged)) = Some tip /\
    best_scored v2_merged (elements (d_tips (cs_dag v2_merged))) tip.
Proof.
  split; [by_compute|]. split; [by_compute|].
  destruct (v2_order_exact v2_merged v2_merged_reachable) as (tip & Hl & Hb & _).
  exact (ex_intro _ tip (conj Hl Hb)).
Defined.
Definition ghostdag_v1_genesis : ChainState :=
  genesis_state <| cs_dag ::= fun d => d <| d_consensus_mode := GhostdagDev |>
    <| d_selected_parent_policy := GhostdagInspired |> <| d_merge_set_k := 2 |> |>.
Lemma ghostdag_v1_matches_live_node_witness :
  exists c, classify_merge_set_v1 first_block ghostdag_v1_genesis = Ok c /\
    msc_blue_work (classify_merge_set first_block ghostdag_v1_genesis) = gc_blue_work c.
Proof.
  destruct (classify_merge_set_v1 first_block ghostdag_v1_genesis) as [c|e] eqn:E.
  - exists c. split; [done|].
    apply (ghostdag_v1_matches_live_node ghostdag_v1_genesis first_block c); [|by_decide|by_compute|done].
    exact (node_init "main" GhostdagDev GhostdagInspired 2 _ genesis_state_init).
  - exfalso. revert E. vm_compute. by intros [=].
Defined.
