(* ===== verification/ReplayV2Props.v ===== *)
(** * The version-2 replay is an atomic ledger

    The replay applies a transaction when its inputs are distinct unspent outputs
    and its outpoints are fresh, and does nothing otherwise; it can fail only on
    its order and its genesis.  A materialized snapshot passes its own check, and
    a snapshot that passes has the replayed unspent outputs. *)

From S2P Require Import Prelude Encoding Crypto Types Merkle State Tx Graph Selection Ghostdag.
From S2P Require Import Ordering Mining Genesis Apply ApplyProps Text OrderingV2 OrderingV2Props.
From S2P Require Import SelectionV2 GhostdagV1 GhostdagV1Props Pow Headers Protocol AcceptanceV2.
From S2P Require Import AcceptanceV2Props GenesisV3 ReplayV2.

(** ** The abstract ledger *)

(** A transaction is applicable to a set of unspent outputs. *)
Definition applicable (tx : Transaction) (m : gmap OutPoint Utxo) : Prop :=
  NoDup (spent_outpoints (consumed tx)) /\
  Forall (fun o => is_Some (m !! o)) (spent_outpoints (consumed tx)) /\
  NoDup (map fst (created_outputs tx)) /\
  Forall (fun o => m !! o = None) (map fst (created_outputs tx)).
#[global] Instance applicable_dec tx m : Decision (applicable tx m).
Proof. unfold applicable. apply _. Defined.

Definition ledger_step (height : Z) (m : gmap OutPoint Utxo) (tx : Transaction) : gmap OutPoint Utxo :=
  if decide (applicable tx m)
  then with_created tx height (created_outputs tx) (without (spent_outpoints (consumed tx)) m)
  else m.
(** The transactions of a list of blocks, with the height of their block. *)
Definition ordered_transactions (state : ChainState) (hashes : list Hash) : list (Z * Transaction) :=
  flat_map (fun hash =>
    if bool_decide (hash = d_genesis_hash (cs_dag state)) then [] else
    match d_blocks (cs_dag state) !! hash with
    | Some block => map (pair (h_height (b_header block))) (b_transactions block)
    | None => []
    end) hashes.
Definition ledger (m : gmap OutPoint Utxo) (txs : list (Z * Transaction)) : gmap OutPoint Utxo :=
  foldl (fun m p => ledger_step p.1 m p.2) m txs.
(** How many of them are applied. *)
Fixpoint ledger_applied (m : gmap OutPoint Utxo) (txs : list (Z * Transaction)) : Z :=
  match txs with
  | [] => 0
  | (height, tx) :: txs' =>
      (if decide (applicable tx m) then 1 else 0) + ledger_applied (ledger_step height m tx) txs'
  end.

Lemma ledger_applied_app m l1 l2 :
  ledger_applied m (l1 ++ l2) = ledger_applied m l1 + ledger_applied (ledger m l1) l2.
Proof.
  revert m. induction l1 as [|[height tx] l1 IH]; intros m; cbn; [lia|]. rewrite IH. unfold ledger. lia.
Qed.
Lemma ledger_applied_bound m l : 0 <= ledger_applied m l <= Z.of_nat (length l).
Proof.
  revert m. induction l as [|[height tx] l IH]; intros m; cbn [ledger_applied length]; [lia|].
  specialize (IH (ledger_step height m tx)). case_decide; lia.
Qed.

Lemma collect_created_fresh tx utxos index outputs seen :
  NoDup (map (created_outpoint tx) (seq index (length outputs))) ->
  Forall (fun o => o ∉ seen /\ utxos !! o = None) (map (created_outpoint tx) (seq index (length outputs))) ->
  exists l, collect_created tx utxos index outputs seen = Ok l.
Proof.
  revert index seen. induction outputs as [|o outputs IH]; intros index seen Hnd Hfr; cbn in *; [eauto|].
  apply NoDup_cons in Hnd as [Hn Hnd]. apply Forall_cons in Hfr as [[Hs Hf] Hfr].
  rewrite bool_decide_eq_false_2, bool_decide_eq_false_2 by (done || by rewrite Hf; intros []). cbn.
  destruct (IH (S index) ({[created_outpoint tx index]} ∪ seen) Hnd) as [l ->]; [|eauto].
  rewrite Forall_forall in *. intros x Hx. destruct (Hfr x Hx) as [? ?]. split; [|done].
  apply not_elem_of_union. split; [|done]. intros ->%elem_of_singleton. done.
Qed.
(** [apply_transaction] succeeds on applicable transactions only. *)
Lemma apply_transaction_applicable tx state height r s' :
  apply_transaction tx state height = (r, s') ->
  (is_ok r = true <-> applicable tx (u_utxos (cs_utxo state))).
Proof.
  intros Ha. apply apply_transaction_spec in Ha as Hs. destruct Hs as (_ & _ & Hr). destruct r as [[]|e]; cbn.
  - destruct Hr as [[H1 H2 H3 H4 _ _] _]. done.
  - split; [done|]. intros (Hnd & Hin & Hnd' & Hfr). exfalso. unfold apply_transaction in Ha.
    destruct (collect_created _ _ _ _ _) as [l|e'] eqn:Hl.
    + apply collect_created_Ok in Hl as (El & _ & _).
      destruct (if is_coinbase tx then _ else _) as [ok u] eqn:Hsp. apply consumed_spend in Hsp.
      destruct (spend_inputs_spec _ _ _ _ Hsp) as (spent & rest & Es & Hu & _ & _ & _ & _ & Hrest).
      destruct rest as [|i rest].
      * subst ok. cbn [negb] in Ha.
        destruct (created_outputs_zip tx l El) as (Hz & Hfst & Hsnd). rewrite Hz in Ha.
        destruct (insert_outputs_spec tx height u (created_outputs tx)) as (u' & Hio & _); [done| |by rewrite Hio in Ha].
        rewrite Hu. eapply Forall_impl; [exact Hfr|]. intros o Ho. by apply without_subset.
      * destruct Hrest as [_ Hi]. rewrite Es in Hnd, Hin. unfold spent_outpoints in Hnd, Hin.
        rewrite map_app in Hnd, Hin. cbn in Hnd, Hin. rewrite Hu, lookup_without in Hi.
        apply NoDup_app in Hnd as (_ & Hnd & _).
        rewrite Forall_app, Forall_cons in Hin. destruct Hin as (_ & Hi' & _).
        rewrite decide_False in Hi; [|intros Hx; apply (Hnd _ Hx); set_solver]. rewrite Hi in Hi'. by destruct Hi'.
    + unfold created_outputs in Hnd', Hfr. rewrite fst_zip in Hnd', Hfr by (rewrite length_map, length_seq; lia).
      destruct (collect_created_fresh tx (u_utxos (cs_utxo state)) 0 (tx_outputs tx) ∅) as [l El]; [done| |congruence].
      eapply Forall_impl; [exact Hfr|]. set_solver.
Qed.

(** ** The replay loop *)

Definition replayed (base : ChainState) (txs : list (Z * Transaction)) (w : Replay2State) : Prop :=
  u_utxos (cs_utxo (rw_rebuilt w)) = ledger (u_utxos (cs_utxo base)) txs /\
  index_consistent (cs_utxo (rw_rebuilt w)) /\
  rw_applied w = Z.min (ledger_applied (u_utxos (cs_utxo base)) txs) u64_max /\
  rw_skipped w = Z.min (Z.of_nat (length txs) - ledger_applied (u_utxos (cs_utxo base)) txs) u64_max /\
  Z.of_nat (length (rw_diagnostics w)) = Z.of_nat (length txs) - ledger_applied (u_utxos (cs_utxo base)) txs.

Lemma replay2_transaction_step base pos block txs w tx :
  replayed base txs w ->
  exists w', replay2_transaction pos block w tx = Ok w' /\
    replayed base (txs ++ [(h_height (b_header block), tx)]) w'.
Proof.
  intros (Hu & Hi & Ha & Hs & Hd). unfold replay2_transaction.
  destruct (apply_transaction tx (rw_rebuilt w) (h_height (b_header block))) as [r s'] eqn:Hap.
  pose proof (apply_transaction_applicable _ _ _ _ _ Hap) as Hok. rewrite Hu in Hok.
  apply apply_transaction_spec in Hap as (Hic & _ & Hr). rewrite Hu in Hr.
  pose proof (ledger_applied_bound (u_utxos (cs_utxo base)) txs).
  unfold replayed. unfold ledger at 1. rewrite foldl_app, length_app, Nat2Z.inj_add, ledger_applied_app.
  fold (ledger (u_utxos (cs_utxo base)) txs). cbn. unfold ledger_step.
  destruct r as [[]|e]; cbn in Hok.
  - eexists. split; [reflexivity|]. cbn. rewrite !decide_True by (by apply Hok).
    destruct Hr as [Happ _]. unfold saturating_add. rewrite Ha.
    split_and!; [apply Happ|by apply Hic|unfold u_max; lia|rewrite Hs; f_equal; lia|lia].
  - rewrite !decide_False by (rewrite <- Hok; done).
    destruct Hr as [[label Heq|] _]; (eexists; split; [reflexivity|]); cbn; unfold saturating_add;
      rewrite ?length_app; cbn; (split_and!; [done|done|rewrite Ha; f_equal; lia|rewrite Hs; unfold u_max; lia|lia]).
Qed.

Lemma replay2_transactions_step base pos block txs w l :
  replayed base txs w ->
  exists w', try_fold (replay2_transaction pos block) w l = Ok w' /\
    replayed base (txs ++ map (pair (h_height (b_header block))) l) w'.
Proof.
  revert txs w. induction l as [|tx l IH]; intros txs w Hw; cbn [try_fold map].
  { exists w. by rewrite app_nil_r. }
  destruct (replay2_transaction_step base pos block txs w tx Hw) as (w' & -> & Hw').
  destruct (IH _ _ Hw') as (w'' & -> & Hw''). exists w''. split; [done|]. by rewrite cons_middle, app_assoc.
Qed.

Lemma ordered_transactions_app state l1 l2 :
  ordered_transactions state (l1 ++ l2) = ordered_transactions state l1 ++ ordered_transactions state l2.
Proof. apply flat_map_app. Qed.

(** The loop never fails on stored blocks. *)
Lemma replay2_blocks_step state base (l : list (nat * Hash)) pre w :
  Forall (fun p => is_Some (d_blocks (cs_dag state) !! p.2)) l ->
  replayed base (ordered_transactions state pre) w ->
  exists w', try_fold (replay2_block state) w l = Ok w' /\
    replayed base (ordered_transactions state (pre ++ map snd l)) w'.
Proof.
  revert pre w. induction l as [|[pos hash] l IH]; intros pre w Hst Hw; cbn [try_fold map].
  { exists w. by rewrite app_nil_r. }
  apply Forall_cons in Hst as [[block Hb] Hst]. cbn in Hb.
  assert (exists w', replay2_block state w (pos, hash) = Ok w' /\
    replayed base (ordered_transactions state (pre ++ [hash])) w') as (w' & -> & Hw').
  { unfold replay2_block. rewrite ordered_transactions_app. unfold ordered_transactions at 2. cbn.
    destruct (bool_decide _); cbn; [exists w; by rewrite !app_nil_r|]. rewrite Hb, app_nil_r. cbn.
    by apply replay2_transactions_step. }
  destruct (IH _ _ Hst Hw') as (w'' & -> & Hw''). exists w''. split; [done|]. cbn. by rewrite cons_middle, app_assoc.
Qed.

Section replay_v2_spec.
Context `{HashOrder, Crypto}.

(** What a successful replay returns. *)
Record replay2_ok (state base : ChainState) (od : OrderedDagV2) (r : StateReplayV2) : Prop := {
  ro_order : r2_ordered_dag r = od;
  ro_utxos : u_utxos (r2_utxo r) =
    ledger (u_utxos (cs_utxo base)) (ordered_transactions state (od_blocks od));
  ro_index : index_consistent (r2_utxo r);
  ro_root : compute_state_root (r2_utxo r) = Ok (r2_state_root (r2_diagnostics r));
  ro_applied : r2_applied_transactions (r2_diagnostics r) =
    Z.min (ledger_applied (u_utxos (cs_utxo base)) (ordered_transactions state (od_blocks od))) u64_max;
  ro_skipped : r2_skipped_conflicting_transactions (r2_diagnostics r) =
    Z.min (Z.of_nat (length (r2_conflict_diagnostics (r2_diagnostics r)))) u64_max;
  ro_counted : Z.of_nat (length (r2_conflict_diagnostics (r2_diagnostics r))) =
    Z.of_nat (length (ordered_transactions state (od_blocks od)))
    - ledger_applied (u_utxos (cs_utxo base)) (ordered_transactions state (od_blocks od));
  ro_tip : r2_ordered_dag_tip (r2_diagnostics r) = last (od_blocks od);
  ro_digest : r2_ordered_dag_digest (r2_diagnostics r) = od_digest od;
}.

Lemma map_snd_imap (l : list Hash) : map snd (imap pair l) = l.
Proof. induction l as [|x l IH] using rev_ind; [done|]. by rewrite imap_app, map_app, IH. Qed.

(** With an order and a base state, only the serialization of the state root can
    fail. *)
Lemma rebuild2_spec state od base :
  derive_ordered_dag_v2 state = Ok od -> replay_base_state_for_genesis state = Ok base ->
  index_consistent (cs_utxo base) ->
  match rebuild_authoritative_state_v2 state with
  | Ok r => replay2_ok state base od r
  | Err e => e = None /\ exists u, index_consistent u /\ utxo_state_root_bytes u = None /\
      u_utxos u = ledger (u_utxos (cs_utxo base)) (ordered_transactions state (od_blocks od))
  end.
Proof.
  intros Hod Hb Hi. unfold rebuild_authoritative_state_v2. rewrite Hod, Hb. cbn [map_err]. cbv zeta.
  pose proof (derive_spec state) as Hs. rewrite Hod in Hs. destruct Hs as (prio & _ & Hrule & _).
  set (base' := base <| cs_dag ::= _ |>).
  destruct (replay2_blocks_step state base (imap pair (od_blocks od)) [] (mkReplay2State base' 0 0 []))
    as (w & -> & Hu & Hic & Ha & Hsk & Hd).
  { apply Forall_forall. intros p Hp.
    assert (Hin : p.2 ∈ map snd (imap pair (od_blocks od))) by exact (list_elem_of_fmap_2 snd _ _ Hp).
    rewrite map_snd_imap in Hin. by apply elem_of_dom, (obr_all _ _ _ Hrule). }
  { split_and!; try done. }
  cbn [app] in *. rewrite map_snd_imap in *.
  destruct (compute_state_root (cs_utxo (rw_rebuilt w))) as [root|e] eqn:Hroot; cbn.
  - split; cbn; try done. by rewrite Hd.
  - unfold compute_state_root in Hroot. apply indexes_consistent in Hic as Hv. rewrite Hv in Hroot. cbn [lift map_err] in Hroot.
    destruct (utxo_state_root_bytes (cs_utxo (rw_rebuilt w))) eqn:Hbytes; cbn in Hroot; [done|].
    injection Hroot as <-. split; [done|]. eauto.
Qed.

Lemma rebuild2_Ok state r :
  rebuild_authoritative_state_v2 state = Ok r ->
  exists od base, derive_ordered_dag_v2 state = Ok od /\ replay_base_state_for_genesis state = Ok base.
Proof.
  unfold rebuild_authoritative_state_v2. intros Hr. inv_ok. apply map_err_Ok in Hok. eauto.
Qed.
End replay_v2_spec.

(** ** What the order depends on *)

Definition same_order_inputs (s s' : ChainState) : Prop :=
  d_blocks (cs_dag s') = d_blocks (cs_dag s) /\ d_genesis_hash (cs_dag s') = d_genesis_hash (cs_dag s) /\
  d_selected_chain (cs_dag s') = d_selected_chain (cs_dag s) /\
  d_selected_parents (cs_dag s') = d_selected_parents (cs_dag s) /\
  d_merge_set_blues (cs_dag s') = d_merge_set_blues (cs_dag s) /\
  d_merge_set_reds (cs_dag s') = d_merge_set_reds (cs_dag s) /\
  d_blue_work (cs_dag s') = d_blue_work (cs_dag s).

Lemma try_fold_ext {E A B} (f g : B -> A -> result E B) b l :
  (forall b x, f b x = g b x) -> try_fold f b l = try_fold g b l.
Proof.
  intros Hfg. revert b. induction l as [|x l IH]; intros b; cbn; [done|]. rewrite Hfg. destruct (g b x); [apply IH|done].
Qed.

Section order_frame.
Context `{HashOrder, Crypto} (s s' : ChainState) (Hsame : same_order_inputs s s').

Lemma place_selected_chain_frame index previous chain p :
  place_selected_chain s' index previous chain p = place_selected_chain s index previous chain p.
Proof.
  destruct Hsame as (E1 & _ & _ & E4 & _). revert index previous p.
  induction chain as [|h chain IH]; intros index previous p; cbn [place_selected_chain]; [done|].
  rewrite E1, E4. by repeat (case_match; try done).
Qed.
Lemma classify_anchors_frame selected index chain c :
  classify_anchors s' selected index chain c = classify_anchors s selected index chain c.
Proof.
  destruct Hsame as (E1 & _ & _ & _ & E5 & E6 & _). revert index c.
  induction chain as [|h chain IH]; intros index c; cbn [classify_anchors]; [done|].
  rewrite E5, E6. destruct (or_stop _ _) as [blues|]; [|done]. destruct (or_stop _ _) as [reds|]; [|done].
  rewrite (try_fold_ext (classify_class s' selected (list_to_set reds) index h)
    (classify_class s selected (list_to_set reds) index h)).
  - destruct (try_fold _ _ _); [apply IH|done].
  - intros b x. unfold classify_class. apply try_fold_ext. intros b' x'. unfold classify_hash. by rewrite E1.
Qed.
Lemma build_priorities_frame : build_priorities s' = build_priorities s.
Proof.
  unfold build_priorities. rewrite place_selected_chain_frame.
  destruct Hsame as (E1 & _ & E3 & _). rewrite E1, E3.
  destruct (bool_decide _); [done|]. destruct (place_selected_chain _ _ _ _ _); [|done].
  by rewrite classify_anchors_frame.
Qed.
Lemma ready_key_frame h p : ready_key h s' p = ready_key h s p.
Proof. destruct Hsame as (E1 & _ & _ & _ & _ & _ & E7). unfold ready_key. by rewrite E1, E7. Qed.
Lemma add_parents_frame exempt h seen parents e :
  add_parents s' exempt h seen parents e = add_parents s exempt h seen parents e.
Proof.
  destruct Hsame as (E1 & _). revert seen e.
  induction parents as [|p parents IH]; intros seen e; cbn [add_parents]; [done|].
  rewrite E1. repeat (case_match; try done).
Qed.
Lemma order_loop_frame p children fuel indegree ready ordered :
  order_loop s' p children fuel indegree ready ordered = order_loop s p children fuel indegree ready ordered.
Proof.
  revert indegree ready ordered. induction fuel as [|fuel IH]; intros indegree ready ordered; cbn [order_loop]; [done|].
  destruct (pop_ready ready) as [[k r]|]; [|done].
  rewrite (try_fold_ext (release_child s' p) (release_child s p)).
  - destruct (try_fold _ _ _) as [[? ?]|]; [apply IH|done].
  - intros b x. unfold release_child. by rewrite ready_key_frame.
Qed.

Lemma derive_frame : derive_ordered_dag_v2 s' = derive_ordered_dag_v2 s.
Proof.
  unfold derive_ordered_dag_v2. rewrite build_priorities_frame.
  destruct (build_priorities s) as [p|]; [|done].
  assert (Hc : compact_pruned_checkpoint s' = compact_pruned_checkpoint s /\ retained_floor s' = retained_floor s).
  { unfold compact_pruned_checkpoint, retained_floor. destruct Hsame as (E1 & E2 & _). by rewrite E1, E2. }
  destruct Hc as [-> ->].
  rewrite (try_fold_ext (add_block s' _ _) (add_block s (compact_pruned_checkpoint s) (retained_floor s))).
  2: { intros b x. unfold add_block. by rewrite add_parents_frame. }
  assert (Hi : forall i, initial_ready s' p i = initial_ready s p i).
  { intros i. unfold initial_ready. apply try_fold_ext. intros b x. by rewrite ready_key_frame. }
  destruct Hsame as (E1 & _). unfold order_fuel. rewrite E1.
  destruct (try_fold _ _ _) as [e|]; [|done]. rewrite Hi.
  destruct (initial_ready s p (em_indegree e)); [|done]. by rewrite order_loop_frame.
Qed.
End order_frame.

(** ** Genesis and snapshots *)

Section snapshot_v2.
Context `{HashOrder, Crypto}.

Lemma replay_base_frame s s' :
  d_blocks (cs_dag s') !! d_genesis_hash (cs_dag s') = d_blocks (cs_dag s) !! d_genesis_hash (cs_dag s) ->
  d_genesis_hash (cs_dag s') = d_genesis_hash (cs_dag s) -> cs_chain_id s' = cs_chain_id s ->
  replay_base_state_for_genesis s' = replay_base_state_for_genesis s.
Proof. intros E1 E2 E3. unfold replay_base_state_for_genesis. by rewrite E1, E2, E3. Qed.

Lemma rebuild2_frame s s' :
  same_order_inputs s s' -> cs_chain_id s' = cs_chain_id s ->
  d_consensus_mode (cs_dag s') = d_consensus_mode (cs_dag s) ->
  d_selected_parent_policy (cs_dag s') = d_selected_parent_policy (cs_dag s) ->
  rebuild_authoritative_state_v2 s' = rebuild_authoritative_state_v2 s.
Proof.
  intros Hs Hc Hm Hp. unfold rebuild_authoritative_state_v2. rewrite (derive_frame s s' Hs), Hm, Hp.
  rewrite (replay_base_frame s s'); [|destruct Hs as (-> & -> & _); done|by destruct Hs as (_ & ? & _)|done].
  destruct (map_err _ _) as [od|]; [|done]. destruct (replay_base_state_for_genesis s) as [base|]; [|done]. cbv zeta.
  rewrite (try_fold_ext (replay2_block s') (replay2_block s)); [done|].
  intros b [i h]. unfold replay2_block. destruct Hs as (-> & -> & _). done.
Qed.

Lemma genesis_not_pruned s :
  is_Some (d_blocks (cs_dag s) !! d_genesis_hash (cs_dag s)) -> compact_pruned_checkpoint_floor s = None.
Proof.
  intros Hg. unfold compact_pruned_checkpoint_floor. rewrite (bool_decide_eq_true_2 _ Hg). by rewrite orb_true_r.
Qed.

Lemma rebuild2_genesis s r :
  rebuild_authoritative_state_v2 s = Ok r -> is_Some (d_blocks (cs_dag s) !! d_genesis_hash (cs_dag s)).
Proof.
  intros (od & base & _ & Hb)%rebuild2_Ok. unfold replay_base_state_for_genesis in Hb.
  destruct (d_blocks (cs_dag s) !! d_genesis_hash (cs_dag s)); [by eexists|done].
Qed.
Lemma rebuild2_root s r :
  rebuild_authoritative_state_v2 s = Ok r ->
  compute_state_root (r2_utxo r) = Ok (r2_state_root (r2_diagnostics r)) /\
  r2_ordered_dag_tip (r2_diagnostics r) = last (od_blocks (r2_ordered_dag r)).
Proof.
  unfold rebuild_authoritative_state_v2. intros Hr. inv_ok. cbn. split; [|done]. by apply map_err_Ok in Hok2.
Qed.

(** What a snapshot that passes the check with its genesis records. *)
Lemma verify2_Ok s d :
  is_Some (d_blocks (cs_dag s) !! d_genesis_hash (cs_dag s)) ->
  verify_authoritative_state_snapshot_v2 s = Ok d <->
  exists r, rebuild_authoritative_state_v2 s = Ok r /\ d = r2_diagnostics r /\
    d_ordering_version (cs_dag s) = GHOSTDAG_V1_ORDERING_VERSION /\
    d_ordered_dag (cs_dag s) = od_blocks (r2_ordered_dag r) /\
    d_ordered_dag_tip (cs_dag s) = r2_ordered_dag_tip d /\
    d_ordered_dag_state_root (cs_dag s) = Some (r2_state_root d) /\
    compute_state_root (cs_utxo s) = Ok (r2_state_root d) /\
    d_ordered_dag_conflict_diagnostics (cs_dag s) = r2_conflict_diagnostics d.
Proof.
  intros Hg. unfold verify_authoritative_state_snapshot_v2. rewrite (genesis_not_pruned s Hg). split.
  - intros Hv. destruct (rebuild_authoritative_state_v2 s) as [r|]; [|done].
    destruct (compute_state_root (cs_utxo s)) as [root|] eqn:Hroot; [|done]. cbn in Hv.
    unfold invalid_snapshot in Hv. inv_ok. bool_props. exists r. split_and!; congruence.
  - intros (r & -> & -> & V1 & V2 & V3 & V4 & -> & V6). cbn.
    by rewrite !(bool_decide_eq_true_2 _ eq_refl), (bool_decide_eq_true_2 _ V1), (bool_decide_eq_true_2 _ V2),
      (bool_decide_eq_true_2 _ V3), (bool_decide_eq_true_2 _ V4), (bool_decide_eq_true_2 _ V6).
Qed.
End snapshot_v2.

Section base_v2.
Context `{HashOrder, Crypto}.

Lemma init_v2_facts chain_id s :
  init_chain_state_v2 chain_id = Ok s ->
  cs_chain_id s = chain_id /\ exists g tx,
    d_blocks (cs_dag s) !! d_genesis_hash (cs_dag s) = Some g /\ b_transactions g = [tx] /\
    h_version (b_header g) = 2 /\ tx_version tx = 2 /\ cs_utxo s = genesis_utxo_state_v2 tx.
Proof.
  unfold init_chain_state_v2. intros Hi. inv_ok. rename a into g, a0 into tx. split.
  { unfold init_chain_state in Hok2. by inv_ok. }
  exists g, tx. cbn. rewrite lookup_singleton_eq.
  unfold genesis_block_v2, genesis_transaction_v2 in Hok. unfold expect in Hok0. inv_ok. by cbn in *; simplify_eq.
Qed.
Lemma init_v3_facts chain_id t s :
  init_chain_state_v3 chain_id t = Ok s ->
  exists g, d_blocks (cs_dag s) !! d_genesis_hash (cs_dag s) = Some g /\ b_transactions g = [] /\
    h_version (b_header g) = 2 /\ h_timestamp (b_header g) = t.
Proof.
  unfold init_chain_state_v3. intros Hi. inv_ok. exists a. cbn. rewrite lookup_singleton_eq.
  unfold genesis_block_v3 in Hok. by inv_ok.
Qed.

(** A reachable state can rebuild its genesis, which holds the genesis supply or
    nothing. *)
Lemma v2_base s :
  v2_reachable s ->
  exists base, replay_base_state_for_genesis s = Ok base /\ index_consistent (cs_utxo base) /\
    total_amount (u_utxos (cs_utxo base)) ∈ [0; GENESIS_SUPPLY].
Proof.
  induction 1 as [chain_id s Hi|chain_id t s Hi|s s' _ IH Hs|block identity r s s' Hs IH Hc].
  - exists s. destruct (init_v2_facts _ _ Hi) as (Hch & g & tx & Hg & Ht & Hv & Hvt & Hu).
    unfold replay_base_state_for_genesis. rewrite Hg. cbn. rewrite Ht. cbn. rewrite Hv, Hvt, Hch, Hi. cbn.
    rewrite bool_decide_eq_true_2 by done. rewrite Hu. split_and!; [done|apply genesis_utxo_consistent|].
    unfold total_amount. cbn. rewrite map_fold_singleton. cbn. set_solver.
  - exists s. destruct (init_v3_facts _ _ _ Hi) as (g & Hg & Ht & Hv & Hts).
    destruct (init_chain_state_v3_utxo _ _ _ Hi) as (Hu & Hch & _).
    unfold replay_base_state_for_genesis. rewrite Hg. cbn. rewrite Ht, Hv, Hts, Hch, Hi. cbn.
    rewrite bool_decide_eq_true_2 by done. rewrite Hu. split_and!; [done| |].
    + split; cbn; intros *; rewrite ?lookup_empty; by intros.
    + unfold total_amount. cbn. rewrite map_fold_empty. set_solver.
  - destruct Hs as (E1 & _ & E3 & _ & _ & _ & _ & _ & E9).
    rewrite (replay_base_frame s s'); [done|by rewrite E1, E3|done|done].
  - apply v2_reachable_ok in Hs. pose proof (commit_v2_spec s identity block Hs) as Hspec. rewrite Hc in Hspec.
    destruct Hspec as (_ & Hcand & Hb & _).
    assert (Hframe : d_genesis_hash (cs_dag s') = d_genesis_hash (cs_dag s) /\ cs_chain_id s' = cs_chain_id s).
    { clear Hb Hcand. unfold commit_ghostdag_v1_metadata_for_activated_v2 in Hc. inv_ok. cbn.
      match goal with |- context [foldl ?f ?d ?l] => destruct (push_children_frame (b_hash block) l d) as (t & ch & ->) end.
      done. }
    destruct Hframe as [Hgh Hch]. rewrite (replay_base_frame s s'); [done| |done|done].
    rewrite Hb, Hgh, lookup_insert_ne; [done|]. intros Heq.
    destruct (vo_genesis _ (vo_meta _ Hs)) as (g & Hg & _). rewrite <- Heq, (vc_new _ _ _ Hcand) in Hg. done.
Qed.
End base_v2.

(** ** Theorems *)

(** C19: the replay of rule v2 is an atomic ledger.  In every state a v2 node
    reaches whose order exists, the base state of the replay is its genesis with
    the genesis supply or nothing, and the replay returns the unspent outputs of
    the ledger that applies, in the order of the DAG, every transaction whose
    inputs are distinct unspent outputs and whose outpoints are fresh, and ignores
    every other transaction completely; the counters and diagnostics count exactly
    those.  Nothing else can fail but a state root whose strings are too long to
    serialize. *)
Theorem v2_replay_atomic `{HashOrder, Crypto} s od :
  v2_reachable s -> derive_ordered_dag_v2 s = Ok od ->
  exists base, replay_base_state_for_genesis s = Ok base /\
    total_amount (u_utxos (cs_utxo base)) ∈ [0; GENESIS_SUPPLY] /\
    match rebuild_authoritative_state_v2 s with
    | Ok r => replay2_ok s base od r
    | Err e => e = None /\ exists u, index_consistent u /\ utxo_state_root_bytes u = None /\
        u_utxos u = ledger (u_utxos (cs_utxo base)) (ordered_transactions s (od_blocks od))
    end.
Proof.
  intros Hs Hod. destruct (v2_base s Hs) as (base & Hb & Hi & Ht). exists base.
  split; [done|]. split; [done|]. by apply rebuild2_spec.
Qed.

(** A compact-pruned checkpoint, whose genesis is not stored, has no replay; what its
    check establishes instead. *)
Record pruned_checkpoint `{HashOrder, Crypto} (s : ChainState) (floor : Z) (od : OrderedDagV2)
  (d : StateReplayV2Diagnostics) : Prop := {
  pc_floor : 0 < floor /\ map_Forall (fun _ b => floor <= h_height (b_header b)) (d_blocks (cs_dag s));
  pc_parents : forall h b p, d_blocks (cs_dag s) !! h = Some b -> p ∈ h_parents (b_header b) ->
    d_blocks (cs_dag s) !! p = None -> h_height (b_header b) = floor;
  pc_version : d_ordering_version (cs_dag s) = GHOSTDAG_V1_ORDERING_VERSION;
  pc_order : derive_ordered_dag_v2 s = Ok od;
  pc_recorded : d_ordered_dag (cs_dag s) = od_blocks od /\ d_ordered_dag_tip (cs_dag s) = last (od_blocks od);
  pc_tip : r2_ordered_dag_tip d = last (od_blocks od);
  pc_root : compute_state_root (cs_utxo s) = Ok (r2_state_root d) /\
    d_ordered_dag_state_root (cs_dag s) = Some (r2_state_root d);
  pc_diagnostics : r2_conflict_diagnostics d = d_ordered_dag_conflict_diagnostics (cs_dag s);
  pc_no_replay : forall r, rebuild_authoritative_state_v2 s <> Ok r;
}.
Lemma foldl_min_le (l : list Z) x : foldl Z.min x l <= x /\ Forall (fun y => foldl Z.min x l <= y) l.
Proof.
  revert x. induction l as [|y l IH]; intros x; cbn; [by split; [lia|]|].
  destruct (IH (Z.min x y)) as [Hx Hl]. split; [lia|]. constructor; [lia|done].
Qed.
Lemma pruned_floor `{HashOrder} s floor :
  compact_pruned_checkpoint_floor s = Some floor ->
  0 < floor /\ map_Forall (fun _ b => floor <= h_height (b_header b)) (d_blocks (cs_dag s)).
Proof.
  unfold compact_pruned_checkpoint_floor. destruct (_ || _); [done|].
  destruct (map _ _) as [|h l] eqn:E; [done|]. cbv zeta. destruct (Z.ltb_spec 0 (foldl Z.min h l)); [|done].
  intros [= <-]. split; [done|]. intros k b Hb. destruct (foldl_min_le l h) as [Hh Hl].
  assert (Hin : h_height (b_header b) ∈ h :: l).
  { rewrite <- E. apply list_elem_of_fmap. exists (k, b). split; [done|]. by apply elem_of_map_iter. }
  apply elem_of_cons in Hin as [->|Hin]; [done|]. rewrite Forall_forall in Hl. by apply Hl.
Qed.
Lemma retained_parents_Ok `{HashOrder} s floor :
  check_retained_parents s floor = Ok tt ->
  forall h b p, d_blocks (cs_dag s) !! h = Some b -> p ∈ h_parents (b_header b) ->
    d_blocks (cs_dag s) !! p = None -> h_height (b_header b) = floor.
Proof.
  unfold check_retained_parents. intros Hc h b p Hb Hp Hn. apply try_fold_unit in Hc. rewrite Forall_forall in Hc.
  specialize (Hc (h, b) (proj2 (elem_of_map_iter _ _ _) Hb)). cbn in Hc. apply try_fold_unit in Hc.
  rewrite Forall_forall in Hc. specialize (Hc p Hp). rewrite Hn in Hc. rewrite bool_decide_eq_false_2 in Hc by by intros [? ?].
  destruct (Z.eqb_spec (h_height (b_header b)) floor); [done|]. done.
Qed.
Lemma verify2_pruned `{HashOrder, Crypto} s d :
  d_blocks (cs_dag s) !! d_genesis_hash (cs_dag s) = None -> verify_authoritative_state_snapshot_v2 s = Ok d ->
  exists floor od, compact_pruned_checkpoint_floor s = Some floor /\ pruned_checkpoint s floor od d.
Proof.
  intros Hg. assert (Hno : forall r, rebuild_authoritative_state_v2 s <> Ok r).
  { intros r [? Hr]%rebuild2_genesis. congruence. }
  unfold verify_authoritative_state_snapshot_v2. destruct (compact_pruned_checkpoint_floor s) as [floor|] eqn:Ef.
  2: { destruct (rebuild_authoritative_state_v2 s) as [r|] eqn:Er; [by destruct (Hno r)|done]. }
  unfold verify_compact_pruned_authoritative_checkpoint_v2, invalid_snapshot. intros Hv. exists floor.
  destruct (check_retained_parents s floor) as [[]|] eqn:Hpar; [|by repeat case_match].
  destruct (derive_ordered_dag_v2 s) as [od|] eqn:Hod; [|by repeat case_match].
  destruct (compute_state_root (cs_utxo s)) as [root|] eqn:Hroot; [|by cbn in Hv; repeat case_match].
  destruct (check_diagnostics s) as [[]|]; [|by cbn in Hv; repeat case_match].
  cbn in Hv. inv_ok. bool_props. exists od. split; [done|].
  split; cbn; try done; [by apply pruned_floor|by eapply retained_parents_Ok].
Qed.

(** C20: snapshots of rule v2.  A materialized state passes its own check with the
    diagnostics of the replay it came from, and replays to the same result.  A
    state that holds its genesis and passes the check records the order, tip and
    conflicts of its replay and the state root of the replayed outputs; unless
    SHA-256 collides on the two sets of unspent outputs they are equal.  A state
    without its genesis that passes is a compact-pruned checkpoint: it has no
    replay, only blocks at the retained floor miss parents, and what it records is
    its own order, tip and conflicts and the state root of its own outputs. *)
Theorem snapshot_v2_roundtrip `{HashOrder, Crypto, !CryptoLaws} s :
  (forall m, materialize_authoritative_state_v2 s = Ok m ->
     exists r, rebuild_authoritative_state_v2 s = Ok r /\ rebuild_authoritative_state_v2 m = Ok r /\
       verify_authoritative_state_snapshot_v2 m = Ok (r2_diagnostics r)) /\
  (forall d, is_Some (d_blocks (cs_dag s) !! d_genesis_hash (cs_dag s)) ->
     verify_authoritative_state_snapshot_v2 s = Ok d ->
     exists r, rebuild_authoritative_state_v2 s = Ok r /\ d = r2_diagnostics r /\
       d_ordered_dag (cs_dag s) = od_blocks (r2_ordered_dag r) /\
       d_ordered_dag_tip (cs_dag s) = r2_ordered_dag_tip d /\
       d_ordered_dag_state_root (cs_dag s) = Some (r2_state_root d) /\
       d_ordered_dag_conflict_diagnostics (cs_dag s) = r2_conflict_diagnostics d /\
       compute_state_root (cs_utxo s) = compute_state_root (r2_utxo r) /\
       forall b1 b2, utxos_typed (cs_utxo s) -> utxos_typed (r2_utxo r) ->
         Z.of_nat (size (u_utxos (cs_utxo s))) <= u64_max -> Z.of_nat (size (u_utxos (r2_utxo r))) <= u64_max ->
         utxo_state_root_bytes (cs_utxo s) = Some b1 -> utxo_state_root_bytes (r2_utxo r) = Some b2 ->
         collision_free [b1; b2] -> u_utxos (cs_utxo s) = u_utxos (r2_utxo r)) /\
  (forall d, d_blocks (cs_dag s) !! d_genesis_hash (cs_dag s) = None ->
     verify_authoritative_state_snapshot_v2 s = Ok d ->
     exists floor od, compact_pruned_checkpoint_floor s = Some floor /\ pruned_checkpoint s floor od d).
Proof.
  split_and!.
  - unfold materialize_authoritative_state_v2. intros m Hm.
    destruct (rebuild_authoritative_state_v2 s) as [r|] eqn:Hr; [|done]. injection Hm as <-. exists r.
    split; [done|]. match goal with |- rebuild_authoritative_state_v2 ?x = _ /\ _ => set (m := x) end.
    assert (Hrm : rebuild_authoritative_state_v2 m = Ok r) by (rewrite <- Hr; by apply rebuild2_frame).
    split; [done|]. apply verify2_Ok; [by eapply rebuild2_genesis|]. exists r.
    destruct (rebuild2_root _ _ Hr) as [Hroot _]. by split_and!.
  - intros d Hg (r & Hr & -> & _ & Ho & Htip & Hrec & Hroot & Hd)%verify2_Ok; [|done]. exists r.
    destruct (rebuild2_root _ _ Hr) as [Hroot' _]. split_and!; try done; [by rewrite Hroot|].
    intros. by eapply same_root_same_utxos.
  - intros d. apply verify2_pruned.
Qed.

(** ** Witnesses

    Two branches spend the genesis output; the second one loses. *)

#[local] Existing Instance model_crypto.
#[local] Existing Instance model_crypto_laws.
#[local] Existing Instance list_order.

Definition v2_treasury : OutPoint :=
  default (mkOutPoint "" 0) (fst <$> head (map_to_list (u_utxos (cs_utxo v2_genesis)))).
Definition v2_payment (txid : Hash) (to : Address) : Transaction :=
  mkTransaction txid 2 [mkTxInput v2_treasury "" ""] [mkTxOutput to GENESIS_SUPPLY] 0 1.
Definition v2_spent : ChainState :=
  v2_next (v2_next (v2_next v2_genesis (v2_left <| b_transactions := [v2_payment "t1" "alice"] |>))
    (v2_right <| b_transactions := [v2_payment "t2" "bob"] |>)) v2_merge.

Lemma v2_spent_reachable : v2_reachable v2_spent.
Proof.
  apply v2_next_reachable; [|by_compute]. apply v2_next_reachable; [|by_compute].
  apply v2_next_reachable; [apply v2_genesis_reachable|by_compute].
Qed.
Example v2_spent_replay :
  (fun r => (r2_applied_transactions (r2_diagnostics r), r2_skipped_conflicting_transactions (r2_diagnostics r),
             map (fun p : OutPoint * Utxo => utxo_amount p.2) (map_to_list (u_utxos (r2_utxo r))))) <$>
  result_ok (rebuild_authoritative_state_v2 v2_spent) = Some (1, 1, [GENESIS_SUPPLY]).
Proof. by_compute. Qed.

Lemma v2_replay_atomic_witness :
  exists od base r, derive_ordered_dag_v2 v2_spent = Ok od /\
    rebuild_authoritative_state_v2 v2_spent = Ok r /\ replay2_ok v2_spent base od r.
Proof.
  assert (Hod : is_ok (derive_ordered_dag_v2 v2_spent) = true) by by_compute.
  assert (Hr : is_ok (rebuild_authoritative_state_v2 v2_spent) = true) by by_compute.
  destruct (derive_ordered_dag_v2 v2_spent) as [od|] eqn:E; [|discriminate Hod].
  destruct (v2_replay_atomic v2_spent od v2_spent_reachable E) as (base & _ & _ & Hm).
  destruct (rebuild_authoritative_state_v2 v2_spent) as [r|]; [|discriminate Hr].
  exists od, base, r. split; [reflexivity|]. split; [reflexivity|exact Hm].
Defined.
Lemma snapshot_v2_roundtrip_witness :
  exists m, materialize_authoritative_state_v2 v2_spent = Ok m /\
    is_ok (verify_authoritative_state_snapshot_v2 m) = true /\
    is_ok (verify_authoritative_state_snapshot_v2 v2_spent) = false.
Proof.
  assert (Hm : is_ok (materialize_authoritative_state_v2 v2_spent) = true) by by_compute.
  destruct (materialize_authoritative_state_v2 v2_spent) as [m|] eqn:E; [|discriminate Hm].
  destruct (proj1 (snapshot_v2_roundtrip v2_spent) m E) as (r & _ & _ & Hv).
  exists m. split; [reflexivity|]. split; [by rewrite Hv|by_compute].
Defined.
