(* ===== verification/Covenant.v ===== *)
(** * Covenants ([covenant_v1.rs])

    The six covenant kinds, their parameters and witnesses, the fixed-size
    commitment set and preimage they carry, the canonical bytes they are
    committed and priced by, and the evaluation of a spend.

    A [[u8; 32]] is a list of bytes, as in [ContractV3]; [*_typed] states the
    lengths and widths.  The constructors of [CovenantParametersV1] and
    [CovenantWitnessV1] carry a [P] or [W], since the source gives both the names
    of the kinds; the two [Refund] paths carry their kind. *)

From S2P Require Import Prelude Encoding Crypto ContractV3.

Definition COVENANT_EXECUTION_SEMANTICS_VERSION_V1 : Z := 1.
Definition MAX_COVENANT_AUTHORIZATION_FACTS_V1 : Z := 16.
Definition MAX_COVENANT_PREIMAGE_BYTES_V1 : Z := 64.
Definition COVENANT_PARAMETERS_DOMAIN_V1 : bytes := str_bytes "PulseDAG:covenant-parameters:v1".
Definition COVENANT_WITNESS_DOMAIN_V1 : bytes := str_bytes "PulseDAG:covenant-witness:v1".

Inductive CovenantExecutionError :=
| Contract (e : ContractV3Error)
| UnsupportedExecutionVersion (v : Z)
| EmptyCovenantCommitment (field : string)
| DuplicateRoleCommitment (left right : string)
| CommitmentSetTooLarge (actual max : Z)
| EmptyCommitmentSet
| NonCanonicalCommitmentSet
| NonZeroUnusedCommitment
| PreimageTooLong (actual max : Z)
| NonZeroUnusedPreimage
| InvalidMultisigThreshold (threshold participants : Z)
| DescriptorKindMismatch (descriptor parameters : CovenantKindV1)
| ParametersCommitmentMismatch
| WitnessKindMismatch (witness parameters : CovenantKindV1)
| WitnessBudgetExceeded (actual budget : Z)
| SpendCommitmentMismatch
| TimelockNotMature (current required : Z)
| VaultRecoveryNotMature (current required : Z)
| AuthorizationMissing (role : string)
| UnauthorizedMultisigSigner
| MultisigThresholdNotMet (provided required : Z)
| InvalidEscrowAuthorization
| AtomicSwapClaimExpired (current refund_height : Z)
| AtomicSwapRefundNotMature (current required : Z)
| AtomicSwapPreimageMismatch
| UnexpectedAtomicSwapPreimage
| PaymentChannelStateMismatch
| PaymentChannelSequenceMismatch (provided required : Z)
| PaymentChannelSettlementNotMature (current required : Z)
| InvalidPaymentChannelAuthorization.
#[global] Instance CovenantExecutionError_eq_dec : EqDecision CovenantExecutionError.
Proof. solve_decision. Defined.

(** ** Binary search of a slice ([slice::binary_search])

    The loop halves [size] and keeps the answer in [base .. base + size]; each
    round lowers [size], so [length l] rounds are enough. *)

Fixpoint binary_search_base (fuel : nat) (l : list bytes) (x : bytes) (base size : nat) : nat :=
  match fuel with
  | O => base
  | S fuel =>
      if Nat.leb size 1 then base else
      let half := Nat.div size 2 in
      let mid := (base + half)%nat in
      let base := match bytes_compare (nth mid l []) x with Gt => base | _ => mid end in
      binary_search_base fuel l x base (size - half)
  end.
(** [l.binary_search(x).is_ok()]. *)
Definition binary_search_is_ok (l : list bytes) (x : bytes) : bool :=
  match l with
  | [] => false
  | _ => match bytes_compare (nth (binary_search_base (length l) l x 0 (length l)) l []) x with
         | Eq => true | _ => false
         end
  end.

(** ** The commitment set: a count and sixteen slots *)

Record BoundedCommitmentSetV1 := mkBoundedCommitmentSetV1 {
  bcs_count : Z;
  bcs_entries : list bytes;
}.

Definition zero32 : bytes := replicate 32 Byte.x00.

(** [active.windows(2).any(|w| w[0] >= w[1])]. *)
Fixpoint unsorted_window (l : list bytes) : bool :=
  match l with
  | a :: ((b :: _) as l') =>
      match bytes_compare a b with Lt => false | _ => true end || unsorted_window l'
  | _ => false
  end.

Definition set_validate (s : BoundedCommitmentSetV1) : result CovenantExecutionError unit :=
  if MAX_COVENANT_AUTHORIZATION_FACTS_V1 <? bcs_count s
  then Err (CommitmentSetTooLarge (bcs_count s) MAX_COVENANT_AUTHORIZATION_FACTS_V1)
  else if bcs_count s =? 0 then Err EmptyCommitmentSet
  else
    let active := take (Z.to_nat (bcs_count s)) (bcs_entries s) in
    if existsb all_zero active || unsorted_window active then Err NonCanonicalCommitmentSet
    else if existsb (fun entry => negb (all_zero entry)) (drop (Z.to_nat (bcs_count s)) (bcs_entries s))
    then Err NonZeroUnusedCommitment
    else Ok ().
Definition from_sorted (entries : list bytes) : result CovenantExecutionError BoundedCommitmentSetV1 :=
  let len := Z.of_nat (length entries) in
  if MAX_COVENANT_AUTHORIZATION_FACTS_V1 <? len
  then Err (CommitmentSetTooLarge len MAX_COVENANT_AUTHORIZATION_FACTS_V1)
  else match entries with
  | [] => Err EmptyCommitmentSet
  | _ =>
      let value := mkBoundedCommitmentSetV1 len (entries ++ replicate (16 - length entries) zero32) in
      check set_validate value in Ok value
  end.
Definition set_count (s : BoundedCommitmentSetV1) : result CovenantExecutionError Z :=
  check set_validate s in Ok (bcs_count s).
Definition set_active (s : BoundedCommitmentSetV1) : result CovenantExecutionError (list bytes) :=
  check set_validate s in Ok (take (Z.to_nat (bcs_count s)) (bcs_entries s)).
Definition set_contains (s : BoundedCommitmentSetV1) (value : bytes) : result CovenantExecutionError bool :=
  let? active := set_active s in Ok (binary_search_is_ok active value).
Definition set_encode_canonical (s : BoundedCommitmentSetV1) : result CovenantExecutionError bytes :=
  let? count := set_count s in
  let? active := set_active s in
  Ok (u8_le count ++ concat active).

(** ** The preimage: a length and two 32-byte halves *)

Record BoundedPreimageV1 := mkBoundedPreimageV1 {
  bp_len : Z;
  bp_first : bytes;
  bp_second : bytes;
}.

(** [dst[..src.len()].copy_from_slice(src)] into a zeroed array. *)
Definition pad32 (b : bytes) : bytes := b ++ replicate (32 - length b) Byte.x00.

Definition preimage_from_bytes (b : bytes) : result CovenantExecutionError BoundedPreimageV1 :=
  let len := Z.of_nat (length b) in
  if MAX_COVENANT_PREIMAGE_BYTES_V1 <? len
  then Err (PreimageTooLong len MAX_COVENANT_PREIMAGE_BYTES_V1)
  else Ok (mkBoundedPreimageV1 len (pad32 (take (Nat.min (length b) 32) b))
             (if 32 <? len then pad32 (drop 32 b) else zero32)).
Definition preimage_validate (p : BoundedPreimageV1) : result CovenantExecutionError unit :=
  let len := bp_len p in
  if MAX_COVENANT_PREIMAGE_BYTES_V1 <? len
  then Err (PreimageTooLong len MAX_COVENANT_PREIMAGE_BYTES_V1)
  else
    let nonzero_unused :=
      if len <=? 32
      then negb (all_zero (drop (Z.to_nat len) (bp_first p))) || negb (all_zero (bp_second p))
      else negb (all_zero (drop (Z.to_nat (len - 32)) (bp_second p))) in
    if nonzero_unused then Err NonZeroUnusedPreimage else Ok ().
Definition preimage_len (p : BoundedPreimageV1) : result CovenantExecutionError Z :=
  check preimage_validate p in Ok (bp_len p).
Definition preimage_is_empty (p : BoundedPreimageV1) : result CovenantExecutionError bool :=
  let? len := preimage_len p in Ok (len =? 0).
Definition preimage_to_vec (p : BoundedPreimageV1) : result CovenantExecutionError bytes :=
  check preimage_validate p in
  if bp_len p <=? 32 then Ok (take (Z.to_nat (bp_len p)) (bp_first p))
  else Ok (bp_first p ++ take (Z.to_nat (bp_len p - 32)) (bp_second p)).
Definition preimage_encode_canonical (p : BoundedPreimageV1) : result CovenantExecutionError bytes :=
  let? len := preimage_len p in
  let? b := preimage_to_vec p in
  Ok (u8_le len ++ b).

(** ** Parameters *)

Record TimelockParametersV1 := mkTimelockParametersV1 {
  tl_not_before_height : Z;
  tl_spend_commitment : bytes;
  tl_authorization_key_commitment : bytes;
}.
Record VaultParametersV1 := mkVaultParametersV1 {
  vp_normal_spend_commitment : bytes;
  vp_recovery_spend_commitment : bytes;
  vp_spend_key_commitment : bytes;
  vp_recovery_key_commitment : bytes;
  vp_recovery_height : Z;
}.
Record MultisigParametersV1 := mkMultisigParametersV1 {
  mp_spend_commitment : bytes;
  mp_threshold : Z;
  mp_participants : BoundedCommitmentSetV1;
}.
Record EscrowParametersV1 := mkEscrowParametersV1 {
  ep_release_spend_commitment : bytes;
  ep_refund_spend_commitment : bytes;
  ep_buyer_key_commitment : bytes;
  ep_seller_key_commitment : bytes;
  ep_arbiter_key_commitment : bytes;
}.
Record AtomicSwapParametersV1 := mkAtomicSwapParametersV1 {
  as_claim_spend_commitment : bytes;
  as_refund_spend_commitment : bytes;
  as_secret_hash : bytes;
  as_claim_key_commitment : bytes;
  as_refund_key_commitment : bytes;
  as_refund_height : Z;
}.
Record PaymentChannelParametersV1 := mkPaymentChannelParametersV1 {
  pc_cooperative_spend_commitment : bytes;
  pc_unilateral_spend_commitment : bytes;
  pc_party_a_key_commitment : bytes;
  pc_party_b_key_commitment : bytes;
  pc_state_commitment : bytes;
  pc_sequence : Z;
  pc_settlement_height : Z;
}.
Inductive CovenantParametersV1 :=
| PTimelock (p : TimelockParametersV1)
| PVault (p : VaultParametersV1)
| PMultisig (p : MultisigParametersV1)
| PEscrow (p : EscrowParametersV1)
| PAtomicSwap (p : AtomicSwapParametersV1)
| PPaymentChannel (p : PaymentChannelParametersV1).

#[global] Instance CovenantParametersV1_eq_dec : EqDecision CovenantParametersV1.
Proof.
  assert (EqDecision TimelockParametersV1) by solve_decision.
  assert (EqDecision VaultParametersV1) by solve_decision.
  assert (EqDecision BoundedCommitmentSetV1) by solve_decision.
  assert (EqDecision MultisigParametersV1) by solve_decision.
  assert (EqDecision EscrowParametersV1) by solve_decision.
  assert (EqDecision AtomicSwapParametersV1) by solve_decision.
  assert (EqDecision PaymentChannelParametersV1) by solve_decision.
  solve_decision.
Defined.

Definition parameters_kind (p : CovenantParametersV1) : CovenantKindV1 :=
  match p with
  | PTimelock _ => Timelock | PVault _ => Vault | PMultisig _ => Multisig | PEscrow _ => Escrow
  | PAtomicSwap _ => AtomicSwap | PPaymentChannel _ => PaymentChannel
  end.

Definition ensure_nonzero (field : string) (value : bytes) : result CovenantExecutionError unit :=
  if all_zero value then Err (EmptyCovenantCommitment field) else Ok ().
Definition ensure_distinct (left_name : string) (left : bytes) (right_name : string) (right : bytes)
  : result CovenantExecutionError unit :=
  if bool_decide (left = right) then Err (DuplicateRoleCommitment left_name right_name) else Ok ().
Definition ensure_all_distinct_three (first second third : string * bytes)
  : result CovenantExecutionError unit :=
  check ensure_distinct first.1 first.2 second.1 second.2 in
  check ensure_distinct first.1 first.2 third.1 third.2 in
  ensure_distinct second.1 second.2 third.1 third.2.

Definition parameters_validate (p : CovenantParametersV1) : result CovenantExecutionError unit :=
  match p with
  | PTimelock p =>
      check ensure_nonzero "timelock spend" (tl_spend_commitment p) in
      ensure_nonzero "timelock authorization key" (tl_authorization_key_commitment p)
  | PVault p =>
      check ensure_nonzero "vault normal spend" (vp_normal_spend_commitment p) in
      check ensure_nonzero "vault recovery spend" (vp_recovery_spend_commitment p) in
      check ensure_nonzero "vault spend key" (vp_spend_key_commitment p) in
      check ensure_nonzero "vault recovery key" (vp_recovery_key_commitment p) in
      check ensure_distinct "vault normal spend" (vp_normal_spend_commitment p)
              "vault recovery spend" (vp_recovery_spend_commitment p) in
      ensure_distinct "vault spend key" (vp_spend_key_commitment p)
        "vault recovery key" (vp_recovery_key_commitment p)
  | PMultisig p =>
      check ensure_nonzero "multisig spend" (mp_spend_commitment p) in
      let? participants := set_count (mp_participants p) in
      if (mp_threshold p =? 0) || (participants <? mp_threshold p)
      then Err (InvalidMultisigThreshold (mp_threshold p) participants)
      else Ok ()
  | PEscrow p =>
      check ensure_nonzero "escrow release spend" (ep_release_spend_commitment p) in
      check ensure_nonzero "escrow refund spend" (ep_refund_spend_commitment p) in
      check ensure_nonzero "escrow buyer key" (ep_buyer_key_commitment p) in
      check ensure_nonzero "escrow seller key" (ep_seller_key_commitment p) in
      check ensure_nonzero "escrow arbiter key" (ep_arbiter_key_commitment p) in
      check ensure_distinct "escrow release spend" (ep_release_spend_commitment p)
              "escrow refund spend" (ep_refund_spend_commitment p) in
      ensure_all_distinct_three ("escrow buyer key", ep_buyer_key_commitment p)
        ("escrow seller key", ep_seller_key_commitment p)
        ("escrow arbiter key", ep_arbiter_key_commitment p)
  | PAtomicSwap p =>
      check ensure_nonzero "atomic-swap claim spend" (as_claim_spend_commitment p) in
      check ensure_nonzero "atomic-swap refund spend" (as_refund_spend_commitment p) in
      check ensure_nonzero "atomic-swap secret hash" (as_secret_hash p) in
      check ensure_nonzero "atomic-swap claim key" (as_claim_key_commitment p) in
      check ensure_nonzero "atomic-swap refund key" (as_refund_key_commitment p) in
      check ensure_distinct "atomic-swap claim spend" (as_claim_spend_commitment p)
              "atomic-swap refund spend" (as_refund_spend_commitment p) in
      ensure_distinct "atomic-swap claim key" (as_claim_key_commitment p)
        "atomic-swap refund key" (as_refund_key_commitment p)
  | PPaymentChannel p =>
      check ensure_nonzero "payment-channel cooperative spend" (pc_cooperative_spend_commitment p) in
      check ensure_nonzero "payment-channel unilateral spend" (pc_unilateral_spend_commitment p) in
      check ensure_nonzero "payment-channel party A key" (pc_party_a_key_commitment p) in
      check ensure_nonzero "payment-channel party B key" (pc_party_b_key_commitment p) in
      check ensure_nonzero "payment-channel state" (pc_state_commitment p) in
      check ensure_distinct "payment-channel cooperative spend" (pc_cooperative_spend_commitment p)
              "payment-channel unilateral spend" (pc_unilateral_spend_commitment p) in
      ensure_distinct "payment-channel party A key" (pc_party_a_key_commitment p)
        "payment-channel party B key" (pc_party_b_key_commitment p)
  end.

(** ** Witnesses and the context of a spend *)

Inductive VaultSpendPathV1 := Normal | Recovery.
Inductive EscrowSpendPathV1 := Release | EscrowRefund.
Inductive AtomicSwapSpendPathV1 := Claim | SwapRefund.
Inductive PaymentChannelSpendPathV1 := Cooperative | Unilateral.

Inductive CovenantWitnessV1 :=
| WTimelock (authorization_key_commitment : bytes)
| WVault (path : VaultSpendPathV1) (authorization_key_commitment : bytes)
| WMultisig (authorization_key_commitments : BoundedCommitmentSetV1)
| WEscrow (path : EscrowSpendPathV1) (authorization_key_commitments : BoundedCommitmentSetV1)
| WAtomicSwap (path : AtomicSwapSpendPathV1) (authorization_key_commitment : bytes)
    (preimage : BoundedPreimageV1)
| WPaymentChannel (path : PaymentChannelSpendPathV1) (state_commitment : bytes) (sequence : Z)
    (authorization_key_commitments : BoundedCommitmentSetV1).

Definition witness_kind (w : CovenantWitnessV1) : CovenantKindV1 :=
  match w with
  | WTimelock _ => Timelock | WVault _ _ => Vault | WMultisig _ => Multisig | WEscrow _ _ => Escrow
  | WAtomicSwap _ _ _ => AtomicSwap | WPaymentChannel _ _ _ _ => PaymentChannel
  end.
Definition witness_validate (w : CovenantWitnessV1) : result CovenantExecutionError unit :=
  match w with
  | WTimelock key | WVault _ key => ensure_nonzero "covenant authorization key" key
  | WMultisig keys | WEscrow _ keys => set_validate keys
  | WAtomicSwap _ key preimage =>
      check ensure_nonzero "atomic-swap authorization key" key in preimage_validate preimage
  | WPaymentChannel _ state_commitment _ keys =>
      check ensure_nonzero "payment-channel witness state" state_commitment in set_validate keys
  end.

Record CovenantExecutionContextV1 := mkCovenantExecutionContextV1 {
  cx_version : Z;
  cx_block_height : Z;
  cx_spend_commitment : bytes;
}.
Definition context_validate (c : CovenantExecutionContextV1) : result CovenantExecutionError unit :=
  if negb (cx_version c =? COVENANT_EXECUTION_SEMANTICS_VERSION_V1)
  then Err (UnsupportedExecutionVersion (cx_version c))
  else ensure_nonzero "covenant execution spend" (cx_spend_commitment c).

(** ** Canonical bytes *)

Definition kind_id (k : CovenantKindV1) : Z :=
  match k with
  | Timelock => 1 | Vault => 2 | Multisig => 3 | Escrow => 4 | AtomicSwap => 5
  | PaymentChannel => 6
  end.
Definition path_id_vault (path : VaultSpendPathV1) : Z :=
  match path with Normal => 1 | Recovery => 2 end.
Definition path_id_escrow (path : EscrowSpendPathV1) : Z :=
  match path with Release => 1 | EscrowRefund => 2 end.
Definition path_id_atomic (path : AtomicSwapSpendPathV1) : Z :=
  match path with Claim => 1 | SwapRefund => 2 end.
Definition path_id_channel (path : PaymentChannelSpendPathV1) : Z :=
  match path with Cooperative => 1 | Unilateral => 2 end.
Definition covenant_encode_domain (domain : bytes) : bytes :=
  u32_le (Z.of_nat (length domain)) ++ domain.

Definition canonical_covenant_parameters_bytes_v1 (parameters : CovenantParametersV1)
  : result CovenantExecutionError bytes :=
  check parameters_validate parameters in
  let? body :=
    match parameters with
    | PTimelock p =>
        Ok (u64_le (tl_not_before_height p) ++ tl_spend_commitment p
            ++ tl_authorization_key_commitment p)
    | PVault p =>
        Ok (vp_normal_spend_commitment p ++ vp_recovery_spend_commitment p
            ++ vp_spend_key_commitment p ++ vp_recovery_key_commitment p
            ++ u64_le (vp_recovery_height p))
    | PMultisig p =>
        let? participants := set_encode_canonical (mp_participants p) in
        Ok (mp_spend_commitment p ++ u8_le (mp_threshold p) ++ participants)
    | PEscrow p =>
        Ok (ep_release_spend_commitment p ++ ep_refund_spend_commitment p
            ++ ep_buyer_key_commitment p ++ ep_seller_key_commitment p
            ++ ep_arbiter_key_commitment p)
    | PAtomicSwap p =>
        Ok (as_claim_spend_commitment p ++ as_refund_spend_commitment p ++ as_secret_hash p
            ++ as_claim_key_commitment p ++ as_refund_key_commitment p
            ++ u64_le (as_refund_height p))
    | PPaymentChannel p =>
        Ok (pc_cooperative_spend_commitment p ++ pc_unilateral_spend_commitment p
            ++ pc_party_a_key_commitment p ++ pc_party_b_key_commitment p
            ++ pc_state_commitment p ++ u64_le (pc_sequence p)
            ++ u64_le (pc_settlement_height p))
    end in
  Ok (covenant_encode_domain COVENANT_PARAMETERS_DOMAIN_V1
      ++ u16_le COVENANT_EXECUTION_SEMANTICS_VERSION_V1
      ++ u16_le (kind_id (parameters_kind parameters)) ++ body).

Definition canonical_covenant_witness_bytes_v1 (witness : CovenantWitnessV1)
  : result CovenantExecutionError bytes :=
  check witness_validate witness in
  let? body :=
    match witness with
    | WTimelock key => Ok key
    | WVault path key => Ok (u8_le (path_id_vault path) ++ key)
    | WMultisig keys => set_encode_canonical keys
    | WEscrow path keys =>
        let? b := set_encode_canonical keys in Ok (u8_le (path_id_escrow path) ++ b)
    | WAtomicSwap path key preimage =>
        let? b := preimage_encode_canonical preimage in
        Ok (u8_le (path_id_atomic path) ++ key ++ b)
    | WPaymentChannel path state_commitment sequence keys =>
        let? b := set_encode_canonical keys in
        Ok (u8_le (path_id_channel path) ++ state_commitment ++ u64_le sequence ++ b)
    end in
  Ok (covenant_encode_domain COVENANT_WITNESS_DOMAIN_V1
      ++ u16_le COVENANT_EXECUTION_SEMANTICS_VERSION_V1
      ++ u16_le (kind_id (witness_kind witness)) ++ body).

Section covenant.
Context `{Crypto}.

Definition covenant_parameters_commitment_v1 (parameters : CovenantParametersV1)
  : result CovenantExecutionError bytes :=
  let? b := canonical_covenant_parameters_bytes_v1 parameters in Ok (sha256 b).

Definition descriptor_for_covenant_parameters_v1 (parameters : CovenantParametersV1)
  (witness_budget_bytes : Z) : result CovenantExecutionError CovenantDescriptorV1 :=
  check parameters_validate parameters in
  let? parameters_commitment := covenant_parameters_commitment_v1 parameters in
  let descriptor :=
    mkCovenantDescriptorV1 COVENANT_DESCRIPTOR_VERSION_V1 (parameters_kind parameters)
      parameters_commitment witness_budget_bytes in
  check map_err Contract (covenant_validate descriptor) in
  Ok descriptor.

(** ** Evaluation of a spend *)

Definition require_spend (actual expected : bytes) : result CovenantExecutionError unit :=
  if bool_decide (actual <> expected) then Err SpendCommitmentMismatch else Ok ().
Definition require_authorization (actual expected : bytes) (role : string)
  : result CovenantExecutionError unit :=
  if bool_decide (actual <> expected) then Err (AuthorizationMissing role) else Ok ().
Definition exact_pair (s : BoundedCommitmentSetV1) (first second : bytes)
  : result CovenantExecutionError bool :=
  let? count := set_count s in
  if negb (count =? 2) then Ok false else
  let? has_first := set_contains s first in
  if negb has_first then Ok false else set_contains s second.
(** [exact_pair(s, a, b)? || exact_pair(s, c, d)?]. *)
Definition either_pair (s : BoundedCommitmentSetV1) (p q : bytes * bytes)
  : result CovenantExecutionError bool :=
  let? first := exact_pair s p.1 p.2 in
  if first : bool then Ok true else exact_pair s q.1 q.2.

Definition evaluate_timelock (p : TimelockParametersV1) (authorization : bytes)
  (context : CovenantExecutionContextV1) : result CovenantExecutionError unit :=
  check require_spend (cx_spend_commitment context) (tl_spend_commitment p) in
  if cx_block_height context <? tl_not_before_height p
  then Err (TimelockNotMature (cx_block_height context) (tl_not_before_height p))
  else require_authorization authorization (tl_authorization_key_commitment p) "timelock key".

Definition evaluate_vault (p : VaultParametersV1) (path : VaultSpendPathV1) (authorization : bytes)
  (context : CovenantExecutionContextV1) : result CovenantExecutionError unit :=
  match path with
  | Normal =>
      check require_spend (cx_spend_commitment context) (vp_normal_spend_commitment p) in
      require_authorization authorization (vp_spend_key_commitment p) "vault spend key"
  | Recovery =>
      check require_spend (cx_spend_commitment context) (vp_recovery_spend_commitment p) in
      if cx_block_height context <? vp_recovery_height p
      then Err (VaultRecoveryNotMature (cx_block_height context) (vp_recovery_height p))
      else require_authorization authorization (vp_recovery_key_commitment p) "vault recovery key"
  end.

Definition evaluate_multisig (p : MultisigParametersV1) (authorizations : BoundedCommitmentSetV1)
  (context : CovenantExecutionContextV1) : result CovenantExecutionError unit :=
  check require_spend (cx_spend_commitment context) (mp_spend_commitment p) in
  let? active := set_active authorizations in
  check try_fold (fun _ authorization =>
          let? known := set_contains (mp_participants p) authorization in
          if known : bool then Ok () else Err UnauthorizedMultisigSigner) () active in
  let? provided := set_count authorizations in
  if provided <? mp_threshold p then Err (MultisigThresholdNotMet provided (mp_threshold p))
  else Ok ().

Definition evaluate_escrow (p : EscrowParametersV1) (path : EscrowSpendPathV1)
  (authorizations : BoundedCommitmentSetV1) (context : CovenantExecutionContextV1)
  : result CovenantExecutionError unit :=
  let? valid :=
    match path with
    | Release =>
        check require_spend (cx_spend_commitment context) (ep_release_spend_commitment p) in
        either_pair authorizations (ep_buyer_key_commitment p, ep_seller_key_commitment p)
          (ep_seller_key_commitment p, ep_arbiter_key_commitment p)
    | EscrowRefund =>
        check require_spend (cx_spend_commitment context) (ep_refund_spend_commitment p) in
        either_pair authorizations (ep_buyer_key_commitment p, ep_seller_key_commitment p)
          (ep_buyer_key_commitment p, ep_arbiter_key_commitment p)
    end in
  if negb valid then Err InvalidEscrowAuthorization else Ok ().

Definition evaluate_atomic_swap (p : AtomicSwapParametersV1) (path : AtomicSwapSpendPathV1)
  (authorization : bytes) (preimage : BoundedPreimageV1) (context : CovenantExecutionContextV1)
  : result CovenantExecutionError unit :=
  match path with
  | Claim =>
      check require_spend (cx_spend_commitment context) (as_claim_spend_commitment p) in
      if as_refund_height p <=? cx_block_height context
      then Err (AtomicSwapClaimExpired (cx_block_height context) (as_refund_height p)) else
      check require_authorization authorization (as_claim_key_commitment p) "atomic-swap claim key" in
      let? b := preimage_to_vec preimage in
      if bool_decide (b = []) || bool_decide (sha256 b <> as_secret_hash p)
      then Err AtomicSwapPreimageMismatch else Ok ()
  | SwapRefund =>
      check require_spend (cx_spend_commitment context) (as_refund_spend_commitment p) in
      if cx_block_height context <? as_refund_height p
      then Err (AtomicSwapRefundNotMature (cx_block_height context) (as_refund_height p)) else
      check require_authorization authorization (as_refund_key_commitment p) "atomic-swap refund key" in
      let? empty := preimage_is_empty preimage in
      if negb empty then Err UnexpectedAtomicSwapPreimage else Ok ()
  end.

Definition evaluate_payment_channel (p : PaymentChannelParametersV1)
  (path : PaymentChannelSpendPathV1) (state_commitment : bytes) (sequence : Z)
  (authorizations : BoundedCommitmentSetV1) (context : CovenantExecutionContextV1)
  : result CovenantExecutionError unit :=
  if bool_decide (state_commitment <> pc_state_commitment p) then Err PaymentChannelStateMismatch
  else if negb (sequence =? pc_sequence p)
  then Err (PaymentChannelSequenceMismatch sequence (pc_sequence p)) else
  match path with
  | Cooperative =>
      check require_spend (cx_spend_commitment context) (pc_cooperative_spend_commitment p) in
      let? is_pair := exact_pair authorizations (pc_party_a_key_commitment p) (pc_party_b_key_commitment p) in
      if negb is_pair then Err InvalidPaymentChannelAuthorization else Ok ()
  | Unilateral =>
      check require_spend (cx_spend_commitment context) (pc_unilateral_spend_commitment p) in
      if cx_block_height context <? pc_settlement_height p
      then Err (PaymentChannelSettlementNotMature (cx_block_height context) (pc_settlement_height p))
      else
      let? count := set_count authorizations in
      if negb (count =? 1) then Err InvalidPaymentChannelAuthorization else
      let? has_a := set_contains authorizations (pc_party_a_key_commitment p) in
      let? has_party := if has_a : bool then Ok true
                        else set_contains authorizations (pc_party_b_key_commitment p) in
      if negb has_party then Err InvalidPaymentChannelAuthorization else Ok ()
  end.

Definition evaluate_covenant_v1 (descriptor : CovenantDescriptorV1)
  (parameters : CovenantParametersV1) (witness : CovenantWitnessV1)
  (context : CovenantExecutionContextV1) : result CovenantExecutionError unit :=
  check map_err Contract (covenant_validate descriptor) in
  check parameters_validate parameters in
  check witness_validate witness in
  check context_validate context in
  if bool_decide (cd_kind descriptor <> parameters_kind parameters)
  then Err (DescriptorKindMismatch (cd_kind descriptor) (parameters_kind parameters)) else
  let? commitment := covenant_parameters_commitment_v1 parameters in
  if bool_decide (cd_parameters_commitment descriptor <> commitment)
  then Err ParametersCommitmentMismatch
  else if bool_decide (witness_kind witness <> parameters_kind parameters)
  then Err (WitnessKindMismatch (witness_kind witness) (parameters_kind parameters)) else
  let? witness_bytes := canonical_covenant_witness_bytes_v1 witness in
  let witness_len := Z.of_nat (length witness_bytes) in
  if cd_witness_budget_bytes descriptor <? witness_len
  then Err (WitnessBudgetExceeded witness_len (cd_witness_budget_bytes descriptor))
  else if MAX_COVENANT_WITNESS_BYTES <? witness_len
  then Err (WitnessBudgetExceeded witness_len MAX_COVENANT_WITNESS_BYTES) else
  match parameters, witness with
  | PTimelock p, WTimelock key => evaluate_timelock p key context
  | PVault p, WVault path key => evaluate_vault p path key context
  | PMultisig p, WMultisig keys => evaluate_multisig p keys context
  | PEscrow p, WEscrow path keys => evaluate_escrow p path keys context
  | PAtomicSwap p, WAtomicSwap path key preimage => evaluate_atomic_swap p path key preimage context
  | PPaymentChannel p, WPaymentChannel path state_commitment sequence keys =>
      evaluate_payment_channel p path state_commitment sequence keys context
  | _, _ => Err (WitnessKindMismatch (witness_kind witness) (parameters_kind parameters))
  end.
End covenant.

(** ** The widths of the source's fields *)

Definition set_typed (s : BoundedCommitmentSetV1) : Prop :=
  in_u 8 (bcs_count s) /\ length (bcs_entries s) = 16%nat /\ Forall hash32 (bcs_entries s).
Definition preimage_typed (p : BoundedPreimageV1) : Prop :=
  in_u 8 (bp_len p) /\ hash32 (bp_first p) /\ hash32 (bp_second p).
Definition parameters_typed (p : CovenantParametersV1) : Prop :=
  match p with
  | PTimelock p =>
      in_u 64 (tl_not_before_height p) /\ hash32 (tl_spend_commitment p) /\
      hash32 (tl_authorization_key_commitment p)
  | PVault p =>
      hash32 (vp_normal_spend_commitment p) /\ hash32 (vp_recovery_spend_commitment p) /\
      hash32 (vp_spend_key_commitment p) /\ hash32 (vp_recovery_key_commitment p) /\
      in_u 64 (vp_recovery_height p)
  | PMultisig p =>
      hash32 (mp_spend_commitment p) /\ in_u 8 (mp_threshold p) /\ set_typed (mp_participants p)
  | PEscrow p =>
      hash32 (ep_release_spend_commitment p) /\ hash32 (ep_refund_spend_commitment p) /\
      hash32 (ep_buyer_key_commitment p) /\ hash32 (ep_seller_key_commitment p) /\
      hash32 (ep_arbiter_key_commitment p)
  | PAtomicSwap p =>
      hash32 (as_claim_spend_commitment p) /\ hash32 (as_refund_spend_commitment p) /\
      hash32 (as_secret_hash p) /\ hash32 (as_claim_key_commitment p) /\
      hash32 (as_refund_key_commitment p) /\ in_u 64 (as_refund_height p)
  | PPaymentChannel p =>
      hash32 (pc_cooperative_spend_commitment p) /\ hash32 (pc_unilateral_spend_commitment p) /\
      hash32 (pc_party_a_key_commitment p) /\ hash32 (pc_party_b_key_commitment p) /\
      hash32 (pc_state_commitment p) /\ in_u 64 (pc_sequence p) /\ in_u 64 (pc_settlement_height p)
  end.
Definition witness_typed (w : CovenantWitnessV1) : Prop :=
  match w with
  | WTimelock key | WVault _ key => hash32 key
  | WMultisig keys | WEscrow _ keys => set_typed keys
  | WAtomicSwap _ key preimage => hash32 key /\ preimage_typed preimage
  | WPaymentChannel _ state_commitment sequence keys =>
      hash32 state_commitment /\ in_u 64 sequence /\ set_typed keys
  end.
#[global] Instance set_typed_dec s : Decision (set_typed s).
Proof. unfold set_typed. apply _. Defined.
#[global] Instance parameters_typed_dec p : Decision (parameters_typed p).
Proof. destruct p; unfold parameters_typed; apply _. Defined.
#[global] Instance witness_typed_dec w : Decision (witness_typed w).
Proof. destruct w; unfold witness_typed, preimage_typed; apply _. Defined.
