(* ===== verification/CovenantUtxo.v ===== *)
(** * Covenants attached to outputs ([covenant_utxo_v1.rs])

    The attachment that binds a covenant descriptor to one unspent output under
    one activation identity, and the validation of a spend of it.  [From]
    conversions of the two inner error types are [map_err] with the constructors
    [UtxoContract] and [UtxoCovenant]. *)

From S2P Require Import Prelude Encoding Crypto Types ContractV3 Covenant.

Definition COVENANT_UTXO_ATTACHMENT_VERSION_V1 : Z := 1.
Definition COVENANT_UTXO_COMMITMENT_DOMAIN_V1 : bytes := str_bytes "PulseDAG:covenant-utxo:v1".
Definition COVENANT_UTXO_ATTACHMENT_DOMAIN_V1 : bytes :=
  str_bytes "PulseDAG:covenant-utxo-attachment:v1".

Inductive CovenantUtxoV1Error :=
| UnsupportedAttachmentVersion (v : Z)
| EmptyUtxoCommitment
| UtxoCommitmentMismatch
| UtxoCanonicalLengthOverflow
| UtxoContract (e : ContractV3Error)
| UtxoCovenant (e : CovenantExecutionError).

Record CovenantUtxoAttachmentV1 := mkCovenantUtxoAttachmentV1 {
  ca_version : Z;
  ca_utxo_commitment : bytes;
  ca_covenant : CovenantDescriptorV1;
}.
Record CovenantUtxoSpendValidationV1 := mkCovenantUtxoSpendValidationV1 {
  sv_attachment_commitment : bytes;
  sv_utxo_commitment : bytes;
  sv_parameters_commitment : bytes;
  sv_witness_bytes : Z;
}.

Definition attachment_validate (a : CovenantUtxoAttachmentV1) : result CovenantUtxoV1Error unit :=
  if negb (ca_version a =? COVENANT_UTXO_ATTACHMENT_VERSION_V1)
  then Err (UnsupportedAttachmentVersion (ca_version a))
  else if all_zero (ca_utxo_commitment a) then Err EmptyUtxoCommitment
  else map_err UtxoContract (covenant_validate (ca_covenant a)).

Definition covenant_kind_id (k : CovenantKindV1) : Z :=
  match k with
  | Timelock => 1 | Vault => 2 | Multisig => 3 | Escrow => 4 | AtomicSwap => 5
  | PaymentChannel => 6
  end.

Definition canonical_covenant_utxo_attachment_bytes_v1 (a : CovenantUtxoAttachmentV1)
  : result CovenantUtxoV1Error bytes :=
  check attachment_validate a in
  ok_or (emit [encode_len_prefixed COVENANT_UTXO_ATTACHMENT_DOMAIN_V1;
               fixed 2 (ca_version a);
               raw (ca_utxo_commitment a);
               fixed 2 (cd_version (ca_covenant a));
               fixed 2 (covenant_kind_id (cd_kind (ca_covenant a)));
               raw (cd_parameters_commitment (ca_covenant a));
               fixed 4 (cd_witness_budget_bytes (ca_covenant a))])
        UtxoCanonicalLengthOverflow.

(** The bytes [covenant_utxo_commitment_v1] hashes. *)
Definition covenant_utxo_bytes_v1 (fingerprint : bytes) (utxo : Utxo) : option bytes :=
  emit [encode_len_prefixed COVENANT_UTXO_COMMITMENT_DOMAIN_V1;
        raw fingerprint;
        encode_len_prefixed (str_bytes (op_txid (utxo_outpoint utxo)));
        fixed 4 (op_index (utxo_outpoint utxo));
        encode_len_prefixed (str_bytes (utxo_address utxo));
        fixed 8 (utxo_amount utxo);
        fixed 1 (Z.b2z (utxo_coinbase utxo));
        fixed 8 (utxo_height utxo)].

Section covenant_utxo.
Context `{Crypto}.

Definition attachment_commitment (a : CovenantUtxoAttachmentV1) : result CovenantUtxoV1Error bytes :=
  let? b := canonical_covenant_utxo_attachment_bytes_v1 a in Ok (sha256 b).

Definition covenant_utxo_commitment_v1 (identity : ProgrammabilityActivationIdentity) (utxo : Utxo)
  : result CovenantUtxoV1Error bytes :=
  let? fingerprint := map_err UtxoContract (identity_fingerprint identity) in
  let? out := ok_or (covenant_utxo_bytes_v1 fingerprint utxo) UtxoCanonicalLengthOverflow in
  Ok (sha256 out).

Definition attach_covenant_to_utxo_v1 (identity : ProgrammabilityActivationIdentity) (utxo : Utxo)
  (parameters : CovenantParametersV1) (witness_budget_bytes : Z)
  : result CovenantUtxoV1Error CovenantUtxoAttachmentV1 :=
  let? covenant :=
    map_err UtxoCovenant (descriptor_for_covenant_parameters_v1 parameters witness_budget_bytes) in
  let? utxo_commitment := covenant_utxo_commitment_v1 identity utxo in
  let attachment :=
    mkCovenantUtxoAttachmentV1 COVENANT_UTXO_ATTACHMENT_VERSION_V1 utxo_commitment covenant in
  check attachment_validate attachment in
  Ok attachment.

Definition validate_covenanted_utxo_spend_v1 (expected_identity : ProgrammabilityActivationIdentity)
  (attachment : CovenantUtxoAttachmentV1) (utxo : Utxo) (parameters : CovenantParametersV1)
  (witness : CovenantWitnessV1) (context : CovenantExecutionContextV1)
  : result CovenantUtxoV1Error CovenantUtxoSpendValidationV1 :=
  check attachment_validate attachment in
  let? utxo_commitment := covenant_utxo_commitment_v1 expected_identity utxo in
  if bool_decide (ca_utxo_commitment attachment <> utxo_commitment)
  then Err UtxoCommitmentMismatch else
  check map_err UtxoCovenant
    (evaluate_covenant_v1 (ca_covenant attachment) parameters witness context) in
  let? witness_b := map_err UtxoCovenant (canonical_covenant_witness_bytes_v1 witness) in
  let? witness_bytes := ok_or (try_into 32 (Z.of_nat (length witness_b))) UtxoCanonicalLengthOverflow in
  let? attachment_c := attachment_commitment attachment in
  let? parameters_c := map_err UtxoCovenant (covenant_parameters_commitment_v1 parameters) in
  Ok (mkCovenantUtxoSpendValidationV1 attachment_c utxo_commitment parameters_c witness_bytes).
End covenant_utxo.
