(* ===== verification/CovenantProps.v ===== *)
(** * Properties of covenants

    The binary search on a valid commitment set decides membership; the canonical
    bytes of parameters determine them; a spend is accepted exactly when the
    declarative [authorized] holds; and an attachment opens for one output, one
    identity and one parameter set only. *)

From S2P Require Import Prelude Encoding Crypto Types ContractV3 Covenant CovenantUtxo.

(** ** The order of byte strings *)

#[global] Instance bytes_compare_order : CmpOrder bytes_compare.
Proof.
  split; [split|].
  - intros a. induction a as [|x a IH]; intros [|y b]; simpl; try done.
    rewrite (IH b), (Z.compare_antisym (Z_of_byte x)). by destruct (Z_of_byte x ?= Z_of_byte y).
  - intros a. induction a as [|x a IH]; intros [|y b] [|z c]; simpl; try done.
    specialize (IH b c).
    destruct (Z.compare_spec (Z_of_byte x) (Z_of_byte y)), (Z.compare_spec (Z_of_byte y) (Z_of_byte z)),
      (Z.compare_spec (Z_of_byte x) (Z_of_byte z)); simpl; try done; try lia; auto.
  - intros a. induction a as [|x a IH]; intros [|y b]; simpl; try done.
    rewrite then_with_Eq. intros [E ?%IH]. apply Z.compare_eq in E. subst. f_equal.
    apply (f_equal byte_of_Z) in E. by rewrite !byte_of_Z_of_byte in E.
Qed.

Definition bytes_lt (a b : bytes) : Prop := bytes_compare a b = Lt.
#[global] Instance bytes_lt_trans : Transitive bytes_lt.
Proof.
  unfold bytes_lt. intros a b c Hab Hbc.
  destruct (bytes_compare a c) eqn:Hac; [|done|].
  - apply cmp_eq in Hac as <-. by rewrite (cmp_opp (cmp:=bytes_compare) a b), Hab in Hbc.
  - destruct (cmp_trans (cmp:=bytes_compare) a b c); by rewrite ?Hab, ?Hbc, ?Hac.
Qed.
Lemma bytes_lt_irrefl a : ~ bytes_lt a a.
Proof. unfold bytes_lt. by rewrite (cmp_refl bytes_compare). Qed.

Lemma unsorted_window_false l : unsorted_window l = false <-> StronglySorted bytes_lt l.
Proof.
  split.
  - intros Hl. apply Sorted_StronglySorted; [apply _|].
    induction l as [|a [|b l] IH]; [by repeat constructor..|]. cbn in Hl.
    apply orb_false_iff in Hl as [Hab Hl]. constructor; [by apply IH|]. constructor.
    unfold bytes_lt. by destruct (bytes_compare a b).
  - induction 1 as [|a l Hl IH Ha]; [done|]. destruct l as [|b l]; [done|].
    inversion Ha as [|?? Hab]. cbn. unfold bytes_lt in Hab. by rewrite Hab.
Qed.
Lemma bytes_sorted_NoDup l : StronglySorted bytes_lt l -> NoDup l.
Proof.
  induction 1 as [|a l Hl IH Ha]; constructor; [|done].
  intros Hin. rewrite Forall_forall in Ha. by apply (bytes_lt_irrefl a), Ha.
Qed.

(** ** Binary search decides membership *)

Lemma sorted_lookup_lt l i j a b :
  StronglySorted bytes_lt l -> l !! i = Some a -> l !! j = Some b -> (i < j)%nat -> bytes_lt a b.
Proof.
  intros Hs. revert i j. induction Hs as [|x l Hl IH Hx]; intros i j Hi Hj Hij; [done|].
  destruct j as [|j]; [lia|]. destruct i as [|i]; simpl in *.
  - simplify_eq. rewrite Forall_forall in Hx. by eapply Hx, list_elem_of_lookup_2.
  - apply (IH i j); [done..|lia].
Qed.

(** The loop never loses the index of [x]. *)
Lemma binary_search_base_spec fuel l x base size :
  StronglySorted bytes_lt l -> (1 <= size <= fuel)%nat -> (base + size <= length l)%nat ->
  let r := binary_search_base fuel l x base size in
  (r < length l)%nat /\
  forall i, l !! i = Some x -> (base <= i < base + size)%nat -> i = r.
Proof.
  intros Hs. revert base size. induction fuel as [|fuel IH]; intros base size Hsz Hlen r; [lia|].
  unfold r. cbn [binary_search_base]. destruct (Nat.leb_spec size 1) as [Hle|Hgt]; [split; lia|].
  assert (Hhalf : (1 <= size / 2 /\ 2 * (size / 2) <= size)%nat).
  { split; [apply (Nat.div_le_lower_bound size 2 1); lia|apply Nat.Div0.mul_div_le]. }
  set (half := (size / 2)%nat) in *. clearbody half. cbv zeta.
  destruct (lookup_lt_is_Some_2 l (base + half)%nat ltac:(lia)) as [m Hm].
  rewrite (nth_lookup_Some _ _ _ _ Hm).
  set (base' := match bytes_compare m x with Gt => base | _ => (base + half)%nat end).
  assert (Hb : (base' = base /\ bytes_compare m x = Gt) \/
               (base' = (base + half)%nat /\ bytes_compare m x <> Gt))
    by (unfold base'; destruct (bytes_compare m x); intuition congruence).
  destruct (IH base' (size - half)%nat ltac:(lia) ltac:(lia)) as [Hlt Hin]. split; [done|].
  intros i Hi Hrange. apply Hin; [done|].
  destruct Hb as [[-> Hcmp]|[-> Hcmp]].
  - enough (~ (base + half <= i)%nat) by lia. intros Hge.
    assert (cmp_le bytes_compare m x) as Hle'; [|by apply Hle'].
    destruct (decide (i = base + half)%nat) as [->|]; [simplify_eq; unfold cmp_le; by rewrite (cmp_refl bytes_compare)|].
    unfold cmp_le. rewrite (sorted_lookup_lt l (base + half)%nat i m x); [done..|lia].
  - enough (~ (i < base + half)%nat) by lia. intros Hlt'. apply Hcmp.
    rewrite (cmp_opp (cmp:=bytes_compare) x m). by rewrite (sorted_lookup_lt l i (base + half)%nat x m).
Qed.

Lemma binary_search_spec l x :
  StronglySorted bytes_lt l -> binary_search_is_ok l x = bool_decide (x ∈ l).
Proof.
  intros Hs. unfold binary_search_is_ok. destruct l as [|a l'].
  { symmetry. apply bool_decide_eq_false, not_elem_of_nil. }
  set (l := a :: l') in *.
  destruct (binary_search_base_spec (length l) l x 0 (length l) Hs) as [Hr Hin];
    [unfold l; simpl; lia..|].
  set (r := binary_search_base _ _ _ _ _) in *. clearbody r.
  destruct (lookup_lt_is_Some_2 l r Hr) as [m Hm]. rewrite (nth_lookup_Some _ _ _ _ Hm).
  destruct (bool_decide_reflect (x ∈ l)) as [Hx|Hx].
  - apply list_elem_of_lookup in Hx as [i Hi]. pose proof (lookup_lt_Some _ _ _ Hi).
    rewrite <- (Hin i) in Hm by (done || lia). simplify_eq. by rewrite (cmp_refl bytes_compare).
  - destruct (bytes_compare m x) eqn:E; [|done..]. apply cmp_eq in E as ->.
    destruct Hx. by eapply list_elem_of_lookup_2.
Qed.

(** ** Commitment sets and preimages as the values they hold *)

Definition members (s : BoundedCommitmentSetV1) : list bytes :=
  take (Z.to_nat (bcs_count s)) (bcs_entries s).
Definition preimage_bytes (p : BoundedPreimageV1) : bytes :=
  take (Z.to_nat (bp_len p)) (bp_first p ++ bp_second p).

Lemma existsb_nonzero l :
  Forall hash32 l -> existsb (fun e => negb (all_zero e)) l = false -> l = replicate (length l) zero32.
Proof.
  unfold hash32. induction 1 as [|e l He Hl IH]; [done|]. cbn. rewrite orb_false_iff, negb_false_iff.
  intros [E%all_zero_replicate ?]. rewrite He in E. by rewrite E, IH at 1.
Qed.

(** A valid set: between one and sixteen members, strictly sorted, none of them
    zero, and nothing behind them. *)
Lemma set_validate_spec s :
  set_typed s -> set_validate s = Ok () ->
  1 <= bcs_count s <= 16 /\ Z.of_nat (length (members s)) = bcs_count s /\
  StronglySorted bytes_lt (members s) /\
  bcs_entries s = members s ++ replicate (16 - length (members s)) zero32.
Proof.
  unfold set_typed, set_validate, members. intros (Hc & Hlen & Hty) Hv. inv_ok. bool_props.
  unfold MAX_COVENANT_AUTHORIZATION_FACTS_V1, in_u in *.
  assert (Hl : length (take (Z.to_nat (bcs_count s)) (bcs_entries s)) = Z.to_nat (bcs_count s))
    by (rewrite length_take; lia).
  rewrite Hl. split_and!; [lia..|by apply unsorted_window_false|].
  rewrite <- (take_drop (Z.to_nat (bcs_count s)) (bcs_entries s)) at 1. f_equal.
  rewrite (existsb_nonzero (drop _ _)); [|by apply Forall_drop|done]. by rewrite length_drop, Hlen.
Qed.

Lemma set_active_members s : set_validate s = Ok () -> set_active s = Ok (members s).
Proof. intros Hv. unfold set_active. by rewrite Hv. Qed.
Lemma set_count_members s : set_validate s = Ok () -> set_count s = Ok (bcs_count s).
Proof. intros Hv. unfold set_count. by rewrite Hv. Qed.
Lemma set_contains_members s x :
  set_typed s -> set_validate s = Ok () -> set_contains s x = Ok (bool_decide (x ∈ members s)).
Proof.
  intros Hty Hv. unfold set_contains. rewrite (set_active_members s Hv).
  by rewrite binary_search_spec by apply (set_validate_spec s Hty Hv).
Qed.
Lemma set_encode_members s :
  set_validate s = Ok () -> set_encode_canonical s = Ok (u8_le (bcs_count s) ++ concat (members s)).
Proof.
  intros Hv. unfold set_encode_canonical. by rewrite set_count_members, set_active_members.
Qed.
Lemma members_nodup s : set_typed s -> set_validate s = Ok () -> NoDup (members s).
Proof. intros Hty Hv. by apply bytes_sorted_NoDup, (set_validate_spec s Hty Hv). Qed.
Lemma members_typed s : set_typed s -> Forall hash32 (members s).
Proof. intros (_ & _ & Hty). by apply Forall_take. Qed.

Lemma exact_pair_spec s a b :
  set_typed s -> set_validate s = Ok () -> a <> b ->
  exact_pair s a b = Ok (bool_decide (members s ≡ₚ [a; b])).
Proof.
  intros Hty Hv Hab. destruct (set_validate_spec s Hty Hv) as (_ & Hlen & _).
  pose proof (members_nodup s Hty Hv) as Hnd.
  unfold exact_pair. rewrite (set_count_members s Hv). rewrite !set_contains_members by done.
  destruct (Z.eqb_spec (bcs_count s) 2) as [E|E]; cbn [negb].
  - destruct (bool_decide_reflect (a ∈ members s)) as [Ha|Ha]; cbn [negb].
    + f_equal. apply bool_decide_ext. split; [|intros ->; set_solver].
      intros Hb. symmetry.
      apply submseteq_length_Permutation; [|simpl; lia].
      apply NoDup_submseteq; [|set_solver]. repeat constructor; set_solver.
    + symmetry. f_equal. apply bool_decide_eq_false. intros Hp. apply Ha. rewrite Hp. set_solver.
  - symmetry. f_equal. apply bool_decide_eq_false. intros Hp%Permutation_length. simpl in Hp. lia.
Qed.
Lemma either_pair_spec s p q :
  set_typed s -> set_validate s = Ok () -> p.1 <> p.2 -> q.1 <> q.2 ->
  either_pair s p q =
  Ok (bool_decide (members s ≡ₚ [p.1; p.2] \/ members s ≡ₚ [q.1; q.2])).
Proof.
  intros Hty Hv Hp Hq. unfold either_pair. rewrite !exact_pair_spec by done.
  rewrite bool_decide_or. by destruct (bool_decide (members s ≡ₚ [p.1; p.2])).
Qed.

Lemma preimage_validate_spec p :
  preimage_typed p -> preimage_validate p = Ok () ->
  preimage_to_vec p = Ok (preimage_bytes p) /\ Z.of_nat (length (preimage_bytes p)) = bp_len p /\
  bp_len p <= 64.
Proof.
  unfold preimage_typed, hash32, in_u. intros (Hl & Hf & Hs) Hv. unfold preimage_to_vec. rewrite Hv.
  unfold preimage_validate, MAX_COVENANT_PREIMAGE_BYTES_V1, preimage_bytes in *.
  assert (bp_len p <= 64) by (inv_ok; bool_props; lia).
  split_and!; [|rewrite length_take, length_app; lia|lia].
  destruct (Z.leb_spec (bp_len p) 32).
  - by rewrite take_app_le by lia.
  - f_equal. rewrite take_app_ge by lia. do 2 f_equal. lia.
Qed.

(** The constructors keep what they are given. *)
Lemma preimage_roundtrip b :
  Z.of_nat (length b) <= 64 ->
  exists p, preimage_from_bytes b = Ok p /\ preimage_validate p = Ok () /\ preimage_to_vec p = Ok b.
Proof.
  intros Hb. unfold preimage_from_bytes, MAX_COVENANT_PREIMAGE_BYTES_V1.
  rewrite (proj2 (Z.ltb_ge _ _)) by lia. eexists. split; [done|].
  set (p := mkBoundedPreimageV1 _ _ _).
  assert (Hv : preimage_validate p = Ok ()).
  { unfold preimage_validate, MAX_COVENANT_PREIMAGE_BYTES_V1, p, pad32. cbn [bp_len bp_first bp_second].
    rewrite (proj2 (Z.ltb_ge 64 _)) by lia. rewrite Nat2Z.id.
    destruct (Z.leb_spec (Z.of_nat (length b)) 32).
    - rewrite (proj2 (Z.ltb_ge 32 _)) by lia. rewrite (take_ge b), drop_app_length by lia.
      unfold zero32. by rewrite !all_zero_zeros.
    - rewrite (proj2 (Z.ltb_lt 32 _)) by lia.
      replace (Z.to_nat (Z.of_nat (length b) - 32)) with (length (drop 32 b)) by (rewrite length_drop; lia).
      by rewrite drop_app_length, all_zero_zeros. }
  split; [done|]. unfold preimage_to_vec. rewrite Hv. unfold p, pad32. cbn [bp_len bp_first bp_second].
  rewrite Nat2Z.id. destruct (Z.leb_spec (Z.of_nat (length b)) 32).
  - rewrite (take_ge b) by lia. by rewrite take_app_length.
  - rewrite (proj2 (Z.ltb_lt 32 _)) by lia. f_equal.
    replace (Z.to_nat (Z.of_nat (length b) - 32)) with (length (drop 32 b)) by (rewrite length_drop; lia).
    rewrite take_app_length. replace (length b `min` 32)%nat with 32%nat by lia.
    rewrite length_take. replace (32 - 32 `min` length b)%nat with 0%nat by lia.
    cbn [replicate]. by rewrite app_nil_r, take_drop.
Qed.
Lemma from_sorted_members l s :
  from_sorted l = Ok s -> set_validate s = Ok () /\ members s = l.
Proof.
  unfold from_sorted, members. intros E. destruct l as [|a l].
  { by inv_ok. }
  inv_ok. match goal with u : unit |- _ => destruct u end. split; [done|]. cbn [bcs_count bcs_entries].
  rewrite Nat2Z.id. exact (take_app_length (a :: l) _).
Qed.

(** ** What a spend needs *)

(** The number of bytes a witness is charged: a 36-byte frame and its body. *)
Definition witness_size (w : CovenantWitnessV1) : Z :=
  36 + match w with
       | WTimelock _ => 32
       | WVault _ _ => 33
       | WMultisig keys => 1 + 32 * bcs_count keys
       | WEscrow _ keys => 2 + 32 * bcs_count keys
       | WAtomicSwap _ _ preimage => 34 + bp_len preimage
       | WPaymentChannel _ _ _ keys => 42 + 32 * bcs_count keys
       end.

Lemma length_concat_hash32 l : Forall hash32 l -> Z.of_nat (length (concat l)) = 32 * Z.of_nat (length l).
Proof. unfold hash32. induction 1; cbn [concat length]; [done|]. rewrite length_app. lia. Qed.

Lemma canonical_witness_size w :
  witness_typed w -> witness_validate w = Ok () ->
  exists b, canonical_covenant_witness_bytes_v1 w = Ok b /\ Z.of_nat (length b) = witness_size w /\
            witness_size w <= 590.
Proof.
  assert (Hset : forall s, set_typed s -> set_validate s = Ok () -> exists b, set_encode_canonical s = Ok b /\
    Z.of_nat (length b) = 1 + 32 * bcs_count s /\ bcs_count s <= 16).
  { intros s Hty Hv. destruct (set_validate_spec s Hty Hv) as (Hc & Hl & _).
    eexists. split; [by apply set_encode_members|]. rewrite length_app.
    pose proof (length_concat_hash32 _ (members_typed s Hty)). unfold u8_le.
    rewrite length_le_bytes. lia. }
  assert (Hpre : forall p, preimage_typed p -> preimage_validate p = Ok () -> exists b,
    preimage_encode_canonical p = Ok b /\ Z.of_nat (length b) = 1 + bp_len p /\ bp_len p <= 64).
  { intros p Hty Hv. destruct (preimage_validate_spec p Hty Hv) as (Hb & Hl & Hm).
    unfold preimage_encode_canonical, preimage_len. rewrite Hv, Hb. eexists. split; [done|].
    rewrite length_app. unfold u8_le. rewrite length_le_bytes. lia. }
  intros Hty Hv. unfold canonical_covenant_witness_bytes_v1. rewrite Hv.
  destruct w as [k|path k|s|path s|path k p|path c n s]; unfold witness_typed, hash32 in Hty;
    cbn [witness_validate] in Hv; destruct_and?; inv_ok;
    try (destruct (Hset s) as (b & -> & ? & ?); [done..|]);
    try (destruct (Hpre p) as (b & -> & ? & ?); [done..|]);
    (eexists; split; [done|]); unfold witness_size; repeat rewrite length_app;
    change (length (covenant_encode_domain COVENANT_WITNESS_DOMAIN_V1)) with 32%nat;
    unfold u8_le, u16_le, u64_le; rewrite ?length_le_bytes; lia.
Qed.

(** ** The canonical bytes determine the parameters *)

Lemma Ok_inj {E A} (a b : A) : @Ok E A a = Ok b -> a = b.
Proof. by intros [= ->]. Qed.
Lemma le_bytes_inj n x y :
  0 <= x < 256 ^ Z.of_nat n -> 0 <= y < 256 ^ Z.of_nat n -> le_bytes n x = le_bytes n y -> x = y.
Proof.
  intros Hx Hy E. apply (f_equal le_value) in E. by rewrite !le_value_le_bytes in E.
Qed.
Lemma concat_hash32_inj l1 l2 :
  Forall hash32 l1 -> Forall hash32 l2 -> length l1 = length l2 -> concat l1 = concat l2 -> l1 = l2.
Proof.
  unfold hash32. intros H1. revert l2. induction H1 as [|a l1 Ha H1 IH]; intros [|b l2] H2 Hlen E;
    simpl in *; try done; try lia. inversion H2; subst.
  apply app_inj_1 in E as [-> E]; [|lia]. f_equal. apply IH; [done|lia|done].
Qed.
Lemma set_encode_inj s1 s2 b :
  set_typed s1 -> set_typed s2 -> set_encode_canonical s1 = Ok b -> set_encode_canonical s2 = Ok b ->
  s1 = s2.
Proof.
  intros Ht1 Ht2 E1 E2.
  assert (Hv : forall s b, set_encode_canonical s = Ok b -> set_validate s = Ok ()).
  { intros s b0. unfold set_encode_canonical, set_count. by destruct (set_validate s) as [[]|]. }
  pose proof (Hv _ _ E1) as V1. pose proof (Hv _ _ E2) as V2.
  rewrite set_encode_members in E1, E2 by done. rewrite <- E2 in E1. apply Ok_inj in E1 as Heq.
  destruct (set_validate_spec s1 Ht1 V1) as (C1 & L1 & _ & R1).
  destruct (set_validate_spec s2 Ht2 V2) as (C2 & L2 & _ & R2).
  apply app_inj_1 in Heq as [Ec Em]; [|done].
  apply le_bytes_inj in Ec; [|change (256 ^ Z.of_nat 1) with 256; lia..].
  apply concat_hash32_inj in Em; [|by apply members_typed..|lia].
  destruct s1, s2; simpl in *; subst. f_equal. rewrite R1, R2. by rewrite Em.
Qed.

(** Read the next field of two equal encodings. *)
Ltac next_field :=
  match goal with
  | E : ?a ++ _ = ?b ++ _ |- _ =>
      apply app_inj_1 in E as [? E]; [|by unfold u8_le, u64_le; rewrite ?length_le_bytes; congruence]
  end.
Ltac read_ints :=
  repeat match goal with
  | E : le_bytes ?n ?x = le_bytes ?n ?y |- _ =>
      apply le_bytes_inj in E; [|first [apply (in_u_fixed 64); [reflexivity|assumption]
                                       |apply (in_u_fixed 8); [reflexivity|assumption]]..]
  end.
Lemma kind_id_inj k1 k2 : u16_le (kind_id k1) = u16_le (kind_id k2) -> k1 = k2.
Proof. by destruct k1, k2. Qed.

Lemma parameters_bytes_inj p1 p2 b :
  parameters_typed p1 -> parameters_typed p2 ->
  canonical_covenant_parameters_bytes_v1 p1 = Ok b ->
  canonical_covenant_parameters_bytes_v1 p2 = Ok b -> p1 = p2.
Proof.
  intros T1 T2 E1 E2. unfold canonical_covenant_parameters_bytes_v1 in E1, E2.
  destruct (parameters_validate p1); [|discriminate E1].
  destruct (parameters_validate p2); [|discriminate E2].
  match type of E1 with match ?m with _ => _ end = _ => destruct m as [body1|] eqn:B1; [|discriminate E1] end.
  match type of E2 with match ?m with _ => _ end = _ => destruct m as [body2|] eqn:B2; [|discriminate E2] end.
  rewrite <- E2 in E1. apply Ok_inj in E1 as Heq.
  apply app_inv_head, app_inv_head in Heq.
  apply app_inj_1 in Heq as [Hk%kind_id_inj Heq]; [|done].
  destruct p1 as [[]|[]|[]|[]|[]|[]], p2 as [[]|[]|[]|[]|[]|[]]; try discriminate Hk;
    unfold parameters_typed, hash32 in T1, T2; cbn -[set_typed in_u u8_le u64_le app] in T1, T2, B1, B2;
    destruct_and?; clear E1 E2.
  all: match type of B1 with
       | match set_encode_canonical ?s with _ => _ end = _ =>
           destruct (set_encode_canonical s) eqn:S1; [|discriminate B1];
           match type of B2 with match set_encode_canonical ?t with _ => _ end = _ =>
             destruct (set_encode_canonical t) eqn:S2; [|discriminate B2] end
       | _ => idtac
       end.
  all: subst body1; rewrite <- B2 in B1; apply Ok_inj in B1; repeat next_field;
    unfold u8_le, u64_le in *; read_ints; simplify_eq; try done.
  f_equal. f_equal. by eapply set_encode_inj.
Qed.

Section covenant_props.
Context `{Crypto}.

(** The conditions of each kind and path, without the mechanism of the code. *)
Definition authorized (p : CovenantParametersV1) (w : CovenantWitnessV1)
  (c : CovenantExecutionContextV1) : Prop :=
  let spend := cx_spend_commitment c in
  let height := cx_block_height c in
  match p, w with
  | PTimelock p, WTimelock key =>
      spend = tl_spend_commitment p /\ tl_not_before_height p <= height /\
      key = tl_authorization_key_commitment p
  | PVault p, WVault Normal key =>
      spend = vp_normal_spend_commitment p /\ key = vp_spend_key_commitment p
  | PVault p, WVault Recovery key =>
      spend = vp_recovery_spend_commitment p /\ vp_recovery_height p <= height /\
      key = vp_recovery_key_commitment p
  | PMultisig p, WMultisig keys =>
      spend = mp_spend_commitment p /\ NoDup (members keys) /\
      members keys ⊆ members (mp_participants p) /\
      mp_threshold p <= Z.of_nat (length (members keys))
  | PEscrow p, WEscrow Release keys =>
      spend = ep_release_spend_commitment p /\
      (members keys ≡ₚ [ep_buyer_key_commitment p; ep_seller_key_commitment p] \/
       members keys ≡ₚ [ep_seller_key_commitment p; ep_arbiter_key_commitment p])
  | PEscrow p, WEscrow EscrowRefund keys =>
      spend = ep_refund_spend_commitment p /\
      (members keys ≡ₚ [ep_buyer_key_commitment p; ep_seller_key_commitment p] \/
       members keys ≡ₚ [ep_buyer_key_commitment p; ep_arbiter_key_commitment p])
  | PAtomicSwap p, WAtomicSwap Claim key preimage =>
      spend = as_claim_spend_commitment p /\ height < as_refund_height p /\
      key = as_claim_key_commitment p /\
      preimage_bytes preimage <> [] /\ sha256 (preimage_bytes preimage) = as_secret_hash p
  | PAtomicSwap p, WAtomicSwap SwapRefund key preimage =>
      spend = as_refund_spend_commitment p /\ as_refund_height p <= height /\
      key = as_refund_key_commitment p /\ preimage_bytes preimage = []
  | PPaymentChannel p, WPaymentChannel path state sequence keys =>
      state = pc_state_commitment p /\ sequence = pc_sequence p /\
      match path with
      | Cooperative =>
          spend = pc_cooperative_spend_commitment p /\
          members keys ≡ₚ [pc_party_a_key_commitment p; pc_party_b_key_commitment p]
      | Unilateral =>
          spend = pc_unilateral_spend_commitment p /\ pc_settlement_height p <= height /\
          (members keys = [pc_party_a_key_commitment p] \/ members keys = [pc_party_b_key_commitment p])
      end
  | _, _ => False
  end.

Lemma require_spend_ok a b (k : result CovenantExecutionError unit) :
  (check require_spend a b in k) = Ok () <-> a = b /\ k = Ok ().
Proof. unfold require_spend. case_bool_decide; naive_solver. Qed.
Lemma require_authorization_ok a b role (k : result CovenantExecutionError unit) :
  (check require_authorization a b role in k) = Ok () <-> a = b /\ k = Ok ().
Proof. unfold require_authorization. case_bool_decide; naive_solver. Qed.
Lemma require_authorization_last a b role : require_authorization a b role = Ok () <-> a = b.
Proof. unfold require_authorization. case_bool_decide; naive_solver. Qed.
Lemma guard_ok {E} (b : bool) (e : E) k :
  (if b then Err e else k) = Ok () <-> b = false /\ k = Ok ().
Proof. destruct b; naive_solver. Qed.

Lemma ensure_distinct_ok l a r b : ensure_distinct l a r b = Ok () <-> a <> b.
Proof. unfold ensure_distinct. case_bool_decide; naive_solver. Qed.

(** A loop that stops at the first element failing a test. *)
Lemma try_fold_all {A} (g : unit -> A -> result CovenantExecutionError unit) (f : A -> bool) e l :
  (forall x, g () x = if f x then Ok () else Err e) ->
  try_fold g () l = Ok () <-> Forall (fun x => f x = true) l.
Proof.
  intros Hg. induction l as [|x l IH]; cbn [try_fold]; [by split|].
  rewrite Forall_cons, <- IH, Hg. destruct (f x); naive_solver.
Qed.

Lemma evaluate_timelock_ok p key c :
  evaluate_timelock p key c = Ok () <-> authorized (PTimelock p) (WTimelock key) c.
Proof.
  unfold evaluate_timelock, authorized.
  by rewrite require_spend_ok, guard_ok, require_authorization_last, Z.ltb_ge.
Qed.
Lemma evaluate_vault_ok p path key c :
  evaluate_vault p path key c = Ok () <-> authorized (PVault p) (WVault path key) c.
Proof.
  unfold evaluate_vault, authorized.
  destruct path; by rewrite require_spend_ok, ?guard_ok, require_authorization_last, ?Z.ltb_ge.
Qed.

Lemma evaluate_multisig_ok p keys c :
  set_typed (mp_participants p) -> set_validate (mp_participants p) = Ok () ->
  set_typed keys -> set_validate keys = Ok () ->
  evaluate_multisig p keys c = Ok () <-> authorized (PMultisig p) (WMultisig keys) c.
Proof.
  intros Htp Hvp Htk Hvk. pose proof (members_nodup keys Htk Hvk).
  destruct (set_validate_spec keys Htk Hvk) as (_ & Hlen & _).
  unfold evaluate_multisig, authorized. rewrite require_spend_ok, (set_active_members _ Hvk).
  rewrite (set_count_members _ Hvk), Hlen.
  opose proof (try_fold_all (fun _ x => let? known := set_contains (mp_participants p) x in
     if known : bool then Ok () else Err UnauthorizedMultisigSigner)
     (fun x => bool_decide (x ∈ members (mp_participants p))) UnauthorizedMultisigSigner
     (members keys) _) as Hall;
    [intros x; cbn beta; by rewrite set_contains_members|].
  destruct (try_fold _ () (members keys)) as [[]|e].
  - rewrite guard_ok, Z.ltb_ge.
    assert (members keys ⊆ members (mp_participants p)); [|naive_solver].
    intros x Hx. apply proj1 in Hall. specialize (Hall eq_refl). rewrite Forall_forall in Hall. by apply Hall, bool_decide_eq_true in Hx.
  - split; [naive_solver|]. intros (? & _ & Hsub & _). split; [done|]. apply Hall, Forall_forall.
    intros x Hx. by apply bool_decide_eq_true, Hsub.
Qed.

Lemma evaluate_escrow_ok p path keys c :
  parameters_validate (PEscrow p) = Ok () -> set_typed keys -> set_validate keys = Ok () ->
  evaluate_escrow p path keys c = Ok () <-> authorized (PEscrow p) (WEscrow path keys) c.
Proof.
  intros Hp Hty Hv. cbn [parameters_validate] in Hp. unfold ensure_all_distinct_three in Hp.
  cbn [fst snd] in Hp. inv_ok. repeat match goal with u : unit |- _ => destruct u end.
  repeat match goal with E : ensure_distinct _ _ _ _ = Ok () |- _ => apply ensure_distinct_ok in E end.
  unfold evaluate_escrow, authorized. destruct path.
  all: unfold require_spend; case_bool_decide; [naive_solver|].
  all: rewrite either_pair_spec by done; cbn [fst snd]; rewrite guard_ok, negb_false_iff, bool_decide_eq_true;
    naive_solver.
Qed.

Lemma evaluate_atomic_swap_ok p path key preimage c :
  preimage_typed preimage -> preimage_validate preimage = Ok () ->
  evaluate_atomic_swap p path key preimage c = Ok () <->
  authorized (PAtomicSwap p) (WAtomicSwap path key preimage) c.
Proof.
  intros Hty Hv. destruct (preimage_validate_spec preimage Hty Hv) as (Hb & Hl & _).
  unfold evaluate_atomic_swap, authorized, preimage_is_empty, preimage_len. rewrite Hb, Hv.
  destruct path; rewrite require_spend_ok, guard_ok, require_authorization_ok, guard_ok.
  - rewrite Z.leb_gt, orb_false_iff, !bool_decide_eq_false. split; [|naive_solver].
    intros (?&?&?&[? Hs]&_). apply dec_stable in Hs. done.
  - rewrite Z.ltb_ge, negb_false_iff, Z.eqb_eq.
    assert (bp_len preimage = 0 <-> preimage_bytes preimage = []); [|naive_solver].
    rewrite <- Hl. destruct (preimage_bytes preimage); simpl; [done|]. split; [lia|done].
Qed.

Lemma members_singleton s x :
  set_typed s -> set_validate s = Ok () ->
  members s = [x] <-> bcs_count s = 1 /\ x ∈ members s.
Proof.
  intros Hty Hv. destruct (set_validate_spec s Hty Hv) as (_ & <- & _).
  destruct (members s) as [|y [|z l]]; simpl; [naive_solver| |naive_solver lia].
  rewrite list_elem_of_singleton. naive_solver.
Qed.
Lemma evaluate_payment_channel_ok p path state sequence keys c :
  parameters_validate (PPaymentChannel p) = Ok () -> set_typed keys -> set_validate keys = Ok () ->
  evaluate_payment_channel p path state sequence keys c = Ok () <->
  authorized (PPaymentChannel p) (WPaymentChannel path state sequence keys) c.
Proof.
  intros Hp Hty Hv. cbn [parameters_validate] in Hp. inv_ok.
  apply ensure_distinct_ok in Hp.
  unfold evaluate_payment_channel, authorized.
  rewrite !guard_ok, negb_false_iff, Z.eqb_eq, bool_decide_eq_false.
  destruct path; rewrite require_spend_ok, ?guard_ok.
  - rewrite exact_pair_spec by done. rewrite guard_ok, negb_false_iff, bool_decide_eq_true.
    split; [|naive_solver]. intros (Hs%dec_stable & ? & ? & ? & _). done.
  - rewrite (set_count_members _ Hv), !set_contains_members, !members_singleton by done.
    rewrite Z.ltb_ge, guard_ok, negb_false_iff, Z.eqb_eq.
    assert (E : (let? has_party := if bool_decide (pc_party_a_key_commitment p ∈ members keys) then Ok true
               else Ok (bool_decide (pc_party_b_key_commitment p ∈ members keys)) in
             if negb has_party then Err InvalidPaymentChannelAuthorization else Ok ()) = Ok () <->
      pc_party_a_key_commitment p ∈ members keys \/ pc_party_b_key_commitment p ∈ members keys).
    { repeat case_bool_decide; simpl; naive_solver. }
    cbv iota in E |- *. rewrite E. split; [|naive_solver].
    intros (Hs%dec_stable & ? & ? & ? & ? & [?|?]); naive_solver.
Qed.

(** The kind checks, the commitment and the price of an accepted spend. *)
Lemma evaluate_covenant_ok d p w c :
  parameters_typed p -> witness_typed w ->
  evaluate_covenant_v1 d p w c = Ok () <->
  (covenant_validate d = Ok () /\ parameters_validate p = Ok () /\ witness_validate w = Ok () /\
   context_validate c = Ok ()) /\
  cd_kind d = parameters_kind p /\
  covenant_parameters_commitment_v1 p = Ok (cd_parameters_commitment d) /\
  witness_size w <= cd_witness_budget_bytes d /\ authorized p w c.
Proof.
  intros Htp Htw. unfold evaluate_covenant_v1.
  destruct (covenant_validate d) as [[]|]; cbn [map_err]; [|naive_solver].
  destruct (parameters_validate p) as [[]|] eqn:Hp; [|naive_solver].
  destruct (witness_validate w) as [[]|] eqn:Hw; [|naive_solver].
  destruct (context_validate c) as [[]|]; [|naive_solver].
  destruct (canonical_witness_size w Htw Hw) as (b & -> & -> & Hmax).
  rewrite guard_ok, bool_decide_eq_false.
  destruct (covenant_parameters_commitment_v1 p) as [h|]; [|naive_solver].
  rewrite !guard_ok, !bool_decide_eq_false, !Z.ltb_ge. unfold MAX_COVENANT_WITNESS_BYTES.
  destruct (decide (witness_kind w = parameters_kind p)) as [Hk|Hk].
  2: { split; [naive_solver|]. intros (_ & _ & _ & _ & Ha). by destruct p, w. }
  assert (Hbody : match p, w with
    | PTimelock p, WTimelock key => evaluate_timelock p key c
    | PVault p, WVault path key => evaluate_vault p path key c
    | PMultisig p, WMultisig keys => evaluate_multisig p keys c
    | PEscrow p, WEscrow path keys => evaluate_escrow p path keys c
    | PAtomicSwap p, WAtomicSwap path key preimage => evaluate_atomic_swap p path key preimage c
    | PPaymentChannel p, WPaymentChannel path state sequence keys =>
        evaluate_payment_channel p path state sequence keys c
    | _, _ => Err (WitnessKindMismatch (witness_kind w) (parameters_kind p))
    end = Ok () <-> authorized p w c).
  { destruct p, w; try discriminate Hk; cbn [witness_validate] in Hw;
      unfold parameters_typed, witness_typed in Htp, Htw; destruct_and?.
    - apply evaluate_timelock_ok.
    - apply evaluate_vault_ok.
    - cbn [parameters_validate] in Hp. unfold set_count in Hp. inv_ok. apply evaluate_multisig_ok; try done.
      by destruct (set_validate (mp_participants p)) as [[]|].
    - by apply evaluate_escrow_ok.
    - inv_ok. by apply evaluate_atomic_swap_ok.
    - inv_ok. by apply evaluate_payment_channel_ok. }
  rewrite Hbody. split.
  - intros (Hd%dec_stable & Hh%dec_stable & _ & ? & _ & ?). by subst.
  - intros (_ & ? & [= ->] & ? & ?). split_and!; try done; try lia; naive_solver.
Qed.

(** C30: [evaluate_covenant_v1] accepts a spend exactly when descriptor,
    parameters, witness and context are well formed, the descriptor commits to the
    parameters and their kind, the closed-form size of the witness is within the
    descriptor's budget, and the conditions of the covenant's kind and path hold:
    the heights, the spend and key commitments, for a multisig [threshold] distinct
    participants, for an escrow exactly one of the two authorised pairs, for a swap
    claim a non-empty preimage of the secret hash before the refund height. *)
Theorem evaluate_covenant_v1_exact d p w c :
  parameters_typed p -> witness_typed w ->
  evaluate_covenant_v1 d p w c = Ok () <->
  (covenant_validate d = Ok () /\ parameters_validate p = Ok () /\ witness_validate w = Ok () /\
   context_validate c = Ok ()) /\
  cd_kind d = parameters_kind p /\
  covenant_parameters_commitment_v1 p = Ok (cd_parameters_commitment d) /\
  witness_size w <= cd_witness_budget_bytes d /\ authorized p w c.
Proof. apply evaluate_covenant_ok. Qed.

(** ** A descriptor opens one way *)

(** The path a witness selects. *)
Definition witness_path (w : CovenantWitnessV1) : Z :=
  match w with
  | WTimelock _ | WMultisig _ => 0
  | WVault path _ => path_id_vault path
  | WEscrow path _ => path_id_escrow path
  | WAtomicSwap path _ _ => path_id_atomic path
  | WPaymentChannel path _ _ _ => path_id_channel path
  end.

Lemma commitment_bytes p h :
  covenant_parameters_commitment_v1 p = Ok h ->
  exists b, canonical_covenant_parameters_bytes_v1 p = Ok b /\ h = sha256 b.
Proof. unfold covenant_parameters_commitment_v1. intros E. inv_ok. eauto. Qed.

(** The parameters behind a descriptor are unique unless SHA-256 collides. *)
Lemma parameters_binding p1 p2 h :
  parameters_typed p1 -> parameters_typed p2 ->
  covenant_parameters_commitment_v1 p1 = Ok h -> covenant_parameters_commitment_v1 p2 = Ok h ->
  (forall b1 b2, canonical_covenant_parameters_bytes_v1 p1 = Ok b1 ->
     canonical_covenant_parameters_bytes_v1 p2 = Ok b2 -> collision_free [b1; b2]) ->
  p1 = p2.
Proof.
  intros T1 T2 (b1 & E1 & ->)%commitment_bytes (b2 & E2 & Eh)%commitment_bytes Hcf.
  specialize (Hcf b1 b2 E1 E2). apply Hcf in Eh; [|set_solver..]. subst. by eapply parameters_bytes_inj.
Qed.

(** For one parameter set and one spend, one path at most is authorised. *)
Lemma authorized_path p w1 w2 c1 c2 :
  parameters_validate p = Ok () -> cx_spend_commitment c1 = cx_spend_commitment c2 ->
  authorized p w1 c1 -> authorized p w2 c2 -> witness_path w1 = witness_path w2.
Proof.
  intros Hp Hc. destruct p, w1, w2; cbn [authorized]; try done; cbn [parameters_validate] in Hp;
    unfold ensure_all_distinct_three in Hp; inv_ok;
    repeat match goal with u : unit |- _ => destruct u end;
    repeat match goal with E : ensure_distinct _ _ _ _ = Ok () |- _ => apply ensure_distinct_ok in E end;
    repeat match goal with q : VaultSpendPathV1 |- _ => destruct q
                         | q : EscrowSpendPathV1 |- _ => destruct q
                         | q : AtomicSwapSpendPathV1 |- _ => destruct q
                         | q : PaymentChannelSpendPathV1 |- _ => destruct q end;
    try done; intros; destruct_and?; congruence.
Qed.

(** Two accepted spends under one descriptor use the same parameters unless
    their encodings collide under SHA-256; if they also propose the same spend they
    take the same path, so a vault, escrow, swap or channel never opens on both
    paths for one spend; and a claim and a refund of an atomic swap are never both
    open at one height. *)
Lemma covenant_opens_one_way d p1 p2 w1 w2 c1 c2 :
  parameters_typed p1 -> parameters_typed p2 -> witness_typed w1 -> witness_typed w2 ->
  (forall b1 b2, canonical_covenant_parameters_bytes_v1 p1 = Ok b1 ->
     canonical_covenant_parameters_bytes_v1 p2 = Ok b2 -> collision_free [b1; b2]) ->
  evaluate_covenant_v1 d p1 w1 c1 = Ok () -> evaluate_covenant_v1 d p2 w2 c2 = Ok () ->
  p1 = p2 /\
  (cx_spend_commitment c1 = cx_spend_commitment c2 -> witness_path w1 = witness_path w2) /\
  (parameters_kind p1 = AtomicSwap -> cx_block_height c1 = cx_block_height c2 ->
   witness_path w1 = witness_path w2).
Proof.
  intros T1 T2 W1 W2 Hcf E1 E2. rewrite evaluate_covenant_ok in E1, E2 by done.
  destruct E1 as ((_&Hv&_&_)&_&C1&_&A1), E2 as (_&_&C2&_&A2).
  assert (p1 = p2) as <- by by eapply parameters_binding. split; [done|]. split.
  - intros Hc. by eapply authorized_path.
  - intros Hk Hh. destruct p1; try done. destruct w1 as [| | | |[]|], w2 as [| | | |[]|]; try done.
    all: cbn [authorized] in A1, A2; lia.
Qed.
End covenant_props.

(** ** Attachments *)

Definition utxo_fields_typed (u : Utxo) : Prop :=
  in_u 32 (op_index (utxo_outpoint u)) /\ in_u 64 (utxo_amount u) /\ in_u 64 (utxo_height u).
#[global] Instance utxo_fields_typed_dec u : Decision (utxo_fields_typed u).
Proof. unfold utxo_fields_typed. apply _. Defined.
#[global] Instance identity_typed_dec i : Decision (identity_typed i).
Proof. unfold identity_typed. apply _. Defined.

Section attachments.
Context `{CryptoLaws}.

(** Every message hashed on behalf of an attachment or of a spend of it. *)
Definition hashed_messages (i : ProgrammabilityActivationIdentity) (u : Utxo) (p : CovenantParametersV1)
  : list bytes :=
  match canonical_programmability_identity_bytes_v1 i with
  | Ok b => b :: match covenant_utxo_bytes_v1 (sha256 b) u with Some b' => [b'] | None => [] end
  | Err _ => []
  end ++
  match canonical_covenant_parameters_bytes_v1 p with Ok b => [b] | Err _ => [] end.

Lemma utxo_commitment_inv i u h :
  covenant_utxo_commitment_v1 i u = Ok h ->
  exists b b', canonical_programmability_identity_bytes_v1 i = Ok b /\
    covenant_utxo_bytes_v1 (sha256 b) u = Some b' /\ h = sha256 b'.
Proof.
  unfold covenant_utxo_commitment_v1, identity_fingerprint. intros E.
  destruct (canonical_programmability_identity_bytes_v1 i) as [b|]; [|done]. cbn [map_err] in E.
  inv_ok. eauto.
Qed.

Lemma utxo_bytes_inj f1 f2 u1 u2 b1 b2 :
  hash32 f1 -> hash32 f2 -> utxo_fields_typed u1 -> utxo_fields_typed u2 ->
  covenant_utxo_bytes_v1 f1 u1 = Some b1 -> covenant_utxo_bytes_v1 f2 u2 = Some b2 -> b1 = b2 ->
  f1 = f2 /\ u1 = u2.
Proof.
  unfold hash32, utxo_fields_typed, covenant_utxo_bytes_v1. intros ? ? (?&?&?) (?&?&?) E1 E2 Eb.
  assert (Heq : b1 ++ [] = b2 ++ []) by (by rewrite Eb). clear Eb.
  assert (forall c, 0 <= Z.b2z c < 256 ^ Z.of_nat 1) by (intros []; done).
  repeat peel_field. split; [done|].
  destruct u1 as [[? ?] ? ? [] ?], u2 as [[? ?] ? ? [] ?]; simpl in *; simplify_eq;
    do 2 f_equal; by apply (inj str_bytes).
Qed.

(** Only the attached output, under the attached identity, reaches the commitment. *)
Lemma utxo_commitment_binding i1 i2 u1 u2 p1 p2 h :
  identity_typed i1 -> identity_typed i2 -> utxo_fields_typed u1 -> utxo_fields_typed u2 ->
  collision_free (hashed_messages i1 u1 p1 ++ hashed_messages i2 u2 p2) ->
  covenant_utxo_commitment_v1 i1 u1 = Ok h -> covenant_utxo_commitment_v1 i2 u2 = Ok h ->
  i1 = i2 /\ u1 = u2.
Proof.
  intros I1 I2 U1 U2 Hcf (b1&m1&B1&M1&->)%utxo_commitment_inv (b2&m2&B2&M2&Eh)%utxo_commitment_inv.
  unfold hashed_messages in Hcf. rewrite B1, B2, M1, M2 in Hcf.
  assert (Em : m1 = m2) by (apply Hcf; [set_solver..|done]).
  destruct (utxo_bytes_inj (sha256 b1) (sha256 b2) u1 u2 m1 m2) as [Ef ->];
    [by apply sha256_length..|done|done|done|done|done|].
  split; [|done]. assert (b1 = b2) as -> by (apply Hcf; [set_solver..|done]).
  by destruct (identity_bytes_delimited i1 i2 b2 b2 [] []).
Qed.

Lemma attach_inv i u p budget a :
  attach_covenant_to_utxo_v1 i u p budget = Ok a ->
  attachment_validate a = Ok () /\ covenant_utxo_commitment_v1 i u = Ok (ca_utxo_commitment a) /\
  parameters_validate p = Ok () /\ covenant_validate (ca_covenant a) = Ok () /\
  cd_kind (ca_covenant a) = parameters_kind p /\
  covenant_parameters_commitment_v1 p = Ok (cd_parameters_commitment (ca_covenant a)) /\
  cd_witness_budget_bytes (ca_covenant a) = budget.
Proof.
  unfold attach_covenant_to_utxo_v1, descriptor_for_covenant_parameters_v1. intros E.
  destruct (parameters_validate p) as [[]|] eqn:Hp; [|done].
  destruct (covenant_parameters_commitment_v1 p) as [h|] eqn:Hc; [|done].
  set (d := mkCovenantDescriptorV1 _ _ _ _) in *.
  destruct (covenant_validate d) as [[]|] eqn:Hd; [|done]. cbn [map_err] in E.
  destruct (covenant_utxo_commitment_v1 i u) as [m|]; [|done].
  destruct (attachment_validate _) as [[]|] eqn:Ha; [|done]. by inv_ok.
Qed.

Lemma attachment_commitment_total a :
  attachment_validate a = Ok () -> exists h, attachment_commitment a = Ok h.
Proof.
  intros Hv. unfold attachment_commitment, canonical_covenant_utxo_attachment_bytes_v1. rewrite Hv.
  destruct (emit _) as [b|] eqn:E; [by eexists|].
  exfalso. apply eq_None_not_Some in E. apply E, emit_is_Some. repeat constructor; by eexists.
Qed.

(** An attachment made for an output, an identity and parameters opens only
    for that output, that identity and those parameters (unless SHA-256 collides on
    the messages involved), and then exactly for the well-formed witnesses within
    its budget that the covenant authorises. *)
Lemma covenanted_spend_exact i u p budget a i' u' p' w c :
  identity_typed i -> identity_typed i' -> utxo_fields_typed u -> utxo_fields_typed u' ->
  parameters_typed p -> parameters_typed p' -> witness_typed w ->
  collision_free (hashed_messages i u p ++ hashed_messages i' u' p') ->
  attach_covenant_to_utxo_v1 i u p budget = Ok a ->
  (exists v, validate_covenanted_utxo_spend_v1 i' a u' p' w c = Ok v) <->
  i' = i /\ u' = u /\ p' = p /\ witness_validate w = Ok () /\ context_validate c = Ok () /\
  witness_size w <= budget /\ authorized p w c.
Proof.
  intros I I' U U' T T' W Hcf (Ha&Hu&Hp&Hd&Hk&Hc&<-)%attach_inv. split.
  - intros [v E]. unfold validate_covenanted_utxo_spend_v1 in E. rewrite Ha in E.
    destruct (covenant_utxo_commitment_v1 i' u') as [h|] eqn:Hu'; [|done].
    case_bool_decide as Hh; [done|]. subst h.
    destruct (evaluate_covenant_v1 _ p' w c) as [[]|] eqn:Hev; [|done]. clear E.
    apply evaluate_covenant_ok in Hev as ((_&_&Hw&Hx)&_&Hc'&Hsz&Hauth); [|done..].
    destruct (utxo_commitment_binding i i' u u' p p' _ I I' U U' Hcf Hu Hu') as [<- <-].
    assert (p = p') as <-; [|by split_and!].
    apply (parameters_binding p p' (cd_parameters_commitment (ca_covenant a))); [done..|].
    intros b1 b2 B1 B2. eapply collision_free_mono; [|exact Hcf].
    unfold hashed_messages. rewrite B1, B2. set_solver.
  - intros (-> & -> & -> & Hw & Hx & Hsz & Hauth).
    unfold validate_covenanted_utxo_spend_v1. rewrite Ha, Hu, bool_decide_eq_false_2 by auto.
    rewrite (proj2 (evaluate_covenant_ok _ p w c T W)) by (by split_and!).
    destruct (canonical_witness_size w W Hw) as (b & -> & Hb & Hmax).
    destruct (attachment_commitment_total a Ha) as [h ->]. rewrite Hc. cbn [map_err].
    assert (try_into 32 (Z.of_nat (length b)) = Some (Z.of_nat (length b))) as ->; [|by eexists].
    apply try_into_Some. unfold in_u. change (u_max 32) with 4294967295. lia.
Qed.
End attachments.

(** ** Concrete covenants *)

#[local] Existing Instance model_crypto.
#[local] Existing Instance model_crypto_laws.

Definition key_of (z : Z) : bytes := replicate 32 (byte_of_Z z).
Definition keys_of (l : list Z) : BoundedCommitmentSetV1 :=
  mkBoundedCommitmentSetV1 (Z.of_nat (length l)) (map key_of l ++ replicate (16 - length l) zero32).
Definition example_multisig : CovenantParametersV1 :=
  PMultisig (mkMultisigParametersV1 (key_of 1) 2 (keys_of [2; 3; 4])).
Definition example_swap : CovenantParametersV1 :=
  PAtomicSwap (mkAtomicSwapParametersV1 (key_of 1) (key_of 2) (sha256 (str_bytes "secret"))
                 (key_of 3) (key_of 4) 100).
Definition example_claim : CovenantWitnessV1 :=
  WAtomicSwap Claim (key_of 3)
    (mkBoundedPreimageV1 6 (pad32 (str_bytes "secret")) zero32).
Definition example_descriptor (p : CovenantParametersV1) : CovenantDescriptorV1 :=
  match descriptor_for_covenant_parameters_v1 p 200 with
  | Ok d => d
  | Err _ => mkCovenantDescriptorV1 0 Timelock [] 0
  end.
Definition example_context (height : Z) (spend : bytes) : CovenantExecutionContextV1 :=
  mkCovenantExecutionContextV1 1 height spend.
Definition example_identity : ProgrammabilityActivationIdentity :=
  mkProgrammabilityActivationIdentity 1 Testnet "pulse-test" (key_of 7) (key_of 8).
Definition example_utxo : Utxo := mkUtxo (mkOutPoint "aa" 0) "alice" 50 false 9.

Lemma evaluate_covenant_v1_exact_witness :
  witness_size (WMultisig (keys_of [2; 4])) <= 200 /\
  authorized example_multisig (WMultisig (keys_of [2; 4])) (example_context 5 (key_of 1)).
Proof.
  apply (evaluate_covenant_v1_exact (example_descriptor example_multisig) example_multisig
           (WMultisig (keys_of [2; 4])) (example_context 5 (key_of 1))); [by_decide..|by_compute].
Defined.

Lemma covenant_opens_one_way_witness :
  let c1 := example_context 5 (key_of 1) in
  let c2 := example_context 99 (key_of 1) in
  evaluate_covenant_v1 (example_descriptor example_swap) example_swap example_claim c1 = Ok () /\
  evaluate_covenant_v1 (example_descriptor example_swap) example_swap example_claim c2 = Ok () /\
  (cx_spend_commitment c1 = cx_spend_commitment c2 -> witness_path example_claim = witness_path example_claim).
Proof.
  intros c1 c2. split; [by_compute|]. split; [by_compute|].
  apply (covenant_opens_one_way (example_descriptor example_swap) example_swap example_swap
           example_claim example_claim c1 c2); [by_decide..| |by_compute|by_compute].
  intros b1 b2 E1 E2. rewrite E1 in E2. injection E2 as <-. intros x y; set_solver.
Defined.

Lemma covenanted_spend_exact_witness :
  exists a, attach_covenant_to_utxo_v1 example_identity example_utxo example_swap 200 = Ok a /\
    exists v, validate_covenanted_utxo_spend_v1 example_identity a example_utxo example_swap example_claim
                (example_context 99 (key_of 1)) = Ok v.
Proof.
  eexists. split; [by_compute|].
  apply (covenanted_spend_exact example_identity example_utxo example_swap 200); [by_decide..|by_compute|].
  split_and!; try done; by_compute.
Defined.
