(* ===== verification/PulseClock.v ===== *)
(** * PulseClock ([pulseclock_v1.rs])

    The observational clock of the chain: a pulse height (the blue score of the
    selected tip) and a pulse time (a clipped median of the timestamps of the last
    blue blocks of the selected chain).  The window is the newest eleven admitted
    samples; [collect_samples] is the [for] loop over the reversed chain with its
    [break] and its three [continue]s.  An [i64] is a [Z]: every sample passed
    [i64::try_from] of a [u64], so [lo + (hi - lo) / 2] stays between its operands
    and never wraps ([median_sorted_between]). *)

From S2P Require Import Prelude Types State Selection.

Definition PULSE_DOMAIN_V1 : string := "PulseDAG:pulse:v1".
Definition PULSE_VERSION_V1 : Z := 1.
Definition PULSE_WINDOW_K_V1 : Z := 11.
Definition PULSE_UNCERTAINTY_POLICY_MAX_SECS_V1 : Z := 600.
Definition PULSE_FINALITY_DEPTH_UNPUBLISHED_V1 : Z := 0.

Record PulseObservationV1 := mkPulseObservationV1 {
  po_pulse_version : Z;
  po_domain : string;
  po_chain_id : string;
  po_selected_tip : Hash;
  po_pulse_height : Z;
  po_pulse_time : Z;
  po_window_k : Z;
  po_sample_count : Z;
  po_uncertainty_secs : Z;
  po_finality_lag : Z;
}.
Inductive PulseClockV1Error :=
| SelectedTipUnavailable
| SelectedTipBlockMissing (hash : Hash).

Definition is_selected_chain_blue_sample (state : ChainState) (hash : Hash) : bool :=
  negb (bool_decide (map_Exists (fun _ reds => hash ∈ reds) (d_merge_set_reds (cs_dag state)))).
(** [i64::try_from]. *)
Definition i64_try_from (timestamp : Z) : option Z :=
  if timestamp <=? 2 ^ 63 - 1 then Some timestamp else None.
Definition admitted_unix_timestamp (state : ChainState) (hash : Hash) (timestamp : Z) : option Z :=
  if (timestamp =? 0) && negb (bool_decide (hash = d_genesis_hash (cs_dag state))) then None
  else i64_try_from timestamp.

(** The loop over [chain.iter().rev()]. *)
Fixpoint collect_samples (state : ChainState) (window_k : Z) (chain : list Hash) (samples : list Z)
  : list Z :=
  match chain with
  | [] => samples
  | hash :: chain =>
      if window_k <=? Z.of_nat (length samples) then samples else
      match d_blocks (cs_dag state) !! hash with
      | None => collect_samples state window_k chain samples
      | Some block =>
          if negb (is_selected_chain_blue_sample state hash)
          then collect_samples state window_k chain samples
          else match admitted_unix_timestamp state hash (h_timestamp (b_header block)) with
               | Some ts => collect_samples state window_k chain (samples ++ [ts])
               | None => collect_samples state window_k chain samples
               end
      end
  end.
Definition collect_blue_window_timestamps (state : ChainState) (selected_tip : Hash) (window_k : Z)
  : list Z :=
  let selected_chain := d_selected_chain (cs_dag state) in
  let chain :=
    if bool_decide (last selected_chain = Some selected_tip) && bool_decide (selected_chain <> [])
    then selected_chain
    else rebuild_selected_chain_from_tip state (Some selected_tip) in
  let chain :=
    if bool_decide (last chain <> Some selected_tip)
    then rebuild_selected_chain_from_tip state (Some selected_tip) else chain in
  collect_samples state window_k (reverse chain) [].

Definition median_sorted (sorted : list Z) : Z :=
  let n := length sorted in
  if Nat.eqb n 0 then 0
  else if Nat.eqb (Nat.modulo n 2) 1 then nth (Nat.div n 2) sorted 0
  else
    let lo := nth (Nat.div n 2 - 1) sorted 0 in
    let hi := nth (Nat.div n 2) sorted 0 in
    lo + Z.quot (hi - lo) 2.

(** [&sorted[1..sorted.len() - 1]]. *)
Definition clip (sorted : list Z) : list Z := take (length sorted - 2) (drop 1 sorted).
(** [a.saturating_sub(b) as u64] on [i64]. *)
Definition i64_saturating_sub_as_u64 (a b : Z) : Z :=
  Z.max (- 2 ^ 63) (Z.min (2 ^ 63 - 1) (a - b)) mod 2 ^ 64.
(** [x.div_ceil(2).clamp(lo, hi)]. *)
Definition half_clamped (range lo hi : Z) : Z := Z.min hi (Z.max lo ((range + 1) / 2)).

Definition robust_pulse_time (samples : list Z) : Z * Z :=
  match samples with
  | [] => (0, PULSE_UNCERTAINTY_POLICY_MAX_SECS_V1)
  | _ =>
      let sorted := isort Z.le samples in
      if Nat.ltb (length sorted) 3
      then (median_sorted sorted, PULSE_UNCERTAINTY_POLICY_MAX_SECS_V1)
      else
        let clipped := clip sorted in
        let range := i64_saturating_sub_as_u64 (default 0 (last clipped)) (default 0 (head clipped)) in
        (median_sorted clipped, half_clamped range 1 PULSE_UNCERTAINTY_POLICY_MAX_SECS_V1)
  end.

Definition observe_pulse_v1_at (state : ChainState) (selected_tip : Hash)
  : result PulseClockV1Error PulseObservationV1 :=
  let? tip_block :=
    ok_or (d_blocks (cs_dag state) !! selected_tip) (SelectedTipBlockMissing selected_tip) in
  let pulse_height := h_blue_score (b_header tip_block) in
  let samples := collect_blue_window_timestamps state selected_tip PULSE_WINDOW_K_V1 in
  let (pulse_time, uncertainty_secs) := robust_pulse_time samples in
  Ok (mkPulseObservationV1 PULSE_VERSION_V1 PULSE_DOMAIN_V1 (cs_chain_id state) selected_tip
        pulse_height pulse_time PULSE_WINDOW_K_V1 (Z.of_nat (length samples)) uncertainty_secs
        (saturating_sub pulse_height PULSE_FINALITY_DEPTH_UNPUBLISHED_V1)).
Definition observe_pulse_v1 `{HashOrder} (state : ChainState) : result PulseClockV1Error PulseObservationV1 :=
  let? selected_tip := ok_or (preferred_tip_hash state) SelectedTipUnavailable in
  observe_pulse_v1_at state selected_tip.

(** ** The median and the clipped window *)

Lemma nth_between (l : list Z) i lo hi :
  Forall (fun x => lo <= x <= hi) l -> (i < length l)%nat -> lo <= nth i l 0 <= hi.
Proof. intros Hl Hi. rewrite Forall_forall in Hl. apply Hl, list_elem_of_In. by apply nth_In. Qed.

Lemma median_sorted_between l lo hi :
  l <> [] -> Sorted Z.le l -> Forall (fun x => lo <= x <= hi) l -> lo <= median_sorted l <= hi.
Proof.
  intros Hne Hs Hl. unfold median_sorted.
  assert (Hlen : (0 < length l)%nat) by (destruct l; simpl; [done|lia]).
  destruct (Nat.eqb_spec (length l) 0) as [|_]; [lia|].
  pose proof (Nat.div_lt (length l) 2 Hlen ltac:(lia)).
  destruct (Nat.eqb_spec (length l mod 2) 1) as [|Hodd]; [by apply nth_between|].
  pose proof (Nat.div_mod_eq (length l) 2). pose proof (Nat.mod_upper_bound (length l) 2).
  set (i := (length l / 2)%nat) in *.
  pose proof (nth_between l (i - 1) lo hi Hl ltac:(lia)).
  pose proof (nth_between l i lo hi Hl ltac:(lia)).
  assert (nth (i - 1) l 0 <= nth i l 0).
  { apply Sorted_StronglySorted in Hs; [|intros ???; lia].
    destruct (lookup_lt_is_Some_2 l (i - 1)%nat ltac:(lia)) as [a Ha].
    destruct (lookup_lt_is_Some_2 l i ltac:(lia)) as [b Hb].
    rewrite (nth_lookup_Some _ _ _ _ Ha), (nth_lookup_Some _ _ _ _ Hb).
    eapply (StronglySorted_app_1_elem_of Z.le (take i l) (drop i l)).
    - by rewrite take_drop.
    - apply list_elem_of_lookup. exists (i - 1)%nat. rewrite lookup_take_lt; [done|lia].
    - apply list_elem_of_lookup. exists 0%nat. rewrite lookup_drop. by rewrite Nat.add_0_r. }
  rewrite Z.quot_div_nonneg by lia.
  pose proof (Z.div_pos (nth i l 0 - nth (i - 1) l 0) 2 ltac:(lia) ltac:(lia)).
  pose proof (Z.div_le_upper_bound (nth i l 0 - nth (i - 1) l 0) 2 (nth i l 0 - nth (i - 1) l 0)
                ltac:(lia) ltac:(lia)). lia.
Qed.

(** Of the two smallest and of the two largest of a window, one at least is not the
    sample singled out. *)
Lemma second_dominates (R : relation Z) `{!PreOrder R} a b rest x honest :
  R a b -> a :: b :: rest ≡ₚ x :: honest -> exists y, y ∈ honest /\ R y b.
Proof.
  intros Hab Hp.
  assert (Ha : a ∈ x :: honest) by (rewrite <- Hp; set_solver).
  apply elem_of_cons in Ha as [->|Ha]; [|by exists a].
  apply Permutation_cons_inv in Hp. exists b. split; [rewrite <- Hp; set_solver|done].
Qed.

Lemma clip_split s :
  (3 <= length s)%nat -> exists a b m z, s = a :: b :: m ++ [z] /\ clip s = b :: m.
Proof.
  destruct s as [|a [|b s]]; simpl; [lia..|]. intros Hlen.
  destruct s as [|z s _] using rev_ind; simpl in *; [lia|]. exists a, b, s, z. split; [done|].
  unfold clip. cbn [length drop]. rewrite length_app. cbn [length].
  replace (S (S (length s + 1)) - 2)%nat with (S (length s)) by lia. cbn [take].
  by rewrite take_app_length.
Qed.

(** One sample, whatever its value, never moves the time outside the range of the
    others. *)
Lemma robust_pulse_time_outlier samples x honest :
  samples ≡ₚ x :: honest -> (2 <= length honest)%nat ->
  exists lo hi, lo ∈ honest /\ hi ∈ honest /\ lo <= fst (robust_pulse_time samples) <= hi.
Proof.
  intros Hp Hlen. assert (Hsort : isort Z.le samples ≡ₚ x :: honest) by by rewrite isort_perm.
  assert (Hl : length (isort Z.le samples) = S (length honest))
    by (apply Permutation_length in Hsort; simpl in Hsort; lia).
  destruct (clip_split (isort Z.le samples) ltac:(lia)) as (a & b & m & z & Hs & Hc).
  unfold robust_pulse_time.
  destruct samples as [|s0 samples]; [by apply Permutation_nil_cons in Hp|]. cbv zeta.
  rewrite (proj2 (Nat.ltb_ge _ _)) by lia. cbn [fst]. rewrite Hc.
  pose proof (isort_ssorted Z.le (s0 :: samples)) as Hss. rewrite Hs in Hss, Hsort.
  apply StronglySorted_cons in Hss as [Ha Hss].

  destruct (second_dominates Z.le a b (m ++ [z]) x honest) as (lo & Hlo & Hlob); [|done|].
  { rewrite Forall_forall in Ha. apply Ha. set_solver. }
  assert (exists hi, hi ∈ honest /\ Forall (fun y => y <= hi) (b :: m)) as (hi & Hhi & Hm).
  { destruct (exists_last (l:=b :: m)) as (m' & y & Hy); [done|].
    change (b :: m ++ [z]) with ((b :: m) ++ [z]) in Hss, Hsort. rewrite Hy in *.
    destruct (second_dominates (flip Z.le) z y (a :: m') x honest) as (hi & Hhi & Hyhi).
    - apply (StronglySorted_app_1_elem_of Z.le (m' ++ [y]) [z]); [done|set_solver..].
    - rewrite <- Hsort. rewrite <- app_assoc. solve_Permutation.
    - exists hi. split; [done|]. apply Forall_forall. intros w Hw. transitivity y; [|done].
      apply elem_of_app in Hw as [Hw|Hw%list_elem_of_singleton]; [|by subst].
      apply StronglySorted_app_1_l in Hss.
      apply (StronglySorted_app_1_elem_of Z.le m' [y]); [done|done|set_solver]. }
  exists lo, hi. split_and!; [done..| |].
  all: apply (median_sorted_between (b :: m) lo hi); [done| |].
  all: try (apply StronglySorted_Sorted; by apply (StronglySorted_app_1_l Z.le (b :: m) [z])).
  all: apply Forall_forall; intros w Hw; rewrite Forall_forall in Hm; split; [|by apply Hm].
  all: transitivity b; [done|].
  all: apply StronglySorted_cons in Hss as [Hb _]; rewrite Forall_forall in Hb.
  all: apply elem_of_cons in Hw as [->|Hw]; [done|apply Hb; set_solver].
Qed.

(** The timestamp a block of the chain contributes, if any. *)
Definition blue_sample (state : ChainState) (hash : Hash) : option Z :=
  match d_blocks (cs_dag state) !! hash with
  | Some block =>
      if is_selected_chain_blue_sample state hash
      then admitted_unix_timestamp state hash (h_timestamp (b_header block)) else None
  | None => None
  end.

(** The loop takes the newest [window_k] contributions. *)
Lemma collect_samples_spec state (k : nat) chain samples :
  (length samples <= k)%nat ->
  collect_samples state (Z.of_nat k) chain samples =
  samples ++ take (k - length samples) (omap (blue_sample state) chain).
Proof.
  revert samples. induction chain as [|hash chain IH]; intros samples Hlen; cbn [collect_samples omap list_omap].
  { by rewrite take_nil, app_nil_r. }
  destruct (Z.leb_spec (Z.of_nat k) (Z.of_nat (length samples))).
  { replace (k - length samples)%nat with 0%nat by lia. by rewrite app_nil_r. }
  unfold blue_sample at 1. destruct (d_blocks (cs_dag state) !! hash) as [block|]; [|by apply IH].
  destruct (is_selected_chain_blue_sample state hash); [|by apply IH]. cbn [negb].
  destruct (admitted_unix_timestamp _ _ _) as [ts|]; [|by apply IH].
  rewrite IH, <- app_assoc by (rewrite length_app; simpl; lia). f_equal. rewrite length_app. cbn [length].
  replace (k - length samples)%nat with (S (k - (length samples + 1))) by lia. done.
Qed.

Lemma half_clamped_range range : 1 <= half_clamped range 1 600 <= 600.
Proof. unfold half_clamped. lia. Qed.


(** A chain of three whose newest block carries a timestamp far in the future. *)
Definition timed (ts : Z) (b : Block) : Block :=
  mkBlock (b_hash b)
    (mkBlockHeader (h_version (b_header b)) (h_parents (b_header b)) ts (h_difficulty (b_header b))
       (h_nonce (b_header b)) (h_merkle_root (b_header b)) (h_state_root (b_header b))
       (h_blue_score (b_header b)) (h_height (b_header b))) (b_transactions b).
Definition timed_diamond : ChainState :=
  diamond <| cs_dag ::= fun dag =>
    dag <| d_blocks := {[ "g" := timed 100 (sample_block "g" [] 0 0);
                          "a" := timed 160 (sample_block "a" ["g"] 1 1);
                          "c" := timed 9000000 (sample_block "c" ["a"; "b"] 2 3) ]} |> |>.

