(* ===== verification/Templates.v ===== *)
(** * Covenant templates ([vault_v1.rs], [htlc_v1.rs], [multisig_v1.rs],
    [channel_v1.rs], [pay_stream_v1.rs])

    The planning matchers: each decides a spend of one output template from its
    admission switches, the shape of the output, the signatures over a
    domain-separated message and, except for the multisig, the PulseClock height.

    The constructors of the five error types and of the paths carry the name of
    their template, since the sources reuse them.  A writer can panic
    ([u32::try_from(len).expect(..)]): a definition that calls it returns
    [result (option E)], and [Err None] is the panic, as in [State].  The pulse is
    passed as the source passes it, a [Result]. *)

From S2P Require Import Prelude Encoding Crypto Types State Tx ContractV3 PulseClock.

(** [admission.admitted()] of the five identical admission structs. *)
Record AdmissionV1 := mkAdmissionV1 { covenants_enabled : bool; template_admitted : bool }.
Definition INACTIVE : AdmissionV1 := mkAdmissionV1 false false.
Definition admitted (a : AdmissionV1) : bool := covenants_enabled a && template_admitted a.

(** Raise an error of the source, or the panic. *)
Definition throw {E A} (e : E) : result (option E) A := Err (Some e).
Definition or_panic {E A} (o : option A) : result (option E) A := ok_or o None.
Definition pulse_or {E} (e : E) (pulse : result PulseClockV1Error PulseObservationV1)
  : result (option E) PulseObservationV1 := map_err (fun _ => Some e) pulse.

(** Decode both strings, convert them to arrays, parse the key and verify: the
    chain of five [map_err]s to one error that the four signing templates repeat. *)
Definition signature_valid `{Crypto} (public_key_hex signature_hex : string) (message : bytes) : bool :=
  match hex_decode public_key_hex, hex_decode signature_hex with
  | Some pk_bytes, Some sig_bytes =>
      match array_of 32 pk_bytes, array_of 64 sig_bytes with
      | Some pk_arr, Some sig_arr => ed25519_key_ok pk_arr && ed25519_verify pk_arr message sig_arr
      | _, _ => false
      end
  | _, _ => false
  end.

(** ** [vault_v1] *)

Definition VAULT_TEMPLATE_ID_V1 : string := "vault_v1".
Definition VAULT_DOMAIN_V1 : string := "PulseDAG:covenant:vault:v1".
Definition VAULT_OWNER_DELAY_MIN_PULSES_V1 : Z := 64.
Definition VAULT_OWNER_DELAY_MAX_PULSES_V1 : Z := 1048576.
Definition VAULT_EMERGENCY_DELAY_MAX_PULSES_V1 : Z := 2097152.
Definition VAULT_EMERGENCY_DELAY_GAP_PULSES_V1 : Z := 64.

Record VaultV1Output := mkVaultV1Output {
  vo_template_id : string;
  vo_owner_pk : string;
  vo_emergency_pk : string;
  vo_owner_delay_pulses : Z;
  vo_emergency_delay_pulses : Z;
  vo_created_pulse_height : Z;
  vo_amount : Z;
}.
Inductive VaultTemplatePathV1 := Owner | Emergency.
Definition vault_path_str (p : VaultTemplatePathV1) : string :=
  match p with Owner => "owner" | Emergency => "emergency" end.
Record VaultSpendWitnessV1 := mkVaultSpendWitnessV1 {
  vw_path : VaultTemplatePathV1;
  vw_chain_id : string;
  vw_outpoint_txid : string;
  vw_outpoint_index : Z;
  vw_public_key : string;
  vw_signature_hex : string;
}.
Inductive VaultV1Error :=
| VaultTemplateDisabled
| VaultUnknownTemplateId (observed : string)
| OwnerAndEmergencyKeysMustDiffer
| VaultEmptyKey (field : string)
| OwnerDelayOutOfRange (delay : Z)
| EmergencyDelayOutOfRange (delay : Z)
| VaultPulseClockUnavailable
| OwnerSpendTooEarly (current required : Z)
| EmergencySpendTooEarly (current required : Z)
| VaultSpendKeyMismatch (path : string)
| VaultEmptyChainId
| VaultInvalidSignature.

Definition vault_spend_signing_message_v1 (w : VaultSpendWitnessV1) : result (option VaultV1Error) bytes :=
  if bool_decide (vw_chain_id w = "") then throw VaultEmptyChainId else
  or_panic (emit [encode_len_prefixed_str VAULT_DOMAIN_V1;
                  encode_len_prefixed_str (vw_chain_id w);
                  encode_len_prefixed_str (vw_outpoint_txid w);
                  fixed 4 (vw_outpoint_index w);
                  encode_len_prefixed_str (vault_path_str (vw_path w))]).
Definition verify_vault_spend_signature_v1 `{Crypto} (output : VaultV1Output) (w : VaultSpendWitnessV1)
  : result (option VaultV1Error) unit :=
  let expected_pk :=
    match vw_path w with Owner => vo_owner_pk output | Emergency => vo_emergency_pk output end in
  if bool_decide (vw_public_key w <> expected_pk)
  then throw (VaultSpendKeyMismatch (vault_path_str (vw_path w))) else
  let? message := vault_spend_signing_message_v1 w in
  if signature_valid (vw_public_key w) (vw_signature_hex w) message then Ok ()
  else throw VaultInvalidSignature.
Definition validate_vault_output_v1 (output : VaultV1Output) : result VaultV1Error unit :=
  if bool_decide (vo_template_id output <> VAULT_TEMPLATE_ID_V1)
  then Err (VaultUnknownTemplateId (vo_template_id output))
  else if bool_decide (vo_owner_pk output = "") then Err (VaultEmptyKey "owner_pk")
  else if bool_decide (vo_emergency_pk output = "") then Err (VaultEmptyKey "emergency_pk")
  else if bool_decide (vo_owner_pk output = vo_emergency_pk output)
  then Err OwnerAndEmergencyKeysMustDiffer
  else if (vo_owner_delay_pulses output <? VAULT_OWNER_DELAY_MIN_PULSES_V1)
       || (VAULT_OWNER_DELAY_MAX_PULSES_V1 <? vo_owner_delay_pulses output)
  then Err (OwnerDelayOutOfRange (vo_owner_delay_pulses output)) else
  let min_emergency := saturating_add 32 (vo_owner_delay_pulses output) VAULT_EMERGENCY_DELAY_GAP_PULSES_V1 in
  if (vo_emergency_delay_pulses output <? min_emergency)
  || (VAULT_EMERGENCY_DELAY_MAX_PULSES_V1 <? vo_emergency_delay_pulses output)
  then Err (EmergencyDelayOutOfRange (vo_emergency_delay_pulses output))
  else Ok ().
Definition created_pulse_height_from_tip (pulse : PulseObservationV1) : Z := po_pulse_height pulse.
Definition owner_unlock_height (output : VaultV1Output) : Z :=
  saturating_add 64 (vo_created_pulse_height output) (vo_owner_delay_pulses output).
Definition emergency_unlock_height (output : VaultV1Output) : Z :=
  saturating_add 64 (vo_created_pulse_height output) (vo_emergency_delay_pulses output).
Definition pulses_remaining_owner (output : VaultV1Output) (current_pulse_height : Z) : Z :=
  saturating_sub (owner_unlock_height output) current_pulse_height.
Definition evaluate_vault_spend_v1 `{Crypto} (admission : AdmissionV1) (output : VaultV1Output)
  (w : VaultSpendWitnessV1) (pulse : result PulseClockV1Error PulseObservationV1)
  : result (option VaultV1Error) unit :=
  if negb (admitted admission) then throw VaultTemplateDisabled else
  check map_err Some (validate_vault_output_v1 output) in
  check verify_vault_spend_signature_v1 output w in
  let? pulse := pulse_or VaultPulseClockUnavailable pulse in
  match vw_path w with
  | Owner =>
      let required := owner_unlock_height output in
      if po_pulse_height pulse <? required
      then throw (OwnerSpendTooEarly (po_pulse_height pulse) required) else Ok ()
  | Emergency =>
      let required := emergency_unlock_height output in
      if po_pulse_height pulse <? required
      then throw (EmergencySpendTooEarly (po_pulse_height pulse) required) else Ok ()
  end.

(** ** [htlc_v1] *)

Definition HTLC_TEMPLATE_ID_V1 : string := "htlc_v1".
Definition HTLC_DOMAIN_V1 : string := "PulseDAG:covenant:htlc:v1".
Definition HTLC_REFUND_DELAY_MIN_PULSES_V1 : Z := 64.
Definition HTLC_REFUND_DELAY_MAX_PULSES_V1 : Z := 1048576.
Definition HTLC_PREIMAGE_LEN_V1 : Z := 32.

Record HtlcV1Output := mkHtlcV1Output {
  ho_template_id : string;
  ho_receiver_pk : string;
  ho_sender_pk : string;
  ho_payment_hash : bytes;
  ho_refund_delay_pulses : Z;
  ho_created_pulse_height : Z;
  ho_amount : Z;
}.
Inductive HtlcSpendPathV1 := HtlcClaim | HtlcRefund.
Definition htlc_path_str (p : HtlcSpendPathV1) : string :=
  match p with HtlcClaim => "claim" | HtlcRefund => "refund" end.
Record HtlcSpendWitnessV1 := mkHtlcSpendWitnessV1 {
  hw_path : HtlcSpendPathV1;
  hw_chain_id : string;
  hw_outpoint_txid : string;
  hw_outpoint_index : Z;
  hw_public_key : string;
  hw_signature_hex : string;
  hw_preimage : option bytes;
}.
Inductive HtlcV1Error :=
| HtlcTemplateDisabled
| HtlcUnknownTemplateId (observed : string)
| ReceiverAndSenderMustDiffer
| HtlcEmptyKey (field : string)
| RefundDelayOutOfRange (delay : Z)
| ReservedPreimageHash
| HtlcPulseClockUnavailable
| ClaimTooLate (current refund_at : Z)
| RefundTooEarly (current required : Z)
| HtlcSpendKeyMismatch (path : string)
| HtlcEmptyChainId
| HtlcInvalidSignature
| PreimageRequired
| PreimageMismatch.

Definition reserved_payment_hash_v1 `{Crypto} : bytes :=
  sha256 (replicate (Z.to_nat HTLC_PREIMAGE_LEN_V1) Byte.x00).
Definition payment_hash_v1 `{Crypto} (preimage : bytes) : bytes := sha256 preimage.
Definition refund_height_v1 (output : HtlcV1Output) : Z :=
  saturating_add 64 (ho_created_pulse_height output) (ho_refund_delay_pulses output).
Definition htlc_spend_signing_message_v1 (w : HtlcSpendWitnessV1) : result (option HtlcV1Error) bytes :=
  if bool_decide (hw_chain_id w = "") then throw HtlcEmptyChainId else
  let? prefix := or_panic (emit [encode_len_prefixed_str HTLC_DOMAIN_V1;
                                 encode_len_prefixed_str (hw_chain_id w);
                                 encode_len_prefixed_str (hw_outpoint_txid w);
                                 fixed 4 (hw_outpoint_index w);
                                 encode_len_prefixed_str (htlc_path_str (hw_path w))]) in
  match hw_path w with
  | HtlcClaim =>
      let? preimage := ok_or (hw_preimage w) (Some PreimageRequired) in
      let? tail := or_panic (encode_len_prefixed_bytes preimage) in
      Ok (prefix ++ tail)
  | HtlcRefund => Ok prefix
  end.
Definition validate_htlc_output_v1 `{Crypto} (output : HtlcV1Output) : result HtlcV1Error unit :=
  if bool_decide (ho_template_id output <> HTLC_TEMPLATE_ID_V1)
  then Err (HtlcUnknownTemplateId (ho_template_id output))
  else if bool_decide (ho_receiver_pk output = "") then Err (HtlcEmptyKey "receiver_pk")
  else if bool_decide (ho_sender_pk output = "") then Err (HtlcEmptyKey "sender_pk")
  else if bool_decide (ho_receiver_pk output = ho_sender_pk output) then Err ReceiverAndSenderMustDiffer
  else if (ho_refund_delay_pulses output <? HTLC_REFUND_DELAY_MIN_PULSES_V1)
       || (HTLC_REFUND_DELAY_MAX_PULSES_V1 <? ho_refund_delay_pulses output)
  then Err (RefundDelayOutOfRange (ho_refund_delay_pulses output))
  else if bool_decide (ho_payment_hash output = reserved_payment_hash_v1) then Err ReservedPreimageHash
  else Ok ().
Definition verify_htlc_signature_v1 `{Crypto} (output : HtlcV1Output) (w : HtlcSpendWitnessV1)
  : result (option HtlcV1Error) unit :=
  let expected_pk :=
    match hw_path w with HtlcClaim => ho_receiver_pk output | HtlcRefund => ho_sender_pk output end in
  if bool_decide (hw_public_key w <> expected_pk)
  then throw (HtlcSpendKeyMismatch (htlc_path_str (hw_path w))) else
  let? message := htlc_spend_signing_message_v1 w in
  if signature_valid (hw_public_key w) (hw_signature_hex w) message then Ok ()
  else throw HtlcInvalidSignature.
Definition evaluate_htlc_spend_v1 `{Crypto} (admission : AdmissionV1) (output : HtlcV1Output)
  (w : HtlcSpendWitnessV1) (pulse : result PulseClockV1Error PulseObservationV1)
  : result (option HtlcV1Error) unit :=
  if negb (admitted admission) then throw HtlcTemplateDisabled else
  check map_err Some (validate_htlc_output_v1 output) in
  check verify_htlc_signature_v1 output w in
  let? pulse := pulse_or HtlcPulseClockUnavailable pulse in
  let refund_at := refund_height_v1 output in
  match hw_path w with
  | HtlcClaim =>
      let? preimage := ok_or (hw_preimage w) (Some PreimageRequired) in
      if bool_decide (payment_hash_v1 preimage <> ho_payment_hash output) then throw PreimageMismatch
      else if refund_at <=? po_pulse_height pulse
      then throw (ClaimTooLate (po_pulse_height pulse) refund_at) else Ok ()
  | HtlcRefund =>
      if po_pulse_height pulse <? refund_at
      then throw (RefundTooEarly (po_pulse_height pulse) refund_at) else Ok ()
  end.

(** ** [multisig_m_n_v1] *)

Definition MULTISIG_TEMPLATE_ID_V1 : string := "multisig_m_n_v1".
Definition MULTISIG_DOMAIN_V1 : string := "PulseDAG:covenant:multisig:v1".
Definition MULTISIG_MAX_KEYS_V1 : Z := 16.

Record MultisigV1Output := mkMultisigV1Output {
  mo_template_id : string;
  mo_threshold_m : Z;
  mo_keys : list string;
  mo_amount : Z;
}.
Record MultisigSpendWitnessV1 := mkMultisigSpendWitnessV1 {
  mw_chain_id : string;
  mw_outpoint_txid : string;
  mw_outpoint_index : Z;
  mw_successor_commitment : string;
  mw_key_indexes : list Z;
  mw_signature_hexes : list string;
}.
Inductive MultisigV1Error :=
| MultisigTemplateDisabled
| MultisigUnknownTemplateId (observed : string)
| InvalidThreshold (m n : Z)
| TooManyKeys (n : Z)
| MultisigEmptyKey
| KeysNotCanonical
| MultisigEmptyChainId
| IndexListNotCanonical
| SignatureCountMismatch (indexes signatures : Z)
| ThresholdNotMet (required actual : Z)
| KeyIndexOutOfRange (index : Z)
| MultisigInvalidSignature (index : Z).

(** The loop over the keys, with the previous one. *)
Definition check_key (previous : option string) (key : string) : result MultisigV1Error (option string) :=
  if bool_decide (key = "") then Err MultisigEmptyKey
  else match previous with
       | Some prev => match String.compare key prev with
                      | Gt => Ok (Some key)
                      | _ => Err KeysNotCanonical
                      end
       | None => Ok (Some key)
       end.
Definition validate_multisig_output_v1 (output : MultisigV1Output) : result MultisigV1Error unit :=
  if bool_decide (mo_template_id output <> MULTISIG_TEMPLATE_ID_V1)
  then Err (MultisigUnknownTemplateId (mo_template_id output)) else
  let n := Z.of_nat (length (mo_keys output)) in
  if (n =? 0) || (MULTISIG_MAX_KEYS_V1 <? n) then Err (TooManyKeys n)
  else if (mo_threshold_m output <? 1) || (n <? mo_threshold_m output)
  then Err (InvalidThreshold (mo_threshold_m output) n) else
  check try_fold check_key None (mo_keys output) in Ok ().
Definition multisig_spend_signing_message_v1 (w : MultisigSpendWitnessV1)
  : result (option MultisigV1Error) bytes :=
  if bool_decide (mw_chain_id w = "") then throw MultisigEmptyChainId else
  or_panic (emit [encode_len_prefixed_str MULTISIG_DOMAIN_V1;
                  encode_len_prefixed_str (mw_chain_id w);
                  encode_len_prefixed_str (mw_outpoint_txid w);
                  fixed 4 (mw_outpoint_index w);
                  encode_len_prefixed_str "spend";
                  encode_len_prefixed_str (mw_successor_commitment w)]).
Fixpoint indexes_are_canonical (indexes : list Z) : bool :=
  match indexes with
  | a :: ((b :: _) as rest) => (a <? b) && indexes_are_canonical rest
  | _ => true
  end.
(** One iteration of the verification loop. *)
Definition verify_indexed `{Crypto} (keys : list string) (message : bytes) (_ : unit) (p : Z * string)
  : result MultisigV1Error unit :=
  let? key := ok_or (keys !! Z.to_nat p.1) (KeyIndexOutOfRange p.1) in
  if signature_valid key p.2 message then Ok () else Err (MultisigInvalidSignature p.1).
Definition evaluate_multisig_spend_v1 `{Crypto} (admission : AdmissionV1) (output : MultisigV1Output)
  (w : MultisigSpendWitnessV1) : result (option MultisigV1Error) unit :=
  if negb (admitted admission) then throw MultisigTemplateDisabled else
  check map_err Some (validate_multisig_output_v1 output) in
  let indexes := Z.of_nat (length (mw_key_indexes w)) in
  let signatures := Z.of_nat (length (mw_signature_hexes w)) in
  if negb (indexes =? signatures) then throw (SignatureCountMismatch indexes signatures)
  else if bool_decide (mw_key_indexes w = []) || negb (indexes_are_canonical (mw_key_indexes w))
  then throw IndexListNotCanonical
  else if negb (indexes =? mo_threshold_m output)
  then throw (ThresholdNotMet (mo_threshold_m output) indexes) else
  let? message := multisig_spend_signing_message_v1 w in
  map_err Some (try_fold (verify_indexed (mo_keys output) message) ()
                  (zip (mw_key_indexes w) (mw_signature_hexes w))).

(** ** [channel_v1] *)

Definition CHANNEL_TEMPLATE_ID_V1 : string := "channel_v1".
Definition CHANNEL_DOMAIN_V1 : string := "PulseDAG:covenant:channel:v1".
Definition CHANNEL_CHALLENGE_MIN_PULSES_V1 : Z := 64.
Definition CHANNEL_CHALLENGE_MAX_PULSES_V1 : Z := 65536.

Inductive ChannelStageV1 := Funded | Closing.
#[global] Instance ChannelStageV1_eq_dec : EqDecision ChannelStageV1.
Proof. solve_decision. Defined.
Record ChannelV1Output := mkChannelV1Output {
  co_template_id : string;
  co_party_a_pk : string;
  co_party_b_pk : string;
  co_challenge_pulses : Z;
  co_amount : Z;
  co_stage : ChannelStageV1;
  co_state_seq : Z;
  co_amt_a : Z;
  co_amt_b : Z;
  co_posted_pulse_height : Z;
  co_closing_pk : string;
}.
Inductive ChannelSpendPathV1 := Coop | Uni | Challenge | Timeout.
Definition channel_path_str (p : ChannelSpendPathV1) : string :=
  match p with
  | Coop => "coop" | Uni => "uni" | Challenge => "challenge" | Timeout => "timeout"
  end.
Record ChannelSpendWitnessV1 := mkChannelSpendWitnessV1 {
  cw_path : ChannelSpendPathV1;
  cw_chain_id : string;
  cw_outpoint_txid : string;
  cw_outpoint_index : Z;
  cw_amt_a : Z;
  cw_amt_b : Z;
  cw_state_seq : Z;
  cw_signer_pk : string;
  cw_signature_hex : string;
  cw_counterparty_signature_hex : option string;
}.
Inductive ChannelV1Error :=
| ChannelTemplateDisabled
| ChannelUnknownTemplateId (observed : string)
| PartiesMustDiffer
| ChannelEmptyKey (field : string)
| ChallengeWindowOutOfRange (value : Z)
| AmountSplitMismatch (left right total : Z)
| ChannelPulseClockUnavailable
| ChannelEmptyChainId
| ChannelInvalidSignature (party : string)
| ChannelSpendKeyMismatch
| WrongStage (expected : string)
| ChallengeTooLate (current deadline : Z)
| TimeoutTooEarly (current required : Z)
| StateSeqNotHigher (posted offered : Z).

Definition challenge_deadline_v1 (output : ChannelV1Output) : Z :=
  saturating_add 64 (co_posted_pulse_height output) (co_challenge_pulses output).
Definition validate_channel_output_v1 (output : ChannelV1Output) : result ChannelV1Error unit :=
  if bool_decide (co_template_id output <> CHANNEL_TEMPLATE_ID_V1)
  then Err (ChannelUnknownTemplateId (co_template_id output))
  else if bool_decide (co_party_a_pk output = "") then Err (ChannelEmptyKey "party_a_pk")
  else if bool_decide (co_party_b_pk output = "") then Err (ChannelEmptyKey "party_b_pk")
  else if bool_decide (co_party_a_pk output = co_party_b_pk output) then Err PartiesMustDiffer
  else if (co_challenge_pulses output <? CHANNEL_CHALLENGE_MIN_PULSES_V1)
       || (CHANNEL_CHALLENGE_MAX_PULSES_V1 <? co_challenge_pulses output)
  then Err (ChallengeWindowOutOfRange (co_challenge_pulses output))
  else if bool_decide (co_stage output = Closing)
       && negb (saturating_add 64 (co_amt_a output) (co_amt_b output) =? co_amount output)
  then Err (AmountSplitMismatch (co_amt_a output) (co_amt_b output) (co_amount output))
  else Ok ().
Definition channel_spend_signing_message_v1 (w : ChannelSpendWitnessV1)
  : result (option ChannelV1Error) bytes :=
  if bool_decide (cw_chain_id w = "") then throw ChannelEmptyChainId else
  or_panic (emit [encode_len_prefixed_str CHANNEL_DOMAIN_V1;
                  encode_len_prefixed_str (cw_chain_id w);
                  encode_len_prefixed_str (cw_outpoint_txid w);
                  fixed 4 (cw_outpoint_index w);
                  encode_len_prefixed_str (channel_path_str (cw_path w));
                  fixed 8 (cw_amt_a w);
                  fixed 8 (cw_amt_b w);
                  fixed 8 (cw_state_seq w)]).
Definition verify_pk_signature `{Crypto} (public_key_hex signature_hex : string) (message : bytes)
  (party : string) : result (option ChannelV1Error) unit :=
  if signature_valid public_key_hex signature_hex message then Ok ()
  else throw (ChannelInvalidSignature party).
Definition signer_is_party (output : ChannelV1Output) (pk : string) : bool :=
  bool_decide (pk = co_party_a_pk output) || bool_decide (pk = co_party_b_pk output).
Definition other_party (output : ChannelV1Output) (pk : string) : option string :=
  if bool_decide (pk = co_party_a_pk output) then Some (co_party_b_pk output)
  else if bool_decide (pk = co_party_b_pk output) then Some (co_party_a_pk output)
  else None.
Definition evaluate_channel_spend_v1 `{Crypto} (admission : AdmissionV1) (output : ChannelV1Output)
  (w : ChannelSpendWitnessV1) (pulse : result PulseClockV1Error PulseObservationV1)
  : result (option ChannelV1Error) unit :=
  if negb (admitted admission) then throw ChannelTemplateDisabled else
  check map_err Some (validate_channel_output_v1 output) in
  if negb (signer_is_party output (cw_signer_pk w)) then throw ChannelSpendKeyMismatch
  else if negb (saturating_add 64 (cw_amt_a w) (cw_amt_b w) =? co_amount output)
  then throw (AmountSplitMismatch (cw_amt_a w) (cw_amt_b w) (co_amount output)) else
  let? message := channel_spend_signing_message_v1 w in
  check verify_pk_signature (cw_signer_pk w) (cw_signature_hex w) message "signer" in
  match cw_path w with
  | Coop =>
      if bool_decide (co_stage output <> Funded) then throw (WrongStage "funded") else
      let? other := or_panic (other_party output (cw_signer_pk w)) in
      let? other_sig :=
        ok_or (cw_counterparty_signature_hex w) (Some (ChannelInvalidSignature "counterparty")) in
      verify_pk_signature other other_sig message "counterparty"
  | Uni =>
      if bool_decide (co_stage output <> Funded) then throw (WrongStage "funded") else Ok ()
  | Challenge =>
      if bool_decide (co_stage output <> Closing) then throw (WrongStage "closing") else
      let? pulse := pulse_or ChannelPulseClockUnavailable pulse in
      let deadline := challenge_deadline_v1 output in
      if deadline <=? po_pulse_height pulse
      then throw (ChallengeTooLate (po_pulse_height pulse) deadline)
      else if cw_state_seq w <=? co_state_seq output
      then throw (StateSeqNotHigher (co_state_seq output) (cw_state_seq w))
      else if bool_decide (Some (cw_signer_pk w) <> other_party output (co_closing_pk output))
      then throw ChannelSpendKeyMismatch
      else Ok ()
  | Timeout =>
      if bool_decide (co_stage output <> Closing) then throw (WrongStage "closing") else
      let? pulse := pulse_or ChannelPulseClockUnavailable pulse in
      let required := challenge_deadline_v1 output in
      if po_pulse_height pulse <? required
      then throw (TimeoutTooEarly (po_pulse_height pulse) required) else Ok ()
  end.

(** ** [pay_stream_v1] *)

Definition PAY_STREAM_TEMPLATE_ID_V1 : string := "pay_stream_v1".
Definition PAY_STREAM_BUCKET_PULSES_MIN_V1 : Z := 16.
Definition PAY_STREAM_BUCKET_PULSES_MAX_V1 : Z := 65536.
Definition PAY_STREAM_BUCKET_COUNT_MIN_V1 : Z := 1.
Definition PAY_STREAM_BUCKET_COUNT_MAX_V1 : Z := 4096.

Record PayStreamV1Output := mkPayStreamV1Output {
  ps_template_id : string;
  ps_payer_pk : string;
  ps_recipient_pk : string;
  ps_start_pulse : Z;
  ps_bucket_pulses : Z;
  ps_bucket_count : Z;
  ps_amount_per_bucket : Z;
  ps_withdrawn_buckets : Z;
  ps_amount : Z;
  ps_created_pulse_height : Z;
}.
Inductive PayStreamV1Error :=
| StreamTemplateDisabled
| StreamUnknownTemplateId (observed : string)
| PayerAndRecipientMustDiffer
| StreamEmptyKey (field : string)
| BucketPulsesOutOfRange (value : Z)
| BucketCountOutOfRange (value : Z)
| WithdrawnExceedsCount
| AmountMismatch (expected actual : Z)
| StartPulseBeforeCreate
| StreamPulseClockUnavailable
| NothingMatured (matured withdrawn : Z).

Definition validate_pay_stream_output_v1 (output : PayStreamV1Output) : result PayStreamV1Error unit :=
  if bool_decide (ps_template_id output <> PAY_STREAM_TEMPLATE_ID_V1)
  then Err (StreamUnknownTemplateId (ps_template_id output))
  else if bool_decide (ps_payer_pk output = "") then Err (StreamEmptyKey "payer_pk")
  else if bool_decide (ps_recipient_pk output = "") then Err (StreamEmptyKey "recipient_pk")
  else if bool_decide (ps_payer_pk output = ps_recipient_pk output) then Err PayerAndRecipientMustDiffer
  else if (ps_bucket_pulses output <? PAY_STREAM_BUCKET_PULSES_MIN_V1)
       || (PAY_STREAM_BUCKET_PULSES_MAX_V1 <? ps_bucket_pulses output)
  then Err (BucketPulsesOutOfRange (ps_bucket_pulses output))
  else if (ps_bucket_count output <? PAY_STREAM_BUCKET_COUNT_MIN_V1)
       || (PAY_STREAM_BUCKET_COUNT_MAX_V1 <? ps_bucket_count output)
  then Err (BucketCountOutOfRange (ps_bucket_count output))
  else if ps_bucket_count output <? ps_withdrawn_buckets output then Err WithdrawnExceedsCount
  else if ps_start_pulse output <? ps_created_pulse_height output then Err StartPulseBeforeCreate else
  let remaining := saturating_sub (ps_bucket_count output) (ps_withdrawn_buckets output) in
  let expected := saturating_mul 64 (ps_amount_per_bucket output) remaining in
  if negb (ps_amount output =? expected) then Err (AmountMismatch expected (ps_amount output))
  else Ok ().
Definition matured_buckets_v1 (output : PayStreamV1Output) (pulse_height : Z) : Z :=
  if (pulse_height <? ps_start_pulse output) || (ps_bucket_pulses output =? 0) then 0 else
  let elapsed := saturating_sub pulse_height (ps_start_pulse output) in
  let raw := elapsed / ps_bucket_pulses output in
  Z.min raw (ps_bucket_count output).
Definition withdrawable_buckets_v1 (output : PayStreamV1Output) (pulse_height : Z) : Z :=
  saturating_sub (matured_buckets_v1 output pulse_height) (ps_withdrawn_buckets output).
Definition evaluate_pay_stream_withdraw_v1 (admission : AdmissionV1) (output : PayStreamV1Output)
  (pulse : result PulseClockV1Error PulseObservationV1) : result PayStreamV1Error Z :=
  if negb (admitted admission) then Err StreamTemplateDisabled else
  check validate_pay_stream_output_v1 output in
  let? pulse := map_err (fun _ => StreamPulseClockUnavailable) pulse in
  let k := withdrawable_buckets_v1 output (po_pulse_height pulse) in
  if k =? 0
  then Err (NothingMatured (matured_buckets_v1 output (po_pulse_height pulse)) (ps_withdrawn_buckets output))
  else Ok k.
