(* ===== verification/TemplatesProps.v ===== *)
(** * Properties of the covenant templates

    The signing messages are separated between templates and bind what they
    sign; the two outcomes of a hash lock and of a channel dispute exclude each
    other; a payment stream pays each bucket once; and the saturating split check
    of a channel lets a split beyond the capacity through at [u64::MAX]. *)

From S2P Require Import Prelude Encoding Crypto Types State Tx ContractV3 PulseClock Templates.

(** ** Signing messages *)

Inductive TemplateWitness :=
| OfVault (w : VaultSpendWitnessV1)
| OfHtlc (w : HtlcSpendWitnessV1)
| OfMultisig (w : MultisigSpendWitnessV1)
| OfChannel (w : ChannelSpendWitnessV1).

(** The message a signer of the template signs. *)
Definition template_message (t : TemplateWitness) : option bytes :=
  match t with
  | OfVault w => result_ok (vault_spend_signing_message_v1 w)
  | OfHtlc w => result_ok (htlc_spend_signing_message_v1 w)
  | OfMultisig w => result_ok (multisig_spend_signing_message_v1 w)
  | OfChannel w => result_ok (channel_spend_signing_message_v1 w)
  end.

(** What the message stands for: domain, chain, outpoint, path and the part only
    some templates have. *)
Inductive SignedExtra :=
| NoExtra
| ClaimPreimage (preimage : bytes)
| Successor (commitment : string)
| ChannelState (amt_a amt_b seq : Z).
Definition template_head (t : TemplateWitness) : string * string * string * Z * string :=
  match t with
  | OfVault w => (VAULT_DOMAIN_V1, vw_chain_id w, vw_outpoint_txid w, vw_outpoint_index w,
                  vault_path_str (vw_path w))
  | OfHtlc w => (HTLC_DOMAIN_V1, hw_chain_id w, hw_outpoint_txid w, hw_outpoint_index w,
                 htlc_path_str (hw_path w))
  | OfMultisig w => (MULTISIG_DOMAIN_V1, mw_chain_id w, mw_outpoint_txid w, mw_outpoint_index w, "spend")
  | OfChannel w => (CHANNEL_DOMAIN_V1, cw_chain_id w, cw_outpoint_txid w, cw_outpoint_index w,
                    channel_path_str (cw_path w))
  end.
Definition template_extra (t : TemplateWitness) : SignedExtra :=
  match t with
  | OfVault _ => NoExtra
  | OfHtlc w => match hw_path w, hw_preimage w with
                | HtlcClaim, Some preimage => ClaimPreimage preimage
                | _, _ => NoExtra
                end
  | OfMultisig w => Successor (mw_successor_commitment w)
  | OfChannel w => ChannelState (cw_amt_a w) (cw_amt_b w) (cw_state_seq w)
  end.

Definition template_typed (t : TemplateWitness) : Prop :=
  match t with
  | OfVault w => in_u 32 (vw_outpoint_index w)
  | OfHtlc w => in_u 32 (hw_outpoint_index w)
  | OfMultisig w => in_u 32 (mw_outpoint_index w)
  | OfChannel w => in_u 32 (cw_outpoint_index w) /\ in_u 64 (cw_amt_a w) /\ in_u 64 (cw_amt_b w) /\
                   in_u 64 (cw_state_seq w)
  end.

Definition head_fields (h : string * string * string * Z * string) : list (option bytes) :=
  let '(domain, chain, txid, index, path) := h in
  [encode_len_prefixed_str domain; encode_len_prefixed_str chain; encode_len_prefixed_str txid;
   fixed 4 index; encode_len_prefixed_str path].
Definition extra_fields (e : SignedExtra) : list (option bytes) :=
  match e with
  | NoExtra => []
  | ClaimPreimage p => [encode_len_prefixed_bytes p]
  | Successor c => [encode_len_prefixed_str c]
  | ChannelState a b n => [fixed 8 a; fixed 8 b; fixed 8 n]
  end.

(** Every message is its head followed by its extra part. *)
Lemma template_message_emit t m :
  template_message t = Some m ->
  emit (head_fields (template_head t) ++ extra_fields (template_extra t)) = Some m.
Proof.
  destruct t as [w|w|w|w]; cbn [template_message template_head template_extra head_fields extra_fields];
    intros E%result_ok_Some.
  - unfold vault_spend_signing_message_v1, throw, or_panic in E. by inv_ok.
  - unfold htlc_spend_signing_message_v1, throw, or_panic in E. rewrite emit_app.
    destruct w as [path chain txid index pk sg preimage]; cbn [hw_path hw_preimage hw_chain_id hw_outpoint_txid
      hw_outpoint_index] in *.
    case_bool_decide; [done|]. destruct (emit _) as [p|]; [|done]. cbn [ok_or] in E.
    destruct path; [|inv_ok; cbn; by rewrite app_nil_r].
    destruct preimage as [pre|]; [|done]. cbn [ok_or] in E. cbn [extra_fields emit].
    destruct (encode_len_prefixed_bytes pre) as [tl|]; [|done]. cbn in *. inv_ok. by rewrite app_nil_r.
  - unfold multisig_spend_signing_message_v1, throw, or_panic in E. by inv_ok.
  - unfold channel_spend_signing_message_v1, throw, or_panic in E. by inv_ok.
Qed.

Lemma head_peel h1 h2 l1 l2 z1 z2 r s :
  in_u 32 h1.1.2 -> in_u 32 h2.1.2 ->
  emit (head_fields h1 ++ l1) = Some z1 -> emit (head_fields h2 ++ l2) = Some z2 ->
  z1 ++ r = z2 ++ s ->
  h1 = h2 /\ exists y1 y2, emit l1 = Some y1 /\ emit l2 = Some y2 /\ y1 ++ r = y2 ++ s.
Proof.
  destruct h1 as [[[[d1 c1] t1] i1] p1], h2 as [[[[d2 c2] t2] i2] p2]. cbn [fst snd head_fields app].
  intros I1 I2 E1 E2 Heq.
  do 3 peel (fun _ : string => True) encode_len_prefixed_str. peel_field.
  peel (fun _ : string => True) encode_len_prefixed_str. subst. eauto 10.
Qed.

(** With equal heads the extra parts have one form. *)
Lemma extra_shape t1 t2 m1 m2 :
  template_head t1 = template_head t2 -> template_message t1 = Some m1 -> template_message t2 = Some m2 ->
  match template_extra t1, template_extra t2 with
  | NoExtra, NoExtra | ClaimPreimage _, ClaimPreimage _ | Successor _, Successor _
  | ChannelState _ _ _, ChannelState _ _ _ => True
  | _, _ => False
  end.
Proof.
  destruct t1 as [?|w1|?|?], t2 as [?|w2|?|?]; try done. cbn [template_head template_message template_extra].
  intros Hh E1%result_ok_Some E2%result_ok_Some. unfold htlc_spend_signing_message_v1, throw in E1, E2.
  destruct (hw_path w1), (hw_path w2); try done.
  destruct (hw_preimage w1), (hw_preimage w2); try done; inv_ok; done.
Qed.

Lemma template_index_typed t : template_typed t -> in_u 32 (template_head t).1.2.
Proof. destruct t; cbn; [done..|by intros [? _]]. Qed.

(** The signing messages of the vault, hash-lock, multisig and channel templates
    are separated by domain and bind their content: two spends with one message are
    spends of the same template on the same chain, outpoint and path, with the same
    preimage, successor commitment or channel state.  A signature given for one of
    them therefore authorises no other. *)
Lemma template_message_binding t1 t2 m :
  template_typed t1 -> template_typed t2 ->
  template_message t1 = Some m -> template_message t2 = Some m ->
  template_head t1 = template_head t2 /\ template_extra t1 = template_extra t2.
Proof.
  intros T1 T2 E1 E2.
  destruct (head_peel _ _ _ _ m m [] [] (template_index_typed t1 T1) (template_index_typed t2 T2)
              (template_message_emit t1 m E1) (template_message_emit t2 m E2) eq_refl)
    as (Hh & y1 & y2 & H1 & H2 & Heq). split; [done|].
  pose proof (extra_shape t1 t2 m m Hh E1 E2) as Hs.
  assert (Hc : forall t a b n, template_typed t -> template_extra t = ChannelState a b n ->
    in_u 64 a /\ in_u 64 b /\ in_u 64 n).
  { intros [?|w|?|?] a b n Ht Hx; cbn in Hx; try done; [by destruct (hw_path w), (hw_preimage w)|].
    cbn in Ht. destruct_and?. by simplify_eq. }
  destruct (template_extra t1) eqn:X1, (template_extra t2) eqn:X2; try done; cbn [extra_fields] in H1, H2.
  - peel (fun _ : bytes => True) encode_len_prefixed_bytes. by subst.
  - peel (fun _ : string => True) encode_len_prefixed_str. by subst.
  - destruct (Hc t1 _ _ _ T1 X1) as (?&?&?), (Hc t2 _ _ _ T2 X2) as (?&?&?).
    repeat peel_field. by subst.
Qed.

(** ** Outcomes that exclude each other *)

Lemma throw_ok {E A} (b : bool) (e : E) (k : result (option E) A) x :
  (if b then throw e else k) = Ok x <-> b = false /\ k = Ok x.
Proof. unfold throw. destruct b; naive_solver. Qed.

(** A hash lock is claimed strictly before its refund height, by the receiver with the
    preimage; it is refunded at that height or later, by the sender. *)
Lemma htlc_spend_outcome `{Crypto} a o w pulse :
  evaluate_htlc_spend_v1 a o w (Ok pulse) = Ok () ->
  admitted a = true /\
  match hw_path w with
  | HtlcClaim => hw_public_key w = ho_receiver_pk o /\ po_pulse_height pulse < refund_height_v1 o /\
                 exists pre, hw_preimage w = Some pre /\ sha256 pre = ho_payment_hash o
  | HtlcRefund => hw_public_key w = ho_sender_pk o /\ refund_height_v1 o <= po_pulse_height pulse
  end.
Proof.
  unfold evaluate_htlc_spend_v1, verify_htlc_signature_v1, pulse_or, payment_hash_v1. intros E.
  destruct (admitted a); [|done]. cbn [negb map_err] in E. split; [done|].
  destruct (hw_path w); unfold throw in E; inv_ok; bool_props;
    repeat match goal with Hn : ~ (_ <> _) |- _ => apply dec_stable in Hn end; eauto.
Qed.

(** At one pulse a closing channel is either still open to a challenge by the other
    party with a higher state, or ready for the timeout, never both. *)
Lemma channel_dispute_exclusive `{Crypto} a o w1 w2 pulse :
  cw_path w1 = Challenge -> cw_path w2 = Timeout ->
  evaluate_channel_spend_v1 a o w1 (Ok pulse) = Ok () ->
  evaluate_channel_spend_v1 a o w2 (Ok pulse) = Ok () -> False.
Proof.
  unfold evaluate_channel_spend_v1, pulse_or. intros P1 P2 E1 E2. rewrite P1 in E1. rewrite P2 in E2.
  destruct (admitted a); [|done]. cbn [negb map_err] in *. unfold throw in *.
  inv_ok. bool_props. lia.
Qed.

(** ** Payment streams *)

Definition stream_typed (o : PayStreamV1Output) : Prop :=
  in_u 64 (ps_amount_per_bucket o) /\ in_u 32 (ps_withdrawn_buckets o) /\ in_u 32 (ps_bucket_count o).
(** The output that carries the stream on after [k] buckets were paid. *)
Definition after_withdrawal (o : PayStreamV1Output) (k : Z) : PayStreamV1Output :=
  mkPayStreamV1Output (ps_template_id o) (ps_payer_pk o) (ps_recipient_pk o) (ps_start_pulse o)
    (ps_bucket_pulses o) (ps_bucket_count o) (ps_amount_per_bucket o) (ps_withdrawn_buckets o + k)
    (ps_amount o - k * ps_amount_per_bucket o) (ps_created_pulse_height o).

Lemma matured_bound o pulse_height : matured_buckets_v1 o pulse_height <= Z.max 0 (ps_bucket_count o).
Proof. unfold matured_buckets_v1. case_match; lia. Qed.

Lemma if_err_ok {E A} (b : bool) (e : E) (k : result E A) x :
  (if b then Err e else k) = Ok x <-> b = false /\ k = Ok x.
Proof. destruct b; naive_solver. Qed.
Lemma validate_pay_stream_ok o :
  validate_pay_stream_output_v1 o = Ok () <->
  ~ ps_template_id o <> PAY_STREAM_TEMPLATE_ID_V1 /\ ps_payer_pk o <> "" /\ ps_recipient_pk o <> "" /\
  ps_payer_pk o <> ps_recipient_pk o /\ (16 <= ps_bucket_pulses o /\ ps_bucket_pulses o <= 65536) /\
  (1 <= ps_bucket_count o /\ ps_bucket_count o <= 4096) /\ ps_withdrawn_buckets o <= ps_bucket_count o /\
  ps_created_pulse_height o <= ps_start_pulse o /\
  ps_amount o = saturating_mul 64 (ps_amount_per_bucket o)
                  (saturating_sub (ps_bucket_count o) (ps_withdrawn_buckets o)).
Proof.
  unfold validate_pay_stream_output_v1. cbv zeta.
  rewrite !if_err_ok, !orb_false_iff, !bool_decide_eq_false, !Z.ltb_ge, negb_false_iff, Z.eqb_eq.
  naive_solver.
Qed.

(** A withdrawal pays at least one bucket and all that matured; when the stream's
    total fits a [u64] it is covered by the output, the continuing output is valid
    again, and nothing more can be withdrawn at the same pulse. *)
Lemma pay_stream_withdraw_sound a o pulse k :
  stream_typed o -> evaluate_pay_stream_withdraw_v1 a o (Ok pulse) = Ok k ->
  let matured := matured_buckets_v1 o (po_pulse_height pulse) in
  1 <= k /\ ps_withdrawn_buckets o + k = matured /\ matured <= ps_bucket_count o /\
  (ps_amount_per_bucket o * ps_bucket_count o <= u_max 64 ->
   k * ps_amount_per_bucket o <= ps_amount o /\
   evaluate_pay_stream_withdraw_v1 a (after_withdrawal o k) (Ok pulse) = Err (NothingMatured matured matured)).
Proof.
  intros (Ha & Hw & Hc) E matured. unfold in_u in *.
  unfold evaluate_pay_stream_withdraw_v1 in E |- *. destruct (admitted a); [|done]. cbn [negb map_err] in *.
  destruct (validate_pay_stream_output_v1 o) as [[]|] eqn:Hv; [|done].
  apply validate_pay_stream_ok in Hv as (?&?&?&?&?&?&?&?&Hamt).
  unfold withdrawable_buckets_v1 in *. fold matured in E.
  pose proof (matured_bound o (po_pulse_height pulse)) as Hm. fold matured in Hm.
  destruct (Z.eqb_spec (saturating_sub matured (ps_withdrawn_buckets o)) 0) as [|Hk]; [done|].
  injection E as E. unfold saturating_sub, saturating_mul in *.
  split; [lia|]. split; [lia|]. split; [lia|]. intros Hfit.
  rewrite Z.max_l in Hamt by lia.
  assert (ps_amount_per_bucket o * (ps_bucket_count o - ps_withdrawn_buckets o) <= u_max 64) by nia.
  rewrite Z.min_l in Hamt by lia. split; [nia|].
  rewrite (proj2 (validate_pay_stream_ok (after_withdrawal o k))).
  - change (matured_buckets_v1 (after_withdrawal o k) (po_pulse_height pulse)) with matured.
    cbn [after_withdrawal ps_withdrawn_buckets]. replace (ps_withdrawn_buckets o + k) with matured by lia.
    replace (Z.max (matured - matured) 0) with 0 by lia. done.
  - cbn [after_withdrawal ps_template_id ps_payer_pk ps_recipient_pk ps_start_pulse ps_bucket_pulses
      ps_bucket_count ps_amount_per_bucket ps_withdrawn_buckets ps_amount ps_created_pulse_height].
    split_and!; try done; try lia. unfold saturating_mul, saturating_sub.
    rewrite Z.max_l by lia. rewrite Z.min_l by nia. nia.
Qed.

(** ** Saturating sums

    [u64::MAX] absorbs: at that capacity the split checks accept shares that add up
    to more than the output holds. *)

Lemma channel_split_bound `{Crypto} a o w pulse :
  evaluate_channel_spend_v1 a o w pulse = Ok () ->
  cw_amt_a w + cw_amt_b w = co_amount o \/
  (co_amount o = u_max 64 /\ u_max 64 < cw_amt_a w + cw_amt_b w).
Proof.
  unfold evaluate_channel_spend_v1, throw, saturating_add. intros E.
  destruct (admitted a); [|done]. cbn [negb] in E.
  destruct (map_err Some (validate_channel_output_v1 o)); [|done].
  destruct (signer_is_party o (cw_signer_pk w)); [|done]. cbn [negb] in E.
  destruct (Z.eqb_spec (Z.min (cw_amt_a w + cw_amt_b w) (u_max 64)) (co_amount o)) as [Hs|]; [|done]. lia.
Qed.

(** ** Concrete spends *)

#[local] Existing Instance model_crypto.

Definition sign_model (pk : string) (message : bytes) : string :=
  match hex_decode pk with
  | Some b => hex_encode (model_digest (b ++ message) ++ b)
  | None => ""
  end.
Definition party (z : Z) : string := hex_encode (replicate 32 (byte_of_Z z)).
Definition full_channel : ChannelV1Output :=
  mkChannelV1Output "channel_v1" (party 1) (party 2) 64 (u_max 64) Funded 0 0 0 0 "".
Definition unsigned_close : ChannelSpendWitnessV1 :=
  mkChannelSpendWitnessV1 Uni "main" "aa" 0 (u_max 64) (u_max 64) 1 (party 1) "" None.
Definition doubled_close : ChannelSpendWitnessV1 :=
  mkChannelSpendWitnessV1 Uni "main" "aa" 0 (u_max 64) (u_max 64) 1 (party 1)
    (sign_model (party 1) (default [] (template_message (OfChannel unsigned_close)))) None.

(** A split of twice the capacity is accepted at [u64::MAX]. *)
Lemma channel_split_saturates :
  evaluate_channel_spend_v1 (mkAdmissionV1 true true) full_channel doubled_close (Err SelectedTipUnavailable)
  = Ok () /\ cw_amt_a doubled_close + cw_amt_b doubled_close = 2 * co_amount full_channel.
Proof. split; by_compute. Qed.

Definition stream_of (per_bucket withdrawn amount : Z) : PayStreamV1Output :=
  mkPayStreamV1Output "pay_stream_v1" "payer" "recipient" 10 16 4 per_bucket withdrawn amount 5.
Definition pulse_at (height : Z) : PulseObservationV1 :=
  mkPulseObservationV1 1 "PulseDAG:pulse:v1" "main" "t" height 0 11 0 600 height.

(** Four buckets of [2 ^ 63] are accepted in an output of [u64::MAX]. *)
Lemma pay_stream_saturates :
  evaluate_pay_stream_withdraw_v1 (mkAdmissionV1 true true) (stream_of (2 ^ 63) 0 (u_max 64)) (Ok (pulse_at 80))
  = Ok 4 /\ u_max 64 < 4 * 2 ^ 63.
Proof. split; by_compute. Qed.

Lemma template_message_binding_witness :
  exists m, template_message (OfChannel unsigned_close) = Some m /\
    template_message (OfChannel doubled_close) = Some m /\
    template_head (OfChannel unsigned_close) = template_head (OfChannel doubled_close).
Proof.
  eexists. split; [by_compute|]. split; [by_compute|].
  eapply (template_message_binding (OfChannel unsigned_close) (OfChannel doubled_close)).
  - cbn [template_typed]. split_and!; by_decide.
  - cbn [template_typed]. split_and!; by_decide.
  - by_compute.
  - by_compute.
Defined.
