(* ===== verification/ContractState.v ===== *)
(** * Contract state transitions ([contract_state_v1.rs])

    The check that a state transition belongs to a contract envelope: measured
    resources within the envelope's budget, evidence accepted by the policy and
    bound to the envelope's proof commitment, and every commitment equal to what
    the caller expects or measured.  The theorems show that the check leaves one
    transition per envelope and context. *)

From S2P Require Import Prelude Encoding Crypto Types ContractV3.

Definition CONTRACT_STATE_TRANSITION_VERSION_V1 : Z := 1.
Definition PROOF_EVIDENCE_VERSION_V1 : Z := 1.
Definition PROOF_EVIDENCE_POLICY_VERSION_V1 : Z := 1.
Definition CONTRACT_STATE_TRANSITION_DOMAIN_V1 : bytes := str_bytes "PulseDAG:contract-state-transition:v1".
Definition PROOF_EVIDENCE_BINDING_DOMAIN_V1 : bytes := str_bytes "PulseDAG:proof-evidence-binding:v1".
Definition EMPTY_WRITE_SET_DOMAIN_V1 : bytes := str_bytes "PulseDAG:contract-empty-write-set:v1".
Definition EMPTY_EVENT_SET_DOMAIN_V1 : bytes := str_bytes "PulseDAG:contract-empty-event-set:v1".

Inductive ContractStateV1Error :=
| StateContractV3 (e : ContractV3Error)
| UnsupportedTransitionVersion (v : Z)
| UnsupportedEvidenceVersion (v : Z)
| UnsupportedEvidencePolicyVersion (v : Z)
| UnsupportedProofTuple
| InvalidEvidenceCommitment
| EvidenceCommitmentMismatch
| EvidenceInvalidated
| EvidencePolicyMismatch
| IdentityFingerprintMismatch
| ContractTxidMismatch
| PriorStateMismatch
| NextStateMismatch
| ReplayNonceMismatch
| ResourceBudgetExceeded (field : string) (actual max : Z)
| StateEmptyCommitment (field : string)
| StateCanonicalLengthOverflow
| ResourceUsageMismatch
| WriteSetCommitmentMismatch
| EventSetCommitmentMismatch.

Definition state_rejection_code (e : ContractStateV1Error) : Z :=
  match e with
  | StateContractV3 _ => 1
  | UnsupportedTransitionVersion _ => 2
  | UnsupportedEvidenceVersion _ => 3
  | UnsupportedEvidencePolicyVersion _ => 4
  | UnsupportedProofTuple => 5
  | InvalidEvidenceCommitment => 6
  | EvidenceCommitmentMismatch => 7
  | EvidenceInvalidated => 8
  | EvidencePolicyMismatch => 9
  | IdentityFingerprintMismatch => 10
  | ContractTxidMismatch => 11
  | PriorStateMismatch => 12
  | NextStateMismatch => 13
  | ReplayNonceMismatch => 14
  | ResourceBudgetExceeded _ _ _ => 15
  | StateEmptyCommitment _ => 16
  | StateCanonicalLengthOverflow => 17
  | ResourceUsageMismatch => 18
  | WriteSetCommitmentMismatch => 19
  | EventSetCommitmentMismatch => 20
  end.

Record ContractResourceUsageV1 := mkContractResourceUsageV1 {
  ru_compute_units : Z;
  ru_read_bytes : Z;
  ru_write_bytes : Z;
  ru_proof_bytes : Z;
  ru_event_bytes : Z;
}.
#[global] Instance usage_eq_dec : EqDecision ContractResourceUsageV1.
Proof. solve_decision. Defined.
Record ProofEvidenceV1 := mkProofEvidenceV1 {
  pe_version : Z;
  pe_proof_system : Z;
  pe_proof_system_version : Z;
  pe_verifier_revision : Z;
  pe_evidence_generation : Z;
  pe_evidence_payload_commitment : bytes;
}.
Record ProofEvidencePolicyV1 := mkProofEvidencePolicyV1 {
  pp_version : Z;
  pp_proof_system : Z;
  pp_proof_system_version : Z;
  pp_verifier_revision : Z;
  pp_minimum_valid_evidence_generation : Z;
}.
Record ContractStateTransitionV1 := mkContractStateTransitionV1 {
  st_version : Z;
  st_identity_fingerprint : bytes;
  st_contract_txid : bytes;
  st_prior_state_commitment : bytes;
  st_next_state_commitment : bytes;
  st_write_set_commitment : bytes;
  st_event_set_commitment : bytes;
  st_resource_usage : ContractResourceUsageV1;
  st_replay_nonce : Z;
  st_proof_evidence : ProofEvidenceV1;
}.
Record ContractStateValidationV1 := mkContractStateValidationV1 {
  cv_transition_commitment : bytes;
  cv_write_set_commitment : bytes;
  cv_event_set_commitment : bytes;
  cv_resource_usage : ContractResourceUsageV1;
  cv_replay_nonce : Z;
}.

Definition ensure_budget (field : string) (actual max : Z) : result ContractStateV1Error unit :=
  if max <? actual then Err (ResourceBudgetExceeded field actual max) else Ok ().
Definition state_ensure_nonzero (field : string) (value : bytes) : result ContractStateV1Error unit :=
  if all_zero value then Err (StateEmptyCommitment field) else Ok ().

Definition validate_against_budget (u : ContractResourceUsageV1) (budget : ResourceBudgetV1)
  : result ContractStateV1Error unit :=
  check map_err StateContractV3 (budget_validate budget) in
  check ensure_budget "compute_units" (ru_compute_units u) (rb_compute_units budget) in
  check ensure_budget "read_bytes" (ru_read_bytes u) (rb_read_bytes budget) in
  check ensure_budget "write_bytes" (ru_write_bytes u) (rb_write_bytes budget) in
  check ensure_budget "proof_bytes" (ru_proof_bytes u) (rb_proof_bytes budget) in
  ensure_budget "event_bytes" (ru_event_bytes u) (rb_event_bytes budget).

Definition evidence_validate (e : ProofEvidenceV1) : result ContractStateV1Error unit :=
  if negb (pe_version e =? PROOF_EVIDENCE_VERSION_V1)
  then Err (UnsupportedEvidenceVersion (pe_version e))
  else if pe_proof_system e =? PROOF_SYSTEM_NONE then
    if negb (pe_proof_system_version e =? 0) || negb (pe_verifier_revision e =? 0)
       || negb (pe_evidence_generation e =? 0)
    then Err UnsupportedProofTuple
    else if negb (all_zero (pe_evidence_payload_commitment e)) then Err InvalidEvidenceCommitment
    else Ok ()
  else if pe_proof_system e =? PROOF_SYSTEM_EXTERNAL_COMMITMENT_V1 then
    if negb (pe_proof_system_version e =? 1) || (pe_verifier_revision e =? 0)
    then Err UnsupportedProofTuple
    else state_ensure_nonzero "evidence_payload_commitment" (pe_evidence_payload_commitment e)
  else Err UnsupportedProofTuple.

Definition policy_validate (p : ProofEvidencePolicyV1) : result ContractStateV1Error unit :=
  if negb (pp_version p =? PROOF_EVIDENCE_POLICY_VERSION_V1)
  then Err (UnsupportedEvidencePolicyVersion (pp_version p))
  else if pp_proof_system p =? PROOF_SYSTEM_NONE then
    if negb (pp_proof_system_version p =? 0) || negb (pp_verifier_revision p =? 0)
       || negb (pp_minimum_valid_evidence_generation p =? 0)
    then Err UnsupportedProofTuple else Ok ()
  else if pp_proof_system p =? PROOF_SYSTEM_EXTERNAL_COMMITMENT_V1 then
    if negb (pp_proof_system_version p =? 1) || (pp_verifier_revision p =? 0)
    then Err UnsupportedProofTuple else Ok ()
  else Err UnsupportedProofTuple.

Definition validate_shape (t : ContractStateTransitionV1) : result ContractStateV1Error unit :=
  if negb (st_version t =? CONTRACT_STATE_TRANSITION_VERSION_V1)
  then Err (UnsupportedTransitionVersion (st_version t)) else
  check state_ensure_nonzero "identity_fingerprint" (st_identity_fingerprint t) in
  check state_ensure_nonzero "contract_txid" (st_contract_txid t) in
  check state_ensure_nonzero "prior_state_commitment" (st_prior_state_commitment t) in
  check state_ensure_nonzero "next_state_commitment" (st_next_state_commitment t) in
  check state_ensure_nonzero "write_set_commitment" (st_write_set_commitment t) in
  check state_ensure_nonzero "event_set_commitment" (st_event_set_commitment t) in
  evidence_validate (st_proof_evidence t).

(** The bytes the evidence of an external proof is bound by. *)
Definition evidence_binding_bytes (e : ProofEvidenceV1) : option bytes :=
  emit [encode_len_prefixed PROOF_EVIDENCE_BINDING_DOMAIN_V1;
        fixed 2 (pe_version e);
        fixed 2 (pe_proof_system e);
        fixed 2 (pe_proof_system_version e);
        fixed 4 (pe_verifier_revision e);
        fixed 8 (pe_evidence_generation e);
        raw (pe_evidence_payload_commitment e)].

Definition canonical_contract_state_transition_bytes_v1 (t : ContractStateTransitionV1)
  : result ContractStateV1Error bytes :=
  check validate_shape t in
  let u := st_resource_usage t in
  let e := st_proof_evidence t in
  ok_or (emit [encode_len_prefixed CONTRACT_STATE_TRANSITION_DOMAIN_V1;
               fixed 2 (st_version t);
               raw (st_identity_fingerprint t);
               raw (st_contract_txid t);
               raw (st_prior_state_commitment t);
               raw (st_next_state_commitment t);
               raw (st_write_set_commitment t);
               raw (st_event_set_commitment t);
               fixed 8 (ru_compute_units u);
               fixed 8 (ru_read_bytes u);
               fixed 8 (ru_write_bytes u);
               fixed 4 (ru_proof_bytes u);
               fixed 4 (ru_event_bytes u);
               fixed 8 (st_replay_nonce t);
               fixed 2 (pe_version e);
               fixed 2 (pe_proof_system e);
               fixed 2 (pe_proof_system_version e);
               fixed 4 (pe_verifier_revision e);
               fixed 8 (pe_evidence_generation e);
               raw (pe_evidence_payload_commitment e)])
        StateCanonicalLengthOverflow.

Section contract_state.
Context `{Crypto}.

Definition compute_proof_evidence_binding_commitment_v1 (e : ProofEvidenceV1)
  : result ContractStateV1Error bytes :=
  check evidence_validate e in
  if pe_proof_system e =? PROOF_SYSTEM_NONE then Ok (replicate 32 Byte.x00) else
  let? out := ok_or (evidence_binding_bytes e) StateCanonicalLengthOverflow in
  Ok (sha256 out).

Definition validate_evidence (p : ProofEvidencePolicyV1) (envelope_proof : ProofCommitmentMetadataV1)
  (e : ProofEvidenceV1) : result ContractStateV1Error unit :=
  check policy_validate p in
  check evidence_validate e in
  check map_err StateContractV3 (proof_validate envelope_proof) in
  if negb (pp_proof_system p =? pcm_proof_system envelope_proof)
  || negb (pp_proof_system_version p =? pcm_proof_system_version envelope_proof)
  || negb (pe_proof_system e =? pp_proof_system p)
  || negb (pe_proof_system_version e =? pp_proof_system_version p)
  || negb (pe_verifier_revision e =? pp_verifier_revision p)
  then Err EvidencePolicyMismatch
  else if (pp_proof_system p =? PROOF_SYSTEM_EXTERNAL_COMMITMENT_V1)
       && (pe_evidence_generation e <? pp_minimum_valid_evidence_generation p)
  then Err EvidenceInvalidated else
  let? binding := compute_proof_evidence_binding_commitment_v1 e in
  if bool_decide (binding <> pcm_proof_commitment envelope_proof) then Err EvidenceCommitmentMismatch
  else Ok ().

Definition transition_commitment (t : ContractStateTransitionV1) : result ContractStateV1Error bytes :=
  let? b := canonical_contract_state_transition_bytes_v1 t in Ok (sha256 b).

Definition empty_write_set_commitment_v1 : bytes := sha256 EMPTY_WRITE_SET_DOMAIN_V1.
Definition empty_event_set_commitment_v1 : bytes := sha256 EMPTY_EVENT_SET_DOMAIN_V1.

Definition validate_contract_state_transition_v1 (envelope : ContractTransactionV3Envelope)
  (expected_identity : ProgrammabilityActivationIdentity) (expected_prior_state_commitment : bytes)
  (expected_replay_nonce : Z) (measured_write_set_commitment measured_event_set_commitment : bytes)
  (measured_resource_usage : ContractResourceUsageV1) (transition : ContractStateTransitionV1)
  (evidence_policy : ProofEvidencePolicyV1) : result ContractStateV1Error ContractStateValidationV1 :=
  check map_err StateContractV3 (validate_identity envelope expected_identity) in
  check validate_shape transition in
  let? expected_fingerprint := map_err StateContractV3 (identity_fingerprint expected_identity) in
  if bool_decide (st_identity_fingerprint transition <> expected_fingerprint)
  then Err IdentityFingerprintMismatch else
  let? expected_txid := map_err StateContractV3 (compute_contract_txid_v3 envelope) in
  if bool_decide (st_contract_txid transition <> expected_txid) then Err ContractTxidMismatch
  else if bool_decide (st_prior_state_commitment transition <> expected_prior_state_commitment)
  then Err PriorStateMismatch
  else if bool_decide (st_next_state_commitment transition <> ce_state_commitment envelope)
  then Err NextStateMismatch
  else if negb (st_replay_nonce transition =? ce_replay_nonce envelope)
       || negb (st_replay_nonce transition =? expected_replay_nonce)
  then Err ReplayNonceMismatch
  else if bool_decide (st_write_set_commitment transition <> measured_write_set_commitment)
  then Err WriteSetCommitmentMismatch
  else if bool_decide (st_event_set_commitment transition <> measured_event_set_commitment)
  then Err EventSetCommitmentMismatch
  else if bool_decide (st_resource_usage transition <> measured_resource_usage)
  then Err ResourceUsageMismatch else
  check validate_against_budget measured_resource_usage (ce_resources envelope) in
  check validate_evidence evidence_policy (ce_proof envelope) (st_proof_evidence transition) in
  let? transition_commitment := transition_commitment transition in
  Ok (mkContractStateValidationV1 transition_commitment measured_write_set_commitment
        measured_event_set_commitment measured_resource_usage (st_replay_nonce transition)).
End contract_state.

(** ** One transition per envelope and context *)

Definition evidence_typed (e : ProofEvidenceV1) : Prop :=
  in_u 16 (pe_version e) /\ in_u 16 (pe_proof_system e) /\ in_u 16 (pe_proof_system_version e) /\
  in_u 32 (pe_verifier_revision e) /\ in_u 64 (pe_evidence_generation e) /\
  hash32 (pe_evidence_payload_commitment e).
#[global] Instance evidence_typed_dec e : Decision (evidence_typed e).
Proof. unfold evidence_typed. apply _. Defined.

Lemma evidence_binding_inj e1 e2 b1 b2 :
  evidence_typed e1 -> evidence_typed e2 ->
  evidence_binding_bytes e1 = Some b1 -> evidence_binding_bytes e2 = Some b2 -> b1 = b2 -> e1 = e2.
Proof.
  unfold evidence_typed, hash32, evidence_binding_bytes. intros (?&?&?&?&?&?) (?&?&?&?&?&?) E1 E2 Eb.
  assert (Heq : b1 ++ [] = b2 ++ []) by (by rewrite Eb). clear Eb.
  repeat peel_field. destruct e1, e2; simpl in *. by simplify_eq.
Qed.

(** Without a proof system the evidence is one constant. *)
Definition no_evidence : ProofEvidenceV1 :=
  mkProofEvidenceV1 PROOF_EVIDENCE_VERSION_V1 PROOF_SYSTEM_NONE 0 0 0 (replicate 32 Byte.x00).
Lemma no_evidence_unique e :
  evidence_typed e -> evidence_validate e = Ok () -> pe_proof_system e = PROOF_SYSTEM_NONE -> e = no_evidence.
Proof.
  unfold evidence_typed, hash32, evidence_validate. intros (?&?&?&?&?&Hl) Hv Hs. rewrite Hs in Hv.
  change (PROOF_SYSTEM_NONE =? PROOF_SYSTEM_NONE) with true in Hv. cbv iota in Hv. inv_ok. bool_props.
  destruct e as [version system sysver rev gen payload]; simpl in *. subst.
  unfold no_evidence. f_equal. rewrite <- Hl. by apply all_zero_replicate.
Qed.

Section contract_state_props.
Context `{Crypto}.

Lemma validate_evidence_inv p proof e :
  validate_evidence p proof e = Ok () ->
  evidence_validate e = Ok () /\ pe_proof_system e = pcm_proof_system proof /\
  pe_verifier_revision e = pp_verifier_revision p /\
  (pe_proof_system e = PROOF_SYSTEM_EXTERNAL_COMMITMENT_V1 ->
   pp_minimum_valid_evidence_generation p <= pe_evidence_generation e) /\
  compute_proof_evidence_binding_commitment_v1 e = Ok (pcm_proof_commitment proof).
Proof.
  unfold validate_evidence. intros Hv.
  destruct (policy_validate p); [|done]. destruct (evidence_validate e) as [[]|] eqn:He; [|done].
  destruct (map_err StateContractV3 _); [|done].
  destruct (_ || _) eqn:Hm; [done|]. bool_props.
  destruct (_ && _) eqn:Hg; [done|].
  destruct (compute_proof_evidence_binding_commitment_v1 e) as [b|]; [|done].
  case_bool_decide as Hb; [done|]. subst b.
  split_and!; try done; try congruence.
  intros Hs. apply andb_false_iff in Hg as [Hg|Hg]; bool_props; [congruence|done].
Qed.

(** The evidence is determined by the commitment of the envelope. *)
Lemma evidence_unique p1 p2 proof e1 e2 :
  evidence_typed e1 -> evidence_typed e2 ->
  (forall b1 b2, evidence_binding_bytes e1 = Some b1 -> evidence_binding_bytes e2 = Some b2 ->
     collision_free [b1; b2]) ->
  validate_evidence p1 proof e1 = Ok () -> validate_evidence p2 proof e2 = Ok () -> e1 = e2.
Proof.
  intros T1 T2 Hcf (V1&S1&_&_&B1)%validate_evidence_inv (V2&S2&_&_&B2)%validate_evidence_inv.
  destruct (decide (pcm_proof_system proof = PROOF_SYSTEM_NONE)) as [Hn|Hn].
  { rewrite (no_evidence_unique e1), (no_evidence_unique e2); congruence. }
  unfold compute_proof_evidence_binding_commitment_v1 in B1, B2. rewrite V1 in B1. rewrite V2 in B2.
  rewrite (proj2 (Z.eqb_neq _ _)) in B1 by congruence. rewrite (proj2 (Z.eqb_neq _ _)) in B2 by congruence.
  destruct (evidence_binding_bytes e1) as [b1|] eqn:E1; [|done].
  destruct (evidence_binding_bytes e2) as [b2|] eqn:E2; [|done]. cbn [ok_or] in B1, B2.
  rewrite <- B2 in B1. injection B1 as Eh. apply (Hcf b1 b2) in Eh; [|done|done|set_solver..].
  by eapply evidence_binding_inj.
Qed.

Lemma transition_inv env identity prior nonce ws es usage t pol v :
  validate_contract_state_transition_v1 env identity prior nonce ws es usage t pol = Ok v ->
  exists fp txid,
    identity_fingerprint identity = Ok fp /\ compute_contract_txid_v3 env = Ok txid /\
    t = mkContractStateTransitionV1 CONTRACT_STATE_TRANSITION_VERSION_V1 fp txid prior
          (ce_state_commitment env) ws es usage nonce (st_proof_evidence t) /\
    ce_identity env = identity /\ ce_replay_nonce env = nonce /\
    validate_against_budget usage (ce_resources env) = Ok () /\
    validate_evidence pol (ce_proof env) (st_proof_evidence t) = Ok () /\
    exists c, transition_commitment t = Ok c /\ v = mkContractStateValidationV1 c ws es usage nonce.
Proof.
  unfold validate_contract_state_transition_v1. intros Hv.
  destruct (validate_identity env identity) as [[]|] eqn:Hid; [|done].
  assert (ce_identity env = identity).
  { unfold validate_identity, identity_validate_against in Hid. inv_ok. bool_props.
    by apply dec_stable. }
  destruct (validate_shape t) as [[]|] eqn:Hs; [|done].
  assert (st_version t = CONTRACT_STATE_TRANSITION_VERSION_V1).
  { unfold validate_shape in Hs. destruct (Z.eqb_spec (st_version t) CONTRACT_STATE_TRANSITION_VERSION_V1); [done|].
    discriminate Hs. }
  destruct (identity_fingerprint identity) as [fp|]; [|done].
  destruct (compute_contract_txid_v3 env) as [txid|]; cbn [map_err] in Hv; [|by inv_ok].
  destruct (validate_against_budget usage (ce_resources env)) as [[]|]; [|by inv_ok].
  destruct (validate_evidence pol (ce_proof env) (st_proof_evidence t)) as [[]|]; [|by inv_ok].
  destruct (transition_commitment t) as [c|]; [|by inv_ok].
  inv_ok. bool_props.
  repeat match goal with Hn : ~ (_ <> _) |- _ => apply dec_stable in Hn end.
  exists fp, txid. split_and!; try done; try congruence.
  - destruct t; simpl in *; congruence.
  - exists c. split; [done|]. congruence.
Qed.

(** The check of a contract state transition leaves one transition per envelope
    and context: whenever two transitions pass for the same envelope, identity, prior
    state, replay nonce and measured outputs, they and the validations returned are
    equal, unless the bindings of their evidence collide under SHA-256; the accepted
    usage is within the envelope's budget and the evidence is not below the
    generation the policy still accepts. *)
Lemma contract_transition_unique env identity prior nonce ws es usage pol t1 t2 v1 v2 :
  evidence_typed (st_proof_evidence t1) -> evidence_typed (st_proof_evidence t2) ->
  (forall b1 b2, evidence_binding_bytes (st_proof_evidence t1) = Some b1 ->
     evidence_binding_bytes (st_proof_evidence t2) = Some b2 -> collision_free [b1; b2]) ->
  validate_contract_state_transition_v1 env identity prior nonce ws es usage t1 pol = Ok v1 ->
  validate_contract_state_transition_v1 env identity prior nonce ws es usage t2 pol = Ok v2 ->
  t1 = t2 /\ v1 = v2 /\
  (ru_compute_units usage <= rb_compute_units (ce_resources env) /\
   ru_read_bytes usage <= rb_read_bytes (ce_resources env) /\
   ru_write_bytes usage <= rb_write_bytes (ce_resources env) /\
   ru_proof_bytes usage <= rb_proof_bytes (ce_resources env) /\
   ru_event_bytes usage <= rb_event_bytes (ce_resources env)) /\
  (pcm_proof_system (ce_proof env) = PROOF_SYSTEM_EXTERNAL_COMMITMENT_V1 ->
   pp_minimum_valid_evidence_generation pol <= pe_evidence_generation (st_proof_evidence t1)).
Proof.
  intros T1 T2 Hcf (fp1&x1&F1&X1&E1&_&_&Hb&Ev1&c1&C1&->)%transition_inv
                   (fp2&x2&F2&X2&E2&_&_&_&Ev2&c2&C2&->)%transition_inv.
  pose proof (evidence_unique pol pol _ _ _ T1 T2 Hcf Ev1 Ev2) as He.
  assert (Ht : t1 = t2) by (rewrite E1, E2, He; congruence).
  split; [done|]. split; [subst t2; congruence|]. split.
  - unfold validate_against_budget, ensure_budget in Hb. inv_ok. bool_props. by split_and!.
  - intros Hs. apply validate_evidence_inv in Ev1 as (_&Hp&_&Hg&_). apply Hg. congruence.
Qed.
End contract_state_props.

(** ** A concrete transition *)

#[local] Existing Instance model_crypto.


Definition sample_evidence : ProofEvidenceV1 := mkProofEvidenceV1 1 1 1 7 5 (replicate 32 Byte.x77).
Definition proved_envelope : ContractTransactionV3Envelope :=
  mkContractTransactionV3Envelope 3 sample_identity "pulse/app"
    (replicate 32 Byte.x33) (replicate 32 Byte.x44) (replicate 32 Byte.x55)
    (mkProofCommitmentMetadataV1 1 1 1
       (default [] (result_ok (compute_proof_evidence_binding_commitment_v1 sample_evidence))))
    (mkResourceBudgetV1 1 1000 2000 3000 4000 5000) 1 9 None.
Definition sample_usage : ContractResourceUsageV1 := mkContractResourceUsageV1 10 20 30 40 50.
Definition sample_transition : ContractStateTransitionV1 :=
  mkContractStateTransitionV1 1
    (default [] (result_ok (identity_fingerprint sample_identity)))
    (default [] (result_ok (compute_contract_txid_v3 proved_envelope)))
    (replicate 32 Byte.x43) (replicate 32 Byte.x44)
    empty_write_set_commitment_v1 empty_event_set_commitment_v1 sample_usage 9 sample_evidence.
Definition sample_policy : ProofEvidencePolicyV1 := mkProofEvidencePolicyV1 1 1 1 7 4.

Lemma contract_transition_unique_witness :
  exists v, validate_contract_state_transition_v1 proved_envelope sample_identity (replicate 32 Byte.x43) 9
              empty_write_set_commitment_v1 empty_event_set_commitment_v1 sample_usage sample_transition
              sample_policy = Ok v /\
    ru_compute_units sample_usage <= rb_compute_units (ce_resources proved_envelope).
Proof.
  eexists. split; [by_compute|].
  edestruct (contract_transition_unique proved_envelope sample_identity (replicate 32 Byte.x43) 9
    empty_write_set_commitment_v1 empty_event_set_commitment_v1 sample_usage sample_policy
    sample_transition sample_transition) as (_ & _ & (Hu & _) & _);
    [by_decide|by_decide| |by_compute|by_compute|exact Hu].
  intros b1 b2 E1 E2. rewrite E1 in E2. injection E2 as <-. intros x y; set_solver.
Defined.
