(* ===== verification/SyncPipeline.v ===== *)
(** * Block synchronisation ([sync_pipeline.rs])

    The ranking of the peers to sync from, and the phase machine of a sync cycle.

    [rank_score] is [None] where an [i64] operation of the source leaves its range
    (a panic when overflow checks are on); [rank_score_bounded] shows that it never
    does for clock readings below [2 ^ 60].  The setters of [SyncPipelineStatus] are
    the constructors of [SyncOp] for the statements over sequences of calls. *)

From stdpp Require Import pretty.
From S2P Require Import Prelude.
#[local] Open Scope Z_scope.

Record SyncPeerCandidate := mkSyncPeerCandidate {
  sc_peer_id : string;
  sc_score : Z;
  sc_fail_streak : Z;
  sc_connected : bool;
  sc_next_retry_unix : Z;
  sc_suppressed_until_unix : Z;
  sc_recovery_success_count : Z;
  sc_recent_failures : Z;
  sc_last_successful_block_unix : option Z;
  sc_last_rate_limited_unix : option Z;
  sc_last_successful_connect_unix : option Z;
}.
Record RankedSyncPeer := mkRankedSyncPeer {
  rp_peer_id : string;
  rp_rank_score : Z;
  rp_excluded_until_unix : option Z;
}.

(** [x as i64] of an unsigned 64-bit integer. *)
Definition as_i64 (x : Z) : Z := if x <? 2 ^ 63 then x else x - 2 ^ 64.
Definition i64_ok (x : Z) : option Z :=
  if (- 2 ^ 63 <=? x) && (x <=? 2 ^ 63 - 1) then Some x else None.
Definition i64_saturate (x : Z) : Z := Z.max (- 2 ^ 63) (Z.min (2 ^ 63 - 1) x).

(** Four points for every second until [until]. *)
Definition wait_penalty (until now_unix : Z) : option Z :=
  if now_unix <? until then i64_ok (as_i64 (saturating_sub until now_unix) * 4) else Some 0.
(** [last.and_then(|last| now.checked_sub(last)).map(f).unwrap_or(0)]. *)
Definition aged (last : option Z) (now_unix : Z) (f : Z -> Z) : Z :=
  match last with
  | Some last => match checked_sub now_unix last with Some age => f age | None => 0 end
  | None => 0
  end.
(** A sum evaluated from the left, each step within [i64]. *)
Fixpoint i64_sum (acc : Z) (l : list Z) : option Z :=
  match l with
  | [] => Some acc
  | x :: l => match i64_ok (acc + x) with Some acc => i64_sum acc l | None => None end
  end.

Definition recent_block_bonus (c : SyncPeerCandidate) (now_unix : Z) : Z :=
  aged (sc_last_successful_block_unix c) now_unix
    (fun age => Z.max (i64_saturate (36 - Z.quot (as_i64 age) 2)) 0).
Definition rate_limit_penalty (c : SyncPeerCandidate) (now_unix : Z) : Z :=
  aged (sc_last_rate_limited_unix c) now_unix (fun age => Z.max (i64_saturate (48 - as_i64 age)) 0).
Definition connection_age_bonus (c : SyncPeerCandidate) (now_unix : Z) : Z :=
  aged (sc_last_successful_connect_unix c) now_unix (fun age => Z.min (as_i64 (age / 30)) 24).

Definition rank_score (c : SyncPeerCandidate) (now_unix : Z) : option Z :=
  match wait_penalty (sc_next_retry_unix c) now_unix, wait_penalty (sc_suppressed_until_unix c) now_unix,
        i64_ok (Z.min (as_i64 (sc_recent_failures c)) 8 * 12),
        i64_ok (Z.min (sc_fail_streak c) 8 * 32),
        i64_ok (Z.min (as_i64 (sc_recovery_success_count c)) 8 * 6) with
  | Some retry_penalty, Some flap_penalty, Some recent_failure_penalty, Some fail_streak_penalty,
    Some recovery_bonus =>
      let connected_bonus := if sc_connected c then 25 else 0 in
      i64_sum (sc_score c)
        [connected_bonus; recovery_bonus; recent_block_bonus c now_unix; connection_age_bonus c now_unix;
         - fail_streak_penalty; - recent_failure_penalty; - rate_limit_penalty c now_unix;
         - Z.min retry_penalty 240; - Z.min flap_penalty 240]
  | _, _, _, _, _ => None
  end.
Definition excluded_until (c : SyncPeerCandidate) (now_unix : Z) : option Z :=
  if now_unix <? sc_suppressed_until_unix c then Some (sc_suppressed_until_unix c)
  else if now_unix <? sc_next_retry_unix c then Some (sc_next_retry_unix c)
  else None.
Definition compare_ranked (a b : RankedSyncPeer) : comparison :=
  then_with (rp_rank_score b ?= rp_rank_score a) (String.compare (rp_peer_id a) (rp_peer_id b)).
Definition rank_one (now_unix : Z) (c : SyncPeerCandidate) : option RankedSyncPeer :=
  match rank_score c now_unix with
  | Some score => Some (mkRankedSyncPeer (sc_peer_id c) score (excluded_until c now_unix))
  | None => None
  end.
Definition rank_sync_candidates (candidates : list SyncPeerCandidate) (now_unix : Z)
  : option (list RankedSyncPeer) :=
  match mapM (rank_one now_unix) candidates with
  | Some ranked => Some (isort (cmp_le compare_ranked) ranked)
  | None => None
  end.

(** ** The phase machine *)

Inductive SyncPhase :=
| Idle | PeerSelection | HeaderDiscovery | BlockAcquisition | ValidationApplication | CatchUpCompletion.
#[global] Instance SyncPhase_eq_dec : EqDecision SyncPhase.
Proof. solve_decision. Defined.

Record SyncProgressCounters := mkSyncProgressCounters {
  sp_peer_candidates_considered : Z;
  sp_headers_discovered : Z;
  sp_blocks_requested : Z;
  sp_blocks_acquired : Z;
  sp_blocks_validated : Z;
  sp_blocks_applied : Z;
  sp_phase_failures : Z;
  sp_restart_resumes : Z;
}.
#[global] Instance eta_SyncProgressCounters : Eta SyncProgressCounters := fun r =>
  mkSyncProgressCounters (sp_peer_candidates_considered r) (sp_headers_discovered r)
    (sp_blocks_requested r) (sp_blocks_acquired r) (sp_blocks_validated r) (sp_blocks_applied r)
    (sp_phase_failures r) (sp_restart_resumes r).

Record SyncPipelineStatus := mkSyncPipelineStatus {
  ss_phase : SyncPhase;
  ss_last_transition_unix : option Z;
  ss_completed_cycles : Z;
  ss_restart_count : Z;
  ss_last_error : option string;
  ss_selected_peer : option string;
  ss_selection_version : Z;
  ss_fallback_count : Z;
  ss_timeout_fallback_count : Z;
  ss_last_fallback_reason : option string;
  ss_last_fallback_peer : option string;
  ss_counters : SyncProgressCounters;
}.
#[global] Instance eta_SyncPipelineStatus : Eta SyncPipelineStatus := fun r =>
  mkSyncPipelineStatus (ss_phase r) (ss_last_transition_unix r) (ss_completed_cycles r)
    (ss_restart_count r) (ss_last_error r) (ss_selected_peer r) (ss_selection_version r)
    (ss_fallback_count r) (ss_timeout_fallback_count r) (ss_last_fallback_reason r)
    (ss_last_fallback_peer r) (ss_counters r).
(** [SyncPipelineStatus::default()]. *)
Definition default_counters : SyncProgressCounters := mkSyncProgressCounters 0 0 0 0 0 0 0 0.
Definition default_status : SyncPipelineStatus :=
  mkSyncPipelineStatus Idle None 0 0 None None 0 0 0 None None default_counters.

Definition is_transition_allowed (current next : SyncPhase) : bool :=
  match current, next with
  | Idle, PeerSelection
  | PeerSelection, HeaderDiscovery
  | HeaderDiscovery, BlockAcquisition
  | BlockAcquisition, ValidationApplication
  | ValidationApplication, CatchUpCompletion
  | CatchUpCompletion, Idle => true
  | _, PeerSelection => true
  | same, same_again => bool_decide (same = same_again)
  end.
Definition transition_to (next : SyncPhase) (now_unix : Z) (s : SyncPipelineStatus) : SyncPipelineStatus :=
  if bool_decide (ss_phase s = next) then s <| ss_last_transition_unix := Some now_unix |>
  else if negb (is_transition_allowed (ss_phase s) next) then s
  else s <| ss_phase := next |> <| ss_last_transition_unix := Some now_unix |>.

Definition begin_cycle (now_unix : Z) (s : SyncPipelineStatus) : SyncPipelineStatus :=
  if bool_decide (ss_phase s = Idle) || bool_decide (ss_phase s = CatchUpCompletion)
  then transition_to PeerSelection now_unix s else s.
Definition observe_peer_candidate (now_unix : Z) (s : SyncPipelineStatus) : SyncPipelineStatus :=
  transition_to PeerSelection now_unix
    (s <| ss_counters ::= fun c => c <| sp_peer_candidates_considered ::= fun n => saturating_add 64 n 1 |> |>).
Definition observe_headers (discovered now_unix : Z) (s : SyncPipelineStatus) : SyncPipelineStatus :=
  transition_to HeaderDiscovery now_unix
    (s <| ss_counters ::= fun c => c <| sp_headers_discovered ::= fun n => saturating_add 64 n discovered |> |>).
Definition request_blocks (requested now_unix : Z) (s : SyncPipelineStatus) : SyncPipelineStatus :=
  transition_to BlockAcquisition now_unix
    (s <| ss_counters ::= fun c => c <| sp_blocks_requested ::= fun n => saturating_add 64 n requested |> |>).
Definition acquire_blocks (acquired : Z) (s : SyncPipelineStatus) : SyncPipelineStatus :=
  s <| ss_counters ::= fun c => c <| sp_blocks_acquired ::= fun n => saturating_add 64 n acquired |> |>.
Definition validate_and_apply_blocks (count now_unix : Z) (s : SyncPipelineStatus) : SyncPipelineStatus :=
  transition_to ValidationApplication now_unix
    (s <| ss_counters ::= fun c => c <| sp_blocks_validated ::= fun n => saturating_add 64 n count |>
                                     <| sp_blocks_applied ::= fun n => saturating_add 64 n count |> |>).
Definition complete_cycle (now_unix : Z) (s : SyncPipelineStatus) : SyncPipelineStatus :=
  let s := transition_to CatchUpCompletion now_unix s in
  let s := s <| ss_completed_cycles ::= fun n => saturating_add 64 n 1 |> in
  let s := transition_to Idle now_unix s in
  s <| ss_last_error := None |>.
Definition observe_selected_peer (peer_id : string) (now_unix : Z) (s : SyncPipelineStatus)
  : SyncPipelineStatus :=
  transition_to PeerSelection now_unix
    (s <| ss_selection_version ::= fun n => saturating_add 64 n 1 |> <| ss_selected_peer := Some peer_id |>).
Definition fallback_after_failure (message : string) (now_unix : Z) (s : SyncPipelineStatus)
  : SyncPipelineStatus :=
  transition_to PeerSelection now_unix
    (s <| ss_fallback_count ::= fun n => saturating_add 64 n 1 |>
       <| ss_counters ::= fun c => c <| sp_phase_failures ::= fun n => saturating_add 64 n 1 |> |>
       <| ss_last_error := Some message |>
       <| ss_last_fallback_reason := Some message |>).
Definition timeout_fallback (peer_id : string) (timeout_secs now_unix : Z) (s : SyncPipelineStatus)
  : SyncPipelineStatus :=
  fallback_after_failure
    ("sync peer " +:+ peer_id +:+ " timed out after " +:+ pretty timeout_secs +:+ "s") now_unix
    (s <| ss_timeout_fallback_count ::= fun n => saturating_add 64 n 1 |>
       <| ss_last_fallback_peer := Some peer_id |>).
Definition resume_after_restart (now_unix : Z) (s : SyncPipelineStatus) : SyncPipelineStatus :=
  let s := s <| ss_restart_count ::= fun n => saturating_add 64 n 1 |> in
  if bool_decide (ss_phase s <> Idle)
  then transition_to PeerSelection now_unix
         (s <| ss_counters ::= fun c => c <| sp_restart_resumes ::= fun n => saturating_add 64 n 1 |> |>)
  else s.

(** ** Sequences of calls *)

Inductive SyncOp :=
| BeginCycle (now : Z) | ObservePeerCandidate (now : Z) | ObserveHeaders (n now : Z)
| RequestBlocks (n now : Z) | AcquireBlocks (n : Z) | ValidateAndApply (n now : Z)
| CompleteCycle (now : Z) | ObserveSelectedPeer (peer : string) (now : Z)
| FallbackAfterFailure (message : string) (now : Z) | TimeoutFallback (peer : string) (secs now : Z)
| ResumeAfterRestart (now : Z).
Definition run_op (op : SyncOp) : SyncPipelineStatus -> SyncPipelineStatus :=
  match op with
  | BeginCycle now => begin_cycle now
  | ObservePeerCandidate now => observe_peer_candidate now
  | ObserveHeaders n now => observe_headers n now
  | RequestBlocks n now => request_blocks n now
  | AcquireBlocks n => acquire_blocks n
  | ValidateAndApply n now => validate_and_apply_blocks n now
  | CompleteCycle now => complete_cycle now
  | ObserveSelectedPeer peer now => observe_selected_peer peer now
  | FallbackAfterFailure message now => fallback_after_failure message now
  | TimeoutFallback peer secs now => timeout_fallback peer secs now
  | ResumeAfterRestart now => resume_after_restart now
  end.
Inductive sync_step : SyncPipelineStatus -> SyncPipelineStatus -> Prop :=
| sync_call op s : sync_step s (run_op op s).

Definition run_ops (l : list SyncOp) (s : SyncPipelineStatus) : SyncPipelineStatus :=
  foldl (fun s op => run_op op s) s l.
Lemma run_ops_reachable l s : rtc sync_step s (run_ops l s).
Proof.
  revert s. induction l as [|op l IH]; intros s; [done|].
  eapply rtc_l; [apply (sync_call op)|apply IH].
Qed.

(** The calls that move a cycle forward. *)
Inductive Milestone := GotHeaders | Requested | Applied.
Definition milestone (op : SyncOp) : option Milestone :=
  match op with
  | ObserveHeaders _ _ => Some GotHeaders
  | RequestBlocks _ _ => Some Requested
  | ValidateAndApply _ _ => Some Applied
  | _ => None
  end.
(** What must have happened, in this order, for a phase to be current. *)
Definition required (p : SyncPhase) : list Milestone :=
  match p with
  | Idle | PeerSelection => []
  | HeaderDiscovery => [GotHeaders]
  | BlockAcquisition => [GotHeaders; Requested]
  | ValidationApplication | CatchUpCompletion => [GotHeaders; Requested; Applied]
  end.

Lemma transition_to_phase next now s :
  ss_phase (transition_to next now s) =
  (if is_transition_allowed (ss_phase s) next then next else ss_phase s).
Proof.
  unfold transition_to. case_bool_decide as E; cbn.
  - rewrite E. by destruct next.
  - by destruct (is_transition_allowed (ss_phase s) next).
Qed.

(** One call: the phase stays, falls back to the selection of a peer, moves to the
    next phase by the call that stands for it, or returns to [Idle] from the end of
    a cycle. *)
Lemma run_op_phase op s :
  ss_phase s <> CatchUpCompletion ->
  let p := ss_phase (run_op op s) in
  p = ss_phase s \/ p = PeerSelection \/
  (exists m, milestone op = Some m /\ required p = required (ss_phase s) ++ [m] /\ p <> CatchUpCompletion) \/
  (ss_phase s = ValidationApplication /\ p = Idle).
Proof.
  intros Hne. destruct op; cbn [run_op milestone].
  all: unfold begin_cycle, observe_peer_candidate, observe_headers, request_blocks, acquire_blocks,
    validate_and_apply_blocks, complete_cycle, observe_selected_peer, fallback_after_failure,
    timeout_fallback, resume_after_restart; cbv zeta.
  all: try (case_match; [|by left]).
  all: cbn; rewrite ?transition_to_phase; cbn; rewrite ?transition_to_phase.
  all: destruct (ss_phase s) eqn:E; cbn; rewrite ?E; cbn; try done; eauto 10.
Qed.

Lemma required_sublist l :
  let s := run_ops l default_status in
  ss_phase s <> CatchUpCompletion /\ sublist (required (ss_phase s)) (omap milestone l).
Proof.
  induction l as [|op l [IHc IHs]] using rev_ind; [by split|].
  cbv zeta in *. unfold run_ops in *. rewrite foldl_app. cbn [foldl].
  rewrite omap_app. set (s := foldl _ _ l) in *. clearbody s.
  assert (Hgrow : sublist (required (ss_phase s)) (omap milestone l ++ omap milestone [op]))
    by (by apply sublist_inserts_r).
  destruct (run_op_phase op s IHc) as [->|[->|[(m & Hm & -> & ?)|(_ & ->)]]]; cbv zeta.
  - done.
  - split; [done|apply sublist_nil_l].
  - split; [done|]. cbn. rewrite Hm. by apply sublist_app.
  - split; [done|apply sublist_nil_l].
Qed.

Lemma split_milestone m ms (ops : list SyncOp) :
  sublist (m :: ms) (omap milestone ops) ->
  exists o1 op o2, ops = o1 ++ op :: o2 /\ milestone op = Some m /\ sublist ms (omap milestone o2).
Proof.
  induction ops as [|op ops IH]; cbn; [by intros ?%sublist_nil_r|].
  assert (Hskip : sublist (m :: ms) (omap milestone ops) -> exists o1 op' o2, op :: ops = o1 ++ op' :: o2 /\
    milestone op' = Some m /\ sublist ms (omap milestone o2)).
  { intros (o1 & op' & o2 & -> & ? & ?)%IH. by exists (op :: o1), op', o2. }
  destruct (milestone op) as [m'|] eqn:Hm; [|done].
  intros [?|(ms' & [= -> ->] & ?)]%sublist_cons_r; [by apply Hskip|]. by exists [], op, ops.
Qed.

(** Whatever calls are made on a fresh pipeline, it never rests in
    [CatchUpCompletion], and it is in a later phase only if headers, requests and
    applied blocks were reported in that order. *)
Lemma sync_phase_order l :
  let s := run_ops l default_status in
  ss_phase s <> CatchUpCompletion /\
  (ss_phase s = ValidationApplication ->
   exists l1 n1 t1 l2 n2 t2 l3 n3 t3 l4,
     l = l1 ++ ObserveHeaders n1 t1 :: l2 ++ RequestBlocks n2 t2 :: l3 ++ ValidateAndApply n3 t3 :: l4).
Proof.
  cbv zeta. destruct (required_sublist l) as [Hc Hs]. split; [done|]. intros Hp. rewrite Hp in Hs.
  cbn in Hs. clear Hp Hc.
  destruct (split_milestone _ _ _ Hs) as (l1 & o1 & r1 & -> & M1 & Hs1).
  destruct (split_milestone _ _ _ Hs1) as (l2 & o2 & r2 & -> & M2 & Hs2).
  destruct (split_milestone _ _ _ Hs2) as (l3 & o3 & l4 & -> & M3 & _).
  destruct o1, o2, o3; simplify_eq/=. eauto 20.
Qed.

(** Every block counted as validated is counted as applied, and no more cycles are
    completed than completions were reported. *)
Lemma transition_to_counters next now s : ss_counters (transition_to next now s) = ss_counters s.
Proof. unfold transition_to. by repeat case_match. Qed.
Lemma transition_to_cycles next now s :
  ss_completed_cycles (transition_to next now s) = ss_completed_cycles s.
Proof. unfold transition_to. by repeat case_match. Qed.
Definition completions (l : list SyncOp) : Z :=
  Z.of_nat (length (List.filter (fun op => match op with CompleteCycle _ => true | _ => false end) l)).
Lemma sync_counters l :
  let s := run_ops l default_status in
  sp_blocks_validated (ss_counters s) = sp_blocks_applied (ss_counters s) /\
  ss_completed_cycles s <= completions l.
Proof.
  induction l as [|op l [IHv IHc]] using rev_ind; [by split|].
  cbv zeta in *. unfold run_ops, completions in *. rewrite foldl_app, List.filter_app, length_app.
  cbn [foldl]. set (s := foldl _ _ l) in *. clearbody s.
  destruct op; cbn [run_op].
  all: unfold begin_cycle, observe_peer_candidate, observe_headers, request_blocks, acquire_blocks,
    validate_and_apply_blocks, complete_cycle, observe_selected_peer, timeout_fallback,
    fallback_after_failure, resume_after_restart; cbv zeta.
  all: try (case_match; [|cbn; split; [done|lia]]).
  all: cbn; repeat (rewrite ?transition_to_counters, ?transition_to_cycles; cbn).
  all: split; [congruence|unfold saturating_add; lia].
Qed.

(** ** The ranking *)

Definition candidate_typed (c : SyncPeerCandidate) : Prop :=
  - 2 ^ 31 <= sc_score c < 2 ^ 31 /\ in_u 32 (sc_fail_streak c) /\
  0 <= sc_next_retry_unix c < 2 ^ 60 /\ 0 <= sc_suppressed_until_unix c < 2 ^ 60 /\
  0 <= sc_recovery_success_count c < 2 ^ 63 /\ 0 <= sc_recent_failures c < 2 ^ 63 /\
  (forall t, sc_last_successful_block_unix c = Some t \/ sc_last_rate_limited_unix c = Some t \/
             sc_last_successful_connect_unix c = Some t -> 0 <= t).

Lemma as_i64_id x : 0 <= x < 2 ^ 63 -> as_i64 x = x.
Proof. intros Hx. unfold as_i64. by rewrite (proj2 (Z.ltb_lt _ _)) by lia. Qed.
Lemma i64_ok_id x : - 2 ^ 63 <= x < 2 ^ 63 -> i64_ok x = Some x.
Proof. intros Hx. unfold i64_ok. rewrite !(proj2 (Z.leb_le _ _)) by lia. done. Qed.
Lemma wait_penalty_ok until now :
  0 <= until < 2 ^ 60 -> 0 <= now < 2 ^ 60 -> exists w, wait_penalty until now = Some w /\ 0 <= w.
Proof.
  intros Hu Hn. unfold wait_penalty, saturating_sub. destruct (Z.ltb_spec now until); [|by exists 0].
  rewrite as_i64_id, i64_ok_id by lia. eexists. split; [done|lia].
Qed.
Lemma aged_range last now f lo hi :
  lo <= 0 <= hi -> (forall t, last = Some t -> 0 <= t) -> 0 <= now < 2 ^ 60 ->
  (forall age, 0 <= age < 2 ^ 60 -> lo <= f age <= hi) -> lo <= aged last now f <= hi.
Proof.
  intros H0 Hl Hn Hf. unfold aged. destruct last as [t|]; [|done]. specialize (Hl t eq_refl).
  destruct (checked_sub now t) as [age|] eqn:E; [|done].
  apply checked_sub_Some in E as [-> ?]. apply Hf. lia.
Qed.
Lemma i64_sum_ok acc l :
  Forall (fun x => - 2 ^ 40 <= x <= 2 ^ 40) l -> (length l <= 100)%nat ->
  - 2 ^ 40 <= acc <= 2 ^ 40 -> i64_sum acc l = Some (acc + sum_Z l).
Proof.
  intros Hl Hlen Hacc.
  assert (Hgen : forall n acc l, Forall (fun x => - 2 ^ 40 <= x <= 2 ^ 40) l -> (length l <= n)%nat ->
    - 2 ^ 40 * (101 - Z.of_nat n) <= acc <= 2 ^ 40 * (101 - Z.of_nat n) -> (n <= 100)%nat ->
    i64_sum acc l = Some (acc + sum_Z l)); [|apply (Hgen 100%nat); [done|done|lia|lia]].
  clear. induction n as [|n IH]; intros acc l Hl Hlen Hacc Hn; destruct Hl as [|x l Hx Hl];
    cbn [length] in Hlen; try lia; cbn [i64_sum sum_Z foldr]; try (f_equal; lia).
  rewrite i64_ok_id by lia. rewrite IH by (done || lia). f_equal. fold (sum_Z l). lia.
Qed.

(** No operation of the score overflows for clock readings below [2 ^ 60], and the
    score is the reputation of the peer moved by at most 133 up and 880 down. *)
Lemma rank_score_bounded c now :
  candidate_typed c -> 0 <= now < 2 ^ 60 ->
  exists z, rank_score c now = Some z /\ sc_score c - 880 <= z <= sc_score c + 133.
Proof.
  intros (Hs & Hf & Hr & Hu & Hrec & Hfail & Hlast) Hn. unfold in_u in Hf.
  assert (Hb : 0 <= recent_block_bonus c now <= 36).
  { apply aged_range; [lia|naive_solver|done|]. intros age Hage. rewrite as_i64_id by lia.
    unfold i64_saturate. pose proof (Z.quot_pos age 2 ltac:(lia) ltac:(lia)).
    pose proof (Z.quot_le_mono 0 age 2 ltac:(lia) ltac:(lia)).
    assert (Z.quot age 2 <= age) by (apply Z.quot_le_upper_bound; lia). lia. }
  assert (Hl : 0 <= rate_limit_penalty c now <= 48).
  { apply aged_range; [lia|naive_solver|done|]. intros age Hage. rewrite as_i64_id by lia.
    unfold i64_saturate. lia. }
  assert (Ha : 0 <= connection_age_bonus c now <= 24).
  { apply aged_range; [lia|naive_solver|done|]. intros age Hage.
    pose proof (Z.div_pos age 30 ltac:(lia) ltac:(lia)).
    assert (age / 30 <= age) by (apply Z.div_le_upper_bound; lia). rewrite as_i64_id by lia. lia. }
  destruct (wait_penalty_ok _ now Hr Hn) as (w1 & E1 & W1).
  destruct (wait_penalty_ok _ now Hu Hn) as (w2 & E2 & W2).
  unfold rank_score. rewrite E1, E2, !as_i64_id by lia. change (u_max 32) with 4294967295 in Hf.
  rewrite !i64_ok_id by lia.
  rewrite i64_sum_ok; [| |cbn; lia|lia].
  - eexists. split; [done|]. cbn [sum_Z foldr]. destruct (sc_connected c); lia.
  - repeat constructor; destruct (sc_connected c); lia.
Qed.

#[global] Instance compare_ranked_pre : CmpPre compare_ranked.
Proof. unfold compare_ranked. solve_cmp_pre. Qed.

(** The ranking answers for such candidates with exactly their scores, best first. *)
Lemma rank_sync_candidates_spec candidates now :
  Forall candidate_typed candidates -> 0 <= now < 2 ^ 60 ->
  exists ranked out, mapM (rank_one now) candidates = Some ranked /\
    rank_sync_candidates candidates now = Some out /\ out ≡ₚ ranked /\
    StronglySorted (cmp_le compare_ranked) out.
Proof.
  intros Hc Hn. assert (exists ranked, mapM (rank_one now) candidates = Some ranked) as [ranked Hr].
  { induction Hc as [|c l Hc Hl [r IH]]; [by exists []|].
    destruct (rank_score_bounded c now Hc Hn) as (z & Hz & _).
    assert (E : rank_one now c = Some (mkRankedSyncPeer (sc_peer_id c) z (excluded_until c now)))
      by (unfold rank_one; by rewrite Hz).
    eexists. cbn. rewrite E. cbn. by rewrite IH. }
  exists ranked, (isort (cmp_le compare_ranked) ranked). unfold rank_sync_candidates. rewrite Hr.
  split_and!; [done|done|apply isort_perm|]. apply isort_ssorted; apply _.
Qed.
