(* ===== verification/ReplacementV3.v ===== *)
(** * Conflicts and replacement ([mempool_admission_v3.rs], [mempool_replacement_v3.rs])

    Which live transactions an incoming one conflicts with, the package that would
    leave with them, and the assessment of a replacement.  The children map and the
    worklist are the loops of [Mempool] (the source repeats them); the outer
    [option] of a result is their fuel, and [classify_conflicts_exact] shows that it
    is enough.  The rest of [mempool_admission_v3.rs] is in [TxAdmission]. *)

From S2P Require Import Prelude Encoding Crypto Types State Tx TxV3 Graph Mempool MempoolProps.
From S2P Require Import MempoolV3.

Definition MEMPOOL_REPLACEMENT_ASSESSMENT_V3_VERSION : Z := 1.

Record MempoolConflictPackageV3 := mkMempoolConflictPackageV3 {
  cp_direct_conflict_txids : list Hash;
  cp_conflict_package_txids : list Hash;
}.
Record MempoolReplacementAssessmentV3 := mkMempoolReplacementAssessmentV3 {
  ra_version : Z;
  ra_direct_conflict_txids : list Hash;
  ra_replacement_package_txids : list Hash;
  ra_replacement_package_total_fee : Z;
  ra_replacement_package_total_size_bytes : Z;
  ra_replacement_package_fee_rate_per_kb : Z;
  ra_incoming_fee : Z;
  ra_incoming_size_bytes : Z;
  ra_incoming_fee_rate_per_kb : Z;
  ra_positive_fee_delta_over_package : option Z;
  ra_pays_strictly_higher_total_fee : bool;
  ra_pays_strictly_higher_fee_rate : bool;
  ra_new_unconfirmed_parent_txids : list Hash;
  ra_depends_on_replacement_package : bool;
}.

Definition shares_input (tx existing : Transaction) : bool :=
  existsb (fun existing_input =>
    existsb (fun incoming_input =>
      bool_decide (in_previous_output incoming_input = in_previous_output existing_input)) (tx_inputs tx))
    (tx_inputs existing).
Definition conflicts_with (tx existing : Transaction) : bool :=
  negb (bool_decide (tx_txid existing = tx_txid tx)) && shares_input tx existing.

Section replacement.
Context `{HashOrder, Crypto}.

Definition direct_conflicts (tx : Transaction) (state : ChainState) : gset Hash :=
  list_to_set (map tx_txid (List.filter (conflicts_with tx)
                              (map snd (map_iter (mp_transactions (cs_mempool state)))))).
Definition classify_mempool_conflicts_v3 (tx : Transaction) (state : ChainState)
  : option MempoolConflictPackageV3 :=
  let direct := direct_conflicts tx state in
  match expire_loop (mempool_children state) (expire_fuel state) direct (btree_iter direct) with
  | Some package => Some (mkMempoolConflictPackageV3 (btree_iter direct) (btree_iter package))
  | None => None
  end.

(** One member of the package: fee and size are added, a missing one is skipped. *)
Definition add_member (state : ChainState) (acc : Z * Z) (txid : Hash) : assessment (Z * Z) :=
  match mp_transactions (cs_mempool state) !! txid with
  | None => Ok acc
  | Some existing =>
      let? size := canonical_transaction_size_for_mempool_v3 existing (cs_chain_id state) in
      Ok (saturating_add 128 acc.1 (tx_fee existing), saturating_add 128 acc.2 size)
  end.
(** One input of the incoming transaction. *)
Definition classify_parent (state : ChainState) (package : gset Hash) (acc : gset Hash * bool)
  (input : TxInput) : gset Hash * bool :=
  let parent_txid := op_txid (in_previous_output input) in
  if bool_decide (mp_transactions (cs_mempool state) !! parent_txid = None) then acc
  else if bool_decide (parent_txid ∈ package) then (acc.1, true)
  else ({[parent_txid]} ∪ acc.1, acc.2).

Definition assess_mempool_replacement_v3 (tx : Transaction) (state : ChainState)
  : option (assessment MempoolReplacementAssessmentV3) :=
  match classify_mempool_conflicts_v3 tx state with
  | None => None
  | Some conflicts => Some (
      let package : gset Hash := list_to_set (cp_conflict_package_txids conflicts) in
      let? totals := try_fold (add_member state) (0, 0) (cp_conflict_package_txids conflicts) in
      let total_fee := totals.1 in
      let total_size := totals.2 in
      let fee_rate :=
        if total_size =? 0 then 0
        else saturating_mul 128 total_fee FEE_RATE_SCALE_BYTES_V3 / total_size in
      let? incoming_rate := fee_rate_v3 tx (cs_chain_id state) in
      let delta := match checked_sub (tx_fee tx) total_fee with
                   | Some d => if 0 <? d then Some d else None
                   | None => None
                   end in
      let parents := foldl (classify_parent state package) (∅, false) (tx_inputs tx) in
      Ok (mkMempoolReplacementAssessmentV3 MEMPOOL_REPLACEMENT_ASSESSMENT_V3_VERSION
            (cp_direct_conflict_txids conflicts) (cp_conflict_package_txids conflicts)
            total_fee total_size fee_rate (tx_fee tx) (fr_canonical_size_bytes incoming_rate)
            (fr_fee_per_kb incoming_rate) delta (total_fee <? tx_fee tx)
            (fee_rate <? fr_fee_per_kb incoming_rate) (btree_iter parents.1) parents.2))
  end.
End replacement.

(** ** The conflict graph *)

(** [d] is live, is another transaction and spends an outpoint of [tx]. *)
Definition direct_conflict (tx : Transaction) (s : ChainState) (d : Hash) : Prop :=
  exists id existing i j, mp_transactions (cs_mempool s) !! id = Some existing /\ d = tx_txid existing /\
    d <> tx_txid tx /\ i ∈ tx_inputs tx /\ j ∈ tx_inputs existing /\
    in_previous_output i = in_previous_output j.

Lemma conflicts_with_spec tx existing :
  conflicts_with tx existing = true <->
  tx_txid existing <> tx_txid tx /\ exists i j, i ∈ tx_inputs tx /\ j ∈ tx_inputs existing /\
    in_previous_output i = in_previous_output j.
Proof.
  unfold conflicts_with, shares_input. rewrite andb_true_iff, negb_true_iff, bool_decide_eq_false, existsb_exists.
  setoid_rewrite existsb_exists. setoid_rewrite bool_decide_eq_true. setoid_rewrite <- list_elem_of_In.
  naive_solver.
Qed.

Section conflict_props.
Context `{HashOrder, Crypto}.

Lemma direct_conflicts_spec tx s d : d ∈ direct_conflicts tx s <-> direct_conflict tx s d.
Proof.
  unfold direct_conflicts, direct_conflict. rewrite elem_of_list_to_set, list_elem_of_fmap. split.
  - intros (e & -> & He). apply list_elem_of_In, List.filter_In in He as [He Hc].
    apply list_elem_of_In, map_iter_values in He as [id He].
    apply conflicts_with_spec in Hc as (? & i & j & ?). exists id, e, i, j. naive_solver.
  - intros (id & e & i & j & He & -> & Hne & Hi & Hj & Heq). exists e. split; [done|].
    apply list_elem_of_In, List.filter_In. split; [apply list_elem_of_In, map_iter_values; by exists id|].
    apply conflicts_with_spec. split; [done|]. by exists i, j.
Qed.

(** The classification always finishes; its two lists are sorted and free of
    duplicates, hence the same for every iteration order, the first holds exactly
    the direct conflicts and the second exactly the live transactions that descend
    from one. *)
Lemma classify_conflicts_exact tx s :
  exists c, classify_mempool_conflicts_v3 tx s = Some c /\
    (StronglySorted String.le (cp_direct_conflict_txids c) /\ NoDup (cp_direct_conflict_txids c)) /\
    (StronglySorted String.le (cp_conflict_package_txids c) /\ NoDup (cp_conflict_package_txids c)) /\
    (forall d, d ∈ cp_direct_conflict_txids c <-> direct_conflict tx s d) /\
    (forall t, t ∈ cp_conflict_package_txids c <->
       exists d, direct_conflict tx s d /\ rtc (mempool_child s) d t).
Proof.
  unfold classify_mempool_conflicts_v3. set (direct := direct_conflicts tx s).
  set (txs := mp_transactions (cs_mempool s)).
  set (U := dom txs ∪ list_to_set (map tx_txid (map snd (map_iter txs)))).
  destruct (expire_universe s ∅) as [HU Hfuel]. fold txs U in HU, Hfuel.
  assert (Hdir : direct ⊆ U).
  { intros d Hd. apply direct_conflicts_spec in Hd as (id & e & _ & _ & He & -> & _).
    apply elem_of_union_r, elem_of_list_to_set, list_elem_of_fmap. exists e. split; [done|].
    apply map_iter_values. by exists id. }
  destruct (expire_loop_spec (mempool_children s) U direct (expire_fuel s) direct (btree_iter direct))
    as (package & -> & _ & Hp); try done.
  - intros t. by rewrite elem_of_btree_iter.
  - intros t Ht. exists t. split; [done|]. apply rtc_refl.
  - intros t c Ht Hn. destruct Hn. by apply elem_of_btree_iter.
  - rewrite length_btree_iter, size_difference by done.
    assert (size direct <= size U)%nat by (by apply subseteq_size).
    specialize (Hfuel ltac:(set_solver)). rewrite difference_empty_L, size_empty in Hfuel. lia.
  - eexists. split; [done|]. cbn [cp_direct_conflict_txids cp_conflict_package_txids].
    split_and!; try apply btree_iter_ssorted; try apply NoDup_btree_iter.
    + intros d. rewrite elem_of_btree_iter. apply direct_conflicts_spec.
    + intros t. rewrite elem_of_btree_iter, Hp. unfold direct. setoid_rewrite direct_conflicts_spec.
      assert (Hd : forall d, descends (mempool_children s) d t <-> rtc (mempool_child s) d t)
        by (intros d; split; apply rtc_subrel; intros x y; apply mempool_children_spec).
      by setoid_rewrite Hd.
Qed.

(** ** The assessment *)

Definition package_fees (s : ChainState) (ids : list Hash) : list Z :=
  omap (fun id => match mp_transactions (cs_mempool s) !! id with Some t => Some (tx_fee t) | None => None end) ids.

(** The fees add up exactly: a pool of [u64] fees never saturates [u128]. *)
Lemma add_member_fees s ids acc t :
  (forall id x, mp_transactions (cs_mempool s) !! id = Some x -> in_u 64 (tx_fee x)) ->
  0 <= acc.1 -> acc.1 + Z.of_nat (length ids) * 2 ^ 64 <= u_max 128 ->
  try_fold (add_member s) acc ids = Ok t -> t.1 = acc.1 + sum_Z (package_fees s ids).
Proof.
  intros Hfee. revert acc. induction ids as [|id ids IH]; intros acc Hnn Hb E; cbn [try_fold] in E.
  { injection E as <-. cbn. lia. }
  unfold package_fees in *. cbn [omap list_omap length] in *. rewrite Nat2Z.inj_succ in Hb.
  unfold add_member at 1 in E. destruct (mp_transactions (cs_mempool s) !! id) as [x|] eqn:Hx.
  - pose proof (Hfee _ _ Hx) as Hf. unfold in_u in Hf. change (u_max 64) with (2 ^ 64 - 1) in Hf.
    inv_ok. unfold saturating_add in E at 1. rewrite Z.min_l in E by lia.
    apply IH in E; cbn [fst] in *; [|lia|lia]. cbn [sum_Z foldr]. fold (sum_Z (omap (M:=list)
      (fun id => match mp_transactions (cs_mempool s) !! id with Some t => Some (tx_fee t) | None => None end) ids)).
    lia.
  - apply IH in E; [done|lia|lia].
Qed.

Lemma classify_parent_fold s package inputs acc :
  let r := foldl (classify_parent s package) acc inputs in
  let live_parent p := is_Some (mp_transactions (cs_mempool s) !! p) /\
    exists i, i ∈ inputs /\ op_txid (in_previous_output i) = p in
  (forall p, p ∈ r.1 <-> p ∈ acc.1 \/ (live_parent p /\ p ∉ package)) /\
  (r.2 = true <-> acc.2 = true \/ exists p, live_parent p /\ p ∈ package).
Proof.
  cbv zeta. revert acc. induction inputs as [|i inputs IH]; intros acc; cbn [foldl].
  { split; [intros p|]; split; try tauto; intros [?|Hr]; try done; exfalso.
    - destruct Hr as ((_ & j & Hj & _) & _). by apply not_elem_of_nil in Hj.
    - destruct Hr as (p & (_ & j & Hj & _) & _). by apply not_elem_of_nil in Hj. }
  set (q := op_txid (in_previous_output i)).
  assert (Hc : forall p, (exists j, j ∈ i :: inputs /\ op_txid (in_previous_output j) = p) <->
    q = p \/ exists j, j ∈ inputs /\ op_txid (in_previous_output j) = p).
  { intros p. setoid_rewrite elem_of_cons. unfold q. naive_solver. }
  setoid_rewrite Hc. destruct (IH (classify_parent s package acc i)) as [Hset Hdep].
  split; [intros p; rewrite Hset|rewrite Hdep]; clear Hset Hdep IH Hc; unfold classify_parent; fold q.
  - set (later := exists j, j ∈ inputs /\ op_txid (in_previous_output j) = p). clearbody later.
    case_bool_decide as Hq; [|case_bool_decide as Hin; cbn [fst]; rewrite ?elem_of_union, ?elem_of_singleton].
    + assert (q = p -> ~ is_Some (mp_transactions (cs_mempool s) !! p)) by (intros <-; rewrite Hq; by intros [? ?]).
      tauto.
    + assert (q = p -> p ∈ package) by (by intros <-). tauto.
    + assert (Hl : q = p -> is_Some (mp_transactions (cs_mempool s) !! p) /\ p ∉ package).
      { intros <-. split; [|done]. by apply not_eq_None_Some. }
      split; [|naive_solver]. intros [[->|?]|?]; naive_solver.
  - case_bool_decide as Hq; [|case_bool_decide as Hin; cbn [snd]].
    + split; [naive_solver|]. intros [?|(p & (Hl & [<-|?]) & ?)]; [by left| |eauto 10].
      rewrite Hq in Hl. by destruct Hl.
    + split; [|by left]. intros _. right. exists q. split; [|done]. split; [by apply not_eq_None_Some|by left].
    + split; [naive_solver|]. intros [?|(p & (Hl & [<-|?]) & ?)]; [by left|done|eauto 10].
Qed.

(** A finished assessment reports exactly the conflict graph; its fee total is the sum
    of the package's fees; the fee delta is there exactly when the incoming fee is
    strictly higher; and the parents of the incoming transaction are split into the
    ones the package would remove and the rest. *)
Lemma assess_replacement_exact tx s :
  (forall id x, mp_transactions (cs_mempool s) !! id = Some x -> in_u 64 (tx_fee x)) ->
  exists c r, classify_mempool_conflicts_v3 tx s = Some c /\
    assess_mempool_replacement_v3 tx s = Some r /\
    forall a, r = Ok a ->
      ra_direct_conflict_txids a = cp_direct_conflict_txids c /\
      ra_replacement_package_txids a = cp_conflict_package_txids c /\
      (Z.of_nat (length (cp_conflict_package_txids c)) < 2 ^ 63 ->
       ra_replacement_package_total_fee a = sum_Z (package_fees s (cp_conflict_package_txids c))) /\
      (ra_pays_strictly_higher_total_fee a = true <-> ra_replacement_package_total_fee a < tx_fee tx) /\
      (forall d, ra_positive_fee_delta_over_package a = Some d <->
         0 < d /\ tx_fee tx = ra_replacement_package_total_fee a + d) /\
      let live_parent p := is_Some (mp_transactions (cs_mempool s) !! p) /\
        exists i, i ∈ tx_inputs tx /\ op_txid (in_previous_output i) = p in
      (forall p, p ∈ ra_new_unconfirmed_parent_txids a <->
         live_parent p /\ p ∉ ra_replacement_package_txids a) /\
      (ra_depends_on_replacement_package a = true <->
       exists p, live_parent p /\ p ∈ ra_replacement_package_txids a).
Proof.
  intros Hfee. destruct (classify_conflicts_exact tx s) as (c & Hc & _).
  unfold assess_mempool_replacement_v3. rewrite Hc. eexists c, _. split; [done|]. split; [done|].
  intros a E. cbv zeta in E.
  destruct (try_fold (add_member s) (0, 0) (cp_conflict_package_txids c)) as [t|] eqn:Ht; [|done].
  destruct (fee_rate_v3 tx (cs_chain_id s)) as [rate|]; [|done]. injection E as <-.
  pose proof (classify_parent_fold s (list_to_set (cp_conflict_package_txids c)) (tx_inputs tx) (∅, false))
    as [Hset Hdep].
  cbn [ra_direct_conflict_txids ra_replacement_package_txids ra_replacement_package_total_fee
    ra_pays_strictly_higher_total_fee ra_positive_fee_delta_over_package
    ra_new_unconfirmed_parent_txids ra_depends_on_replacement_package].
  split_and!; [done|done| | | | |].
  - intros Hlen. apply (add_member_fees s _ (0, 0)) in Ht as ->; [done|done|done|].
    cbn [fst]. change (u_max 128) with (2 ^ 128 - 1). lia.
  - apply Z.ltb_lt.
  - intros d. destruct (checked_sub (tx_fee tx) t.1) as [e|] eqn:Hs.
    + apply checked_sub_Some in Hs as [-> ?]. destruct (Z.ltb_spec 0 (tx_fee tx - t.1)).
      * split; [intros [= <-]; lia|]. intros [? ?]. f_equal. lia.
      * split; [done|lia].
    + split; [done|]. intros [? ?]. unfold checked_sub in Hs. case_match; [done|]. bool_props. lia.
  - intros p. rewrite elem_of_btree_iter, Hset, elem_of_list_to_set. cbn [fst]. set_solver.
  - rewrite Hdep. setoid_rewrite elem_of_list_to_set. cbn [snd]. naive_solver.
Qed.
End conflict_props.
