(* ===== verification/AccessSet.v ===== *)
(** * Access sets ([access_set_v1.rs])

    Declared read and write sets and the greedy scheduler over them, and the reason
    they exist: transactions that respect their declarations and were scheduled
    together commute, so every execution order gives the same store
    ([schedule_serializable]). *)

From S2P Require Import Prelude Encoding.

#[global] Instance byte_countable : Countable Byte.byte.
Proof. refine (inj_countable Byte.to_N Byte.of_N _). intros b. apply Byte.of_to_N. Defined.

Definition ACCESS_SET_DOMAIN_V1 : string := "PulseDAG:access-set:v1".
Definition ACCESS_SET_VERSION_V1 : Z := 1.

Record AccessOutpointV1 := mkAccessOutpointV1 { ao_txid : string; ao_index : Z }.
#[global] Instance AccessOutpointV1_eq_dec : EqDecision AccessOutpointV1.
Proof. solve_decision. Defined.
#[global] Instance AccessOutpointV1_countable : Countable AccessOutpointV1.
Proof.
  refine (inj_countable' (fun o => (ao_txid o, ao_index o)) (fun p => mkAccessOutpointV1 p.1 p.2) _).
  by intros [].
Defined.
(** [AccessKeyIdV1([u8; 32])]. *)
Definition AccessKeyIdV1 : Type := bytes.

Record AccessSetV1 := mkAccessSetV1 {
  as_writes : gset AccessOutpointV1;
  as_reads : gset AccessOutpointV1;
  as_write_keys : gset AccessKeyIdV1;
  as_read_keys : gset AccessKeyIdV1;
}.
Record AccessSetAdmissionV1 := mkAccessSetAdmissionV1 { format_admitted : bool }.
Definition ACCESS_INACTIVE : AccessSetAdmissionV1 := mkAccessSetAdmissionV1 false.
Definition access_admitted (a : AccessSetAdmissionV1) : bool := format_admitted a.
Inductive AccessSetV1Error := FormatDisabled | EmptyWrites | DuplicateDeclaration.
Inductive AccessConflictClassV1 := AccessConflict | AccessUnderdeclared.

(** [a.intersection(&b).next().is_some()]. *)
Definition overlaps {A} `{Countable A} (a b : gset A) : bool := negb (bool_decide (a ∩ b = ∅)).

Definition validate_access_set_v1 (admission : AccessSetAdmissionV1) (s : AccessSetV1)
  (value_moving : bool) : result AccessSetV1Error unit :=
  if negb (access_admitted admission) then Err FormatDisabled
  else if value_moving && bool_decide (as_writes s = ∅) then Err EmptyWrites
  else if overlaps (as_writes s) (as_reads s) then Err DuplicateDeclaration
  else if overlaps (as_write_keys s) (as_read_keys s) then Err DuplicateDeclaration
  else Ok ().
Definition spends_underdeclared_v1 (s : AccessSetV1) (spent : AccessOutpointV1) : bool :=
  negb (bool_decide (spent ∈ as_writes s)).
Definition inspects_underdeclared_v1 (s : AccessSetV1) (inspected : AccessOutpointV1) : bool :=
  negb (bool_decide (inspected ∈ as_writes s)) && negb (bool_decide (inspected ∈ as_reads s)).
Definition access_sets_conflict_v1 (a b : AccessSetV1) : bool :=
  overlaps (as_writes a) (as_writes b)
  || overlaps (as_writes a) (as_reads b)
  || overlaps (as_writes b) (as_reads a)
  || overlaps (as_write_keys a) (as_write_keys b)
  || overlaps (as_write_keys a) (as_read_keys b)
  || overlaps (as_write_keys b) (as_read_keys a).

(** The first loop: ids seen, and ids seen again. *)
Definition note_id (acc : gset Z * gset Z) (entry : Z * AccessSetV1) : gset Z * gset Z :=
  if bool_decide (entry.1 ∈ acc.1) then (acc.1, {[entry.1]} ∪ acc.2) else ({[entry.1]} ∪ acc.1, acc.2).
Record Schedule := mkSchedule {
  sch_accepted : list Z;
  sch_rejected : list (Z * AccessConflictClassV1);
  sch_accepted_sets : list AccessSetV1;
}.
(** One entry of the second loop. *)
Definition schedule_entry (admission : AccessSetAdmissionV1) (value_moving : bool) (duplicate_ids : gset Z)
  (w : Schedule) (entry : Z * AccessSetV1) : Schedule :=
  let (id, s) := entry in
  let reject class :=
    mkSchedule (sch_accepted w) (sch_rejected w ++ [(id, class)]) (sch_accepted_sets w) in
  if bool_decide (id ∈ duplicate_ids) then reject AccessUnderdeclared
  else if negb (access_admitted admission) then reject AccessUnderdeclared
  else match validate_access_set_v1 admission s value_moving with
  | Err _ => reject AccessUnderdeclared
  | Ok _ =>
      if existsb (fun prev => access_sets_conflict_v1 prev s) (sch_accepted_sets w)
      then reject AccessConflict
      else mkSchedule (sch_accepted w ++ [id]) (sch_rejected w) (sch_accepted_sets w ++ [s])
  end.
Definition schedule_run (admission : AccessSetAdmissionV1) (ordered : list (Z * AccessSetV1))
  (value_moving : bool) : Schedule :=
  let duplicate_ids := (foldl note_id (∅, ∅) ordered).2 in
  foldl (schedule_entry admission value_moving duplicate_ids) (mkSchedule [] [] []) ordered.
Definition schedule_access_sets_v1 (admission : AccessSetAdmissionV1) (ordered : list (Z * AccessSetV1))
  (value_moving : bool) : list Z * list (Z * AccessConflictClassV1) :=
  let w := schedule_run admission ordered value_moving in (sch_accepted w, sch_rejected w).

(** ** What the scheduler keeps *)

Lemma overlaps_false {A} `{Countable A} (a b : gset A) : overlaps a b = false <-> a ## b.
Proof. unfold overlaps. rewrite negb_false_iff, bool_decide_eq_true, disjoint_intersection_L. done. Qed.

(** The resources of a set: outputs and keys. *)
Definition Resource : Type := AccessOutpointV1 + AccessKeyIdV1.
Definition writes (a : AccessSetV1) (r : Resource) : Prop :=
  match r with inl o => o ∈ as_writes a | inr k => k ∈ as_write_keys a end.
Definition reads (a : AccessSetV1) (r : Resource) : Prop :=
  match r with inl o => o ∈ as_reads a | inr k => k ∈ as_read_keys a end.
#[global] Instance writes_dec a r : Decision (writes a r).
Proof. destruct r; simpl; apply _. Defined.

Definition independent (a b : AccessSetV1) : Prop :=
  forall r, (writes a r -> ~ writes b r /\ ~ reads b r) /\ (writes b r -> ~ reads a r).
Lemma no_conflict_independent a b : access_sets_conflict_v1 a b = false <-> independent a b.
Proof.
  unfold access_sets_conflict_v1, independent. rewrite !orb_false_iff, !overlaps_false. split.
  - intros (((((?&?)&?)&?)&?)&?) [o|k]; simpl; set_solver.
  - intros Hi. split_and!; intros x ? ?; [destruct (Hi (inl x))..|destruct (Hi (inr x))|destruct (Hi (inr x))|
      destruct (Hi (inr x))]; simpl in *; naive_solver.
Qed.
Lemma independent_sym a b : independent a b -> independent b a.
Proof. intros Hi r. specialize (Hi r). naive_solver. Qed.

(** The loop invariant: the accepted entries come from the input in order, carry
    ids that are not duplicated, are valid, and are pairwise independent. *)
Record schedule_ok (admission : AccessSetAdmissionV1) (vm : bool) (dups : gset Z)
  (done : list (Z * AccessSetV1)) (w : Schedule) : Prop := {
  so_pairs : exists entries, sch_accepted w = entries.*1 /\ sch_accepted_sets w = entries.*2 /\
    sublist entries done;
  so_ids : Forall (fun id => id ∉ dups) (sch_accepted w);
  so_valid : Forall (fun s => validate_access_set_v1 admission s vm = Ok ()) (sch_accepted_sets w);
  so_independent : ForallOrdPairs independent (sch_accepted_sets w);
  so_partition : done.*1 ≡ₚ sch_accepted w ++ (sch_rejected w).*1;
}.

Lemma ForallOrdPairs_snoc {A} (R : relation A) l x :
  ForallOrdPairs R l -> Forall (fun y => R y x) l -> ForallOrdPairs R (l ++ [x]).
Proof.
  induction 1 as [|y l Hy Hl IH]; intros Hx; [by repeat constructor|].
  inversion Hx; subst. cbn. constructor; [|by apply IH].
  apply Forall_app. split; [done|]. by repeat constructor.
Qed.

Lemma schedule_entry_ok admission vm dups done w entry :
  schedule_ok admission vm dups done w ->
  schedule_ok admission vm dups (done ++ [entry]) (schedule_entry admission vm dups w entry).
Proof.
  intros [(entries & Ha & Hs & Hsub) Hids Hval Hind Hpart]. destruct entry as [id a].
  assert (Hrej : forall class, schedule_ok admission vm dups (done ++ [(id, a)])
    (mkSchedule (sch_accepted w) (sch_rejected w ++ [(id, class)]) (sch_accepted_sets w))).
  { intros class. split; cbn [sch_accepted sch_rejected sch_accepted_sets]; try done.
    - exists entries. split_and!; [done..|]. by apply sublist_inserts_r.
    - rewrite !fmap_app, Hpart, app_assoc. done. }
  unfold schedule_entry. case_bool_decide as Hd; [apply Hrej|].
  destruct (negb _); [apply Hrej|].
  destruct (validate_access_set_v1 admission a vm) as [[]|] eqn:Hv; [|apply Hrej].
  destruct (existsb _ _) eqn:Hc; [apply Hrej|].
  split; cbn [sch_accepted sch_rejected sch_accepted_sets].
  - exists (entries ++ [(id, a)]). rewrite !fmap_app, Ha, Hs. split_and!; [done..|]. by apply sublist_app.
  - apply Forall_app. split; [done|]. by repeat constructor.
  - apply Forall_app. split; [done|]. by repeat constructor.
  - apply ForallOrdPairs_snoc; [done|]. apply Forall_forall. intros y Hy. apply no_conflict_independent.
    destruct (access_sets_conflict_v1 y a) eqn:E; [|done].
    assert (existsb (fun prev => access_sets_conflict_v1 prev a) (sch_accepted_sets w) = true); [|congruence].
    apply existsb_exists. exists y. split; [by apply list_elem_of_In|done].
  - rewrite fmap_app, Hpart. cbn. rewrite <- !app_assoc. apply Permutation_app_head. apply Permutation_app_comm.
Qed.
Lemma schedule_run_ok admission ordered vm :
  schedule_ok admission vm (foldl note_id (∅, ∅) ordered).2 ordered (schedule_run admission ordered vm).
Proof.
  unfold schedule_run. set (dups := (foldl _ _ ordered).2). clearbody dups.
  induction ordered as [|entry l IH] using rev_ind; [|rewrite foldl_app; by apply schedule_entry_ok].
  split; cbn; try constructor. by exists [].
Qed.

(** An id that occurs twice is noted as a duplicate, so the accepted ids are unique. *)
Lemma note_id_mono l acc :
  acc.1 ⊆ (foldl note_id acc l).1 /\ acc.2 ⊆ (foldl note_id acc l).2.
Proof.
  revert acc. induction l as [|e l IH]; intros acc; [done|]. cbn [foldl].
  destruct (IH (note_id acc e)) as [IH1 IH2]. unfold note_id in *. case_bool_decide; cbn in *; set_solver.
Qed.
Lemma note_id_seen l acc id : id ∈ acc.1 -> id ∈ l.*1 -> id ∈ (foldl note_id acc l).2.
Proof.
  revert acc. induction l as [|e l IH]; intros acc Hacc Hl; [by apply elem_of_nil in Hl|].
  cbn [foldl]. cbn in Hl. apply elem_of_cons in Hl as [->|Hl].
  - apply (note_id_mono l). unfold note_id. rewrite bool_decide_eq_true_2 by done. set_solver.
  - apply IH; [|done]. unfold note_id. case_bool_decide; set_solver.
Qed.
Lemma note_id_twice l acc id : sublist [id; id] l.*1 -> id ∈ (foldl note_id acc l).2.
Proof.
  revert acc. induction l as [|e l IH]; intros acc Hs; cbn in Hs; [by apply sublist_nil_r in Hs|].
  cbn [foldl]. apply sublist_cons_r in Hs as [Hs|(ids & [= -> <-] & Hs)]; [by apply IH|].
  apply note_id_seen; [|by apply singleton_sublist_l].
  unfold note_id. case_bool_decide; set_solver.
Qed.
Lemma sublist_unique {A} (k m : list A) :
  sublist k m -> (forall x, x ∈ k -> ~ sublist [x; x] m) -> NoDup k.
Proof.
  intros Hk Hx. induction k as [|x k IH]; constructor.
  - intros Hin. apply (Hx x); [left|]. etransitivity; [|exact Hk]. apply sublist_skip.
    by apply singleton_sublist_l.
  - apply IH; [|intros y Hy; apply Hx; by right]. etransitivity; [|exact Hk]. by apply sublist_cons.
Qed.
Lemma accepted_unique admission ordered vm : NoDup (sch_accepted (schedule_run admission ordered vm)).
Proof.
  destruct (schedule_run_ok admission ordered vm) as [(entries & -> & _ & Hs) Hids _ _ _].
  eapply (sublist_unique entries.*1 ordered.*1); [by apply fmap_sublist|]. intros id Hid Htwice.
  rewrite Forall_forall in Hids. by apply (Hids id Hid), note_id_twice.
Qed.

(** ** Serializability *)

Section execution.
Context {V : Type}.
Definition store : Type := Resource -> V.
Definition same (s s' : store) : Prop := forall r, s r = s' r.

(** A transaction respects its declaration when it changes declared writes only, and
    what it writes depends on declared resources only. *)
Definition respects (t : store -> store) (a : AccessSetV1) : Prop :=
  (forall s r, ~ writes a r -> t s r = s r) /\
  (forall s s', (forall r, writes a r \/ reads a r -> s r = s' r) ->
     forall r, writes a r -> t s r = t s' r).

Lemma respects_same t a s s' : respects t a -> same s s' -> same (t s) (t s').
Proof.
  intros [Hf Hl] Hs r. destruct (decide (writes a r)) as [Hw|Hw].
  - apply Hl; [|done]. intros r' _. apply Hs.
  - rewrite !Hf by done. apply Hs.
Qed.
Lemma independent_commute t1 t2 a b s :
  respects t1 a -> respects t2 b -> independent a b -> same (t1 (t2 s)) (t2 (t1 s)).
Proof.
  intros [F1 L1] [F2 L2] Hi r. destruct (Hi r) as [Hab Hba].
  destruct (decide (writes a r)) as [Ha|Ha]; [|destruct (decide (writes b r)) as [Hb|Hb]].
  - destruct (Hab Ha) as [Hnb _]. rewrite (F2 (t1 s)) by done. apply L1; [|done].
    intros r' Hr'. apply F2. destruct (Hi r') as [Hx Hy]. naive_solver.
  - rewrite (F1 (t2 s)) by done. symmetry. apply L2; [|done].
    intros r' Hr'. apply F1. destruct (Hi r') as [Hx Hy]. naive_solver.
  - by rewrite F1, F2, F2, F1.
Qed.

Variable exec : Z -> store -> store.
Definition run_ids (ids : list Z) (s : store) : store := foldl (fun s id => exec id s) s ids.
Definition run_entries (l : list (Z * AccessSetV1)) (s : store) : store := run_ids l.*1 s.

Lemma run_same l s s' :
  Forall (fun e => respects (exec e.1) e.2) l -> same s s' -> same (run_entries l s) (run_entries l s').
Proof.
  unfold run_entries, run_ids. intros Hl. revert s s'.
  induction Hl as [|[id a] l He Hl IH]; intros s s' Hs; [done|]. cbn. apply IH.
  by apply (respects_same _ a).
Qed.

Lemma ForallOrdPairs_perm {A} (R : relation A) l l' :
  (forall x y, R x y -> R y x) -> l ≡ₚ l' -> ForallOrdPairs R l -> ForallOrdPairs R l'.
Proof.
  intros Hsym Hp. induction Hp as [|x l l' Hp IH|x y l|l1 l2 l3 _ IH1 _ IH2]; intros Hl; [done| | |by apply IH2, IH1].
  - inversion Hl; subst. constructor; [by rewrite <- Hp|by apply IH].
  - inversion Hl as [|? ? Hy Hl']; subst. inversion Hl' as [|? ? Hx Hl'']; subst. inversion Hy; subst.
    constructor; [constructor; [by apply Hsym|done]|]. by constructor.
Qed.

Lemma run_perm l l' s :
  l ≡ₚ l' -> Forall (fun e => respects (exec e.1) e.2) l ->
  ForallOrdPairs (fun x y => independent x.2 y.2) l -> same (run_entries l s) (run_entries l' s).
Proof.
  intros Hp. revert s. induction Hp as [|[id a] l l' Hp IH|[i a] [j b] l|l1 l2 l3 Hp1 IH1 Hp2 IH2]; intros s Hr Hi.
  - done.
  - inversion Hr; inversion Hi; subst. by apply IH.
  - apply Forall_cons in Hr as [Hb Hr]. apply Forall_cons in Hr as [Ha Hr].
    inversion Hi as [|? ? Hy _]; subst. apply Forall_cons in Hy as [Hba _].
    apply (run_same l (exec i (exec j s)) (exec j (exec i s)) Hr).
    apply (independent_commute _ _ a b); [done|done|by apply independent_sym].
  - intros r. rewrite IH1 by done. apply IH2; [by rewrite <- Hp1|].
    eapply ForallOrdPairs_perm; [|exact Hp1|exact Hi]. intros x y. apply independent_sym.
Qed.

Lemma ForallOrdPairs_fmap {A B} (f : A -> B) (R : relation B) l :
  ForallOrdPairs R (f <$> l) -> ForallOrdPairs (fun x y => R (f x) (f y)) l.
Proof.
  induction l as [|x l IH]; intros Hl; [constructor|]. inversion Hl; subst.
  constructor; [by apply Forall_fmap|by apply IH].
Qed.

(** C33: the greedy scheduler puts every declared transaction into exactly one of its
    two lists, accepts no id twice, and what it accepts is serializable: when every
    transaction respects its declaration, executing the accepted ones in any order
    gives the same store. *)
Theorem schedule_serializable admission ordered value_moving accepted rejected :
  Forall (fun e => respects (exec e.1) e.2) ordered ->
  schedule_access_sets_v1 admission ordered value_moving = (accepted, rejected) ->
  ordered.*1 ≡ₚ accepted ++ rejected.*1 /\ NoDup accepted /\
  forall order s, order ≡ₚ accepted -> same (run_ids order s) (run_ids accepted s).
Proof.
  intros Hr E. unfold schedule_access_sets_v1 in E. injection E as <- <-.
  pose proof (accepted_unique admission ordered value_moving) as Hnd.
  destruct (schedule_run_ok admission ordered value_moving) as [(entries & Ha & Hs & Hsub) _ _ Hi Hp].
  split; [done|]. split; [done|]. intros order s Ho. rewrite Ha in Ho |- *.
  assert (Hre : Forall (fun e => respects (exec e.1) e.2) entries).
  { apply Forall_forall. intros e He. rewrite Forall_forall in Hr. apply Hr.
    by eapply sublist_subseteq. }
  rewrite Hs in Hi. apply ForallOrdPairs_fmap in Hi.
  apply Permutation_map_inv in Ho as (l' & -> & Hl').
  intros r. symmetry. by apply (run_perm entries l' s).
Qed.
End execution.

(** ** Three transactions, two of them on one output *)

Definition slot (n : Z) : AccessOutpointV1 := mkAccessOutpointV1 "aa" n.
Definition writer (n : Z) : AccessSetV1 := mkAccessSetV1 {[ slot n ]} ∅ ∅ ∅.
Definition bump (id : Z) (s : Resource -> Z) : Resource -> Z :=
  fun r => if bool_decide (r = inl (slot (id mod 2))) then s r + id else s r.
Definition three : list (Z * AccessSetV1) := [(1, writer 1); (2, writer 0); (3, writer 1)].

Lemma bump_respects id : respects (bump id) (writer (id mod 2)).
Proof.
  unfold respects, bump. split.
  - intros s [o|k] Hw; simpl in *; [|done]. rewrite bool_decide_eq_false_2; [done|].
    intros [= ->]. apply Hw. set_solver.
  - intros s s' Hs [o|k] Hw; simpl in *; [|set_solver].
    assert (s (inl o) = s' (inl o)) as -> by (apply Hs; by left). done.
Qed.

Lemma schedule_serializable_witness :
  schedule_access_sets_v1 (mkAccessSetAdmissionV1 true) three true = ([1; 2], [(3, AccessConflict)]) /\
  forall s, same (run_ids bump [2; 1] s) (run_ids bump [1; 2] s).
Proof.
  assert (E : schedule_access_sets_v1 (mkAccessSetAdmissionV1 true) three true = ([1; 2], [(3, AccessConflict)]))
    by by_compute.
  split; [exact E|]. intros s.
  destruct (schedule_serializable bump (mkAccessSetAdmissionV1 true) three true [1; 2] [(3, AccessConflict)])
    as (_ & _ & Hser).
  - apply Forall_cons_2; [exact (bump_respects 1)|]. apply Forall_cons_2; [exact (bump_respects 2)|].
    apply Forall_cons_2; [exact (bump_respects 3)|constructor].
  - exact E.
  - apply Hser. apply perm_swap.
Defined.
