(* ===== verification/ColoredUtxo.v ===== *)
(** * Coloured outputs ([colored_utxo_v1.rs])

    Minting, transferring and burning the units of one colour.  A panic of the
    length prefix is [Err None], as in [Templates], whose admission record the
    source repeats. *)

From S2P Require Import Prelude Encoding Crypto Types State Tx ContractV3 PulseClock Templates.

Definition COLORED_TEMPLATE_ID_V1 : string := "colored_utxo_v1".
Definition COLORED_DOMAIN_V1 : string := "PulseDAG:covenant:colored:v1".
Definition COLOR_ID_DOMAIN_V1 : bytes := str_bytes "PulseDAG:color:v1".

Record ColoredV1Output := mkColoredV1Output {
  cl_template_id : string;
  cl_color_id : bytes;
  cl_units : Z;
  cl_owner_pk : string;
  cl_amount : Z;
}.
Inductive ColoredSpendPathV1 := Mint | Transfer | Burn.
Definition colored_path_str (p : ColoredSpendPathV1) : string :=
  match p with Mint => "mint" | Transfer => "transfer" | Burn => "burn" end.
Inductive ColoredV1Error :=
| ColoredTemplateDisabled
| ColoredUnknownTemplateId (observed : string)
| EmptyOwnerKey
| ColorIdMismatch
| ImplicitMintForbidden
| UnitsNotConserved (color_id : bytes) (inputs outputs burned : Z)
| BurnMustBeDeclared
| BurnPathRequiresBurnedUnits.

(** The bytes [derive_color_id_v1] hashes. *)
Definition color_id_bytes (chain_id genesis_txid : string) (genesis_index : Z) : option bytes :=
  emit [encode_len_prefixed_bytes COLOR_ID_DOMAIN_V1;
        encode_len_prefixed_str chain_id;
        encode_len_prefixed_str genesis_txid;
        fixed 4 genesis_index].

Definition validate_colored_output_v1 (output : ColoredV1Output) : result ColoredV1Error unit :=
  if bool_decide (cl_template_id output <> COLORED_TEMPLATE_ID_V1)
  then Err (ColoredUnknownTemplateId (cl_template_id output))
  else if bool_decide (cl_owner_pk output = "") then Err EmptyOwnerKey
  else Ok ().

Section colored.
Context `{Crypto}.

Definition derive_color_id_v1 (chain_id genesis_txid : string) (genesis_index : Z)
  : result (option ColoredV1Error) bytes :=
  let? out := or_panic (color_id_bytes chain_id genesis_txid genesis_index) in Ok (sha256 out).

Definition evaluate_colored_mint_v1 (admission : AdmissionV1) (output : ColoredV1Output)
  (chain_id genesis_txid : string) (genesis_index : Z) : result (option ColoredV1Error) unit :=
  if negb (admitted admission) then throw ColoredTemplateDisabled else
  check map_err Some (validate_colored_output_v1 output) in
  let? expected := derive_color_id_v1 chain_id genesis_txid genesis_index in
  if bool_decide (cl_color_id output <> expected) then throw ColorIdMismatch else Ok ().
End colored.

Definition evaluate_colored_units_v1 (admission : AdmissionV1) (path : ColoredSpendPathV1)
  (color_id : bytes) (input_units output_units burned_units : Z) : result ColoredV1Error unit :=
  if negb (admitted admission) then Err ColoredTemplateDisabled else
  match path with
  | Mint =>
      if negb (input_units =? 0)
      then Err (UnitsNotConserved color_id input_units output_units burned_units)
      else if negb (burned_units =? 0)
      then Err (UnitsNotConserved color_id input_units output_units burned_units)
      else Ok ()
  | Transfer =>
      if input_units =? 0 then Err ImplicitMintForbidden
      else if negb (burned_units =? 0) then Err BurnMustBeDeclared
      else if negb (input_units =? output_units)
      then Err (UnitsNotConserved color_id input_units output_units 0)
      else Ok ()
  | Burn =>
      if input_units =? 0 then Err ImplicitMintForbidden
      else if burned_units =? 0 then Err BurnPathRequiresBurnedUnits else
      let accounted := saturating_add 64 output_units burned_units in
      if negb (input_units =? accounted)
      then Err (UnitsNotConserved color_id input_units output_units burned_units)
      else Ok ()
  end.

(** Outside a mint, units are conserved: what goes in is what comes out plus what is
    burned, except where an input of [u64::MAX] units absorbs an overflowing sum. *)
Lemma colored_units_conserved admission path color_id i o b :
  in_u 64 i -> path <> Mint ->
  evaluate_colored_units_v1 admission path color_id i o b = Ok () ->
  0 < i /\ (i = o + b \/ (i = u_max 64 /\ u_max 64 < o + b)).
Proof.
  unfold in_u, evaluate_colored_units_v1, saturating_add. intros Hi Hp E.
  destruct (negb (admitted admission)); [done|]. destruct path; [done| |]; inv_ok; bool_props; lia.
Qed.

(** A colour is minted from one outpoint of one chain only, unless SHA-256 collides. *)
Lemma color_mint_binding `{Crypto} a1 a2 out1 out2 c1 c2 t1 t2 n1 n2 b1 b2 :
  in_u 32 n1 -> in_u 32 n2 ->
  color_id_bytes c1 t1 n1 = Some b1 -> color_id_bytes c2 t2 n2 = Some b2 -> collision_free [b1; b2] ->
  evaluate_colored_mint_v1 a1 out1 c1 t1 n1 = Ok () -> evaluate_colored_mint_v1 a2 out2 c2 t2 n2 = Ok () ->
  cl_color_id out1 = cl_color_id out2 -> c1 = c2 /\ t1 = t2 /\ n1 = n2.
Proof.
  intros I1 I2 B1 B2 Hcf E1 E2 Heq. unfold evaluate_colored_mint_v1, derive_color_id_v1 in E1, E2.
  rewrite B1 in E1. rewrite B2 in E2. unfold throw, or_panic in *. cbn [ok_or] in *. inv_ok. bool_props.
  repeat match goal with Hn : ~ (_ <> _) |- _ => apply dec_stable in Hn end.
  assert (Eb : b1 = b2) by (apply Hcf; [set_solver..|congruence]).
  unfold color_id_bytes in B1, B2. assert (Hcat : b1 ++ [] = b2 ++ []) by (by rewrite Eb). clear Eb Heq Hcf.
  peel (fun _ : bytes => True) encode_len_prefixed_bytes.
  do 2 peel (fun _ : string => True) encode_len_prefixed_str. by peel_field.
Qed.
