(* ===== verification/BasedApp.v ===== *)
(** * Based applications ([based_app_v0.rs], [based_app_state_v0.rs])

    Commit-and-challenge applications: the matcher of one commitment and the read
    model that folds canonical events into a state view.  A panic of the length
    prefix is [Err None], as in [Templates].  [apply_based_app_canonical_event_v0]
    takes [&mut state]; all its early returns precede its first write, so the state
    of an [Err] is the argument and the model returns the state on [Ok] only.

    The theorems show that the fold accepts exactly the sequences of complete
    rounds, that arrival order does not matter, and that a persisted view is a
    checkpoint. *)

From S2P Require Import Prelude Encoding Crypto Types ContractV3 PulseClock Templates AccessSet.

(** ** The matcher *)

Definition BASED_APP_DOMAIN_V0 : bytes := str_bytes "PulseDAG:based-app:v0".
Definition BASED_COMMIT_TEMPLATE_V0 : string := "based_commit_v0".
Definition BASED_CHALLENGE_MIN_PULSES_V0 : Z := 64.
Definition BASED_CHALLENGE_MAX_PULSES_V0 : Z := 65536.

Inductive BasedDaModeV0 := Inline | CommitOnly.
Record BasedAppProfileV0 := mkBasedAppProfileV0 {
  ba_chain_id : string;
  ba_operator_set : list string;
  ba_challenge_pulses : Z;
  ba_max_blob_bytes : Z;
  ba_da_mode : BasedDaModeV0;
}.
Record BasedCommitV0 := mkBasedCommitV0 {
  bc_template_id : string;
  bc_app_id : bytes;
  bc_round : Z;
  bc_prev_state_root : bytes;
  bc_next_state_root : bytes;
  bc_payload_hash : bytes;
  bc_payload : option bytes;
  bc_opened_pulse_height : Z;
  bc_committer_pk : string;
}.
Inductive BasedAppPathV0 := BasedOpen | BasedChallenge | BasedSettle.
Record BasedAppAdmissionV0 := mkBasedAppAdmissionV0 { based_apps_enabled : bool }.
Definition BASED_INACTIVE : BasedAppAdmissionV0 := mkBasedAppAdmissionV0 false.
Definition based_admitted (a : BasedAppAdmissionV0) : bool := based_apps_enabled a.

Inductive BasedAppV0Error :=
| BasedTemplateDisabled
| BasedUnknownTemplateId (observed : string)
| ChallengeWindowOutOfRange (value : Z)
| BasedEmptyChainId
| HiddenOperator
| DuplicateOperator
| OperatorNotDeclared
| OversizedBlob (len max : Z)
| InlinePayloadRequired
| CommitOnlyPayloadForbidden
| PayloadHashMismatch
| BasedPulseClockUnavailable
| PulseClockContextMismatch
| BasedSettleTooEarly (current required : Z)
| BasedChallengeTooLate (current deadline : Z).

(** [windows(2).any(|pair| pair[0] == pair[1])]. *)
Fixpoint adjacent_equal {A} `{EqDecision A} (l : list A) : bool :=
  match l with
  | x :: (y :: _) as l' => bool_decide (x = y) || adjacent_equal l'
  | _ => false
  end.

Definition da_mode_bytes (mode : BasedDaModeV0) : bytes :=
  match mode with Inline => str_bytes "inline" | CommitOnly => str_bytes "commit_only" end.
(** The bytes [derive_app_id_v0] hashes. *)
Definition app_id_bytes (profile : BasedAppProfileV0) (operators : list string) : option bytes :=
  emit ([encode_len_prefixed_bytes BASED_APP_DOMAIN_V0;
         encode_len_prefixed_str (ba_chain_id profile);
         fixed 4 (ba_challenge_pulses profile);
         fixed 4 (ba_max_blob_bytes profile);
         encode_len_prefixed_bytes (da_mode_bytes (ba_da_mode profile))]
        ++ map encode_len_prefixed_str operators).

Definition settle_height_v0 (commit : BasedCommitV0) (profile : BasedAppProfileV0) : Z :=
  saturating_add 64 (bc_opened_pulse_height commit) (ba_challenge_pulses profile).
Definition validate_pulse_context_v0 (profile : BasedAppProfileV0) (pulse : PulseObservationV1)
  : result BasedAppV0Error unit :=
  if negb (po_pulse_version pulse =? PULSE_VERSION_V1)
     || bool_decide (po_domain pulse <> PULSE_DOMAIN_V1)
     || bool_decide (po_chain_id pulse <> ba_chain_id profile)
  then Err PulseClockContextMismatch else Ok ().

Section matcher.
Context `{Crypto}.

Definition derive_app_id_v0 (profile : BasedAppProfileV0) : result (option BasedAppV0Error) bytes :=
  if bool_decide (ba_chain_id profile = "") then throw BasedEmptyChainId
  else if (ba_challenge_pulses profile <? BASED_CHALLENGE_MIN_PULSES_V0)
          || (BASED_CHALLENGE_MAX_PULSES_V0 <? ba_challenge_pulses profile)
  then throw (ChallengeWindowOutOfRange (ba_challenge_pulses profile))
  else if existsb (fun pk => bool_decide (pk = "")) (ba_operator_set profile) then throw HiddenOperator
  else
    let operators := isort String.le (ba_operator_set profile) in
    if adjacent_equal operators then throw DuplicateOperator else
    let? out := or_panic (app_id_bytes profile operators) in
    Ok (sha256 out).

Definition validate_commit_shape (profile : BasedAppProfileV0) (commit : BasedCommitV0)
  : result (option BasedAppV0Error) unit :=
  if bool_decide (bc_template_id commit <> BASED_COMMIT_TEMPLATE_V0)
  then throw (BasedUnknownTemplateId (bc_template_id commit)) else
  let? expected := derive_app_id_v0 profile in
  if bool_decide (bc_app_id commit <> expected)
  then throw (BasedUnknownTemplateId (hex_encode (bc_app_id commit)))
  else if bool_decide (ba_operator_set profile <> [])
          && negb (existsb (fun pk => bool_decide (pk = bc_committer_pk commit)) (ba_operator_set profile))
  then throw OperatorNotDeclared
  else match ba_da_mode profile with
  | Inline =>
      let? payload := ok_or (bc_payload commit) (Some InlinePayloadRequired) in
      if bool_decide (payload = []) then throw InlinePayloadRequired
      else if ba_max_blob_bytes profile <? Z.of_nat (length payload)
      then throw (OversizedBlob (Z.of_nat (length payload)) (ba_max_blob_bytes profile))
      else if bool_decide (sha256 payload <> bc_payload_hash commit) then throw PayloadHashMismatch
      else Ok ()
  | CommitOnly => if bool_decide (is_Some (bc_payload commit)) then throw CommitOnlyPayloadForbidden else Ok ()
  end.

Definition evaluate_based_app_v0 (admission : BasedAppAdmissionV0) (profile : BasedAppProfileV0)
  (commit : BasedCommitV0) (path : BasedAppPathV0) (pulse : result PulseClockV1Error PulseObservationV1)
  : result (option BasedAppV0Error) unit :=
  if negb (based_admitted admission) then throw BasedTemplateDisabled else
  check validate_commit_shape profile commit in
  match path with
  | BasedOpen => Ok ()
  | BasedChallenge =>
      let? pulse := pulse_or BasedPulseClockUnavailable pulse in
      check map_err Some (validate_pulse_context_v0 profile pulse) in
      let deadline := settle_height_v0 commit profile in
      if deadline <=? po_pulse_height pulse
      then throw (BasedChallengeTooLate (po_pulse_height pulse) deadline) else Ok ()
  | BasedSettle =>
      let? pulse := pulse_or BasedPulseClockUnavailable pulse in
      check map_err Some (validate_pulse_context_v0 profile pulse) in
      let required := settle_height_v0 commit profile in
      if po_pulse_height pulse <? required
      then throw (BasedSettleTooEarly (po_pulse_height pulse) required) else Ok ()
  end.
End matcher.

(** ** The read model *)

Definition BASED_APP_EVENT_RETAINED_MAX_V0 : Z := 4096.
Definition BASED_APP_EVENT_PAGE_MAX_V0 : Z := 256.
Definition BASED_APP_STATE_SCHEMA_VERSION_V0 : Z := 1.
Definition BASED_APP_EVENT_SCHEMA_VERSION_V0 : Z := 1.

Inductive BasedAppCanonicalEventKindV0 := Opened | Challenged | Settled | EventRejected.
#[global] Instance event_kind_eq_dec : EqDecision BasedAppCanonicalEventKindV0.
Proof. solve_decision. Defined.
Record BasedAppCanonicalEventV0 := mkBasedAppCanonicalEventV0 {
  be_schema_version : Z;
  be_canonical_position : Z;
  be_app_id : bytes;
  be_round : Z;
  be_kind : BasedAppCanonicalEventKindV0;
  be_prev_state_root : bytes;
  be_next_state_root : bytes;
  be_pulse_height : Z;
}.
Record BasedAppPendingRoundV0 := mkBasedAppPendingRoundV0 {
  pr_round : Z;
  pr_prev_state_root : bytes;
  pr_next_state_root : bytes;
  pr_opened_pulse_height : Z;
  pr_challenged_pulse_height : option Z;
}.
Record BasedAppStateViewV0 := mkBasedAppStateViewV0 {
  sv_schema_version : Z;
  sv_app_id : bytes;
  sv_settled_round : option Z;
  sv_settled_state_root : option bytes;
  sv_pending : option BasedAppPendingRoundV0;
  sv_last_canonical_position : option Z;
}.
#[global] Instance pending_round_eq_dec : EqDecision BasedAppPendingRoundV0.
Proof. solve_decision. Defined.
#[global] Instance state_view_eq_dec : EqDecision BasedAppStateViewV0.
Proof. solve_decision. Defined.

Inductive BasedAppStateV0Error :=
| Profile (e : BasedAppV0Error)
| UnsupportedStateSchemaVersion (observed : Z)
| UnsupportedEventSchemaVersion (observed : Z)
| MissingAppWriteKey
| RetainedWindowTooLarge (len max : Z)
| PageLimitOutOfRange (value max : Z)
| WrongAppId
| NonIncreasingCanonicalPosition (previous observed : Z)
| PendingRoundExists (round : Z)
| MissingPendingRound
| RoundMismatch (expected observed : Z)
| RoundOverflow
| PrevStateRootMismatch
| EventRootMismatch
| DuplicateChallenge
| EventChallengeTooLate (current deadline : Z)
| EventSettleTooEarly (current required : Z)
| SettledWhileChallenged
| RejectWithoutChallenge
| RejectTooEarly (current required : Z).

Definition ensure_pending_matches (pending : BasedAppPendingRoundV0) (event : BasedAppCanonicalEventV0)
  : result (option BasedAppStateV0Error) unit :=
  if negb (be_round event =? pr_round pending)
  then throw (RoundMismatch (pr_round pending) (be_round event))
  else if bool_decide (be_prev_state_root event <> pr_prev_state_root pending)
          || bool_decide (be_next_state_root event <> pr_next_state_root pending)
  then throw EventRootMismatch else Ok ().

Definition event_le (a b : BasedAppCanonicalEventV0) : Prop :=
  be_canonical_position a <= be_canonical_position b.
#[global] Instance event_le_dec : RelDecision event_le.
Proof. intros a b. unfold event_le. apply _. Defined.

(** The challenge window the read model adds to a pulse height. *)
Definition window_end (profile : BasedAppProfileV0) (height : Z) : Z :=
  saturating_add 64 height (Z.min (ba_challenge_pulses profile) BASED_CHALLENGE_MAX_PULSES_V0).

(** The body of each arm of the [match event.kind]: the state before the
    position is recorded. *)
Definition apply_opened (state : BasedAppStateViewV0) (event : BasedAppCanonicalEventV0)
  : result (option BasedAppStateV0Error) BasedAppStateViewV0 :=
  check match sv_pending state with
        | Some pending => throw (PendingRoundExists (pr_round pending))
        | None => Ok ()
        end in
  check match sv_settled_round state with
        | Some settled_round =>
            let? expected := ok_or (checked_add 64 settled_round 1) (Some RoundOverflow) in
            if negb (be_round event =? expected) then throw (RoundMismatch expected (be_round event))
            else Ok ()
        | None => Ok ()
        end in
  check match sv_settled_state_root state with
        | Some settled_root =>
            if bool_decide (be_prev_state_root event <> settled_root) then throw PrevStateRootMismatch
            else Ok ()
        | None => Ok ()
        end in
  Ok (mkBasedAppStateViewV0 (sv_schema_version state) (sv_app_id state) (sv_settled_round state)
        (sv_settled_state_root state)
        (Some (mkBasedAppPendingRoundV0 (be_round event) (be_prev_state_root event)
                 (be_next_state_root event) (be_pulse_height event) None))
        (sv_last_canonical_position state)).
Definition apply_challenged (profile : BasedAppProfileV0) (state : BasedAppStateViewV0)
  (event : BasedAppCanonicalEventV0) : result (option BasedAppStateV0Error) BasedAppStateViewV0 :=
  let? pending := ok_or (sv_pending state) (Some MissingPendingRound) in
  check ensure_pending_matches pending event in
  if bool_decide (is_Some (pr_challenged_pulse_height pending)) then throw DuplicateChallenge else
  let deadline := window_end profile (pr_opened_pulse_height pending) in
  if deadline <=? be_pulse_height event
  then throw (EventChallengeTooLate (be_pulse_height event) deadline)
  else Ok (mkBasedAppStateViewV0 (sv_schema_version state) (sv_app_id state) (sv_settled_round state)
             (sv_settled_state_root state)
             (Some (mkBasedAppPendingRoundV0 (pr_round pending) (pr_prev_state_root pending)
                      (pr_next_state_root pending) (pr_opened_pulse_height pending)
                      (Some (be_pulse_height event))))
             (sv_last_canonical_position state)).
Definition apply_settled (profile : BasedAppProfileV0) (state : BasedAppStateViewV0)
  (event : BasedAppCanonicalEventV0) : result (option BasedAppStateV0Error) BasedAppStateViewV0 :=
  let? pending := ok_or (sv_pending state) (Some MissingPendingRound) in
  check ensure_pending_matches pending event in
  if bool_decide (is_Some (pr_challenged_pulse_height pending)) then throw SettledWhileChallenged else
  let required := window_end profile (pr_opened_pulse_height pending) in
  if be_pulse_height event <? required
  then throw (EventSettleTooEarly (be_pulse_height event) required)
  else Ok (mkBasedAppStateViewV0 (sv_schema_version state) (sv_app_id state) (Some (pr_round pending))
             (Some (pr_next_state_root pending)) None (sv_last_canonical_position state)).
Definition apply_rejected (profile : BasedAppProfileV0) (state : BasedAppStateViewV0)
  (event : BasedAppCanonicalEventV0) : result (option BasedAppStateV0Error) BasedAppStateViewV0 :=
  let? pending := ok_or (sv_pending state) (Some MissingPendingRound) in
  check ensure_pending_matches pending event in
  let? challenged := ok_or (pr_challenged_pulse_height pending) (Some RejectWithoutChallenge) in
  let required := window_end profile challenged in
  if be_pulse_height event <? required
  then throw (RejectTooEarly (be_pulse_height event) required)
  else Ok (mkBasedAppStateViewV0 (sv_schema_version state) (sv_app_id state) (sv_settled_round state)
             (Some (match sv_settled_state_root state with
                    | None => pr_prev_state_root pending
                    | Some root => root
                    end))
             None (sv_last_canonical_position state)).

Section read_model.
Context `{Crypto}.

(** [derive_app_id_v0(profile)?] in a function that returns [BasedAppStateV0Error]. *)
Definition state_app_id (profile : BasedAppProfileV0) : result (option BasedAppStateV0Error) bytes :=
  map_err (option_map Profile) (derive_app_id_v0 profile).

Definition new_state_view (profile : BasedAppProfileV0)
  : result (option BasedAppStateV0Error) BasedAppStateViewV0 :=
  let? app_id := state_app_id profile in
  Ok (mkBasedAppStateViewV0 BASED_APP_STATE_SCHEMA_VERSION_V0 app_id None None None None).

Definition based_app_write_key_v0 (profile : BasedAppProfileV0)
  : result (option BasedAppStateV0Error) AccessKeyIdV1 := state_app_id profile.
Definition validate_based_app_access_set_v0 (profile : BasedAppProfileV0) (access_set : AccessSetV1)
  : result (option BasedAppStateV0Error) unit :=
  let? app_key := based_app_write_key_v0 profile in
  if bool_decide (app_key ∉ as_write_keys access_set) then throw MissingAppWriteKey else Ok ().

Definition apply_based_app_canonical_event_v0 (profile : BasedAppProfileV0) (state : BasedAppStateViewV0)
  (event : BasedAppCanonicalEventV0) : result (option BasedAppStateV0Error) BasedAppStateViewV0 :=
  if negb (sv_schema_version state =? BASED_APP_STATE_SCHEMA_VERSION_V0)
  then throw (UnsupportedStateSchemaVersion (sv_schema_version state))
  else if negb (be_schema_version event =? BASED_APP_EVENT_SCHEMA_VERSION_V0)
  then throw (UnsupportedEventSchemaVersion (be_schema_version event)) else
  let? expected_app_id := state_app_id profile in
  if bool_decide (sv_app_id state <> expected_app_id) || bool_decide (be_app_id event <> expected_app_id)
  then throw WrongAppId else
  check match sv_last_canonical_position state with
        | Some previous =>
            if be_canonical_position event <=? previous
            then throw (NonIncreasingCanonicalPosition previous (be_canonical_position event))
            else Ok ()
        | None => Ok ()
        end in
  let? state' := match be_kind event with
                 | Opened => apply_opened state event
                 | Challenged => apply_challenged profile state event
                 | Settled => apply_settled profile state event
                 | EventRejected => apply_rejected profile state event
                 end in
  Ok (mkBasedAppStateViewV0 (sv_schema_version state') (sv_app_id state') (sv_settled_round state')
        (sv_settled_state_root state') (sv_pending state') (Some (be_canonical_position event))).

Definition fold_based_app_events_from_state_v0 (profile : BasedAppProfileV0)
  (base_state : BasedAppStateViewV0) (events : list BasedAppCanonicalEventV0)
  : result (option BasedAppStateV0Error) BasedAppStateViewV0 :=
  if BASED_APP_EVENT_RETAINED_MAX_V0 <? Z.of_nat (length events)
  then throw (RetainedWindowTooLarge (Z.of_nat (length events)) BASED_APP_EVENT_RETAINED_MAX_V0)
  else if negb (sv_schema_version base_state =? BASED_APP_STATE_SCHEMA_VERSION_V0)
  then throw (UnsupportedStateSchemaVersion (sv_schema_version base_state)) else
  let? expected_app_id := state_app_id profile in
  if bool_decide (sv_app_id base_state <> expected_app_id) then throw WrongAppId
  else try_fold (apply_based_app_canonical_event_v0 profile) base_state (isort event_le events).
Definition fold_based_app_events_v0 (profile : BasedAppProfileV0) (events : list BasedAppCanonicalEventV0)
  : result (option BasedAppStateV0Error) BasedAppStateViewV0 :=
  let? base_state := new_state_view profile in
  fold_based_app_events_from_state_v0 profile base_state events.
End read_model.

(** [windows(2)] with the early return at the first repeated position. *)
Fixpoint repeated_position (l : list BasedAppCanonicalEventV0) : option (Z * Z) :=
  match l with
  | a :: (b :: _) as l' =>
      if be_canonical_position a =? be_canonical_position b
      then Some (be_canonical_position a, be_canonical_position b)
      else repeated_position l'
  | _ => None
  end.
(** The two filters of the page. *)
Definition page_selects (app_id : bytes) (after : option Z) (event : BasedAppCanonicalEventV0) : bool :=
  bool_decide (be_app_id event = app_id)
  && match after with Some after => after <? be_canonical_position event | None => true end.
Definition based_app_event_page_v0 (events : list BasedAppCanonicalEventV0) (app_id : bytes)
  (after_canonical_position : option Z) (limit : Z)
  : result BasedAppStateV0Error (list BasedAppCanonicalEventV0) :=
  if BASED_APP_EVENT_RETAINED_MAX_V0 <? Z.of_nat (length events)
  then Err (RetainedWindowTooLarge (Z.of_nat (length events)) BASED_APP_EVENT_RETAINED_MAX_V0)
  else if (limit =? 0) || (BASED_APP_EVENT_PAGE_MAX_V0 <? limit)
  then Err (PageLimitOutOfRange limit BASED_APP_EVENT_PAGE_MAX_V0) else
  let filtered := List.filter (page_selects app_id after_canonical_position) events in
  match List.find (fun e => negb (be_schema_version e =? BASED_APP_EVENT_SCHEMA_VERSION_V0)) filtered with
  | Some event => Err (UnsupportedEventSchemaVersion (be_schema_version event))
  | None =>
      let filtered := isort event_le filtered in
      match repeated_position filtered with
      | Some (previous, observed) => Err (NonIncreasingCanonicalPosition previous observed)
      | None => Ok (take (Z.to_nat limit) filtered)
      end
  end.

(** ** Order of events *)

#[global] Instance event_le_total : Total event_le.
Proof. intros a b. unfold event_le. lia. Qed.
#[global] Instance event_le_trans : Transitive event_le.
Proof. intros a b c. unfold event_le. lia. Qed.
Definition event_lt (a b : BasedAppCanonicalEventV0) : Prop :=
  be_canonical_position a < be_canonical_position b.

Lemma event_lt_antisym l x y :
  StronglySorted event_lt l -> x ∈ l -> y ∈ l -> be_canonical_position x = be_canonical_position y -> x = y.
Proof.
  unfold event_lt. induction 1 as [|e l Hl IH Hlt]; intros Hx Hy E; [by apply elem_of_nil in Hx|].
  rewrite Forall_forall in Hlt. apply elem_of_cons in Hx as [->|Hx], Hy as [->|Hy]; try done.
  - specialize (Hlt _ Hy). lia.
  - specialize (Hlt _ Hx). lia.
  - by apply IH.
Qed.
(** A strictly increasing sorted list does not depend on the order of the input. *)
Lemma isort_events_perm l1 l2 :
  StronglySorted event_lt (isort event_le l1) -> l1 ≡ₚ l2 -> isort event_le l1 = isort event_le l2.
Proof.
  intros Hs Hp. apply isort_perm_on; [apply _..| |done]. intros x y Hx Hy. unfold event_le. intros. eapply event_lt_antisym;
    [exact Hs|by rewrite isort_elem_of..|lia].
Qed.
(** A list all of whose events come first is sorted first. *)
Lemma isort_events_app l1 l2 :
  (forall a b, a ∈ l1 -> b ∈ l2 -> event_le a b) ->
  isort event_le (l1 ++ l2) = isort event_le l1 ++ isort event_le l2.
Proof.
  induction l1 as [|a l1 IH]; intros Hle; [done|]. cbn [app]. unfold isort. cbn [foldr]. fold (isort event_le).
  change (foldr (sort_insert event_le) [] ?l) with (isort event_le l). rewrite IH; [|set_solver].
  assert (Ha : forall b, b ∈ isort event_le l2 -> event_le a b).
  { intros b. rewrite isort_elem_of. intros Hb. apply Hle; [left|done]. }
  clear IH Hle. induction (isort event_le l1) as [|x m IHm]; cbn [app sort_insert].
  - destruct (isort event_le l2) as [|y t]; [done|]. cbn. rewrite decide_True; [done|]. apply Ha. left.
  - case_decide; [done|]. by rewrite IHm.
Qed.

(** ** Arrival order and checkpoints *)

Section fold_props.
Context `{Crypto}.

Lemma derive_app_id_window profile id :
  derive_app_id_v0 profile = Ok id ->
  BASED_CHALLENGE_MIN_PULSES_V0 <= ba_challenge_pulses profile <= BASED_CHALLENGE_MAX_PULSES_V0.
Proof. unfold derive_app_id_v0. intros E. unfold throw in E. inv_ok. bool_props. lia. Qed.

Definition headed (id : bytes) (e : BasedAppCanonicalEventV0) : Prop :=
  be_schema_version e = BASED_APP_EVENT_SCHEMA_VERSION_V0 /\ be_app_id e = id.
Definition after_last (s : BasedAppStateViewV0) (e : BasedAppCanonicalEventV0) : Prop :=
  match sv_last_canonical_position s with Some p => p < be_canonical_position e | None => True end.

(** What one event does, whatever its kind. *)
Lemma apply_event_frame profile s e s' :
  apply_based_app_canonical_event_v0 profile s e = Ok s' ->
  sv_schema_version s = BASED_APP_STATE_SCHEMA_VERSION_V0 /\ state_app_id profile = Ok (sv_app_id s) /\
  headed (sv_app_id s) e /\ after_last s e /\ sv_schema_version s' = sv_schema_version s /\
  sv_app_id s' = sv_app_id s /\ sv_last_canonical_position s' = Some (be_canonical_position e).
Proof.
  unfold apply_based_app_canonical_event_v0, throw, headed, after_last. intros E. inv_ok; bool_props.
  all: repeat match goal with Hn : ~ (_ <> _) |- _ => apply dec_stable in Hn end.
  all: assert (sv_schema_version a1 = sv_schema_version s /\ sv_app_id a1 = sv_app_id s) as [? ?]
    by (unfold apply_opened, apply_challenged, apply_settled, apply_rejected, throw in *;
        destruct (be_kind e); repeat (inv_ok; try case_match); done).
  all: cbn; split_and!; try done; first [congruence|lia].
Qed.

(** Past its guards, an event is the body of its arm. *)
Lemma apply_event_guarded profile id s e :
  state_app_id profile = Ok id -> sv_schema_version s = BASED_APP_STATE_SCHEMA_VERSION_V0 -> sv_app_id s = id ->
  headed id e -> after_last s e ->
  apply_based_app_canonical_event_v0 profile s e =
  let? state' := match be_kind e with
                 | Opened => apply_opened s e
                 | Challenged => apply_challenged profile s e
                 | Settled => apply_settled profile s e
                 | EventRejected => apply_rejected profile s e
                 end in
  Ok (mkBasedAppStateViewV0 (sv_schema_version state') (sv_app_id state') (sv_settled_round state')
        (sv_settled_state_root state') (sv_pending state') (Some (be_canonical_position e))).
Proof.
  intros Eid Es Ea [Hs Ha] Hl. unfold apply_based_app_canonical_event_v0, after_last in *.
  rewrite Es, Hs, Eid, Ea, Ha. cbn. rewrite bool_decide_eq_false_2 by (by intros ?). cbn.
  destruct (sv_last_canonical_position s); [|done].
  destruct (Z.leb_spec (be_canonical_position e) z); [lia|done].
Qed.

Lemma fold_frame profile id l s s' :
  state_app_id profile = Ok id -> sv_schema_version s = BASED_APP_STATE_SCHEMA_VERSION_V0 -> sv_app_id s = id ->
  try_fold (apply_based_app_canonical_event_v0 profile) s l = Ok s' ->
  Forall (headed id) l /\ StronglySorted event_lt l /\ Forall (after_last s) l /\
  sv_schema_version s' = BASED_APP_STATE_SCHEMA_VERSION_V0 /\ sv_app_id s' = id /\
  sv_last_canonical_position s' =
    match last l with Some e => Some (be_canonical_position e) | None => sv_last_canonical_position s end.
Proof.
  intros Eid. revert s. induction l as [|e l IH]; intros s Es Ea E; cbn in E.
  { inv_ok. by repeat constructor. }
  inv_ok. apply apply_event_frame in Hok as (_ & _ & Hh & Hal & Es' & Ea' & El).
  destruct (IH a) as (IHh & IHs & IHl & ? & ? & Hlast); [congruence..|done|].
  rewrite Es, Ea in *. assert (Hlt : Forall (event_lt e) l).
  { eapply Forall_impl; [exact IHl|]. intros x. unfold after_last, event_lt. by rewrite El. }
  split_and!; [by constructor..| |done|done|].
  - constructor; [done|]. eapply Forall_impl; [exact Hlt|]. intros x. unfold event_lt, after_last in *.
    destruct (sv_last_canonical_position s); [lia|done].
  - rewrite Hlast, El. rewrite last_cons. by destruct (last l).
Qed.

Lemma fold_from_state_unfold profile id s events :
  state_app_id profile = Ok id -> sv_schema_version s = BASED_APP_STATE_SCHEMA_VERSION_V0 -> sv_app_id s = id ->
  Z.of_nat (length events) <= BASED_APP_EVENT_RETAINED_MAX_V0 ->
  fold_based_app_events_from_state_v0 profile s events =
  try_fold (apply_based_app_canonical_event_v0 profile) s (isort event_le events).
Proof.
  intros Eid Es Ea Hlen. unfold fold_based_app_events_from_state_v0. rewrite Es, Eid, Ea.
  rewrite bool_decide_eq_false_2 by (by intros ?). cbn.
  destruct (Z.ltb_spec BASED_APP_EVENT_RETAINED_MAX_V0 (Z.of_nat (length events))); [lia|done].
Qed.
Lemma fold_from_state_Ok profile s events s' :
  fold_based_app_events_from_state_v0 profile s events = Ok s' ->
  Z.of_nat (length events) <= BASED_APP_EVENT_RETAINED_MAX_V0 /\
  sv_schema_version s = BASED_APP_STATE_SCHEMA_VERSION_V0 /\ state_app_id profile = Ok (sv_app_id s).
Proof.
  unfold fold_based_app_events_from_state_v0, throw. intros E. inv_ok. bool_props.
  apply dec_stable in Hif1. subst. done.
Qed.

Lemma fold_from_state_guard profile s :
  (sv_schema_version s = BASED_APP_STATE_SCHEMA_VERSION_V0 /\ state_app_id profile = Ok (sv_app_id s)) \/
  exists e, forall events, Z.of_nat (length events) <= BASED_APP_EVENT_RETAINED_MAX_V0 ->
    fold_based_app_events_from_state_v0 profile s events = Err e.
Proof.
  unfold fold_based_app_events_from_state_v0, throw.
  destruct (Z.eqb_spec (sv_schema_version s) BASED_APP_STATE_SCHEMA_VERSION_V0) as [Es|Es].
  2: { right. eexists. intros events Hl. by rewrite (proj2 (Z.ltb_ge _ _)) by lia. }
  destruct (state_app_id profile) as [id|e] eqn:Eid.
  2: { right. eexists. intros events Hl. by rewrite (proj2 (Z.ltb_ge _ _)) by lia. }
  destruct (decide (sv_app_id s = id)) as [<-|Ha]; [by left|].
  right. eexists. intros events Hl. rewrite (proj2 (Z.ltb_ge _ _)) by lia. cbn. by rewrite bool_decide_eq_true_2.
Qed.

(** The result of a fold does not depend on the order in which events arrived. *)
Lemma fold_arrival_order profile s events events' s' :
  events ≡ₚ events' ->
  fold_based_app_events_from_state_v0 profile s events = Ok s' ->
  fold_based_app_events_from_state_v0 profile s events' = Ok s'.
Proof.
  intros Hp E. pose proof (fold_from_state_Ok _ _ _ _ E) as (Hlen & Es & Eid).
  rewrite (fold_from_state_unfold _ _ _ _ Eid Es eq_refl Hlen) in E.
  rewrite (fold_from_state_unfold _ _ _ _ Eid Es eq_refl) by (by rewrite <- Hp).
  rewrite <- (isort_events_perm events); [done| |done].
  by eapply (fold_frame profile) in E as (_ & Hs & _).
Qed.

(** A persisted view is a checkpoint: folding a later window from it is folding the
    whole history, errors included. *)
Lemma fold_checkpoint profile s early late :
  Z.of_nat (length (early ++ late)) <= BASED_APP_EVENT_RETAINED_MAX_V0 ->
  (forall a b, a ∈ early -> b ∈ late -> be_canonical_position a <= be_canonical_position b) ->
  fold_based_app_events_from_state_v0 profile s (early ++ late) =
  let? checkpoint := fold_based_app_events_from_state_v0 profile s early in
  fold_based_app_events_from_state_v0 profile checkpoint late.
Proof.
  intros Hlen Hle. rewrite length_app in Hlen. destruct (fold_from_state_guard profile s) as [[Es Eid]|[e He]].
  - rewrite !(fold_from_state_unfold _ _ s _ Eid Es eq_refl) by (rewrite ?length_app; lia).
    rewrite isort_events_app by done. rewrite try_fold_app.
    destruct (try_fold _ s (isort event_le early)) as [c|] eqn:E; [|done].
    eapply fold_frame in E as (_ & _ & _ & Ec & Ea & _); [|done..].
    by rewrite (fold_from_state_unfold _ _ c _ Eid Ec Ea) by lia.
  - by rewrite !He by (rewrite ?length_app; lia).
Qed.
End fold_props.

(** ** What the fold accepts: complete rounds *)

Definition same_round (o e : BasedAppCanonicalEventV0) : Prop :=
  be_round e = be_round o /\ be_prev_state_root e = be_prev_state_root o /\
  be_next_state_root e = be_next_state_root o.
Definition opens (settled_round : option Z) (settled_root : option bytes) (o : BasedAppCanonicalEventV0) : Prop :=
  be_kind o = Opened /\ (forall r, settled_round = Some r -> be_round o = r + 1 /\ r + 1 <= u64_max) /\
  (forall root, settled_root = Some root -> be_prev_state_root o = root).
Definition challenges (w : Z) (o c : BasedAppCanonicalEventV0) : Prop :=
  be_kind c = Challenged /\ same_round o c /\ be_pulse_height c < saturating_add 64 (be_pulse_height o) w.
Definition settles (w : Z) (o s : BasedAppCanonicalEventV0) : Prop :=
  be_kind s = Settled /\ same_round o s /\ saturating_add 64 (be_pulse_height o) w <= be_pulse_height s.
Definition rejects_round (w : Z) (o c r : BasedAppCanonicalEventV0) : Prop :=
  be_kind r = EventRejected /\ same_round o r /\ saturating_add 64 (be_pulse_height c) w <= be_pulse_height r.

(** Histories of complete rounds and the round and root they settle: a round opens
    on the settled root with the next number, and either settles unchallenged once
    the window is over, or is challenged within it and rejected a window later. *)
Inductive rounds (w : Z) : list BasedAppCanonicalEventV0 -> option Z -> option bytes -> Prop :=
| rounds_none : rounds w [] None None
| rounds_settled l sr rt o s :
    rounds w l sr rt -> opens sr rt o -> settles w o s ->
    rounds w (l ++ [o; s]) (Some (be_round o)) (Some (be_next_state_root o))
| rounds_rejected l sr rt o c r :
    rounds w l sr rt -> opens sr rt o -> challenges w o c -> rejects_round w o c r ->
    rounds w (l ++ [o; c; r]) sr (Some (default (be_prev_state_root o) rt)).
(** The round left open at the end. *)
Inductive open_round (w : Z) (sr : option Z) (rt : option bytes)
  : list BasedAppCanonicalEventV0 -> option BasedAppPendingRoundV0 -> Prop :=
| open_none : open_round w sr rt [] None
| open_unchallenged o :
    opens sr rt o ->
    open_round w sr rt [o]
      (Some (mkBasedAppPendingRoundV0 (be_round o) (be_prev_state_root o) (be_next_state_root o)
               (be_pulse_height o) None))
| open_challenged o c :
    opens sr rt o -> challenges w o c ->
    open_round w sr rt [o; c]
      (Some (mkBasedAppPendingRoundV0 (be_round o) (be_prev_state_root o) (be_next_state_root o)
               (be_pulse_height o) (Some (be_pulse_height c)))).
Definition history (w : Z) (l : list BasedAppCanonicalEventV0) (s : BasedAppStateViewV0) : Prop :=
  exists closed tail, l = closed ++ tail /\ rounds w closed (sv_settled_round s) (sv_settled_state_root s) /\
    open_round w (sv_settled_round s) (sv_settled_state_root s) tail (sv_pending s).

Lemma ensure_pending_matches_Ok p e :
  ensure_pending_matches p e = Ok () <->
  be_round e = pr_round p /\ be_prev_state_root e = pr_prev_state_root p /\
  be_next_state_root e = pr_next_state_root p.
Proof.
  unfold ensure_pending_matches, throw. destruct (Z.eqb_spec (be_round e) (pr_round p)); cbn; [|naive_solver].
  repeat case_bool_decide; cbn; naive_solver.
Qed.

Lemma window_end_eq profile h :
  BASED_CHALLENGE_MIN_PULSES_V0 <= ba_challenge_pulses profile <= BASED_CHALLENGE_MAX_PULSES_V0 ->
  window_end profile h = saturating_add 64 h (ba_challenge_pulses profile).
Proof. intros Hw. unfold window_end. by rewrite Z.min_l by lia. Qed.

Lemma apply_opened_Ok s e s' :
  be_kind e = Opened ->
  apply_opened s e = Ok s' <->
  sv_pending s = None /\ opens (sv_settled_round s) (sv_settled_state_root s) e /\
  s' = mkBasedAppStateViewV0 (sv_schema_version s) (sv_app_id s) (sv_settled_round s) (sv_settled_state_root s)
         (Some (mkBasedAppPendingRoundV0 (be_round e) (be_prev_state_root e) (be_next_state_root e)
                  (be_pulse_height e) None)) (sv_last_canonical_position s).
Proof.
  intros Hk. unfold apply_opened, opens, throw.
  destruct (sv_pending s); cbn; [naive_solver|].
  assert (Hround : match sv_settled_round s with
    | Some r => let? expected := ok_or (checked_add 64 r 1) (Some RoundOverflow) in
        if negb (be_round e =? expected) then Err (Some (RoundMismatch expected (be_round e))) else Ok ()
    | None => Ok () end = Ok () <-> forall r, sv_settled_round s = Some r -> be_round e = r + 1 /\ r + 1 <= u64_max).
  { destruct (sv_settled_round s) as [r|]; [|naive_solver]. unfold checked_add.
    destruct (Z.leb_spec (r + 1) u64_max); cbn; [|naive_solver lia].
    destruct (Z.eqb_spec (be_round e) (r + 1)); cbn; naive_solver. }
  revert Hround. destruct (match sv_settled_round s with Some _ => _ | None => _ end) as [[]|]; intros Hround;
    [|naive_solver].
  destruct (sv_settled_state_root s) as [root|]; [case_bool_decide|]; naive_solver.
Qed.

(** The pending round of an opening, challenged or not. *)
Definition pending_of (o : BasedAppCanonicalEventV0) (c : option Z) : BasedAppPendingRoundV0 :=
  mkBasedAppPendingRoundV0 (be_round o) (be_prev_state_root o) (be_next_state_root o) (be_pulse_height o) c.
Definition valid_window (profile : BasedAppProfileV0) : Prop :=
  BASED_CHALLENGE_MIN_PULSES_V0 <= ba_challenge_pulses profile <= BASED_CHALLENGE_MAX_PULSES_V0.

Ltac arm_start :=
  match goal with Hp : sv_pending _ = Some _ |- _ => rewrite Hp end; cbn [ok_or];
  match goal with |- context [ensure_pending_matches ?p ?e] =>
    pose proof (ensure_pending_matches_Ok p e) as Hem; destruct (ensure_pending_matches p e) as [[]|];
    [|unfold same_round in *; naive_solver] end;
  rewrite ?window_end_eq by done.

Lemma apply_challenged_Ok profile s e s' o c :
  valid_window profile -> be_kind e = Challenged -> sv_pending s = Some (pending_of o c) ->
  apply_challenged profile s e = Ok s' <->
  c = None /\ challenges (ba_challenge_pulses profile) o e /\
  s' = mkBasedAppStateViewV0 (sv_schema_version s) (sv_app_id s) (sv_settled_round s) (sv_settled_state_root s)
         (Some (pending_of o (Some (be_pulse_height e)))) (sv_last_canonical_position s).
Proof.
  intros Hw Hk Hp. unfold apply_challenged, challenges, throw. arm_start. cbn in *.
  destruct c; cbn; [naive_solver|].
  destruct (Z.leb_spec (saturating_add 64 (be_pulse_height o) (ba_challenge_pulses profile)) (be_pulse_height e));
    unfold same_round in *; naive_solver lia.
Qed.
Lemma apply_settled_Ok profile s e s' o c :
  valid_window profile -> be_kind e = Settled -> sv_pending s = Some (pending_of o c) ->
  apply_settled profile s e = Ok s' <->
  c = None /\ settles (ba_challenge_pulses profile) o e /\
  s' = mkBasedAppStateViewV0 (sv_schema_version s) (sv_app_id s) (Some (be_round o))
         (Some (be_next_state_root o)) None (sv_last_canonical_position s).
Proof.
  intros Hw Hk Hp. unfold apply_settled, settles, throw. arm_start. cbn in *.
  destruct c; cbn; [naive_solver|].
  destruct (Z.ltb_spec (be_pulse_height e) (saturating_add 64 (be_pulse_height o) (ba_challenge_pulses profile)));
    unfold same_round in *; naive_solver lia.
Qed.
Lemma apply_rejected_Ok profile s e s' o h :
  valid_window profile -> be_kind e = EventRejected -> sv_pending s = Some (pending_of o (be_pulse_height <$> h)) ->
  apply_rejected profile s e = Ok s' <->
  exists c, h = Some c /\ rejects_round (ba_challenge_pulses profile) o c e /\
  s' = mkBasedAppStateViewV0 (sv_schema_version s) (sv_app_id s) (sv_settled_round s)
         (Some (default (be_prev_state_root o) (sv_settled_state_root s))) None (sv_last_canonical_position s).
Proof.
  intros Hw Hk Hp. unfold apply_rejected, rejects_round, throw. arm_start. cbn in *.
  destruct h as [c|]; cbn; [|naive_solver]. rewrite window_end_eq by done.
  destruct (Z.ltb_spec (be_pulse_height e) (saturating_add 64 (be_pulse_height c) (ba_challenge_pulses profile)));
    unfold same_round in *; [naive_solver lia|].
  split; [intros [= <-]|intros (c' & [= <-] & _ & ->)]; [exists c|]; destruct (sv_settled_state_root s); naive_solver.
Qed.

Section history.
Context `{Crypto} (profile : BasedAppProfileV0) (id : bytes).
Hypothesis Hid : derive_app_id_v0 profile = Ok id.
Let w := ba_challenge_pulses profile.

Lemma state_app_id_Ok : state_app_id profile = Ok id.
Proof using Hid. unfold state_app_id. by rewrite Hid. Qed.
Lemma profile_window : valid_window profile.
Proof using Hid. by eapply derive_app_id_window. Qed.

(** The view after a history: settled round and root, pending round, last position. *)
Definition view (sr : option Z) (rt : option bytes) (p : option BasedAppPendingRoundV0)
  (l : list BasedAppCanonicalEventV0) : BasedAppStateViewV0 :=
  mkBasedAppStateViewV0 BASED_APP_STATE_SCHEMA_VERSION_V0 id sr rt p (be_canonical_position <$> last l).

(** One event on a view is the body of its arm. *)
Lemma apply_view sr rt p l e s' :
  apply_based_app_canonical_event_v0 profile (view sr rt p l) e = Ok s' <->
  headed id e /\ Forall (fun x => event_lt x e) (option_list (last l)) /\
  exists s0, match be_kind e with
             | Opened => apply_opened (view sr rt p l) e
             | Challenged => apply_challenged profile (view sr rt p l) e
             | Settled => apply_settled profile (view sr rt p l) e
             | EventRejected => apply_rejected profile (view sr rt p l) e
             end = Ok s0 /\
  s' = mkBasedAppStateViewV0 (sv_schema_version s0) (sv_app_id s0) (sv_settled_round s0)
         (sv_settled_state_root s0) (sv_pending s0) (Some (be_canonical_position e)).
Proof using Hid.
  assert (Hal : after_last (view sr rt p l) e <-> Forall (fun x => event_lt x e) (option_list (last l))).
  { unfold after_last, view, event_lt. cbn. destruct (last l); cbn; [|by split; [constructor|]].
    rewrite Forall_singleton. done. }
  split.
  - intros E. pose proof (apply_event_frame _ _ _ _ E) as (_ & _ & Hh & Ha & _). cbn in Hh.
    split; [done|]. split; [by apply Hal|].
    rewrite (apply_event_guarded _ id) in E; [|apply state_app_id_Ok|done..]. inv_ok. eauto.
  - intros (Hh & Ha & s0 & E & ->). apply Hal in Ha.
    rewrite (apply_event_guarded _ id); [|apply state_app_id_Ok|done..]. by rewrite E.
Qed.

Lemma view_snoc sr rt p l e :
  view sr rt p (l ++ [e]) =
  mkBasedAppStateViewV0 BASED_APP_STATE_SCHEMA_VERSION_V0 id sr rt p (Some (be_canonical_position e)).
Proof. unfold view. by rewrite last_snoc. Qed.

Lemma step_open sr rt l o :
  headed id o -> Forall (fun x => event_lt x o) (option_list (last l)) -> opens sr rt o ->
  apply_based_app_canonical_event_v0 profile (view sr rt None l) o =
  Ok (view sr rt (Some (pending_of o None)) (l ++ [o])).
Proof using Hid.
  intros Hh Hl Ho. pose proof Ho as [Hk _]. apply apply_view. rewrite Hk, view_snoc. split_and!; [done..|].
  eexists. split; [by apply apply_opened_Ok|done].
Qed.
Lemma step_challenge sr rt l o e :
  headed id e -> Forall (fun x => event_lt x e) (option_list (last l)) -> challenges w o e ->
  apply_based_app_canonical_event_v0 profile (view sr rt (Some (pending_of o None)) l) e =
  Ok (view sr rt (Some (pending_of o (Some (be_pulse_height e)))) (l ++ [e])).
Proof using Hid.
  intros Hh Hl Hc. pose proof Hc as [Hk _]. apply apply_view. rewrite Hk, view_snoc. split_and!; [done..|].
  eexists. split; [by apply (apply_challenged_Ok profile (view sr rt (Some (pending_of o None)) l) e _ o None profile_window Hk eq_refl)|done].
Qed.
Lemma step_settle sr rt l o e :
  headed id e -> Forall (fun x => event_lt x e) (option_list (last l)) -> settles w o e ->
  apply_based_app_canonical_event_v0 profile (view sr rt (Some (pending_of o None)) l) e =
  Ok (view (Some (be_round o)) (Some (be_next_state_root o)) None (l ++ [e])).
Proof using Hid.
  intros Hh Hl Hc. pose proof Hc as [Hk _]. apply apply_view. rewrite Hk, view_snoc. split_and!; [done..|].
  eexists. split; [by apply (apply_settled_Ok profile (view sr rt (Some (pending_of o None)) l) e _ o None profile_window Hk eq_refl)|done].
Qed.
Lemma step_reject sr rt l o c e :
  headed id e -> Forall (fun x => event_lt x e) (option_list (last l)) -> rejects_round w o c e ->
  apply_based_app_canonical_event_v0 profile (view sr rt (Some (pending_of o (Some (be_pulse_height c)))) l) e =
  Ok (view sr (Some (default (be_prev_state_root o) rt)) None (l ++ [e])).
Proof using Hid.
  intros Hh Hl Hc. pose proof Hc as [Hk _]. apply apply_view. rewrite Hk, view_snoc. split_and!; [done..|].
  eexists. split; [by apply (apply_rejected_Ok profile (view sr rt (Some (pending_of o (Some (be_pulse_height c)))) l) e _ o (Some c) profile_window Hk eq_refl); exists c|done].
Qed.

(** Soundness: whatever the fold accepts is a history. *)
Definition in_history (l : list BasedAppCanonicalEventV0) (s : BasedAppStateViewV0) : Prop :=
  history w l s /\ s = view (sv_settled_round s) (sv_settled_state_root s) (sv_pending s) l.
Lemma history_step l s e s' :
  in_history l s -> apply_based_app_canonical_event_v0 profile s e = Ok s' -> in_history (l ++ [e]) s'.
Proof using Hid.
  intros [(closed & tail & -> & Hr & Ho) Es] E. rewrite Es in E.
  apply apply_view in E as (Hh & Hl & s0 & E & ->).
  assert (Hg : forall sr rt p, history w ((closed ++ tail) ++ [e]) (view sr rt p ((closed ++ tail) ++ [e])) ->
    in_history ((closed ++ tail) ++ [e]) (mkBasedAppStateViewV0 BASED_APP_STATE_SCHEMA_VERSION_V0 id sr rt p
      (Some (be_canonical_position e)))).
  { intros sr rt p Hi. rewrite <- (view_snoc sr rt p (closed ++ tail) e). by split. }
  destruct (be_kind e) eqn:Hk.
  - apply apply_opened_Ok in E as (Hp & Hop & ->); [|done]. cbn in *. apply Hg. rewrite Hp in Ho.
    inversion Ho; subst. exists closed, [e]. rewrite app_nil_r. cbn. split_and!; [done..|]. by constructor.
  - revert E. destruct Ho as [|o Hop|o c Hop Hc]; intros E; [done| |].
    + apply (apply_challenged_Ok profile _ e _ o None) in E as (_ & Hc & ->); [|apply profile_window|done..].
      apply Hg. exists closed, [o; e]. rewrite <- app_assoc. cbn. split_and!; [done..|]. by constructor.
    + by apply (apply_challenged_Ok profile _ e _ o (Some (be_pulse_height c))) in E as [? _]; [|apply profile_window|done..].
  - revert E. destruct Ho as [|o Hop|o c Hop Hc]; intros E; [done| |].
    + apply (apply_settled_Ok profile _ e _ o None) in E as (_ & Hc & ->); [|apply profile_window|done..].
      apply Hg. exists (closed ++ [o; e]), []. rewrite <- app_assoc, app_nil_r. cbn.
      split_and!; [done| |constructor]. by eapply rounds_settled.
    + by apply (apply_settled_Ok profile _ e _ o (Some (be_pulse_height c))) in E as [? _]; [|apply profile_window|done..].
  - revert E. destruct Ho as [|o Hop|o c Hop Hc]; intros E; [done| |].
    + by apply (apply_rejected_Ok profile _ e _ o None) in E as (? & ? & _); [|apply profile_window|done..].
    + apply (apply_rejected_Ok profile _ e _ o (Some c)) in E as (? & [= <-] & Hrj & ->); [|apply profile_window|done..].
      apply Hg. exists (closed ++ [o; c; e]), []. rewrite <- app_assoc, app_nil_r. cbn.
      split_and!; [done| |constructor]. by eapply rounds_rejected.
Qed.

(** Completeness: every history with well-formed, strictly ordered events is accepted. *)
Lemma sorted_snoc_inv l e :
  StronglySorted event_lt (l ++ [e]) ->
  StronglySorted event_lt l /\ Forall (fun x => event_lt x e) (option_list (last l)).
Proof.
  intros Hs. apply StronglySorted_app in Hs as (Hlt & Hl & _). split; [done|].
  destruct (last l) as [x|] eqn:Hx; [|constructor]. apply Forall_singleton.
  apply Hlt; [|by left]. apply last_Some_elem_of in Hx. done.
Qed.
Lemma fold_snoc l e s s' :
  Forall (headed id) (l ++ [e]) -> StronglySorted event_lt (l ++ [e]) ->
  (Forall (headed id) l -> StronglySorted event_lt l ->
     try_fold (apply_based_app_canonical_event_v0 profile) (view None None None []) l = Ok s) ->
  (headed id e -> Forall (fun x => event_lt x e) (option_list (last l)) ->
     apply_based_app_canonical_event_v0 profile s e = Ok s') ->
  try_fold (apply_based_app_canonical_event_v0 profile) (view None None None []) (l ++ [e]) = Ok s'.
Proof.
  intros Hh Hs Hl He. apply Forall_app in Hh as [Hhl Hhe]. apply Forall_cons in Hhe as [Hhe _].
  apply sorted_snoc_inv in Hs as [Hsl Hse]. rewrite try_fold_app, Hl by done. cbn [try_fold]. by rewrite (He Hhe Hse).
Qed.
Lemma app_pair {A} (l : list A) x y : l ++ [x; y] = (l ++ [x]) ++ [y].
Proof. by rewrite <- app_assoc. Qed.
Lemma app_triple {A} (l : list A) x y z : l ++ [x; y; z] = ((l ++ [x]) ++ [y]) ++ [z].
Proof. by rewrite <- !app_assoc. Qed.

Lemma rounds_accepted l sr rt :
  rounds w l sr rt -> Forall (headed id) l -> StronglySorted event_lt l ->
  try_fold (apply_based_app_canonical_event_v0 profile) (view None None None []) l = Ok (view sr rt None l).
Proof using Hid.
  induction 1 as [|l sr rt o s Hr IH Ho Hs|l sr rt o c r Hr IH Ho Hc Hj]; [done| |].
  - rewrite app_pair. intros Hh Hst. eapply fold_snoc; [done..| |intros; by apply step_settle].
    intros Hh' Hs'. eapply fold_snoc; [done..|apply IH|intros; by apply step_open].
  - rewrite app_triple. intros Hh Hst. eapply fold_snoc; [done..| |intros; by apply step_reject].
    intros Hh' Hs'. eapply fold_snoc; [done..| |intros; by apply step_challenge].
    intros Hh'' Hs''. eapply fold_snoc; [done..|apply IH|intros; by apply step_open].
Qed.
Lemma history_accepted closed tail sr rt p :
  rounds w closed sr rt -> open_round w sr rt tail p ->
  Forall (headed id) (closed ++ tail) -> StronglySorted event_lt (closed ++ tail) ->
  try_fold (apply_based_app_canonical_event_v0 profile) (view None None None []) (closed ++ tail) =
  Ok (view sr rt p (closed ++ tail)).
Proof using Hid.
  intros Hr Ho. destruct Ho as [|o Hop|o c Hop Hc].
  - rewrite app_nil_r. by apply rounds_accepted.
  - intros Hh Hs. eapply fold_snoc; [done..|by apply rounds_accepted|intros; by apply step_open].
  - rewrite app_pair. intros Hh Hs. eapply fold_snoc; [done..| |intros; by apply step_challenge].
    intros Hh' Hs'. eapply fold_snoc; [done..|by apply rounds_accepted|intros; by apply step_open].
Qed.
End history.

(** The settled events of a history are a chain: consecutive rounds, each on the
    root of the one before, and the last of them is what the view reports. *)
Definition settled_events (l : list BasedAppCanonicalEventV0) : list BasedAppCanonicalEventV0 :=
  List.filter (fun e => match be_kind e with Settled => true | _ => false end) l.
Definition chained (l : list BasedAppCanonicalEventV0) : Prop :=
  forall l1 a b l2, l = l1 ++ a :: b :: l2 ->
    be_round b = be_round a + 1 /\ be_prev_state_root b = be_next_state_root a.

Lemma chained_snoc l e :
  chained l -> (forall a, last l = Some a -> be_round e = be_round a + 1 /\ be_prev_state_root e = be_next_state_root a) ->
  chained (l ++ [e]).
Proof.
  intros Hl Hlast l1 a b l2 E. destruct l2 as [|z l2 _] using rev_ind.
  - rewrite (app_pair l1 a b) in E. apply app_inj_tail in E as [-> ->]. apply Hlast. apply last_snoc.
  - assert (E' : l ++ [e] = (l1 ++ a :: b :: l2) ++ [z]) by (by rewrite <- app_assoc).
    apply app_inj_tail in E' as [-> ->]. by eapply Hl.
Qed.
Lemma rounds_chained w l sr rt :
  rounds w l sr rt ->
  chained (settled_events l) /\ sr = be_round <$> last (settled_events l) /\
  (forall a, last (settled_events l) = Some a -> rt = Some (be_next_state_root a)).
Proof.
  induction 1 as [|l sr rt o s Hr (Hl & Hsr & Hrt) (Ko & Hor & Hop) (Ks & (Er & Ep & En) & _)
    |l sr rt o c r Hr (Hl & Hsr & Hrt) (Ko & _) (Kc & _) (Kr & _)].
  - split_and!; [|done..]. intros [|? [|]] ? ? ?; done.
  - unfold settled_events in *. rewrite List.filter_app. cbn. rewrite Ko, Ks. cbn. rewrite last_snoc.
    split_and!; [|cbn; congruence|intros a [= <-]; congruence]. apply chained_snoc; [done|]. intros a Ha.
    rewrite Ha in Hsr. destruct (Hor _ Hsr). specialize (Hop _ (Hrt _ Ha)). split; congruence.
  - unfold settled_events in *. rewrite List.filter_app. cbn. rewrite Ko, Kc, Kr. cbn. rewrite app_nil_r.
    split_and!; [done..|]. intros a Ha. by rewrite (Hrt a Ha).
Qed.

Lemma fold_history `{Crypto} profile id events s :
  derive_app_id_v0 profile = Ok id ->
  fold_based_app_events_v0 profile events = Ok s <->
  Z.of_nat (length events) <= BASED_APP_EVENT_RETAINED_MAX_V0 /\ Forall (headed id) events /\
  StronglySorted event_lt (isort event_le events) /\
  history (ba_challenge_pulses profile) (isort event_le events) s /\
  s = view id (sv_settled_round s) (sv_settled_state_root s) (sv_pending s) (isort event_le events).
Proof.
  intros Hid. pose proof (state_app_id_Ok _ _ Hid) as Eid.
  unfold fold_based_app_events_v0, new_state_view. rewrite Eid.
  change (mkBasedAppStateViewV0 _ id None None None None) with (view id None None None []). split.
  - intros E. pose proof (fold_from_state_Ok _ _ _ _ E) as (Hlen & _).
    rewrite (fold_from_state_unfold _ id) in E by done.
    pose proof (fold_frame _ id _ (view id None None None []) _ Eid eq_refl eq_refl E) as (Hh & Hs & _).
    rewrite (isort_perm event_le) in Hh.
    assert (in_history profile id (isort event_le events) s) as [? ?]; [|done].
    revert E. apply try_fold_ind.
    + split; [exists [], []; split_and!; [done|constructor..]|done].
    + intros. by eapply history_step.
  - intros (Hlen & Hh & Hs & (closed & tail & El & Hr & Ho) & ->). cbn in Hr, Ho.
    rewrite (fold_from_state_unfold _ id) by done. rewrite <- (isort_perm event_le events) in Hh.
    rewrite El in Hh, Hs |- *. by apply history_accepted.
Qed.
Lemma open_round_unsettled w sr rt tail p : open_round w sr rt tail p -> settled_events tail = [].
Proof. intros [|o [Ko _]|o c [Ko _] [Kc _]]; cbn; by rewrite ?Ko, ?Kc. Qed.

(** C32: the fold of a retained window accepts exactly the histories of the
    application: at most 4096 events of this application at distinct canonical
    positions that, in canonical order, are complete rounds followed by at most one
    open round, where a round opens with the next number on the settled root,
    settles unchallenged once the challenge window is over, or is challenged within
    it and rejected a window later.  The view reports the last settled round, its
    root, the open round and the last position; the settled events form a chain. *)
Theorem based_app_fold_exact `{Crypto} profile id events s :
  derive_app_id_v0 profile = Ok id ->
  (fold_based_app_events_v0 profile events = Ok s <->
   Z.of_nat (length events) <= BASED_APP_EVENT_RETAINED_MAX_V0 /\ Forall (headed id) events /\
   StronglySorted event_lt (isort event_le events) /\
   history (ba_challenge_pulses profile) (isort event_le events) s /\
   s = view id (sv_settled_round s) (sv_settled_state_root s) (sv_pending s) (isort event_le events)) /\
  (fold_based_app_events_v0 profile events = Ok s -> chained (settled_events (isort event_le events))).
Proof.
  intros Hid. pose proof (fold_history profile id events s Hid) as Hiff. split; [done|].
  intros E. apply Hiff in E as (_ & _ & _ & (closed & tail & -> & Hr & Ho) & _).
  destruct (rounds_chained _ _ _ _ Hr) as (Hl & _). apply open_round_unsettled in Ho.
  unfold settled_events in *. by rewrite List.filter_app, Ho, app_nil_r.
Qed.

(** An application, and three of its rounds that arrived out of order: one settled,
    one challenged and rejected, one open. *)
Definition demo_profile : BasedAppProfileV0 := mkBasedAppProfileV0 "pulsedag-test" ["bb"; "aa"] 64 1024 CommitOnly.
Definition demo_app_id : bytes :=
  match @derive_app_id_v0 model_crypto demo_profile with Ok id => id | Err _ => [] end.
Definition demo_root (n : Z) : bytes := le_bytes 32 n.
Definition demo_event (position round : Z) (kind : BasedAppCanonicalEventKindV0) (prev next pulse : Z)
  : BasedAppCanonicalEventV0 :=
  mkBasedAppCanonicalEventV0 1 position demo_app_id round kind (demo_root prev) (demo_root next) pulse.
Definition demo_events : list BasedAppCanonicalEventV0 :=
  [demo_event 9 2 Opened 1 3 400; demo_event 3 1 Settled 0 1 80; demo_event 5 2 Challenged 1 2 140;
   demo_event 1 1 Opened 0 1 10; demo_event 8 2 EventRejected 1 2 210; demo_event 4 2 Opened 1 2 100].
Definition demo_view : BasedAppStateViewV0 :=
  mkBasedAppStateViewV0 1 demo_app_id (Some 1) (Some (demo_root 1))
    (Some (mkBasedAppPendingRoundV0 2 (demo_root 1) (demo_root 3) 400 None)) (Some 9).

Lemma based_app_fold_exact_witness :
  @fold_based_app_events_v0 model_crypto demo_profile demo_events = Ok demo_view /\
  history 64 (isort event_le demo_events) demo_view /\ chained (settled_events (isort event_le demo_events)).
Proof.
  assert (Hid : @derive_app_id_v0 model_crypto demo_profile = Ok demo_app_id) by by_compute.
  assert (E : @fold_based_app_events_v0 model_crypto demo_profile demo_events = Ok demo_view) by by_compute.
  destruct (@based_app_fold_exact model_crypto demo_profile demo_app_id demo_events demo_view Hid) as [Hiff Hl].
  split; [exact E|]. split; [|exact (Hl E)].
  destruct (proj1 Hiff E) as (_ & _ & _ & Hh & _). exact Hh.
Defined.

(** ** The matcher and the application id *)

(** A commitment that may be opened can, at any admissible pulse, be challenged or
    settled but not both: the window closes at the pulse that settles. *)
Lemma challenge_or_settle `{Crypto} admission profile commit pulse p :
  evaluate_based_app_v0 admission profile commit BasedOpen pulse = Ok () ->
  validate_pulse_context_v0 profile p = Ok () ->
  evaluate_based_app_v0 admission profile commit BasedChallenge (Ok p) = Ok () <->
  evaluate_based_app_v0 admission profile commit BasedSettle (Ok p) <> Ok ().
Proof.
  unfold evaluate_based_app_v0, throw. destruct (negb _); [done|].
  destruct (validate_commit_shape profile commit); [|done]. intros _ Hp. cbn. rewrite Hp. cbn.
  destruct (Z.leb_spec (settle_height_v0 commit profile) (po_pulse_height p)),
    (Z.ltb_spec (po_pulse_height p) (settle_height_v0 commit profile)); naive_solver lia.
Qed.

(** A run of length-prefixed strings up to the end of a message is readable. *)
Lemma emit_strings_inj l1 l2 x :
  emit (map encode_len_prefixed_str l1) = Some x -> emit (map encode_len_prefixed_str l2) = Some x -> l1 = l2.
Proof.
  assert (Hne : forall a l, emit (map encode_len_prefixed_str (a :: l)) <> Some []).
  { intros a l E. cbn [map] in E. apply emit_cons in E as (u & v & Hu & _ & Huv). symmetry in Huv.
    apply app_nil in Huv as [-> _]. unfold encode_len_prefixed_str, encode_len_prefixed_bytes in Hu.
    case_match; [|done]. done. }
  revert l2 x. induction l1 as [|a l1 IH]; intros [|b l2] x Hx Hy; [done| | |].
  - injection Hx as <-. by apply Hne in Hy.
  - injection Hy as <-. by apply Hne in Hx.
  - cbn [map] in Hx, Hy. assert (Hcat : x ++ [] = x ++ []) by done.
    destruct (emit_peel (fun _ => True) encode_len_prefixed_str a b _ _ x x [] [] I I Hx Hy Hcat)
      as [-> (y1 & y2 & Hy1 & Hy2 & Heq)]. rewrite !app_nil_r in Heq. subst y2. by rewrite (IH l2 y1).
Qed.
(** The application id determines the profile, up to the order of the operators,
    unless SHA-256 collides. *)
Lemma app_id_binding `{Crypto} p1 p2 b1 b2 id :
  in_u 32 (ba_max_blob_bytes p1) -> in_u 32 (ba_max_blob_bytes p2) ->
  app_id_bytes p1 (isort String.le (ba_operator_set p1)) = Some b1 ->
  app_id_bytes p2 (isort String.le (ba_operator_set p2)) = Some b2 -> collision_free [b1; b2] ->
  derive_app_id_v0 p1 = Ok id -> derive_app_id_v0 p2 = Ok id ->
  ba_chain_id p1 = ba_chain_id p2 /\ ba_challenge_pulses p1 = ba_challenge_pulses p2 /\
  ba_max_blob_bytes p1 = ba_max_blob_bytes p2 /\ ba_da_mode p1 = ba_da_mode p2 /\
  ba_operator_set p1 ≡ₚ ba_operator_set p2.
Proof.
  intros I1 I2 B1 B2 Hcf E1 E2. pose proof (derive_app_id_window _ _ E1) as W1.
  pose proof (derive_app_id_window _ _ E2) as W2. unfold derive_app_id_v0, throw, or_panic in E1, E2.
  rewrite B1 in E1. rewrite B2 in E2. cbn [ok_or] in *. inv_ok.
  assert (Eb : b1 = b2) by (apply Hcf; [set_solver..|congruence]).
  assert (Hcat : b1 ++ [] = b2 ++ []) by (by rewrite Eb). clear Eb Hcf. unfold app_id_bytes in B1, B2. cbn [app] in B1, B2.
  assert (Hu : forall x, BASED_CHALLENGE_MIN_PULSES_V0 <= x <= BASED_CHALLENGE_MAX_PULSES_V0 -> in_u 32 x).
  { unfold BASED_CHALLENGE_MIN_PULSES_V0, BASED_CHALLENGE_MAX_PULSES_V0, in_u, u_max. lia. }
  apply Hu in W1, W2.
  peel (fun _ : bytes => True) encode_len_prefixed_bytes. peel (fun _ : string => True) encode_len_prefixed_str.
  do 2 peel_field. peel (fun _ : bytes => True) encode_len_prefixed_bytes.
  rewrite !app_nil_r in *. subst. split_and!; [done..| |].
  - by destruct (ba_da_mode p1), (ba_da_mode p2).
  - rewrite <- (isort_perm String.le (ba_operator_set p1)), <- (isort_perm String.le (ba_operator_set p2)).
    by erewrite emit_strings_inj.
Qed.

(** ** Pages *)

Lemma repeated_position_None l :
  repeated_position l = None -> StronglySorted event_le l -> StronglySorted event_lt l.
Proof.
  induction l as [|a [|b l] IH]; intros Hr Hs; [constructor|by repeat constructor|].
  cbn [repeated_position] in Hr. destruct (Z.eqb_spec (be_canonical_position a) (be_canonical_position b)); [done|].
  apply StronglySorted_inv in Hs as [Hs Hle]. specialize (IH Hr Hs). constructor; [done|].
  apply Forall_cons in Hle as [Hab _]. apply StronglySorted_inv in IH as [_ Hb]. unfold event_le in Hab.
  constructor; [unfold event_lt; lia|]. eapply Forall_impl; [exact Hb|]. unfold event_lt. lia.
Qed.
(** Filtering commutes with sorting. *)
Lemma filter_sort_insert (f : BasedAppCanonicalEventV0 -> bool) x l :
  StronglySorted event_le l ->
  List.filter f (sort_insert event_le x l) =
  if f x then sort_insert event_le x (List.filter f l) else List.filter f l.
Proof.
  induction 1 as [|y l Hs IH Hy]; [done|]. cbn [sort_insert]. case_decide as Hxy.
  - change (List.filter f (x :: y :: l)) with
      (if f x then x :: List.filter f (y :: l) else List.filter f (y :: l)).
    destruct (f x); [|done].
    assert (Hall : forall z, z ∈ List.filter f (y :: l) -> event_le x z).
    { intros z Hz. apply list_elem_of_In, filter_In in Hz as [Hz%list_elem_of_In _]. rewrite Forall_forall in Hy.
      apply elem_of_cons in Hz as [->|Hz]; [done|]. etransitivity; [exact Hxy|by apply Hy]. }
    destruct (List.filter f (y :: l)) as [|z t]; [done|]. cbn. rewrite decide_True; [done|]. apply Hall. left.
  - cbn [List.filter]. rewrite IH. destruct (f x), (f y); try done. cbn. by rewrite decide_False.
Qed.
Lemma isort_filter (f : BasedAppCanonicalEventV0 -> bool) l :
  isort event_le (List.filter f l) = List.filter f (isort event_le l).
Proof.
  induction l as [|x l IH]; [done|].
  change (isort event_le (x :: l)) with (sort_insert event_le x (isort event_le l)).
  rewrite filter_sort_insert by (apply isort_ssorted; apply _). rewrite <- IH. cbn. by destruct (f x).
Qed.

(** The entries of a page: the first selected events in canonical order. *)
Lemma event_page_Ok events app_id after limit page :
  based_app_event_page_v0 events app_id after limit = Ok page ->
  page = take (Z.to_nat limit) (isort event_le (List.filter (page_selects app_id after) events)) /\
  StronglySorted event_lt (isort event_le (List.filter (page_selects app_id after) events)) /\
  limit <= BASED_APP_EVENT_PAGE_MAX_V0.
Proof.
  unfold based_app_event_page_v0. set (selected := isort event_le _). intros E.
  destruct (_ <? _); [done|]. destruct ((limit =? 0) || _) eqn:Hl; [done|].
  destruct (List.find _ _); [done|]. destruct (repeated_position selected) as [[]|] eqn:Hr; [done|].
  injection E as <-. bool_props. split_and!; [done| |done].
  apply repeated_position_None; [done|]. apply isort_ssorted; apply _.
Qed.
Lemma filter_after_last l1 l2 e :
  StronglySorted event_lt (l1 ++ l2) -> last l1 = Some e ->
  List.filter (fun x => be_canonical_position e <? be_canonical_position x) (l1 ++ l2) = l2.
Proof.
  intros (Hlt & Hs & _)%StronglySorted_app (l & ->)%last_Some.
  apply StronglySorted_app in Hs as (Hle & _ & _). unfold event_lt in *. rewrite List.filter_app.
  replace (List.filter _ (l ++ [e])) with (@nil BasedAppCanonicalEventV0).
  - cbn. apply forallb_filter_id, forallb_forall. intros x Hx%list_elem_of_In.
    apply Z.ltb_lt, Hlt; [|done]. set_solver.
  - symmetry. destruct (List.filter _ (l ++ [e])) as [|x t] eqn:E; [done|].
    assert (Hx : x ∈ List.filter (fun x => be_canonical_position e <? be_canonical_position x) (l ++ [e]))
      by (rewrite E; left).
    apply list_elem_of_In, filter_In in Hx as [Hx%list_elem_of_In Hgt%Z.ltb_lt].
    apply elem_of_app in Hx as [Hx| ->%list_elem_of_singleton]; [|lia].
    specialize (Hle x e Hx ltac:(left)). lia.
Qed.
(** Reading on from the last position of a page misses nothing and repeats nothing:
    the two pages are the first [n + m] selected events. *)
Lemma event_page_resume events app_id after n m p1 e p2 :
  0 <= n -> 0 <= m ->
  based_app_event_page_v0 events app_id after n = Ok p1 -> last p1 = Some e ->
  based_app_event_page_v0 events app_id (Some (be_canonical_position e)) m = Ok p2 ->
  p1 ++ p2 =
  take (Z.to_nat (n + m)) (isort event_le (List.filter (page_selects app_id after) events)).
Proof.
  intros Hn Hm (E1 & Hs & _)%event_page_Ok Hlast (-> & _)%event_page_Ok.
  set (selected := isort event_le (List.filter (page_selects app_id after) events)) in *.
  rewrite Z2Nat.inj_add, <- take_take_drop, <- E1 by lia. do 2 f_equal.
  assert (He : e ∈ p1) by (by apply last_Some_elem_of).
  assert (Hsel : page_selects app_id after e = true).
  { rewrite E1 in He. apply elem_of_take in He as (i & He & _). apply list_elem_of_lookup_2 in He.
    unfold selected in He. rewrite isort_elem_of in He. by apply list_elem_of_In, filter_In in He as [_ ?]. }
  transitivity (List.filter (fun x => be_canonical_position e <? be_canonical_position x) selected).
  - unfold selected. rewrite <- isort_filter. f_equal. clear -Hsel.
    induction events as [|x events IH]; [done|]. cbn [List.filter]. rewrite IH. clear IH.
    assert (Hx : page_selects app_id (Some (be_canonical_position e)) x =
      page_selects app_id after x && (be_canonical_position e <? be_canonical_position x)).
    { unfold page_selects in *. bool_props. destruct after as [z|]; [|by rewrite andb_true_r]. bool_props.
      rewrite <- andb_assoc. f_equal.
      destruct (Z.ltb_spec (be_canonical_position e) (be_canonical_position x)), (Z.ltb_spec z (be_canonical_position x));
        done || lia. }
    rewrite Hx. destruct (page_selects app_id after x); cbn [List.filter andb]; [|done]. by destruct (_ <? _).
  - rewrite <- (take_drop (Z.to_nat n) selected) at 1. apply filter_after_last; [by rewrite take_drop|congruence].
Qed.
