(* ===== verification/TxAdmission.v ===== *)
(** * Admission of transactions ([tx_protocol.rs], [mempool_protocol.rs],
      [mempool_admission_v3.rs], the transaction part of [accept.rs])

    The rules an admission follows are a record of three operations: what is
    checked before anything else, how a transaction is validated and how the pool
    is rebuilt.  [legacy_rules] and [protocol_rules] are the two values of
    [TransactionAdmissionValidation]; the definitions below take the rules as the
    source takes that enum.  [AcceptSource] is not read.

    [None] is a panic or exhausted fuel; accepting a transaction promotes orphans,
    which accepts transactions, so [accept_internal] takes one unit of fuel per
    orphan and [promote_loop] one per round.  The promotion calls back into the
    entry points, which take the next smaller fuel there. *)

From stdpp Require Import pretty.
From S2P Require Import Prelude Encoding Crypto Types Merkle State Tx TxV3 Graph Pow.
From S2P Require Import Selection Retarget Ghostdag Ordering Mining Genesis Apply.
From S2P Require Import Validation Mempool Commit MempoolV3 MempoolResource Accept Headers Protocol ReplayV3 ReplacementV3.

(** ** Protocol dispatch *)

Inductive TransactionValidationPath := PathLegacyV1 | PathActivatedV2.
Definition invalid_identity (message : string) : PulseError :=
  InvalidTransaction ("invalid protocol activation identity: " +:+ message).
Definition version_mismatch (identity : ProtocolActivationIdentity) (tx : Transaction) : PulseError :=
  InvalidTransaction ("protocol identity requires transaction version "
    +:+ pretty (pi_transaction_protocol_version identity) +:+ ", got " +:+ pretty (tx_version tx)).

Definition resolve_transaction_validation_path (identity : ProtocolActivationIdentity) (state : ChainState)
  : outcome TransactionValidationPath :=
  check lift (map_err invalid_identity (protocol_identity_validate identity)) in
  if bool_decide (pi_chain_id identity <> cs_chain_id state) then fails ChainIdMismatch
  else if bool_decide (pi_genesis_hash identity <> d_genesis_hash (cs_dag state))
  then fails (invalid_identity "genesis hash does not match chain state")
  else if (pi_transaction_protocol_version identity =? TRANSACTION_VERSION_V1)
          && (pi_block_header_protocol_version identity =? BLOCK_HEADER_VERSION_V1)
          && match pi_consensus_mode identity with PLegacy | PGhostdagDev => true | PGhostdagV1 => false end
  then Ok PathLegacyV1
  else if (pi_transaction_protocol_version identity =? TRANSACTION_VERSION_V2)
          && (pi_block_header_protocol_version identity =? BLOCK_HEADER_VERSION_V2)
          && match pi_consensus_mode identity with PGhostdagV1 => true | _ => false end
  then Ok PathActivatedV2
  else fails (invalid_identity "mixed or unsupported transaction/header/consensus version tuple").

Definition validate_transaction_for_protocol `{Crypto} (tx : Transaction) (state : ChainState)
  (identity : ProtocolActivationIdentity) : outcome unit :=
  let? path := resolve_transaction_validation_path identity state in
  if negb (tx_version tx =? pi_transaction_protocol_version identity)
  then fails (version_mismatch identity tx)
  else match path with
  | PathLegacyV1 => validate_transaction tx state
  | PathActivatedV2 => validate_transaction_v2 tx state (pi_chain_id identity)
  end.

(** [reconcile_mempool_for_protocol] repeats [reconcile_mempool] with the protocol's
    validation; the helpers it copies are those of [Mempool]. *)
Section protocol_reconcile.
Context `{Crypto, HashOrder} (identity : ProtocolActivationIdentity).

Definition protocol_reconcile_tx (pass : ReconcilePass) (tx : Transaction) : result unit ReconcilePass :=
  match validate_transaction_for_protocol tx (rp_working pass) identity with
  | Ok _ =>
      let '(r, working) := simulate_mempool_accept tx (rp_working pass) in
      let pass := pass <| rp_working := working |> in
      Ok (match r with
          | Ok _ => pass <| rp_kept ::= fun l => l ++ [tx_txid tx] |> <| rp_progressed := true |>
          | Err _ => pass <| rp_removed ::= fun l => l ++ [tx_txid tx] |>
          end)
  | Err (Some UtxoNotFound) => Ok (pass <| rp_next_pending ::= fun l => l ++ [tx] |>)
  | Err (Some _) => Ok (pass <| rp_removed ::= fun l => l ++ [tx_txid tx] |>)
  | Err None => Err tt
  end.
Fixpoint protocol_reconcile_loop (fuel : nat) (working : ChainState) (pending : list Transaction)
    (removed kept : list string) : result unit (ChainState * list string * list string) :=
  match fuel with
  | O => Err tt
  | S fuel' =>
      match pending with
      | [] => Ok (working, removed, kept)
      | _ =>
          let? pass := try_fold protocol_reconcile_tx (mkReconcilePass working [] false removed kept) pending in
          if rp_progressed pass
          then protocol_reconcile_loop fuel' (rp_working pass) (rp_next_pending pass) (rp_removed pass)
                 (rp_kept pass)
          else Ok (rp_working pass, rp_removed pass ++ map tx_txid (rp_next_pending pass), rp_kept pass)
      end
  end.
Definition reconcile_mempool_for_protocol (state : ChainState) : outcome (MempoolReconcileResult * ChainState) :=
  check resolve_transaction_validation_path identity state in
  let tx_count := size (mp_transactions (cs_mempool state)) in
  let state := state <| cs_mempool ::= fun mp => mp <| mp_counters ::= fun c =>
    c <| mc_reconcile_runs_total := saturating_add 64 (mc_reconcile_runs_total c) 1 |> |> |> in
  if decide (tx_count = 0%nat) then
    Ok (mkMempoolReconcileResult [] [],
        state <| cs_mempool ::= fun mp => mp <| mp_spent_outpoints := ∅ |> <| mp_first_seen := ∅ |>
                                             <| mp_admission_height := ∅ |> |>)
  else
    let original_first_seen := mp_first_seen (cs_mempool state) in
    let txs := isort (cmp_le (fun a b => compare_first_seen original_first_seen (tx_txid a) (tx_txid b)))
                 (map snd (map_iter (mp_transactions (cs_mempool state)))) in
    let working := state <| cs_mempool ::= fun mp => mp <| mp_transactions := ∅ |> <| mp_spent_outpoints := ∅ |> |> in
    let? r := map_err (fun _ => None) (protocol_reconcile_loop (S (length txs)) working txs [] []) in
    let '(working, removed_txids, kept_txids) := r in
    Ok (mkMempoolReconcileResult removed_txids kept_txids,
        state <| cs_mempool := rebuilt_mempool (cs_mempool working) (mp_counters (cs_mempool state))
          (mp_max_transactions (cs_mempool state)) (mp_max_spent_outpoints (cs_mempool state))
          (Z.of_nat (length removed_txids)) |>).
End protocol_reconcile.

(** ** Results *)

Inductive TxAcceptanceResult :=
| TxAccepted
| TxDuplicate
| TxInvalid (reason : string)
| TxOrphan
| TxRejected (reason : string).
#[global] Instance TxAcceptanceResult_eq_dec : EqDecision TxAcceptanceResult.
Proof. solve_decision. Defined.
Definition tx_is_accepted (r : TxAcceptanceResult) : bool :=
  match r with TxAccepted => true | _ => false end.

Definition classify_tx_validation_error (err : PulseError) : TxAcceptanceResult :=
  match err with
  | TxAlreadyExists => TxDuplicate
  | InvalidTransaction msg => if contains_str msg "mempool backpressure" then TxRejected msg else TxInvalid msg
  | InvalidTxid => TxInvalid "invalid txid"
  | InvalidSignature => TxInvalid "invalid signature"
  | DoubleSpend => TxInvalid "double spend"
  | InsufficientFunds => TxInvalid "insufficient funds"
  | UtxoNotFound => TxOrphan
  | other => TxRejected (PulseError_to_string other)
  end.

(** ** Priorities *)

Definition str_lt (a b : string) : bool := match String.compare a b with Lt => true | _ => false end.
Definition is_higher_priority (candidate existing : Transaction) : bool :=
  (tx_fee existing <? tx_fee candidate)
  || ((tx_fee candidate =? tx_fee existing) && str_lt (tx_txid candidate) (tx_txid existing)).

Record PackageScore := mkPackageScore {
  ps_total_fee : Z;
  ps_tx_count : Z;
  ps_max_member_fee : Z;
  ps_canonical_txid : string;
}.
(** One member: the running sums and the smallest id. *)
Definition score_member (acc : Z * Z * Z * option string) (tx : Transaction) : Z * Z * Z * option string :=
  let '(total, count, max_fee, canonical) := acc in
  (saturating_add 128 total (tx_fee tx), saturating_add 64 count 1, Z.max max_fee (tx_fee tx),
   Some (match canonical with
         | Some existing => if str_lt (tx_txid tx) existing then tx_txid tx else existing
         | None => tx_txid tx
         end)).
Definition package_score_for_ids (txids : list Hash) (state : ChainState) : option PackageScore :=
  match mapM (fun txid => mp_transactions (cs_mempool state) !! txid) txids with
  | None => None
  | Some txs =>
      let '(total, count, max_fee, canonical) := foldl score_member (0, 0, 0, None) txs in
      Some (mkPackageScore total count max_fee (default "-" canonical))
  end.
Definition score_cmp (a b : PackageScore) : comparison :=
  let a_weighted := saturating_mul 128 (ps_total_fee a) (ps_tx_count b) in
  let b_weighted := saturating_mul 128 (ps_total_fee b) (ps_tx_count a) in
  then_with (a_weighted ?= b_weighted)
    (then_with (ps_total_fee a ?= ps_total_fee b)
       (then_with (ps_max_member_fee a ?= ps_max_member_fee b)
          (String.compare (ps_canonical_txid b) (ps_canonical_txid a)))).

(** ** Families *)

Definition direct_mempool_parents (tx : Transaction) (state : ChainState) : list Hash :=
  filter (fun parent => is_Some (mp_transactions (cs_mempool state) !! parent))
    (map (fun i => op_txid (in_previous_output i)) (tx_inputs tx)).
Definition parents_in_pool (state : ChainState) (txid : Hash) : list Hash :=
  match mp_transactions (cs_mempool state) !! txid with
  | Some parent => direct_mempool_parents parent state
  | None => []
  end.
(** The stack, last element on top; fuel: one unit per push. *)
Definition collect_ancestor_set (tx : Transaction) (state : ChainState) : option (gset Hash) :=
  let stack := direct_mempool_parents tx state in
  snd <$> dfs (parents_in_pool state) (fun _ => false)
    (S (length stack + edge_count (parents_in_pool state) (dom (mp_transactions (cs_mempool state)))))
    (rev stack) ∅.

Section families.
Context `{HashOrder}.

Definition lowest_priority_txid (state : ChainState) : option Hash :=
  tx_txid <$> min_by compare_victims (map snd (map_iter (mp_transactions (cs_mempool state)))).

Definition push_mempool_child (child : Hash) (children : gmap Hash (list Hash)) (parent : Hash) : gmap Hash (list Hash) :=
  <[parent := default [] (children !! parent) ++ [child]]> children.
Definition build_mempool_children (state : ChainState) : gmap Hash (list Hash) :=
  foldl (fun children p => foldl (push_mempool_child (tx_txid p.2)) children (direct_mempool_parents p.2 state))
    ∅ (map_iter (mp_transactions (cs_mempool state))).
Definition child_list (children : gmap Hash (list Hash)) (txid : Hash) : list Hash :=
  default [] (children !! txid).
Definition collect_eviction_package (root : Hash) (children : gmap Hash (list Hash)) : option (gset Hash) :=
  snd <$> dfs (child_list children) (fun _ => false)
    (S (1 + edge_count (child_list children) (dom children))) [root] ∅.

Definition select_package_threshold (package : gset Hash) (state : ChainState) : option Transaction :=
  max_by compare_victims (omap (fun txid => mp_transactions (cs_mempool state) !! txid) (set_iter package)).

Definition incoming_package_score (tx : Transaction) (state : ChainState) : option PackageScore :=
  match collect_ancestor_set tx state with
  | None => None
  | Some ancestors =>
      let ancestor_score := default (mkPackageScore 0 0 0 "-")
        (package_score_for_ids (set_iter ancestors) state) in
      let canonical :=
        if bool_decide (ancestors = ∅) then tx_txid tx
        else default (tx_txid tx) (min_by String.compare (set_iter ancestors ++ [tx_txid tx])) in
      Some (mkPackageScore (saturating_add 128 (ps_total_fee ancestor_score) (tx_fee tx))
              (saturating_add 64 (ps_tx_count ancestor_score) 1)
              (Z.max (ps_max_member_fee ancestor_score) (tx_fee tx)) canonical)
  end.

(** The candidates in the order they are tried: by increasing fee, with the lowest
    one swapped to the front.  The comparator panics on an id that is not stored,
    and runs only when there are two of them. *)
Definition swap_front (l : list Hash) (pos : nat) : list Hash :=
  match l !! 0%nat, l !! pos with
  | Some x, Some y => <[0%nat := y]> (<[pos := x]> l)
  | _, _ => l
  end.
Definition eviction_candidates (state : ChainState) (lowest_txid : Hash) : option (list Hash) :=
  let ids := map (fun p => tx_txid p.2) (map_iter (mp_transactions (cs_mempool state))) in
  let sorted :=
    match ids with
    | _ :: _ :: _ =>
        match mapM (fun id => pair id <$> mp_transactions (cs_mempool state) !! id) ids with
        | Some l => Some (map fst (isort (cmp_le (fun a b => compare_victims a.2 b.2)) l))
        | None => None
        end
    | _ => Some ids
    end in
  match sorted with
  | None => None
  | Some l => Some (match list_find (fun id => id = lowest_txid) l with
                    | Some (pos, _) => if decide (pos = 0%nat) then l else swap_front l pos
                    | None => l
                    end)
  end.

(** The body of the loop over the candidates: the package of one of them when the
    incoming transaction beats it.  The outer [option] is exhausted fuel. *)
Definition try_candidate (tx : Transaction) (state : ChainState) (children : gmap Hash (list Hash))
  (protected : gset Hash) (score : PackageScore) (candidate : Hash) : option (option (gset Hash)) :=
  match collect_eviction_package candidate children with
  | None => None
  | Some package =>
      if existsb (fun member => bool_decide (member ∈ protected)) (set_iter package) then Some None else
      match select_package_threshold package state, package_score_for_ids (set_iter package) state with
      | Some package_threshold, Some package_score =>
          let beats :=
            match score_cmp score package_score with
            | Gt => true
            | Eq => is_higher_priority tx package_threshold
            | Lt => false
            end in
          Some (if beats then Some package else None)
      | _, _ => Some None
      end
  end.
Fixpoint select_package (tx : Transaction) (state : ChainState) (children : gmap Hash (list Hash))
  (protected : gset Hash) (score : PackageScore) (candidates : list Hash) : option (option (gset Hash)) :=
  match candidates with
  | [] => Some None
  | c :: candidates' =>
      match try_candidate tx state children protected score c with
      | None => None
      | Some (Some package) => Some (Some package)
      | Some None => select_package tx state children protected score candidates'
      end
  end.
End families.

(** ** Orphans *)

Definition count_rejected (mp : Mempool) : Mempool :=
  mp <| mp_counters ::= fun c => c <| mc_rejected_total := saturating_add 64 (mc_rejected_total c) 1 |> |>.
Definition count_pressure (mp : Mempool) : Mempool :=
  mp <| mp_counters ::= fun c => c <| mc_pressure_events_total := saturating_add 64 (mc_pressure_events_total c) 1 |> |>.
Definition count_low_priority (mp : Mempool) : Mempool :=
  mp <| mp_counters ::= fun c =>
    c <| mc_rejected_low_priority_total := saturating_add 64 (mc_rejected_low_priority_total c) 1 |> |>.
Definition count_promoted (mp : Mempool) : Mempool :=
  mp <| mp_counters ::= fun c => c <| mc_orphan_promoted_total := saturating_add 64 (mc_orphan_promoted_total c) 1 |> |>.
Definition count_dropped (mp : Mempool) : Mempool :=
  mp <| mp_counters ::= fun c => c <| mc_orphan_dropped_total := saturating_add 64 (mc_orphan_dropped_total c) 1 |> |>.

(** [prune_orphans]: the loop over the cheapest orphans beyond the limit is that of
    [MempoolResource]. *)
Definition prune_orphan_pool `{HashOrder} (mp : Mempool) : Mempool :=
  if Z.of_nat (size (mp_orphan_transactions mp)) <=? mp_max_orphans mp then mp else
  let overflow := (size (mp_orphan_transactions mp) - Z.to_nat (mp_max_orphans mp))%nat in
  (remove_orphans mp (take overflow (deterministic_orphan_victims mp))).2.
Definition store_orphan_transaction `{HashOrder} (tx : Transaction) (state : ChainState) : ChainState :=
  let txid := tx_txid tx in
  let missing := missing_transaction_inputs tx state in
  let replaced := bool_decide (is_Some (mp_orphan_transactions (cs_mempool state) !! txid)) in
  let height := d_best_height (cs_dag state) in
  state <| cs_mempool ::= fun mp =>
    let mp := mp <| mp_orphan_transactions ::= <[txid := tx]> |>
                 <| mp_orphan_missing_outpoints ::= <[txid := missing]> |> in
    let mp :=
      if replaced then mp else
      let order := mp_next_orphan_order mp in
      mp <| mp_next_orphan_order := saturating_add 64 order 1 |>
         <| mp_orphan_received_order ::= <[txid := order]> |>
         <| mp_orphan_admission_height ::= <[txid := height]> |>
         <| mp_counters ::= fun c => c <| mc_orphaned_total := saturating_add 64 (mc_orphaned_total c) 1 |> |> in
    prune_orphan_pool mp |>.
Definition remove_orphan_transaction (txid : Hash) (mp : Mempool) : Mempool :=
  mp <| mp_orphan_transactions ::= delete txid |>
     <| mp_orphan_missing_outpoints ::= delete txid |>
     <| mp_orphan_received_order ::= delete txid |>
     <| mp_orphan_admission_height ::= delete txid |>.

(** ** Rules *)

Record AdmissionRules := mkAdmissionRules {
  ar_preflight : Transaction -> ChainState -> outcome unit;
  ar_validate : Transaction -> ChainState -> outcome unit;
  ar_reconcile : ChainState -> outcome ChainState;
}.
Definition legacy_rules `{Crypto, HashOrder} : AdmissionRules := {|
  ar_preflight := fun _ _ => Ok tt;
  ar_validate := validate_transaction;
  ar_reconcile := fun state => match reconcile_mempool state with Ok (_, state) => Ok state | Err _ => Err None end;
|}.
Definition preflight_protocol_transaction (tx : Transaction) (state : ChainState)
  (identity : ProtocolActivationIdentity) : outcome unit :=
  check resolve_transaction_validation_path identity state in
  if negb (tx_version tx =? pi_transaction_protocol_version identity)
  then fails (version_mismatch identity tx) else Ok tt.
Definition protocol_rules `{Crypto, HashOrder} (identity : ProtocolActivationIdentity) : AdmissionRules := {|
  ar_preflight := fun tx state => preflight_protocol_transaction tx state identity;
  ar_validate := fun tx state => validate_transaction_for_protocol tx state identity;
  ar_reconcile := fun state => let? r := reconcile_mempool_for_protocol identity state in Ok r.2;
|}.

Inductive TransactionAdmissionValidation := ValidationLegacyV1 | ValidationProtocol (identity : ProtocolActivationIdentity).
Definition admission_rules `{Crypto, HashOrder} (validation : TransactionAdmissionValidation) : AdmissionRules :=
  match validation with
  | ValidationLegacyV1 => legacy_rules
  | ValidationProtocol identity => protocol_rules identity
  end.

(** ** The fee policy ([mempool_admission_v3.rs]) *)

(** Texts of errors: what [derive(Debug)] prints of an assessment error, and the
    error of a transaction whose message has no size. *)
Class ErrorText := {
  assessment_debug : MempoolPolicyAssessmentErrorV3 -> string;
  carrier_error : string -> Transaction -> string;
}.
Definition POLICY_REASON_SEPARATOR_V3 : string := ": ".
Definition mempool_policy_rejection_reason_v3 (rejection : MempoolPolicyRejectionV3) (detail : string) : string :=
  MempoolPolicyRejectionV3_as_code rejection +:+ POLICY_REASON_SEPARATOR_V3 +:+ detail.
Definition mempool_policy_rejection_code_from_reason_v3 (reason : string) : option string :=
  let code := match split_once POLICY_REASON_SEPARATOR_V3 reason with
              | Some (code, _) => code
              | None => reason
              end in
  if bool_decide (code ∈ ["MEMPOOL_V3_BELOW_MIN_RELAY_FEE_RATE"; "MEMPOOL_V3_ABOVE_MAX_TRANSACTION_FEE";
       "MEMPOOL_V3_CAPACITY_BACKPRESSURE"; "MEMPOOL_V3_REPLACEMENT_NOT_AUTHORIZED";
       "MEMPOOL_V3_POLICY_IDENTITY_MISMATCH"])
  then Some code else None.
Definition mempool_policy_rejection_detail_v3 (reason : string) : string :=
  match split_once POLICY_REASON_SEPARATOR_V3 reason with
  | Some (_, detail) => detail
  | None => reason
  end.
#[global] Instance MempoolPolicyV3_eq_dec : EqDecision MempoolPolicyV3.
Proof. solve_decision. Defined.

(** A refusal of the policy: a result, with the rejection counted. *)
Definition policy_refuses (r : TxAcceptanceResult) (state : ChainState)
  : option (result TxAcceptanceResult unit * ChainState) :=
  Some (Err r, state <| cs_mempool ::= count_rejected |>).
Definition policy_rejected (rejection : MempoolPolicyRejectionV3) (detail : string) (state : ChainState)
  : option (result TxAcceptanceResult unit * ChainState) :=
  policy_refuses (TxRejected (mempool_policy_rejection_reason_v3 rejection detail)) state.
Definition too_large (detail : string) (state : ChainState) : option (result TxAcceptanceResult unit * ChainState) :=
  policy_refuses (TxRejected (mempool_resource_rejection_reason_v1 TransactionTooLarge detail)) state.

Section policy.
Context `{HashOrder, Crypto, CarrierJson, ErrorText}.

(** The checks of the production policy only. *)
Definition preflight_resource (tx : Transaction) (state : ChainState)
  : option (result TxAcceptanceResult unit * ChainState) :=
  match canonical_transaction_size_for_resource_v1 tx (cs_chain_id state) with
  | Err None => None
  | Err (Some error) =>
      policy_refuses (TxInvalid ("canonical resource-size assessment failed: " +:+ assessment_debug error)) state
  | Ok canonical_size =>
      if rp_max_transaction_bytes resource_production_default <? canonical_size
      then too_large ("canonical transaction size " +:+ pretty canonical_size +:+ " exceeds production maximum "
             +:+ pretty (rp_max_transaction_bytes resource_production_default)) state
      else match transaction_message_size_for_resource_v1 tx (cs_chain_id state) with
      | None => policy_refuses (TxInvalid (carrier_error (cs_chain_id state) tx)) state
      | Some message_size =>
          if MEMPOOL_RESOURCE_MAX_TRANSACTION_MESSAGE_BYTES_V1 <? message_size
          then too_large ("serialized NewTransaction message size " +:+ pretty message_size
                 +:+ " exceeds transport maximum "
                 +:+ pretty MEMPOOL_RESOURCE_MAX_TRANSACTION_MESSAGE_BYTES_V1) state
          else Some (Ok tt, state)
      end
  end.
(** The capacity of the policy, when it is stricter than that of the pool. *)
Definition preflight_capacity (policy : MempoolPolicyV3) (state : ChainState)
  : option (result TxAcceptanceResult unit * ChainState) :=
  let live_cap := default u64_max (try_into 64 (mp_max_transactions (cs_mempool state))) in
  let current := default u64_max (try_into 64 (Z.of_nat (size (mp_transactions (cs_mempool state))))) in
  if (pol_max_transactions policy <? live_cap) && (pol_max_transactions policy <=? current)
  then policy_rejected CapacityBackpressure
         ("policy transaction capacity reached (used=" +:+ pretty current +:+ " max="
          +:+ pretty (pol_max_transactions policy) +:+ ")")
         (state <| cs_mempool ::= count_pressure |>)
  else Some (Ok tt, state).
Definition preflight_fees (tx : Transaction) (policy : MempoolPolicyV3) (state : ChainState)
  : option (result TxAcceptanceResult unit * ChainState) :=
  if negb (pol_version policy =? MEMPOOL_POLICY_V3_VERSION)
  then policy_rejected PolicyIdentityMismatch
         ("policy version " +:+ pretty (pol_version policy) +:+ " does not match supported version "
          +:+ pretty MEMPOOL_POLICY_V3_VERSION) state
  else if pol_max_transaction_fee policy <? tx_fee tx
  then policy_rejected AboveMaximumTransactionFee
         ("transaction fee " +:+ pretty (tx_fee tx) +:+ " exceeds policy maximum "
          +:+ pretty (pol_max_transaction_fee policy)) state
  else match fee_rate_v3 tx (cs_chain_id state) with
  | Err None => None
  | Err (Some error) =>
      policy_refuses (TxInvalid ("mempool v3 canonical policy assessment failed: " +:+ assessment_debug error)) state
  | Ok fee_rate =>
      if fr_fee_per_kb fee_rate <? pol_min_relay_fee_rate_per_kb policy
      then policy_rejected BelowMinimumRelayFeeRate
             ("fee rate " +:+ pretty (fr_fee_per_kb fee_rate) +:+ " is below policy minimum "
              +:+ pretty (pol_min_relay_fee_rate_per_kb policy)) state
      else Some (Ok tt, state)
  end.
(** [preflight_policy_v3]; [None] is a panic of a serializer. *)
Definition preflight_policy_v3 (tx : Transaction) (policy : MempoolPolicyV3) (state : ChainState)
  : option (result TxAcceptanceResult unit * ChainState) :=
  let production := bool_decide (policy = policy_production_default) in
  match (if production then preflight_resource tx state else Some (Ok tt, state)) with
  | Some (Ok _, state) =>
      match preflight_fees tx policy state with
      | Some (Ok _, state) =>
          let state := if production then state <| cs_mempool ::= apply_production_mempool_resource_caps_v1 |>
                       else state in
          preflight_capacity policy state
      | refused => refused
      end
  | refused => refused
  end.

(** [None] is exhausted fuel of the conflict search. *)
Definition reject_conflicting_mempool_package_v3 (tx : Transaction) (state : ChainState)
  : option (result TxAcceptanceResult unit * ChainState) :=
  match classify_mempool_conflicts_v3 tx state with
  | None => None
  | Some conflicts =>
      match cp_direct_conflict_txids conflicts with
      | [] => Some (Ok tt, state)
      | direct => policy_rejected ReplacementNotAuthorized
          ("direct_conflicts=[" +:+ join "," direct +:+ "] conflict_package=["
           +:+ join "," (cp_conflict_package_txids conflicts) +:+ "]; replacement semantics are not authorized") state
      end
  end.
End policy.

Definition normalize_live_result_v3 (r : TxAcceptanceResult) : TxAcceptanceResult :=
  match r with
  | TxRejected reason =>
      if contains_str reason "mempool backpressure" || contains_str reason "spent-outpoint capacity"
         || contains_str reason "mempool pressure detected"
      then TxRejected (mempool_policy_rejection_reason_v3 CapacityBackpressure reason) else r
  | other => other
  end.

(** ** Promotion *)

(** What [promote_ready_orphans] makes of an acceptance: the arms of its two
    [match]es. *)
Inductive Promotion := Promoted | StoreAgain | ParkedAgain | PromotionDropped.
(** Without a policy, by the [Result] of [accept_transaction]. *)
Definition promotion_of_outcome (r : outcome unit) : Promotion :=
  match r with
  | Ok _ => Promoted
  | Err (Some UtxoNotFound) => StoreAgain
  | Err _ => PromotionDropped
  end.
(** With a policy, by the result of its admission. *)
Definition promotion_of_result (r : TxAcceptanceResult) : Promotion :=
  match r with
  | TxAccepted => Promoted
  | TxOrphan => ParkedAgain
  | _ => PromotionDropped
  end.

Section promotion.
Context `{HashOrder} (accept : Transaction -> ChainState -> option (Promotion * ChainState)).

(** One ready orphan; the flag is [promoted_any]. *)
Definition promote_one (acc : bool * ChainState) (txid : Hash) : option (bool * ChainState) :=
  let '(promoted_any, state) := acc in
  match mp_orphan_transactions (cs_mempool state) !! txid with
  | None => Some (promoted_any, state)
  | Some tx =>
      match accept tx (state <| cs_mempool ::= remove_orphan_transaction txid |>) with
      | None => None
      | Some (Promoted, state) => Some (true, state <| cs_mempool ::= count_promoted |>)
      | Some (StoreAgain, state) => Some (promoted_any, store_orphan_transaction tx state)
      | Some (ParkedAgain, state) => Some (promoted_any, state)
      | Some (PromotionDropped, state) => Some (promoted_any, state <| cs_mempool ::= count_dropped |>)
      end
  end.
Fixpoint promote_all (acc : bool * ChainState) (ready : list Hash) : option (bool * ChainState) :=
  match ready with
  | [] => Some acc
  | txid :: ready' => match promote_one acc txid with
                      | Some acc => promote_all acc ready'
                      | None => None
                      end
  end.
Definition ready_orphans (state : ChainState) : list Hash :=
  isort String.le (map fst (filter (fun p => missing_transaction_inputs p.2 state = [])
    (map_iter (mp_orphan_transactions (cs_mempool state))))).
(** [promote_ready_orphans]: the outer loop. *)
Fixpoint promote_loop (fuel : nat) (state : ChainState) : option ChainState :=
  match fuel with
  | O => None
  | S fuel' =>
      match ready_orphans state with
      | [] => Some state
      | ready =>
          match promote_all (false, state) ready with
          | None => None
          | Some (true, state) => promote_loop fuel' state
          | Some (false, state) => Some state
          end
      end
  end.
End promotion.

(** ** Acceptance *)

(** [mempool_needs_reconcile]: the set of spent outpoints, [None] at a repetition. *)
Definition spend_once (acc : option (gset OutPoint)) (input : TxInput) : option (gset OutPoint) :=
  match acc with
  | Some spent => if decide (in_previous_output input ∈ spent) then None
                  else Some ({[in_previous_output input]} ∪ spent)
  | None => None
  end.
Definition mempool_needs_reconcile `{HashOrder} (state : ChainState) : bool :=
  match foldl (fun acc p => foldl spend_once acc (tx_inputs p.2)) (Some ∅)
          (map_iter (mp_transactions (cs_mempool state))) with
  | None => true
  | Some expected_spent => negb (bool_decide (expected_spent = mp_spent_outpoints (cs_mempool state)))
  end.

Definition capacity_message (used incoming max : Z) : string :=
  "mempool spent-outpoint capacity exceeded (used=" +:+ pretty used +:+ " incoming=" +:+ pretty incoming
  +:+ " max=" +:+ pretty max +:+ ")".
Definition backpressure_message (mp : Mempool) : string :=
  let tx_pressure_bps := mempool_pressure_bps (Z.of_nat (size (mp_transactions mp))) (mp_max_transactions mp) in
  let orphan_pressure_bps := mempool_pressure_bps (Z.of_nat (size (mp_orphan_transactions mp))) (mp_max_orphans mp) in
  "mempool backpressure active (tier="
  +:+ MempoolPressureTier_as_str (combined_pressure_tier tx_pressure_bps orphan_pressure_bps)
  +:+ " tx_pressure_bps=" +:+ pretty tx_pressure_bps +:+ " orphan_pressure_bps=" +:+ pretty orphan_pressure_bps
  +:+ " high_bps=" +:+ pretty MEMPOOL_PRESSURE_HIGH_BPS +:+ " saturated_bps="
  +:+ pretty MEMPOOL_PRESSURE_SATURATED_BPS +:+ "): transaction priority below threshold".

(** One member of the evicted package, with the count of those that were there. *)
Definition evict_one (acc : Z * Mempool) (txid : Hash) : Z * Mempool :=
  let '(count, mp) := acc in
  match mp_transactions mp !! txid with
  | None => acc
  | Some evicted =>
      let mp := mp <| mp_transactions ::= delete txid |>
                   <| mp_first_seen ::= delete txid |>
                   <| mp_admission_height ::= delete txid |> in
      (saturating_add 64 count 1,
       foldl (fun mp input => mp <| mp_spent_outpoints ::= fun s => s ∖ {[in_previous_output input]} |>)
         mp (tx_inputs evicted))
  end.
Definition evict_package (package : gset Hash) (mp : Mempool) : Mempool :=
  let '(evicted_count, mp) := foldl evict_one (0, mp) (btree_iter package) in
  mp <| mp_counters ::= fun c => c <| mc_evicted_total := saturating_add 64 (mc_evicted_total c) evicted_count |> |>.

(** What a full pool does: a rejection, or the pool with a package evicted. *)
Definition make_room `{HashOrder} (tx : Transaction) (state : ChainState)
  : option (result TxAcceptanceResult unit * ChainState) :=
  let state := state <| cs_mempool ::= count_pressure |> in
  match lowest_priority_txid state with
  | None => Some (Err (TxRejected "mempool pressure detected with no eviction candidate"), state)
  | Some lowest_txid =>
      let children := build_mempool_children state in
      match collect_ancestor_set tx state, incoming_package_score tx state,
            eviction_candidates state lowest_txid with
      | Some protected_ancestors, Some candidate_score, Some candidates =>
          match select_package tx state children protected_ancestors candidate_score candidates with
          | None => None
          | Some None =>
              Some (Err (TxRejected (backpressure_message (cs_mempool state))),
                    state <| cs_mempool ::= count_rejected |> <| cs_mempool ::= count_low_priority |>)
          | Some (Some package) => Some (Ok tt, state <| cs_mempool ::= evict_package package |>)
          end
      | _, _, _ => None
      end
  end.

(** The insertion at the end. *)
Definition insert_transaction `{HashOrder} (tx : Transaction) (state : ChainState) : ChainState :=
  let state := state <| cs_mempool ::= fun mp =>
    foldl (fun mp input => mp <| mp_spent_outpoints ::= fun s => {[in_previous_output input]} ∪ s |>)
      mp (tx_inputs tx) |> in
  let sequence := mp_next_first_seen (cs_mempool state) in
  let state := state <| cs_mempool ::= fun mp => mp <| mp_next_first_seen := saturating_add 64 sequence 1 |>
                                                    <| mp_first_seen ::= <[tx_txid tx := sequence]> |> |> in
  let state := record_mempool_admission_height (tx_txid tx) state in
  state <| cs_mempool ::= fun mp =>
    mp <| mp_transactions ::= <[tx_txid tx := tx]> |>
       <| mp_counters ::= fun c => c <| mc_accepted_total := saturating_add 64 (mc_accepted_total c) 1 |> |> |>.

(** [accept_transaction]'s view of a result. *)
Definition result_to_outcome (r : TxAcceptanceResult) : outcome unit :=
  match r with
  | TxAccepted | TxOrphan => Ok tt
  | TxDuplicate => fails TxAlreadyExists
  | TxInvalid reason => if bool_decide (reason = "double spend") then fails DoubleSpend
                        else fails (InvalidTransaction reason)
  | TxRejected reason => fails (InvalidTransaction reason)
  end.

Section accept.
Context `{HashOrder, Crypto, CarrierJson, ErrorText} (rules : AdmissionRules).

(** Steps before the insertion: an early result, or [Ok] to insert. *)
Definition try_admit (tx : Transaction) (state : ChainState)
  : option (result TxAcceptanceResult unit * ChainState) :=
  if bool_decide (is_Some (mp_transactions (cs_mempool state) !! tx_txid tx))
     || bool_decide (is_Some (mp_orphan_transactions (cs_mempool state) !! tx_txid tx))
  then Some (Err TxDuplicate, state <| cs_mempool ::= count_rejected |>) else
  match ar_validate rules tx state with
  | Err None => None
  | Err (Some UtxoNotFound) => Some (Err TxOrphan, store_orphan_transaction tx state)
  | Err (Some err) => Some (Err (classify_tx_validation_error err), state <| cs_mempool ::= count_rejected |>)
  | Ok _ =>
      let mp := cs_mempool state in
      let incoming_spent := Z.of_nat (length (tx_inputs tx)) in
      let used := Z.of_nat (size (mp_spent_outpoints mp)) in
      if mp_max_spent_outpoints mp <? saturating_add 64 used incoming_spent
      then Some (Err (TxRejected (capacity_message used incoming_spent (mp_max_spent_outpoints mp))),
                 state <| cs_mempool ::= count_pressure |> <| cs_mempool ::= count_rejected |>)
      else if mp_max_transactions mp <=? Z.of_nat (size (mp_transactions mp))
      then make_room tx state
      else Some (Ok tt, state)
  end.

(** The admission by a policy around an acceptance. *)
Definition policy_admission (policy : MempoolPolicyV3)
  (accept : Transaction -> ChainState -> option (TxAcceptanceResult * ChainState))
  (tx : Transaction) (state : ChainState) : option (TxAcceptanceResult * ChainState) :=
  match preflight_policy_v3 tx policy state with
  | None => None
  | Some (Err r, state) => Some (r, state)
  | Some (Ok _, state) =>
      match reject_conflicting_mempool_package_v3 tx state with
      | None => None
      | Some (Err r, state) => Some (r, state)
      | Some (Ok _, state) =>
          match accept tx state with
          | Some (r, state) => Some (normalize_live_result_v3 r, state)
          | None => None
          end
      end
  end.
(** The check a protocol makes before an acceptance; the legacy rules have none. *)
Definition after_preflight (accept : Transaction -> ChainState -> option (TxAcceptanceResult * ChainState))
  (tx : Transaction) (state : ChainState) : option (TxAcceptanceResult * ChainState) :=
  match ar_preflight rules tx state with
  | Err None => None
  | Err (Some err) => Some (classify_tx_validation_error err, state <| cs_mempool ::= count_rejected |>)
  | Ok _ => accept tx state
  end.
(** How an orphan is accepted again. *)
Definition promotion_accept (promotion_policy : option MempoolPolicyV3)
  (accept : Transaction -> ChainState -> option (TxAcceptanceResult * ChainState))
  (tx : Transaction) (state : ChainState) : option (Promotion * ChainState) :=
  match promotion_policy with
  | Some policy =>
      match policy_admission policy (after_preflight accept) tx state with
      | Some (r, state) => Some (promotion_of_result r, state)
      | None => None
      end
  | None =>
      match after_preflight accept tx state with
      | Some (r, state) => Some (promotion_of_outcome (result_to_outcome r), state)
      | None => None
      end
  end.

(** [accept_transaction_with_result_internal]. *)
Fixpoint accept_internal (promotion_policy : option MempoolPolicyV3) (fuel : nat) (tx : Transaction)
  (state : ChainState) : option (TxAcceptanceResult * ChainState) :=
  match fuel with
  | O => None
  | S fuel' =>
      let reconciled :=
        if mempool_needs_reconcile state then ar_reconcile rules state else Ok state in
      match reconciled with
      | Err None => None
      | Err (Some err) => Some (classify_tx_validation_error err, state <| cs_mempool ::= count_rejected |>)
      | Ok state =>
          match try_admit tx state with
          | None => None
          | Some (Err r, state) => Some (r, state)
          | Some (Ok _, state) =>
              let state := insert_transaction tx state in
              match promote_loop (promotion_accept promotion_policy (accept_internal promotion_policy fuel'))
                      (S (size (mp_orphan_transactions (cs_mempool state)))) state with
              | Some state => Some (TxAccepted, state)
              | None => None
              end
          end
      end
  end.
(** One level per orphan of the pool, and one for the transaction itself. *)
Definition accept_fuel (state : ChainState) : nat := S (size (mp_orphan_transactions (cs_mempool state))).
Definition accept_with_rules (promotion_policy : option MempoolPolicyV3) (tx : Transaction) (state : ChainState)
  : option (TxAcceptanceResult * ChainState) :=
  after_preflight (accept_internal promotion_policy (accept_fuel state)) tx state.
(** An acceptance under a policy. *)
Definition accept_with_policy (policy : MempoolPolicyV3) (tx : Transaction) (state : ChainState)
  : option (TxAcceptanceResult * ChainState) :=
  policy_admission policy (fun tx state => accept_with_rules (Some policy) tx state) tx state.
End accept.

Section entry_points.
Context `{Crypto, HashOrder, CarrierJson, ErrorText}.
Definition accept_transaction_with_result (tx : Transaction) (state : ChainState)
  : option (TxAcceptanceResult * ChainState) :=
  accept_with_rules (admission_rules ValidationLegacyV1) None tx state.
Definition accept_transaction_with_result_for_protocol (identity : ProtocolActivationIdentity)
  (tx : Transaction) (state : ChainState) : option (TxAcceptanceResult * ChainState) :=
  accept_with_rules (admission_rules (ValidationProtocol identity)) None tx state.
Definition accept_transaction (tx : Transaction) (state : ChainState) : option (outcome unit * ChainState) :=
  match accept_transaction_with_result tx state with
  | Some (r, state) => Some (result_to_outcome r, state)
  | None => None
  end.
Definition accept_transaction_for_protocol (identity : ProtocolActivationIdentity) (tx : Transaction)
  (state : ChainState) : option (outcome unit * ChainState) :=
  match accept_transaction_with_result_for_protocol identity tx state with
  | Some (r, state) => Some (result_to_outcome r, state)
  | None => None
  end.
Definition accept_transaction_with_mempool_policy_v3 (policy : MempoolPolicyV3) (tx : Transaction)
  (state : ChainState) : option (TxAcceptanceResult * ChainState) :=
  accept_with_policy (admission_rules ValidationLegacyV1) policy tx state.
Definition accept_transaction_with_mempool_policy_v3_for_protocol (identity : ProtocolActivationIdentity)
  (policy : MempoolPolicyV3) (tx : Transaction) (state : ChainState) : option (TxAcceptanceResult * ChainState) :=
  accept_with_policy (admission_rules (ValidationProtocol identity)) policy tx state.
End entry_points.

(** ** Reconciliation with the production policy *)

Section policy_reconcile.
Context `{HashOrder, Crypto, CarrierJson}.

(** [None] is a panic of a serializer. *)
Definition persisted_transaction_passes_production_fee_policy_v3 (tx : Transaction) (state : ChainState)
  : option bool :=
  match assess_transaction policy_production_default tx (cs_chain_id state) 0 false with
  | Ok _ => Some true
  | Err (Some _) => Some false
  | Err None => None
  end.
Definition prune_policy_live (acc : list Hash * ChainState) (txid : Hash) : result unit (list Hash * ChainState) :=
  let '(removed_live, state) := acc in
  match mp_transactions (cs_mempool state) !! txid with
  | None => Ok acc
  | Some tx =>
      match persisted_transaction_passes_production_fee_policy_v3 tx state with
      | None => Err tt
      | Some true => Ok acc
      | Some false =>
          let mp := (cs_mempool state) <| mp_transactions ::= delete txid |> in
          let mp := foldl (fun mp input => mp <| mp_spent_outpoints ::= fun s => s ∖ {[in_previous_output input]} |>)
                      mp (tx_inputs tx) in
          let mp := mp <| mp_first_seen ::= delete txid |> <| mp_admission_height ::= delete txid |> in
          Ok (removed_live ++ [txid], state <| cs_mempool := count_rejected mp |>)
      end
  end.
Definition prune_policy_orphan (state : ChainState) (txid : Hash) : result unit ChainState :=
  match mp_orphan_transactions (cs_mempool state) !! txid with
  | None => Ok state
  | Some tx =>
      match persisted_transaction_passes_production_fee_policy_v3 tx state with
      | None => Err tt
      | Some true => Ok state
      | Some false => Ok (state <| cs_mempool ::= fun mp => count_dropped (count_rejected (remove_orphan_transaction txid mp)) |>)
      end
  end.
Definition count_reconcile_removed (n : nat) (mp : Mempool) : Mempool :=
  mp <| mp_counters ::= fun c => c
    <| mc_reconcile_removed_total := saturating_add 64 (mc_reconcile_removed_total c) (Z.of_nat n) |> |>.
Definition prune_persisted_production_fee_policy_v3 (state : ChainState) : result unit (list Hash * ChainState) :=
  let? p := try_fold prune_policy_live ([], state) (sorted_ids (mp_transactions (cs_mempool state))) in
  let '(removed_live, state) := p in
  let state := state <| cs_mempool ::= count_reconcile_removed (length removed_live) |> in
  let? state := try_fold prune_policy_orphan state (sorted_ids (mp_orphan_transactions (cs_mempool state))) in
  Ok (removed_live, state).
Definition combine_policy_and_consensus_removed_v3 (policy_removed : list Hash) (r : MempoolReconcileResult)
  : MempoolReconcileResult :=
  mkMempoolReconcileResult (sort_dedup (policy_removed ++ mr_removed_txids r)) (mr_kept_txids r).

(** Both reconciliations, by what they call in the middle; [None] is a panic. *)
Definition policy_reconcile (reconcile : ChainState -> option (outcome MempoolReconcileResult * ChainState))
  (state : ChainState) : option (outcome MempoolReconcileResult * ChainState) :=
  match normalize_production_mempool_resources_v1 state with
  | None => None
  | Some (first, state) =>
      match prune_persisted_production_fee_policy_v3 state with
      | Err _ => None
      | Ok (pruned, state) =>
          match reconcile state with
          | None => None
          | Some (Err err, state) => Some (Err err, state)
          | Some (Ok r, state) =>
              match normalize_production_mempool_resources_v1 state with
              | None => None
              | Some (last, state) =>
                  Some (Ok (combine_policy_and_consensus_removed_v3
                              (rn_removed_live_txids first ++ pruned ++ rn_removed_live_txids last) r), state)
              end
          end
      end
  end.
Definition reconcile_mempool_with_production_policy_v3 (state : ChainState)
  : option (outcome MempoolReconcileResult * ChainState) :=
  policy_reconcile (fun state => match reconcile_mempool state with
                                 | Ok (r, state) => Some (Ok r, state)
                                 | Err _ => None
                                 end) state.
Definition reconcile_mempool_with_production_policy_v3_for_protocol (identity : ProtocolActivationIdentity)
  (state : ChainState) : option (outcome MempoolReconcileResult * ChainState) :=
  match resolve_transaction_validation_path identity state with
  | Err None => None
  | Err err => Some (Err err, state)
  | Ok _ =>
      policy_reconcile (fun state => match reconcile_mempool_for_protocol identity state with
                                     | Ok (r, state) => Some (Ok r, state)
                                     | Err None => None
                                     | Err err => Some (Err err, state)
                                     end) state
  end.
End policy_reconcile.
