(* ===== verification/TxAdmissionProps.v ===== *)
(** * Correctness of transaction admission ([TxAdmission])

    Whatever rules an admission follows, as long as they keep the promises of
    [AdmissionLaws], it terminates, the pool stays free of double spends, its
    index of spent outpoints stays exact, no transaction loses an input, and the
    limits of the pool hold.  The legacy rules keep those promises. *)

From stdpp Require Import pretty.
From S2P Require Import Prelude Encoding Crypto Types Merkle State Tx TxV3 Graph Pow.
From S2P Require Import Selection Retarget Ghostdag Ordering Mining Genesis Apply ApplyProps.
From S2P Require Import Validation ValidationProps Mempool MempoolProps Commit MempoolV3 MempoolResource.
From S2P Require Import MempoolResourceProps DagInvariant CommitProps ApplyBlockProps Accept.
From S2P Require Import Headers Protocol ReplayV3 ReplacementV3 TxAdmission.

(** ** The pool *)

Abbreviation txs_of s := (mp_transactions (cs_mempool s)).
Abbreviation orphans_of s := (mp_orphan_transactions (cs_mempool s)).
Abbreviation outs tx := (spent_outpoints (tx_inputs tx)).
Definition pool_txs (s : ChainState) : list Transaction := map snd (map_to_list (txs_of s)).

#[global] Instance all_spent_perm : Proper ((≡ₚ) ==> (≡ₚ)) all_spent.
Proof. intros l l' Hl. unfold all_spent. by rewrite Hl. Qed.
Lemma elem_of_pool_txs s tx : tx ∈ pool_txs s <-> exists id, txs_of s !! id = Some tx.
Proof.
  unfold pool_txs. rewrite list_elem_of_fmap. split.
  - intros ([id x] & -> & Hin%elem_of_map_to_list). by exists id.
  - intros [id Hid]. exists (id, tx). by rewrite elem_of_map_to_list.
Qed.

(** No outpoint is spent twice, and the index of spent outpoints is exact. *)
Definition pool_consistent (s : ChainState) : Prop :=
  NoDup (all_spent (pool_txs s)) /\
  forall o, o ∈ mp_spent_outpoints (cs_mempool s) <-> o ∈ all_spent (pool_txs s).
(** Every input of the pool is an unspent output or an output of the pool. *)
Definition pool_available (s : ChainState) : Prop :=
  forall id tx i, txs_of s !! id = Some tx -> i ∈ tx_inputs tx ->
    is_Some (tx_output_amount s (in_previous_output i)).

Lemma spend_once_fold inputs acc :
  foldl spend_once acc inputs =
  match acc with
  | Some spent =>
      if bool_decide (NoDup (spent_outpoints inputs) /\ Forall (fun o => o ∉ spent) (spent_outpoints inputs))
      then Some (list_to_set (spent_outpoints inputs) ∪ spent) else None
  | None => None
  end.
Proof.
  revert acc. induction inputs as [|i inputs IH]; intros acc; cbn [foldl].
  { destruct acc; [|done]. rewrite bool_decide_eq_true_2 by (by repeat constructor). f_equal. cbn. set_solver. }
  rewrite IH. clear IH. destruct acc as [spent|]; cbn [spend_once]; [|done].
  case_decide as Hi.
  - rewrite bool_decide_eq_false_2; [done|]. intros [_ Hf]. by apply Forall_cons in Hf as [? _].
  - set (os := spent_outpoints inputs). change (spent_outpoints (i :: inputs)) with (in_previous_output i :: os).
    set (o := in_previous_output i) in *.
    assert (Hiff : (NoDup os /\ Forall (fun x => x ∉ {[o]} ∪ spent) os) <->
      (NoDup (o :: os) /\ Forall (fun x => x ∉ spent) (o :: os))).
    { rewrite NoDup_cons, Forall_cons, !Forall_forall. set_solver. }
    rewrite (bool_decide_ext _ _ Hiff). case_bool_decide; [|done]. f_equal. cbn. set_solver.
Qed.
Lemma spend_once_pool `{HashOrder} (m : gmap Hash Transaction) :
  foldl (fun acc p => foldl spend_once acc (tx_inputs p.2)) (Some ∅) (map_iter m) =
  foldl spend_once (Some ∅) (concat (map (fun p => tx_inputs p.2) (map_iter m))).
Proof.
  generalize (Some (∅ : gset OutPoint)). induction (map_iter m) as [|p l IH]; intros acc; [done|].
  cbn. by rewrite foldl_app, IH.
Qed.
Lemma all_spent_concat l : spent_outpoints (concat (map tx_inputs l)) = all_spent l.
Proof.
  unfold all_spent, spent_outpoints. induction l as [|tx l IH]; [done|]. cbn. by rewrite map_app, IH.
Qed.
Lemma needs_reconcile_false `{HashOrder} s : mempool_needs_reconcile s = false <-> pool_consistent s.
Proof.
  unfold mempool_needs_reconcile. rewrite spend_once_pool, spend_once_fold.
  assert (Hp : spent_outpoints (concat (map (fun p => tx_inputs p.2) (map_iter (txs_of s)))) ≡ₚ
    all_spent (pool_txs s)).
  { rewrite <- (map_map snd tx_inputs), all_spent_concat. unfold pool_txs. by rewrite map_iter_perm. }
  unfold pool_consistent. rewrite <- Hp. set (os := spent_outpoints _).
  case_bool_decide as Hn.
  - rewrite negb_false_iff, bool_decide_eq_true. destruct Hn as [Hn _]. split.
    + intros <-. split; [done|]. intros o. rewrite <- Hp. fold os. set_solver.
    + intros [_ Ho]. apply set_eq. intros o. rewrite Ho, <- Hp. fold os. set_solver.
  - split; [done|]. intros [Hd _]. exfalso. apply Hn. split; [done|]. apply Forall_forall. set_solver.
Qed.

(** ** What every operation keeps *)

Section pool.
Context (fine : Transaction -> Prop).

Definition entries_fine (m : gmap Hash Transaction) : Prop := map_Forall (fun id tx => tx_txid tx = id /\ fine tx) m.
Record pool_sound (s : ChainState) : Prop := {
  pl_live : entries_fine (txs_of s);
  pl_orphans : entries_fine (orphans_of s);
  pl_consistent : pool_consistent s;
}.
Definition same_limits (mp mp' : Mempool) : Prop :=
  mp_max_transactions mp' = mp_max_transactions mp /\ mp_max_spent_outpoints mp' = mp_max_spent_outpoints mp /\
  mp_max_orphans mp' = mp_max_orphans mp.
Record keeps (s s' : ChainState) : Prop := {
  ke_utxo : cs_utxo s' = cs_utxo s;
  ke_dag : cs_dag s' = cs_dag s;
  ke_chain : cs_chain_id s' = cs_chain_id s;
  ke_limits : same_limits (cs_mempool s) (cs_mempool s');
  ke_ok : pool_sound s -> pool_sound s';
  ke_available : pool_sound s -> pool_available s -> pool_available s';
}.
(** A limit that held still holds; one that was exceeded is not exceeded further.
    The spent outpoints are counted up to [u64::MAX], as the code does. *)
Record limits_kept (s s' : ChainState) : Prop := {
  bo_live : Z.of_nat (size (txs_of s')) <= Z.max (Z.of_nat (size (txs_of s))) (mp_max_transactions (cs_mempool s));
  bo_spent : Z.min (Z.of_nat (size (mp_spent_outpoints (cs_mempool s')))) u64_max <=
    Z.max (Z.of_nat (size (mp_spent_outpoints (cs_mempool s)))) (mp_max_spent_outpoints (cs_mempool s));
  bo_orphans : Z.of_nat (size (orphans_of s')) <=
    Z.max (Z.of_nat (size (orphans_of s))) (mp_max_orphans (cs_mempool s));
}.
Definition step (s s' : ChainState) : Prop := keeps s s' /\ (pool_sound s -> limits_kept s s').

#[global] Instance keeps_preorder : PreOrder keeps.
Proof.
  split.
  - intros s. by split.
  - intros s1 s2 s3 [A1 A2 A3 (A4 & A5 & A6) A7 A8] [B1 B2 B3 (B4 & B5 & B6) B7 B8].
    split; [congruence..| | |]; [split_and!; congruence|auto|auto].
Qed.
#[global] Instance step_preorder : PreOrder step.
Proof.
  split.
  - intros s. split; [done|]. intros _. split; lia.
  - intros s1 s2 s3 [K1 B1] [K2 B2]. split; [by etransitivity|]. intros Hok.
    destruct (B1 Hok) as [L1 S1 O1], (B2 (ke_ok _ _ K1 Hok)) as [L2 S2 O2].
    destruct (ke_limits _ _ K1) as (E1 & E2 & E3). rewrite E1 in L2. rewrite E2 in S2. rewrite E3 in O2.
    split; lia.
Qed.

Lemma tx_output_amount_same s s' o :
  cs_utxo s' = cs_utxo s -> txs_of s' = txs_of s -> tx_output_amount s' o = tx_output_amount s o.
Proof. intros Hu Ht. unfold tx_output_amount. by rewrite Hu, Ht. Qed.

(** Counters and orphan bookkeeping do not touch the live pool. *)
Lemma keeps_same_pool s s' :
  cs_utxo s' = cs_utxo s -> cs_dag s' = cs_dag s -> cs_chain_id s' = cs_chain_id s ->
  same_limits (cs_mempool s) (cs_mempool s') -> txs_of s' = txs_of s ->
  mp_spent_outpoints (cs_mempool s') = mp_spent_outpoints (cs_mempool s) ->
  (entries_fine (orphans_of s) -> entries_fine (orphans_of s')) -> keeps s s'.
Proof.
  intros Hu Hd Hc Hl Ht Hs Ho. split; [done..| |].
  - intros [L O [C1 C2]]. split; [by rewrite Ht|auto|]. unfold pool_consistent, pool_txs. by rewrite Ht, Hs.
  - intros _ Ha id tx i. rewrite Ht. rewrite (tx_output_amount_same s s') by done. apply Ha.
Qed.
Lemma step_same s s' :
  cs_utxo s' = cs_utxo s -> cs_dag s' = cs_dag s -> cs_chain_id s' = cs_chain_id s ->
  same_limits (cs_mempool s) (cs_mempool s') -> txs_of s' = txs_of s ->
  mp_spent_outpoints (cs_mempool s') = mp_spent_outpoints (cs_mempool s) ->
  orphans_of s' = orphans_of s -> step s s'.
Proof.
  intros Hu Hd Hc Hl Ht Hs Ho. split; [apply keeps_same_pool; try done; by rewrite Ho|].
  intros _. split; rewrite ?Ht, ?Hs, ?Ho; lia.
Qed.

(** *** Insertion *)

(** A transaction the pool can take. *)
Record usable (tx : Transaction) (s : ChainState) : Prop := {
  us_distinct : NoDup (outs tx);
  us_known : forall i, i ∈ tx_inputs tx -> is_Some (tx_output_amount s (in_previous_output i));
  us_unspent : forall i, i ∈ tx_inputs tx -> in_previous_output i ∉ mp_spent_outpoints (cs_mempool s);
}.

Lemma insert_spent_fold inputs mp :
  foldl (fun mp input => mp <| mp_spent_outpoints ::= fun s => {[in_previous_output input]} ∪ s |>) mp inputs =
  mp <| mp_spent_outpoints ::= fun s => list_to_set (spent_outpoints inputs) ∪ s |>.
Proof.
  revert mp. induction inputs as [|i inputs IH]; intros mp.
  - destruct mp. cbn. f_equal. set_solver.
  - cbn [foldl]. rewrite IH. destruct mp. cbn. f_equal. set_solver.
Qed.
(** [s'] is [s] with [tx] in the pool. *)
Record inserted (tx : Transaction) (s s' : ChainState) : Prop := {
  is_utxo : cs_utxo s' = cs_utxo s;
  is_dag : cs_dag s' = cs_dag s;
  is_chain : cs_chain_id s' = cs_chain_id s;
  is_limits : same_limits (cs_mempool s) (cs_mempool s');
  is_txs : txs_of s' = <[tx_txid tx := tx]> (txs_of s);
  is_spent : mp_spent_outpoints (cs_mempool s') = list_to_set (outs tx) ∪ mp_spent_outpoints (cs_mempool s);
  is_orphans : orphans_of s' = orphans_of s;
}.
Lemma insert_transaction_pool `{HashOrder} tx s : inserted tx s (insert_transaction tx s).
Proof. unfold insert_transaction, record_mempool_admission_height. cbn. rewrite insert_spent_fold. by split. Qed.

Lemma inserted_consistent tx s s' :
  inserted tx s s' -> txs_of s !! tx_txid tx = None -> usable tx s -> pool_consistent s -> pool_consistent s'.
Proof.
  intros [E1 E2 E3 E4 E5 E6 E7] Hn [Hd Hk Hu] [C1 C2].
  assert (Hp : pool_txs s' ≡ₚ tx :: pool_txs s).
  { unfold pool_txs. rewrite E5, map_to_list_insert by done. done. }
  split.
  - rewrite Hp. unfold all_spent. cbn. apply NoDup_app. split; [done|]. split; [|done].
    intros o Ho Ho'. apply C2 in Ho'. unfold spent_outpoints in Ho. apply list_elem_of_fmap in Ho as (i & -> & Hi).
    by apply (Hu i).
  - intros o. rewrite E6, Hp. unfold all_spent. cbn. rewrite elem_of_union, elem_of_app, elem_of_list_to_set.
    by rewrite C2.
Qed.
Lemma inserted_available tx s s' :
  inserted tx s s' -> txs_of s !! tx_txid tx = None -> usable tx s -> pool_available s -> pool_available s'.
Proof.
  intros [E1 E2 E3 E4 E5 E6 E7] Hn [Hd Hk Hu] Ha id x i. rewrite E5. intros Hx Hi.
  apply (tx_output_amount_mono s); [done| |].
  - intros id' y Hy. rewrite E5. rewrite lookup_insert_ne; [done|]. congruence.
  - apply lookup_insert_Some in Hx as [[<- <-]|[_ Hx]]; [by apply Hk|by eapply Ha].
Qed.
Lemma insert_keeps `{HashOrder} tx s :
  fine tx -> txs_of s !! tx_txid tx = None -> usable tx s -> keeps s (insert_transaction tx s).
Proof.
  intros Hf Hn Hus. pose proof (insert_transaction_pool tx s) as Hi. split; [apply Hi..| |].
  - intros [L O C]. split; [rewrite (is_txs _ _ _ Hi); by apply map_Forall_insert_2|by rewrite (is_orphans _ _ _ Hi)|].
    by eapply inserted_consistent.
  - intros _ Ha. by eapply inserted_available.
Qed.

(** *** Eviction *)

Lemma remove_spent_fold inputs mp :
  foldl (fun mp input => mp <| mp_spent_outpoints ::= fun s => s ∖ {[in_previous_output input]} |>) mp inputs =
  mp <| mp_spent_outpoints ::= fun s => s ∖ list_to_set (spent_outpoints inputs) |>.
Proof.
  revert mp. induction inputs as [|i inputs IH]; intros mp.
  - destruct mp. cbn. f_equal. set_solver.
  - cbn [foldl]. rewrite IH. destruct mp. cbn. f_equal. set_solver.
Qed.
Record evicted (ids : list Hash) (mp mp' : Mempool) : Prop := {
  ev_txs : mp_transactions mp' = filter (fun p => p.1 ∉ ids) (mp_transactions mp);
  ev_spent : forall o, o ∈ mp_spent_outpoints mp' <-> o ∈ mp_spent_outpoints mp /\
    forall id tx, id ∈ ids -> mp_transactions mp !! id = Some tx -> o ∉ outs tx;
  ev_orphans : mp_orphan_transactions mp' = mp_orphan_transactions mp;
  ev_limits : same_limits mp mp';
}.
Lemma evict_fold ids acc : NoDup ids -> evicted ids acc.2 (foldl evict_one acc ids).2.
Proof.
  intros Hnd. revert acc. induction Hnd as [|id ids Hid Hnd IH]; intros [n mp]; cbn [foldl].
  { split; [|set_solver|done|done]. symmetry. apply map_filter_id. intros ? ? _. apply not_elem_of_nil. }
  cbn [evict_one snd]. destruct (mp_transactions mp !! id) as [tx|] eqn:Etx.
  - rewrite remove_spent_fold. match goal with |- evicted _ _ (foldl evict_one (?c, ?m) ids).2 => set (mp1 := m); set (n1 := c) end.
    destruct (IH (n1, mp1)) as [I1 I2 I3 I4]. cbn [snd] in *. split.
    + rewrite I1. apply map_eq. intros k. apply option_eq. intros x. rewrite !map_lookup_filter_Some. cbn.
      rewrite lookup_delete_Some, not_elem_of_cons. naive_solver.
    + intros o. rewrite I2. cbn. rewrite elem_of_difference, elem_of_list_to_set. split.
      * intros [[Ho Hn] Hall]. split; [done|]. intros k y [->|Hk]%elem_of_cons Hy; [congruence|].
        apply (Hall k y Hk). rewrite lookup_delete_ne; [done|]. intros ->. done.
      * intros [Ho Hall]. split; [split; [done|apply (Hall id tx); [left|done]]|].
        intros k y Hk [_ Hy]%lookup_delete_Some. apply (Hall k y); [by right|done].
    + by rewrite I3.
    + done.
  - destruct (IH (n, mp)) as [I1 I2 I3 I4]. cbn [snd] in *. split; [|intros o; rewrite I2|done|done].
    + rewrite I1. apply map_filter_ext. intros k x Hk. cbn. rewrite not_elem_of_cons. naive_solver congruence.
    + split; intros [Ho Hall]; (split; [done|]); intros k y Hk Hy; [|apply (Hall k y); [by right|done]].
      apply elem_of_cons in Hk as [->|Hk]; [congruence|by apply (Hall k y)].
Qed.
Lemma evict_package_spec package mp : evicted (btree_iter package) mp (evict_package package mp).
Proof.
  unfold evict_package. pose proof (evict_fold (btree_iter package) (0, mp) (NoDup_btree_iter package)) as He.
  destruct (foldl evict_one _ _) as [n mp']. cbn in *. destruct He as [E1 E2 E3 E4]. by split.
Qed.

Lemma pool_txs_split (m : gmap Hash Transaction) (P : Hash * Transaction -> Prop) `{!forall p, Decision (P p)} :
  map snd (map_to_list m) ≡ₚ
  map snd (map_to_list (filter P m)) ++ map snd (map_to_list (filter (fun p => ~ P p) m)).
Proof.
  rewrite <- map_app. apply Permutation_map. apply NoDup_Permutation.
  - apply NoDup_map_to_list.
  - apply NoDup_app. split; [apply NoDup_map_to_list|]. split; [|apply NoDup_map_to_list].
    intros [k x] [_ Hk]%elem_of_map_to_list%map_lookup_filter_Some [_ Hk']%elem_of_map_to_list%map_lookup_filter_Some. done.
  - intros [k x]. rewrite elem_of_app, !elem_of_map_to_list, !map_lookup_filter_Some.
    destruct (decide (P (k, x))); naive_solver.
Qed.

(** Evicting whole families keeps the pool sound. *)
Lemma evict_keeps s s' package :
  cs_utxo s' = cs_utxo s -> cs_dag s' = cs_dag s -> cs_chain_id s' = cs_chain_id s ->
  evicted (btree_iter package) (cs_mempool s) (cs_mempool s') ->
  (forall id tx i, txs_of s !! id = Some tx -> i ∈ tx_inputs tx ->
     op_txid (in_previous_output i) ∈ package -> id ∈ package) ->
  keeps s s'.
Proof.
  intros Hu Hd Hc [E1 E2 E3 E4] Hcl. split; [done..| |].
  - intros [L O [C1 C2]]. split; [|by rewrite E3|].
    { rewrite E1. intros id tx [Htx _]%map_lookup_filter_Some. by apply L. }
    pose proof (pool_txs_split (txs_of s) (fun p => p.1 ∉ btree_iter package)) as Hsp.
    rewrite <- E1 in Hsp. fold (pool_txs s) (pool_txs s') in Hsp.
    assert (Has : all_spent (pool_txs s) ≡ₚ all_spent (pool_txs s') ++ all_spent
      (map snd (map_to_list (filter (fun p => ~ (p.1 ∉ btree_iter package)) (txs_of s))))).
    { rewrite Hsp. unfold all_spent. by rewrite map_app, concat_app. }
    rewrite Has in C1. apply NoDup_app in C1 as (N1 & N2 & _). split; [done|]. intros o. rewrite E2, C2, Has, elem_of_app.
    split.
    + intros [[Ho|Ho] Hall]; [done|]. exfalso. apply elem_of_all_spent in Ho as (tx & Htx & Ho).
      apply list_elem_of_fmap in Htx as ([id x] & -> & Hx%elem_of_map_to_list). apply map_lookup_filter_Some in Hx as [Hx Hin].
      apply dec_stable in Hin. by apply (Hall id x).
    + intros Ho. split; [by left|]. intros id tx Hid Htx Ho'. apply (N2 o Ho). apply elem_of_all_spent. exists tx.
      split; [|done]. apply list_elem_of_fmap. exists (id, tx). split; [done|]. apply elem_of_map_to_list, map_lookup_filter_Some.
      split; [done|]. cbn. by intros ?.
  - intros _ Ha id tx i. rewrite E1. intros [Htx Hid]%map_lookup_filter_Some Hi. cbn in Hid.
    specialize (Ha id tx i Htx Hi). revert Ha. unfold tx_output_amount. rewrite Hu.
    destruct (u_utxos (cs_utxo s) !! _); [done|]. rewrite E1.
    destruct (txs_of s !! op_txid (in_previous_output i)) as [p|] eqn:Ep; [|by intros [? ?]].
    assert (Hf : filter (fun p => p.1 ∉ btree_iter package) (txs_of s) !! op_txid (in_previous_output i) = Some p).
    { apply map_lookup_filter_Some. split; [done|]. cbn. rewrite elem_of_btree_iter. intros Hin.
      apply Hid, elem_of_btree_iter. by eapply Hcl. }
    by rewrite Hf.
Qed.
End pool.

(** ** Families *)

Lemma elem_of_direct_parents tx s p :
  p ∈ direct_mempool_parents tx s <->
  is_Some (txs_of s !! p) /\ exists i, i ∈ tx_inputs tx /\ op_txid (in_previous_output i) = p.
Proof.
  unfold direct_mempool_parents. rewrite list_elem_of_filter, list_elem_of_fmap. naive_solver.
Qed.

Lemma collect_ancestors_total tx s :
  exists ancestors, collect_ancestor_set tx s = Some ancestors /\
    forall p, p ∈ direct_mempool_parents tx s -> p ∈ ancestors.
Proof.
  unfold collect_ancestor_set.
  destruct (dfs_fuel_enough (parents_in_pool s) (fun _ => false) (dom (txs_of s))
    (S (length (direct_mempool_parents tx s) + edge_count (parents_in_pool s) (dom (txs_of s))))
    (rev (direct_mempool_parents tx s)) ∅) as [[found seen] Hd].
  - intros k Hk. unfold parents_in_pool. apply not_elem_of_dom in Hk. by rewrite Hk.
  - rewrite length_rev, difference_empty_L. lia.
  - rewrite Hd. exists seen. split; [done|]. pose proof (dfs_no_stop _ _ _ _ _ _ Hd) as ->.
    apply dfs_sound in Hd as (_ & _ & _ & Hf). destruct (Hf eq_refl) as (Hin & _). intros p Hp. apply Hin.
    by rewrite list_elem_of_In, <- in_rev, <- list_elem_of_In.
Qed.

Section families_props.
Context `{HashOrder}.

Lemma push_mempool_children_spec child parents children p c :
  c ∈ child_list (foldl (push_mempool_child child) children parents) p <->
  c ∈ child_list children p \/ (c = child /\ p ∈ parents).
Proof.
  revert children. induction parents as [|q parents IH]; intros children; cbn [foldl]; [set_solver|].
  rewrite IH. unfold child_list, push_mempool_child. destruct (decide (p = q)) as [->|Hne].
  - rewrite lookup_insert_eq. cbn. rewrite elem_of_app, list_elem_of_singleton. set_solver.
  - rewrite lookup_insert_ne by done. set_solver.
Qed.
Lemma children_spec s p c :
  c ∈ child_list (build_mempool_children s) p <->
  exists id tx, txs_of s !! id = Some tx /\ tx_txid tx = c /\ p ∈ direct_mempool_parents tx s.
Proof.
  unfold build_mempool_children.
  assert (Hg : forall l children, c ∈ child_list (foldl (fun children (q : Hash * Transaction) =>
      foldl (push_mempool_child (tx_txid q.2)) children (direct_mempool_parents q.2 s)) children l) p <->
    c ∈ child_list children p \/ exists q : Hash * Transaction, q ∈ l /\ tx_txid q.2 = c /\ p ∈ direct_mempool_parents q.2 s).
  { induction l as [|q l IH]; intros children; cbn [foldl]; [set_solver|]. rewrite IH, push_mempool_children_spec. set_solver. }
  rewrite Hg. unfold child_list at 1. rewrite lookup_empty. cbn. split.
  - intros [[]%not_elem_of_nil|([id tx] & Hin%elem_of_map_iter & Hc & Hp)]. by exists id, tx.
  - intros (id & tx & Htx & Hc & Hp). right. exists (id, tx). by rewrite elem_of_map_iter.
Qed.

(** The package of a pool member is a family within the pool. *)
Lemma eviction_package_total fine s root :
  entries_fine fine (txs_of s) -> is_Some (txs_of s !! root) ->
  exists package, collect_eviction_package root (build_mempool_children s) = Some package /\ root ∈ package /\
    (forall k, k ∈ package -> is_Some (txs_of s !! k)) /\
    (forall id tx i, txs_of s !! id = Some tx -> i ∈ tx_inputs tx ->
       op_txid (in_previous_output i) ∈ package -> id ∈ package).
Proof.
  intros Hent Hroot. unfold collect_eviction_package. set (children := build_mempool_children s).
  destruct (dfs_fuel_enough (child_list children) (fun _ => false) (dom children)
    (S (1 + edge_count (child_list children) (dom children))) [root] ∅) as [[found seen] Hd].
  - intros k Hk. unfold child_list. apply not_elem_of_dom in Hk. by rewrite Hk.
  - rewrite difference_empty_L. cbn. lia.
  - rewrite Hd. exists seen. split; [done|]. pose proof (dfs_no_stop _ _ _ _ _ _ Hd) as ->.
    apply dfs_sound in Hd as (_ & Hr & _ & Hf). destruct (Hf eq_refl) as (Hin & _ & Hcl).
    assert (Hclosed : forall k p, k ∈ seen -> p ∈ child_list children k -> p ∈ seen) by (apply Hcl; set_solver).
    assert (Hpool : forall k, k ∈ seen -> is_Some (txs_of s !! k)).
    { intros k Hk. destruct (Hr k Hk) as [?|(r & ->%list_elem_of_singleton & Hreach)]; [set_solver|].
      clear -Hent Hroot Hreach. induction Hreach as [|a b c Hab _ IH]; [done|]. apply IH.
      unfold edge in Hab. apply children_spec in Hab as (id & tx & Htx & <- & _).
      destruct (Hent id tx Htx) as [-> _]. by exists tx. }
    split; [apply Hin; left|]. split; [done|]. intros id tx i Htx Hi Hp. apply (Hclosed _ _ Hp).
    apply children_spec. exists id, tx. destruct (Hent id tx Htx) as [Eid _]. split_and!; [done..|].
    apply elem_of_direct_parents. split; [by apply Hpool|]. by exists i.
Qed.

Lemma swap_front_elem l pos id : id ∈ swap_front l pos -> id ∈ l.
Proof.
  unfold swap_front. destruct (l !! 0%nat) as [x|] eqn:Hx; [|done]. destruct (l !! pos) as [y|] eqn:Hy; [|done].
  intros Hid. apply list_elem_of_lookup in Hid as [k Hk].
  apply list_elem_of_lookup_2 in Hx, Hy.
  apply list_lookup_insert_Some in Hk as [(_ & -> & _)|[_ Hk]]; [done|].
  apply list_lookup_insert_Some in Hk as [(_ & -> & _)|[_ Hk]]; [done|]. by apply list_elem_of_lookup_2 in Hk.
Qed.
Lemma eviction_candidates_total fine s lowest :
  entries_fine fine (txs_of s) ->
  exists candidates, eviction_candidates s lowest = Some candidates /\
    forall id, id ∈ candidates -> is_Some (txs_of s !! id).
Proof.
  intros Hent. unfold eviction_candidates. set (ids := map (fun p => tx_txid p.2) (map_iter (txs_of s))).
  assert (Hids : forall id, id ∈ ids -> is_Some (txs_of s !! id)).
  { intros id ([k tx] & -> & Hin%elem_of_map_iter)%list_elem_of_fmap. cbn. destruct (Hent k tx Hin) as [-> _]. by exists tx. }
  match goal with |- context [match ?c with Some l => Some _ | None => None end] => set (sorted := c) end.
  assert (Hs : exists l, sorted = Some l /\ forall id, id ∈ l -> is_Some (txs_of s !! id)).
  { unfold sorted. destruct ids as [|a [|b ids']] eqn:Eids; [by eexists..|]. rewrite <- Eids in *.
    destruct (mapM (fun id => pair id <$> txs_of s !! id) ids) as [l|] eqn:Em.
    - eexists. split; [done|]. intros id Hid. apply mapM_Some_1 in Em.
      apply list_elem_of_fmap in Hid as ([k tx] & -> & Hin). rewrite isort_perm in Hin.
      apply list_elem_of_lookup in Hin as [n Hn]. destruct (Forall2_lookup_r _ _ _ _ _ Em Hn) as (x & Hx & Hp).
      apply fmap_Some in Hp as (t & Ht & [= -> ->]). by exists t.
    - exfalso. assert (Hsome : is_Some (mapM (fun id => pair id <$> txs_of s !! id) ids)); [|rewrite Em in Hsome; by destruct Hsome].
      apply mapM_is_Some_2, Forall_forall. intros id Hid%Hids. by apply fmap_is_Some. }
  destruct Hs as (l & -> & Hl). eexists. split; [done|]. intros id.
  destruct (list_find _ l) as [[pos ?]|]; [|apply Hl]. case_decide; [apply Hl|]. intros Hid%swap_front_elem. by apply Hl.
Qed.

(** The package that is chosen, and why. *)
Definition beats (tx : Transaction) (score : PackageScore) (package : gset Hash) (s : ChainState) : Prop :=
  exists threshold package_score,
    select_package_threshold package s = Some threshold /\
    package_score_for_ids (set_iter package) s = Some package_score /\
    (score_cmp score package_score = Gt \/
     score_cmp score package_score = Eq /\ is_higher_priority tx threshold = true).
Lemma try_candidate_total fine tx s protected score c :
  entries_fine fine (txs_of s) -> is_Some (txs_of s !! c) ->
  exists r, try_candidate tx s (build_mempool_children s) protected score c = Some r /\
    forall package, r = Some package ->
      collect_eviction_package c (build_mempool_children s) = Some package /\
      (forall k, k ∈ package -> k ∉ protected) /\ beats tx score package s.
Proof.
  intros Hent Hc. unfold try_candidate.
  destruct (eviction_package_total fine s c Hent Hc) as (package & -> & _).
  destruct (existsb _ _) eqn:Hex; [by eexists|].
  assert (Hdis : forall k, k ∈ package -> k ∉ protected).
  { intros k Hk Hp. apply not_true_iff_false in Hex. apply Hex, existsb_exists. exists k.
    split; [by apply list_elem_of_In, elem_of_set_iter|by apply bool_decide_eq_true]. }
  unfold beats. destruct (select_package_threshold package s) as [th|] eqn:Eth; [|by eexists].
  destruct (package_score_for_ids (set_iter package) s) as [ps|] eqn:Eps; [|by eexists].
  destruct (score_cmp score ps) eqn:Ecmp; [destruct (is_higher_priority tx th) eqn:Ehp| |]; eexists; (split; [done|]);
    intros pk [= <-]; (split; [done|]); (split; [done|]); exists th, ps; naive_solver.
Qed.
Lemma select_package_total fine tx s protected score candidates :
  entries_fine fine (txs_of s) -> (forall id, id ∈ candidates -> is_Some (txs_of s !! id)) ->
  exists r, select_package tx s (build_mempool_children s) protected score candidates = Some r /\
    forall package, r = Some package -> exists c, c ∈ candidates /\
      collect_eviction_package c (build_mempool_children s) = Some package /\
      (forall k, k ∈ package -> k ∉ protected) /\ beats tx score package s.
Proof.
  intros Hent. induction candidates as [|c candidates IH]; intros Hc; cbn [select_package]; [by eexists|].
  destruct (try_candidate_total fine tx s protected score c Hent) as ([package|] & -> & Hr); [apply Hc; left|..].
  - eexists. split; [done|]. intros pk [= <-]. exists c. split; [left|by apply Hr].
  - destruct IH as (r & -> & Hr'); [intros id Hid; apply Hc; by right|]. exists r. split; [done|].
    intros pk Hpk. destruct (Hr' pk Hpk) as (c' & Hc' & Hrest). exists c'. split; [by right|done].
Qed.
End families_props.

(** ** Making room *)

Section room.
Context `{HashOrder} (fine : Transaction -> Prop).

Lemma evicted_smaller package mp mp' root :
  evicted (btree_iter package) mp mp' -> root ∈ package -> is_Some (mp_transactions mp !! root) ->
  (size (mp_transactions mp') < size (mp_transactions mp))%nat.
Proof.
  intros [E1 _ _ _] Hr [tx Htx]. rewrite E1, <- !size_dom. apply subset_size. split.
  - intros k [x [Hx _]%map_lookup_filter_Some]%elem_of_dom. apply elem_of_dom. by exists x.
  - intros Hsub. assert (Hin : root ∈ dom (mp_transactions mp)) by (apply elem_of_dom; by exists tx).
    apply Hsub, elem_of_dom in Hin as [x [_ Hn]%map_lookup_filter_Some]. apply Hn. cbn. by apply elem_of_btree_iter.
Qed.
Lemma usable_after_eviction tx s s' package :
  cs_utxo s' = cs_utxo s -> evicted (btree_iter package) (cs_mempool s) (cs_mempool s') ->
  (forall p, p ∈ direct_mempool_parents tx s -> p ∉ package) -> usable tx s -> usable tx s'.
Proof.
  intros Hu [E1 E2 _ _] Hp [Hd Hk Hn]. split; [done| |].
  - intros i Hi. specialize (Hk i Hi). revert Hk. unfold tx_output_amount. rewrite Hu.
    destruct (u_utxos (cs_utxo s) !! _); [done|].
    destruct (txs_of s !! op_txid (in_previous_output i)) as [p|] eqn:Ep; [|by intros [? ?]].
    assert (Hf : txs_of s' !! op_txid (in_previous_output i) = Some p); [|by rewrite Hf].
    rewrite E1. apply map_lookup_filter_Some. split; [done|]. cbn. rewrite elem_of_btree_iter. apply Hp.
    apply elem_of_direct_parents. split; [by exists p|by exists i].
  - intros i Hi Ho. apply E2 in Ho as [Ho _]. by apply (Hn i Hi).
Qed.

(** What a full pool does: it rejects and changes nothing but counters, or evicts a
    whole family that the incoming package beats and that holds none of its
    ancestors, which leaves room for the transaction. *)
Record roomed (tx : Transaction) (s s' : ChainState) : Prop := {
  rm_keeps : keeps fine s s';
  rm_usable : usable tx s';
  rm_smaller : (size (txs_of s') < size (txs_of s))%nat;
  rm_spent : (size (mp_spent_outpoints (cs_mempool s')) <= size (mp_spent_outpoints (cs_mempool s)))%nat;
  rm_orphans : orphans_of s' = orphans_of s;
  rm_live : txs_of s' ⊆ txs_of s;
}.
Lemma make_room_total tx s :
  pool_sound fine s -> usable tx s ->
  exists r s', make_room tx s = Some (r, s') /\
    match r with
    | Err e => (exists reason, e = TxRejected reason) /\ step fine s s' /\ txs_of s' = txs_of s /\
        orphans_of s' = orphans_of s
    | Ok _ => roomed tx s s'
    end.
Proof.
  intros Hok Hus. unfold make_room. set (s1 := s <| cs_mempool ::= count_pressure |>).
  assert (H1 : step fine s s1) by (by apply step_same).
  assert (Hus1 : usable tx s1) by (destruct Hus; by split).
  destruct (lowest_priority_txid s1) as [lowest|]; [|eexists _, s1; split; [done|]; split; [by eexists|by split_and!]].
  destruct (collect_ancestors_total tx s1) as (anc & Ha & Hanc).
  assert (exists score, incoming_package_score tx s1 = Some score) as [score ->]
    by (unfold incoming_package_score; rewrite Ha; by eexists).
  rewrite Ha. assert (Hent : entries_fine fine (txs_of s1)) by apply Hok.
  destruct (eviction_candidates_total fine s1 lowest Hent) as (cands & -> & Hc).
  destruct (select_package_total fine tx s1 anc score cands Hent Hc) as ([package|] & -> & Hp).
  - destruct (Hp package eq_refl) as (c & Hcin & Hcol & Hdis & _).
    destruct (eviction_package_total fine s1 c Hent (Hc c Hcin)) as (pk & Epk & Hroot & Hin & Hcl).
    assert (pk = package) as -> by congruence.
    pose proof (evict_package_spec fine package (cs_mempool s1)) as Hev.
    eexists _, (s1 <| cs_mempool ::= evict_package package |>). split; [done|]. split.
    + etransitivity; [exact (proj1 H1)|]. by apply (evict_keeps fine s1 _ package).
    + apply (usable_after_eviction tx s1 _ package); [done|done| |done]. intros p Hp' Hpk. by apply (Hdis p Hpk), Hanc.
    + apply (evicted_smaller package _ _ c Hev Hroot). by apply Hin.
    + apply subseteq_size. intros o Ho. by apply (ev_spent _ _ _ Hev) in Ho as [? _].
    + apply (ev_orphans _ _ _ Hev).
    + change (txs_of (s1 <| cs_mempool ::= evict_package package |>)) with
        (mp_transactions (evict_package package (cs_mempool s1))).
      rewrite (ev_txs _ _ _ Hev). apply map_filter_subseteq.
  - eexists _, _. split; [done|]. split; [by eexists|]. split; [|done].
    etransitivity; [exact H1|]. by apply step_same.
Qed.
End room.

(** ** Orphans *)

Section orphan_props.
Context `{HashOrder} (fine : Transaction -> Prop).

Lemma entries_keyed m : entries_fine fine m -> keyed m.
Proof. intros Hm id tx Htx. by destruct (Hm id tx Htx). Qed.

Lemma prune_orphan_pool_spec mp :
  keyed (mp_orphan_transactions mp) ->
  exists removed, orphans_pruned mp (prune_orphan_pool mp) removed /\
    Z.of_nat (size (mp_orphan_transactions (prune_orphan_pool mp))) <= Z.max 0 (mp_max_orphans mp).
Proof.
  intros Hk. unfold prune_orphan_pool. destruct (Z.leb_spec (Z.of_nat (size (mp_orphan_transactions mp))) (mp_max_orphans mp)).
  - exists []. split; [|lia]. split; try done; try constructor; try by intros ? ?%not_elem_of_nil.
    symmetry. apply map_filter_id. intros ? ? _. apply not_elem_of_nil.
  - destruct (victims_spec mp Hk) as (Hnd & Hin & Hlen).
    set (overflow := (size (mp_orphan_transactions mp) - Z.to_nat (mp_max_orphans mp))%nat).
    assert (Hnd' : NoDup (take overflow (deterministic_orphan_victims mp))).
    { eapply sublist_NoDup; [exact Hnd|apply sublist_take]. }
    assert (Hin' : forall id, id ∈ take overflow (deterministic_orphan_victims mp) -> is_Some (mp_orphan_transactions mp !! id)).
    { intros id Hid. apply Hin. eapply subseteq_take; exact Hid. }
    destruct (remove_orphans_spec mp _ Hnd' Hin') as (mp' & E & Hp). rewrite E. cbn [snd].
    eexists. split; [exact Hp|]. rewrite (op_orphans _ _ _ Hp), filter_size_sub by done.
    rewrite length_take, Hlen. unfold overflow. lia.
Qed.

Lemma store_orphan_step tx s :
  fine tx -> pool_sound fine s ->
  let s' := store_orphan_transaction tx s in
  step fine s s' /\ txs_of s' = txs_of s /\ (size (orphans_of s') <= S (size (orphans_of s)))%nat.
Proof.
  intros Hf Hok. unfold store_orphan_transaction.
  match goal with |- context [field_update cs_mempool ?g s] => set (f := g) end.
  assert (Hmp : exists mp2, f (cs_mempool s) = prune_orphan_pool mp2 /\
    mp_orphan_transactions mp2 = <[tx_txid tx := tx]> (orphans_of s) /\
    mp_transactions mp2 = txs_of s /\ mp_spent_outpoints mp2 = mp_spent_outpoints (cs_mempool s) /\
    same_limits (cs_mempool s) mp2).
  { unfold f. case_bool_decide; by eexists. }
  destruct Hmp as (mp2 & Ef & E1 & E2 & E3 & E4).
  assert (Hent : entries_fine fine (mp_orphan_transactions mp2)).
  { rewrite E1. apply map_Forall_insert_2; [done|apply Hok]. }
  destruct (prune_orphan_pool_spec mp2 (entries_keyed _ Hent)) as (removed & [P1 P2 _ _ (L1 & L2 & L3 & L4 & L5)] & Hsz).
  assert (Hsz2 : (size (mp_orphan_transactions (prune_orphan_pool mp2)) <= S (size (orphans_of s)))%nat).
  { rewrite P1. etransitivity; [apply map_subseteq_size, map_filter_subseteq|]. rewrite E1, map_size_insert.
    case_match; cbn; lia. }
  destruct E4 as (M1 & M2 & M3). cbn zeta. change (cs_mempool (field_update cs_mempool f s)) with (f (cs_mempool s)).
  rewrite Ef. split; [|split; [congruence|done]]. split.
  - apply keeps_same_pool; try done; change (cs_mempool (field_update cs_mempool f s)) with (f (cs_mempool s)); rewrite Ef.
    + split_and!; congruence.
    + congruence.
    + congruence.
    + intros _. rewrite P1. intros id x [Hx _]%map_lookup_filter_Some. by apply Hent.
  - intros _. split; change (cs_mempool (field_update cs_mempool f s)) with (f (cs_mempool s)); rewrite Ef.
    + rewrite L1, E2. lia.
    + rewrite L2, E3. lia.
    + rewrite M3 in Hsz. lia.
Qed.
Lemma remove_orphan_step txid tx s :
  orphans_of s !! txid = Some tx ->
  let s' := s <| cs_mempool ::= remove_orphan_transaction txid |> in
  step fine s s' /\ txs_of s' = txs_of s /\ S (size (orphans_of s')) = size (orphans_of s).
Proof.
  intros Htx. cbn zeta.
  assert (Hsz : S (size (orphans_of (s <| cs_mempool ::= remove_orphan_transaction txid |>))) = size (orphans_of s)).
  { cbn. rewrite map_size_delete, Htx.
    assert (size (orphans_of s) <> 0%nat) by (apply (map_size_ne_0_lookup_2 _ txid); by exists tx). lia. }
  split; [|done]. split.
  - apply keeps_same_pool; try done. cbn. intros He id x [_ Hx]%lookup_delete_Some. by apply He.
  - intros _. split; [cbn; lia..|lia].
Qed.
Lemma store_orphan_parked tx s :
  Z.of_nat (size (orphans_of s)) < mp_max_orphans (cs_mempool s) ->
  orphans_of (store_orphan_transaction tx s) !! tx_txid tx = Some tx.
Proof.
  intros Hm. unfold store_orphan_transaction. cbn [cs_mempool].
  assert (Hp : forall mp, mp_max_orphans mp = mp_max_orphans (cs_mempool s) ->
    mp_orphan_transactions mp = <[tx_txid tx := tx]> (orphans_of s) ->
    mp_orphan_transactions (prune_orphan_pool mp) !! tx_txid tx = Some tx).
  { intros mp E1 E2. unfold prune_orphan_pool. rewrite E1, E2.
    assert (size (<[tx_txid tx := tx]> (orphans_of s)) <= S (size (orphans_of s)))%nat
      by (rewrite map_size_insert; case_match; cbn; lia).
    destruct (Z.leb_spec (Z.of_nat (size (<[tx_txid tx := tx]> (orphans_of s)))) (mp_max_orphans (cs_mempool s)));
      [|lia]. by rewrite E2, lookup_insert_eq. }
  apply Hp; by case_bool_decide.
Qed.
End orphan_props.

(** ** The interface of the rules *)

(** What reconciliation promises. *)
Record reconciled (s s' : ChainState) : Prop := {
  rc_utxo : cs_utxo s' = cs_utxo s;
  rc_dag : cs_dag s' = cs_dag s;
  rc_chain : cs_chain_id s' = cs_chain_id s;
  rc_limits : same_limits (cs_mempool s) (cs_mempool s');
  rc_orphans : orphans_of s' = orphans_of s;
  rc_live : txs_of s' ⊆ txs_of s;
  rc_consistent : pool_consistent s';
  rc_available : pool_available s';
}.
(** What the admission needs of its rules; [fine] are the transactions they do not
    panic on. *)
Class AdmissionLaws (rules : AdmissionRules) (fine : Transaction -> Prop) : Prop := {
  al_preflight tx s : ar_preflight rules tx s <> Err None;
  al_panic tx s : fine tx -> ar_validate rules tx s <> Err None;
  al_usable tx s : ar_validate rules tx s = Ok tt -> usable tx s;
  al_missing tx s : ar_validate rules tx s = Err (Some UtxoNotFound) -> missing_transaction_inputs tx s <> [];
  al_reconcile s : entries_fine fine (txs_of s) ->
    match ar_reconcile rules s with
    | Ok s' => reconciled s s'
    | Err (Some _) => True
    | Err None => False
    end;
}.

Lemma classify_tx_not_accepted e : classify_tx_validation_error e <> TxAccepted.
Proof. destruct e; cbn; try done. by case_match. Qed.
Lemma classify_tx_orphan e : classify_tx_validation_error e = TxOrphan -> e = UtxoNotFound.
Proof. destruct e; cbn; try done. by case_match. Qed.
Lemma result_to_outcome_not_missing r : result_to_outcome r <> Err (Some UtxoNotFound).
Proof. destruct r; cbn; try done. by case_bool_decide. Qed.

Section laws.
Context `{HashOrder} (rules : AdmissionRules) (fine : Transaction -> Prop) {L : AdmissionLaws rules fine}.

(** Ready to be inserted. *)
Record admitted_to (tx : Transaction) (s s' : ChainState) : Prop := {
  ad_valid : ar_validate rules tx s = Ok tt;
  ad_fresh : txs_of s !! tx_txid tx = None /\ orphans_of s !! tx_txid tx = None;
  ad_keeps : keeps fine s s';
  ad_usable : usable tx s';
  ad_live : txs_of s' ⊆ txs_of s;
  ad_orphans : orphans_of s' = orphans_of s;
  ad_size : Z.of_nat (S (size (txs_of s'))) <= Z.max (Z.of_nat (size (txs_of s))) (mp_max_transactions (cs_mempool s));
  ad_spent : Z.min (Z.of_nat (size (mp_spent_outpoints (cs_mempool s')) + length (tx_inputs tx))) u64_max
    <= mp_max_spent_outpoints (cs_mempool s);
}.
Lemma admit_total tx s :
  pool_sound fine s -> fine tx ->
  exists r s', try_admit rules tx s = Some (r, s') /\
    match r with
    | Ok _ => admitted_to tx s s'
    | Err TxOrphan => step fine s s' /\ txs_of s' = txs_of s /\ missing_transaction_inputs tx s <> [] /\
        (size (orphans_of s') <= S (size (orphans_of s)))%nat /\
        (Z.of_nat (size (orphans_of s)) < mp_max_orphans (cs_mempool s) -> orphans_of s' !! tx_txid tx = Some tx)
    | Err r => r <> TxAccepted /\ step fine s s' /\ txs_of s' = txs_of s /\ orphans_of s' = orphans_of s
    end.
Proof.
  intros Hok Hf. unfold try_admit. case_bool_decide as Hl.
  { eexists _, _. split; [done|]. cbn. split_and!; try done. by apply step_same. }
  case_bool_decide as Ho.
  { eexists _, _. split; [done|]. cbn. split_and!; try done. by apply step_same. }
  cbn [orb]. apply eq_None_not_Some in Hl, Ho.
  destruct (ar_validate rules tx s) as [[]|[e|]] eqn:Hv; [| |by apply (al_panic tx s Hf) in Hv].
  - destruct (Z.ltb_spec (mp_max_spent_outpoints (cs_mempool s)) (saturating_add 64
      (Z.of_nat (size (mp_spent_outpoints (cs_mempool s)))) (Z.of_nat (length (tx_inputs tx))))) as [Hs|Hs].
    { eexists _, _. split; [done|]. cbn. split_and!; try done. by apply step_same. }
    unfold saturating_add in Hs. pose proof (al_usable tx s Hv) as Hus.
    destruct (Z.leb_spec (mp_max_transactions (cs_mempool s)) (Z.of_nat (size (txs_of s)))) as [Hm|Hm].
    + destruct (make_room_total fine tx s Hok Hus) as (r & s' & E & Hr). exists r, s'. split; [done|].
      destruct r as [[]|r]; [|destruct Hr as ([reason ->] & Hst & Ht & Ho'); by split_and!].
      destruct Hr as [R1 R2 R3 R4 R5 R6]. split; [done..|lia|lia].
    + exists (Ok tt), s. split; [done|]. split; [done..|lia|lia].
  - assert (Hcase : (e = UtxoNotFound) \/ match e with UtxoNotFound => False | _ => True end) by (destruct e; auto).
    destruct Hcase as [->|Hne].
    + eexists _, _. split; [done|]. cbn. destruct (store_orphan_step fine tx s Hf Hok) as (S1 & S2 & S3).
      split_and!; [done|done|by apply al_missing|done|apply store_orphan_parked].
    + exists (Err (classify_tx_validation_error e)), (s <| cs_mempool ::= count_rejected |>).
      split; [by destruct e|].
      pose proof (classify_tx_not_accepted e) as Hna. pose proof (classify_tx_orphan e) as Hor.
      assert (Hst : step fine s (s <| cs_mempool ::= count_rejected |>)) by (by apply step_same).
      destruct (classify_tx_validation_error e); [done|split_and!; done|split_and!; done| |split_and!; done].
      by rewrite (Hor eq_refl) in Hne.
Qed.

(** Inserting what was admitted. *)
Lemma admitted_step tx s s' :
  fine tx -> admitted_to tx s s' ->
  step fine s (insert_transaction tx s') /\ orphans_of (insert_transaction tx s') = orphans_of s /\
  txs_of (insert_transaction tx s') !! tx_txid tx = Some tx.
Proof.
  intros Hf [A1 [A2 A3] A4 A5 A6 A7 A8 A9].
  pose proof (insert_transaction_pool tx s') as [E1 E2 E3 E4 E5 E6 E7].
  assert (Hn : txs_of s' !! tx_txid tx = None).
  { destruct (txs_of s' !! tx_txid tx) eqn:E; [|done]. by rewrite (lookup_weaken _ _ _ _ E A6) in A2. }
  split; [|split; [by rewrite E7|rewrite E5; by rewrite lookup_insert_eq]]. split.
  - etransitivity; [exact A4|]. by apply insert_keeps.
  - intros _. split.
    + rewrite E5, map_size_insert, Hn. lia.
    + rewrite E6, size_union_alt, size_list_to_set by apply A5. unfold spent_outpoints at 1. rewrite length_map.
      assert (size (mp_spent_outpoints (cs_mempool s') ∖ list_to_set (outs tx)) <=
        size (mp_spent_outpoints (cs_mempool s')))%nat by (apply subseteq_size; set_solver). lia.
    + rewrite E7, A7. lia.
Qed.

(** *** The policy *)

Abbreviation norph s := (size (orphans_of s)).
Context `{Crypto, CarrierJson, ErrorText}.

Definition capped (policy : MempoolPolicyV3) (s : ChainState) : ChainState :=
  if decide (policy = policy_production_default) then s <| cs_mempool ::= apply_production_mempool_resource_caps_v1 |> else s.
(** Nothing but counters and limits moved; the limits are those of [s] or the
    production ones. *)
Record counters_only (policy : MempoolPolicyV3) (s s' : ChainState) : Prop := {
  co_utxo : cs_utxo s' = cs_utxo s;
  co_dag : cs_dag s' = cs_dag s;
  co_chain : cs_chain_id s' = cs_chain_id s;
  co_limits : same_limits (cs_mempool s) (cs_mempool s') \/ same_limits (cs_mempool (capped policy s)) (cs_mempool s');
  co_live : txs_of s' = txs_of s;
  co_spent : mp_spent_outpoints (cs_mempool s') = mp_spent_outpoints (cs_mempool s);
  co_orphans : orphans_of s' = orphans_of s;
}.
(** What the policy demands of a transaction. *)
Record within_policy (policy : MempoolPolicyV3) (tx : Transaction) (s : ChainState) : Prop := {
  wp_version : pol_version policy = MEMPOOL_POLICY_V3_VERSION;
  wp_fee : tx_fee tx <= pol_max_transaction_fee policy;
  wp_rate : exists n, canonical_transaction_size_for_mempool_v3 tx (cs_chain_id s) = Ok n /\
    pol_min_relay_fee_rate_per_kb policy <= tx_fee tx * 1000 / n;
  wp_fits : policy = policy_production_default ->
    transaction_fits_production_resource_v1 tx (cs_chain_id s) resource_production_default = Some true;
  wp_room : 0 <= mp_max_transactions (cs_mempool (capped policy s)) ->
    pol_max_transactions policy < Z.min (mp_max_transactions (cs_mempool (capped policy s))) u64_max ->
    Z.of_nat (size (txs_of s)) < pol_max_transactions policy;
}.
Definition declined (r : TxAcceptanceResult) : Prop := exists reason, r = TxRejected reason \/ r = TxInvalid reason.

Lemma counters_only_capped p s s' : counters_only p (capped p s) s' -> counters_only p s s'.
Proof.
  intros [C1 C2 C3 C4 C5 C6 C7].
  assert (Hi : same_limits (cs_mempool (capped p (capped p s))) (cs_mempool s') ->
    same_limits (cs_mempool (capped p s)) (cs_mempool s')) by (unfold capped; by case_decide).
  split; [| | | by right; destruct C4; auto| | |];
    (etransitivity; [eassumption|]); unfold capped; by case_decide.
Qed.
Definition preflight_result (policy : MempoolPolicyV3) (s : ChainState) (passed : ChainState -> Prop)
  (x : option (result TxAcceptanceResult unit * ChainState)) : Prop :=
  exists r s', x = Some (r, s') /\ counters_only policy s s' /\
    match r with Ok _ => passed s' | Err r => declined r end.

Lemma counters_only_refl policy s : counters_only policy s s.
Proof. split; try done. by left. Qed.
Lemma passes policy s (passed : ChainState -> Prop) : passed s -> preflight_result policy s passed (Some (Ok tt, s)).
Proof. intros Hp. eexists _, _. split; [done|]. split; [apply counters_only_refl|done]. Qed.
Lemma refuses policy s s1 passed r :
  counters_only policy s s1 -> declined r -> preflight_result policy s passed (policy_refuses r s1).
Proof.
  intros [C1 C2 C3 C4 C5 C6 C7] Hr. eexists _, _. split; [done|]. split; [|done]. by split.
Qed.
Lemma rejects policy s s1 passed reason :
  counters_only policy s s1 -> preflight_result policy s passed (policy_refuses (TxRejected reason) s1).
Proof. intros Hc. apply refuses; [done|]. eexists. by left. Qed.
Lemma invalidates policy s s1 passed reason :
  counters_only policy s s1 -> preflight_result policy s passed (policy_refuses (TxInvalid reason) s1).
Proof. intros Hc. apply refuses; [done|]. eexists. by right. Qed.
#[local] Hint Resolve counters_only_refl rejects invalidates : core.

Lemma preflight_resource_total tx policy s :
  canonical_transaction_size_for_mempool_v3 tx (cs_chain_id s) <> Err None ->
  preflight_result policy s (fun s' => s' = s /\
    transaction_fits_production_resource_v1 tx (cs_chain_id s) resource_production_default = Some true)
    (preflight_resource tx s).
Proof.
  intros Hs. unfold preflight_resource, transaction_fits_production_resource_v1, canonical_transaction_size_for_resource_v1.
  unfold too_large. destruct (canonical_transaction_size_for_mempool_v3 _ _) as [n|[e|]]; [|auto|done].
  destruct (Z.ltb_spec (rp_max_transaction_bytes resource_production_default) n); [auto|].
  rewrite (proj2 (Z.leb_le _ _)) by lia. cbn [negb].
  destruct (transaction_message_size_for_resource_v1 _ _) as [m|]; [|auto].
  destruct (Z.ltb_spec MEMPOOL_RESOURCE_MAX_TRANSACTION_MESSAGE_BYTES_V1 m); [auto|].
  apply passes. split; [done|]. by rewrite (proj2 (Z.leb_le _ _)) by lia.
Qed.
Lemma try_into_default x : 0 <= x -> default u64_max (try_into 64 x) = Z.min x u64_max.
Proof. intros Hx. unfold try_into. case_match; cbn; lia. Qed.
Lemma preflight_fees_total tx policy s :
  canonical_transaction_size_for_mempool_v3 tx (cs_chain_id s) <> Err None ->
  preflight_result policy s (fun s' => s' = s /\ pol_version policy = MEMPOOL_POLICY_V3_VERSION /\
    tx_fee tx <= pol_max_transaction_fee policy /\
    exists n, canonical_transaction_size_for_mempool_v3 tx (cs_chain_id s) = Ok n /\
      pol_min_relay_fee_rate_per_kb policy <= tx_fee tx * 1000 / n) (preflight_fees tx policy s).
Proof.
  intros Hs. unfold preflight_fees, policy_rejected.
  destruct (Z.eqb_spec (pol_version policy) MEMPOOL_POLICY_V3_VERSION); cbn [negb]; [|auto].
  destruct (Z.ltb_spec (pol_max_transaction_fee policy) (tx_fee tx)); [auto|].
  destruct (fee_rate_v3 tx (cs_chain_id s)) as [rate|[err|]] eqn:Hf; [|auto|].
  - destruct (Z.ltb_spec (fr_fee_per_kb rate) (pol_min_relay_fee_rate_per_kb policy)); [auto|].
    apply fee_rate_Ok in Hf as (n & Hn & ->). apply passes. split_and!; try done. by exists n.
  - exfalso. unfold fee_rate_v3 in Hf.
    destruct (canonical_transaction_size_for_mempool_v3 tx (cs_chain_id s)) as [n|err] eqn:Hn; [|cbn in Hf; congruence].
    apply canonical_size_pos in Hn. cbn in Hf. destruct (Z.eqb_spec n 0); [lia|done].
Qed.
(** The preflight always answers; it declines with counters only, or applies the
    production limits to a state whose transaction is within the policy. *)
Lemma preflight_policy_total tx policy s :
  canonical_transaction_size_for_mempool_v3 tx (cs_chain_id s) <> Err None ->
  preflight_result policy s (fun s' => s' = capped policy s /\ within_policy policy tx s)
    (preflight_policy_v3 tx policy s).
Proof.
  intros Hs. unfold preflight_policy_v3.
  assert (Hres : preflight_result policy s (fun s' => s' = s /\ (policy = policy_production_default ->
      transaction_fits_production_resource_v1 tx (cs_chain_id s) resource_production_default = Some true))
    (if bool_decide (policy = policy_production_default) then preflight_resource tx s else Some (Ok (), s))).
  { case_bool_decide; [|by apply passes]. destruct (preflight_resource_total tx policy s Hs) as (r & s' & E & Hc & Hm).
    exists r, s'. split; [done|]. split; [done|]. destruct r; [|done]. destruct Hm as [-> Hm]. by split. }
  destruct Hres as (r & s1 & -> & Hc1 & Hm1). destruct r as [[]|r]; [|by eexists _, _].
  destruct Hm1 as [-> Hfit]. destruct (preflight_fees_total tx policy s Hs) as (r & s2 & -> & Hc2 & Hm2).
  destruct r as [[]|r]; [|by eexists _, _]. destruct Hm2 as (-> & Hv & Hfee & Hrate).
  set (s3 := if bool_decide (policy = policy_production_default) then _ else s).
  assert (E3 : s3 = capped policy s) by (unfold s3, capped; case_bool_decide; by case_decide).
  assert (Hc3 : counters_only policy s s3).
  { rewrite E3. unfold capped. case_decide; [|by apply counters_only_refl]. split; try done. right.
    unfold capped. rewrite decide_True by done. done. }
  unfold preflight_capacity. rewrite (co_live _ _ _ Hc3).
  destruct (_ && _) eqn:Eroom; [unfold policy_rejected; apply rejects; destruct Hc3; by split|].
  eexists _, _. split; [done|]. split; [done|]. split; [done|]. split; [done..|].
  rewrite <- E3. intros H0' Hlt. rewrite !try_into_default in Eroom by lia.
  apply andb_false_iff in Eroom as [Eroom%Z.ltb_ge|Eroom%Z.leb_gt]; lia.
Qed.

Lemma reject_conflicting_total tx policy s :
  preflight_result policy s (fun s' => s' = s /\ forall d, ~ direct_conflict tx s d)
    (reject_conflicting_mempool_package_v3 tx s).
Proof.
  unfold reject_conflicting_mempool_package_v3.
  destruct (classify_conflicts_exact tx s) as (c & -> & _ & _ & Hd & _).
  destruct (cp_direct_conflict_txids c) as [|x l] eqn:E; [|unfold policy_rejected; auto].
  apply passes. split; [done|]. intros d Hc%Hd. by apply not_elem_of_nil in Hc.
Qed.

(** *** Promotion *)

Definition production_limits (mp : Mempool) : Prop :=
  mp_max_transactions mp = MEMPOOL_RESOURCE_MAX_TRANSACTIONS_V1 /\
  mp_max_spent_outpoints mp = MEMPOOL_RESOURCE_MAX_SPENT_OUTPOINTS_V1 /\
  mp_max_orphans mp = MEMPOOL_RESOURCE_MAX_ORPHANS_V1.

Context (policy : option MempoolPolicyV3) (chain : string).
Hypothesis fine_sized : forall tx, policy <> None -> fine tx ->
  canonical_transaction_size_for_mempool_v3 tx chain <> Err None.

(** A state inside an admission: the production policy has set its limits. *)
Record home (s : ChainState) : Prop := {
  ho_sound : pool_sound fine s;
  ho_chain : cs_chain_id s = chain;
  ho_limits : policy = Some policy_production_default -> production_limits (cs_mempool s);
}.
Lemma home_step s s' : step fine s s' -> home s -> home s'.
Proof.
  intros [K _] [T1 T2 T3]. destruct K as [K1 K2 K3 (K4 & K5 & K6) K7 K8]. split; [auto|congruence|].
  intros Hp. destruct (T3 Hp) as (P1 & P2 & P3). split_and!; congruence.
Qed.
Lemma counters_only_step p s s' : policy = Some p -> home s -> counters_only p s s' -> step fine s s'.
Proof.
  intros Hp [T1 T2 T3] [C1 C2 C3 C4 C5 C6 C7]. apply step_same; try done.
  destruct C4 as [C4|C4]; [done|]. unfold capped in C4. case_decide as Hd; [|done].
  subst p. destruct (T3 Hp) as (P1 & P2 & P3). destruct C4 as (Q1 & Q2 & Q3). cbn in Q1, Q2, Q3.
  split_and!; congruence.
Qed.

(** An acceptance that works on pools with fewer than [n] orphans: it parks a
    transaction only when one of its inputs is missing. *)
Definition accepts_below {R} (n : nat) (accept : Transaction -> ChainState -> option (R * ChainState)) (ok : R -> Prop) : Prop :=
  forall tx s, home s -> fine tx -> (norph s < n)%nat ->
    exists r s', accept tx s = Some (r, s') /\ ok r /\ step fine s s' /\
      ((norph s' <= norph s)%nat \/ (norph s' <= S (norph s))%nat /\ missing_transaction_inputs tx s <> []).

Lemma missing_same tx s s' :
  cs_utxo s' = cs_utxo s -> txs_of s' = txs_of s ->
  missing_transaction_inputs tx s' = missing_transaction_inputs tx s.
Proof.
  intros Hu Ht. unfold missing_transaction_inputs. apply list_omap_ext, Forall_Forall2_diag, Forall_true.
  intros i. by rewrite (tx_output_amount_same s s').
Qed.

Lemma policy_admission_accepts p n accept :
  policy = Some p -> accepts_below n accept (fun _ => True) -> accepts_below n (policy_admission p accept) (fun _ => True).
Proof.
  intros Hp Ha tx s Hs Hf Hn. unfold policy_admission.
  assert (Hz : canonical_transaction_size_for_mempool_v3 tx (cs_chain_id s) <> Err None).
  { rewrite (ho_chain _ Hs). apply fine_sized; [by rewrite Hp|done]. }
  destruct (preflight_policy_total tx p s Hz) as (r & s1 & -> & Hc1 & Hm1).
  pose proof (counters_only_step p s s1 Hp Hs Hc1) as St1. pose proof (home_step _ _ St1 Hs) as Hs1.
  destruct r as [[]|r]; [|exists r, s1; split_and!; [done..|left; by rewrite (co_orphans _ _ _ Hc1)]].
  destruct (reject_conflicting_total tx p s1) as (r & s2 & -> & Hc2 & Hm2).
  pose proof (counters_only_step p s1 s2 Hp Hs1 Hc2) as St2.
  destruct r as [[]|r].
  2: { exists r, s2. split_and!; [done|done|by etransitivity|].
       left. by rewrite (co_orphans _ _ _ Hc2), (co_orphans _ _ _ Hc1). }
  destruct Hm2 as [-> _]. destruct (Ha tx s1 Hs1 Hf) as (r & s3 & -> & _ & St3 & Hcount);
    [by rewrite (co_orphans _ _ _ Hc1)|].
  eexists _, _. split; [done|]. split; [done|]. split; [by etransitivity|].
  rewrite (co_orphans _ _ _ Hc1), (missing_same tx s s1) in Hcount; [done|apply Hc1..].
Qed.
Lemma after_preflight_accepts n accept :
  accepts_below n accept (fun _ => True) -> accepts_below n (after_preflight rules accept) (fun _ => True).
Proof.
  intros Ha tx s Hs Hf Hn. unfold after_preflight.
  destruct (ar_preflight rules tx s) as [|[err|]] eqn:Ep; [by apply Ha| |by apply al_preflight in Ep].
  eexists _, _. split; [done|]. split; [done|]. split; [by apply step_same|by left].
Qed.
Lemma promotion_accepts q n accept :
  q = policy ->
  (forall tx s, home s -> fine tx -> (norph s < n)%nat ->
    exists r s', accept tx s = Some (r, s') /\ step fine s s' /\
      ((norph s' <= norph s)%nat \/ (norph s' <= S (norph s))%nat /\ missing_transaction_inputs tx s <> [])) ->
  accepts_below n (promotion_accept rules q accept) (fun r => r <> StoreAgain).
Proof.
  intros Hq Ha. assert (Ha' : accepts_below n (after_preflight rules accept) (fun _ => True)).
  { apply after_preflight_accepts. intros tx s Hs Hf Hn. destruct (Ha tx s Hs Hf Hn) as (r & s' & ? & ? & ?).
    by exists r, s'. }
  intros tx s Hs Hf Hn. unfold promotion_accept. destruct q as [p|].
  - destruct (policy_admission_accepts p n _ (eq_sym Hq) Ha' tx s Hs Hf Hn) as (r & s' & -> & _ & St & Hc).
    eexists _, _. split; [done|]. by destruct r.
  - destruct (Ha' tx s Hs Hf Hn) as (r & s' & -> & _ & St & Hc). eexists _, _. split; [done|]. split; [|done].
    pose proof (result_to_outcome_not_missing r) as Hr. destruct (result_to_outcome r) as [|[[]|]]; done.
Qed.

Lemma promote_one_total n accept b s txid :
  accepts_below n accept (fun r => r <> StoreAgain) -> home s -> (norph s <= n)%nat ->
  exists b' s', promote_one accept (b, s) txid = Some (b', s') /\ step fine s s' /\ (norph s' <= norph s)%nat /\
    (forall tx, orphans_of s !! txid = Some tx -> missing_transaction_inputs tx s = [] -> (norph s' < norph s)%nat).
Proof.
  intros Ha Hok Hn. unfold promote_one. destruct (orphans_of s !! txid) as [tx|] eqn:Etx.
  2: { exists b, s. split_and!; try done. }
  destruct (remove_orphan_step fine txid tx s Etx) as (R1 & R2 & R3).
  set (s1 := s <| cs_mempool ::= remove_orphan_transaction txid |>) in *.
  destruct (Ha tx s1) as (r & s2 & -> & Hr & Hst & Hcount).
  { by apply (home_step s). }
  { apply (pl_orphans _ _ (ho_sound _ Hok)) in Etx. apply Etx. }
  { lia. }
  assert (Hfin : forall (b' : bool) s3, step fine s2 s3 -> orphans_of s3 = orphans_of s2 ->
    exists b'' s', Some (b', s3) = Some (b'', s') /\ step fine s s' /\ (norph s' <= norph s)%nat /\
    (forall tx0, Some tx = Some tx0 -> missing_transaction_inputs tx0 s = [] -> (norph s' < norph s)%nat)).
  { intros b' s3 St3 O3. eexists _, _. split; [done|]. split.
    - etransitivity; [exact R1|]. by etransitivity.
    - rewrite O3. split; [lia|]. intros tx0 [= <-] Hm. rewrite <- (missing_same tx s s1) in Hm by done.
      destruct Hcount as [?|[_ ?]]; [lia|done]. }
  destruct r; [|done| |]; (apply Hfin; [|done]); [by apply step_same|done|by apply step_same].
Qed.
Lemma promote_all_total n accept b s ready :
  accepts_below n accept (fun r => r <> StoreAgain) -> home s -> (norph s <= n)%nat ->
  exists b' s', promote_all accept (b, s) ready = Some (b', s') /\ step fine s s' /\ (norph s' <= norph s)%nat.
Proof.
  intros Ha. revert b s. induction ready as [|txid ready IH]; intros b s Hok Hn; cbn [promote_all].
  { by exists b, s. }
  destruct (promote_one_total n accept b s txid Ha Hok Hn) as (b1 & s1 & -> & S1 & N1 & _).
  destruct (IH b1 s1) as (b2 & s2 & -> & S2 & N2); [by apply (home_step s)|lia|].
  exists b2, s2. split; [done|]. split; [by etransitivity|lia].
Qed.
Lemma ready_orphans_spec s txid :
  txid ∈ ready_orphans s -> exists tx, orphans_of s !! txid = Some tx /\ missing_transaction_inputs tx s = [].
Proof.
  unfold ready_orphans. rewrite isort_elem_of, list_elem_of_fmap. intros ([k tx] & -> & Hin).
  apply list_elem_of_filter in Hin as [Hm Hk%elem_of_map_iter]. by exists tx.
Qed.
Lemma promote_loop_total n accept fuel s :
  accepts_below n accept (fun r => r <> StoreAgain) -> home s -> (norph s <= n)%nat -> (norph s < fuel)%nat ->
  exists s', promote_loop accept fuel s = Some s' /\ step fine s s' /\ (norph s' <= norph s)%nat.
Proof.
  intros Ha. revert s. induction fuel as [|fuel IH]; intros s Hok Hn Hf; [lia|]. cbn [promote_loop].
  destruct (ready_orphans s) as [|txid ready] eqn:Er; [by exists s|].
  destruct (ready_orphans_spec s txid) as (tx & Htx & Hm); [rewrite Er; left|]. cbn [promote_all].
  destruct (promote_one_total n accept false s txid Ha Hok Hn) as (b1 & s1 & -> & S1 & N1 & Hdec).
  specialize (Hdec tx Htx Hm). assert (Hok1 : home s1) by (by apply (home_step s)).
  destruct (promote_all_total n accept b1 s1 ready Ha Hok1) as (b2 & s2 & -> & S2 & N2); [lia|].
  destruct b2; [|exists s2; split; [done|]; split; [by etransitivity|lia]].
  destruct (IH s2) as (s3 & -> & S3 & N3); [by apply (home_step s1)|lia|lia|].
  exists s3. split; [done|]. split; [etransitivity; [exact S1|]; by etransitivity|lia].
Qed.

Lemma promote_loop_idle accept fuel s s' : norph s = 0%nat -> promote_loop accept fuel s = Some s' -> s' = s.
Proof.
  intros Hz. destruct fuel as [|fuel]; [done|]. cbn [promote_loop].
  destruct (ready_orphans s) as [|txid ready] eqn:Er; [by intros [= ->]|].
  destruct (ready_orphans_spec s txid) as (tx & Htx & _); [rewrite Er; left|].
  apply map_size_empty_inv in Hz. by rewrite Hz in Htx.
Qed.

(** *** Acceptance *)

(** An acceptance on a sound pool: what each result means. *)
Definition accept_spec (tx : Transaction) (s : ChainState) (r : TxAcceptanceResult) (s' : ChainState) : Prop :=
  step fine s s' /\
  match r with
  | TxAccepted => (norph s' <= norph s)%nat /\ ar_validate rules tx s = Ok tt /\
      txs_of s !! tx_txid tx = None /\ orphans_of s !! tx_txid tx = None /\
      (norph s = 0%nat -> txs_of s' !! tx_txid tx = Some tx)
  | TxOrphan => txs_of s' = txs_of s /\ missing_transaction_inputs tx s <> [] /\ (norph s' <= S (norph s))%nat /\
      (Z.of_nat (norph s) < mp_max_orphans (cs_mempool s) -> orphans_of s' !! tx_txid tx = Some tx)
  | _ => txs_of s' = txs_of s /\ orphans_of s' = orphans_of s
  end.
Lemma accept_spec_orphans tx s r s' :
  accept_spec tx s r s' ->
  (norph s' <= norph s)%nat \/ (norph s' <= S (norph s))%nat /\ missing_transaction_inputs tx s <> [].
Proof.
  intros [_ Hspec]. destruct r; [left; by destruct Hspec|left; destruct Hspec as [_ ->]; lia|left; destruct Hspec as [_ ->]; lia|
    right; by destruct Hspec as (_ & ? & ? & _)|left; destruct Hspec as [_ ->]; lia].
Qed.
Lemma accept_internal_total fuel tx s :
  home s -> fine tx -> (norph s < fuel)%nat ->
  exists r s', accept_internal rules policy fuel tx s = Some (r, s') /\ accept_spec tx s r s'.
Proof.
  revert tx s. induction fuel as [|fuel IH]; intros tx s Hok Hf Hn; [lia|]. cbn [accept_internal].
  rewrite (proj2 (needs_reconcile_false s)) by apply Hok.
  destruct (admit_total tx s (ho_sound _ Hok) Hf) as (r & s1 & -> & Hr). destruct r as [[]|r].
  - destruct (admitted_step tx s s1 Hf Hr) as (S1 & O1 & T1). set (s2 := insert_transaction tx s1) in *.
    destruct (promote_loop_total fuel (promotion_accept rules policy (accept_internal rules policy fuel)) (S (norph s2)) s2)
      as (s3 & E & S3 & N3).
    + apply promotion_accepts; [done|]. intros tx' s' Hok' Hf' Hn'.
      destruct (IH tx' s' Hok' Hf' Hn') as (r' & s'' & E & Hspec). exists r', s''. split; [done|].
      split; [apply Hspec|by eapply accept_spec_orphans].
    + by apply (home_step s).
    + rewrite O1. lia.
    + lia.
    + cbn zeta. fold s2. rewrite E. exists TxAccepted, s3. split; [done|]. split; [by etransitivity|].
      rewrite O1 in N3. destruct Hr as [V [F1 F2] _ _ _ _ _ _]. split_and!; [done..|].
      intros Hz. by rewrite (promote_loop_idle _ _ _ _ (eq_trans (f_equal _ O1) Hz) E).
  - exists r, s1. split; [done|]. unfold accept_spec. destruct r; naive_solver.
Qed.

(** From a pool that need not be consistent: [s1] is the state the transaction is
    judged in. *)
Definition accept_start (s s1 : ChainState) : Prop :=
  pool_consistent s /\ s1 = s \/ ~ pool_consistent s /\ ar_reconcile rules s = Ok s1 /\ reconciled s s1.
(** The rules do not apply to the state or the transaction: only the counter moves. *)
Definition refused (tx : Transaction) (s : ChainState) (r : TxAcceptanceResult) (s' : ChainState) : Prop :=
  exists err, (ar_preflight rules tx s = Err (Some err) \/ ar_reconcile rules s = Err (Some err)) /\
    r = classify_tx_validation_error err /\ s' = s <| cs_mempool ::= count_rejected |>.
Lemma reconciled_sound s s1 :
  entries_fine fine (txs_of s) -> entries_fine fine (orphans_of s) -> reconciled s s1 -> pool_sound fine s1.
Proof.
  intros Hl Ho [R1 R2 R3 R4 R5 R6 R7 R8]. split; [|by rewrite R5|done].
  intros id tx Htx. apply Hl. by eapply lookup_weaken.
Qed.
Lemma accept_internal_start fuel tx s s1 :
  accept_start s s1 -> accept_internal rules policy (S fuel) tx s = accept_internal rules policy (S fuel) tx s1.
Proof.
  intros [[_ ->]|(Hn & Hr & Hrc)]; [done|]. cbn [accept_internal].
  rewrite (proj2 (needs_reconcile_false s1)) by apply Hrc.
  destruct (mempool_needs_reconcile s) eqn:E; [by rewrite Hr|]. by apply needs_reconcile_false in E.
Qed.
Lemma accept_with_rules_total tx s :
  cs_chain_id s = chain -> (policy = Some policy_production_default -> production_limits (cs_mempool s)) ->
  entries_fine fine (txs_of s) -> entries_fine fine (orphans_of s) -> fine tx ->
  exists r s', accept_with_rules rules policy tx s = Some (r, s') /\
    (refused tx s r s' \/
     exists s1, accept_start s s1 /\ accept_spec tx s1 r s' /\ pool_sound fine s' /\
       (pool_available s1 -> pool_available s')).
Proof.
  intros Hch Hcaps Hl Ho Hf. unfold accept_with_rules, after_preflight.
  destruct (ar_preflight rules tx s) as [|[err|]] eqn:Ep; [| |by apply al_preflight in Ep].
  2: { eexists _, _. split; [done|]. left. exists err. auto. }
  assert (Hfin : forall s1, accept_start s s1 -> home s1 -> norph s1 = norph s ->
    exists r s', accept_internal rules policy (accept_fuel s) tx s = Some (r, s') /\ (refused tx s r s' \/
      exists s1, accept_start s s1 /\ accept_spec tx s1 r s' /\ pool_sound fine s' /\
        (pool_available s1 -> pool_available s'))).
  { intros s1 Hs Hok Hn. unfold accept_fuel. rewrite (accept_internal_start _ tx s s1 Hs).
    destruct (accept_internal_total (S (norph s)) tx s1 Hok Hf) as (r & s' & -> & Hspec); [lia|].
    exists r, s'. split; [done|]. right. exists s1. split_and!; [done..| |].
    - by apply (ke_ok _ _ _ (proj1 (proj1 Hspec))), ho_sound.
    - by apply (ke_available _ _ _ (proj1 (proj1 Hspec))), ho_sound. }
  destruct (mempool_needs_reconcile s) eqn:En.
  - assert (Hnc : ~ pool_consistent s) by (intros Hc; apply needs_reconcile_false in Hc; congruence).
    pose proof (al_reconcile s Hl) as Hr. destruct (ar_reconcile rules s) as [s1|[err|]] eqn:Er; [| |done].
    + apply (Hfin s1); [right; by rewrite Er| |by rewrite (rc_orphans _ _ Hr)].
      destruct Hr as [R1 R2 R3 (R4 & R5 & R6) R7 R8 R9 R10] eqn:EHr.
      split; [by eapply reconciled_sound|congruence|]. intros Hp. destruct (Hcaps Hp) as (P1 & P2 & P3).
      split_and!; congruence.
    + unfold accept_fuel. cbn [accept_internal]. rewrite En, Er. eexists _, _. split; [done|]. left. exists err. auto.
  - apply needs_reconcile_false in En. apply (Hfin s); [by left| |done]. split; [by split|done|done].
Qed.

(** The judgement of a transaction once the policy has let it through. *)
Definition judged (tx : Transaction) (s : ChainState) (r : TxAcceptanceResult) (s' : ChainState) : Prop :=
  refused tx s r s' \/
  exists s1, accept_start s s1 /\ accept_spec tx s1 r s' /\ pool_sound fine s' /\ (pool_available s1 -> pool_available s').
Lemma accept_with_policy_total p tx s :
  policy = Some p -> cs_chain_id s = chain ->
  entries_fine fine (txs_of s) -> entries_fine fine (orphans_of s) -> fine tx ->
  exists r s', accept_with_policy rules p tx s = Some (r, s') /\
    (declined r /\ counters_only p s s' \/
     within_policy p tx s /\ (forall d, ~ direct_conflict tx (capped p s) d) /\
     exists r0, r = normalize_live_result_v3 r0 /\ judged tx (capped p s) r0 s').
Proof.
  intros Hp Hch Hl Ho Hf. unfold accept_with_policy, policy_admission.
  assert (Hz : canonical_transaction_size_for_mempool_v3 tx (cs_chain_id s) <> Err None).
  { rewrite Hch. apply fine_sized; [by rewrite Hp|done]. }
  destruct (preflight_policy_total tx p s Hz) as (r & s1 & -> & Hc1 & Hm1).
  destruct r as [[]|r]; [|exists r, s1; split; [done|by left]]. destruct Hm1 as [-> Hw].
  destruct (reject_conflicting_total tx p (capped p s)) as (r & s2 & -> & Hc2 & Hm2). destruct r as [[]|r].
  2: { exists r, s2. split; [done|]. left. split; [done|]. by eapply counters_only_capped. }
  destruct Hm2 as [-> Hd]. destruct Hc1 as [C1 C2 C3 C4 C5 C6 C7].
  destruct (accept_with_rules_total tx (capped p s)) as (r & s' & E & Hr); [congruence| |by rewrite C5|by rewrite C7|done|].
  { rewrite Hp. intros [= ->]. unfold capped. by rewrite decide_True. }
  rewrite <- Hp, E. eexists _, _. split; [done|]. right. split; [done|]. split; [done|]. by exists r.
Qed.
End laws.

(** ** Reconciliation

    Both reconciliations are the same loop over a validation. *)

Lemma mark_spent_eq inputs s :
  NoDup (spent_outpoints inputs) ->
  (forall i, i ∈ inputs -> in_previous_output i ∉ mp_spent_outpoints (cs_mempool s)) ->
  exists s', mark_spent inputs s = (Ok tt, s') /\
    cs_utxo s' = cs_utxo s /\ cs_dag s' = cs_dag s /\ cs_chain_id s' = cs_chain_id s /\
    cs_mempool s' = (cs_mempool s) <| mp_spent_outpoints ::= fun o => list_to_set (spent_outpoints inputs) ∪ o |>.
Proof.
  revert s. induction inputs as [|i inputs IH]; intros s Hnd Hfree; cbn [mark_spent].
  { exists s. split_and!; try done. destruct (cs_mempool s). cbn. f_equal. set_solver. }
  apply NoDup_cons in Hnd as [Hi Hnd]. rewrite decide_False by (apply Hfree; left).
  match goal with |- context [mark_spent inputs ?x] => set (s1 := x) end.
  destruct (IH s1 Hnd) as (s' & -> & E1 & E2 & E3 & E4).
  - intros j Hj. cbn. intros [Heq%elem_of_singleton|Hin]%elem_of_union.
    + apply Hi. rewrite <- Heq. apply list_elem_of_fmap. by exists j.
    + by apply (Hfree j); [right|].
  - exists s'. split_and!; [done..|]. rewrite E4. cbn. destruct (cs_mempool s). cbn. f_equal. set_solver.
Qed.
Lemma simulate_inserted tx s :
  usable tx s -> exists s', simulate_mempool_accept tx s = (Ok tt, s') /\ inserted tx s s'.
Proof.
  intros [Hd _ Hu]. unfold simulate_mempool_accept.
  destruct (mark_spent_eq (tx_inputs tx) s Hd Hu) as (s1 & -> & E1 & E2 & E3 & E4).
  assert (Ha : forall s2, s2 = assign_first_seen (tx_txid tx) s1 -> cs_utxo s2 = cs_utxo s1 /\ cs_dag s2 = cs_dag s1 /\
    cs_chain_id s2 = cs_chain_id s1 /\ same_limits (cs_mempool s1) (cs_mempool s2) /\ txs_of s2 = txs_of s1 /\
    mp_spent_outpoints (cs_mempool s2) = mp_spent_outpoints (cs_mempool s1) /\ orphans_of s2 = orphans_of s1).
  { intros s2 ->. unfold assign_first_seen. by case_match. }
  destruct (Ha _ eq_refl) as (A1 & A2 & A3 & (A4 & A5 & A6) & A7 & A8 & A9). clear Ha.
  eexists. split; [done|]. set (s2 := assign_first_seen (tx_txid tx) s1) in *.
  rewrite E4 in A4, A5, A6, A7, A8, A9. cbn in A4, A5, A6, A7, A8, A9.
  split; cbn; [congruence..| |by rewrite A7|done|done]. split_and!; cbn; done.
Qed.

Section reconcile_with.
Context `{HashOrder} (validate : Transaction -> ChainState -> outcome unit) (fine : Transaction -> Prop).
Hypothesis no_panic : forall tx s, fine tx -> validate tx s <> Err None.
Hypothesis valid_usable : forall tx s, validate tx s = Ok tt -> usable tx s.

Definition reconcile_tx_with (pass : ReconcilePass) (tx : Transaction) : result unit ReconcilePass :=
  match validate tx (rp_working pass) with
  | Ok _ =>
      let '(r, working) := simulate_mempool_accept tx (rp_working pass) in
      let pass := pass <| rp_working := working |> in
      Ok (match r with
          | Ok _ => pass <| rp_kept ::= fun l => l ++ [tx_txid tx] |> <| rp_progressed := true |>
          | Err _ => pass <| rp_removed ::= fun l => l ++ [tx_txid tx] |>
          end)
  | Err (Some UtxoNotFound) => Ok (pass <| rp_next_pending ::= fun l => l ++ [tx] |>)
  | Err (Some _) => Ok (pass <| rp_removed ::= fun l => l ++ [tx_txid tx] |>)
  | Err None => Err tt
  end.
Fixpoint reconcile_loop_with (fuel : nat) (working : ChainState) (pending : list Transaction)
    (removed kept : list string) : result unit (ChainState * list string * list string) :=
  match fuel with
  | O => Err tt
  | S fuel' =>
      match pending with
      | [] => Ok (working, removed, kept)
      | _ =>
          let? pass := try_fold reconcile_tx_with (mkReconcilePass working [] false removed kept) pending in
          if rp_progressed pass
          then reconcile_loop_with fuel' (rp_working pass) (rp_next_pending pass) (rp_removed pass) (rp_kept pass)
          else Ok (rp_working pass, rp_removed pass ++ map tx_txid (rp_next_pending pass), rp_kept pass)
      end
  end.

(** The working state: part of the transactions [all], sound, everything else as in [s0]. *)
Record working_sound (s0 w : ChainState) (all : list Transaction) : Prop := {
  wo_utxo : cs_utxo w = cs_utxo s0;
  wo_dag : cs_dag w = cs_dag s0;
  wo_chain : cs_chain_id w = cs_chain_id s0;
  wo_limits : same_limits (cs_mempool s0) (cs_mempool w);
  wo_orphans : orphans_of w = orphans_of s0;
  wo_live : forall id tx, txs_of w !! id = Some tx -> tx ∈ all /\ tx_txid tx = id;
  wo_consistent : pool_consistent w;
  wo_available : pool_available w;
}.
(** A pass: the working state is sound, and the pending transactions are new to it. *)
Definition pass_ok (s0 : ChainState) (all pending : list Transaction) (pass : ReconcilePass) : Prop :=
  working_sound s0 (rp_working pass) all /\
  (forall tx, tx ∈ rp_next_pending pass -> tx ∈ all /\ fine tx) /\
  NoDup (map tx_txid (rp_next_pending pass ++ pending)) /\
  (forall tx, tx ∈ rp_next_pending pass ++ pending -> txs_of (rp_working pass) !! tx_txid tx = None).

Lemma reconcile_tx_with_ok s0 all pass tx pending :
  tx ∈ all -> fine tx -> pass_ok s0 all (tx :: pending) pass ->
  exists pass', reconcile_tx_with pass tx = Ok pass' /\ pass_ok s0 all pending pass' /\
    (length (rp_next_pending pass') <= S (length (rp_next_pending pass)))%nat /\
    (rp_progressed pass' = rp_progressed pass \/
     length (rp_next_pending pass') = length (rp_next_pending pass)).
Proof.
  intros Hall Hf (Hw & Hnext & Hnd & Hnew). unfold reconcile_tx_with.
  assert (Hnd' : NoDup (map tx_txid (rp_next_pending pass ++ pending)) /\
    forall x, x ∈ rp_next_pending pass ++ pending -> tx_txid x <> tx_txid tx).
  { rewrite <- Permutation_middle in Hnd. cbn in Hnd. apply NoDup_cons in Hnd as [Hx Hnd]. split; [done|].
    intros x Hx' E. apply Hx. rewrite <- E. apply list_elem_of_fmap. by exists x. }
  destruct Hnd' as [Hnd' Hne].
  assert (Hdrop : forall l, pass_ok s0 all pending (pass <| rp_removed ::= fun r => r ++ l |>)).
  { intros l. split_and!; [done..|]. intros x Hx. apply Hnew. set_solver. }
  destruct (validate tx (rp_working pass)) as [[]|[e|]] eqn:Hv; [| |by apply no_panic in Hv].
  - apply valid_usable in Hv. destruct (simulate_inserted tx _ Hv) as (w' & -> & Hi).
    assert (Hfresh : txs_of (rp_working pass) !! tx_txid tx = None) by (apply Hnew; set_solver).
    eexists. split; [done|]. cbn. split; [|split; [lia|by right]].
    destruct Hw as [W1 W2 W3 W4 W5 W6 W7 W8]. pose proof Hi as [I1 I2 I3 (I4 & I4' & I4'') I5 I6 I7].
    split_and!; cbn; [|done|done|].
    + destruct W4 as (? & ? & ?). split; [congruence..| |congruence| | |].
      * split_and!; congruence.
      * intros id x. rewrite I5. intros [[<- <-]|[_ Hx]]%lookup_insert_Some; [done|by apply W6].
      * by eapply inserted_consistent.
      * by eapply inserted_available.
    + intros x Hx. rewrite I5, lookup_insert_ne by (intros E; symmetry in E; by apply (Hne x)). apply Hnew. set_solver.
  - assert (Hcase : e = UtxoNotFound \/ match e with UtxoNotFound => False | _ => True end) by (destruct e; auto).
    destruct Hcase as [->|Hne'].
    + eexists. split; [done|]. cbn. rewrite length_app. cbn. split; [|split; [lia|by left]].
      split_and!; cbn; [done| | |].
      * intros x [Hx| ->%list_elem_of_singleton]%elem_of_app; [by apply Hnext|done].
      * by rewrite <- app_assoc.
      * intros x Hx. apply Hnew. rewrite <- app_assoc in Hx. done.
    + exists (pass <| rp_removed ::= fun r => r ++ [tx_txid tx] |>). split; [by destruct e|].
      split; [apply Hdrop|]. cbn. split; [lia|by left].
Qed.
Lemma reconcile_pass_with_ok s0 all pending pass :
  Forall (fun tx => tx ∈ all /\ fine tx) pending -> pass_ok s0 all pending pass ->
  exists pass', try_fold reconcile_tx_with pass pending = Ok pass' /\ pass_ok s0 all [] pass' /\
    (length (rp_next_pending pass') <= length (rp_next_pending pass) + length pending)%nat /\
    (rp_progressed pass' = rp_progressed pass \/
     (length (rp_next_pending pass') < length (rp_next_pending pass) + length pending)%nat).
Proof.
  intros Hall. revert pass. induction Hall as [|tx pending [Ht Hf] Hall IH]; intros pass Hp; cbn [try_fold].
  { exists pass. split; [done|]. split; [done|]. cbn. split; [lia|by left]. }
  destruct (reconcile_tx_with_ok s0 all pass tx pending Ht Hf Hp) as (p1 & -> & Hp1 & L1 & Q1).
  destruct (IH p1 Hp1) as (p2 & -> & Hp2 & L2 & Q2). exists p2. split; [done|]. split; [done|]. cbn.
  split; [lia|]. destruct Q1 as [Q1|Q1], Q2 as [Q2|Q2]; [left; congruence|right; lia..].
Qed.
Lemma reconcile_loop_with_ok s0 all fuel w pending removed kept :
  (length pending < fuel)%nat -> Forall (fun tx => tx ∈ all /\ fine tx) pending ->
  NoDup (map tx_txid pending) -> working_sound s0 w all ->
  (forall tx, tx ∈ pending -> txs_of w !! tx_txid tx = None) ->
  exists w' removed' kept', reconcile_loop_with fuel w pending removed kept = Ok (w', removed', kept') /\
    working_sound s0 w' all.
Proof.
  revert w pending removed kept. induction fuel as [|fuel IH]; intros w pending removed kept Hf Hall Hnd Hw Hnew; [lia|].
  cbn [reconcile_loop_with]. destruct pending as [|x0 pend0] eqn:Hp; [by eexists _, _, _|]. rewrite <- Hp in *.
  destruct (reconcile_pass_with_ok s0 all pending (mkReconcilePass w [] false removed kept) Hall)
    as (pass & -> & (P1 & P2 & P3 & P4) & Hlen & Hq).
  { split_and!; cbn; [done|set_solver|done|done]. }
  cbn in Hlen, Hq. destruct (rp_progressed pass) eqn:Epr; [|by eexists _, _, _].
  destruct Hq as [Hq|Hq]; [done|]. rewrite app_nil_r in P3, P4. apply IH; [lia| |done|done|done].
  by apply Forall_forall.
Qed.

Definition reconcile_with (state : ChainState) : result unit (MempoolReconcileResult * ChainState) :=
  let tx_count := size (mp_transactions (cs_mempool state)) in
  let state := state <| cs_mempool ::= fun mp => mp <| mp_counters ::= fun c =>
    c <| mc_reconcile_runs_total := saturating_add 64 (mc_reconcile_runs_total c) 1 |> |> |> in
  if decide (tx_count = 0%nat) then
    Ok (mkMempoolReconcileResult [] [],
        state <| cs_mempool ::= fun mp => mp <| mp_spent_outpoints := ∅ |> <| mp_first_seen := ∅ |>
                                             <| mp_admission_height := ∅ |> |>)
  else
    let original_first_seen := mp_first_seen (cs_mempool state) in
    let txs := isort (cmp_le (fun a b => compare_first_seen original_first_seen (tx_txid a) (tx_txid b)))
                 (map snd (map_iter (mp_transactions (cs_mempool state)))) in
    let working := state <| cs_mempool ::= fun mp => mp <| mp_transactions := ∅ |> <| mp_spent_outpoints := ∅ |> |> in
    let? r := reconcile_loop_with (S (length txs)) working txs [] [] in
    let '(working, removed_txids, kept_txids) := r in
    Ok (mkMempoolReconcileResult removed_txids kept_txids,
        state <| cs_mempool := rebuilt_mempool (cs_mempool working) (mp_counters (cs_mempool state))
          (mp_max_transactions (cs_mempool state)) (mp_max_spent_outpoints (cs_mempool state))
          (Z.of_nat (length removed_txids)) |>).

Lemma pool_empty s : txs_of s = ∅ -> mp_spent_outpoints (cs_mempool s) = ∅ -> pool_consistent s /\ pool_available s.
Proof.
  intros Ht Hs. unfold pool_consistent, pool_available, pool_txs. rewrite Ht, Hs, map_to_list_empty.
  split; [split; [constructor|set_solver]|]. by intros ? ? ?.
Qed.
Lemma working_reconciled s w all counters removed :
  (forall tx, tx ∈ all -> txs_of s !! tx_txid tx = Some tx) -> working_sound s w all ->
  forall s', cs_utxo s' = cs_utxo s -> cs_dag s' = cs_dag s -> cs_chain_id s' = cs_chain_id s ->
  cs_mempool s' = rebuilt_mempool (cs_mempool w) counters (mp_max_transactions (cs_mempool s))
    (mp_max_spent_outpoints (cs_mempool s)) removed -> reconciled s s'.
Proof.
  intros Hall [W1 W2 W3 (W4 & W5 & W6) W7 W8 W9 W10] s' E1 E2 E3 E4.
  assert (Et : txs_of s' = txs_of w) by (by rewrite E4).
  assert (Es : mp_spent_outpoints (cs_mempool s') = mp_spent_outpoints (cs_mempool w)) by (by rewrite E4).
  split; [done..| | | | |].
  - rewrite E4. by split_and!.
  - rewrite E4. cbn. by rewrite W7.
  - apply map_subseteq_spec. rewrite Et. intros id tx Htx. apply W8 in Htx as [Hin <-]. by apply Hall.
  - unfold pool_consistent, pool_txs. by rewrite Et, Es.
  - intros id tx i. rewrite Et, (tx_output_amount_same w s'); [apply W10|congruence|done].
Qed.
Lemma reconcile_with_ok s :
  entries_fine fine (txs_of s) -> exists r s', reconcile_with s = Ok (r, s') /\ reconciled s s'.
Proof.
  intros Hfine. unfold reconcile_with. case_decide as Hz.
  { apply map_size_empty_inv in Hz. eexists _, _. split; [done|].
    match goal with |- reconciled _ ?x => destruct (pool_empty x) as [Hc Ha] end; [cbn; by rewrite Hz|done|].
    split; cbn; try done. }
  match goal with |- context [reconcile_loop_with _ ?w ?t [] []] => set (w0 := w); set (txs := t) end.
  assert (Hin : forall tx, tx ∈ txs -> txs_of s !! tx_txid tx = Some tx /\ fine tx).
  { intros tx. unfold txs. rewrite isort_elem_of, list_elem_of_fmap. intros ([id x] & -> & Hx%elem_of_map_iter).
    cbn in *. destruct (Hfine _ _ Hx) as [<- Hf]. done. }
  assert (Hnd : NoDup (map tx_txid txs)).
  { assert (Hp : txs ≡ₚ map snd (map_to_list (txs_of s))) by (unfold txs; by rewrite isort_perm, map_iter_perm).
    rewrite Hp, map_map. rewrite (map_ext_in _ fst); [apply NoDup_fst_map_to_list|].
    intros [id x] Hx%list_elem_of_In%elem_of_map_to_list. by destruct (Hfine _ _ Hx). }
  destruct (pool_empty w0 eq_refl eq_refl) as [Hc Ha].
  destruct (reconcile_loop_with_ok s txs (S (length txs)) w0 txs [] []) as (w' & removed & kept & -> & Hw);
    [lia| |done| |done|].
  { apply Forall_forall. intros tx Htx. split; [done|by apply Hin]. }
  { split; cbn; try done. }
  eexists _, _. split; [done|]. eapply working_reconciled; [|done..]. intros tx Htx. by apply Hin.
Qed.
End reconcile_with.

(** ** The two sets of rules *)

Lemma missing_nonempty tx s i :
  i ∈ tx_inputs tx -> tx_output_amount s (in_previous_output i) = None -> missing_transaction_inputs tx s <> [].
Proof.
  intros Hi Hn E. assert (Hin : in_previous_output i ∈ missing_transaction_inputs tx s).
  { unfold missing_transaction_inputs. apply list_elem_of_omap. exists i. by rewrite Hn. }
  rewrite E in Hin. by apply not_elem_of_nil in Hin.
Qed.
Lemma referenced_known s o : is_Some (tx_output_amount s o) -> is_Some (referenced_output_address s o).
Proof.
  unfold tx_output_amount, referenced_output_address. destruct (u_utxos _ !! o); [by eexists|].
  destruct (txs_of s !! op_txid o); [|by intros [? ?]]. destruct (vec_get _ _); [by eexists|by intros [? ?]].
Qed.

(** The loop over the inputs, which both validations share. *)
Lemma input_fold_spec s l acc :
  match try_fold (fun acc input =>
    let? input_amount := ok_or (tx_output_amount s (in_previous_output input)) UtxoNotFound in
    if bool_decide (in_previous_output input ∈ mp_spent_outpoints (cs_mempool s))
    then Err DoubleSpend
    else ok_or (checked_add 64 acc input_amount) (InvalidTransaction "input overflow")) acc l with
  | Ok _ => forall i, i ∈ l -> is_Some (tx_output_amount s (in_previous_output i)) /\
      in_previous_output i ∉ mp_spent_outpoints (cs_mempool s)
  | Err e => e = UtxoNotFound -> exists i, i ∈ l /\ tx_output_amount s (in_previous_output i) = None
  end.
Proof.
  revert acc. induction l as [|i l IH]; intros acc; cbn [try_fold]; [set_solver|].
  destruct (tx_output_amount s (in_previous_output i)) as [a|] eqn:Ea; cbn [ok_or].
  2: { intros _. exists i. split; [left|done]. }
  case_bool_decide as Hs; [done|]. destruct (checked_add 64 acc a); cbn [ok_or]; [|done].
  specialize (IH z). destruct (try_fold _ z l).
  - intros j [->|Hj]%elem_of_cons; [|by apply IH]. rewrite Ea. split; [by eexists|done].
  - intros He. destruct (IH He) as (j & Hj & Hn). exists j. split; [by right|done].
Qed.

Lemma guard_Err {A} (c : bool) e x (k : outcome A) :
  e <> x -> (if c then fails e else k) = Err (Some x) -> k = Err (Some x).
Proof. destruct c; [|done]. unfold fails. congruence. Qed.
Lemma lift_bind_Err {A B} (r : result PulseError A) (k : A -> outcome B) x :
  (let? a := lift r in k a) = Err (Some x) -> r = Err x \/ exists a, r = Ok a /\ k a = Err (Some x).
Proof. destruct r; cbn; [eauto|]. intros [= ->]. by left. Qed.
Lemma expect_bind_Err {A B} (o : option A) (k : A -> outcome B) x :
  (let? a := expect o in k a) = Err (Some x) -> exists a, o = Some a /\ k a = Err (Some x).
Proof. destruct o; cbn; [eauto|done]. Qed.
Lemma try_fold_Err {E A B} (f : B -> A -> result E B) acc l e :
  try_fold f acc l = Err e -> exists b x, x ∈ l /\ f b x = Err e.
Proof.
  revert acc. induction l as [|x l IH]; intros acc; cbn; [done|]. destruct (f acc x) eqn:Ef.
  - intros Hl. destruct (IH _ Hl) as (b & y & Hy & Hb). exists b, y. split; [by right|done].
  - intros [= ->]. exists acc, x. split; [left|done].
Qed.
Lemma all_distinct_Err {A} `{Countable A} e (l : list A) x : all_distinct e l = Err x -> x = e.
Proof.
  unfold all_distinct. destruct (try_fold _ ∅ l) eqn:E; [done|]. intros [= ->].
  apply try_fold_Err in E as (b & y & _ & Hb). case_decide; congruence.
Qed.

(** Both validations are this one, with their own identifier and signatures. *)
Definition validate_body (txid : outcome Hash) (verify : outcome unit) (tx : Transaction) (s : ChainState)
  : outcome unit :=
  if bool_decide (tx_outputs tx = []) then fails (InvalidTransaction "no outputs") else
  if bool_decide (tx_inputs tx = []) then fails (InvalidTransaction "no inputs") else
  if existsb (fun o => out_amount o =? 0) (tx_outputs tx)
  then fails (InvalidTransaction "zero-value output") else
  check lift (all_distinct (InvalidTransaction "duplicate input") (outs tx)) in
  let? txid := txid in
  if negb (bool_decide (txid = tx_txid tx)) then fails InvalidTxid else
  if transaction_is_confirmed (tx_txid tx) s then fails TxAlreadyExists else
  let? total_input := lift (try_fold (fun acc input =>
    let? input_amount := ok_or (tx_output_amount s (in_previous_output input)) UtxoNotFound in
    if bool_decide (in_previous_output input ∈ mp_spent_outpoints (cs_mempool s))
    then Err DoubleSpend
    else ok_or (checked_add 64 acc input_amount) (InvalidTransaction "input overflow"))
    0 (tx_inputs tx)) in
  let? total_output := lift (try_fold (fun acc output =>
    ok_or (checked_add 64 acc (out_amount output)) (InvalidTransaction "output overflow"))
    0 (tx_outputs tx)) in
  let? required := lift (ok_or (checked_add 64 total_output (tx_fee tx))
                               (InvalidTransaction "output overflow")) in
  if total_input <? required then fails InsufficientFunds else verify.

Lemma bind_Ok_inv {A B} (r : outcome A) (k : A -> outcome B) b :
  (let? a := r in k a) = Ok b -> exists a, r = Ok a /\ k a = Ok b.
Proof. destruct r; cbn; [eauto|done]. Qed.
Lemma bind_Err_inv {A B} (r : outcome A) (k : A -> outcome B) x :
  (let? a := r in k a) = Err x -> r = Err x \/ exists a, r = Ok a /\ k a = Err x.
Proof. destruct r; cbn; [eauto|]. intros [= ->]. by left. Qed.

Lemma body_usable txid verify tx s : validate_body txid verify tx s = Ok tt -> usable tx s.
Proof.
  unfold validate_body. intros E. do 3 apply guard_Ok in E as [_ E].
  apply lift_bind_Ok in E as ([] & Hd%all_distinct_Ok & E). apply bind_Ok_inv in E as (id & _ & E).
  do 2 apply guard_Ok in E as [_ E]. apply lift_bind_Ok in E as (total & Hf & _).
  pose proof (input_fold_spec s (tx_inputs tx) 0) as Hs. rewrite Hf in Hs.
  split; [done|intros i Hi; by apply Hs..].
Qed.
Lemma body_missing txid verify tx s :
  txid <> Err (Some UtxoNotFound) ->
  ((forall i, i ∈ tx_inputs tx -> is_Some (tx_output_amount s (in_previous_output i))) ->
   verify <> Err (Some UtxoNotFound)) ->
  validate_body txid verify tx s = Err (Some UtxoNotFound) -> missing_transaction_inputs tx s <> [].
Proof.
  intros Hid Hver. unfold validate_body. intros E. do 3 apply guard_Err in E; [|done..].
  apply lift_bind_Err in E as [E%all_distinct_Err|([] & _ & E)]; [done|].
  apply bind_Err_inv in E as [E|(id & _ & E)]; [done|]. do 2 apply guard_Err in E; [|done..].
  pose proof (input_fold_spec s (tx_inputs tx) 0) as Hs.
  apply lift_bind_Err in E as [E|(total & Ef & E)].
  { rewrite E in Hs. destruct (Hs eq_refl) as (i & Hi & Hn). by eapply missing_nonempty. }
  rewrite Ef in Hs. exfalso.
  apply lift_bind_Err in E as [E|(total_output & _ & E)].
  { apply try_fold_Err in E as (b & y & _ & Hb). unfold ok_or in Hb. by case_match. }
  apply lift_bind_Err in E as [E|(required & _ & E)]; [unfold ok_or in E; by case_match|].
  apply guard_Err in E; [|done]. apply Hver in E; [done|]. intros i Hi. by apply Hs.
Qed.
Lemma body_no_panic txid verify tx s :
  txid <> Err None -> verify <> Err None -> validate_body txid verify tx s <> Err None.
Proof.
  intros Hid Hver. do 3 apply guard_no_panic. apply bind_no_panic; [apply lift_no_panic|]. intros _ _.
  apply bind_no_panic; [done|]. intros ? _.
  do 2 apply guard_no_panic. do 3 (apply bind_no_panic; [apply lift_no_panic|]; intros ? _). by apply guard_no_panic.
Qed.

Section rules.
Context `{Crypto}.

Lemma verify_missing s m tx :
  (forall i, i ∈ tx_inputs tx -> is_Some (tx_output_amount s (in_previous_output i))) ->
  lift (verify_transaction_signatures_with_message tx s m) <> Err (Some UtxoNotFound).
Proof.
  intros Hk E. unfold verify_transaction_signatures_with_message in E.
  destruct (try_fold _ tt (tx_inputs tx)) eqn:Ev; [done|]. cbn in E. injection E as ->.
  apply try_fold_Err in Ev as ([] & i & Hi & E). unfold verify_input in E.
  destruct (referenced_known s _ (Hk i Hi)) as [a Ha]. rewrite Ha in E. cbn [ok_or] in E.
  repeat case_match; congruence || (unfold ok_or in *; repeat case_match; congruence).
Qed.

(** The legacy validation. *)
Lemma validate_transaction_body tx s :
  validate_transaction tx s = validate_body (expect (compute_txid tx)) (verify_transaction_signatures tx s) tx s.
Proof. reflexivity. Qed.
Lemma validate_usable tx s : validate_transaction tx s = Ok tt -> usable tx s.
Proof. rewrite validate_transaction_body. apply body_usable. Qed.
Lemma validate_missing tx s :
  validate_transaction tx s = Err (Some UtxoNotFound) -> missing_transaction_inputs tx s <> [].
Proof.
  rewrite validate_transaction_body. apply body_missing; [by destruct (compute_txid tx)|].
  intros Hk E. apply lift_bind_Err in E as [E|(? & _ & E)].
  { unfold validate_transaction_version_v1 in E. by repeat case_match. }
  apply expect_bind_Err in E as (m & _ & E). by apply verify_missing in E.
Qed.

(** The activated validation: [Err None] only from an encoding longer than [u32::MAX]. *)
Definition tx_encodable_v2 (chain_id : string) (tx : Transaction) : Prop :=
  canonical_transaction_bytes_v2 tx chain_id <> Err None /\ signing_message_v2 tx chain_id <> Err None.
Lemma domain_missing tx chain_id o :
  (check lift (validate_v2_domain tx chain_id) in expect o : outcome bytes) <> Err (Some UtxoNotFound).
Proof.
  intros E. apply lift_bind_Err in E as [E|(? & _ & E)]; [|by destruct o].
  unfold validate_v2_domain in E. by repeat case_match.
Qed.
Lemma validate_v2_body tx s chain_id :
  validate_transaction_v2 tx s chain_id =
  validate_body (compute_txid_v2 tx chain_id) (verify_transaction_signatures_v2 tx s chain_id) tx s.
Proof. reflexivity. Qed.
Lemma validate_v2_missing tx s chain_id :
  validate_transaction_v2 tx s chain_id = Err (Some UtxoNotFound) -> missing_transaction_inputs tx s <> [].
Proof.
  rewrite validate_v2_body. apply body_missing.
  - unfold compute_txid_v2. intros E. apply bind_Err_inv in E as [E|(? & _ & E)]; [by apply domain_missing in E|done].
  - intros Hk E. unfold verify_transaction_signatures_v2 in E.
    apply bind_Err_inv in E as [E|(? & _ & E)]; [by apply domain_missing in E|by apply verify_missing in E].
Qed.
Lemma validate_v2_no_panic tx s chain_id : tx_encodable_v2 chain_id tx -> validate_transaction_v2 tx s chain_id <> Err None.
Proof.
  intros [E1 E2]. rewrite validate_v2_body. apply body_no_panic; (apply bind_no_panic; [done|]; intros ? _);
    [done|apply lift_no_panic].
Qed.

(** The validation of a protocol. *)
Lemma resolve_no_panic identity s : resolve_transaction_validation_path identity s <> Err None.
Proof.
  unfold resolve_transaction_validation_path. apply bind_no_panic; [apply lift_no_panic|]. intros _ _.
  by repeat case_match.
Qed.
Lemma resolve_missing identity s : resolve_transaction_validation_path identity s <> Err (Some UtxoNotFound).
Proof.
  unfold resolve_transaction_validation_path. destruct (protocol_identity_validate identity); [|done].
  cbn. by repeat case_match.
Qed.
Definition protocol_fine (identity : ProtocolActivationIdentity) (tx : Transaction) : Prop :=
  tx_encodable tx /\ tx_encodable_v2 (pi_chain_id identity) tx.
Lemma protocol_no_panic identity tx s :
  protocol_fine identity tx -> validate_transaction_for_protocol tx s identity <> Err None.
Proof.
  intros [H1 H2]. apply bind_no_panic; [apply resolve_no_panic|]. intros path _. apply guard_no_panic.
  destruct path; [by apply validate_no_panic|by apply validate_v2_no_panic].
Qed.
Lemma protocol_usable identity tx s : validate_transaction_for_protocol tx s identity = Ok tt -> usable tx s.
Proof.
  intros E. apply bind_Ok_inv in E as (path & _ & E). apply guard_Ok in E as [_ E].
  destruct path; [by apply validate_usable|]. rewrite validate_v2_body in E. by eapply body_usable.
Qed.
Lemma protocol_missing identity tx s :
  validate_transaction_for_protocol tx s identity = Err (Some UtxoNotFound) -> missing_transaction_inputs tx s <> [].
Proof.
  intros E. apply bind_Err_inv in E as [E|(path & _ & E)]; [by apply resolve_missing in E|].
  apply guard_Err in E; [|done]. destruct path; [by apply validate_missing|by eapply validate_v2_missing].
Qed.

(** Both sets of rules keep the promises. *)
Context `{HashOrder}.
Lemma reconcile_mempool_with : reconcile_mempool = reconcile_with validate_transaction.
Proof. reflexivity. Qed.
Lemma reconcile_for_protocol_with identity s :
  reconcile_mempool_for_protocol identity s =
  check resolve_transaction_validation_path identity s in
  map_err (fun _ => None) (reconcile_with (fun tx s => validate_transaction_for_protocol tx s identity) s).
Proof.
  unfold reconcile_mempool_for_protocol, reconcile_with. destruct (resolve_transaction_validation_path identity s); [|done].
  case_decide; [done|]. change (protocol_reconcile_loop identity) with
    (reconcile_loop_with (fun tx s => validate_transaction_for_protocol tx s identity)).
  by destruct (reconcile_loop_with _ _ _ _ _ _) as [[[? ?] ?]|].
Qed.

#[global] Instance legacy_laws : AdmissionLaws legacy_rules tx_encodable.
Proof.
  split; cbn.
  - done.
  - intros tx s. apply validate_no_panic.
  - apply validate_usable.
  - apply validate_missing.
  - intros s Hf. rewrite reconcile_mempool_with.
    destruct (reconcile_with_ok validate_transaction tx_encodable (fun tx s => validate_no_panic tx s) validate_usable s Hf)
      as (r & s' & -> & Hr). done.
Qed.
#[global] Instance protocol_laws identity : AdmissionLaws (protocol_rules identity) (protocol_fine identity).
Proof.
  split; cbn.
  - intros tx s. apply bind_no_panic; [apply resolve_no_panic|]. intros _ _. by apply guard_no_panic.
  - intros tx s. apply protocol_no_panic.
  - intros tx s. apply protocol_usable.
  - intros tx s. apply protocol_missing.
  - intros s Hf. rewrite reconcile_for_protocol_with.
    destruct (resolve_transaction_validation_path identity s) as [?|[?|]] eqn:E; [|done|by apply resolve_no_panic in E].
    cbn. destruct (reconcile_with_ok (fun tx s => validate_transaction_for_protocol tx s identity) (protocol_fine identity)
      (protocol_no_panic identity) (protocol_usable identity) s Hf) as (r & s' & -> & Hr). done.
Qed.
End rules.

(** ** Admission *)

Lemma laws_mono rules (fine fine' : Transaction -> Prop) :
  (forall tx, fine' tx -> fine tx) -> AdmissionLaws rules fine -> AdmissionLaws rules fine'.
Proof.
  intros Hm [L1 L2 L3 L4 L5]. split; [done|auto|done|done|]. intros s Hf. apply L5.
  intros id tx Htx. destruct (Hf id tx Htx). auto.
Qed.
(** The transactions that can be serialized as the rules and the policy need it. *)
Definition admission_fine `{Crypto} (validation : TransactionAdmissionValidation) (policy : option MempoolPolicyV3)
  (chain_id : string) (tx : Transaction) : Prop :=
  match validation with
  | ValidationLegacyV1 => tx_encodable tx
  | ValidationProtocol identity => protocol_fine identity tx
  end /\ (policy <> None -> canonical_transaction_size_for_mempool_v3 tx chain_id <> Err None).
#[global] Instance admission_laws `{Crypto, HashOrder} validation policy chain_id :
  AdmissionLaws (admission_rules validation) (admission_fine validation policy chain_id).
Proof.
  destruct validation; [apply (laws_mono _ tx_encodable)|eapply (laws_mono _ (protocol_fine _))];
    [by intros tx []|apply _|by intros tx []|apply _].
Qed.
(** The four entry points. *)
Definition accept_entry `{Crypto, HashOrder, CarrierJson, ErrorText} (validation : TransactionAdmissionValidation)
  (policy : option MempoolPolicyV3) : Transaction -> ChainState -> option (TxAcceptanceResult * ChainState) :=
  match validation, policy with
  | ValidationLegacyV1, None => accept_transaction_with_result
  | ValidationProtocol identity, None => accept_transaction_with_result_for_protocol identity
  | ValidationLegacyV1, Some policy => accept_transaction_with_mempool_policy_v3 policy
  | ValidationProtocol identity, Some policy => accept_transaction_with_mempool_policy_v3_for_protocol identity policy
  end.

(** C31: Accepting a transaction, with the legacy validation or that of a protocol
    identity, with or without a fee policy, always returns when the transactions
    involved can be serialized.  A policy declines with nothing but counters and
    limits changed, or lets through exactly what is within it and spends no output
    that a pooled transaction spends.  Then either the identity does not fit the
    state and only the counter of rejections moves, or the transaction is judged in
    the given state, or in the reconciled one when the pool was inconsistent.  From
    there: the pool stays free of double spends with an exact index of spent
    outpoints, whatever is evicted or promoted on the way; no pooled transaction
    loses an input; the unspent outputs and the DAG do not change; a limit of the
    pool that held still holds; an accepted transaction was valid, new, and is
    pooled when no orphans were waiting; a parked one misses an input and is kept
    when there is room; and every other result leaves the pool and the orphans as
    they were. *)
Theorem admission_sound `{Crypto, HashOrder, CarrierJson, ErrorText} validation policy tx s :
  let rules := admission_rules validation in
  let fine := admission_fine validation policy (cs_chain_id s) in
  entries_fine fine (txs_of s) -> entries_fine fine (orphans_of s) -> fine tx ->
  exists r s', accept_entry validation policy tx s = Some (r, s') /\
    match policy with
    | None => judged rules fine tx s r s'
    | Some p =>
        declined r /\ counters_only p s s' \/
        within_policy p tx s /\ (forall d, ~ direct_conflict tx (capped p s) d) /\
        exists r0, r = normalize_live_result_v3 r0 /\ judged rules fine tx (capped p s) r0 s'
    end.
Proof.
  intros rules fine Hl Ho Hf.
  assert (Hsize : forall tx, policy <> None -> fine tx ->
    canonical_transaction_size_for_mempool_v3 tx (cs_chain_id s) <> Err None) by (intros x Hp [_ Hx]; auto).
  destruct policy as [p|].
  - assert (E : accept_entry validation (Some p) tx s = accept_with_policy rules p tx s) by (by destruct validation).
    rewrite E. by apply (accept_with_policy_total rules fine (Some p) (cs_chain_id s)).
  - assert (E : accept_entry validation None tx s = accept_with_rules rules None tx s) by (by destruct validation).
    rewrite E. by apply (accept_with_rules_total rules fine None (cs_chain_id s)).
Qed.

(** *** A pool with orphans *)

Module Demo.
Definition pk : bytes := replicate 32 Byte.x07.
Definition pk_hex : string := @hex_encode model_crypto pk.
Definition addr : string := @address_from_public_key model_crypto pk_hex.
Definition unsigned (outpoints : list OutPoint) (amounts : list Z) (fee nonce : Z) (sg : string) : Transaction :=
  mkTransaction "" 1 (map (fun o => mkTxInput o pk_hex sg) outpoints) (map (mkTxOutput addr) amounts) fee nonce.
Definition signed (outpoints : list OutPoint) (amounts : list Z) (fee nonce : Z) : Transaction :=
  let message := default [] (signing_message (unsigned outpoints amounts fee nonce "")) in
  let tx := unsigned outpoints amounts fee nonce (@hex_encode model_crypto (model_digest (pk ++ message) ++ pk)) in
  mkTransaction (default "" (@compute_txid model_crypto tx)) 1 (tx_inputs tx) (tx_outputs tx) fee nonce.
Definition coin (n : Z) : OutPoint := mkOutPoint "genesis" n.
(** Four coins, room for two transactions and ten orphans. *)
Definition start : ChainState :=
  blank_state
    <| cs_utxo := mkUtxoState (list_to_map (map (fun n => (coin n, mkUtxo (coin n) addr 100 false 0)) [0; 1; 2; 3])) ∅ |>
    <| cs_mempool ::= fun mp => mp <| mp_max_transactions := 2 |> <| mp_max_spent_outpoints := 100 |>
                                   <| mp_max_orphans := 10 |> |>.
Definition cheap : Transaction := signed [coin 0] [99] 1 0.
Definition parent : Transaction := signed [coin 1] [40; 50] 10 0.
Definition child : Transaction := signed [mkOutPoint (tx_txid parent) 0] [30] 10 1.
(** Spends the parent and the cheap transaction. *)
Definition both : Transaction :=
  signed [mkOutPoint (tx_txid parent) 1; mkOutPoint (tx_txid cheap) 0] [100] 49 1.
Definition texts : ErrorText := {| assessment_debug _ := "error"; carrier_error _ _ := "error" |}.
Definition accept : Transaction -> ChainState -> option (TxAcceptanceResult * ChainState) :=
  @accept_transaction_with_result model_crypto list_order model_carrier texts.
Definition accept_production : Transaction -> ChainState -> option (TxAcceptanceResult * ChainState) :=
  @accept_transaction_with_mempool_policy_v3 model_crypto list_order model_carrier texts policy_production_default.
Definition accept_all (l : list Transaction) (s : ChainState) : option (list TxAcceptanceResult * ChainState) :=
  foldl (fun acc tx =>
    match acc with
    | Some (rs, s) => match accept tx s with
                      | Some (r, s) => Some (rs ++ [r], s)
                      | None => None
                      end
    | None => None
    end) (Some ([], s)) l.
(** The two orphans wait for their parent. *)
Definition waiting : ChainState := match accept_all [cheap; child; both] start with Some (_, s) => s | None => start end.
End Demo.

#[global] Instance tx_encodable_dec tx : Decision (tx_encodable tx).
Proof. unfold tx_encodable. apply _. Defined.
#[global] Instance entries_fine_dec fine `{!forall tx, Decision (fine tx)} m : Decision (entries_fine fine m).
Proof. unfold entries_fine. apply _. Defined.

#[global] Instance demo_fine_dec chain_id tx :
  Decision (@admission_fine model_crypto ValidationLegacyV1 (Some policy_production_default) chain_id tx).
Proof.
  destruct (decide (tx_encodable tx)) as [H1|H1]; [|right; by intros [? _]].
  destruct (@canonical_transaction_size_for_mempool_v3 model_crypto tx chain_id) as [n|[e|]] eqn:E.
  - left. split; [done|]. by rewrite E.
  - left. split; [done|]. by rewrite E.
  - right. intros [_ Hn]. by apply Hn.
Defined.
Lemma waiting_accepts : fst <$> Demo.accept_production Demo.parent Demo.waiting = Some TxAccepted.
Proof. by_compute. Qed.
Lemma normalize_accepted r : TxAccepted = normalize_live_result_v3 r -> r = TxAccepted.
Proof. destruct r; cbn; try done. by case_match. Qed.
(** Under the production policy the parent arrives while its orphans wait. *)
Lemma admission_sound_witness :
  exists s', Demo.accept_production Demo.parent Demo.waiting = Some (TxAccepted, s') /\
    pool_consistent s' /\ @within_policy model_crypto model_carrier policy_production_default Demo.parent Demo.waiting.
Proof.
  destruct (@admission_sound model_crypto list_order model_carrier Demo.texts ValidationLegacyV1
    (Some policy_production_default) Demo.parent Demo.waiting) as (r & s' & E & Hr);
    [apply (bool_decide_unpack (entries_fine _ _)); vm_compute; exact I..|
     apply (bool_decide_unpack (admission_fine _ _ _ _)); vm_compute; exact I|].
  pose proof waiting_accepts as Hw. unfold Demo.accept_production in *. cbn [accept_entry] in E.
  rewrite E in Hw. injection Hw as ->. exists s'. split; [exact E|].
  destruct Hr as [[[reason [Hd|Hd]] _]|(Hp & _ & r0 & Hr0 & Hj)]; [discriminate Hd..|].
  split; [|exact Hp].
  apply normalize_accepted in Hr0 as ->.
  destruct Hj as [(err & _ & Hc & _)|(s1 & _ & _ & Hok & _)]; [|exact (pl_consistent _ _ Hok)].
  destruct (classify_tx_not_accepted err). symmetry. exact Hc.
Defined.

(** [accept_transaction] reports a parked transaction as [Ok], so the promotion
    counts an orphan as promoted that it has just parked again: here both orphans
    are ready when their parent arrives, the child evicts the cheap transaction,
    and the other orphan is parked and counted. *)
Lemma parked_orphan_counted :
  exists s', Demo.accept_all [Demo.cheap; Demo.child; Demo.both; Demo.parent] Demo.start =
    Some ([TxAccepted; TxOrphan; TxOrphan; TxAccepted], s') /\
  mc_orphan_promoted_total (mp_counters (cs_mempool s')) = 2 /\
  orphans_of s' !! tx_txid Demo.both = Some Demo.both.
Proof.
  exists (match Demo.accept_all [Demo.cheap; Demo.child; Demo.both; Demo.parent] Demo.start with
          | Some (_, s) => s | None => Demo.start end).
  split_and!; by_compute.
Qed.
