(* ===== verification/PolicyReconcileProps.v ===== *)
(** * Reconciliation under the production policy ([TxAdmission])

    Both reconciliations of [mempool_admission_v3.rs] always finish; what they leave
    is within the production limits, passes the fee policy, spends no outpoint twice
    and has all its inputs. *)

From S2P Require Import Prelude Encoding Crypto Types Merkle State Tx TxV3 Graph Pow.
From S2P Require Import Selection Retarget Ghostdag Ordering Mining Genesis Apply ApplyProps.
From S2P Require Import Validation ValidationProps Mempool MempoolProps Commit MempoolV3 MempoolResource.
From S2P Require Import MempoolResourceProps DagInvariant CommitProps ApplyBlockProps Accept.
From S2P Require Import Headers Protocol ReplayV3 ReplacementV3 TxAdmission TxAdmissionProps.

Section policy_reconcile_props.
Context `{HashOrder, Crypto, CarrierJson} (fine : Transaction -> Prop) (chain : string).
Hypothesis fine_sized : forall tx, fine tx -> canonical_transaction_size_for_mempool_v3 tx chain <> Err None.

Definition passes_policy (tx : Transaction) : bool := is_ok (assess_transaction policy_production_default tx chain 0 false).

Lemma assess_no_panic tx : fine tx -> assess_transaction policy_production_default tx chain 0 false <> Err None.
Proof.
  intros Hf%fine_sized. unfold assess_transaction, rejects_policy, fee_rate_v3.
  destruct (canonical_transaction_size_for_mempool_v3 tx chain) as [n|e] eqn:Hn.
  - apply canonical_size_pos in Hn. cbn. destruct (Z.eqb_spec n 0); [lia|]. by repeat case_match.
  - cbn. repeat case_match; congruence.
Qed.
Lemma persisted_passes tx s :
  fine tx -> cs_chain_id s = chain ->
  persisted_transaction_passes_production_fee_policy_v3 tx s = Some (passes_policy tx).
Proof.
  intros Hf Hc. unfold persisted_transaction_passes_production_fee_policy_v3, passes_policy. rewrite Hc.
  pose proof (assess_no_panic tx Hf). destruct (assess_transaction _ _ _ _ _) as [|[]]; [done|done|done].
Qed.
Lemma fits_total tx : fine tx -> transaction_fits_production_resource_v1 tx chain resource_production_default <> None.
Proof.
  intros Hf%fine_sized. unfold transaction_fits_production_resource_v1, canonical_transaction_size_for_resource_v1.
  destruct (canonical_transaction_size_for_mempool_v3 tx chain) as [|[]]; [|done|done]. by case_match.
Qed.

(** [s'] is [s] without the live transactions and orphans that [drop] picks. *)
Record kept_by (live orphan : Hash * Transaction -> Prop) (s s' : ChainState) : Prop := {
  kb_utxo : cs_utxo s' = cs_utxo s;
  kb_dag : cs_dag s' = cs_dag s;
  kb_chain : cs_chain_id s' = cs_chain_id s;
  kb_live : forall id tx, txs_of s' !! id = Some tx <-> txs_of s !! id = Some tx /\ live (id, tx);
  kb_orphans : forall id tx, orphans_of s' !! id = Some tx <-> orphans_of s !! id = Some tx /\ orphan (id, tx);
}.

Lemma prune_live_fold ids removed s :
  entries_fine fine (txs_of s) -> cs_chain_id s = chain ->
  exists removed' s', try_fold prune_policy_live (removed, s) ids = Ok (removed', s') /\
    kept_by (fun p => p.1 ∈ ids -> passes_policy p.2 = true) (fun _ => True) s s'.
Proof.
  revert removed s. induction ids as [|id ids IH]; intros removed s Hf Hc; cbn [try_fold].
  { exists removed, s. split; [done|]. split; try done; naive_solver set_solver. }
  unfold prune_policy_live at 1. destruct (txs_of s !! id) as [tx|] eqn:Etx.
  2: { destruct (IH removed s Hf Hc) as (r' & s' & -> & [K1 K2 K3 K4 K5]). exists r', s'. split; [done|].
       split; [done..| |done]. intros k x. rewrite K4. set_solver. }
  rewrite (persisted_passes tx s (proj2 (Hf id tx Etx)) Hc). destruct (passes_policy tx) eqn:Hp.
  - destruct (IH removed s Hf Hc) as (r' & s' & -> & [K1 K2 K3 K4 K5]). exists r', s'. split; [done|].
    split; [done..| |done]. intros k x. rewrite K4. cbn. set_solver.
  - cbv zeta. rewrite remove_spent_fold. match goal with |- context [try_fold _ (?r, ?t) ids] => set (s1 := t); set (r1 := r) end.
    assert (Ht1 : txs_of s1 = delete id (txs_of s)) by done.
    destruct (IH r1 s1) as (r' & s' & -> & [K1 K2 K3 K4 K5]); [|done|].
    { intros k x. rewrite Ht1. intros [_ Hx]%lookup_delete_Some. by apply Hf. }
    exists r', s'. split; [done|]. split; [done..| |done]. intros k x. rewrite K4, Ht1, lookup_delete_Some. cbn.
    split; [set_solver|]. intros [Hx Hall]. assert (k <> id) by (intros ->; simplify_eq; rewrite Hall in Hp; [done|left]).
    set_solver.
Qed.
Lemma prune_orphan_fold ids s :
  entries_fine fine (orphans_of s) -> cs_chain_id s = chain ->
  exists s', try_fold prune_policy_orphan s ids = Ok s' /\
    kept_by (fun _ => True) (fun p => p.1 ∈ ids -> passes_policy p.2 = true) s s'.
Proof.
  revert s. induction ids as [|id ids IH]; intros s Hf Hc; cbn [try_fold].
  { exists s. split; [done|]. split; try done; naive_solver set_solver. }
  unfold prune_policy_orphan at 1. destruct (orphans_of s !! id) as [tx|] eqn:Etx.
  2: { destruct (IH s Hf Hc) as (s' & -> & [K1 K2 K3 K4 K5]). exists s'. split; [done|].
       split; [done..|]. intros k x. rewrite K5. set_solver. }
  rewrite (persisted_passes tx s (proj2 (Hf id tx Etx)) Hc). destruct (passes_policy tx) eqn:Hp.
  - destruct (IH s Hf Hc) as (s' & -> & [K1 K2 K3 K4 K5]). exists s'. split; [done|].
    split; [done..|]. intros k x. rewrite K5. cbn. set_solver.
  - match goal with |- context [try_fold _ ?t ids] => set (s1 := t) end.
    assert (Ht1 : orphans_of s1 = delete id (orphans_of s)) by done.
    destruct (IH s1) as (s' & -> & [K1 K2 K3 K4 K5]); [|done|].
    { intros k x. rewrite Ht1. intros [_ Hx]%lookup_delete_Some. by apply Hf. }
    exists s'. split; [done|]. split; [done..|]. intros k x. rewrite K5, Ht1, lookup_delete_Some. cbn.
    split; [set_solver|]. intros [Hx Hall]. assert (k <> id) by (intros ->; simplify_eq; rewrite Hall in Hp; [done|left]).
    set_solver.
Qed.
(** The pruning keeps exactly what passes the policy. *)
Lemma prune_persisted_exact s :
  entries_fine fine (txs_of s) -> entries_fine fine (orphans_of s) -> cs_chain_id s = chain ->
  exists removed s', prune_persisted_production_fee_policy_v3 s = Ok (removed, s') /\
    kept_by (fun p => passes_policy p.2 = true) (fun p => passes_policy p.2 = true) s s'.
Proof.
  intros Hl Ho Hc. unfold prune_persisted_production_fee_policy_v3.
  destruct (prune_live_fold (sorted_ids (txs_of s)) [] s Hl Hc) as (removed & s1 & -> & [A1 A2 A3 A4 A5]).
  match goal with |- context [try_fold _ ?t (sorted_ids _)] => set (s2 := t) end.
  assert (E2 : orphans_of s2 = orphans_of s1 /\ txs_of s2 = txs_of s1) by done. destruct E2 as [E2 E3].
  assert (O1 : orphans_of s1 = orphans_of s) by (apply map_eq; intros k; apply option_eq; intros x; rewrite A5; naive_solver).
  destruct (prune_orphan_fold (sorted_ids (orphans_of s2)) s2) as (s3 & -> & [B1 B2 B3 B4 B5]);
    [by rewrite E2, O1|by cbn; congruence|].
  exists removed, s3. split; [done|]. split; [by etransitivity|by etransitivity|by etransitivity|..].
  - intros id tx. rewrite B4, E3, A4. cbn. split; [|naive_solver]. intros [[Hx Hp] _]. split; [done|].
    apply Hp, elem_of_sorted_ids. by eexists.
  - intros id tx. rewrite B5, E2, O1. cbn. split; [|naive_solver]. intros [Hx Hp]. split; [done|].
    apply Hp, elem_of_sorted_ids. by eexists.
Qed.

Lemma kept_fine live orphan s s' :
  kept_by live orphan s s' -> entries_fine fine (txs_of s) -> entries_fine fine (orphans_of s) ->
  entries_fine fine (txs_of s') /\ entries_fine fine (orphans_of s').
Proof.
  intros [K1 K2 K3 K4 K5] Hl Ho. split; intros id tx Hx; [apply K4 in Hx as [Hx _]|apply K5 in Hx as [Hx _]]; auto.
Qed.
Lemma normalized_kept s s' out :
  normalized s s' out -> kept_by (fun p => p.1 ∉ rn_removed_live_txids out) (fun p => p.1 ∉ rn_removed_orphan_txids out) s s'.
Proof.
  intros [N1 N2 N3 N4 N5 N6 N7 N8 N9]. split; [exact (f_equal cs_utxo N1)|exact (f_equal cs_dag N1)|exact (f_equal cs_chain_id N1)|..]; intros id tx;
    [rewrite N3|rewrite N8]; rewrite map_lookup_filter_Some; done.
Qed.
Lemma normalize_fine s :
  entries_fine fine (txs_of s) -> entries_fine fine (orphans_of s) -> cs_chain_id s = chain ->
  d_best_height (cs_dag s) <= u64_max ->
  exists out s', normalize_production_mempool_resources_v1 s = Some (out, s') /\ normalized s s' out.
Proof.
  intros Hl Ho Hc Hh. apply normalize_spec; [intros id tx Hx; by apply Hl|intros id tx Hx; by apply Ho|done|].
  rewrite Hc. intros id tx [Hx|Hx]; apply fits_total; [by apply (Hl id)|by apply (Ho id)].
Qed.
(** Normalizing keeps a pool consistent and its inputs available. *)
Lemma normalized_consistent s s' out : normalized s s' out -> pool_consistent s -> pool_consistent s'.
Proof.
  intros [N1 N2 N3 N4 N5 N6 N7 N8 N9] [C1 _]. split.
  - assert (Hp := pool_txs_split fine (txs_of s) (fun p => p.1 ∉ rn_removed_live_txids out)).
    unfold pool_txs in *. rewrite N3. rewrite Hp in C1. unfold all_spent in C1 |- *.
    rewrite map_app, concat_app in C1. by apply NoDup_app in C1 as [? _].
  - intros o. rewrite (N5 o), elem_of_all_spent. setoid_rewrite elem_of_pool_txs. unfold spent_outpoints.
    setoid_rewrite list_elem_of_fmap. naive_solver.
Qed.
Lemma normalized_available s s' out : normalized s s' out -> pool_available s -> pool_available s'.
Proof.
  intros Hn Ha id tx i Hx Hi. destruct (normalized_kept _ _ _ Hn) as [K1 K2 K3 K4 K5].
  destruct (proj1 (K4 id tx) Hx) as [Hx0 _]. specialize (Ha id tx i Hx0 Hi).
  pose proof (nz_family _ _ _ Hn id tx i Hx Hi) as Hfam. unfold tx_output_amount in *. rewrite K1.
  destruct (u_utxos (cs_utxo s) !! in_previous_output i); [done|].
  destruct (txs_of s !! op_txid (in_previous_output i)) as [parent|] eqn:Ep; [|by destruct Ha].
  destruct Hfam as [parent' Hp']; [by eexists|]. destruct (proj1 (K4 _ _) Hp') as [Hp0 _].
  rewrite Hp'. by simplify_eq.
Qed.

(** What a successful reconciliation leaves. *)
Record policy_reconciled (s s' : ChainState) : Prop := {
  pq_utxo : cs_utxo s' = cs_utxo s;
  pq_dag : cs_dag s' = cs_dag s;
  pq_live : txs_of s' ⊆ txs_of s;
  pq_orphans : orphans_of s' ⊆ orphans_of s;
  pq_consistent : pool_consistent s';
  pq_available : pool_available s';
  pq_limits : production_mempool_resource_invariants_v1 s' = Some true;
  pq_policy : forall id tx, txs_of s' !! id = Some tx \/ orphans_of s' !! id = Some tx -> passes_policy tx = true;
}.
Lemma policy_reconcile_total (reconcile : ChainState -> option (outcome MempoolReconcileResult * ChainState)) s :
  (forall s1, entries_fine fine (txs_of s1) -> cs_chain_id s1 = cs_chain_id s -> cs_dag s1 = cs_dag s ->
     exists r s2, reconcile s1 = Some (Ok r, s2) /\ reconciled s1 s2) ->
  entries_fine fine (txs_of s) -> entries_fine fine (orphans_of s) -> cs_chain_id s = chain ->
  d_best_height (cs_dag s) <= u64_max ->
  exists r s', policy_reconcile reconcile s = Some (Ok r, s') /\ policy_reconciled s s'.
Proof.
  intros Hrec Hl Ho Hc Hh. unfold policy_reconcile.
  destruct (normalize_fine s Hl Ho Hc Hh) as (out1 & s1 & -> & N1). pose proof (normalized_kept _ _ _ N1) as K1.
  destruct (kept_fine _ _ _ _ K1 Hl Ho) as [L1 O1].
  destruct (prune_persisted_exact s1 L1 O1) as (pruned & s2 & -> & K2); [by rewrite (kb_chain _ _ _ _ K1)|].
  destruct (kept_fine _ _ _ _ K2 L1 O1) as [L2 O2].
  destruct K1 as [A1 A2 A3 A4 A5], K2 as [B1 B2 B3 B4 B5].
  destruct (Hrec s2 L2) as (r & s3 & -> & [R1 R2 R3 R4 R5 R6 R7 R8]); [congruence..|].
  assert (L3 : entries_fine fine (txs_of s3)) by (intros id tx Hx; apply L2; by eapply lookup_weaken).
  destruct (normalize_fine s3) as (out2 & s4 & -> & N2); [done|by rewrite R5|congruence|by rewrite R2, B2, A2|].
  destruct (normalized_kept _ _ _ N2) as [D1 D2 D3 D4 D5].
  assert (Hlive : forall id tx, txs_of s4 !! id = Some tx -> txs_of s2 !! id = Some tx).
  { intros id tx [Hx _]%D4. by eapply lookup_weaken. }
  assert (Horph : forall id tx, orphans_of s4 !! id = Some tx -> orphans_of s2 !! id = Some tx).
  { intros id tx [Hx _]%D5. by rewrite R5 in Hx. }
  eexists _, _. split; [done|]. split; [congruence|congruence|..].
  - apply map_subseteq_spec. intros id tx Hx%Hlive. apply B4 in Hx as [Hx _]. by apply A4 in Hx as [Hx _].
  - apply map_subseteq_spec. intros id tx Hx%Horph. apply B5 in Hx as [Hx _]. by apply A5 in Hx as [Hx _].
  - by eapply normalized_consistent.
  - by eapply normalized_available.
  - apply N2.
  - intros id tx [Hx%Hlive|Hx%Horph]; [by apply B4 in Hx as [_ Hx]|by apply B5 in Hx as [_ Hx]].
Qed.
End policy_reconcile_props.

(** Under the legacy validation. *)
Lemma production_reconcile_sound `{HashOrder, Crypto, CarrierJson} s :
  let fine := admission_fine ValidationLegacyV1 (Some policy_production_default) (cs_chain_id s) in
  entries_fine fine (txs_of s) -> entries_fine fine (orphans_of s) -> d_best_height (cs_dag s) <= u64_max ->
  exists r s', reconcile_mempool_with_production_policy_v3 s = Some (Ok r, s') /\ policy_reconciled (cs_chain_id s) s s'.
Proof.
  intros fine Hl Ho Hh. apply (policy_reconcile_total fine (cs_chain_id s)); try done.
  - intros tx [_ Hs]. by apply Hs.
  - intros s1 Hf _ _. pose proof (al_reconcile (AdmissionLaws := legacy_laws) s1) as Hr. cbn in Hr.
    destruct (reconcile_mempool s1) as [[r s2]|]; [exists r, s2; split; [done|]|exfalso]; apply Hr;
      intros id tx Hx; (split; [by apply (Hf id tx)|apply (Hf id tx Hx)]).
Qed.
(** Under a protocol identity that fits the state; any other is refused untouched. *)
Lemma production_reconcile_for_protocol_sound `{HashOrder, Crypto, CarrierJson} identity s :
  let fine := admission_fine (ValidationProtocol identity) (Some policy_production_default) (cs_chain_id s) in
  entries_fine fine (txs_of s) -> entries_fine fine (orphans_of s) -> d_best_height (cs_dag s) <= u64_max ->
  exists r s', reconcile_mempool_with_production_policy_v3_for_protocol identity s = Some (r, s') /\
    match r with
    | Ok _ => is_ok (resolve_transaction_validation_path identity s) = true /\ policy_reconciled (cs_chain_id s) s s'
    | Err err => resolve_transaction_validation_path identity s = Err err /\ s' = s
    end.
Proof.
  intros fine Hl Ho Hh. unfold reconcile_mempool_with_production_policy_v3_for_protocol.
  destruct (resolve_transaction_validation_path identity s) as [path|[err|]] eqn:Ep;
    [|by eexists _, _|by apply resolve_no_panic in Ep].
  match goal with |- context [policy_reconcile ?f s] => destruct (policy_reconcile_total fine (cs_chain_id s) ltac:(intros tx [_ Hs]; by apply Hs) f s)
    as (r & s' & -> & Hq) end; try done; [|by eexists _, _].
  intros s1 Hf Ec Ed. pose proof (al_reconcile (AdmissionLaws := protocol_laws identity) s1) as Hr. cbn in Hr.
  assert (Ep1 : resolve_transaction_validation_path identity s1 = Ok path).
  { unfold resolve_transaction_validation_path in *. by rewrite Ec, Ed. }
  rewrite reconcile_for_protocol_with, Ep1 in *. cbn in Hr |- *.
  destruct (reconcile_with _ s1) as [[r s2]|]; [exists r, s2; split; [done|]|exfalso]; apply Hr;
    intros id tx Hx; (split; [by apply (Hf id tx)|apply (Hf id tx Hx)]).
Qed.
